(* ===== verification/_CoqProject ===== *)
-Q . S2P
Prelude.v
CList.v
CListStore.v
CListIter.v
Words.v
Memory.v
HList.v
HashTable.v
Hashes.v
HashKeys.v
Random.v
Base64.v
UrlCode.v
StrNum.v
IpList.v
Component.v
Cells.v
FixedMempool.v
Fifo.v
Lifo.v
FdQueue.v
Gc.v
Dispatch.v
Timewheel.v
Coroutine.v
Sched.v
Machine.v
LList.v
FdCtx.v
WaitQueue.v
Net.v
NetHook.v
HookIo.v
HookFd.v
HookTime.v
Pcond.v
EventNotify.v
DiskIo.v
Module.v
Pbc.v
CmdBase.v
PacketStream.v
RpcBase.v
RpcServer.v
UdpServer.v
RpcAsync.v
TcpServer.v
LoadBalance.v
WriteAll.v
Duplex.v
WebSocket.v
HttpServer.v
