(* ===== verification/Prelude.v ===== *)
(** * conet: a verification development

    conet (src/) is a C++ framework for network servers on coroutines.  A process
    has a coroutine environment per thread (core/coroutine_env.h): the scheduler,
    a dispatcher of tasks, a timer wheel and an epoll loop.  Coroutines call
    blocking operations (poll, wait on a queue, join); each such call puts the
    caller into a list and yields, and the loop resumes it when its event or its
    timer comes.  base/ holds the containers, codecs and allocators underneath,
    svrkit/ the servers on top.  This development models base/ and core/ where they
    carry the logic of the program, and svrkit/ from the message headers to remote
    calls: the commands of a server, the servers for TCP, UDP, HTTP and web sockets, and
    the clients.

    ** How the code is modelled

    A C function is a function into [outcome] (this file): [Done] is a return,
    [Fault] is undefined behaviour or an abort, [NoFuel] means that the fuel of a
    loop was too small.  The theorems that mention fuel say how much is enough: the
    length of the list that a loop visits, the number of slots it scans, or, for
    the growing tables, [FdCtx.fuel_for].  Pointers are keys of finite maps, so that
    a dangling one faults; an integer is a [Z] that wraps where its C type does
    (Words); raw bytes live in a byte-addressed memory (Memory).  A component is a
    part of an arbitrary world [W] (Component), and a callback, a resumed coroutine
    included, is a function on that world.  What is not under src/ is a parameter
    with its documented behaviour as a hypothesis: the kernel (epoll, fcntl),
    malloc, the C library's number parser is written out.  The atomic operations of
    the lock-free structures are steps of threads on a sequentially consistent
    memory.

    ** The files

    - base/list.h: CList (the operations on pointers), CListStore (stores of
      disjoint lists), CListIter (the iteration macros and their loop rules),
      HList (the hlist half), Cells (the lists of a component).
    - base/hash_table_base.h: HashTable; its keys (int_map.h, str_map.h,
      addr_map.h, ref_str.h): HashKeys; the hash functions (murmurhash3.cpp,
      bobhash.cpp): Hashes.
    - base/ containers and allocators: Fifo, Lifo, FixedMempool; the lock-free
      ones: FdQueue (fd_queue.h), LList (llist.h).
    - base/ codecs and texts: Base64, UrlCode, StrNum (string2number.h), IpList,
      Random.
    - core/coroutine.cpp, core/coroutine_env.cpp: Coroutine (data and operations;
      an operation that ends in a context switch returns the [switch] it jumps
      to), Sched (the invariant and the effect of each operation), Machine (the
      operations with coroutine bodies and saved contexts).
    - core/dispatch.cpp: Dispatch.  core/timewheel.cpp: Timewheel, a client of the
      dispatcher.  core/src/network.cpp: Net.  core/src/wait_queue.cpp: WaitQueue.
      core/src/fd_ctx.cpp: FdCtx.  core/src/gc.cpp: Gc.
    - core/src/network_hook.cpp: NetHook (the hooked system calls, programs of a
      state monad over [outcome]); their theorems: HookIo (reads and writes),
      HookFd (descriptors and flags), HookTime (sleep, epoll_wait, select).  The
      kernel is a function on its own state; what it promises is the class
      [HookIo.Poller] for calls that wait, [HookFd.Descriptors] for open files.
    - core/src/pthread_hook.cpp: Pcond (condition variables on CList and LList).
      core/event_notify.h: EventNotify, and core/src/disk_io_hook.cpp: DiskIo, both
      clients of NetHook.
    - base/module.cpp: Module (modules initialised in the order of their
      dependencies).
    - The path of a message: base/pbc.cpp: Pbc (the wire format of protocol
      buffers), svrkit/cmd_base.h: CmdBase (the header of a request or response,
      written in that format), base/net_tool.cpp: PacketStream (packets with a
      length in front, on a stream of bytes) and WriteAll (write_all).
    - svrkit/: RpcBase (rpc_pb_server_base: the commands of a server and the call
      of one), RpcServer (rpc_pb_server.cpp and rpc_pb_client: a connection's loop,
      a client's call, and both ends together), RpcAsync (channel.cpp and the
      asynchronous half of rpc_pb_server.cpp: requests that share a connection),
      Duplex (rpc_pb_client_duplex: their client), TcpServer and UdpServer
      (tcp_server.cpp, udp_server.cpp: main loop and workers as steps that
      interleave), LoadBalance (load_balance.h).  http_server.cpp: HttpServer (responses
      with base/string_builder.h, commands and the loop of a connection around the
      generated parser) and WebSocket (frames, the state machine that reads them, and
      the life of a connection), which HttpServer's upgrade calls.  RpcServer's class of commands is
      [RpcServer.handler], the contract that a callback has to keep.

    A definition has the name of the C function or struct it models; a function
    that yields is two ([wait_on_begin], [wait_on_end]), and a loop body or an
    expression that a theorem speaks about has a name of its own.

    ** What is proved

    - Containers refine their abstract values under every sequence of calls:
      [list_api_refines], [hlist_api_refines], [hash_table_refines],
      [fifo_refines], [lifo_refines], [mempool_refines], [fd_ctx_table]; the
      lock-free ones under every interleaving that their comments allow:
      [fd_queue_fifo], [llist_linearizable].
    - The scheduler keeps its invariant and never jumps to a coroutine without a
      context: [machine_safe], with [scheduler_starts], [coroutine_exit],
      [waiter_woken] and [delayed_deletion].
    - The event sources call back exactly what they should, once and in order:
      [proc_tasks_round], [check_fires], [netevent_round], [wakeups]; the kernel's
      interest set agrees with the tables: [interest_set_kept].  What a waiter
      gets: [wait_on_result], [co_poll_outcome], [cond_wakeup_all_forgets_none].
    - The hooked system calls look like blocking ones on descriptors that the
      kernel has as non-blocking: [hooked_descriptors_nonblocking],
      [hooked_io_waits], [fcntl_transparent], [hooks_transparent],
      [select_reports], but for what a poll announces and a call then does not find:
      [spurious_readiness]; they end when they should: [epoll_loop_terminates],
      [hooked_sleep_bounds].  Overlapping file operations get ranges of their own:
      [disk_ranges_consecutive].  Condition variables queue their waiters:
      [pcond_refines].
    - Modules start after those that they depend on and stop in the reverse order:
      [init_order], [fin_reverses_init], and, when all names resolve and no init function
      fails, the walk ends exactly without a cycle: [init_returns_iff_acyclic].
    - A message survives the wire: [pb_roundtrip], [cmd_base_roundtrip], and in
      packets [send_data_delivers], [packets_delivered],
      [read_packet_timeout_sound]; its readers and writers stay in their buffers on
      any bytes: [pb_reader_total], [pb_writer_bounded], but for the histories
      below.
    - A remote call does what the command would do locally: [commands_found] for
      the tables of a server, [call_answered] for both ends of a connection,
      [async_requests_run] for requests that come in any pieces, [channel_in_order],
      [requests_sent] and [responses_matched] for calls that share a connection.
      [call_answered] counts the runs of the commands in a history of the server.
      Whole HTTP requests whose lengths are known are served once each and in order:
      [requests_served]; frames
      of a web socket are handled as they are complete: [frames_delivered],
      [message_roundtrip]; queued frames leave in order, and an idle connection ends:
      [do_write_in_order], [idle_connection_closes].
      Servers and clients keep their resources apart: [connections_bounded],
      [udp_buffers_exclusive], [connections_exclusive].
    - The codecs compute their reference functions and round-trip as far as they
      do: Base64, UrlCode, StrNum, IpList; the hashes depend on the key alone.
    - Where the code does not do what it means to, a theorem shows the history:
      [cancel_now_loses_timer], [exit_notify_stale], [poll_nothing_loses_events],
      [close_under_poll], [ScopeGC_frees_outer], [fd_queue_aba],
      [wakeup_all_livelock], [fd_ctx_overrun], [read_and_send_exceptions],
      [fcntl_dupfd_recurses], [dup2_self_loses_context], [event_notify_spins],
      [pcond_lost_wakeups], [timed_wait_ms], [close_leaves_file_context],
      [init_failure_forgotten], [parse_accepts_all], [parse_confuses_types],
      [udp_request_not_serialized], [send_cmd_base_overflows], [timeout_loses_bytes],
      [init_drops_pipelined], [next_packet_wraps], [clone_drops_obj_mgr],
      [response_reused], [failed_void_command_faults], [nameless_request_faults],
      [failed_call_parses_junk], [wrapped_length_erases], [batch_shares_address],
      [no_hosts_fault], [write_all_repeats_byte], [udp_answer_stale],
      [udp_leaks_previous_request], [split_head_shifts_body], [late_body_is_a_request],
      [negative_length_repeats], [stale_length_skips], [overflow_leaks], [response_format_truncates],
      [split_length_hangs], [huge_length_faults], [long_length_wrong],
      [small_frames_close], and the statements of [async_requests_run],
      [requests_sent], [responses_matched], [connections_bounded], [fifo_refines], [base64_roundtrip], [number2string_roundtrip] and
      [url_roundtrip] say where the errors are.

    ** Not modelled

    qjs/ is a vendored JavaScript engine.  Of svrkit/, the HTTP
    interface of the commands glues JSON to them, and
    server_builder, server_common and stat_mgr set servers up from configuration files;
    the servers' creation of sockets and their clean-up, the variant of the TCP server
    that receives descriptors from another process, the start and stop of channels, the
    receiving half of a UDP call and the duplex client's reconnecting are left out.  A
    callback of a command is one step: coroutine switches inside of it are not modelled.
    base/ has bindings (lua, protobuf,
    sqlite, xml, json) and debugging aids (addr2line, sigsegv, stacktrace, plog) that
    only call other libraries, and net_tool.cpp has helpers that create, bind and
    configure sockets; the ragel grammars (http_parser.rl, query_string.rl, redis_parse.rl)
    are inputs of a generator: HttpServer has the C functions of http_parser.rl, and the
    machine that they run is a parameter.  The HTTP server's list of web sockets, which
    nothing reads, is left out.  Of core/, the hooks of malloc and time and the
    stacks of the coroutines are left out, as are epoll_ctx_t's buffers, the
    creation of the asynchronous I/O context and of the map of condition
    variables, the timerfd coroutine of the wheel, and the hooks of
    gethostbyname, which call c-ares.  base/lifo_lockfree.h is a saved web page. *)
From stdpp Require Export base tactics option list gmap.
From Stdlib Require Export ZArith Lia.

#[global] Open Scope Z_scope.

(** ** Outcomes of C code

    A C function is modelled by a function into [outcome]: [Done a] is a normal
    return, [Fault] is undefined behaviour or an abort (a null or dangling
    pointer is followed, a failed [assert]), and [NoFuel] says that the fuel
    given to a loop of the model was used up before the C loop ended. *)
Inductive outcome (A : Type) : Type :=
| Done (a : A)
| Fault
| NoFuel.
Arguments Done {A} a.
Arguments Fault {A}.
Arguments NoFuel {A}.

#[global] Instance outcome_ret : MRet outcome := fun A a => Done a.
#[global] Instance outcome_bind : MBind outcome := fun A B f m =>
  match m with
  | Done a => f a
  | Fault => Fault
  | NoFuel => NoFuel
  end.
#[global] Instance outcome_fmap : FMap outcome := fun A B f m =>
  match m with
  | Done a => Done (f a)
  | Fault => Fault
  | NoFuel => NoFuel
  end.

(** [of_option] turns a failed lookup into a fault. *)
Definition of_option {A} (o : option A) : outcome A :=
  match o with Some a => Done a | None => Fault end.

(** C's [assert]. *)
Definition c_assert (b : bool) : outcome unit :=
  if b then Done () else Fault.

Section outcome_laws.
Context {A B C : Type}.

Lemma outcome_bind_ret (a : A) (f : A -> outcome B) : (Done a ≫= f) = f a.
Proof. reflexivity. Qed.

Lemma outcome_bind_assoc (m : outcome A) (f : A -> outcome B) (g : B -> outcome C) :
  ((m ≫= f) ≫= g) = (m ≫= (fun a => f a ≫= g)).
Proof. by destruct m. Qed.

Lemma outcome_bind_Done (m : outcome A) (f : A -> outcome B) b :
  (m ≫= f) = Done b <-> exists a, m = Done a /\ f a = Done b.
Proof.
  split; [destruct m; naive_solver | by intros (a & -> & ?)].
Qed.
End outcome_laws.

(** Split every [m ≫= f = Done _] hypothesis into its steps. *)
Ltac inv_outcome :=
  repeat match goal with
  | H : (_ ≫= _) = Done _ |- _ =>
      apply outcome_bind_Done in H; destruct H as (? & ? & ?)
  | H : Done _ = Done _ |- _ => injection H as H; subst
  | H : Fault = Done _ |- _ => discriminate H
  | H : NoFuel = Done _ |- _ => discriminate H
  | H : of_option ?o = Done _ |- _ =>
      let E := fresh "Hlk" in destruct o eqn:E; simpl in H
  end.

(** ** Lists *)
Section lists.
Context {A : Type}.
Implicit Types (l : list A) (x : A).

Lemma last_snoc_cases l : l = [] \/ exists l' x, l = l' ++ [x].
Proof. induction l as [|x l _] using rev_ind; eauto. Qed.

Lemma app_cons_snoc l1 x l2 : l1 ++ x :: l2 = (l1 ++ [x]) ++ l2.
Proof. by rewrite <-app_assoc. Qed.

Lemma list_filter_iff_in (P Q : A -> Prop) `{!forall x, Decision (P x), !forall x, Decision (Q x)} l :
  (forall x, x ∈ l -> P x <-> Q x) -> filter P l = filter Q l.
Proof.
  induction l as [|x l IH]; intros HPQ; [done|].
  assert (IH' : filter P l = filter Q l) by (apply IH; intros; apply HPQ; by right).
  destruct (decide (P x)) as [HP|HP].
  - rewrite !filter_cons_True; [by f_equal|apply HPQ; [left|done]|done].
  - rewrite !filter_cons_False; [done|rewrite <-HPQ; [done|left]|done].
Qed.

Lemma list_bind_ext_in {B} (f g : A -> list B) l :
  (forall x, x ∈ l -> f x = g x) -> (l ≫= f) = (l ≫= g).
Proof.
  induction l as [|x l IH]; intros Hfg; [done|]. rewrite !bind_cons, Hfg by left.
  f_equal. apply IH. intros y Hy. apply Hfg. by right.
Qed.
End lists.
