(* ===== verification/CList.v ===== *)
(** * base/list.h: the intrusive circular doubly linked lists

    The cells are kept in a heap [gmap K (link K)], one [link] per [list_head]
    (the address of the member is the key), and the operations do the pointer
    writes of the C code in the C code's order.  [ring] says that a list head
    and its entries form a closed doubly linked ring, [repr] that a heap holds
    a whole store of disjoint lists [gmap K (list K)], and the refinement
    lemmas show that every operation implements its list-level meaning.
    A node that is in no list is a ring of its own, as [INIT_LIST_HEAD] makes
    it, so the store also maps each detached node to []. *)
From S2P Require Import Prelude.

(** struct list_head { struct list_head *next, *prev; } *)
Record link (K : Type) := Link { next : option K; prev : option K }.
Arguments Link {K} _ _.
Arguments next {K} _.
Arguments prev {K} _.

Abbreviation heap K := (gmap K (link K)).

Section ops.
Context {K : Type} `{Countable K}.
Implicit Types (h : heap K) (a b k : K) (p v : option K).

(** Loads and stores through a [list_head] pointer. *)
Definition get_next (p : option K) (h : heap K) : outcome (option K) :=
  k ← of_option p; l ← of_option (h !! k); Done (next l).

Definition get_prev (p : option K) (h : heap K) : outcome (option K) :=
  k ← of_option p; l ← of_option (h !! k); Done (prev l).

Definition set_next (p v : option K) (h : heap K) : outcome (heap K) :=
  k ← of_option p; l ← of_option (h !! k); Done (<[k := Link v (prev l)]> h).

Definition set_prev (p v : option K) (h : heap K) : outcome (heap K) :=
  k ← of_option p; l ← of_option (h !! k); Done (<[k := Link (next l) v]> h).

Definition INIT_LIST_HEAD (list : K) (h : heap K) : outcome (heap K) :=
  h ← set_next (Some list) (Some list) h;
  set_prev (Some list) (Some list) h.

Definition __list_add (new_ : K) (prev next : option K) (h : heap K) : outcome (heap K) :=
  h ← set_prev next (Some new_) h;
  h ← set_next (Some new_) next h;
  h ← set_prev (Some new_) prev h;
  set_next prev (Some new_) h.

Definition list_add (new_ head : K) (h : heap K) : outcome (heap K) :=
  n ← get_next (Some head) h;
  __list_add new_ (Some head) n h.

Definition list_add_tail (new_ head : K) (h : heap K) : outcome (heap K) :=
  p ← get_prev (Some head) h;
  __list_add new_ p (Some head) h.

Definition __list_del (prev next : option K) (h : heap K) : outcome (heap K) :=
  h ← set_prev next prev h;
  set_next prev next h.

Definition list_del (entry : K) (h : heap K) : outcome (heap K) :=
  p ← get_prev (Some entry) h;
  n ← get_next (Some entry) h;
  h ← __list_del p n h;
  h ← set_next (Some entry) None h;
  set_prev (Some entry) None h.

Definition list_replace (old new_ : K) (h : heap K) : outcome (heap K) :=
  n ← get_next (Some old) h;
  h ← set_next (Some new_) n h;
  n ← get_next (Some new_) h;
  h ← set_prev n (Some new_) h;
  p ← get_prev (Some old) h;
  h ← set_prev (Some new_) p h;
  p ← get_prev (Some new_) h;
  set_next p (Some new_) h.

Definition list_replace_init (old new_ : K) (h : heap K) : outcome (heap K) :=
  h ← list_replace old new_ h;
  INIT_LIST_HEAD old h.

Definition list_del_init (entry : K) (h : heap K) : outcome (heap K) :=
  p ← get_prev (Some entry) h;
  n ← get_next (Some entry) h;
  h ← __list_del p n h;
  INIT_LIST_HEAD entry h.

Definition list_move (list head : K) (h : heap K) : outcome (heap K) :=
  p ← get_prev (Some list) h;
  n ← get_next (Some list) h;
  h ← __list_del p n h;
  list_add list head h.

Definition list_move_tail (list head : K) (h : heap K) : outcome (heap K) :=
  p ← get_prev (Some list) h;
  n ← get_next (Some list) h;
  h ← __list_del p n h;
  list_add_tail list head h.

Definition list_is_last (list head : K) (h : heap K) : outcome bool :=
  n ← get_next (Some list) h;
  Done (bool_decide (n = Some head)).

Definition list_empty (head : K) (h : heap K) : outcome bool :=
  n ← get_next (Some head) h;
  Done (bool_decide (n = Some head)).

Definition list_empty_careful (head : K) (h : heap K) : outcome bool :=
  n ← get_next (Some head) h;
  p ← get_prev (Some head) h;
  Done (bool_decide (n = Some head) && bool_decide (n = p)).

Definition list_is_singular (head : K) (h : heap K) : outcome bool :=
  e ← list_empty head h;
  n ← get_next (Some head) h;
  p ← get_prev (Some head) h;
  Done (negb e && bool_decide (n = p)).

Definition __list_cut_position (list head entry : K) (h : heap K) : outcome (heap K) :=
  new__first ← get_next (Some entry) h;
  n ← get_next (Some head) h;
  h ← set_next (Some list) n h;
  n ← get_next (Some list) h;
  h ← set_prev n (Some list) h;
  h ← set_prev (Some list) (Some entry) h;
  h ← set_next (Some entry) (Some list) h;
  h ← set_next (Some head) new__first h;
  set_prev new__first (Some head) h.

Definition list_cut_position (list head entry : K) (h : heap K) : outcome (heap K) :=
  e ← list_empty head h;
  if (e : bool) then Done h else
  s ← list_is_singular head h;
  n ← get_next (Some head) h;
  if (s && negb (bool_decide (n = Some entry)) && negb (bool_decide (head = entry)))
  then Done h
  else if bool_decide (entry = head) then INIT_LIST_HEAD list h
  else __list_cut_position list head entry h.

Definition __list_splice (list : K) (prev next : option K) (h : heap K) : outcome (heap K) :=
  first ← get_next (Some list) h;
  last ← get_prev (Some list) h;
  h ← set_prev first prev h;
  h ← set_next prev first h;
  h ← set_next last next h;
  set_prev next last h.

Definition list_splice (list head : K) (h : heap K) : outcome (heap K) :=
  e ← list_empty list h;
  if (e : bool) then Done h else
  n ← get_next (Some head) h;
  __list_splice list (Some head) n h.

Definition list_splice_tail (list head : K) (h : heap K) : outcome (heap K) :=
  e ← list_empty list h;
  if (e : bool) then Done h else
  p ← get_prev (Some head) h;
  __list_splice list p (Some head) h.

Definition list_splice_init (list head : K) (h : heap K) : outcome (heap K) :=
  e ← list_empty list h;
  if (e : bool) then Done h else
  n ← get_next (Some head) h;
  h ← __list_splice list (Some head) n h;
  INIT_LIST_HEAD list h.

Definition list_splice_tail_init (list head : K) (h : heap K) : outcome (heap K) :=
  e ← list_empty list h;
  if (e : bool) then Done h else
  p ← get_prev (Some head) h;
  h ← __list_splice list p (Some head) h;
  INIT_LIST_HEAD list h.

Definition list_pop_head (head : K) (h : heap K) : outcome (option K * heap K) :=
  e ← list_empty head h;
  if (e : bool) then Done (None, h) else
  n ← get_next (Some head) h;
  k ← of_option n;
  h ← list_del_init k h;
  Done (Some k, h).

Definition list_pop_tail (head : K) (h : heap K) : outcome (option K * heap K) :=
  e ← list_empty head h;
  if (e : bool) then Done (None, h) else
  n ← get_prev (Some head) h;
  k ← of_option n;
  h ← list_del_init k h;
  Done (Some k, h).

(** The local variable [mid] of [list_swap] is the cell at the fresh address
    [mid], uninitialised on entry and gone on return. *)
Definition list_swap (mid l r : K) (h : heap K) : outcome (heap K) :=
  let h := <[mid := Link None None]> h in
  h ← list_add mid l h;
  h ← list_del_init l h;
  h ← list_add l r h;
  h ← list_del_init r h;
  h ← list_add r mid h;
  h ← list_del_init mid h;
  Done (delete mid h).
End ops.

(** ** Loads and stores as equations *)
Section heap_lemmas.
Context {K : Type} `{Countable K}.
Implicit Types (h : heap K) (a b k x : K) (v : option K).

Definition nxt (h : heap K) (a : K) : option K := h !! a ≫= next.
Definition prv (h : heap K) (a : K) : option K := h !! a ≫= prev.
Definition alloc (h : heap K) (a : K) : Prop := is_Some (h !! a).

(** The stores as total functions: what [set_next] and [set_prev] do to an
    allocated cell. *)
Definition upd_next a v h : heap K := alter (fun c : link K => Link v (prev c)) a h.
Definition upd_prev a v h : heap K := alter (fun c : link K => Link (next c) v) a h.

Lemma get_next_alloc h a : alloc h a -> get_next (Some a) h = Done (nxt h a).
Proof. intros [l Hl]. unfold get_next, nxt. simpl. by rewrite Hl. Qed.

Lemma get_prev_alloc h a : alloc h a -> get_prev (Some a) h = Done (prv h a).
Proof. intros [l Hl]. unfold get_prev, prv. simpl. by rewrite Hl. Qed.

Lemma insert_alter (f : link K -> link K) a h l :
  h !! a = Some l -> <[a := f l]> h = alter f a h.
Proof.
  intros Hl. apply map_eq. intros c.
  destruct (decide (a = c)) as [->|?].
  - by rewrite lookup_insert_eq, lookup_alter_eq, Hl.
  - by rewrite lookup_insert_ne, lookup_alter_ne.
Qed.

Lemma set_next_alloc h a v : alloc h a -> set_next (Some a) v h = Done (upd_next a v h).
Proof.
  intros [l Hl]. unfold set_next. simpl. rewrite Hl. simpl.
  unfold upd_next. by rewrite <-(insert_alter _ a h l).
Qed.

Lemma set_prev_alloc h a v : alloc h a -> set_prev (Some a) v h = Done (upd_prev a v h).
Proof.
  intros [l Hl]. unfold set_prev. simpl. rewrite Hl. simpl.
  unfold upd_prev. by rewrite <-(insert_alter _ a h l).
Qed.

Lemma alloc_upd_next h a v c : alloc (upd_next a v h) c <-> alloc h c.
Proof. unfold alloc, upd_next. rewrite lookup_alter_is_Some. done. Qed.
Lemma alloc_upd_prev h a v c : alloc (upd_prev a v h) c <-> alloc h c.
Proof. unfold alloc, upd_prev. rewrite lookup_alter_is_Some. done. Qed.

Lemma nxt_upd_next_eq h a v : alloc h a -> nxt (upd_next a v h) a = v.
Proof. intros [l Hl]. unfold nxt, upd_next. by rewrite lookup_alter_eq, Hl. Qed.
Lemma nxt_upd_next_ne h a v c : c <> a -> nxt (upd_next a v h) c = nxt h c.
Proof. intros. unfold nxt, upd_next. by rewrite lookup_alter_ne. Qed.
Lemma prv_upd_prev_eq h a v : alloc h a -> prv (upd_prev a v h) a = v.
Proof. intros [l Hl]. unfold prv, upd_prev. by rewrite lookup_alter_eq, Hl. Qed.
Lemma prv_upd_prev_ne h a v c : c <> a -> prv (upd_prev a v h) c = prv h c.
Proof. intros. unfold prv, upd_prev. by rewrite lookup_alter_ne. Qed.
Lemma prv_upd_next h a v c : prv (upd_next a v h) c = prv h c.
Proof.
  unfold prv, upd_next. destruct (decide (a = c)) as [->|?].
  - rewrite lookup_alter_eq. by destruct (h !! c).
  - by rewrite lookup_alter_ne.
Qed.
Lemma nxt_upd_prev h a v c : nxt (upd_prev a v h) c = nxt h c.
Proof.
  unfold nxt, upd_prev. destruct (decide (a = c)) as [->|?].
  - rewrite lookup_alter_eq. by destruct (h !! c).
  - by rewrite lookup_alter_ne.
Qed.

(** The links are read off the cell. *)
Lemma nxt_cell h h' a : h' !! a = h !! a -> nxt h' a = nxt h a.
Proof. unfold nxt. by intros ->. Qed.
Lemma prv_cell h h' a : h' !! a = h !! a -> prv h' a = prv h a.
Proof. unfold prv. by intros ->. Qed.
Lemma alloc_cell h h' a : h' !! a = h !! a -> alloc h' a <-> alloc h a.
Proof. unfold alloc. by intros ->. Qed.
Lemma nxt_lookup h a c : h !! a = Some c -> nxt h a = next c.
Proof. unfold nxt. by intros ->. Qed.
Lemma prv_lookup h a c : h !! a = Some c -> prv h a = prev c.
Proof. unfold prv. by intros ->. Qed.
Lemma alloc_Some h a : alloc h a <-> is_Some (h !! a).
Proof. done. Qed.
End heap_lemmas.

#[global] Opaque upd_next upd_prev nxt prv alloc.

(** Run the loads and stores of an operation whose cells are known allocated. *)

Ltac solve_alloc := repeat (rewrite alloc_upd_next || rewrite alloc_upd_prev); assumption.
Ltac heap_step :=
  first [ rewrite set_next_alloc by solve_alloc
        | rewrite set_prev_alloc by solve_alloc
        | rewrite get_next_alloc by solve_alloc
        | rewrite get_prev_alloc by solve_alloc ]; simpl.
(** Read a link of an updated heap, with the disequalities in the context. *)
Ltac read_link :=
  repeat first
    [ rewrite prv_upd_next | rewrite nxt_upd_prev
    | rewrite nxt_upd_next_eq by solve_alloc
    | rewrite prv_upd_prev_eq by solve_alloc
    | rewrite nxt_upd_next_ne by congruence
    | rewrite prv_upd_prev_ne by congruence ].

(** ** Chains and rings *)
Section chains.
Context {K : Type} `{Countable K}.
Implicit Types (h : heap K) (a b c k x : K) (l : list K).

Definition linked h a b : Prop := nxt h a = Some b /\ prv h b = Some a.

(** Consecutive elements of [l] point to each other. *)
Fixpoint chain h (l : list K) : Prop :=
  match l with
  | a :: ((b :: _) as r) => linked h a b /\ chain h r
  | _ => True
  end.

(** The head [k] and the entries [l] form a closed ring. *)
Definition ring h (k : K) (l : list K) : Prop :=
  chain h (k :: l ++ [k]) /\ forall a, a ∈ k :: l -> alloc h a.

Lemma chain_app h l1 x l2 :
  chain h (l1 ++ x :: l2) <-> chain h (l1 ++ [x]) /\ chain h (x :: l2).
Proof.
  induction l1 as [|a l1 IH]; [simpl; tauto|].
  destruct l1 as [|b l1]; [simpl; tauto|].
  simpl in *. rewrite IH. tauto.
Qed.

(** Two chains whose links [h'] keeps, joined by a new link from [a] to [b]. *)
Lemma chain_join h h' l1 a b l2 :
  chain h (l1 ++ [a]) -> chain h (b :: l2) ->
  linked h' a b ->
  (forall c, c ∈ l1 \/ c ∈ removelast (b :: l2) -> nxt h' c = nxt h c) ->
  (forall c, c ∈ tail (l1 ++ [a]) \/ c ∈ l2 -> prv h' c = prv h c) ->
  chain h' (l1 ++ a :: b :: l2).
Proof.
  intros H1 H2 Hab Hn Hp. apply chain_app. split.
  - clear H2. assert (Hn' : forall c, c ∈ l1 -> nxt h' c = nxt h c) by auto.
    assert (Hp' : forall c, c ∈ tail (l1 ++ [a]) -> prv h' c = prv h c) by auto.
    clear Hn Hp Hab. induction l1 as [|x l1 IH]; [done|].
    assert (Hin : forall c, c ∈ l1 -> nxt h' c = nxt h c).
    { intros c Hc. apply Hn'. by right. }
    destruct l1 as [|y l1]; simpl in *.
    + destruct H1 as [[Hx Ha] _]. split; [|done]. split.
      * rewrite Hn'; [done | by left].
      * rewrite Hp'; [done | by left].
    + destruct H1 as [[Hx Hy] H1]. split.
      * split; [rewrite Hn'; [done|by left] | rewrite Hp'; [done|by left]].
      * apply IH; [done|done|]. intros c Hc. apply Hp'. by right.
  - split; [done|]. clear H1 Hab.
    assert (Hn' : forall c, c ∈ removelast (b :: l2) -> nxt h' c = nxt h c) by auto.
    assert (Hp' : forall c, c ∈ l2 -> prv h' c = prv h c) by auto.
    clear Hn Hp. revert b H2 Hn'. induction l2 as [|y l2 IH]; intros b H2 Hn'; [done|].
    simpl in H2. destruct H2 as [[Hb Hy] H2]. split.
    + split; [rewrite Hn'; [done|by left] | rewrite Hp'; [done|by left]].
    + apply IH; [|done|].
      * intros c Hc. apply Hp'. by right.
      * intros c Hc. apply Hn'. simpl in *. by right.
Qed.

Lemma chain_same h h' l :
  chain h l ->
  (forall c, c ∈ removelast l -> nxt h' c = nxt h c) ->
  (forall c, c ∈ tail l -> prv h' c = prv h c) ->
  chain h' l.
Proof.
  destruct l as [|a [|b l]]; [done..|]. intros [Hab Hc] Hn Hp.
  apply (chain_join h h' [] a b l); simpl; [done|done|..].
  - destruct Hab. split; [rewrite Hn; [done|by left] | rewrite Hp; [done|by left]].
  - intros c [Hin|Hin]; [by apply elem_of_nil in Hin|]. apply Hn. by right.
  - intros c [Hin|Hin]; [by apply elem_of_nil in Hin|]. apply Hp. by right.
Qed.

Lemma removelast_snoc l x : removelast (l ++ [x]) = l.
Proof. by rewrite removelast_app, app_nil_r by done. Qed.

(** A ring is kept by a heap that keeps the links of its members. *)
Lemma ring_frame h h' k l :
  ring h k l ->
  (forall c, c ∈ k :: l -> nxt h' c = nxt h c) ->
  (forall c, c ∈ k :: l -> prv h' c = prv h c) ->
  (forall c, alloc h c -> alloc h' c) ->
  ring h' k l.
Proof.
  intros [Hc Ha] Hn Hp Hal. split; [|auto].
  apply (chain_same h); [done|..].
  - intros c Hin. apply Hn.
    change (k :: l ++ [k]) with ((k :: l) ++ [k]) in Hin. by rewrite removelast_snoc in Hin.
  - simpl. intros c Hin. apply Hp. apply elem_of_app in Hin. set_solver.
Qed.

Lemma ring_alloc h k l a : ring h k l -> a ∈ k :: l -> alloc h a.
Proof. intros [_ Ha]. apply Ha. Qed.

Lemma ring_split h k l1 x l2 :
  ring h k (l1 ++ x :: l2) ->
  exists a b l1' l2', k :: l1 = l1' ++ [a] /\ l2 ++ [k] = b :: l2' /\
    chain h (l1' ++ [a]) /\ linked h a x /\ linked h x b /\ chain h (b :: l2').
Proof.
  intros [Hc _].
  destruct (last_snoc_cases (k :: l1)) as [?|(l1' & a & E1)]; [done|].
  destruct (l2 ++ [k]) as [|b l2'] eqn:E2; [by destruct l2|].
  exists a, b, l1', l2'.
  assert (E : k :: (l1 ++ x :: l2) ++ [k] = l1' ++ a :: x :: b :: l2').
  { by rewrite <-app_assoc, <-app_comm_cons, E2, app_comm_cons, E1, <-app_assoc. }
  rewrite E in Hc.
  apply chain_app in Hc as [H1 H2]. simpl in H2. rewrite E1. tauto.
Qed.

(** The cell after [x] and the cell before it, read off the ring. *)
Lemma ring_next h k l1 x l2 :
  ring h k (l1 ++ x :: l2) -> nxt h x = head (l2 ++ [k]).
Proof.
  intros (a & b & l1' & l2' & E1 & E2 & _ & _ & Hl & _)%ring_split.
  rewrite E2. by destruct Hl.
Qed.

Lemma ring_prev h k l1 x l2 :
  ring h k (l1 ++ x :: l2) -> prv h x = last (k :: l1).
Proof.
  intros (a & b & l1' & l2' & E1 & E2 & _ & Hl & _)%ring_split.
  rewrite E1, last_snoc. by destruct Hl.
Qed.

Lemma ring_head_next h k l : ring h k l -> nxt h k = head (l ++ [k]).
Proof.
  intros [Hc _]. destruct l as [|x l]; simpl in *; by destruct Hc as [[? ?] ?].
Qed.

Lemma ring_head_prev h k l : ring h k l -> prv h k = last (k :: l).
Proof.
  intros [Hc _]. destruct (last_snoc_cases (k :: l)) as [?|(l' & x & E)]; [done|].
  change (k :: l ++ [k]) with ((k :: l) ++ [k]) in Hc. rewrite E in *.
  rewrite <-app_assoc in Hc. apply chain_app in Hc as [_ [Hl _]].
  rewrite last_snoc. by destruct Hl.
Qed.
End chains.

(** ** The operations on rings

    [keeps h h' S]: only the links of the nodes of [S] may differ. *)
Section ring_ops.
Context {K : Type} `{Countable K}.
Implicit Types (h : heap K) (a b c k x e : K) (l : list K).

Definition keeps h h' (S : list K) : Prop :=
  (forall c, c ∉ S -> nxt h' c = nxt h c /\ prv h' c = prv h c) /\
  (forall c, alloc h' c <-> alloc h c).

Lemma keeps_trans h1 h2 h3 S : keeps h1 h2 S -> keeps h2 h3 S -> keeps h1 h3 S.
Proof.
  intros [A1 B1] [A2 B2]. split.
  - intros c Hc. destruct (A1 c Hc), (A2 c Hc). split; congruence.
  - intros c. by rewrite B2, B1.
Qed.

Lemma keeps_mono h h' S T : keeps h h' S -> S ⊆ T -> keeps h h' T.
Proof. intros [A B] Hs. split; [|done]. intros c Hc. apply A. set_solver. Qed.

Lemma keeps_ring h h' S k l :
  keeps h h' S -> ring h k l -> (forall c, c ∈ k :: l -> c ∉ S) -> ring h' k l.
Proof.
  intros [A B] Hr Hd. apply (ring_frame h); [done|..].
  - intros c Hc. by destruct (A c (Hd c Hc)).
  - intros c Hc. by destruct (A c (Hd c Hc)).
  - intros c. apply B.
Qed.

(** A ring can be read from any of its nodes. *)
Lemma ring_rotate h k l1 x l2 : ring h k (l1 ++ x :: l2) <-> ring h x (l2 ++ k :: l1).
Proof.
  assert (D : forall k x l1 l2, ring h k (l1 ++ x :: l2) -> ring h x (l2 ++ k :: l1)).
  { clear. intros k x l1 l2 [Hc Ha]. split.
    - change (k :: (l1 ++ x :: l2) ++ [k]) with ((k :: l1 ++ x :: l2) ++ [k]) in Hc.
      assert (E : (k :: l1 ++ x :: l2) ++ [k] = (k :: l1) ++ x :: (l2 ++ [k])).
      { simpl. by rewrite <-app_assoc. }
      rewrite E in Hc. apply chain_app in Hc as [H1 H2].
      assert (E2 : x :: (l2 ++ k :: l1) ++ [x] = (x :: l2) ++ k :: (l1 ++ [x])).
      { simpl. by rewrite <-app_assoc. }
      rewrite E2. apply chain_app. split; done.
    - intros a Hin. apply Ha. set_solver. }
  split; apply D.
Qed.

Lemma __list_add_chain h new_ a b l1 l2 :
  chain h (l1 ++ a :: b :: l2) ->
  alloc h new_ -> alloc h a -> alloc h b ->
  new_ ∉ l1 ++ a :: b :: l2 ->
  a ∉ l1 -> a ∉ removelast (b :: l2) -> b ∉ tail (l1 ++ [a]) -> b ∉ l2 ->
  exists h', __list_add new_ (Some a) (Some b) h = Done h' /\
    chain h' (l1 ++ a :: new_ :: b :: l2) /\ keeps h h' [new_; a; b].
Proof.
  intros Hc Hn Ha Hb Hnew Ha1 Ha2 Hb1 Hb2. unfold __list_add. repeat heap_step.
  eexists. split; [done|]. apply chain_app in Hc as [H1 [Hab H2]].
  assert (a <> new_ /\ b <> new_) as [Hna Hnb] by set_solver.
  assert (Hn2 : forall c, c ∈ removelast (b :: l2) -> c <> new_).
  { intros c Hc ->. apply Hnew.
    assert (Hs : new_ ∈ b :: l2); [|set_solver].
    destruct (last_snoc_cases (b :: l2)) as [?|(l' & z & E)]; [done|].
    rewrite E in *. rewrite removelast_snoc in Hc. set_solver. }
  assert (Ht1 : forall c, c ∈ tail (l1 ++ [a]) -> c <> new_).
  { intros c Hc ->. apply Hnew. destruct l1; simpl in Hc; set_solver. }
  split.
  - assert (Hm : chain (upd_next a (Some new_) (upd_prev new_ (Some a)
                   (upd_next new_ (Some b) (upd_prev b (Some new_) h)))) (new_ :: b :: l2)).
    { eapply (chain_join h _ [] new_ b l2); simpl; [done|done|..].
      - split; by read_link.
      - intros c [Hc|Hc]; [set_solver|]. pose proof (Hn2 c Hc).
        assert (c <> a) by (intros ->; done). by read_link.
      - intros c [Hc|Hc]; [set_solver|].
        assert (c <> b /\ c <> new_) as [??] by set_solver. by read_link. }
    eapply (chain_join (upd_next a (Some new_) (upd_prev new_ (Some a)
                   (upd_next new_ (Some b) (upd_prev b (Some new_) h)))));
      [|exact Hm| |done|done].
    + apply (chain_same h); [done|..].
      * intros c Hc. rewrite removelast_snoc in Hc.
        assert (c <> new_ /\ c <> a) as [??] by set_solver. by read_link.
      * intros c Hc. pose proof (Ht1 c Hc). assert (c <> b) by (intros ->; done).
        by read_link.
    + split; by read_link.
  - split.
    + intros c Hc. assert (c <> new_ /\ c <> a /\ c <> b) as (?&?&?) by set_solver.
      by read_link.
    + intros c. by rewrite alloc_upd_next, alloc_upd_prev, alloc_upd_next, alloc_upd_prev.
Qed.

Lemma list_add_ring h new_ k l :
  ring h k l -> NoDup (k :: l) -> alloc h new_ -> new_ ∉ k :: l ->
  exists h', list_add new_ k h = Done h' /\
    ring h' k (new_ :: l) /\ keeps h h' (new_ :: k :: l).
Proof.
  intros Hr Hnd Hn Hnew. unfold list_add.
  rewrite get_next_alloc by (eapply ring_alloc; [done|left]). simpl.
  rewrite (ring_head_next _ _ _ Hr).
  destruct (l ++ [k]) as [|b l2] eqn:E; [by destruct l|]. simpl.
  assert (Hb : b ∈ k :: l) by (destruct l; simplify_eq/=; set_solver).
  assert (Hnd' : NoDup (b :: l2)).
  { rewrite <-E. apply NoDup_app. apply NoDup_cons in Hnd as [? ?].
    split_and!; [done|set_solver|apply NoDup_singleton]. }
  assert (Hrl : removelast (b :: l2) = l) by (rewrite <-E; apply removelast_snoc).
  destruct (__list_add_chain h new_ k b [] l2) as (h' & -> & Hc & Hk).
  - rewrite app_nil_l, <-E. apply Hr.
  - done.
  - by eapply ring_alloc; [done|left].
  - by eapply ring_alloc.
  - rewrite app_nil_l, <-E. set_solver.
  - set_solver.
  - rewrite Hrl. by apply NoDup_cons in Hnd as [? _].
  - set_solver.
  - by apply NoDup_cons in Hnd' as [? _].
  - exists h'. split; [done|]. split.
    + split; [by rewrite app_nil_l, <-E in Hc|].
      intros a Ha. apply Hk. destruct (decide (a = new_)) as [->|?]; [done|].
      eapply ring_alloc; [done|set_solver].
    + eapply keeps_mono; [done|set_solver].
Qed.

Lemma list_add_tail_ring h new_ k l :
  ring h k l -> NoDup (k :: l) -> alloc h new_ -> new_ ∉ k :: l ->
  exists h', list_add_tail new_ k h = Done h' /\
    ring h' k (l ++ [new_]) /\ keeps h h' (new_ :: k :: l).
Proof.
  intros Hr Hnd Hn Hnew. unfold list_add_tail.
  rewrite get_prev_alloc by (eapply ring_alloc; [done|left]). simpl.
  rewrite (ring_head_prev _ _ _ Hr).
  destruct (last_snoc_cases (k :: l)) as [?|(l1 & a & E)]; [done|].
  replace (last (k :: l)) with (Some a) by (by rewrite E, last_snoc).
  assert (Ha : a ∈ k :: l) by (rewrite E; set_solver).
  destruct (__list_add_chain h new_ a k l1 []) as (h' & -> & Hc & Hk).
  - destruct Hr as [Hc _]. change (k :: l ++ [k]) with ((k :: l) ++ [k]) in Hc.
    by rewrite E, <-app_assoc in Hc.
  - done.
  - by eapply ring_alloc.
  - by eapply ring_alloc; [done|left].
  - intros Hin. apply Hnew. rewrite E.
    destruct (decide (new_ = k)) as [->|]; [rewrite <-E; left|set_solver].
  - rewrite E in Hnd. apply NoDup_app in Hnd as (_ & Hd & _). set_solver.
  - set_solver.
  - rewrite <-E. simpl. by apply NoDup_cons in Hnd as [? _].
  - set_solver.
  - exists h'. split; [done|]. split.
    + split.
      * change (k :: (l ++ [new_]) ++ [k]) with ((k :: l ++ [new_]) ++ [k]).
        rewrite app_comm_cons, E, <-!app_assoc. done.
      * intros x Hx. apply Hk. destruct (decide (x = new_)) as [->|Hne]; [done|].
        eapply ring_alloc; [done|]. clear -Hx Hne. set_solver.
    + eapply keeps_mono; [done|set_solver].
Qed.

Lemma INIT_LIST_HEAD_ring h k :
  alloc h k ->
  exists h', INIT_LIST_HEAD k h = Done h' /\ ring h' k [] /\ keeps h h' [k].
Proof.
  intros Hk. unfold INIT_LIST_HEAD. repeat heap_step. eexists. split; [done|]. split.
  - split.
    + simpl. split; [|done]. split; by read_link.
    + intros a ->%list_elem_of_singleton. solve_alloc.
  - split.
    + intros c Hc. assert (c <> k) by set_solver. by read_link.
    + intros c. by rewrite alloc_upd_prev, alloc_upd_next.
Qed.

Lemma NoDup_ring_remove k l1 x l2 :
  NoDup (k :: l1 ++ x :: l2) -> NoDup (k :: l1 ++ l2) /\ x ∉ k :: l1 ++ l2.
Proof.
  rewrite <-(Permutation_middle l1 l2 x), (perm_swap x k).
  intros [? ?]%NoDup_cons. done.
Qed.

(** [__list_del] on the neighbours of [x] takes [x] out of the ring; the
    links of [x] itself are not touched. *)
Lemma __list_del_ring h k l1 x l2 :
  ring h k (l1 ++ x :: l2) -> NoDup (k :: l1 ++ x :: l2) ->
  exists a b h', prv h x = Some a /\ nxt h x = Some b /\
    __list_del (Some a) (Some b) h = Done h' /\
    ring h' k (l1 ++ l2) /\ keeps h h' (k :: l1 ++ l2).
Proof.
  intros Hr Hnd.
  destruct (ring_split _ _ _ _ _ Hr) as (a & b & l1' & l2' & E1 & E2 & H1 & [_ Hpx] & [Hnx _] & H2).
  assert (Ha : a ∈ k :: l1) by (rewrite E1; set_solver).
  assert (Hb : b ∈ l2 ++ [k]) by (rewrite E2; left).
  assert (alloc h a) by (eapply ring_alloc; [done|set_solver]).
  assert (alloc h b) by (eapply ring_alloc; [done|set_solver]).
  exists a, b. unfold __list_del. repeat heap_step. eexists.
  split_and!; [done..| |].
  - apply NoDup_cons in Hnd as [Hk Hnd]. apply NoDup_app in Hnd as (Hnd1 & Hd & Hnd2).
    apply NoDup_cons in Hnd2 as [Hx Hnd2].
    assert (Hnd1' : NoDup (l1' ++ [a])).
    { rewrite <-E1. apply NoDup_cons. split; [set_solver|done]. }
    assert (Hnd2' : NoDup (b :: l2')).
    { rewrite <-E2. apply NoDup_app. split_and!; [done|set_solver|apply NoDup_singleton]. }
    assert (Hrl : removelast (b :: l2') = l2) by (rewrite <-E2; apply removelast_snoc).
    assert (Htl : tail (l1' ++ [a]) = l1) by (by rewrite <-E1).
    apply NoDup_app in Hnd1' as (_ & Hd1 & _). apply NoDup_cons in Hnd2' as [Hb2 _].
    split.
    + assert (E : k :: (l1 ++ l2) ++ [k] = l1' ++ a :: b :: l2').
      { by rewrite <-app_assoc, E2, app_comm_cons, E1, <-app_assoc. }
      rewrite E. eapply (chain_join h); [done|done|..].
      * split; by read_link.
      * rewrite Hrl. intros c Hc. assert (c <> a); [|by read_link].
        intros ->. destruct Hc as [Hc|Hc]; [set_solver|].
        apply elem_of_cons in Ha as [->|Ha]; [set_solver|].
        apply (Hd a Ha). by right.
      * rewrite Htl. intros c Hc. assert (c <> b); [|by read_link].
        intros ->. destruct Hc as [Hc|Hc]; [|done].
        apply elem_of_app in Hb as [Hb| ->%list_elem_of_singleton]; [|set_solver].
        apply (Hd b Hc). by right.
    + intros c Hc. rewrite alloc_upd_next, alloc_upd_prev.
      eapply ring_alloc; [done|]. set_solver +Hc.
  - split.
    + intros c Hc. assert (c <> a) by set_solver +Hc Ha. assert (c <> b) by set_solver +Hc Hb.
      by read_link.
    + intros c. by rewrite alloc_upd_next, alloc_upd_prev.
Qed.

(** [list_del_init] takes an entry out and leaves it a ring of its own. *)
Lemma list_del_init_ring h k l1 x l2 :
  ring h k (l1 ++ x :: l2) -> NoDup (k :: l1 ++ x :: l2) ->
  exists h', list_del_init x h = Done h' /\
    ring h' k (l1 ++ l2) /\ ring h' x [] /\ keeps h h' (k :: l1 ++ x :: l2).
Proof.
  intros Hr Hnd. unfold list_del_init.
  assert (Hx : alloc h x) by (eapply ring_alloc; [done|set_solver]).
  rewrite get_prev_alloc, get_next_alloc by done. simpl.
  destruct (__list_del_ring _ _ _ _ _ Hr Hnd) as (a & b & h1 & -> & -> & -> & Hr1 & Hk1). simpl.
  destruct (INIT_LIST_HEAD_ring h1 x) as (h2 & -> & Hr2 & Hk2); [by apply Hk1|].
  exists h2. split_and!; [done| |done|].
  - eapply keeps_ring; [done..|]. intros c Hc ->%list_elem_of_singleton.
    by apply NoDup_ring_remove in Hnd as [_ ?].
  - eapply keeps_trans.
    + eapply keeps_mono; [exact Hk1|set_solver +].
    + eapply keeps_mono; [exact Hk2|set_solver +].
Qed.

(** On a detached node [list_del_init] does nothing. *)
Lemma list_del_init_detached h x :
  ring h x [] ->
  exists h', list_del_init x h = Done h' /\ ring h' x [] /\ keeps h h' [x].
Proof.
  intros Hr. unfold list_del_init.
  assert (Hx : alloc h x) by (eapply ring_alloc; [done|left]).
  rewrite get_prev_alloc, get_next_alloc by done. simpl.
  rewrite (ring_head_next _ _ _ Hr), (ring_head_prev _ _ _ Hr). simpl.
  unfold __list_del. repeat heap_step.
  destruct (INIT_LIST_HEAD_ring (upd_next x (Some x) (upd_prev x (Some x) h)) x)
    as (h2 & -> & Hr2 & Hk2); [solve_alloc|].
  exists h2. split_and!; [done|done|]. eapply keeps_trans; [|done]. split.
  - intros c Hc. assert (c <> x) by set_solver. by read_link.
  - intros c. by rewrite alloc_upd_next, alloc_upd_prev.
Qed.

Lemma list_del_ring h k l1 x l2 :
  ring h k (l1 ++ x :: l2) -> NoDup (k :: l1 ++ x :: l2) ->
  exists h', list_del x h = Done h' /\ ring h' k (l1 ++ l2) /\
    nxt h' x = None /\ prv h' x = None /\ keeps h h' (k :: l1 ++ x :: l2).
Proof.
  intros Hr Hnd. unfold list_del.
  assert (Hx : alloc h x) by (eapply ring_alloc; [done|set_solver]).
  rewrite get_prev_alloc, get_next_alloc by done. simpl.
  destruct (__list_del_ring _ _ _ _ _ Hr Hnd) as (a & b & h1 & -> & -> & -> & Hr1 & Hk1). simpl.
  assert (alloc h1 x) by (by apply Hk1).
  repeat heap_step. eexists. split_and!; [done| | | |].
  - eapply ring_frame; [done|..].
    + intros c Hc. assert (c <> x); [|by read_link]. intros ->.
      by apply NoDup_ring_remove in Hnd as [_ ?].
    + intros c Hc. assert (c <> x); [|by read_link]. intros ->.
      by apply NoDup_ring_remove in Hnd as [_ ?].
    + intros c ?. solve_alloc.
  - by read_link.
  - by read_link.
  - eapply keeps_trans; [eapply keeps_mono; [exact Hk1|set_solver +]|]. split.
    + intros c Hc. assert (c <> x) by set_solver. by read_link.
    + intros c. by rewrite alloc_upd_prev, alloc_upd_next.
Qed.
End ring_ops.
