(* ===== verification/CListStore.v ===== *)
(** * base/list.h: stores of lists, iteration, and the refinement theorem

    On top of the single rings of CList: [rings h F] describes a heap that holds
    the disjoint lists [F]; each operation of base/list.h has a lemma on stores;
    the iteration macros are loops with fuel and a loop rule; and
    [list_api_refines] says that every sequence of calls made with the
    documented discipline runs without a fault and does to the lists what the
    operations' names say. *)
From S2P Require Import Prelude CList.

(** ** Stores of disjoint rings

    [rings h F] for a list [F] of (head, entries) pairs: the rings are in the
    heap and no node is in two places.  Permuting [F] changes nothing, so a
    proof brings the rings an operation works on to the front. *)
Section stores.
Context {K : Type} `{Countable K}.
Implicit Types (h : heap K) (a b c k x e : K) (l : list K) (F G : list (K * list K)).

Definition blocks (F : list (K * list K)) : list K := F ≫= (fun p => p.1 :: p.2).

#[local] Typeclasses Opaque blocks.

Definition rings h (F : list (K * list K)) : Prop :=
  NoDup (blocks F) /\ (forall k l, (k, l) ∈ F -> ring h k l).

(** The cells in use do not change: no operation allocates or frees. *)
Definition same_cells h h' : Prop := forall c, alloc h' c <-> alloc h c.

#[export] Instance same_cells_equiv : Equivalence same_cells.
Proof.
  unfold same_cells. split; [done | intros h1 h2 E c; by rewrite (E c)|].
  intros h1 h2 h3 E1 E2 c; by rewrite (E2 c), (E1 c).
Qed.

Lemma keeps_same_cells h h' S : keeps h h' S -> same_cells h h'.
Proof. by intros [_ ?]. Qed.

#[export] Instance blocks_perm : Proper ((≡ₚ) ==> (≡ₚ)) blocks.
Proof. intros F G HFG. unfold blocks. by rewrite HFG. Qed.

#[export] Instance rings_perm h : Proper ((≡ₚ) ==> iff) (rings h).
Proof.
  assert (D : forall F G, F ≡ₚ G -> rings h F -> rings h G).
  { intros F G HFG [Hnd Hr]. split; [by rewrite <-HFG|].
    intros k l Hin. apply Hr. by rewrite HFG. }
  intros F G HFG. split; apply D; [done|by symmetry].
Qed.

Lemma blocks_cons k l F : blocks ((k, l) :: F) = (k :: l) ++ blocks F.
Proof. done. Qed.

Lemma elem_of_blocks x F : x ∈ blocks F <-> exists k l, (k, l) ∈ F /\ x ∈ k :: l.
Proof.
  unfold blocks. rewrite list_elem_of_bind. split.
  - intros ([k l] & ? & ?). eauto.
  - intros (k & l & ? & ?). by exists (k, l).
Qed.

Lemma rings_cons h k l F :
  rings h ((k, l) :: F) <->
  ring h k l /\ NoDup (k :: l) /\ (forall x, x ∈ k :: l -> x ∉ blocks F) /\ rings h F.
Proof.
  unfold rings. rewrite blocks_cons, NoDup_app. split.
  - intros [(? & ? & ?) Hr]. split_and!; [apply Hr; left|done|done|done|].
    intros; apply Hr; by right.
  - intros (? & ? & ? & ? & ?). split; [done|].
    intros k' l' [[= -> ->]|?]%elem_of_cons; auto.
Qed.

(** Replacing rings in place: everything outside the changed block is framed. *)
Lemma rings_keeps h h' F S :
  keeps h h' S -> rings h F -> (forall x, x ∈ blocks F -> x ∉ S) -> rings h' F.
Proof.
  intros Hk [Hnd Hr] Hd. split; [done|]. intros k l Hin.
  eapply keeps_ring; [done|by apply Hr|]. intros c Hc. apply Hd, elem_of_blocks. eauto.
Qed.

Lemma rings_alloc h F x : rings h F -> x ∈ blocks F -> alloc h x.
Proof.
  intros [_ Hr] (k & l & Hin & Hx)%elem_of_blocks. eapply ring_alloc; [by apply Hr|done].
Qed.

Lemma rings_list_add h k l F x :
  rings h ((k, l) :: F) -> alloc h x -> x ∉ blocks ((k, l) :: F) ->
  exists h', list_add x k h = Done h' /\ rings h' ((k, x :: l) :: F) /\ same_cells h h'.
Proof.
  intros (Hr & Hnd & Hd & HF)%rings_cons Hx Hn. rewrite blocks_cons in Hn.
  destruct (list_add_ring h x k l) as (h' & -> & Hr' & Hk); [done|done|done|set_solver|].
  exists h'. split; [done|]. split; [|by eapply keeps_same_cells]. apply rings_cons. split_and!; [done| | |].
  - rewrite perm_swap. apply NoDup_cons. split; [set_solver|done].
  - set_solver.
  - eapply rings_keeps; [done|done|]. set_solver.
Qed.

Lemma rings_list_add_tail h k l F x :
  rings h ((k, l) :: F) -> alloc h x -> x ∉ blocks ((k, l) :: F) ->
  exists h', list_add_tail x k h = Done h' /\ rings h' ((k, l ++ [x]) :: F) /\ same_cells h h'.
Proof.
  intros (Hr & Hnd & Hd & HF)%rings_cons Hx Hn. rewrite blocks_cons in Hn.
  destruct (list_add_tail_ring h x k l) as (h' & -> & Hr' & Hk); [done|done|done|set_solver|].
  exists h'. split; [done|]. split; [|by eapply keeps_same_cells]. apply rings_cons. split_and!; [done| | |].
  - rewrite app_comm_cons. apply NoDup_app. split_and!; [done|set_solver|apply NoDup_singleton].
  - set_solver.
  - eapply rings_keeps; [done|done|]. set_solver.
Qed.

Lemma rings_init h F x :
  rings h F -> alloc h x -> x ∉ blocks F ->
  exists h', INIT_LIST_HEAD x h = Done h' /\ rings h' ((x, []) :: F) /\ same_cells h h'.
Proof.
  intros HF Hx Hn. destruct (INIT_LIST_HEAD_ring h x Hx) as (h' & -> & Hr & Hk).
  exists h'. split; [done|]. split; [|by eapply keeps_same_cells]. apply rings_cons.
  split_and!; [done|apply NoDup_singleton|set_solver|].
  eapply rings_keeps; [done|done|]. set_solver.
Qed.

Lemma rings_unlink h k l1 x l2 F :
  rings h ((k, l1 ++ x :: l2) :: F) ->
  exists a b h', prv h x = Some a /\ nxt h x = Some b /\ alloc h x /\
    __list_del (Some a) (Some b) h = Done h' /\
    rings h' ((k, l1 ++ l2) :: F) /\ (x ∉ blocks ((k, l1 ++ l2) :: F)) /\ same_cells h h'.
Proof.
  intros (Hr & Hnd & Hd & HF)%rings_cons.
  destruct (__list_del_ring _ _ _ _ _ Hr Hnd) as (a & b & h' & ? & ? & ? & Hr' & Hk).
  apply NoDup_ring_remove in Hnd as [Hnd Hx].
  exists a, b, h'. split_and!; [done|done| |done| | |by eapply keeps_same_cells].
  - eapply ring_alloc; [done|set_solver].
  - apply rings_cons. split_and!; [done|done|set_solver +Hd|].
    eapply rings_keeps; [done|done|]. set_solver +Hd.
  - rewrite blocks_cons. set_solver +Hd Hx.
Qed.

Lemma rings_list_del_init h k l1 x l2 F :
  rings h ((k, l1 ++ x :: l2) :: F) ->
  exists h', list_del_init x h = Done h' /\
    rings h' ((x, []) :: (k, l1 ++ l2) :: F) /\ same_cells h h'.
Proof.
  intros HF. unfold list_del_init.
  destruct (rings_unlink _ _ _ _ _ _ HF) as (a & b & h1 & Hp & Hn & Hx & Hd & Hr & Hni & Hs).
  rewrite get_prev_alloc, get_next_alloc by done. simpl. rewrite Hp, Hn, Hd. simpl.
  destruct (rings_init h1 _ x Hr) as (h2 & -> & Hr2 & Hs2); [by apply Hs|done|].
  exists h2. split_and!; [done|done|by etrans].
Qed.

Lemma rings_list_del_init_detached h x F :
  rings h ((x, []) :: F) ->
  exists h', list_del_init x h = Done h' /\ rings h' ((x, []) :: F) /\ same_cells h h'.
Proof.
  intros (Hr & Hnd & Hd & HF)%rings_cons.
  destruct (list_del_init_detached h x Hr) as (h' & -> & Hr' & Hk).
  exists h'. split; [done|]. split; [|by eapply keeps_same_cells]. apply rings_cons.
  split_and!; [done|done|done|]. eapply rings_keeps; [done|done|]. set_solver.
Qed.

Lemma rings_list_del h k l1 x l2 F :
  rings h ((k, l1 ++ x :: l2) :: F) ->
  exists h', list_del x h = Done h' /\ rings h' ((k, l1 ++ l2) :: F) /\
    nxt h' x = None /\ prv h' x = None /\ same_cells h h'.
Proof.
  intros (Hr & Hnd & Hd & HF)%rings_cons.
  destruct (list_del_ring _ _ _ _ _ Hr Hnd) as (h' & -> & Hr' & ? & ? & Hk).
  exists h'. split_and!; [done| |done|done|by eapply keeps_same_cells].
  apply NoDup_ring_remove in Hnd as [Hnd Hx]. apply rings_cons.
  split_and!; [done|done|set_solver +Hd|].
  eapply rings_keeps; [done|done|]. set_solver +Hd.
Qed.

(** The ring read from another of its nodes. *)
Lemma rings_rotate h k l1 x l2 F :
  rings h ((k, l1 ++ x :: l2) :: F) <-> rings h ((x, l2 ++ k :: l1) :: F).
Proof.
  rewrite !rings_cons, ring_rotate.
  assert (E : x :: l2 ++ k :: l1 ≡ₚ k :: l1 ++ x :: l2).
  { rewrite <-!Permutation_middle, (perm_swap x k). f_equiv. f_equiv. apply Permutation_app_comm. }
  rewrite E. split; intros (? & ? & Hd & ?); split_and!; try done;
    intros c Hc; apply Hd; [by rewrite <-E|by rewrite E].
Qed.

Lemma rings_empty h k l F :
  rings h ((k, l) :: F) -> list_empty k h = Done (bool_decide (l = [])).
Proof.
  intros (Hr & Hnd & _)%rings_cons. unfold list_empty.
  rewrite get_next_alloc by (eapply ring_alloc; [done|left]). simpl.
  rewrite (ring_head_next _ _ _ Hr). f_equal. apply bool_decide_ext.
  destruct l as [|x l]; simpl; [done|]. split; [|done].
  intros [= ->]. by apply NoDup_cons in Hnd as [? _]; set_solver.
Qed.

(** Seen from an entry, the ring is not empty. *)
Lemma rings_empty_entry h k l1 x l2 F :
  rings h ((k, l1 ++ x :: l2) :: F) -> list_empty x h = Done false.
Proof.
  intros HF. apply rings_rotate, rings_empty in HF. rewrite HF. f_equal.
  apply bool_decide_eq_false. by destruct l2.
Qed.
End stores.

(** ** Moving, replacing, splicing, cutting and swapping *)
Section more_ops.
Context {K : Type} `{Countable K}.
Implicit Types (h : heap K) (a b c k x z e : K) (l : list K) (F G : list (K * list K)).

Lemma chain_app_l h l1 l2 : chain h (l1 ++ l2) -> chain h l1.
Proof.
  destruct (last_snoc_cases l1) as [->|(l1' & x & ->)]; [done|].
  rewrite <-app_assoc. simpl. by intros [? _]%chain_app.
Qed.
Lemma chain_app_r h l1 l2 : chain h (l1 ++ l2) -> chain h l2.
Proof. destruct l2; [done|]. by intros [_ ?]%chain_app. Qed.

Lemma ring_interior h k l : ring h k l -> chain h l.
Proof. intros [Hc _]. apply (chain_app_l _ _ [k]), (chain_app_r _ [k]), Hc. Qed.

(** The links at the two ends of a list, between it and its head. *)
Definition ends h k l : Prop :=
  nxt h k = head (l ++ [k]) /\ prv h k = last (k :: l) /\
  (forall z, last l = Some z -> nxt h z = Some k) /\
  (forall x, head l = Some x -> prv h x = Some k).

Lemma ring_intro h k l :
  chain h l -> ends h k l -> (forall a, a ∈ k :: l -> alloc h a) -> ring h k l.
Proof.
  intros Hc (Hn & Hp & Hl & Hx) Ha. split; [|done].
  destruct l as [|x l]; [by split|].
  destruct (last_snoc_cases (x :: l)) as [?|(m & z & E)]; [done|].
  assert (Hlast : last (x :: l) = Some z) by (by rewrite E, last_snoc).
  rewrite last_cons, Hlast in Hp.
  assert (Hc2 : chain h ((x :: l) ++ [k])).
  { rewrite E, <-app_assoc. apply chain_app. rewrite <-E. split; [done|].
    split; [|done]. split; [by apply Hl|done]. }
  split; [|done]. split; [done|]. by apply Hx.
Qed.

Lemma ring_ends h k l : ring h k l -> ends h k l.
Proof.
  intros Hr. split_and!.
  - by apply ring_head_next.
  - by apply ring_head_prev.
  - intros z Hz. apply last_Some in Hz as [l' ->]. by rewrite (ring_next _ _ _ _ _ Hr).
  - intros x Hx. destruct l as [|y l]; simplify_eq/=.
    by rewrite (ring_prev _ k [] x l Hr).
Qed.

Lemma NoDup_last_removelast l z : NoDup l -> last l = Some z -> z ∉ removelast l.
Proof.
  intros Hnd [l' ->]%last_Some. rewrite removelast_snoc.
  apply NoDup_app in Hnd as (_ & Hd & _). intros Hz. apply (Hd z Hz). by left.
Qed.
Lemma NoDup_head_tail l x : NoDup l -> head l = Some x -> x ∉ tail l.
Proof. destruct l; [done|]. intros [? _]%NoDup_cons [= ->]. done. Qed.
Lemma removelast_sub l c : c ∈ removelast l -> c ∈ l.
Proof.
  destruct (last_snoc_cases l) as [->|(l' & x & ->)]; [done|].
  rewrite removelast_snoc. set_solver.
Qed.
Lemma tail_sub l c : c ∈ tail l -> c ∈ l.
Proof. destruct l; [done|]. simpl. set_solver. Qed.

(** A chain survives stores that hit at most the next link of its last node
    and the prev link of its first. *)
Lemma chain_ends_frame h h' l :
  chain h l -> NoDup l ->
  (forall c, c ∈ l -> last l <> Some c -> nxt h' c = nxt h c) ->
  (forall c, c ∈ l -> head l <> Some c -> prv h' c = prv h c) ->
  chain h' l.
Proof.
  intros Hc Hnd Hn Hp. apply (chain_same h); [done|..].
  - intros c Hin. apply Hn; [by apply removelast_sub|].
    intros E. by apply (NoDup_last_removelast _ _ Hnd E).
  - intros c Hin. apply Hp; [by apply tail_sub|].
    intros E. by apply (NoDup_head_tail _ _ Hnd E).
Qed.

Lemma rings_list_move h k l1 x l2 F hd lh G :
  rings h ((k, l1 ++ x :: l2) :: F) -> (k, l1 ++ l2) :: F ≡ₚ (hd, lh) :: G ->
  exists h', list_move x hd h = Done h' /\ rings h' ((hd, x :: lh) :: G) /\ same_cells h h'.
Proof.
  intros HF HP. unfold list_move.
  destruct (rings_unlink _ _ _ _ _ _ HF) as (a & b & h1 & Hp & Hn & Hx & Hd & Hr & Hni & Hs).
  rewrite get_prev_alloc, get_next_alloc by done. simpl. rewrite Hp, Hn, Hd. simpl.
  rewrite HP in Hr, Hni.
  destruct (rings_list_add h1 hd lh G x) as (h2 & -> & ? & ?); [done|by apply Hs|done|].
  exists h2. split_and!; [done|done|by etrans].
Qed.

Lemma rings_list_move_tail h k l1 x l2 F hd lh G :
  rings h ((k, l1 ++ x :: l2) :: F) -> (k, l1 ++ l2) :: F ≡ₚ (hd, lh) :: G ->
  exists h', list_move_tail x hd h = Done h' /\ rings h' ((hd, lh ++ [x]) :: G) /\ same_cells h h'.
Proof.
  intros HF HP. unfold list_move_tail.
  destruct (rings_unlink _ _ _ _ _ _ HF) as (a & b & h1 & Hp & Hn & Hx & Hd & Hr & Hni & Hs).
  rewrite get_prev_alloc, get_next_alloc by done. simpl. rewrite Hp, Hn, Hd. simpl.
  rewrite HP in Hr, Hni.
  destruct (rings_list_add_tail h1 hd lh G x) as (h2 & -> & ? & ?); [done|by apply Hs|done|].
  exists h2. split_and!; [done|done|by etrans].
Qed.

Lemma rings_get_next h k l1 x l2 F :
  rings h ((k, l1 ++ x :: l2) :: F) -> get_next (Some x) h = Done (head (l2 ++ [k])).
Proof.
  intros (Hr & _)%rings_cons. rewrite get_next_alloc by (eapply ring_alloc; [done|set_solver]).
  by rewrite (ring_next _ _ _ _ _ Hr).
Qed.
Lemma rings_get_prev h k l1 x l2 F :
  rings h ((k, l1 ++ x :: l2) :: F) -> get_prev (Some x) h = Done (last (k :: l1)).
Proof.
  intros (Hr & _)%rings_cons. rewrite get_prev_alloc by (eapply ring_alloc; [done|set_solver]).
  by rewrite (ring_prev _ _ _ _ _ Hr).
Qed.
Lemma rings_head_next h k l F :
  rings h ((k, l) :: F) -> get_next (Some k) h = Done (head (l ++ [k])).
Proof.
  intros (Hr & _)%rings_cons. rewrite get_next_alloc by (eapply ring_alloc; [done|left]).
  by rewrite (ring_head_next _ _ _ Hr).
Qed.
Lemma rings_head_prev h k l F :
  rings h ((k, l) :: F) -> get_prev (Some k) h = Done (last (k :: l)).
Proof.
  intros (Hr & _)%rings_cons. rewrite get_prev_alloc by (eapply ring_alloc; [done|left]).
  by rewrite (ring_head_prev _ _ _ Hr).
Qed.

Lemma rings_list_pop_head h k l F :
  rings h ((k, l) :: F) ->
  match l with
  | [] => list_pop_head k h = Done (None, h)
  | x :: l' => exists h', list_pop_head k h = Done (Some x, h') /\
      rings h' ((x, []) :: (k, l') :: F) /\ same_cells h h'
  end.
Proof.
  intros HF. unfold list_pop_head. rewrite (rings_empty _ _ _ _ HF). simpl.
  destruct l as [|x l]; [done|]. simpl. rewrite (rings_head_next _ _ _ _ HF). simpl.
  destruct (rings_list_del_init h k [] x l F HF) as (h' & -> & ? & ?). simpl. eauto.
Qed.

Lemma rings_list_pop_tail h k l F :
  rings h ((k, l) :: F) ->
  match last l with
  | None => list_pop_tail k h = Done (None, h)
  | Some x => exists h', list_pop_tail k h = Done (Some x, h') /\
      rings h' ((x, []) :: (k, removelast l) :: F) /\ same_cells h h'
  end.
Proof.
  intros HF. unfold list_pop_tail. rewrite (rings_empty _ _ _ _ HF). simpl.
  destruct (last_snoc_cases l) as [->|(l' & x & ->)]; [done|].
  rewrite last_snoc, removelast_snoc.
  rewrite bool_decide_eq_false_2 by (by destruct l').
  rewrite (rings_head_prev _ _ _ _ HF), app_comm_cons, last_snoc. simpl.
  destruct (rings_list_del_init h k l' x [] F HF) as (h' & -> & ? & ?).
  rewrite app_nil_r in *. simpl. eauto.
Qed.

(** Stores aimed at a ring's members and ends leave the other rings alone. *)
Lemma rings_intro h h' k l F S :
  rings h F -> keeps h h' S -> chain h' l -> ends h' k l -> NoDup (k :: l) ->
  (forall x, x ∈ k :: l -> (x ∉ blocks F) /\ alloc h x) ->
  (forall x, x ∈ S -> x ∉ blocks F) ->
  rings h' ((k, l) :: F).
Proof.
  intros HF Hk Hc He Hnd Hd HS. apply rings_cons. split_and!; [|done| |].
  - apply ring_intro; [done|done|]. intros a Ha. apply Hk. by apply Hd.
  - intros x Hx. by apply Hd.
  - eapply rings_keeps; [done|done|]. intros x Hx HxS. by apply (HS x).
Qed.

(** [list_replace old new_]: [new_] takes the place of [old]. *)
Lemma rings_list_replace h old l F new_ :
  rings h ((old, l) :: F) -> alloc h new_ -> new_ ∉ blocks ((old, l) :: F) ->
  exists h', list_replace old new_ h = Done h' /\
    rings h' ((new_, l) :: F) /\ (old ∉ blocks ((new_, l) :: F)) /\ same_cells h h'.
Proof.
  intros HF Hn Hni. pose proof HF as (Hr & Hnd & Hd & HF')%rings_cons.
  rewrite blocks_cons in Hni.
  assert (Ho : alloc h old) by (eapply ring_alloc; [done|left]).
  assert (Hold : old ∉ blocks ((new_, l) :: F)).
  { apply NoDup_cons in Hnd as [Hol _]. rewrite blocks_cons.
    assert (old ∉ blocks F) by (apply Hd; left). set_solver. }
  unfold list_replace. rewrite (rings_head_next _ _ _ _ HF). simpl.
  assert (new_ <> old) by set_solver.
  destruct l as [|x l].
  { simpl. repeat (heap_step; read_link; simpl). eexists. split; [done|]. split_and!; [|done|].
    - eapply (rings_intro h _ _ _ _ [new_; old]); [done| |done| | | |].
      + split; [|intros c; by repeat rewrite ?alloc_upd_next, ?alloc_upd_prev].
        intros c Hc. assert (c <> new_ /\ c <> old) as [??] by set_solver. by read_link.
      + split_and!; simpl; try done; by read_link.
      + apply NoDup_singleton.
      + set_solver.
      + set_solver.
    - intros c. by repeat rewrite ?alloc_upd_next, ?alloc_upd_prev. }
  destruct (last_snoc_cases (x :: l)) as [?|(m & z & E)]; [done|].
  assert (Hlast : last (x :: l) = Some z) by (by rewrite E, last_snoc).
  assert (Hz : z ∈ x :: l) by (rewrite E; set_solver).
  assert (alloc h x) by (eapply ring_alloc; [done|set_solver]).
  assert (alloc h z) by (eapply ring_alloc; [done|by right]).
  assert (x <> new_ /\ z <> new_) as [??] by set_solver.
  assert (Hpo : prv h old = Some z).
  { rewrite (ring_head_prev _ _ _ Hr), last_cons, Hlast. done. }
  assert (x <> old) by (apply NoDup_cons in Hnd as [? _]; set_solver).
  simpl. repeat (heap_step; read_link). rewrite Hpo. simpl. repeat (heap_step; read_link).
  eexists. split; [done|]. split_and!; [|done|].
  - eapply (rings_intro h _ _ _ _ [new_; x; z]); [done| | | | | |].
    + split; [|intros c; by repeat rewrite ?alloc_upd_next, ?alloc_upd_prev].
      intros c Hc. assert (c <> new_ /\ c <> x /\ c <> z) as (?&?&?) by set_solver. by read_link.
    + apply (chain_ends_frame h).
      * by eapply ring_interior.
      * by apply NoDup_cons in Hnd as [_ ?].
      * intros c Hc Hl. assert (c <> z) by (intros ->; done).
        assert (c <> new_) by set_solver. by read_link.
      * intros c Hc Hl. assert (c <> x) by (intros ->; done).
        assert (c <> new_) by set_solver. by read_link.
    + split_and!.
      * simpl. by read_link.
      * rewrite last_cons, Hlast. by read_link.
      * intros z'. rewrite Hlast. intros [= <-]. by read_link.
      * intros x' [= <-]. by read_link.
    + apply NoDup_cons in Hnd as [? ?]. apply NoDup_cons. split; [set_solver|done].
    + intros c [->|Hc]%elem_of_cons; [set_solver|].
      split; [apply Hd; by right|eapply ring_alloc; [done|by right]].
    + intros c. rewrite !elem_of_cons, elem_of_nil.
      intros [->|[->|[->|[]]]]; [set_solver|apply Hd; set_solver|apply Hd; by right].
  - intros c. by repeat rewrite ?alloc_upd_next, ?alloc_upd_prev.
Qed.

(** [__list_splice]: the entries of [list] go between [a] and [b]. *)
Lemma __list_splice_chain h list ls a b l1 l2 :
  ring h list ls -> ls <> [] -> NoDup ls ->
  chain h (l1 ++ a :: b :: l2) -> alloc h a -> alloc h b ->
  (forall c, c ∈ ls -> c ∉ l1 ++ a :: b :: l2) ->
  a ∉ l1 -> a ∉ removelast (b :: l2) -> b ∉ tail (l1 ++ [a]) -> b ∉ l2 ->
  exists h', __list_splice list (Some a) (Some b) h = Done h' /\
    chain h' (l1 ++ a :: ls ++ b :: l2) /\ keeps h h' (a :: b :: ls).
Proof.
  intros Hr Hne Hnd Hc Ha Hb Hdis Ha1 Ha2 Hb1 Hb2.
  destruct ls as [|x ls]; [done|]. clear Hne.
  destruct (last_snoc_cases (x :: ls)) as [?|(m & z & E)]; [done|].
  assert (Hlast : last (x :: ls) = Some z) by (by rewrite E, last_snoc).
  assert (Hz : z ∈ x :: ls) by (rewrite E; set_solver).
  assert (Hx : x ∈ x :: ls) by left.
  assert (alloc h x) by (eapply ring_alloc; [done|by right]).
  assert (alloc h z) by (eapply ring_alloc; [done|by right]).
  assert (alloc h list) by (eapply ring_alloc; [done|left]).
  destruct (ring_ends _ _ _ Hr) as (Hn & Hp & _ & _).
  rewrite last_cons, Hlast in Hp. simpl in Hn.
  unfold __list_splice. repeat heap_step. rewrite Hn, Hp. repeat heap_step.
  eexists. split; [done|].
  assert (x <> b /\ z <> a) as [??].
  { split; intros ->; eapply Hdis; [exact Hx| |exact Hz|]; set_solver. }
  assert (x <> a /\ z <> b) as [??].
  { split; intros ->; eapply Hdis; [exact Hx| |exact Hz|]; set_solver. }
  apply chain_app in Hc as [Hc1 [_ Hc2]].
  set (h' := upd_prev b _ _).
  assert (Hk : keeps h h' (a :: b :: x :: ls)).
  { split; [|intros c; unfold h'; by repeat rewrite ?alloc_upd_next, ?alloc_upd_prev].
    intros c Hc. assert (c <> a /\ c <> b /\ c <> x) as (?&?&?) by set_solver.
    assert (c <> z) by set_solver. unfold h'. by read_link. }
  split; [|done].
  assert (Hls : chain h' (x :: ls)).
  { apply (chain_ends_frame h); [by eapply ring_interior|done|..].
    - intros c Hc Hl. assert (c <> z) by (intros ->; done).
      assert (c <> a) by (intros ->; eapply Hdis; [exact Hc|set_solver]). unfold h'. by read_link.
    - intros c Hc Hl. assert (c <> x) by (intros ->; done).
      assert (c <> b) by (intros ->; eapply Hdis; [exact Hc|set_solver]). unfold h'. by read_link. }
  assert (Hright : chain h' ((x :: ls) ++ b :: l2)).
  { rewrite E in *. rewrite <-app_assoc. simpl. apply chain_app. split; [done|]. split.
    - split; unfold h'; by read_link.
    - apply (chain_same h); [done|..].
      + intros c Hc. assert (c <> a) by (intros ->; done).
        assert (c <> z); [|unfold h'; by read_link]. intros ->.
        apply (Hdis z Hz). apply removelast_sub in Hc. set_solver.
      + simpl. intros c Hc. assert (c <> b) by (intros ->; done).
        assert (c <> x); [|unfold h'; by read_link]. intros ->. apply (Hdis x Hx). set_solver. }
  apply chain_app. split.
  - apply (chain_same h); [done|..].
    + rewrite removelast_snoc. intros c Hc. assert (c <> a) by (intros ->; done).
      assert (c <> z); [|unfold h'; by read_link]. intros ->. apply (Hdis z Hz). set_solver.
    + intros c Hc. assert (c <> b) by (intros ->; done).
      assert (c <> x); [|unfold h'; by read_link]. intros ->. apply (Hdis x Hx).
      apply tail_sub in Hc. set_solver.
  - simpl. split; [|done]. split; unfold h'; by read_link.
Qed.
(** What [__list_splice] does to the store, given the two neighbours between
    which the entries go. *)
Lemma rings_splice_between h list ls k l F a b l1 l2 :
  rings h ((list, ls) :: (k, l) :: F) -> ls <> [] ->
  k :: l ++ [k] = l1 ++ a :: b :: l2 ->
  a ∈ k :: l -> b ∈ k :: l ->
  a ∉ l1 -> a ∉ removelast (b :: l2) -> b ∉ tail (l1 ++ [a]) -> b ∉ l2 ->
  exists h', __list_splice list (Some a) (Some b) h = Done h' /\
    chain h' (l1 ++ a :: ls ++ b :: l2) /\ same_cells h h' /\ alloc h' list /\
    rings h' F /\ NoDup (list :: ls ++ k :: l) /\
    (forall x, x ∈ list :: ls ++ k :: l -> x ∉ blocks F) /\
    (forall x, x ∈ ls ++ k :: l -> alloc h' x).
Proof.
  intros HF Hne E Ha Hb ? ? ? ?.
  pose proof HF as (Hrl & Hndl & Hdl & (Hr & Hnd & Hd & HF')%rings_cons)%rings_cons.
  destruct (__list_splice_chain h list ls a b l1 l2) as (h' & -> & Hc & Hk); try done.
  - by apply NoDup_cons in Hndl as [_ ?].
  - rewrite <-E. apply Hr.
  - by eapply ring_alloc.
  - by eapply ring_alloc.
  - rewrite <-E. intros c Hc Hin. eapply (Hdl c); [by right|]. rewrite blocks_cons. set_solver +Hin.
  - exists h'. split_and!; [done|done|by eapply keeps_same_cells| | | | |].
    + apply Hk. apply (ring_alloc h list ls); [done|left].
    + eapply rings_keeps; [done|done|]. intros x Hx. rewrite !elem_of_cons.
      intros [->|[->|Hxl]]; [by apply (Hd a)|by apply (Hd b)|].
      apply (Hdl x); [by right|]. rewrite blocks_cons. set_solver +Hx.
    + apply NoDup_cons in Hndl as [Hli Hnls]. apply NoDup_cons.
      assert (Hx : forall x, x ∈ list :: ls -> x ∉ k :: l).
      { intros x Hx Hin. apply (Hdl x Hx). rewrite blocks_cons. set_solver +Hin. }
      split; [|apply NoDup_app; split_and!; [done| |done]].
      * rewrite elem_of_app. intros [?|?]; [done|]. eapply Hx; [left|done].
      * intros x Hin. apply Hx. by right.
    + intros x. rewrite app_comm_cons, elem_of_app. intros [Hx|Hx] Hin; [|by apply (Hd x)].
      apply (Hdl x Hx). rewrite blocks_cons. set_solver +Hin.
    + intros x Hx. apply Hk. apply elem_of_app in Hx as [Hx|Hx].
      * apply (ring_alloc h list ls); [done|by right].
      * by apply (ring_alloc h k l).
Qed.

Lemma rings_splice_front h list ls k l F :
  rings h ((list, ls) :: (k, l) :: F) -> ls <> [] ->
  exists n h', get_next (Some k) h = Done n /\ __list_splice list (Some k) n h = Done h' /\
    rings h' ((k, ls ++ l) :: F) /\ (list ∉ blocks ((k, ls ++ l) :: F)) /\
    same_cells h h' /\ alloc h' list.
Proof.
  intros HF Hne.
  pose proof HF as (_ & _ & _ & (Hr & Hnd & Hd & HF')%rings_cons)%rings_cons.
  rewrite get_next_alloc by (eapply ring_alloc; [done|left]). rewrite (ring_head_next _ _ _ Hr).
  destruct (l ++ [k]) as [|b l2] eqn:E; [by destruct l|].
  assert (Hb : b ∈ k :: l) by (destruct l; simplify_eq/=; set_solver).
  assert (Hnd' : NoDup (b :: l2)).
  { rewrite <-E. apply NoDup_app. apply NoDup_cons in Hnd as [? ?].
    split_and!; [done|set_solver|apply NoDup_singleton]. }
  destruct (rings_splice_between h list ls k l F k b [] l2) as
    (h' & Hs & Hc & ? & Hal & HF2 & Hn2 & Hd2 & Ha2); [done|done|by simpl; f_equal| |done|..].
  - left.
  - set_solver.
  - rewrite <-E, removelast_snoc. by apply NoDup_cons in Hnd as [? _].
  - set_solver.
  - by apply NoDup_cons in Hnd' as [? _].
  - assert (P : k :: ls ++ l ≡ₚ ls ++ k :: l) by (by rewrite <-Permutation_middle).
    apply NoDup_cons in Hn2 as [Hli Hn2].
    exists (Some b), h'. split_and!; [done|done| | |done|done].
    + apply rings_cons. split_and!; [split| | |done].
      * rewrite <-app_assoc, E. exact Hc.
      * intros a Ha. apply Ha2. by rewrite <-P.
      * by rewrite P.
      * intros x Hx. apply Hd2. right. by rewrite <-P.
    + rewrite blocks_cons, elem_of_app, P. intros [?|Hin]; [done|].
      apply (Hd2 list); [left|done].
Qed.

Lemma rings_splice_back h list ls k l F :
  rings h ((list, ls) :: (k, l) :: F) -> ls <> [] ->
  exists n h', get_prev (Some k) h = Done n /\ __list_splice list n (Some k) h = Done h' /\
    rings h' ((k, l ++ ls) :: F) /\ (list ∉ blocks ((k, l ++ ls) :: F)) /\
    same_cells h h' /\ alloc h' list.
Proof.
  intros HF Hne.
  pose proof HF as (_ & _ & _ & (Hr & Hnd & Hd & HF')%rings_cons)%rings_cons.
  rewrite get_prev_alloc by (eapply ring_alloc; [done|left]). rewrite (ring_head_prev _ _ _ Hr).
  destruct (last_snoc_cases (k :: l)) as [?|(l1 & a & E)]; [done|].
  assert (Ha : a ∈ k :: l) by (rewrite E; set_solver +).
  replace (last (k :: l)) with (Some a) by (by rewrite E, last_snoc).
  destruct (rings_splice_between h list ls k l F a k l1 []) as
    (h' & Hs & Hc & ? & Hal & HF2 & Hn2 & Hd2 & Ha2); [done|done| |done|left|..].
  - by rewrite app_comm_cons, E, <-app_assoc.
  - rewrite E in Hnd. apply NoDup_app in Hnd as (_ & Hd' & _). set_solver +Hd'.
  - set_solver +.
  - rewrite <-E. simpl. by apply NoDup_cons in Hnd as [? _].
  - set_solver +.
  - assert (P : k :: l ++ ls ≡ₚ ls ++ k :: l).
    { rewrite <-Permutation_middle. f_equiv. apply Permutation_app_comm. }
    apply NoDup_cons in Hn2 as [Hli Hn2].
    exists (Some a), h'. split_and!; [done|done| | |done|done].
    + apply rings_cons. split_and!; [split| | |done].
      * rewrite <-app_assoc, app_comm_cons, E, <-app_assoc. exact Hc.
      * intros c Hin. apply Ha2. by rewrite <-P.
      * by rewrite P.
      * intros x Hx. apply Hd2. right. by rewrite <-P.
    + rewrite blocks_cons, elem_of_app, P. intros [?|Hin]; [done|].
      apply (Hd2 list); [left|done].
Qed.

(** [list_splice] and [list_splice_tail] leave the emptied head dangling,
    the [_init] forms make it an empty list. *)
Lemma rings_list_splice h list ls k l F :
  rings h ((list, ls) :: (k, l) :: F) ->
  if bool_decide (ls = []) then list_splice list k h = Done h
  else exists h', list_splice list k h = Done h' /\ rings h' ((k, ls ++ l) :: F) /\ same_cells h h'.
Proof.
  intros HF. unfold list_splice. rewrite (rings_empty _ _ _ _ HF). simpl.
  case_bool_decide; [done|].
  destruct (rings_splice_front _ _ _ _ _ _ HF) as (n & h' & -> & Hs & ? & ? & ? & ?); [done|].
  simpl. rewrite Hs. eauto.
Qed.

Lemma rings_list_splice_tail h list ls k l F :
  rings h ((list, ls) :: (k, l) :: F) ->
  if bool_decide (ls = []) then list_splice_tail list k h = Done h
  else exists h', list_splice_tail list k h = Done h' /\ rings h' ((k, l ++ ls) :: F) /\ same_cells h h'.
Proof.
  intros HF. unfold list_splice_tail. rewrite (rings_empty _ _ _ _ HF). simpl.
  case_bool_decide; [done|].
  destruct (rings_splice_back _ _ _ _ _ _ HF) as (n & h' & -> & Hs & ? & ? & ? & ?); [done|].
  simpl. rewrite Hs. eauto.
Qed.

Lemma rings_list_splice_init h list ls k l F :
  rings h ((list, ls) :: (k, l) :: F) ->
  exists h', list_splice_init list k h = Done h' /\
    rings h' ((list, []) :: (k, ls ++ l) :: F) /\ same_cells h h'.
Proof.
  intros HF. unfold list_splice_init. rewrite (rings_empty _ _ _ _ HF). simpl.
  case_bool_decide as Hls; [subst; exists h; by split_and!|].
  destruct (rings_splice_front _ _ _ _ _ _ HF) as (n & h1 & -> & Hs & HF1 & ? & ? & ?); [done|].
  simpl. rewrite Hs. simpl.
  destruct (rings_init _ _ list HF1) as (h2 & -> & ? & ?); [done|done|].
  exists h2. split_and!; [done|done|by etrans].
Qed.

Lemma rings_list_splice_tail_init h list ls k l F :
  rings h ((list, ls) :: (k, l) :: F) ->
  exists h', list_splice_tail_init list k h = Done h' /\
    rings h' ((list, []) :: (k, l ++ ls) :: F) /\ same_cells h h'.
Proof.
  intros HF. unfold list_splice_tail_init. rewrite (rings_empty _ _ _ _ HF). simpl.
  case_bool_decide as Hls; [subst; exists h; rewrite app_nil_r; by split_and!|].
  destruct (rings_splice_back _ _ _ _ _ _ HF) as (n & h1 & -> & Hs & HF1 & ? & ? & ?); [done|].
  simpl. rewrite Hs. simpl.
  destruct (rings_init _ _ list HF1) as (h2 & -> & ? & ?); [done|done|].
  exists h2. split_and!; [done|done|by etrans].
Qed.

Lemma rings_list_replace_init h old l F new_ :
  rings h ((old, l) :: F) -> alloc h new_ -> new_ ∉ blocks ((old, l) :: F) ->
  exists h', list_replace_init old new_ h = Done h' /\
    rings h' ((old, []) :: (new_, l) :: F) /\ same_cells h h'.
Proof.
  intros HF Hn Hni. unfold list_replace_init.
  destruct (rings_list_replace h old l F new_) as (h1 & -> & HF1 & ? & Hs); [done..|]. simpl.
  destruct (rings_init _ _ old HF1) as (h2 & -> & ? & ?); [|done|].
  - apply Hs. apply (rings_alloc h ((old, l) :: F)); [done|]. rewrite blocks_cons. left.
  - exists h2. split_and!; [done|done|by etrans].
Qed.
End more_ops.

(** ** list_cut_position and list_swap *)
Section cut_swap.
Context {K : Type} `{Countable K}.
Implicit Types (h : heap K) (a b c k x z e mid : K) (F : list (K * list K)).

Lemma __list_cut_position_rings h k l1 e l2 F cut :
  rings h ((k, l1 ++ e :: l2) :: F) -> alloc h cut ->
  cut ∉ blocks ((k, l1 ++ e :: l2) :: F) ->
  exists h', __list_cut_position cut k e h = Done h' /\
    rings h' ((cut, l1 ++ [e]) :: (k, l2) :: F) /\ same_cells h h'.
Proof.
  intros HF Hcut Hni. pose proof HF as (Hr & Hnd & Hd & HF')%rings_cons.
  rewrite blocks_cons in Hni.
  destruct (l1 ++ [e]) as [|x m] eqn:E1; [by destruct l1|].
  destruct (l2 ++ [k]) as [|n m2] eqn:E2; [by destruct l2|].
  assert (Hx : x ∈ l1 ++ [e]) by (rewrite E1; left).
  assert (Hn : n ∈ l2 ++ [k]) by (rewrite E2; left).
  assert (Hal : forall c, c ∈ k :: l1 ++ e :: l2 -> alloc h c) by (intros; by eapply ring_alloc).
  assert (alloc h k /\ alloc h e /\ alloc h x /\ alloc h n) as (?&?&?&?).
  { split_and!; apply Hal; set_solver +Hx Hn. }
  assert (Hhn : nxt h k = Some x).
  { rewrite (ring_head_next _ _ _ Hr). destruct l1; simpl in *; by simplify_eq. }
  assert (Hen : nxt h e = Some n) by (by rewrite (ring_next _ _ _ _ _ Hr), E2).
  assert (Hce : forall c, c ∈ k :: l1 ++ e :: l2 -> c <> cut).
  { intros c Hc ->. apply Hni. set_solver +Hc. }
  pose proof Hnd as Hnd'. apply NoDup_cons in Hnd' as [Hk Hnd'].
  apply NoDup_app in Hnd' as (Hnd1 & Hd12 & Hnd2). apply NoDup_cons in Hnd2 as [He Hnd2].
  assert (e <> k) by set_solver +Hk.
  assert (Hnx : forall c, c ∈ l1 ++ [e] -> c <> n).
  { intros c Hc ->. apply elem_of_app in Hn as [Hn| ->%list_elem_of_singleton]; set_solver. }
  assert (Hxk : forall c, c ∈ l1 ++ [e] -> c <> k) by (intros c Hc ->; set_solver).
  assert (HN1 : NoDup (l1 ++ [e])).
  { apply NoDup_app. split_and!; [done| |apply NoDup_singleton]. set_solver +Hd12. }
  unfold __list_cut_position. repeat heap_step. rewrite Hhn, Hen.
  read_link; repeat (heap_step; read_link). eexists. split; [done|].
  set (h' := upd_prev n _ _).
  assert (Hs : same_cells h h').
  { intros c. unfold h'. by repeat rewrite ?alloc_upd_next, ?alloc_upd_prev. }
  assert (Hkeep : keeps h h' (cut :: k :: l1 ++ e :: l2)).
  { split; [|done]. intros c Hc.
    assert (c <> cut /\ c <> k /\ c <> e) as (?&?&?) by set_solver +Hc.
    assert (c <> x) by (intros ->; set_solver +Hc Hx).
    assert (c <> n) by (intros ->; set_solver +Hc Hn). unfold h'. by read_link. }
  assert (Hxn : x <> n) by auto. assert (x <> cut) by (apply Hce; set_solver +Hx).
  assert (e <> cut) by (apply Hce; set_solver +). assert (k <> cut) by (apply Hce; set_solver +).
  assert (n <> cut) by (apply Hce; set_solver +Hn).
  assert (x <> k) by auto. rewrite <-E1. split; [|done].
  apply rings_cons. split_and!.
  - apply ring_intro.
    + apply (chain_ends_frame h); [|done|..].
      * apply ring_interior in Hr. replace (l1 ++ e :: l2) with ((l1 ++ [e]) ++ l2) in Hr
          by (by rewrite <-app_assoc). by apply chain_app_l in Hr.
      * rewrite last_snoc. intros c Hc Hl. assert (c <> e) by congruence.
        assert (c <> cut) by (apply Hce; set_solver +Hc). assert (c <> k) by auto.
        unfold h'. by read_link.
      * rewrite E1. simpl. intros c Hc Hl. rewrite <-E1 in Hc. assert (c <> x) by congruence.
        assert (c <> cut) by (apply Hce; set_solver +Hc). assert (c <> n) by auto.
        unfold h'. by read_link.
    + split_and!; unfold h'.
      * rewrite E1. simpl. by read_link.
      * rewrite app_comm_cons, last_snoc. by read_link.
      * intros z. rewrite last_snoc. intros [= <-]. by read_link.
      * intros y. rewrite E1. intros [= <-]. by read_link.
    + intros c [->|Hc]%elem_of_cons; [by apply Hs|]. apply Hs, Hal. set_solver +Hc.
  - apply NoDup_cons. split; [|done]. set_solver +Hni.
  - intros c Hc. rewrite blocks_cons, elem_of_app. intros [Hin|Hin].
    + apply elem_of_cons in Hc as [->|Hc]; [by apply (Hce cut); set_solver +Hin|]. set_solver.
    + apply elem_of_cons in Hc as [->|Hc]; [set_solver|]. apply (Hd c); [set_solver +Hc|done].
  - apply rings_cons. split_and!.
    + apply ring_intro.
      * apply (chain_ends_frame h); [|done|..].
        -- apply ring_interior in Hr. by apply chain_app_r, (chain_app_r _ [e]) in Hr.
        -- intros c Hc Hl. assert (c <> cut) by (apply Hce; set_solver +Hc).
           assert (c <> k /\ c <> e) as [??] by set_solver. unfold h'. by read_link.
        -- intros c Hc Hl. assert (c <> cut) by (apply Hce; set_solver +Hc).
           assert (c <> x) by (intros ->; set_solver).
           assert (c <> n); [|unfold h'; by read_link]. intros ->.
           destruct l2 as [|y l2]; [by apply elem_of_nil in Hc|]. simplify_eq/=.
      * pose proof (ring_ends _ _ _ Hr) as (_ & Hp & Hl & _). split_and!.
        -- rewrite E2. unfold h'. by read_link.
        -- destruct l2 as [|y l2]; simplify_eq/=; [unfold h'; by read_link|].
           assert (k <> n) by set_solver. unfold h'. read_link. rewrite Hp.
           rewrite !last_cons, last_app, !last_cons. by destruct (last l2).
        -- intros z Hz. assert (z ∈ l2) by (apply last_Some in Hz as [? ->]; set_solver +).
           assert (z <> cut) by (apply Hce; set_solver).
           assert (z <> k /\ z <> e) as [??] by set_solver. unfold h'. read_link.
           apply Hl. rewrite last_app, last_cons. by rewrite Hz.
        -- intros y Hy. destruct l2 as [|y' l2]; simplify_eq/=. unfold h'. by read_link.
      * intros c Hc. apply Hs, Hal. set_solver +Hc.
    + apply NoDup_cons. set_solver.
    + intros c Hc. apply Hd. set_solver +Hc.
    + eapply rings_keeps; [exact Hkeep|done|]. intros c Hc. rewrite elem_of_cons.
      intros [->|Hin]; [set_solver +Hni Hc|by apply (Hd c)].
Qed.

(** [list_cut_position list head entry]: the entries of [head] up to and with
    [entry] move to [list]; [entry = head] empties [list]. *)
Lemma rings_list_cut_position h k l1 e l2 F cut :
  rings h ((k, l1 ++ e :: l2) :: F) -> alloc h cut ->
  cut ∉ blocks ((k, l1 ++ e :: l2) :: F) ->
  exists h', list_cut_position cut k e h = Done h' /\
    rings h' ((cut, l1 ++ [e]) :: (k, l2) :: F) /\ same_cells h h'.
Proof.
  intros HF Hcut Hni. unfold list_cut_position.
  rewrite (rings_empty _ _ _ _ HF). simpl. rewrite bool_decide_eq_false_2 by (by destruct l1).
  unfold list_is_singular. rewrite (rings_empty _ _ _ _ HF). simpl.
  rewrite (rings_head_next _ _ _ _ HF), (rings_head_prev _ _ _ _ HF). simpl.
  pose proof HF as (Hr & Hnd & _)%rings_cons.
  assert (e <> k).
  { intros ->. apply NoDup_cons in Hnd as [Hk _]. set_solver +Hk. }
  rewrite bool_decide_eq_false_2 by (by destruct l1). simpl.
  rewrite (bool_decide_eq_false_2 (e = k)) by done.
  case_match eqn:Hs.
  - exfalso. apply andb_prop in Hs as [[Hs He]%andb_prop _].
    apply bool_decide_eq_true in Hs. apply negb_true_iff, bool_decide_eq_false in He.
    assert (Hx : last (k :: l1 ++ e :: l2) = last (e :: l2)).
    { rewrite last_cons, last_app, last_cons. by destruct (last l2). }
    rewrite Hx in Hs. apply He. destruct l1 as [|x l1]; [done|]. exfalso.
    symmetry in Hs. apply last_Some in Hs as [m Hm].
    apply NoDup_cons in Hnd as [_ Hnd]. apply NoDup_cons in Hnd as [Hxn _].
    apply Hxn. rewrite Hm. set_solver +.
  - by apply __list_cut_position_rings.
Qed.

Lemma rings_list_cut_position_head h k l F cut :
  rings h ((k, l) :: F) -> l <> [] -> alloc h cut -> cut ∉ blocks ((k, l) :: F) ->
  exists h', list_cut_position cut k k h = Done h' /\
    rings h' ((cut, []) :: (k, l) :: F) /\ same_cells h h'.
Proof.
  intros HF Hl Hcut Hni. unfold list_cut_position.
  rewrite (rings_empty _ _ _ _ HF). simpl. rewrite bool_decide_eq_false_2 by done.
  unfold list_is_singular. rewrite (rings_empty _ _ _ _ HF). simpl.
  rewrite (rings_head_next _ _ _ _ HF), (rings_head_prev _ _ _ _ HF). simpl.
  rewrite (bool_decide_eq_true_2 (k = k)), andb_false_r by done.
  by apply rings_init.
Qed.

Lemma rings_cells h h' F :
  (forall c, c ∈ blocks F -> h' !! c = h !! c) -> rings h F -> rings h' F.
Proof.
  intros Hc [Hnd Hr]. split; [done|]. intros k l Hin. pose proof (Hr _ _ Hin) as [Hch Ha].
  assert (Hcell : forall c, c ∈ k :: l -> h' !! c = h !! c).
  { intros c Hc'. apply Hc, elem_of_blocks. eauto. }
  split.
  - apply (chain_same h); [done|..]; intros c Hin'.
    + apply nxt_cell, Hcell.
      change (k :: l ++ [k]) with ((k :: l) ++ [k]) in Hin'. by rewrite removelast_snoc in Hin'.
    + apply prv_cell, Hcell. simpl in Hin'. apply elem_of_app in Hin'. set_solver +Hin'.
  - intros c Hin'. by apply (alloc_cell h), Ha; [apply Hcell|].
Qed.

Lemma rings_insert_fresh h F x (v : link K) :
  h !! x = None -> rings h F -> rings (<[x := v]> h) F.
Proof.
  intros Hx HF. apply (rings_cells h); [|done]. intros c Hc. apply lookup_insert_ne.
  intros ->. apply (rings_alloc h F) in Hc; [|done]. apply alloc_Some in Hc as [? ?]. congruence.
Qed.

Lemma rings_delete_unused h F x : x ∉ blocks F -> rings h F -> rings (delete x h) F.
Proof.
  intros Hx HF. apply (rings_cells h); [|done]. intros c Hc. apply lookup_delete_ne.
  by intros ->.
Qed.

(** [list_swap l r]: the two heads exchange their contents, empty or not, and
    the temporary head leaves no trace. *)
Lemma rings_list_swap h l r ls rs F mid :
  rings h ((l, ls) :: (r, rs) :: F) -> h !! mid = None ->
  exists h', list_swap mid l r h = Done h' /\
    rings h' ((l, rs) :: (r, ls) :: F) /\ (forall c, alloc h' c <-> alloc h c).
Proof.
  intros HF Hmid. unfold list_swap.
  set (h0 := <[mid := _]> h).
  assert (HF0 : rings h0 ((l, ls) :: (r, rs) :: F)) by (by apply rings_insert_fresh).
  assert (Hm0 : alloc h0 mid) by (apply alloc_Some; unfold h0; rewrite lookup_insert_eq; eauto).
  assert (Hmn : mid ∉ blocks ((l, ls) :: (r, rs) :: F)).
  { intros Hin. apply (rings_alloc _ _ _ HF), alloc_Some in Hin as [? ?]. congruence. }
  destruct (rings_list_add _ _ _ _ mid HF0) as (h1 & -> & HF1 & Hs1); [done|done|]. simpl.
  apply (rings_rotate _ _ [] mid ls) in HF1.
  destruct (rings_list_del_init _ _ _ _ _ _ HF1) as (h2 & -> & HF2 & Hs2). simpl.
  rewrite app_nil_r in HF2.
  assert (HF2' : rings h2 ((r, rs) :: (mid, ls) :: F)).
  { apply rings_cons in HF2 as (_ & _ & _ & HF2). by rewrite perm_swap. }
  destruct (rings_list_add _ _ _ _ l HF2') as (h3 & -> & HF3 & Hs3).
  { eapply rings_alloc; [exact HF2|]. rewrite blocks_cons. left. }
  { apply rings_cons in HF2 as (_ & _ & Hd & _). intros Hin. apply (Hd l); [left|].
    revert Hin. rewrite !blocks_cons. set_solver +. }
  simpl. apply (rings_rotate _ _ [] l rs) in HF3.
  destruct (rings_list_del_init _ _ _ _ _ _ HF3) as (h4 & -> & HF4 & Hs4). simpl.
  rewrite app_nil_r in HF4.
  assert (HF4' : rings h4 ((mid, ls) :: (l, rs) :: F)).
  { apply rings_cons in HF4 as (_ & _ & _ & HF4). by rewrite perm_swap. }
  destruct (rings_list_add _ _ _ _ r HF4') as (h5 & -> & HF5 & Hs5).
  { eapply rings_alloc; [exact HF4|]. rewrite blocks_cons. left. }
  { apply rings_cons in HF4 as (_ & _ & Hd & _). intros Hin. apply (Hd r); [left|].
    revert Hin. rewrite !blocks_cons. set_solver +. }
  simpl. apply (rings_rotate _ _ [] r ls) in HF5.
  destruct (rings_list_del_init _ _ _ _ _ _ HF5) as (h6 & -> & HF6 & Hs6). simpl.
  rewrite app_nil_r in HF6. exists (delete mid h6). split; [done|].
  apply rings_cons in HF6 as (_ & _ & Hd & HF6). split.
  - apply rings_delete_unused; [|by rewrite perm_swap]. intros Hin. apply (Hd mid); [left|].
    revert Hin. rewrite !blocks_cons. set_solver +.
  - intros c. destruct (decide (c = mid)) as [->|Hc].
    + by rewrite !alloc_Some, lookup_delete_eq, Hmid.
    + assert (Hs : same_cells h0 h6) by (repeat (etrans; [eassumption|]); done).
      transitivity (alloc h6 c); [by apply alloc_cell, lookup_delete_ne|].
      rewrite (Hs c). by apply alloc_cell, lookup_insert_ne.
Qed.

(** Cells that point to themselves are empty lists. *)
Lemma rings_singletons h (D : list K) :
  NoDup D -> (forall d, d ∈ D -> h !! d = Some (Link (Some d) (Some d))) ->
  rings h ((fun d => (d, [])) <$> D).
Proof.
  intros Hnd Hd. split.
  - assert (blocks ((fun d => (d, [])) <$> D) = D) as ->; [|done].
    clear. induction D as [|d D IH]; [done|]. rewrite fmap_cons, blocks_cons, IH. done.
  - intros k l (d & [= -> ->] & Hin)%list_elem_of_fmap. specialize (Hd _ Hin). split.
    + split; [|done]. by split; [rewrite (nxt_lookup _ _ _ Hd)|rewrite (prv_lookup _ _ _ Hd)].
    + intros a ->%list_elem_of_singleton. apply alloc_Some. by rewrite Hd.
Qed.
End cut_swap.
