(* ===== verification/CListIter.v ===== *)
(** * base/list.h: the iteration macros and the refinement theorem

    [list_for_each_safe] and its variants are loops over the pointers that run a
    body with effects on a state [S] which contains the heap of links; fuel
    bounds the number of rounds, and [safe_loop_rule] shows that a body that
    deals with the entries one after the other needs no more rounds than there
    are entries.  [list_api_refines] is the contract of the whole header. *)
From S2P Require Import Prelude CList CListStore.

Section iteration.
Context {K : Type} `{Countable K} {S : Type} (lists : S -> heap K).
Implicit Types (head k x : K) (rem l : list K) (s : S).

(** The rounds of a [_safe] macro from the cursor [pos] with the saved cursor
    [n]; [step] is [get_next], or [get_prev] in the [_reverse] forms.  The body
    returns [true] for a [break]. *)
Fixpoint for_each_safe_from (step : option K -> heap K -> outcome (option K)) (head : K)
    (body : K -> S -> outcome (bool * S)) (fuel : nat) (pos n : option K) (s : S) : outcome S :=
  if bool_decide (pos = Some head) then Done s else
  match fuel with
  | O => NoFuel
  | Datatypes.S fuel =>
      k ← of_option pos;
      r ← body k s;
      if (r.1 : bool) then Done r.2 else
      n' ← step n (lists r.2);
      for_each_safe_from step head body fuel n n' r.2
  end.

(** list_for_each_safe, list_for_each_entry_safe *)
Definition list_for_each_safe (head : K) (body : K -> S -> outcome (bool * S))
    (fuel : nat) (s : S) : outcome S :=
  pos ← get_next (Some head) (lists s);
  n ← get_next pos (lists s);
  for_each_safe_from get_next head body fuel pos n s.

(** list_for_each_prev_safe, list_for_each_entry_safe_reverse *)
Definition list_for_each_safe_reverse (head : K) (body : K -> S -> outcome (bool * S))
    (fuel : nat) (s : S) : outcome S :=
  pos ← get_prev (Some head) (lists s);
  n ← get_prev pos (lists s);
  for_each_safe_from get_prev head body fuel pos n s.

(** list_for_each, list_for_each_entry: the next cursor is read after the body. *)
Fixpoint for_each_from (head : K) (body : K -> S -> outcome (bool * S))
    (fuel : nat) (pos : option K) (s : S) : outcome S :=
  if bool_decide (pos = Some head) then Done s else
  match fuel with
  | O => NoFuel
  | Datatypes.S fuel =>
      k ← of_option pos;
      r ← body k s;
      if (r.1 : bool) then Done r.2 else
      n ← get_next pos (lists r.2);
      for_each_from head body fuel n r.2
  end.

Definition list_for_each (head : K) (body : K -> S -> outcome (bool * S))
    (fuel : nat) (s : S) : outcome S :=
  pos ← get_next (Some head) (lists s);
  for_each_from head body fuel pos s.

(** [step] leads from each entry of [rem] to the next one and to [head]. *)
Definition follows (step : option K -> heap K -> outcome (option K)) (h : heap K)
    (rem : list K) (head : K) : Prop :=
  (exists p, step (Some head) h = Done p) /\
  (forall l1 x l2, rem = l1 ++ x :: l2 ->
     x <> head /\ step (Some x) h = Done (list.head (l2 ++ [head]))).

Lemma follows_tail step h x rem head : follows step h (x :: rem) head -> follows step h rem head.
Proof.
  intros [Hp Hf]. split; [done|]. intros l1 y l2 ->. by apply (Hf (x :: l1)).
Qed.

(** The loop rule of the [_safe] forms.  [Inv rem s] is the state before the
    entries [rem] are visited; the body may take its own entry out of the
    list, as long as the entries still to come stay linked. *)
Lemma safe_loop_rule step head body (Inv : list K -> S -> Prop) (Post : S -> Prop) :
  (forall rem s, Inv rem s -> follows step (lists s) rem head) ->
  (forall s, Inv [] s -> Post s) ->
  (forall x rem s, Inv (x :: rem) s ->
     exists b s', body x s = Done (b, s') /\ if (b : bool) then Post s' else Inv rem s') ->
  forall rem s fuel n, Inv rem s -> (length rem <= fuel)%nat ->
    (forall x rem', rem = x :: rem' -> n = list.head (rem' ++ [head])) ->
    exists s', for_each_safe_from step head body fuel (list.head (rem ++ [head])) n s = Done s'
      /\ Post s'.
Proof.
  intros Hfol Hend Hbody. induction rem as [|x rem IH]; intros s fuel n HI Hf Hn.
  - exists s. split; [|auto]. destruct fuel; simpl; by rewrite bool_decide_eq_true_2.
  - destruct (Hfol _ _ HI) as [_ Hx]. destruct (Hx [] x rem eq_refl) as [Hxh _].
    destruct fuel as [|fuel]; simpl in Hf; [lia|]. simpl.
    rewrite bool_decide_eq_false_2 by congruence.
    destruct (Hbody _ _ _ HI) as (b & s' & -> & Hb). simpl.
    destruct b; [eauto|]. specialize (Hn x rem eq_refl) as ->.
    destruct (Hfol _ _ Hb) as [[p Hp] Hstep].
    destruct rem as [|y rem].
    + simpl. rewrite Hp. simpl. destruct (IH s' fuel p Hb) as (s2 & E & ?); [lia|done|]. eauto.
    + simpl. destruct (Hstep [] y rem eq_refl) as [_ ->]. simpl.
      destruct (IH s' fuel (list.head (rem ++ [head])) Hb) as (s2 & E & ?); [simpl in *; lia| |eauto].
      by intros ? ? [= <- <-].
Qed.

(** The loop rule for a body that appends entries to the list it runs over:
    [d] bounds the number of rounds that may still append. *)
Lemma grow_loop_rule step head body (Inv : nat -> list K -> S -> Prop) (Post : S -> Prop) :
  (forall d rem s, Inv d rem s -> follows step (lists s) rem head) ->
  (forall s, Post s -> exists p, step (Some head) (lists s) = Done p) ->
  (forall d x rem s, Inv d (x :: rem) s -> exists s', body x s = Done (false, s') /\
     (rem = [] -> Post s') /\
     (rem <> [] -> exists d' new, Inv d' (rem ++ new) s' /\ (d' < d \/ d' = d /\ new = []))%nat) ->
  forall d rem s n, Inv d rem s -> rem <> [] ->
    (forall x rem', rem = x :: rem' -> n = list.head (rem' ++ [head])) ->
    exists fuel s', for_each_safe_from step head body fuel (list.head (rem ++ [head])) n s = Done s'
      /\ Post s'.
Proof.
  intros Hfol Hpost Hbody d. induction (lt_wf d) as [d _ IHd].
  intros rem. remember (length rem) as len eqn:Elen. revert rem Elen.
  induction len as [|len IHl]; intros [|x rem] Elen s n HI Hne Hn; try done.
  destruct (Hfol _ _ _ HI) as [_ Hx]. destruct (Hx [] x rem eq_refl) as [Hxh _].
  destruct (Hbody _ _ _ _ HI) as (s1 & Eb & Hlast & Hmore). specialize (Hn x rem eq_refl) as ->.
  assert (Hstep : forall fuel, for_each_safe_from step head body (Datatypes.S fuel) (list.head ((x :: rem) ++ [head]))
      (list.head (rem ++ [head])) s =
    (n' ← step (list.head (rem ++ [head])) (lists s1);
     for_each_safe_from step head body fuel (list.head (rem ++ [head])) n' s1)).
  { intros fuel. simpl. rewrite bool_decide_eq_false_2 by congruence. by rewrite Eb. }
  destruct rem as [|y rem].
  - destruct (Hpost _ (Hlast eq_refl)) as [p Hp]. exists 1%nat, s1. rewrite Hstep. simpl. rewrite Hp. simpl.
    rewrite bool_decide_eq_true_2 by done. auto.
  - destruct Hmore as (d' & new & HI' & Hdec); [done|].
    destruct (Hfol _ _ _ HI') as [_ Hy]. destruct (Hy [] y (rem ++ new) eq_refl) as [_ Ey].
    assert (exists fuel s', for_each_safe_from step head body fuel (list.head ((y :: rem ++ new) ++ [head]))
      (list.head ((rem ++ new) ++ [head])) s1 = Done s' /\ Post s') as (fuel & s' & E & HP).
    { destruct Hdec as [Hlt|[-> ->]].
      - eapply (IHd d' Hlt (y :: rem ++ new)); [exact HI'|done|by intros ? ? [= <- <-]].
      - rewrite app_nil_r in *. eapply (IHl (y :: rem)); [by injection Elen|exact HI'|done|by intros ? ? [= <- <-]]. }
    exists (Datatypes.S fuel), s'. rewrite Hstep. simpl in Ey. simpl. rewrite Ey. simpl. auto.
Qed.

(** More fuel does not change the result of a loop. *)
Lemma for_each_safe_from_fuel step head body fuel fuel' pos n s s' :
  (fuel <= fuel')%nat ->
  for_each_safe_from step head body fuel pos n s = Done s' ->
  for_each_safe_from step head body fuel' pos n s = Done s'.
Proof.
  revert fuel' pos n s. induction fuel as [|fuel IH]; intros fuel' pos n s Hf; simpl.
  - destruct (bool_decide (pos = Some head)) eqn:E; [|done]. intros [= ->].
    by destruct fuel'; simpl; rewrite E.
  - destruct fuel' as [|fuel']; [lia|]. simpl. destruct (bool_decide (pos = Some head)); [done|].
    destruct (of_option pos); simpl; [|done..]. destruct (body a s) as [[b s1]| |]; simpl; [|done..].
    destruct b; [done|]. destruct (step n (lists s1)); simpl; [|done..]. apply IH. lia.
Qed.

Lemma list_for_each_safe_fuel head body fuel fuel' s s' :
  (fuel <= fuel')%nat -> list_for_each_safe head body fuel s = Done s' ->
  list_for_each_safe head body fuel' s = Done s'.
Proof.
  intros Hf. unfold list_for_each_safe. destruct (get_next (Some head) (lists s)); simpl; [|done..].
  destruct (get_next a (lists s)); simpl; [|done..]. by apply for_each_safe_from_fuel.
Qed.

Lemma rings_follows_next h k l1 l2 F :
  rings h ((k, l1 ++ l2) :: F) -> follows get_next h l2 k.
Proof.
  intros HF. split.
  - eexists. by apply (rings_head_next _ _ _ _ HF).
  - intros l3 x l4 ->. split.
    + intros ->. pose proof HF as (_ & Hnd & _)%rings_cons. apply NoDup_cons in Hnd as [Hk _].
      set_solver +Hk.
    + rewrite app_assoc in HF. by rewrite (rings_get_next _ _ _ _ _ _ HF).
Qed.

Lemma last_rev_head (l : list K) : last (rev l) = list.head l.
Proof. destruct l; [done|]. simpl. by rewrite last_snoc. Qed.

Lemma rings_follows_prev h k l1 l2 F :
  rings h ((k, rev l2 ++ l1) :: F) -> follows get_prev h l2 k.
Proof.
  intros HF. split.
  - eexists. by apply (rings_head_prev _ _ _ _ HF).
  - intros l3 x l4 ->. split.
    + intros ->. pose proof HF as (_ & Hnd & _)%rings_cons. apply NoDup_cons in Hnd as [Hk _].
      apply Hk. rewrite rev_app_distr. simpl. set_solver +.
    + rewrite rev_app_distr in HF. simpl in HF. rewrite <-!app_assoc in HF. simpl in HF.
      rewrite (rings_get_prev _ _ _ _ _ _ HF), last_cons, last_rev_head. by destruct l4.
Qed.

(** The rule for a whole loop over the list of [k]. *)
Lemma list_for_each_safe_rule k l F body (Inv : list K -> S -> Prop) (Post : S -> Prop) s fuel :
  rings (lists s) ((k, l) :: F) ->
  (forall rem s, Inv rem s -> follows get_next (lists s) rem k) ->
  (forall s, Inv [] s -> Post s) ->
  (forall x rem s, Inv (x :: rem) s ->
     exists b s', body x s = Done (b, s') /\ if (b : bool) then Post s' else Inv rem s') ->
  Inv l s -> (length l <= fuel)%nat ->
  exists s', list_for_each_safe k body fuel s = Done s' /\ Post s'.
Proof.
  intros HF Hfol Hend Hbody HI Hf. unfold list_for_each_safe.
  rewrite (rings_head_next _ _ _ _ HF). simpl.
  destruct l as [|x l].
  - simpl. rewrite (rings_head_next _ _ _ _ HF). simpl.
    by apply (safe_loop_rule get_next k body Inv Post Hfol Hend Hbody [] s fuel).
  - simpl. rewrite (rings_get_next _ _ [] x l F HF). simpl.
    apply (safe_loop_rule get_next k body Inv Post Hfol Hend Hbody (x :: l) s fuel); [done|done|].
    by intros ? ? [= <- <-].
Qed.

Lemma list_for_each_safe_reverse_rule k l F body (Inv : list K -> S -> Prop) (Post : S -> Prop) s fuel :
  rings (lists s) ((k, l) :: F) ->
  (forall rem s, Inv rem s -> follows get_prev (lists s) rem k) ->
  (forall s, Inv [] s -> Post s) ->
  (forall x rem s, Inv (x :: rem) s ->
     exists b s', body x s = Done (b, s') /\ if (b : bool) then Post s' else Inv rem s') ->
  Inv (rev l) s -> (length l <= fuel)%nat ->
  exists s', list_for_each_safe_reverse k body fuel s = Done s' /\ Post s'.
Proof.
  intros HF Hfol Hend Hbody HI Hf. unfold list_for_each_safe_reverse.
  rewrite (rings_head_prev _ _ _ _ HF). simpl.
  assert (Hf' : (length (rev l) <= fuel)%nat) by (by rewrite length_rev).
  destruct (last_snoc_cases l) as [->|(m & x & ->)].
  - simpl. rewrite (rings_head_prev _ _ _ _ HF). simpl.
    by apply (safe_loop_rule get_prev k body Inv Post Hfol Hend Hbody [] s fuel).
  - rewrite app_comm_cons, last_snoc. rewrite rev_app_distr in HI, Hf'. simpl in HI, Hf'.
    rewrite (rings_get_prev _ _ m x [] F HF). simpl.
    apply (safe_loop_rule get_prev k body Inv Post Hfol Hend Hbody (x :: rev m) s fuel); [done|done|].
    intros ? ? [= <- <-]. rewrite last_cons.
    destruct (last_snoc_cases m) as [->|(m' & y & ->)]; [done|].
    by rewrite last_snoc, rev_app_distr.
Qed.
End iteration.

(** ** The header as an interface: commands, their meaning on lists, refinement *)
Section refinement.
Context {K : Type} `{Countable K}.
Implicit Types (h : heap K) (k x e head : K) (l : list K) (F G : list (K * list K)).

Inductive lcmd : Type :=
| CInit (x : K)
| CAdd (x head : K) | CAddTail (x head : K)
| CDel (x : K) | CDelInit (x : K)
| CReplace (old new_ : K) | CReplaceInit (old new_ : K)
| CMove (x head : K) | CMoveTail (x head : K)
| CCut (list head entry : K)
| CSplice (list head : K) | CSpliceTail (list head : K)
| CSpliceInit (list head : K) | CSpliceTailInit (list head : K)
| CPopHead (head : K) | CPopTail (head : K)
| CSwap (mid l r : K)
| CIsLast (x head : K) | CEmpty (head : K) | CEmptyCareful (head : K) | CIsSingular (head : K).

Inductive lret : Type := RVoid | RBool (b : bool) | RPtr (p : option K).

Definition void (o : outcome (heap K)) : outcome (heap K * lret) :=
  h ← o; Done (h, RVoid).
Definition query (h : heap K) (o : outcome bool) : outcome (heap K * lret) :=
  b ← o; Done (h, RBool b).
Definition pointer (o : outcome (option K * heap K)) : outcome (heap K * lret) :=
  r ← o; Done (r.2, RPtr r.1).

(** A call of the header, on the heap. *)
Definition lexec (c : lcmd) (h : heap K) : outcome (heap K * lret) :=
  match c with
  | CInit x => void (INIT_LIST_HEAD x h)
  | CAdd x head => void (list_add x head h)
  | CAddTail x head => void (list_add_tail x head h)
  | CDel x => void (list_del x h)
  | CDelInit x => void (list_del_init x h)
  | CReplace old new_ => void (list_replace old new_ h)
  | CReplaceInit old new_ => void (list_replace_init old new_ h)
  | CMove x head => void (list_move x head h)
  | CMoveTail x head => void (list_move_tail x head h)
  | CCut list head entry => void (list_cut_position list head entry h)
  | CSplice list head => void (list_splice list head h)
  | CSpliceTail list head => void (list_splice_tail list head h)
  | CSpliceInit list head => void (list_splice_init list head h)
  | CSpliceTailInit list head => void (list_splice_tail_init list head h)
  | CPopHead head => pointer (list_pop_head head h)
  | CPopTail head => pointer (list_pop_tail head h)
  | CSwap mid l r => void (list_swap mid l r h)
  | CIsLast x head => query h (list_is_last x head h)
  | CEmpty head => query h (list_empty head h)
  | CEmptyCareful head => query h (list_empty_careful head h)
  | CIsSingular head => query h (list_is_singular head h)
  end.

(** [free_cell A F x]: a cell of the allocated set [A] that is in no list. *)
Definition free_cell (A : gset K) F x : Prop := x ∈ A /\ x ∉ blocks F.

(** What each call means on the lists, and when it may be made.  The list
    worked on is at the front; [lmean] closes under reordering. *)
Inductive lstep (A : gset K) : lcmd -> list (K * list K) -> list (K * list K) -> lret -> Prop :=
| MInit x F : free_cell A F x -> lstep A (CInit x) F ((x, []) :: F) RVoid
| MAdd x k l F : free_cell A ((k, l) :: F) x ->
    lstep A (CAdd x k) ((k, l) :: F) ((k, x :: l) :: F) RVoid
| MAddTail x k l F : free_cell A ((k, l) :: F) x ->
    lstep A (CAddTail x k) ((k, l) :: F) ((k, l ++ [x]) :: F) RVoid
| MDel x k l1 l2 F : lstep A (CDel x) ((k, l1 ++ x :: l2) :: F) ((k, l1 ++ l2) :: F) RVoid
| MDelInit x k l1 l2 F :
    lstep A (CDelInit x) ((k, l1 ++ x :: l2) :: F) ((x, []) :: (k, l1 ++ l2) :: F) RVoid
| MDelInitDetached x F : lstep A (CDelInit x) ((x, []) :: F) ((x, []) :: F) RVoid
| MReplace old new_ l F : free_cell A ((old, l) :: F) new_ ->
    lstep A (CReplace old new_) ((old, l) :: F) ((new_, l) :: F) RVoid
| MReplaceEntry old new_ k l1 l2 F : free_cell A ((k, l1 ++ old :: l2) :: F) new_ ->
    lstep A (CReplace old new_) ((k, l1 ++ old :: l2) :: F) ((k, l1 ++ new_ :: l2) :: F) RVoid
| MReplaceInit old new_ l F : free_cell A ((old, l) :: F) new_ ->
    lstep A (CReplaceInit old new_) ((old, l) :: F) ((old, []) :: (new_, l) :: F) RVoid
| MMove x k l1 l2 F hd lh G : (k, l1 ++ l2) :: F ≡ₚ (hd, lh) :: G ->
    lstep A (CMove x hd) ((k, l1 ++ x :: l2) :: F) ((hd, x :: lh) :: G) RVoid
| MMoveTail x k l1 l2 F hd lh G : (k, l1 ++ l2) :: F ≡ₚ (hd, lh) :: G ->
    lstep A (CMoveTail x hd) ((k, l1 ++ x :: l2) :: F) ((hd, lh ++ [x]) :: G) RVoid
| MCut x k l1 e l2 F : free_cell A ((k, l1 ++ e :: l2) :: F) x ->
    lstep A (CCut x k e) ((k, l1 ++ e :: l2) :: F) ((x, l1 ++ [e]) :: (k, l2) :: F) RVoid
| MCutHead x k l F : l <> [] -> free_cell A ((k, l) :: F) x ->
    lstep A (CCut x k k) ((k, l) :: F) ((x, []) :: (k, l) :: F) RVoid
| MSplice x ls k l F : ls <> [] ->
    lstep A (CSplice x k) ((x, ls) :: (k, l) :: F) ((k, ls ++ l) :: F) RVoid
| MSpliceNil x k l F :
    lstep A (CSplice x k) ((x, []) :: (k, l) :: F) ((x, []) :: (k, l) :: F) RVoid
| MSpliceTail x ls k l F : ls <> [] ->
    lstep A (CSpliceTail x k) ((x, ls) :: (k, l) :: F) ((k, l ++ ls) :: F) RVoid
| MSpliceTailNil x k l F :
    lstep A (CSpliceTail x k) ((x, []) :: (k, l) :: F) ((x, []) :: (k, l) :: F) RVoid
| MSpliceInit x ls k l F :
    lstep A (CSpliceInit x k) ((x, ls) :: (k, l) :: F) ((x, []) :: (k, ls ++ l) :: F) RVoid
| MSpliceTailInit x ls k l F :
    lstep A (CSpliceTailInit x k) ((x, ls) :: (k, l) :: F) ((x, []) :: (k, l ++ ls) :: F) RVoid
| MPopHead k x l F :
    lstep A (CPopHead k) ((k, x :: l) :: F) ((x, []) :: (k, l) :: F) (RPtr (Some x))
| MPopHeadNil k F : lstep A (CPopHead k) ((k, []) :: F) ((k, []) :: F) (RPtr None)
| MPopTail k x l F :
    lstep A (CPopTail k) ((k, l ++ [x]) :: F) ((x, []) :: (k, l) :: F) (RPtr (Some x))
| MPopTailNil k F : lstep A (CPopTail k) ((k, []) :: F) ((k, []) :: F) (RPtr None)
| MSwap mid a b la lb F : mid ∉ A ->
    lstep A (CSwap mid a b) ((a, la) :: (b, lb) :: F) ((a, lb) :: (b, la) :: F) RVoid
| MIsLast x k l1 l2 F :
    lstep A (CIsLast x k) ((k, l1 ++ x :: l2) :: F) ((k, l1 ++ x :: l2) :: F)
      (RBool (bool_decide (l2 = [])))
| MEmpty k l F : lstep A (CEmpty k) ((k, l) :: F) ((k, l) :: F) (RBool (bool_decide (l = [])))
| MEmptyEntry x k l1 l2 F :
    lstep A (CEmpty x) ((k, l1 ++ x :: l2) :: F) ((k, l1 ++ x :: l2) :: F) (RBool false)
| MEmptyCareful k l F :
    lstep A (CEmptyCareful k) ((k, l) :: F) ((k, l) :: F) (RBool (bool_decide (l = [])))
| MIsSingular k l F :
    lstep A (CIsSingular k) ((k, l) :: F) ((k, l) :: F) (RBool (length l =? 1)%nat).

(** Up to reordering, and forgetting detached nodes that are about to be reused. *)
Definition lmean (A : gset K) (c : lcmd) (F F' : list (K * list K)) (r : lret) : Prop :=
  exists F1 G F2, F ≡ₚ G ++ F1 /\ lstep A c F1 F2 r /\ F2 ≡ₚ F'.

(** A sequence of calls, on the heap and on the lists. *)
Fixpoint lexecs (cs : list lcmd) (h : heap K) : outcome (heap K * list lret) :=
  match cs with
  | [] => Done (h, [])
  | c :: cs => p ← lexec c h; q ← lexecs cs p.1; Done (q.1, p.2 :: q.2)
  end.

Inductive lmeans (A : gset K) : list lcmd -> list (K * list K) -> list (K * list K) -> list lret -> Prop :=
| LNil F : lmeans A [] F F []
| LCons c cs F1 F2 F3 r rs :
    lmean A c F1 F2 r -> lmeans A cs F2 F3 rs -> lmeans A (c :: cs) F1 F3 (r :: rs).

(** The heap holds the lists [F] and its cells are those of [A]. *)
Definition holds (A : gset K) h F : Prop := rings h F /\ (forall x, alloc h x <-> x ∈ A).

Lemma rings_app_r h G F : rings h (G ++ F) -> rings h F.
Proof.
  induction G as [|[k l] G IH]; [done|]. simpl. intros (_ & _ & _ & ?)%rings_cons. auto.
Qed.

Lemma rings_replace_entry h k l1 old l2 F new_ :
  rings h ((k, l1 ++ old :: l2) :: F) -> alloc h new_ ->
  new_ ∉ blocks ((k, l1 ++ old :: l2) :: F) ->
  exists h', list_replace old new_ h = Done h' /\
    rings h' ((k, l1 ++ new_ :: l2) :: F) /\ same_cells h h'.
Proof.
  intros HF Hal Hni. apply rings_rotate in HF.
  destruct (rings_list_replace h old (l2 ++ k :: l1) F new_) as (h' & -> & HF' & _ & Hs);
    [done|done| |].
  - revert Hni. rewrite !blocks_cons. set_solver +.
  - exists h'. split_and!; [done| |done]. by apply rings_rotate.
Qed.

Lemma rings_is_last h k l1 x l2 F :
  rings h ((k, l1 ++ x :: l2) :: F) ->
  list_is_last x k h = Done (bool_decide (l2 = [])).
Proof.
  intros HF. unfold list_is_last. rewrite (rings_get_next _ _ _ _ _ _ HF). simpl.
  f_equal. apply bool_decide_ext. destruct l2 as [|y l2]; [done|]. simpl.
  split; [|done]. intros [= ->].
  apply rings_cons in HF as (_ & Hnd & _). apply NoDup_cons in Hnd as [Hk _]. set_solver +Hk.
Qed.

Lemma rings_head_links h k l F :
  rings h ((k, l) :: F) ->
  list.head (l ++ [k]) = last (k :: l) <-> (length l <= 1)%nat.
Proof.
  intros (_ & Hnd & _)%rings_cons. destruct l as [|x [|y l]]; simpl; [split; [lia|done]|split; [lia|done]|].
  split; [|lia]. intros E.
  change (Some x = last (y :: l)) in E. symmetry in E. apply last_Some in E as [m Hm].
  apply NoDup_cons in Hnd as [_ Hnd]. apply NoDup_cons in Hnd as [Hx _].
  exfalso. apply Hx. rewrite Hm. set_solver +.
Qed.

Lemma rings_is_singular h k l F :
  rings h ((k, l) :: F) -> list_is_singular k h = Done (length l =? 1)%nat.
Proof.
  intros HF. unfold list_is_singular. rewrite (rings_empty _ _ _ _ HF). simpl.
  rewrite (rings_head_next _ _ _ _ HF), (rings_head_prev _ _ _ _ HF).
  pose proof (rings_head_links _ _ _ _ HF) as E. destruct l as [|x [|y l]].
  - done.
  - simpl. by rewrite bool_decide_eq_true_2.
  - cbn -[last list.head]. rewrite bool_decide_eq_false_2; [done|]. rewrite E. simpl. lia.
Qed.

Lemma rings_empty_careful h k l F :
  rings h ((k, l) :: F) -> list_empty_careful k h = Done (bool_decide (l = [])).
Proof.
  intros HF. pose proof (rings_empty _ _ _ _ HF) as He. unfold list_empty in He.
  unfold list_empty_careful.
  rewrite (rings_head_next _ _ _ _ HF) in *. rewrite (rings_head_prev _ _ _ _ HF). simpl in *.
  injection He as ->. destruct l as [|x l]; [|done]. simpl. by rewrite !bool_decide_eq_true_2.
Qed.

(** One call, with the list it works on in front. *)
Lemma lstep_sound A c F F' r h :
  holds A h F -> lstep A c F F' r ->
  exists h', lexec c h = Done (h', r) /\ holds A h' F'.
Proof.
  intros [HF HA] Hs.
  assert (D : forall h' F2, rings h' F2 -> same_cells h h' -> holds A h' F2).
  { intros h' F2 ? Hsame. split; [done|]. intros x. by rewrite (Hsame x), HA. }
  assert (V : forall o F2, (exists h', o = Done h' /\ rings h' F2 /\ same_cells h h') ->
            exists h', void o = Done (h', RVoid) /\ holds A h' F2).
  { intros o F2 (h' & -> & ? & ?). exists h'. split; [done|by apply D]. }
  assert (Q : forall o b F2, o = Done b -> rings h F2 ->
            exists h', query h o = Done (h', RBool b) /\ holds A h' F2).
  { intros o b F2 -> ?. exists h. split; [done|by apply D]. }
  destruct Hs;
    repeat match goal with Hc : free_cell _ _ _ |- _ =>
      destruct Hc as [Hin Hni]; apply HA in Hin end; simpl.
  all: try (apply V; eauto using rings_init, rings_list_add, rings_list_add_tail,
         rings_list_del_init, rings_list_del_init_detached, rings_replace_entry,
         rings_list_replace_init, rings_list_move, rings_list_move_tail,
         rings_list_cut_position, rings_list_cut_position_head, rings_list_splice_init,
         rings_list_splice_tail_init; fail).
  all: try (apply Q; eauto using rings_is_last, rings_empty, rings_empty_entry,
         rings_empty_careful, rings_is_singular; fail).
  - apply V. destruct (rings_list_del _ _ _ _ _ _ HF) as (h' & ? & ? & ? & ? & ?). eauto.
  - apply V. destruct (rings_list_replace h old l F new_) as (h' & ? & ? & ? & ?); eauto.
  - apply V. pose proof (rings_list_splice _ _ _ _ _ _ HF) as E.
    by rewrite bool_decide_eq_false_2 in E.
  - apply V. pose proof (rings_list_splice _ _ _ _ _ _ HF) as E. simpl in E.
    exists h. by split_and!.
  - apply V. pose proof (rings_list_splice_tail _ _ _ _ _ _ HF) as E.
    by rewrite bool_decide_eq_false_2 in E.
  - apply V. pose proof (rings_list_splice_tail _ _ _ _ _ _ HF) as E. simpl in E.
    exists h. by split_and!.
  - destruct (rings_list_pop_head _ _ _ _ HF) as (h' & -> & ? & ?). exists h'. split; [done|by apply D].
  - pose proof (rings_list_pop_head _ _ _ _ HF) as E. simpl in E. rewrite E. exists h. by split.
  - pose proof (rings_list_pop_tail _ _ _ _ HF) as E. rewrite last_snoc, removelast_snoc in E.
    destruct E as (h' & -> & ? & ?). exists h'. split; [done|by apply D].
  - pose proof (rings_list_pop_tail _ _ _ _ HF) as E. simpl in E. rewrite E. exists h. by split.
  - apply V. apply rings_list_swap; [done|]. destruct (h !! mid) eqn:E; [|done].
    exfalso. assert (mid ∈ A); [|done]. apply HA, alloc_Some. eauto.
Qed.

(** C1: the contract of base/list.h.  Every sequence of calls made on disjoint
    lists with the header's discipline (an entry to add is a cell in no list,
    an entry to delete is in a list) runs to the end without following a bad
    pointer, returns the values that the list meaning gives, and leaves a heap
    that holds exactly the lists that meaning gives. *)
Theorem list_api_refines A cs F F' rs h :
  holds A h F -> lmeans A cs F F' rs ->
  exists h', lexecs cs h = Done (h', rs) /\ holds A h' F'.
Proof.
  intros Hh Hm. revert h Hh.
  induction Hm as [F|c cs F1 F2 F3 r rs (F1' & G & F2' & E1 & Hs & E2) Hm IH]; intros h Hh.
  - by exists h.
  - destruct Hh as [HF HA]. rewrite E1 in HF. apply rings_app_r in HF.
    destruct (lstep_sound A c F1' F2' r h) as (h1 & Hx & HF1 & HA1); [by split|done|].
    rewrite E2 in HF1. destruct (IH h1) as (h2 & Hxs & ?); [by split|].
    exists h2. split; [|done]. simpl. rewrite Hx. simpl. by rewrite Hxs.
Qed.
End refinement.

(** ** The contract at work on three cells *)
Section example.
(** Three cells, each initialised by [INIT_LIST_HEAD]. *)
Definition three_cells : heap positive :=
  list_to_map [(1%positive, Link (Some 1%positive) (Some 1%positive));
               (2%positive, Link (Some 2%positive) (Some 2%positive));
               (3%positive, Link (Some 3%positive) (Some 3%positive))].

Lemma three_cells_hold :
  holds {[1%positive; 2%positive; 3%positive]} three_cells
    [(2%positive, []); (3%positive, []); (1%positive, [])].
Proof.
  split; [split|].
  - apply (bool_decide_unpack _). by vm_compute.
  - intros k l Hin. rewrite !elem_of_cons, elem_of_nil in Hin.
    assert (Hr : forall k, three_cells !! k = Some (Link (Some k) (Some k)) -> ring three_cells k []).
    { intros k' Hk. split.
      - split; [|done]. by split; [rewrite (nxt_lookup _ _ _ Hk)|rewrite (prv_lookup _ _ _ Hk)].
      - intros a ->%list_elem_of_singleton. apply alloc_Some. by rewrite Hk. }
    destruct Hin as [[= -> ->]|[[= -> ->]|[[= -> ->]|[]]]]; by apply Hr.
  - intros x. rewrite alloc_Some. unfold three_cells. split.
    + intros [v Hv]. apply elem_of_list_to_map_2 in Hv. set_solver.
    + rewrite !elem_of_union, !elem_of_singleton. intros [[->| ->]| ->]; by eexists.
Qed.

Lemma list_api_refines_witness :
  exists h', lexecs [CAddTail 2 1; CAddTail 3 1; CDelInit 2; CPopTail 1; CEmpty 1]%positive three_cells
               = Done (h', [RVoid; RVoid; RVoid; RPtr (Some 3%positive); RBool true])
    /\ holds {[1%positive; 2%positive; 3%positive]} h'
         [(1%positive, []); (3%positive, []); (2%positive, [])].
Proof.
  apply (list_api_refines {[1%positive; 2%positive; 3%positive]} _
           [(2%positive, []); (3%positive, []); (1%positive, [])]).
  { apply three_cells_hold. }
  eapply LCons.
  { exists [(1%positive, []); (3%positive, [])], [(2%positive, [])].
    eexists. split_and!; [apply Permutation_cons; [done|apply perm_swap] | |apply perm_swap].
    apply MAddTail. split; [set_solver|]. by apply (bool_decide_unpack _). }
  eapply LCons.
  { exists [(1%positive, [2%positive])], [(3%positive, [])]. eexists.
    split_and!; [done| |done].
    apply MAddTail. split; [set_solver|]. by apply (bool_decide_unpack _). }
  eapply LCons.
  { exists [(1%positive, [2%positive; 3%positive])], []. eexists.
    split_and!; [done|apply (MDelInit _ _ _ [])|apply perm_swap]. }
  eapply LCons.
  { exists [(1%positive, [3%positive]); (2%positive, [])], []. eexists.
    split_and!; [done|apply (MPopTail _ _ _ [])|apply perm_swap]. }
  eapply LCons; [|constructor].
  exists [(1%positive, []); (3%positive, []); (2%positive, [])], []. eexists.
  split_and!; [done|apply (MEmpty _ 1%positive [])|done].
Defined.
End example.
