(* ===== verification/Words.v ===== *)
(** * Machine words

    A C integer of width w is a [Z]; the operations of the model wrap where the
    C type does.  [u8] .. [u64] reduce to the unsigned ranges, [i8] .. [i64]
    to the two's-complement ones.  The signed conversions are those of GCC,
    which reduces modulo 2^w. *)
From S2P Require Import Prelude.

Definition wrap_u (w : Z) (z : Z) : Z := z mod 2 ^ w.
Definition wrap_s (w : Z) (z : Z) : Z := (z + 2 ^ (w - 1)) mod 2 ^ w - 2 ^ (w - 1).

Abbreviation u8 := (wrap_u 8).
Abbreviation u16 := (wrap_u 16).
Abbreviation u32 := (wrap_u 32).
Abbreviation u64 := (wrap_u 64).
Abbreviation i8 := (wrap_s 8).
Abbreviation i16 := (wrap_s 16).
Abbreviation i32 := (wrap_s 32).
Abbreviation i64 := (wrap_s 64).

Definition in_u (w z : Z) : Prop := 0 <= z < 2 ^ w.
Definition in_s (w z : Z) : Prop := - 2 ^ (w - 1) <= z < 2 ^ (w - 1).

#[export] Instance in_u_dec w z : Decision (in_u w z).
Proof. unfold in_u. apply _. Defined.
#[export] Instance in_s_dec w z : Decision (in_s w z).
Proof. unfold in_s. apply _. Defined.

Create HintDb word.

Section wrap.
Implicit Types (w x y z : Z).

Lemma wrap_u_range w z : 0 <= w -> in_u w (wrap_u w z).
Proof. intros Hw. apply Z.mod_pos_bound. lia. Qed.

Lemma wrap_s_range w z : 0 < w -> in_s w (wrap_s w z).
Proof.
  intros Hw. unfold in_s, wrap_s.
  pose proof (Z.mod_pos_bound (z + 2 ^ (w - 1)) (2 ^ w) ltac:(lia)).
  assert (2 ^ w = 2 * 2 ^ (w - 1)) by (rewrite <-Z.pow_succ_r by lia; f_equal; lia). lia.
Qed.

Lemma wrap_u_id w z : in_u w z -> wrap_u w z = z.
Proof. intros ?. by apply Z.mod_small. Qed.

Lemma wrap_s_id w z : 0 < w -> in_s w z -> wrap_s w z = z.
Proof.
  intros Hw Hz. unfold wrap_s, in_s in *.
  assert (2 ^ w = 2 * 2 ^ (w - 1)) by (rewrite <-Z.pow_succ_r by lia; f_equal; lia).
  rewrite Z.mod_small; lia.
Qed.

Lemma wrap_u_idem w z : wrap_u w (wrap_u w z) = wrap_u w z.
Proof. apply Zmod_mod. Qed.

Lemma wrap_u_add_l w x y : wrap_u w (wrap_u w x + y) = wrap_u w (x + y).
Proof. apply Zplus_mod_idemp_l. Qed.
Lemma wrap_u_add_r w x y : wrap_u w (x + wrap_u w y) = wrap_u w (x + y).
Proof. apply Zplus_mod_idemp_r. Qed.
Lemma wrap_u_add_ll w x y z : wrap_u w (wrap_u w x + y + z) = wrap_u w (x + y + z).
Proof. by rewrite <-!Z.add_assoc, wrap_u_add_l. Qed.
Lemma wrap_u_add_lll w x y z t : wrap_u w (wrap_u w x + y + z + t) = wrap_u w (x + y + z + t).
Proof. by rewrite <-!Z.add_assoc, wrap_u_add_l. Qed.
Lemma wrap_u_add_llll w x y z t r : wrap_u w (wrap_u w x + y + z + t + r) = wrap_u w (x + y + z + t + r).
Proof. by rewrite <-!Z.add_assoc, wrap_u_add_l. Qed.
Lemma wrap_u_sub_l w x y : wrap_u w (wrap_u w x - y) = wrap_u w (x - y).
Proof. apply Zminus_mod_idemp_l. Qed.
Lemma wrap_u_sub_r w x y : wrap_u w (x - wrap_u w y) = wrap_u w (x - y).
Proof. apply Zminus_mod_idemp_r. Qed.
Lemma wrap_u_mul_l w x y : wrap_u w (wrap_u w x * y) = wrap_u w (x * y).
Proof. apply Zmult_mod_idemp_l. Qed.
Lemma wrap_u_mul_r w x y : wrap_u w (x * wrap_u w y) = wrap_u w (x * y).
Proof. apply Zmult_mod_idemp_r. Qed.

(** A signed word is its unsigned image, and back. *)
Lemma wrap_u_s w z : 0 < w -> wrap_u w (wrap_s w z) = wrap_u w z.
Proof.
  intros Hw. unfold wrap_s. fold (wrap_u w (z + 2 ^ (w - 1))).
  rewrite wrap_u_sub_l. f_equal. lia.
Qed.

Lemma wrap_s_u w z : 0 < w -> wrap_s w (wrap_u w z) = wrap_s w z.
Proof. intros Hw. unfold wrap_s, wrap_u. by rewrite Zplus_mod_idemp_l. Qed.

Lemma wrap_u_testbit w z i : 0 <= w -> Z.testbit (wrap_u w z) i = (i <? w) && Z.testbit z i.
Proof.
  intros Hw. unfold wrap_u. destruct (Z.ltb_spec i w); simpl.
  - destruct (decide (0 <= i)); [by apply Z.mod_pow2_bits_low|by rewrite !Z.testbit_neg_r by lia].
  - apply Z.mod_pow2_bits_high. lia.
Qed.

(** The bitwise operations stay in range. *)
Lemma in_u_testbit w z : 0 <= w -> in_u w z <-> 0 <= z /\ forall i, w <= i -> Z.testbit z i = false.
Proof.
  intros Hw. split.
  - intros Hz. split; [apply Hz|]. intros i Hi. rewrite <-(wrap_u_id w z) by done.
    rewrite wrap_u_testbit by done. by rewrite (proj2 (Z.ltb_ge i w)).
  - intros [Hz Hi]. assert (wrap_u w z = z) as <-; [|by apply wrap_u_range].
    apply Z.bits_inj'. intros n Hn. rewrite wrap_u_testbit by done.
    destruct (Z.ltb_spec n w); simpl; [done|]. by rewrite Hi.
Qed.

Lemma in_u_lxor w x y : 0 <= w -> in_u w x -> in_u w y -> in_u w (Z.lxor x y).
Proof.
  intros Hw [Hx Hxi]%in_u_testbit [Hy Hyi]%in_u_testbit; try done. apply in_u_testbit; [done|].
  split; [by apply Z.lxor_nonneg|]. intros i Hi. by rewrite Z.lxor_spec, Hxi, Hyi.
Qed.

Lemma in_u_lor w x y : 0 <= w -> in_u w x -> in_u w y -> in_u w (Z.lor x y).
Proof.
  intros Hw [Hx Hxi]%in_u_testbit [Hy Hyi]%in_u_testbit; try done. apply in_u_testbit; [done|].
  split; [by apply Z.lor_nonneg|]. intros i Hi. by rewrite Z.lor_spec, Hxi, Hyi.
Qed.

Lemma in_u_land w x y : 0 <= w -> 0 <= y -> in_u w x -> in_u w (Z.land x y).
Proof.
  intros Hw Hy [Hx Hxi]%in_u_testbit; try done. apply in_u_testbit; [done|].
  split; [apply Z.land_nonneg; auto|]. intros i Hi. by rewrite Z.land_spec, Hxi.
Qed.

Lemma in_u_shiftr w x n : 0 <= w -> 0 <= n -> in_u w x -> in_u w (Z.shiftr x n).
Proof.
  intros Hw Hn [Hx Hxi]%in_u_testbit; try done. apply in_u_testbit; [done|].
  split; [by apply Z.shiftr_nonneg|]. intros i Hi. rewrite Z.shiftr_spec by lia. apply Hxi. lia.
Qed.

Lemma lxor_cancel_l a x y : Z.lxor a x = Z.lxor a y -> x = y.
Proof.
  intros E. rewrite <-(Z.lxor_0_l x), <-(Z.lxor_0_l y), <-(Z.lxor_nilpotent a), !Z.lxor_assoc. by rewrite E.
Qed.

Lemma odd_divide_pow2 w a d : 0 <= w -> Z.Odd a -> (2 ^ w | a * d) -> (2 ^ w | d).
Proof.
  intros Hw [c ->]. revert w Hw. apply (natlike_ind (fun w => (2 ^ w | (2 * c + 1) * d) -> (2 ^ w | d))).
  - intros _. apply Z.divide_1_l.
  - intros w Hw IH [q Hq]. rewrite Z.pow_succ_r in * by done.
    destruct IH as [r Hr]; [exists (2 * q); lia|].
    assert (H2 : (2 * c + 1) * r = 2 * q).
    { apply (Z.mul_reg_r _ _ (2 ^ w)); [lia|]. rewrite Hr in Hq. lia. }
    exists (q - c * r). rewrite Hr. lia.
Qed.

(** Multiplication by an odd constant loses nothing. *)
Lemma wrap_u_mul_inj w a x y :
  0 < w -> Z.Odd a -> wrap_u w (a * x) = wrap_u w (a * y) -> wrap_u w x = wrap_u w y.
Proof.
  intros Hw Ha E. unfold wrap_u in *.
  assert (Hd : (2 ^ w | a * (x - y))).
  { apply Z.mod_divide; [lia|]. rewrite Z.mul_sub_distr_l, Zminus_mod, E, Z.sub_diag. apply Zmod_0_l. }
  apply odd_divide_pow2 in Hd as [z Hz]; [|lia|done].
  replace x with (y + z * 2 ^ w) by lia. apply Z_mod_plus_full.
Qed.

Lemma xorshiftr_inj w n x y :
  0 <= w -> 0 < n -> in_u w x -> in_u w y ->
  Z.lxor x (Z.shiftr x n) = Z.lxor y (Z.shiftr y n) -> x = y.
Proof.
  intros Hw Hn [Hx Hxi]%in_u_testbit [Hy Hyi]%in_u_testbit E; try done.
  assert (D : forall m i, 0 <= i -> w - i <= Z.of_nat m -> Z.testbit x i = Z.testbit y i).
  { induction m as [|m IH]; intros i Hi Hm; [rewrite Hxi, Hyi; done || lia|].
    assert (Ei := f_equal (fun z => Z.testbit z i) E). simpl in Ei.
    rewrite !Z.lxor_spec, !Z.shiftr_spec in Ei by lia.
    rewrite (IH (i + n)) in Ei by lia. by destruct (Z.testbit x i), (Z.testbit y i); destruct (Z.testbit y _). }
  apply Z.bits_inj'. intros i Hi. apply (D (Z.to_nat w)); lia.
Qed.

Lemma xorshiftl_inj w n x y :
  0 <= w -> 0 < n -> in_u w x -> in_u w y ->
  Z.lxor x (wrap_u w (Z.shiftl x n)) = Z.lxor y (wrap_u w (Z.shiftl y n)) -> x = y.
Proof.
  intros Hw Hn Hxr Hyr E.
  pose proof (proj1 (in_u_testbit w x Hw) Hxr) as [Hx Hxi].
  pose proof (proj1 (in_u_testbit w y Hw) Hyr) as [Hy Hyi].
  assert (D : forall m i, 0 <= i < Z.of_nat m -> Z.testbit x i = Z.testbit y i).
  { induction m as [|m IH]; intros i Hi; [lia|].
    destruct (Z.ltb_spec i w) as [Hlt|]; [|by rewrite Hxi, Hyi].
    assert (Ei := f_equal (fun z => Z.testbit z i) E). simpl in Ei.
    rewrite !Z.lxor_spec, !wrap_u_testbit, !Z.shiftl_spec in Ei by lia.
    assert (En : Z.testbit x (i - n) = Z.testbit y (i - n)).
    { destruct (decide (0 <= i - n)); [apply IH; lia|by rewrite !Z.testbit_neg_r by lia]. }
    rewrite En in Ei. by destruct (Z.testbit x i), (Z.testbit y i), ((i <? w) && Z.testbit y (i - n)). }
  apply Z.bits_inj'. intros i Hi. apply (D (S (Z.to_nat i))). lia.
Qed.
End wrap.

#[export] Hint Resolve wrap_u_range wrap_s_range in_u_lxor in_u_lor in_u_land in_u_shiftr : word.
#[export] Hint Extern 1 (_ <= _) => lia : word.
#[export] Hint Extern 1 (_ < _) => lia : word.

(** Pull every inner wrap out of a sum under a wrap. *)
Ltac pull_wrap :=
  rewrite ?wrap_u_idem;
  repeat (rewrite wrap_u_add_l || rewrite wrap_u_add_r || rewrite wrap_u_add_ll ||
          rewrite wrap_u_add_lll || rewrite wrap_u_add_llll || rewrite wrap_u_idem).

(** ** Facts about small ranges, by evaluation *)
Definition upto (n : nat) : list Z := Z.of_nat <$> seq 0 n.

Lemma elem_of_upto n i : 0 <= i < Z.of_nat n -> i ∈ upto n.
Proof.
  intros Hi. unfold upto. apply list_elem_of_fmap. exists (Z.to_nat i). rewrite elem_of_seq. lia.
Qed.

(** A boolean fact about the numbers below [n], and about pairs of them, is
    checked by evaluation. *)
Lemma upto_check n (f : Z -> bool) : forallb f (upto n) = true -> forall i, 0 <= i < Z.of_nat n -> f i = true.
Proof.
  intros Hf i Hi. rewrite forallb_forall in Hf. apply Hf. apply list_elem_of_In. by apply elem_of_upto.
Qed.

Lemma upto_check2 n m (f : Z -> Z -> bool) :
  forallb (fun i => forallb (f i) (upto m)) (upto n) = true ->
  forall i j, 0 <= i < Z.of_nat n -> 0 <= j < Z.of_nat m -> f i j = true.
Proof.
  intros Hf i j Hi Hj. apply (upto_check m (f i)); [|done].
  apply (upto_check n (fun i => forallb (f i) (upto m))); done.
Qed.
