(* ===== verification/Memory.v ===== *)
(** * Byte-addressed memory

    The code that works on raw bytes ([char *], [void const *] read through
    wider pointers) is modelled on a memory of bytes, with the word loads and
    stores of a little-endian machine. *)
From S2P Require Import Prelude.
From S2P Require Import Words.

Abbreviation memory := (Z -> Z).

Definition bytes_ok (mem : memory) : Prop := forall p, in_u 8 (mem p).

(** Loads of 16, 32 and 64 bits, little-endian. *)
Definition rd16 (mem : memory) (p : Z) : Z := Z.lor (mem p) (Z.shiftl (mem (p + 1)) 8).
Definition rd32 (mem : memory) (p : Z) : Z := Z.lor (rd16 mem p) (Z.shiftl (rd16 mem (p + 2)) 16).
Definition rd64 (mem : memory) (p : Z) : Z := Z.lor (rd32 mem p) (Z.shiftl (rd32 mem (p + 4)) 32).

(** Stores, and the frame they leave alone. *)
Definition wr8 (p v : Z) (mem : memory) : memory := fun q => if q =? p then u8 v else mem q.
Definition wr32 (p v : Z) (mem : memory) : memory :=
  wr8 (p + 3) (Z.shiftr v 24) (wr8 (p + 2) (Z.shiftr v 16) (wr8 (p + 1) (Z.shiftr v 8) (wr8 p v mem))).

(** ** Word loads as sums of bytes *)
Section loads.
Variable mem : memory.
Hypothesis Hmem : bytes_ok mem.

Lemma lor_shiftl_add lo hi n : 0 <= n -> in_u n lo -> Z.lor lo (Z.shiftl hi n) = lo + hi * 2 ^ n.
Proof.
  intros Hn Hlo. rewrite <-Z.add_lor_land.
  assert (Z.land lo (hi * 2 ^ n) = 0) as ->.
  { rewrite <-Z.shiftl_mul_pow2 by done. apply Z.bits_inj'. intros i Hi.
    rewrite Z.land_spec, Z.bits_0, Z.shiftl_spec by lia.
    apply in_u_testbit in Hlo as [_ Hlo]; [|done].
    destruct (Z.ltb_spec i n); [rewrite (Z.testbit_neg_r _ (i - n)) by lia; apply andb_false_r|].
    by rewrite Hlo. }
  rewrite Z.add_0_r. by rewrite Z.shiftl_mul_pow2.
Qed.

Lemma rd16_sum p : rd16 mem p = mem p + 256 * mem (p + 1).
Proof. unfold rd16. rewrite lor_shiftl_add by (done || apply Hmem). lia. Qed.

Lemma rd16_range p : in_u 16 (rd16 mem p).
Proof. rewrite rd16_sum. pose proof (Hmem p). pose proof (Hmem (p + 1)). unfold in_u in *. lia. Qed.

Lemma rd32_sum p :
  rd32 mem p = mem p + 256 * mem (p + 1) + 65536 * mem (p + 2) + 16777216 * mem (p + 3).
Proof.
  unfold rd32. rewrite lor_shiftl_add by (done || apply rd16_range). rewrite !rd16_sum.
  replace (p + 2 + 1) with (p + 3) by lia. lia.
Qed.

Lemma rd32_range p : in_u 32 (rd32 mem p).
Proof.
  rewrite rd32_sum. pose proof (Hmem p). pose proof (Hmem (p + 1)). pose proof (Hmem (p + 2)).
  pose proof (Hmem (p + 3)). unfold in_u in *. lia.
Qed.

Lemma rd32_low p n :
  0 <= n -> Z.land (rd32 mem p) (Z.ones n) = rd32 mem p mod 2 ^ n.
Proof. intros. by apply Z.land_ones. Qed.
Lemma rd64_range p : in_u 64 (rd64 mem p).
Proof.
  unfold rd64. pose proof (rd32_range p). pose proof (rd32_range (p + 4)).
  rewrite lor_shiftl_add by (done || lia). unfold in_u in *. lia.
Qed.


(** The bytes of a loaded word. *)
Lemma rd32_byte p i : 0 <= i < 4 -> Z.land (Z.shiftr (rd32 mem p) (8 * i)) 0xff = mem (p + i).
Proof.
  intros Hi. change 0xff with (Z.ones 8). rewrite Z.land_ones, Z.shiftr_div_pow2, rd32_sum by lia.
  pose proof (Hmem p) as H0. pose proof (Hmem (p + 1)) as H1. pose proof (Hmem (p + 2)) as H2.
  pose proof (Hmem (p + 3)) as H3. unfold in_u in *.
  assert (i = 0 \/ i = 1 \/ i = 2 \/ i = 3) as [->|[->|[->| ->]]] by lia; rewrite ?Z.add_0_r.
  - change (2 ^ (8 * 0)) with 1. rewrite Z.div_1_r. symmetry.
    apply (Z.mod_unique _ _ (mem (p + 1) + 256 * mem (p + 2) + 65536 * mem (p + 3))); lia.
  - change (2 ^ (8 * 1)) with 256.
    rewrite <-(Z.div_unique _ 256 (mem (p + 1) + 256 * mem (p + 2) + 65536 * mem (p + 3)) (mem p)) by lia.
    symmetry. apply (Z.mod_unique _ _ (mem (p + 2) + 256 * mem (p + 3))); lia.
  - change (2 ^ (8 * 2)) with 65536.
    rewrite <-(Z.div_unique _ 65536 (mem (p + 2) + 256 * mem (p + 3)) (mem p + 256 * mem (p + 1))) by lia.
    symmetry. apply (Z.mod_unique _ _ (mem (p + 3))); lia.
  - change (2 ^ (8 * 3)) with 16777216.
    rewrite <-(Z.div_unique _ 16777216 (mem (p + 3)) (mem p + 256 * mem (p + 1) + 65536 * mem (p + 2))) by lia.
    apply Z.mod_small. lia.
Qed.
End loads.

(** [n] bytes at [key] in [mem] are the bytes at [key'] in [mem']. *)
Definition same_bytes (mem mem' : memory) (key key' n : Z) : Prop :=
  forall i, 0 <= i < n -> mem (key + i) = mem' (key' + i).

Lemma same_bytes_off mem mem' key key' n d :
  same_bytes mem mem' key key' n -> 0 <= d -> same_bytes mem mem' (key + d) (key' + d) (n - d).
Proof. intros Hs Hd i Hi. rewrite <-!Z.add_assoc. apply Hs. lia. Qed.

Section same.
Variables mem mem' : memory.

Lemma rd32_same p p' : same_bytes mem mem' p p' 4 -> rd32 mem p = rd32 mem' p'.
Proof.
  intros Hs. unfold rd32, rd16. rewrite <-!Z.add_assoc. simpl.
  rewrite <-(Z.add_0_r p), <-(Z.add_0_r p'), <-!Z.add_assoc. by rewrite !Hs by lia.
Qed.

Lemma rd64_same p p' : same_bytes mem mem' p p' 8 -> rd64 mem p = rd64 mem' p'.
Proof.
  intros Hs. unfold rd64. rewrite (rd32_same p p'), (rd32_same (p + 4) (p' + 4)); [done| |].
  - intros i Hi. rewrite <-!Z.add_assoc. apply Hs. lia.
  - intros i Hi. apply Hs. lia.
Qed.

End same.

Section stores.
Implicit Types (mem : memory) (p q v : Z).

Lemma wr8_eq p v mem : wr8 p v mem p = u8 v.
Proof. unfold wr8. by rewrite Z.eqb_refl. Qed.

Lemma wr8_ne p q v mem : q <> p -> wr8 p v mem q = mem q.
Proof. intros. unfold wr8. by rewrite (proj2 (Z.eqb_neq q p)). Qed.

Lemma wr8_ok p v mem : bytes_ok mem -> bytes_ok (wr8 p v mem).
Proof. intros Hm q. unfold wr8. destruct (q =? p); [by apply wrap_u_range|apply Hm]. Qed.

Lemma wr32_ok p v mem : bytes_ok mem -> bytes_ok (wr32 p v mem).
Proof. intros. by repeat apply wr8_ok. Qed.

Lemma wr32_ne p q v mem : ~ p <= q < p + 4 -> wr32 p v mem q = mem q.
Proof. intros. unfold wr32. by rewrite !wr8_ne by lia. Qed.

Lemma wr32_byte p v mem i : 0 <= i < 4 -> wr32 p v mem (p + i) = u8 (Z.shiftr v (8 * i)).
Proof.
  intros Hi. unfold wr32. assert (i = 0 \/ i = 1 \/ i = 2 \/ i = 3) as [->|[->|[->| ->]]] by lia.
  - rewrite Z.add_0_r, !wr8_ne by lia. apply wr8_eq.
  - rewrite !(wr8_ne _ (p + 1)) by lia. apply wr8_eq.
  - rewrite (wr8_ne _ (p + 2)) by lia. apply wr8_eq.
  - apply wr8_eq.
Qed.
End stores.

(** ** Byte strings in memory *)

(** The bytes [l] lie at [p]. *)
Fixpoint stored (mem : memory) (p : Z) (l : list Z) : Prop :=
  match l with
  | [] => True
  | b :: l => mem p = b /\ stored mem (p + 1) l
  end.

(** [mem'] differs from [mem] in [n] bytes from [p] at most. *)
Definition only (p n : Z) (mem mem' : memory) : Prop := forall q, ~ p <= q < p + n -> mem' q = mem q.

Section stored.
Implicit Types (mem : memory) (p q n : Z) (l : list Z).

Lemma stored_app mem p l1 l2 :
  stored mem p (l1 ++ l2) <-> stored mem p l1 /\ stored mem (p + Z.of_nat (length l1)) l2.
Proof.
  revert p. induction l1 as [|b l1 IH]; intros p; cbn [app stored length].
  - rewrite Z.add_0_r. tauto.
  - rewrite IH. replace (p + 1 + Z.of_nat (length l1)) with (p + Z.of_nat (S (length l1))) by lia. tauto.
Qed.

Lemma stored_frame mem mem' p l :
  (forall q, p <= q < p + Z.of_nat (length l) -> mem' q = mem q) -> stored mem p l -> stored mem' p l.
Proof.
  revert p. induction l as [|b l IH]; intros p Hf; [done|]. cbn [stored length] in *.
  intros [Hb Hl]. split; [rewrite Hf by lia; done|]. apply IH; [|done]. intros q Hq. apply Hf. lia.
Qed.

Lemma stored_only mem mem' p l q n :
  only q n mem mem' -> (p + Z.of_nat (length l) <= q \/ q + n <= p) -> stored mem p l -> stored mem' p l.
Proof. intros Ho Hd. apply stored_frame. intros r Hr. apply Ho. lia. Qed.

Lemma stored_same mem p p' l :
  stored mem p l -> stored mem p' l -> same_bytes mem mem p p' (Z.of_nat (length l)).
Proof.
  intros Hp Hp' i Hi. revert p p' i Hp Hp' Hi. induction l as [|b l IH]; intros p p' i Hp Hp' Hi; [simpl in Hi; lia|].
  destruct Hp as [Eb Hp], Hp' as [Eb' Hp']. cbn [length] in Hi. destruct (decide (i = 0)) as [->|].
  - by rewrite !Z.add_0_r, Eb, Eb'.
  - replace (p + i) with (p + 1 + (i - 1)) by lia. replace (p' + i) with (p' + 1 + (i - 1)) by lia.
    apply IH; [done|done|lia].
Qed.

Lemma stored_bytes mem p l : bytes_ok mem -> stored mem p l -> Forall (in_u 8) l.
Proof.
  intros Hm. revert p. induction l as [|b l IH]; intros p; [constructor|]. intros [<- Hl].
  constructor; [apply Hm|by eapply IH].
Qed.

Lemma only_refl p n mem : only p n mem mem.
Proof. by intros q _. Qed.

Lemma only_trans p n m1 m2 m3 : only p n m1 m2 -> only p n m2 m3 -> only p n m1 m3.
Proof. intros H1 H2 q Hq. by rewrite H2, H1. Qed.

Lemma only_weaken p n p' n' m1 m2 : only p n m1 m2 -> p' <= p -> p + n <= p' + n' -> only p' n' m1 m2.
Proof. intros H ? ? q Hq. apply H. lia. Qed.

Lemma only_wr8 p v mem : only p 1 mem (wr8 p v mem).
Proof. intros q Hq. apply wr8_ne. lia. Qed.

Lemma only_wr32 p v mem : only p 4 mem (wr32 p v mem).
Proof. intros q Hq. apply wr32_ne. lia. Qed.
End stored.
