(* ===== verification/HList.v ===== *)
(** * base/list.h: the hlist half, singly linked lists with a back pointer

    An [hlist_head] is the address of a first pointer, an [hlist_node] has a
    [next] pointer and a pointer [pprev] to the pointer that leads to it: the
    head's [first] or the previous node's [next].  [hseg] is the shape of one
    list, [hrepr] says that a memory holds a finite map of disjoint lists and a
    set of unhashed nodes; every operation is shown to do to that map what its
    list meaning says. *)
From S2P Require Import Prelude.

(** The target of a [pprev] pointer. *)
Inductive ploc (B K : Type) := PFirst (b : B) | PNext (k : K).
Arguments PFirst {B K} b.
Arguments PNext {B K} k.

#[global] Instance ploc_eq_dec {B K} `{EqDecision B, EqDecision K} : EqDecision (ploc B K).
Proof. solve_decision. Defined.

(** struct hlist_node *)
Record hlist_node (B K : Type) := HNode { hnext : option K; hpprev : option (ploc B K) }.
Arguments HNode {B K} _ _.
Arguments hnext {B K} _.
Arguments hpprev {B K} _.

(** The [first] pointers of the [hlist_head]s and the nodes of a memory. *)
Record hheap (B K : Type) `{Countable B, Countable K} := HHeap {
  hfirst : gmap B (option K);
  hnodes : gmap K (hlist_node B K);
}.
Arguments HHeap {B K _ _ _ _} _ _.
Arguments hfirst {B K _ _ _ _} _.
Arguments hnodes {B K _ _ _ _} _.

Section hlist.
Context {B K : Type} `{Countable B} `{Countable K}.
Implicit Types (s : hheap B K) (b : B) (k n : K) (p q : ploc B K) (l : list K).

(** A load and a store through a [hlist_node **]. *)
Definition load s p : option (option K) :=
  match p with
  | PFirst b => hfirst s !! b
  | PNext k => hnext <$> hnodes s !! k
  end.

Definition store p (v : option K) s : outcome (hheap B K) :=
  match p with
  | PFirst b => _ ← of_option (hfirst s !! b); Done (HHeap (<[b := v]> (hfirst s)) (hnodes s))
  | PNext k =>
      c ← of_option (hnodes s !! k);
      Done (HHeap (hfirst s) (<[k := HNode v (hpprev c)]> (hnodes s)))
  end.

(** The [pprev] field. *)
Definition pp s k : option (option (ploc B K)) := hpprev <$> hnodes s !! k.

Definition set_pprev k (v : option (ploc B K)) s : outcome (hheap B K) :=
  c ← of_option (hnodes s !! k);
  Done (HHeap (hfirst s) (<[k := HNode (hnext c) v]> (hnodes s))).

Definition INIT_HLIST_HEAD b s : outcome (hheap B K) := store (PFirst b) None s.

Definition INIT_HLIST_NODE k s : outcome (hheap B K) :=
  s ← store (PNext k) None s;
  set_pprev k None s.

Definition hlist_unhashed k s : outcome bool :=
  v ← of_option (pp s k);
  Done (bool_decide (v = None)).

Definition hlist_empty b s : outcome bool :=
  f ← of_option (load s (PFirst b));
  Done (bool_decide (f = None)).

Definition __hlist_del n s : outcome (hheap B K) :=
  next ← of_option (load s (PNext n));
  pprev ← of_option (pp s n);
  p ← of_option pprev;
  s ← store p next s;
  match next with
  | Some next => set_pprev next pprev s
  | None => Done s
  end.

(** LIST_POISON1 and LIST_POISON2 are NULL. *)
Definition hlist_del n s : outcome (hheap B K) :=
  s ← __hlist_del n s;
  s ← store (PNext n) None s;
  set_pprev n None s.

Definition hlist_del_init n s : outcome (hheap B K) :=
  u ← hlist_unhashed n s;
  if (u : bool) then Done s else
  s ← __hlist_del n s;
  INIT_HLIST_NODE n s.

Definition hlist_add_head n b s : outcome (hheap B K) :=
  first ← of_option (load s (PFirst b));
  s ← store (PNext n) first s;
  s ← match first with
      | Some first => set_pprev first (Some (PNext n)) s
      | None => Done s
      end;
  s ← store (PFirst b) (Some n) s;
  set_pprev n (Some (PFirst b)) s.

Definition hlist_add_before n next s : outcome (hheap B K) :=
  v ← of_option (pp s next);
  s ← set_pprev n v s;
  s ← store (PNext n) (Some next) s;
  s ← set_pprev next (Some (PNext n)) s;
  v ← of_option (pp s n);
  p ← of_option v;
  store p (Some n) s.

Definition hlist_add_after n next s : outcome (hheap B K) :=
  v ← of_option (load s (PNext n));
  s ← store (PNext next) v s;
  s ← store (PNext n) (Some next) s;
  s ← set_pprev next (Some (PNext n)) s;
  v ← of_option (load s (PNext next));
  match v with
  | Some nn => set_pprev nn (Some (PNext next)) s
  | None => Done s
  end.

Definition hlist_move_list old new_ s : outcome (hheap B K) :=
  f ← of_option (load s (PFirst old));
  s ← store (PFirst new_) f s;
  s ← match f with
      | Some k => set_pprev k (Some (PFirst new_)) s
      | None => Done s
      end;
  store (PFirst old) None s.

(** hlist_for_each_entry with a body that returns from the enclosing function
    at the first entry that satisfies [found]. *)
Fixpoint hlist_find_from (found : K -> outcome bool) (fuel : nat) (pos : option K) s
    : outcome (option K) :=
  match pos with
  | None => Done None
  | Some k =>
      match fuel with
      | O => NoFuel
      | S fuel =>
          e ← found k;
          if (e : bool) then Done (Some k) else
          n ← of_option (load s (PNext k));
          hlist_find_from found fuel n s
      end
  end.

Definition hlist_find b (found : K -> outcome bool) (fuel : nat) s : outcome (option K) :=
  f ← of_option (load s (PFirst b));
  hlist_find_from found fuel f s.

(** ** Memories as load and back-pointer functions *)

(** [s'] is [s] after the pointer at [p] was set to [v]. *)
Definition stored p v s s' : Prop :=
  (forall q, load s' q = if decide (q = p) then Some v else load s q) /\
  (forall k, pp s' k = pp s k).

Definition pprev_set k v s s' : Prop :=
  (forall q, load s' q = load s q) /\
  (forall j, pp s' j = if decide (j = k) then Some v else pp s j).

Lemma store_stored p v s : is_Some (load s p) -> exists s', store p v s = Done s' /\ stored p v s s'.
Proof.
  intros [w Hw]. destruct p as [b|k]; simpl in *.
  - rewrite Hw. simpl. eexists; split; [done|]. split; [|done].
    intros q. case_decide as Hq; [subst q; simpl; by rewrite lookup_insert_eq|].
    destruct q; simpl; [rewrite lookup_insert_ne; congruence|done].
  - destruct (hnodes s !! k) as [c|] eqn:E; [|done]. simpl. eexists; split; [done|].
    split.
    + intros q. case_decide as Hq; [subst q; simpl; by rewrite lookup_insert_eq|].
      destruct q; simpl; [done|rewrite lookup_insert_ne; congruence].
    + intros j. unfold pp. simpl. destruct (decide (j = k)) as [->|];
        [by rewrite lookup_insert_eq, E|by rewrite lookup_insert_ne].
Qed.

Lemma set_pprev_set k v s : is_Some (pp s k) -> exists s', set_pprev k v s = Done s' /\ pprev_set k v s s'.
Proof.
  unfold pp, set_pprev. intros [w Hw]. destruct (hnodes s !! k) as [c|] eqn:E; [|done].
  simpl. eexists; split; [done|]. split.
  - intros [b'|k']; simpl; [done|]. destruct (decide (k' = k)) as [->|];
      [by rewrite lookup_insert_eq, E|by rewrite lookup_insert_ne].
  - intros j. unfold pp. simpl. case_decide; simplify_eq;
      [by rewrite lookup_insert_eq|by rewrite lookup_insert_ne].
Qed.

(** A node's two fields are there together. *)
Lemma load_pp_alloc s k : is_Some (load s (PNext k)) <-> is_Some (pp s k).
Proof. unfold load, pp. by rewrite !fmap_is_Some. Qed.

Arguments load : simpl never.
Arguments pp : simpl never.
Arguments store : simpl never.
Arguments set_pprev : simpl never.

(** ** The shape of a list *)

(** From location [p] the nodes [l] follow one another and the last pointer is [o]. *)
Fixpoint hseg s p l (o : option K) : Prop :=
  match l with
  | [] => load s p = Some o
  | k :: l => load s p = Some (Some k) /\ pp s k = Some (Some p) /\ hseg s (PNext k) l o
  end.

(** The location of the pointer behind [l]. *)
Definition hloc p l : ploc B K := match last l with Some k => PNext k | None => p end.

Lemma hloc_cons p k l : hloc p (k :: l) = hloc (PNext k) l.
Proof. unfold hloc. rewrite last_cons. by destruct (last l). Qed.

Lemma hseg_app s p l1 k l2 o :
  hseg s p (l1 ++ k :: l2) o <->
  hseg s p l1 (Some k) /\ pp s k = Some (Some (hloc p l1)) /\ hseg s (PNext k) l2 o.
Proof.
  revert p. induction l1 as [|j l1 IH]; intros p; simpl; [done|].
  rewrite IH, hloc_cons. tauto.
Qed.

Lemma hseg_end s p l o : hseg s p l o -> load s (hloc p l) = Some o.
Proof.
  revert p. induction l as [|k l IH]; intros p; simpl; [done|].
  rewrite hloc_cons. intros (_ & _ & ?). eauto.
Qed.

Lemma hseg_start s p l o : hseg s p l o -> load s p = Some (match l with [] => o | k :: _ => Some k end).
Proof. destruct l; [done|by intros (? & _)]. Qed.

Lemma hseg_live s p l o k : hseg s p l o -> k ∈ l -> is_Some (pp s k).
Proof.
  revert p. induction l as [|j l IH]; intros p; simpl; [set_solver|].
  intros (_ & ? & ?) [->|?]%elem_of_cons; eauto.
Qed.

Lemma hseg_frame s s' p l o :
  load s' p = load s p ->
  (forall k, k ∈ l -> load s' (PNext k) = load s (PNext k) /\ pp s' k = pp s k) ->
  hseg s p l o -> hseg s' p l o.
Proof.
  revert p. induction l as [|k l IH]; intros p Hp Hl; simpl; [congruence|].
  intros (? & ? & ?). destruct (Hl k) as [??]; [set_solver|].
  split_and!; [congruence|congruence|]. apply IH; set_solver.
Qed.

Lemma elem_of_snoc_last l k : last l = Some k -> k ∈ l.
Proof. intros E. apply last_Some in E as [l' ->]. set_solver. Qed.

(** Redirecting the last pointer. *)
Lemma hseg_redirect s s' p l o o' :
  NoDup l -> p ∉ PNext <$> l ->
  load s' (hloc p l) = Some o' ->
  (p = hloc p l \/ load s' p = load s p) ->
  (forall k, k ∈ l -> PNext k <> hloc p l -> load s' (PNext k) = load s (PNext k)) ->
  (forall k, k ∈ l -> pp s' k = pp s k) ->
  hseg s p l o -> hseg s' p l o'.
Proof.
  revert p. induction l as [|k l IH]; intros p Hnd Hp Ho Hp' Hn Hpp; simpl; [done|].
  rewrite hloc_cons in *. intros (Hk & Hkp & Hs). apply NoDup_cons in Hnd as [Hkl Hnd].
  assert (Hne : p <> hloc (PNext k) l).
  { intros ->. apply Hp. unfold hloc. destruct (last l) eqn:E; [|set_solver].
    apply elem_of_snoc_last in E. apply list_elem_of_fmap. exists k0. set_solver. }
  destruct Hp' as [?|Hp']; [done|].
  split_and!; [congruence|rewrite Hpp by set_solver; done|].
  apply IH; try done.
  - intros (? & ? & ?)%list_elem_of_fmap. naive_solver.
  - destruct (decide (PNext k = hloc (PNext k) l)); [auto|right; apply Hn; set_solver].
  - intros j ??. apply Hn; set_solver.
  - intros j ?. apply Hpp; set_solver.
Qed.

(** [s] holds the lists [F] and the unhashed nodes [U]. *)
Record hrepr s (F : gmap B (list K)) (U : gset K) : Prop := {
  hrepr_seg b l : F !! b = Some l -> hseg s (PFirst b) l None;
  hrepr_nodup b l : F !! b = Some l -> NoDup l;
  hrepr_disj b b' l l' k : F !! b = Some l -> F !! b' = Some l' -> k ∈ l -> k ∈ l' -> b = b';
  hrepr_free k : k ∈ U -> load s (PNext k) = Some None /\ pp s k = Some None;
}.

Lemma hrepr_not_free s F U b l k : hrepr s F U -> F !! b = Some l -> k ∈ l -> k ∉ U.
Proof.
  intros HR Hb (l1 & l2 & ->)%list_elem_of_split [_ HU]%(hrepr_free _ _ _ HR).
  apply (hrepr_seg _ _ _ HR), hseg_app in Hb as (_ & Hk & _). congruence.
Qed.

(** ** The operations *)

Lemma hlist_del_cells s b l1 n l2 :
  hseg s (PFirst b) (l1 ++ n :: l2) None ->
  exists s', __hlist_del n s = Done s' /\
    (forall q, load s' q = if decide (q = hloc (PFirst b) l1) then Some (head l2) else load s q) /\
    (forall k, pp s' k = if decide (head l2 = Some k) then Some (Some (hloc (PFirst b) l1)) else pp s k).
Proof.
  intros (Hl1 & Hpp & Hl2)%hseg_app. unfold __hlist_del.
  rewrite (hseg_start _ _ _ _ Hl2), Hpp. simpl.
  destruct (store_stored (hloc (PFirst b) l1) (match l2 with [] => None | k :: _ => Some k end) s)
    as (s1 & -> & Hload & Hs); [eexists; by apply hseg_end|]. simpl.
  destruct l2 as [|j l2]; simpl.
  - exists s1. split; [done|]. split; [done|]. intros k. rewrite Hs. by repeat case_decide.
  - destruct (set_pprev_set j (Some (hloc (PFirst b) l1)) s1) as (s2 & -> & Hload2 & Hs2).
    { rewrite Hs. simpl in Hl2. destruct Hl2 as (_ & -> & _). eauto. }
    exists s2. split; [done|]. split; intros; [by rewrite Hload2, Hload|].
    rewrite Hs2, Hs. repeat case_decide; simplify_eq; congruence.
Qed.

Lemma hlist_del_seg s s' b l1 n l2 :
  NoDup (l1 ++ n :: l2) ->
  hseg s (PFirst b) (l1 ++ n :: l2) None ->
  (forall q, load s' q = if decide (q = hloc (PFirst b) l1) then Some (head l2)
                         else if decide (q = PNext n) then load s' q else load s q) ->
  (forall k, k <> n -> pp s' k = if decide (head l2 = Some k) then Some (Some (hloc (PFirst b) l1)) else pp s k) ->
  hseg s' (PFirst b) (l1 ++ l2) None.
Proof.
  intros (Hnd1 & Hd & (Hn2 & Hnd2)%NoDup_cons)%NoDup_app (Hl1 & Hpp & Hl2)%hseg_app Hload Hps.
  assert (Hn1 : n ∉ l1) by (intros ?; apply (Hd n); set_solver).
  assert (Hend : forall j, j ∈ l2 -> PNext j <> hloc (PFirst b) l1).
  { intros j Hj. unfold hloc. destruct (last l1) eqn:E; [|done].
    apply elem_of_snoc_last in E. intros [= ->]. apply (Hd k); set_solver. }
  assert (Hfst : hseg s' (PFirst b) l1 (head l2)).
  { eapply hseg_redirect; [done|by intros (? & ? & ?)%list_elem_of_fmap| | | | |exact Hl1].
    - rewrite Hload. by rewrite decide_True.
    - rewrite Hload. destruct (decide (PFirst b = hloc (PFirst b) l1)); [by left|].
      right. done.
    - intros k Hk ?. rewrite Hload, decide_False, decide_False by set_solver. done.
    - intros k Hk. rewrite Hps by set_solver. rewrite decide_False; [done|].
      intros ?%head_Some_elem_of. by apply (Hd k); [|right]. }
  destruct l2 as [|j l2]; [by rewrite app_nil_r|]. simpl in *.
  apply hseg_app. split; [done|]. destruct Hl2 as (_ & _ & Hl2). apply NoDup_cons in Hnd2 as [Hj _].
  split.
  - rewrite Hps by set_solver. by rewrite decide_True.
  - eapply hseg_frame; [| |exact Hl2].
    + rewrite Hload, decide_False by (apply Hend; set_solver). rewrite decide_False; [done|].
      intros [= ->]. set_solver.
    + intros k Hk. rewrite Hload, decide_False by (apply Hend; set_solver).
      rewrite decide_False by (intros [= ->]; set_solver). rewrite Hps by set_solver.
      rewrite decide_False by (intros [= ->]; set_solver). done.
Qed.

(** The memory changed at most in the head [b] and in the nodes [D]. *)
Definition writes s s' b (D : list K) : Prop :=
  (forall q, load s' q <> load s q -> q = PFirst b \/ exists k, q = PNext k /\ k ∈ D) /\
  (forall k, pp s' k <> pp s k -> k ∈ D).

Lemma writes_seg s s' b D p l o :
  writes s s' b D -> p <> PFirst b -> (forall k, p = PNext k -> k ∉ D) ->
  (forall k, k ∈ l -> k ∉ D) -> hseg s p l o -> hseg s' p l o.
Proof.
  intros [Hq Hk] Hp HpD Hout. apply hseg_frame.
  - destruct (decide (load s' p = load s p)) as [|[?|(? & ? & ?)]%Hq]; naive_solver.
  - intros k Hkl. split.
    + destruct (decide (load s' (PNext k) = load s (PNext k))) as [|[?|(? & [= <-] & ?)]%Hq]; naive_solver.
    + destruct (decide (pp s' k = pp s k)) as [|?%Hk]; naive_solver.
Qed.

Lemma writes_free s s' b D k :
  writes s s' b D -> k ∉ D -> load s' (PNext k) = load s (PNext k) /\ pp s' k = pp s k.
Proof.
  intros [Hq Hk] HD. split.
  - destruct (decide (load s' (PNext k) = load s (PNext k))) as [|[?|(? & [= <-] & ?)]%Hq]; naive_solver.
  - destruct (decide (pp s' k = pp s k)) as [|?%Hk]; naive_solver.
Qed.

(** A change of one list, in its own nodes and in nodes [D] that were unhashed. *)
Lemma hrepr_change s s' F U b l lnew D U' :
  hrepr s F U -> F !! b = Some l -> writes s s' b D ->
  (forall k, k ∈ D -> k ∈ l \/ k ∈ U) ->
  hseg s' (PFirst b) lnew None -> NoDup lnew ->
  (forall k, k ∈ lnew -> k ∈ l \/ k ∈ U) ->
  (forall k, k ∈ U' -> (k ∈ U /\ k ∉ D) \/ (load s' (PNext k) = Some None /\ pp s' k = Some None)) ->
  hrepr s' (<[b := lnew]> F) U'.
Proof.
  intros HR Hb Hw HD Hseg Hnd Hsub HU'.
  assert (Hout : forall b' l' k, b' <> b -> F !! b' = Some l' -> k ∈ l' -> ~ (k ∈ l \/ k ∈ U)).
  { intros b' l' k Hne Hb' Hk [?|?]; [by eapply Hne, (hrepr_disj _ _ _ HR)|].
    by eapply (hrepr_not_free _ _ _ _ _ _ HR Hb'). }
  split.
  - intros b' l' [[<- <-]|[Hne Hb']]%lookup_insert_Some; [done|].
    eapply (writes_seg _ _ _ _ _ _ _ Hw); [congruence|done| |by eapply (hrepr_seg _ _ _ HR)].
    intros k Hk ?. eapply Hout; eauto.
  - intros b' l' [[<- <-]|[Hne Hb']]%lookup_insert_Some; [done|by eapply (hrepr_nodup _ _ _ HR)].
  - intros b1 b2 l1 l2 k [[<- <-]|[Hne1 Hb1]]%lookup_insert_Some [[<- <-]|[Hne2 Hb2]]%lookup_insert_Some Hk1 Hk2;
      [done| | |by eapply (hrepr_disj _ _ _ HR)].
    + exfalso. apply Hsub in Hk1. eapply (Hout b2); eauto.
    + exfalso. apply Hsub in Hk2. eapply (Hout b1); eauto.
  - intros k [[Hk HkD]|?]%HU'; [|done].
    destruct (writes_free _ _ _ _ _ Hw HkD) as [-> ->]. by apply (hrepr_free _ _ _ HR).
Qed.

Lemma stored_set p v s s' : stored p v s s' -> load s' p = Some v.
Proof. intros [Hl _]. by rewrite Hl, decide_True. Qed.

(** Clearing the two fields of a node. *)
Lemma clear_node_cells n s :
  is_Some (pp s n) ->
  exists s', (s ← store (PNext n) None s; set_pprev n None s) = Done s' /\
    (forall q, load s' q = if decide (q = PNext n) then Some None else load s q) /\
    (forall k, pp s' k = if decide (k = n) then Some None else pp s k).
Proof.
  intros Hn. destruct (store_stored (PNext n) None s) as (s1 & -> & Hl1 & Hp1);
    [by apply load_pp_alloc|]. simpl.
  destruct (set_pprev_set n None s1) as (s2 & -> & Hl2 & Hp2); [by rewrite Hp1|].
  exists s2. split; [done|]. split; intros; [by rewrite Hl2, Hl1|by rewrite Hp2, Hp1].
Qed.

Lemma hloc_in b l : hloc (PFirst b) l = PFirst b \/ exists k, hloc (PFirst b) l = PNext k /\ k ∈ l.
Proof.
  unfold hloc. destruct (last l) eqn:E; [right|by left]. apply elem_of_snoc_last in E. eauto.
Qed.

Lemma hrepr_hlist_del_body s F U b l1 n l2 :
  hrepr s F U -> F !! b = Some (l1 ++ n :: l2) ->
  exists s', (s ← __hlist_del n s; s ← store (PNext n) None s; set_pprev n None s) = Done s' /\
    hrepr s' (<[b := l1 ++ l2]> F) ({[n]} ∪ U).
Proof.
  intros HR Hb. pose proof (hrepr_seg _ _ _ HR _ _ Hb) as Hseg.
  pose proof (hrepr_nodup _ _ _ HR _ _ Hb) as Hnd.
  destruct (hlist_del_cells _ _ _ _ _ Hseg) as (s1 & -> & Hl1 & Hp1). simpl.
  assert (Hn2 : head l2 <> Some n).
  { intros ?%head_Some_elem_of. apply NoDup_app in Hnd as (_ & _ & [? _]%NoDup_cons). done. }
  destruct (clear_node_cells n s1) as (s2 & E2 & Hl2 & Hp2).
  { rewrite Hp1, decide_False by done. apply hseg_app in Hseg as (_ & -> & _). eauto. }
  exists s2. split; [exact E2|]. clear E2.
  eapply (hrepr_change s s2 F U b _ (l1 ++ l2) (l1 ++ n :: l2)); try done; [| | | | |].
  - split.
    + intros q. rewrite Hl2, Hl1. destruct (decide (q = PNext n)) as [->|].
      { intros _. right. exists n. split; [done|]. set_solver. }
      destruct (decide _) as [->|]; [|done]. intros _.
      destruct (hloc_in b l1) as [?|(k & ? & ?)]; [by left|right]. exists k. split; [done|]. set_solver.
    + intros k. rewrite Hp2, Hp1. destruct (decide (k = n)) as [->|]; [set_solver|].
      case_decide as Hh; [|done]. apply head_Some_elem_of in Hh. set_solver.
  - auto.
  - eapply (hlist_del_seg s); [exact Hnd|exact Hseg| |].
    + intros q. rewrite Hl2, Hl1. destruct (decide (q = hloc _ _)) as [->|]; [|by repeat case_decide].
      rewrite decide_False; [done|]. unfold hloc. destruct (last l1) as [k|] eqn:E; [|done].
      apply elem_of_snoc_last in E. intros [= ->]. apply NoDup_app in Hnd as (_ & Hd & _).
      apply (Hd n); set_solver.
    + intros k Hk. by rewrite Hp2, decide_False, Hp1.
  - apply NoDup_app in Hnd as (? & Hd & [? ?]%NoDup_cons). apply NoDup_app. split_and!; try done.
    intros x Hx ?. apply (Hd x); set_solver.
  - set_solver.
  - intros k [->%elem_of_singleton|Hk]%elem_of_union.
    + right. by rewrite Hl2, Hp2, !decide_True.
    + left. split; [done|]. intros ?. by eapply (hrepr_not_free _ _ _ _ _ _ HR Hb).
Qed.

Lemma hrepr_hlist_del s F U b l1 n l2 :
  hrepr s F U -> F !! b = Some (l1 ++ n :: l2) ->
  exists s', hlist_del n s = Done s' /\ hrepr s' (<[b := l1 ++ l2]> F) ({[n]} ∪ U).
Proof. apply hrepr_hlist_del_body. Qed.

Lemma hrepr_hlist_del_init s F U b l1 n l2 :
  hrepr s F U -> F !! b = Some (l1 ++ n :: l2) ->
  exists s', hlist_del_init n s = Done s' /\ hrepr s' (<[b := l1 ++ l2]> F) ({[n]} ∪ U).
Proof.
  intros HR Hb. unfold hlist_del_init, hlist_unhashed.
  pose proof (hrepr_seg _ _ _ HR _ _ Hb) as (_ & Hn & _)%hseg_app. rewrite Hn. simpl.
  by apply hrepr_hlist_del_body.
Qed.

Lemma hrepr_hlist_del_init_unhashed s F U n :
  hrepr s F U -> n ∈ U -> hlist_del_init n s = Done s.
Proof.
  intros HR [_ Hn]%(hrepr_free _ _ _ HR). unfold hlist_del_init, hlist_unhashed. by rewrite Hn.
Qed.

Lemma hrepr_hlist_unhashed s F U n :
  hrepr s F U -> n ∈ U \/ (exists b l, F !! b = Some l /\ n ∈ l) ->
  hlist_unhashed n s = Done (bool_decide (n ∈ U)).
Proof.
  intros HR Hn. unfold hlist_unhashed.
  assert (exists v, pp s n = Some v /\ (v = None <-> n ∈ U)) as (v & -> & Hv).
  { destruct Hn as [Hn|(b & l & Hb & Hn)].
    - destruct (hrepr_free _ _ _ HR _ Hn) as [_ ->]. naive_solver.
    - pose proof (hrepr_not_free _ _ _ _ _ _ HR Hb Hn).
      apply list_elem_of_split in Hn as (l1 & l2 & ->).
      pose proof (hrepr_seg _ _ _ HR _ _ Hb) as (_ & -> & _)%hseg_app. naive_solver. }
  simpl. f_equal. by apply bool_decide_ext.
Qed.

Lemma hrepr_hlist_empty s F U b l :
  hrepr s F U -> F !! b = Some l -> hlist_empty b s = Done (bool_decide (l = [])).
Proof.
  intros HR Hb. unfold hlist_empty. rewrite (hseg_start _ _ _ _ (hrepr_seg _ _ _ HR _ _ Hb)).
  simpl. f_equal. apply bool_decide_ext. by destruct l.
Qed.

Lemma hrepr_hlist_add_head s F U b l n :
  hrepr s F U -> F !! b = Some l -> n ∈ U ->
  exists s', hlist_add_head n b s = Done s' /\ hrepr s' (<[b := n :: l]> F) (U ∖ {[n]}).
Proof.
  intros HR Hb Hn. pose proof (hrepr_seg _ _ _ HR _ _ Hb) as Hseg.
  destruct (hrepr_free _ _ _ HR _ Hn) as [Hln Hpn].
  assert (Hnl : n ∉ l) by (intros ?; by eapply (hrepr_not_free _ _ _ _ _ _ HR Hb)).
  unfold hlist_add_head. rewrite (hseg_start _ _ _ _ Hseg). simpl.
  destruct (store_stored (PNext n) (head l) s) as (s1 & E1 & Hl1 & Hp1); [by rewrite Hln|].
  assert (exists s2, match head l with
      | Some first => set_pprev first (Some (PNext n)) s1 | None => Done s1 end = Done s2 /\
    (forall q, load s2 q = load s1 q) /\
    (forall k, pp s2 k = if decide (head l = Some k) then Some (Some (PNext n)) else pp s k))
    as (s2 & E2 & Hl2 & Hp2).
  { destruct l as [|j l]; simpl.
    - exists s1. split; [done|]. split; [done|]. intros k. rewrite Hp1. by repeat case_decide.
    - destruct (set_pprev_set j (Some (PNext n)) s1) as (s2 & -> & ? & Hp2).
      { rewrite Hp1. destruct Hseg as (_ & -> & _). eauto. }
      exists s2. split; [done|]. split; [done|]. intros k. rewrite Hp2, Hp1.
      repeat case_decide; simplify_eq; congruence. }
  destruct (store_stored (PFirst b) (Some n) s2) as (s3 & E3 & Hl3 & Hp3).
  { rewrite Hl2, Hl1, decide_False by done. rewrite (hseg_start _ _ _ _ Hseg). eauto. }
  destruct (set_pprev_set n (Some (PFirst b)) s3) as (s4 & E4 & Hl4 & Hp4).
  { rewrite Hp3, Hp2. case_decide; [eauto|]. by rewrite Hpn. }
  exists s4. split.
  { destruct l as [|j l]; simpl in *; rewrite E1; simpl.
    - injection E2 as ->. by rewrite E3.
    - rewrite E2. simpl. by rewrite E3. }
  assert (Hload : forall q, load s4 q =
    if decide (q = PFirst b) then Some (Some n)
    else if decide (q = PNext n) then Some (head l) else load s q).
  { intros q. by rewrite Hl4, Hl3, Hl2, Hl1. }
  assert (Hpp : forall k, pp s4 k =
    if decide (k = n) then Some (Some (PFirst b))
    else if decide (head l = Some k) then Some (Some (PNext n)) else pp s k).
  { intros k. by rewrite Hp4, Hp3, Hp2. }
  clear -HR Hb Hn Hseg Hln Hpn Hnl Hload Hpp.
  assert (Hh : forall k, head l = Some k -> k ∈ l) by (intros ?; apply head_Some_elem_of).
  eapply (hrepr_change s s4 F U b l (n :: l) (n :: l)); try done.
  - split.
    + intros q. rewrite Hload. repeat case_decide; [by left|right; set_solver|done].
    + intros k. rewrite Hpp. repeat case_decide; set_solver.
  - set_solver.
  - simpl. rewrite Hload, Hpp, !decide_True by done. split_and!; [done|done|].
    destruct l as [|j l]; simpl in *; [by rewrite Hload, decide_False, decide_True|].
    rewrite Hload, decide_False, decide_True by done. split; [done|].
    rewrite Hpp, decide_False by set_solver. rewrite decide_True by done. split; [done|].
    pose proof (hrepr_nodup _ _ _ HR _ _ Hb) as [Hj _]%NoDup_cons.
    destruct Hseg as (_ & _ & Hs). eapply hseg_frame; [| |exact Hs].
    + rewrite Hload, decide_False, decide_False; [done|intros [= ->]; set_solver|done].
    + intros k Hk. rewrite Hload, Hpp, !decide_False; set_solver.
  - apply NoDup_cons. split; [done|]. by apply (hrepr_nodup _ _ _ HR _ _ Hb).
  - set_solver.
  - intros k [Hk Hkn]%elem_of_difference. left. split; [done|].
    intros [->|Hkl]%elem_of_cons; [set_solver|]. by eapply (hrepr_not_free _ _ _ _ _ _ HR Hb).
Qed.

(** The search macro with a predicate that never faults, and the fuel it needs. *)
Lemma hlist_find_from_seg s found (f : K -> bool) p l fuel :
  hseg s p l None -> (forall k, k ∈ l -> found k = Done (f k)) -> (length l <= fuel)%nat ->
  hlist_find_from found fuel (head l) s = Done (head (List.filter f l)).
Proof.
  revert p fuel. induction l as [|k l IH]; intros p fuel Hs Hf Hfuel; simpl; [by destruct fuel|].
  destruct fuel as [|fuel]; [simpl in Hfuel; lia|]. simpl.
  rewrite Hf by set_solver. simpl. destruct (f k) eqn:E; [done|].
  destruct Hs as (_ & _ & Hs). rewrite (hseg_start _ _ _ _ Hs). simpl.
  assert (match l with [] => None | k :: _ => Some k end = head l) as -> by by destruct l.
  eapply IH; [exact Hs|set_solver|simpl in Hfuel; lia].
Qed.

Lemma hrepr_hlist_find s F U b l found (f : K -> bool) fuel :
  hrepr s F U -> F !! b = Some l -> (forall k, k ∈ l -> found k = Done (f k)) ->
  (length l <= fuel)%nat ->
  hlist_find b found fuel s = Done (head (List.filter f l)).
Proof.
  intros HR Hb Hf Hfuel. pose proof (hrepr_seg _ _ _ HR _ _ Hb) as Hs.
  unfold hlist_find. rewrite (hseg_start _ _ _ _ Hs). simpl.
  assert (match l with [] => None | k :: _ => Some k end = head l) as -> by by destruct l.
  by eapply hlist_find_from_seg.
Qed.

(** Linking the unhashed [n] between [l1] and [l2], wherever the two pointers
    that the operation writes come from. *)
Lemma hrepr_link s s' F U b l1 l2 n :
  hrepr s F U -> F !! b = Some (l1 ++ l2) -> n ∈ U ->
  (forall q, load s' q = if decide (q = hloc (PFirst b) l1) then Some (Some n)
                         else if decide (q = PNext n) then Some (head l2) else load s q) ->
  (forall k, pp s' k = if decide (k = n) then Some (Some (hloc (PFirst b) l1))
                       else if decide (head l2 = Some k) then Some (Some (PNext n)) else pp s k) ->
  hrepr s' (<[b := l1 ++ n :: l2]> F) (U ∖ {[n]}).
Proof.
  intros HR Hb Hn Hload Hpp.
  pose proof (hrepr_seg _ _ _ HR _ _ Hb) as Hseg. pose proof (hrepr_nodup _ _ _ HR _ _ Hb) as Hnd.
  assert (Hnl : n ∉ l1 ++ l2) by (intros ?; by eapply (hrepr_not_free _ _ _ _ _ _ HR Hb)).
  assert (Hh : forall k, head l2 = Some k -> k ∈ l2) by (intros ?; apply head_Some_elem_of).
  pose proof (hloc_in b l1) as Hloc.
  assert (Hcut : hseg s (PFirst b) l1 (head l2) /\ (forall j l3, l2 = j :: l3 -> hseg s (PNext j) l3 None)).
  { destruct l2 as [|j l2]; [rewrite app_nil_r in Hseg; naive_solver|].
    apply hseg_app in Hseg as (? & _ & ?). split; [done|]. by intros ? ? [= <- <-]. }
  destruct Hcut as [Hs1 Hs2]. apply NoDup_app in Hnd as (Hnd1 & Hd & Hnd2).
  assert (Hloc2 : forall k, k ∈ n :: l2 -> PNext k <> hloc (PFirst b) l1).
  { intros k Hk E. rewrite <-E in Hloc. destruct Hloc as [?|(k' & [= <-] & ?)]; [done|].
    apply elem_of_cons in Hk as [->|?]; set_solver. }
  eapply (hrepr_change s s' F U b _ (l1 ++ n :: l2) (l1 ++ n :: l2)); try done.
  - split.
    + intros q. rewrite Hload. destruct (decide (q = hloc _ _)) as [->|].
      * intros _. destruct Hloc as [?|(k & ? & ?)]; [by left|right; set_solver].
      * case_decide; [|done]. intros _. right. exists n. set_solver.
    + intros k. rewrite Hpp. repeat case_decide; set_solver.
  - set_solver.
  - apply hseg_app. split_and!.
    + eapply hseg_redirect; [done|by intros (? & ? & ?)%list_elem_of_fmap| | | | |exact Hs1].
      * by rewrite Hload, decide_True.
      * destruct (decide (PFirst b = hloc (PFirst b) l1)); [by left|right].
        by rewrite Hload, decide_False, decide_False.
      * intros k Hk ?. rewrite Hload, !decide_False; [done|set_solver|done].
      * intros k Hk. rewrite Hpp, !decide_False; [done|set_solver|set_solver].
    + by rewrite Hpp, decide_True.
    + destruct l2 as [|j l2]; simpl.
      { rewrite Hload, decide_False, decide_True by set_solver. done. }
      apply NoDup_cons in Hnd2 as [Hj _]. split_and!.
      * rewrite Hload, decide_False, decide_True by set_solver. done.
      * rewrite Hpp, decide_False, decide_True by set_solver. done.
      * eapply hseg_frame; [| |by apply Hs2].
        -- rewrite Hload, !decide_False; [done|set_solver|set_solver].
        -- intros k Hk. rewrite Hload, Hpp, !decide_False; simpl; set_solver.
  - apply NoDup_app. split_and!; [done|set_solver|]. apply NoDup_cons. split; [set_solver|done].
  - set_solver.
  - intros k [Hk Hkn]%elem_of_difference. left. split; [done|].
    intros ?. eapply (hrepr_not_free _ _ _ _ _ _ HR Hb); [|done]. set_solver.
Qed.

Lemma hrepr_hlist_add_before s F U b l1 x l2 n :
  hrepr s F U -> F !! b = Some (l1 ++ x :: l2) -> n ∈ U ->
  exists s', hlist_add_before n x s = Done s' /\
    hrepr s' (<[b := l1 ++ n :: x :: l2]> F) (U ∖ {[n]}).
Proof.
  intros HR Hb Hn. pose proof (hrepr_seg _ _ _ HR _ _ Hb) as (Hs1 & Hx & Hs2)%hseg_app.
  destruct (hrepr_free _ _ _ HR _ Hn) as [Hln Hpn].
  assert (Hxn : x <> n) by (intros ->; eapply (hrepr_not_free _ _ _ _ _ n HR Hb); set_solver).
  assert (Hnloc : PNext n <> hloc (PFirst b) l1).
  { intros E. destruct (hloc_in b l1) as [?|(k & ? & ?)]; [congruence|]. assert (k = n) as -> by congruence.
    eapply (hrepr_not_free _ _ _ _ _ n HR Hb); set_solver. }
  unfold hlist_add_before. rewrite Hx. simpl.
  destruct (set_pprev_set n (Some (hloc (PFirst b) l1)) s) as (s1 & -> & Hl1 & Hp1); [by rewrite Hpn|].
  simpl. destruct (store_stored (PNext n) (Some x) s1) as (s2 & -> & Hl2 & Hp2); [by rewrite Hl1, Hln|].
  simpl. destruct (set_pprev_set x (Some (PNext n)) s2) as (s3 & -> & Hl3 & Hp3);
    [by rewrite Hp2, Hp1, decide_False, Hx|].
  simpl. rewrite Hp3, Hp2, Hp1, decide_False, decide_True by done. simpl.
  destruct (store_stored (hloc (PFirst b) l1) (Some n) s3) as (s4 & -> & Hl4 & Hp4).
  { rewrite Hl3, Hl2, Hl1, decide_False by done. eexists. by eapply hseg_end. }
  eexists. split; [done|]. eapply (hrepr_link s); try done.
  - intros q. by rewrite Hl4, Hl3, Hl2, Hl1.
  - intros k. rewrite Hp4, Hp3, Hp2, Hp1. simpl. repeat case_decide; simplify_eq; congruence.
Qed.

Lemma hrepr_hlist_add_after s F U b l1 x l2 n :
  hrepr s F U -> F !! b = Some (l1 ++ x :: l2) -> n ∈ U ->
  exists s', hlist_add_after x n s = Done s' /\
    hrepr s' (<[b := l1 ++ x :: n :: l2]> F) (U ∖ {[n]}).
Proof.
  intros HR Hb Hn. pose proof (hrepr_seg _ _ _ HR _ _ Hb) as Hseg.
  destruct (hrepr_free _ _ _ HR _ Hn) as [Hln Hpn].
  assert (Hxn : x <> n) by (intros ->; eapply (hrepr_not_free _ _ _ _ _ n HR Hb); set_solver).
  assert (Hnl2 : n ∉ l2) by (intros ?; eapply (hrepr_not_free _ _ _ _ _ n HR Hb); set_solver).
  apply hseg_app in Hseg as (Hs1 & Hx & Hs2). pose proof (hseg_start _ _ _ _ Hs2) as Hlx.
  unfold hlist_add_after. rewrite Hlx. simpl.
  destruct (store_stored (PNext n) (head l2) s) as (s1 & E1 & Hl1 & Hp1); [by rewrite Hln|].
  assert (match l2 with [] => None | k :: _ => Some k end = head l2) as -> by by destruct l2.
  rewrite E1. simpl.
  destruct (store_stored (PNext x) (Some n) s1) as (s2 & -> & Hl2 & Hp2).
  { rewrite Hl1, decide_False by congruence. by rewrite Hlx. }
  simpl. destruct (set_pprev_set n (Some (PNext x)) s2) as (s3 & -> & Hl3 & Hp3);
    [by rewrite Hp2, Hp1, Hpn|].
  simpl. rewrite Hl3, Hl2, Hl1, decide_False, decide_True by congruence. simpl.
  rewrite app_cons_snoc in Hb |- *.
  assert (Hlocx : hloc (PFirst b) (l1 ++ [x]) = PNext x) by (unfold hloc; by rewrite last_snoc).
  destruct l2 as [|j l2]; simpl.
  - eexists. split; [done|]. eapply (hrepr_link s); try done; rewrite Hlocx.
    + intros q. rewrite Hl3, Hl2, Hl1. by repeat case_decide.
    + intros k. rewrite Hp3, Hp2, Hp1. by repeat case_decide.
  - destruct (set_pprev_set j (Some (PNext n)) s3) as (s4 & -> & Hl4 & Hp4).
    { rewrite Hp3, Hp2, Hp1. case_decide; [eauto|]. destruct Hs2 as (_ & -> & _). eauto. }
    eexists. split; [done|]. eapply (hrepr_link s); try done; rewrite Hlocx.
    + intros q. rewrite Hl4, Hl3, Hl2, Hl1. by repeat case_decide.
    + intros k. rewrite Hp4, Hp3, Hp2, Hp1. simpl.
      assert (j <> n) by set_solver. repeat case_decide; simplify_eq; congruence.
Qed.

Lemma hrepr_hlist_move_list s F U old new_ l :
  hrepr s F U -> F !! old = Some l -> F !! new_ = Some [] -> old <> new_ ->
  exists s', hlist_move_list old new_ s = Done s' /\
    hrepr s' (<[old := []]> (<[new_ := l]> F)) U.
Proof.
  intros HR Ho Hn Hne. pose proof (hrepr_seg _ _ _ HR _ _ Ho) as Hso.
  pose proof (hrepr_seg _ _ _ HR _ _ Hn) as Hsn. pose proof (hrepr_nodup _ _ _ HR _ _ Ho) as Hnd.
  unfold hlist_move_list. rewrite (hseg_start _ _ _ _ Hso). simpl.
  assert (match l with [] => None | k :: _ => Some k end = head l) as -> by by destruct l.
  destruct (store_stored (PFirst new_) (head l) s) as (s1 & -> & Hl1 & Hp1); [simpl in Hsn; by rewrite Hsn|].
  simpl.
  assert (exists s2, match head l with
      | Some first => set_pprev first (Some (PFirst new_)) s1 | None => Done s1 end = Done s2 /\
    (forall q, load s2 q = load s1 q) /\
    (forall k, pp s2 k = if decide (head l = Some k) then Some (Some (PFirst new_)) else pp s k))
    as (s2 & -> & Hl2 & Hp2).
  { destruct l as [|j l]; simpl.
    - exists s1. split; [done|]. split; [done|]. intros k. rewrite Hp1. by repeat case_decide.
    - destruct (set_pprev_set j (Some (PFirst new_)) s1) as (s2 & -> & ? & Hp2).
      { rewrite Hp1. destruct Hso as (_ & -> & _). eauto. }
      exists s2. split; [done|]. split; [done|]. intros k. rewrite Hp2, Hp1.
      repeat case_decide; simplify_eq; congruence. }
  simpl. destruct (store_stored (PFirst old) None s2) as (s3 & -> & Hl3 & Hp3).
  { rewrite Hl2, Hl1, decide_False by congruence. rewrite (hseg_start _ _ _ _ Hso). eauto. }
  eexists. split; [done|].
  assert (Hload : forall q, load s3 q = if decide (q = PFirst old) then Some None
    else if decide (q = PFirst new_) then Some (head l) else load s q).
  { intros q. by rewrite Hl3, Hl2, Hl1. }
  assert (Hpp : forall k, pp s3 k = if decide (head l = Some k) then Some (Some (PFirst new_)) else pp s k).
  { intros k. by rewrite Hp3, Hp2. }
  clear -HR Ho Hn Hne Hso Hsn Hnd Hload Hpp.
  assert (Hold : hseg s3 (PFirst old) [] None) by (simpl; by rewrite Hload, decide_True).
  assert (Hnew : hseg s3 (PFirst new_) l None).
  { destruct l as [|j l]; simpl in *; [by rewrite Hload, decide_False, decide_True by congruence|].
    rewrite Hload, decide_False, decide_True by congruence. split; [done|].
    rewrite Hpp, decide_True by done. split; [done|]. destruct Hso as (_ & _ & Hs).
    apply NoDup_cons in Hnd as [Hj _].
    eapply hseg_frame; [by rewrite Hload, !decide_False| |exact Hs].
    intros k Hk. rewrite Hload, Hpp, !decide_False by set_solver. done. }
  assert (Hhead : forall k, head l = Some k -> k ∈ l) by (intros ?; apply head_Some_elem_of).
  split.
  - intros b l' [[<- <-]|[Hbo [[<- <-]|[Hbn Hb]]%lookup_insert_Some]]%lookup_insert_Some; [done..|].
    eapply hseg_frame; [by rewrite Hload, !decide_False by congruence| |by eapply (hrepr_seg _ _ _ HR)].
    intros k Hk. rewrite Hload, Hpp, !decide_False; [done| |done|done].
    intros ?%Hhead. by eapply Hbo, (hrepr_disj _ _ _ HR).
  - intros b l' [[<- <-]|[Hbo [[<- <-]|[Hbn Hb]]%lookup_insert_Some]]%lookup_insert_Some;
      [apply NoDup_nil_2|done|by eapply (hrepr_nodup _ _ _ HR)].
  - intros b1 b2 l1 l2 k
      [[<- <-]|[Hbo1 [[<- <-]|[Hbn1 Hb1]]%lookup_insert_Some]]%lookup_insert_Some
      [[<- <-]|[Hbo2 [[<- <-]|[Hbn2 Hb2]]%lookup_insert_Some]]%lookup_insert_Some Hk1 Hk2;
      try done; try (by apply not_elem_of_nil in Hk1); try (by apply not_elem_of_nil in Hk2).
    + exfalso. by eapply Hbo2, (hrepr_disj _ _ _ HR).
    + exfalso. by eapply Hbo1, (hrepr_disj _ _ _ HR).
    + by eapply (hrepr_disj _ _ _ HR).
  - intros k Hk. destruct (hrepr_free _ _ _ HR _ Hk) as [Hl Hp].
    rewrite Hload, Hpp, !decide_False; [done| |done|done].
    intros ?%Hhead. by eapply (hrepr_not_free _ _ _ _ _ _ HR Ho).
Qed.
End hlist.

(** ** The contract of the hlist operations *)

Section refinement.
Context {B K : Type} `{Countable B} `{Countable K}.
Implicit Types (s : hheap B K) (F : gmap B (list K)) (U : gset K).

(** Calls of the hlist operations. *)
Inductive hcmd :=
| HInitNode (n : K)
| HAddHead (n : K) (b : B)
| HAddBefore (n next : K)
| HAddAfter (n next : K)
| HDel (n : K)
| HDelInit (n : K)
| HMoveList (old new_ : B)
| HUnhashed (n : K)
| HEmpty (b : B).

(** What the call does to the memory, and what it returns. *)
Definition hexec (c : hcmd) s : outcome (option bool * hheap B K) :=
  match c with
  | HInitNode n => s ← INIT_HLIST_NODE n s; Done (None, s)
  | HAddHead n b => s ← hlist_add_head n b s; Done (None, s)
  | HAddBefore n next => s ← hlist_add_before n next s; Done (None, s)
  | HAddAfter n next => s ← hlist_add_after n next s; Done (None, s)
  | HDel n => s ← hlist_del n s; Done (None, s)
  | HDelInit n => s ← hlist_del_init n s; Done (None, s)
  | HMoveList old new_ => s ← hlist_move_list old new_ s; Done (None, s)
  | HUnhashed n => r ← hlist_unhashed n s; Done (Some r, s)
  | HEmpty b => r ← hlist_empty b s; Done (Some r, s)
  end.

Fixpoint hexecs (cs : list hcmd) s : outcome (list (option bool) * hheap B K) :=
  match cs with
  | [] => Done ([], s)
  | c :: cs => r ← hexec c s; rs ← hexecs cs r.2; Done (r.1 :: rs.1, rs.2)
  end.

(** The list meaning of a call, where the call is allowed: an added node is
    unhashed, and a list is moved over an empty one. *)
Inductive hmean : hcmd -> gmap B (list K) -> gset K -> option bool -> gmap B (list K) -> gset K -> Prop :=
| m_init n F U : n ∈ U -> hmean (HInitNode n) F U None F U
| m_add_head n b l F U :
    n ∈ U -> F !! b = Some l -> hmean (HAddHead n b) F U None (<[b := n :: l]> F) (U ∖ {[n]})
| m_add_before n x b l1 l2 F U :
    n ∈ U -> F !! b = Some (l1 ++ x :: l2) ->
    hmean (HAddBefore n x) F U None (<[b := l1 ++ n :: x :: l2]> F) (U ∖ {[n]})
| m_add_after x n b l1 l2 F U :
    n ∈ U -> F !! b = Some (l1 ++ x :: l2) ->
    hmean (HAddAfter x n) F U None (<[b := l1 ++ x :: n :: l2]> F) (U ∖ {[n]})
| m_del n b l1 l2 F U :
    F !! b = Some (l1 ++ n :: l2) -> hmean (HDel n) F U None (<[b := l1 ++ l2]> F) ({[n]} ∪ U)
| m_del_init n b l1 l2 F U :
    F !! b = Some (l1 ++ n :: l2) -> hmean (HDelInit n) F U None (<[b := l1 ++ l2]> F) ({[n]} ∪ U)
| m_del_init_unhashed n F U : n ∈ U -> hmean (HDelInit n) F U None F U
| m_move_list old new_ l F U :
    old <> new_ -> F !! old = Some l -> F !! new_ = Some [] ->
    hmean (HMoveList old new_) F U None (<[old := []]> (<[new_ := l]> F)) U
| m_unhashed n F U : n ∈ U -> hmean (HUnhashed n) F U (Some true) F U
| m_hashed n b l F U : F !! b = Some l -> n ∈ l -> hmean (HUnhashed n) F U (Some false) F U
| m_empty b l F U : F !! b = Some l -> hmean (HEmpty b) F U (Some (bool_decide (l = []))) F U.

Inductive hmeans : list hcmd -> gmap B (list K) -> gset K -> list (option bool) ->
    gmap B (list K) -> gset K -> Prop :=
| ms_nil F U : hmeans [] F U [] F U
| ms_cons c cs F U r F1 U1 rs F2 U2 :
    hmean c F U r F1 U1 -> hmeans cs F1 U1 rs F2 U2 -> hmeans (c :: cs) F U (r :: rs) F2 U2.

Lemma hrepr_init_node s F U n :
  hrepr s F U -> n ∈ U -> exists s', INIT_HLIST_NODE n s = Done s' /\ hrepr s' F U.
Proof.
  intros HR Hn. destruct (hrepr_free _ _ _ HR _ Hn) as [Hl Hp].
  destruct (clear_node_cells n s) as (s1 & E & Hl1 & Hp1); [by rewrite Hp|].
  exists s1. split; [exact E|].
  assert (Hload : forall q, load s1 q = load s q) by (intros q; rewrite Hl1; case_decide; naive_solver).
  assert (Hpp : forall k, pp s1 k = pp s k) by (intros k; rewrite Hp1; case_decide; naive_solver).
  destruct HR as [Hseg Hnd Hd Hf]. split; try done.
  - intros b l Hb. apply (hseg_frame s); [done|done|]. eauto.
  - intros k Hk. rewrite Hload, Hpp. eauto.
Qed.

Lemma hmean_sound c F U r F' U' s :
  hmean c F U r F' U' -> hrepr s F U -> exists s', hexec c s = Done (r, s') /\ hrepr s' F' U'.
Proof.
  intros Hm HR. destruct Hm; simpl.
  - destruct (hrepr_init_node s F U n) as (s' & -> & ?); simpl; eauto.
  - destruct (hrepr_hlist_add_head s F U b l n) as (s' & -> & ?); simpl; eauto.
  - destruct (hrepr_hlist_add_before s F U b l1 x l2 n) as (s' & -> & ?); simpl; eauto.
  - destruct (hrepr_hlist_add_after s F U b l1 x l2 n) as (s' & -> & ?); simpl; eauto.
  - destruct (hrepr_hlist_del s F U b l1 n l2) as (s' & -> & ?); simpl; eauto.
  - destruct (hrepr_hlist_del_init s F U b l1 n l2) as (s' & -> & ?); simpl; eauto.
  - rewrite (hrepr_hlist_del_init_unhashed s F U n); eauto.
  - destruct (hrepr_hlist_move_list s F U old new_ l) as (s' & -> & ?); simpl; eauto.
  - rewrite (hrepr_hlist_unhashed s F U n) by eauto. rewrite bool_decide_eq_true_2 by done. simpl; eauto.
  - rewrite (hrepr_hlist_unhashed s F U n) by eauto.
    rewrite bool_decide_eq_false_2 by (by eapply hrepr_not_free). eauto.
  - rewrite (hrepr_hlist_empty s F U b l); eauto.
Qed.

(** A memory of empty lists and unhashed nodes. *)
Definition hfresh (bs : gset B) (ks : gset K) : hheap B K :=
  HHeap (gset_to_gmap None bs) (gset_to_gmap (HNode None None) ks).

Lemma hrepr_fresh bs ks : hrepr (hfresh bs ks) (gset_to_gmap [] bs) ks.
Proof.
  split.
  - intros b l [? <-]%lookup_gset_to_gmap_Some. simpl. unfold load. simpl.
    by rewrite lookup_gset_to_gmap, option_guard_True.
  - intros b l [? <-]%lookup_gset_to_gmap_Some. apply NoDup_nil_2.
  - intros b b' l l' k [? <-]%lookup_gset_to_gmap_Some _ Hk. by apply not_elem_of_nil in Hk.
  - intros k Hk. unfold load, pp. simpl. by rewrite lookup_gset_to_gmap, option_guard_True.
Qed.

(** C33: every sequence of hlist calls that adds only unhashed nodes and removes
    nodes that are hashed or unhashed runs without following a bad pointer, does
    to the lists what the list meaning of each call says, and returns what that
    meaning returns. *)
Theorem hlist_api_refines cs F U rs F' U' s :
  hmeans cs F U rs F' U' -> hrepr s F U ->
  exists s', hexecs cs s = Done (rs, s') /\ hrepr s' F' U'.
Proof.
  intros Hm. revert s. induction Hm as [F U|c cs F U r F1 U1 rs F2 U2 Hc _ IH]; intros s HR; simpl; [eauto|].
  destruct (hmean_sound _ _ _ _ _ _ _ Hc HR) as (s1 & -> & HR1). simpl.
  destruct (IH _ HR1) as (s2 & -> & ?). simpl. eauto.
Qed.
End refinement.

Definition sample_hcmds : list (hcmd (B:=nat) (K:=nat)) :=
  [HAddHead 1 0; HAddHead 2 0; HAddAfter 2 3; HAddBefore 4 2; HDelInit 1; HMoveList 0 1;
   HUnhashed 1; HEmpty 0]%nat.

Lemma hlist_api_refines_witness :
  exists s', hexecs sample_hcmds (hfresh (list_to_set [0; 1]) (list_to_set [1; 2; 3; 4]))%nat
    = Done ([None; None; None; None; None; None; Some true; Some true], s')
  /\ exists F' U', hrepr s' F' U' /\ F' !! 1%nat = Some [4; 2; 3]%nat.
Proof.
  edestruct (hlist_api_refines sample_hcmds (gset_to_gmap [] (list_to_set [0; 1]%nat))
    (list_to_set [1; 2; 3; 4]%nat)) as (s' & E & HR); [|apply hrepr_fresh|].
  - eapply ms_cons; [apply (m_add_head _ _ []); [set_solver|done]|].
    eapply ms_cons; [eapply (m_add_head _ _ [1%nat]); [set_solver|done]|].
    eapply ms_cons; [eapply (m_add_after _ _ 0%nat [] [1%nat]); [set_solver|done]|].
    eapply ms_cons; [eapply (m_add_before _ _ 0%nat [] [3; 1]%nat); [set_solver|done]|].
    eapply ms_cons; [eapply (m_del_init _ 0%nat [4; 2; 3]%nat []); done|].
    eapply ms_cons; [eapply (m_move_list _ _ [4; 2; 3]%nat); done|].
    eapply ms_cons; [eapply m_unhashed; set_solver|].
    eapply ms_cons; [eapply (m_empty _ []); done|apply ms_nil].
  - exists s'. split; [exact E|]. eexists _, _. split; [exact HR|done].
Defined.
