(* ===== verification/HashTable.v ===== *)
(** * base/hash_table_base.h: the intrusive hash table

    [HashTableBase<ValueType, ParentType>] calls [ParentType::hash_code] and
    [ParentType::equal]; the class [HashKey] is that interface and
    [HashKeyLaws] what the table needs of it.  A table is its buckets (an hlist
    per slot), the list [m_list] through all nodes, and the node memory;
    [table_repr] ties the three together, and [hash_table_refines] shows that
    the table is a multimap whose lookup finds the newest matching entry. *)
From S2P Require Import Prelude CList CListStore CListIter Words HList.

(** ParentType::hash_code and ParentType::equal. *)
Class HashKey (V : Type) := {
  hash_code : V -> Z;
  equal : V -> V -> bool;
}.

(** Equal values have equal hashes, and hashes are 64-bit. *)
Class HashKeyLaws (V : Type) `{HashKey V} := {
  equal_hash (x y : V) : equal x y = true -> hash_code x = hash_code y;
  hash_u64 (x : V) : in_u 64 (hash_code x);
}.

(** HashTableBase: [buckets] holds m_bucket[0 .. m_bsize) and the [node]
    members, [tlists] the list head m_list (at [None]) and the [link_to]
    members (at [Some k]), [values] the [value] members of the nodes. *)
Record table (K V : Type) `{Countable K} := Table {
  m_bsize : Z;
  m_num : Z;
  buckets : hheap Z K;
  tlists : heap (option K);
  values : gmap K V;
}.
Arguments Table {K V _ _} _ _ _ _ _.
Arguments m_bsize {K V _ _} _.
Arguments m_num {K V _ _} _.
Arguments buckets {K V _ _} _.
Arguments tlists {K V _ _} _.
Arguments values {K V _ _} _.

Section table.
Context {K V : Type} `{Countable K} `{HashKey V}.
Implicit Types (t : table K V) (k : K) (v : V) (items free : list K).

(** The constructor, on the memory [t] of the new table and of its nodes. *)
Definition HashTableBase t : outcome (table K V) :=
  ls ← INIT_LIST_HEAD None (tlists t);
  Done (Table 0 0 (HHeap ∅ (hnodes (buckets t))) ls (values t)).

(** The loop of [init] from slot [i]. *)
Fixpoint init_buckets (n : nat) (i : Z) (s : hheap Z K) : outcome (hheap Z K) :=
  match n with
  | O => Done s
  | S n => s ← INIT_HLIST_HEAD i s; init_buckets n (i + 1) s
  end.

(** [init]; [garbage] is what malloc left in the slots. *)
Definition init (size : Z) (garbage : Z -> option K) t : outcome (table K V) :=
  let slots := seqZ 0 size in
  let s := HHeap (list_to_map ((fun i => (i, garbage i)) <$> slots)) (hnodes (buckets t)) in
  s ← init_buckets (Z.to_nat size) 0 s;
  Done (Table size (m_num t) s (tlists t) (values t)).

(** Node::init *)
Definition node_init k v t : outcome (table K V) :=
  _ ← of_option (values t !! k);
  s ← INIT_HLIST_NODE k (buckets t);
  ls ← INIT_LIST_HEAD (Some k) (tlists t);
  Done (Table (m_bsize t) (m_num t) s ls (<[k := v]> (values t))).

Definition size t : Z := m_num t.

Definition bucket t v : Z := hash_code v mod m_bsize t.

Definition add k t : outcome (table K V) :=
  v ← of_option (values t !! k);
  s ← hlist_add_head k (bucket t v) (buckets t);
  ls ← list_add (Some k) None (tlists t);
  Done (Table (m_bsize t) (u64 (m_num t + 1)) s ls (values t)).

Definition remove k t : outcome (table K V) :=
  s ← hlist_del_init k (buckets t);
  ls ← list_del_init (Some k) (tlists t);
  Done (Table (m_bsize t) (u64 (m_num t - 1)) s ls (values t)).

(** The fuel of the search is the number of nodes in memory. *)
Definition find v t : outcome (option K) :=
  hlist_find (bucket t v)
    (fun k => v' ← of_option (values t !! k); Done (equal v' v))
    (base.size (values t)) (buckets t).

(** [foreach] with the callback [proc], which may change the table; the
    counter is the returned [cnt]. *)
Definition foreach (proc : K -> table K V -> outcome (table K V)) (fuel : nat) t
    : outcome (table K V * Z) :=
  list_for_each_safe (fun s : table K V * Z => tlists s.1) None
    (fun c s => k ← of_option c; t' ← proc k s.1; Done (false, (t', s.2 + 1)))
    fuel (t, 0).

(** ** The table as a list of nodes *)

(** The [link_to] members of nodes in no table. *)
Definition detached free : list (option K * list (option K)) := (fun k => (Some k, [])) <$> free.

Definition bucket_of t k : Z :=
  match values t !! k with Some v => bucket t v | None => -1 end.

(** [t] has the nodes [items], newest first, and [free] are the initialised
    nodes in no table. *)
Record table_repr t items free : Prop := {
  tr_size : 0 < m_bsize t;
  tr_buckets : exists F U, hrepr (buckets t) F U /\
    (forall b, 0 <= b < m_bsize t -> F !! b = Some (filter (fun k => bucket_of t k = b) items)) /\
    (forall k, k ∈ free -> k ∈ U);
  tr_list : rings (tlists t) ((None, Some <$> items) :: detached free);
  tr_values k : k ∈ items ++ free -> is_Some (values t !! k);
}.

Lemma tlist_blocks_detached free : blocks (detached free) = Some <$> free.
Proof.
  induction free as [|k free IH]; [done|].
  change (blocks ((Some k, []) :: detached free) = Some k :: (Some <$> free)). by rewrite blocks_cons, IH.
Qed.

Lemma table_repr_nodup t items free : table_repr t items free -> NoDup (items ++ free).
Proof.
  intros [Hnd _]%tr_list. rewrite blocks_cons, tlist_blocks_detached, <-app_comm_cons in Hnd.
  apply NoDup_cons in Hnd as [_ Hnd].
  rewrite <-fmap_app in Hnd. by apply NoDup_fmap_1 in Hnd.
Qed.

Lemma table_repr_perm t items free free' :
  free ≡ₚ free' -> table_repr t items free -> table_repr t items free'.
Proof.
  intros Hp [Hs (F & U & ? & ? & ?) Hl Hv]. split; [done| | |].
  - exists F, U. split_and!; [done..|]. intros k. rewrite <-Hp. auto.
  - assert (detached free ≡ₚ detached free') as <-; [|done]. unfold detached. by rewrite Hp.
  - intros k. rewrite <-Hp. auto.
Qed.

Lemma bucket_range t v : 0 < m_bsize t -> 0 <= bucket t v < m_bsize t.
Proof. intros ?. by apply Z.mod_pos_bound. Qed.

Lemma elem_of_table_bucket t items k v b :
  values t !! k = Some v -> bucket t v = b ->
  forall l1 l2, items = l1 ++ k :: l2 ->
  filter (fun k => bucket_of t k = b) items =
  filter (fun k => bucket_of t k = b) l1 ++ k :: filter (fun k => bucket_of t k = b) l2.
Proof.
  intros Hv Hb l1 l2 ->. rewrite filter_app, filter_cons_True; [done|]. unfold bucket_of. by rewrite Hv.
Qed.

Lemma table_repr_add t items free k :
  table_repr t items (k :: free) ->
  exists t', add k t = Done t' /\ table_repr t' (k :: items) free /\
    m_num t' = u64 (m_num t + 1) /\ values t' = values t /\ m_bsize t' = m_bsize t.
Proof.
  intros HR. pose proof (table_repr_nodup _ _ _ HR) as Hnd.
  destruct HR as [Hs (F & U & HF & Hb & HU) Hl Hv].
  destruct (Hv k) as [v Hkv]; [set_solver|]. unfold add. rewrite Hkv. simpl.
  pose proof (bucket_range t v Hs) as Hbr.
  destruct (hrepr_hlist_add_head _ _ _ _ _ k HF (Hb _ Hbr)) as (s' & -> & HF'); [apply HU; left|]. simpl.
  assert (rings (tlists t) ((None, Some <$> items) :: detached free) /\ alloc (tlists t) (Some k)
     /\ Some k ∉ blocks ((None, Some <$> items) :: detached free)) as (Hl1 & Hal & Hni).
  { unfold detached in Hl. simpl in Hl. rewrite perm_swap in Hl. pose proof Hl as Hl2.
    apply rings_cons in Hl as (Hr & _ & Hd & Hl). split_and!; [done| |apply Hd; left].
    eapply ring_alloc; [exact Hr|left]. }
  destruct (rings_list_add _ _ _ _ (Some k) Hl1) as (ls' & -> & Hl' & _); [done|done|]. simpl.
  eexists. split; [done|]. split; [|done]. split; simpl; [done| | |].
  - eexists _, _. split; [exact HF'|]. split.
    + intros b Hbb. unfold bucket_of, bucket. simpl. fold (bucket t). destruct (decide (b = bucket t v)) as [->|Hne].
      * rewrite lookup_insert_eq, filter_cons_True; [done|]. by rewrite Hkv.
      * rewrite lookup_insert_ne by done. rewrite Hb by done.
        rewrite filter_cons_False; [done|]. rewrite Hkv. intros E. by apply Hne.
    + intros j Hj. apply elem_of_difference. split; [apply HU; by right|].
      rewrite elem_of_singleton. intros ->. rewrite <-Permutation_middle in Hnd.
      apply NoDup_cons in Hnd as [Hk _]. set_solver.
  - done.
  - intros j Hj. apply Hv. set_solver.
Qed.

Lemma table_repr_remove t l1 k l2 free :
  table_repr t (l1 ++ k :: l2) free ->
  exists t', remove k t = Done t' /\ table_repr t' (l1 ++ l2) (k :: free) /\
    m_num t' = u64 (m_num t - 1) /\ values t' = values t /\ m_bsize t' = m_bsize t.
Proof.
  intros [Hs (F & U & HF & Hb & HU) Hl Hv].
  destruct (Hv k) as [v Hkv]; [set_solver|]. unfold remove.
  pose proof (bucket_range t v Hs) as Hbr. pose proof (Hb _ Hbr) as Hbk.
  rewrite (elem_of_table_bucket t _ k v _ Hkv eq_refl l1 l2 eq_refl) in Hbk.
  destruct (hrepr_hlist_del_init _ _ _ _ _ _ _ HF Hbk) as (s' & -> & HF'). simpl.
  rewrite fmap_app, fmap_cons in Hl.
  destruct (rings_list_del_init _ _ _ _ _ _ Hl) as (ls' & -> & Hl' & _). simpl.
  eexists. split; [done|]. split; [|done]. split; simpl; [done| | |].
  - eexists _, _. split; [exact HF'|]. split.
    + intros b Hbb. unfold bucket_of, bucket. simpl. fold (bucket t). destruct (decide (b = bucket t v)) as [->|Hne].
      * by rewrite lookup_insert_eq, filter_app.
      * rewrite lookup_insert_ne by done. rewrite Hb by done. rewrite !filter_app.
        rewrite filter_cons_False; [done|]. unfold bucket_of. rewrite Hkv. intros E. by apply Hne.
    + set_solver.
  - unfold detached. simpl. rewrite fmap_app. rewrite perm_swap. exact Hl'.
  - intros j Hj. apply Hv. set_solver.
Qed.

(** Removing a node that is in no table only moves the counter. *)
Lemma table_repr_remove_detached t items k free :
  table_repr t items (k :: free) ->
  exists t', remove k t = Done t' /\ table_repr t' items (k :: free) /\
    m_num t' = u64 (m_num t - 1) /\ values t' = values t /\ m_bsize t' = m_bsize t.
Proof.
  intros [Hs (F & U & HF & Hb & HU) Hl Hv]. unfold remove.
  rewrite (hrepr_hlist_del_init_unhashed _ _ _ k HF) by (apply HU; left). simpl.
  unfold detached in Hl. simpl in Hl. rewrite perm_swap in Hl.
  destruct (rings_list_del_init_detached _ _ _ Hl) as (ls' & -> & Hl' & _). simpl.
  eexists. split; [done|]. split; [|done]. split; simpl; [done| | |done].
  - by exists F, U.
  - unfold detached. simpl. by rewrite perm_swap.
Qed.

(** The newest node whose value is equal to [v]. *)
Definition matches t v k : bool :=
  match values t !! k with Some v' => equal v' v | None => false end.

Lemma filter_matches_bucket `{!HashKeyLaws V} t v items :
  (forall k, k ∈ items -> is_Some (values t !! k)) ->
  List.filter (matches t v) (filter (fun k => bucket_of t k = bucket t v) items) =
  List.filter (matches t v) items.
Proof.
  induction items as [|k items IH]; intros Hv; [done|]. simpl.
  assert (IH' := IH ltac:(set_solver)). destruct (Hv k) as [v' Hk]; [set_solver|].
  destruct (decide (bucket_of t k = bucket t v)) as [Hb|Hb].
  - rewrite filter_cons_True by done. simpl. by rewrite IH'.
  - rewrite filter_cons_False by done. rewrite IH'. unfold matches at 2. rewrite Hk.
    destruct (equal v' v) eqn:E; [|done]. destruct Hb. unfold bucket_of, bucket. rewrite Hk.
    unfold bucket. by rewrite (equal_hash _ _ E).
Qed.

Lemma table_repr_find `{!HashKeyLaws V} t items free v :
  table_repr t items free ->
  find v t = Done (head (List.filter (matches t v) items)).
Proof.
  intros HR. pose proof (table_repr_nodup _ _ _ HR) as (Hnd & _ & _)%NoDup_app.
  destruct HR as [Hs (F & U & HF & Hb & HU) Hl Hv]. unfold find.
  pose proof (bucket_range t v Hs) as Hbr.
  rewrite (hrepr_hlist_find _ _ _ _ _ _ (matches t v) _ HF (Hb _ Hbr)).
  - rewrite filter_matches_bucket; [done|]. intros k Hk. apply Hv. set_solver.
  - intros k [_ Hk]%list_elem_of_filter. destruct (Hv k) as [v' E]; [set_solver|].
    unfold matches. by rewrite E.
  - rewrite <-size_dom, <-(size_list_to_set (C:=gset K)) by (by apply NoDup_filter).
    apply subseteq_size. intros k [_ Hk]%elem_of_list_to_set%list_elem_of_filter.
    apply elem_of_dom, Hv. set_solver.
Qed.
End table.

(** ** Creating a table *)
Section create.
Context {K V : Type} `{Countable K} `{HashKey V}.
Implicit Types (t : table K V) (s : hheap Z K).

Lemma init_buckets_spec n i s :
  (forall b, i <= b < i + Z.of_nat n -> is_Some (hfirst s !! b)) ->
  exists s', init_buckets n i s = Done s' /\ hnodes s' = hnodes s /\
    (forall b, hfirst s' !! b = if decide (i <= b < i + Z.of_nat n) then Some None else hfirst s !! b).
Proof.
  revert i s. induction n as [|n IH]; intros i s Hi; simpl.
  - exists s. split_and!; [done..|]. intros b. by rewrite decide_False by lia.
  - destruct (Hi i) as [w Hw]; [lia|]. unfold INIT_HLIST_HEAD, store. rewrite Hw. simpl.
    destruct (IH (i + 1) (HHeap (<[i := None]> (hfirst s)) (hnodes s))) as (s' & -> & Hn & Hf).
    + intros b Hb. simpl. rewrite lookup_insert_ne by lia. apply Hi. lia.
    + exists s'. split_and!; [done..|]. intros b. rewrite Hf. simpl.
      destruct (decide (b = i)) as [->|].
      * rewrite decide_False, lookup_insert_eq, decide_True by lia. done.
      * rewrite lookup_insert_ne by done. by apply decide_ext; lia.
Qed.

(** A new table with [size] slots is an empty table, whatever the allocator
    left in the slots; the nodes are detached ones. *)
Lemma table_create t sz garbage free :
  0 < sz -> NoDup free ->
  (forall k, k ∈ free -> hnodes (buckets t) !! k = Some (HNode None None) /\ is_Some (values t !! k)) ->
  rings (tlists t) (detached free) -> alloc (tlists t) None ->
  exists t', (t ← HashTableBase t; init sz garbage t) = Done t' /\ table_repr t' [] free /\
    m_num t' = 0 /\ m_bsize t' = sz /\ values t' = values t.
Proof.
  intros Hsz Hnd Hfree Hr Hal. unfold HashTableBase.
  destruct (rings_init _ _ None Hr Hal) as (ls & -> & Hr' & _).
  { rewrite tlist_blocks_detached. by intros (? & ? & ?)%list_elem_of_fmap. }
  simpl. unfold init. simpl.
  set (g := list_to_map ((fun i => (i, garbage i)) <$> seqZ 0 sz) : gmap Z (option K)).
  assert (Hg : forall b, 0 <= b < sz -> is_Some (g !! b)).
  { intros b Hb. exists (garbage b). apply elem_of_list_to_map_1.
    - rewrite <-list_fmap_compose. change (NoDup (id <$> seqZ 0 sz)). rewrite list_fmap_id. apply NoDup_seqZ.
    - apply list_elem_of_fmap. exists b. split; [done|]. apply elem_of_seqZ. lia. }
  destruct (init_buckets_spec (Z.to_nat sz) 0 (HHeap g (hnodes (buckets t)))) as (s' & -> & Hn & Hf).
  { intros b Hb. apply Hg. lia. }
  simpl. eexists. split; [done|]. split; [|done]. split; simpl; [done| |done|].
  - exists (gset_to_gmap [] (list_to_set (seqZ 0 sz))), (list_to_set free).
    split_and!.
    + split.
      * intros b l [Hb <-]%lookup_gset_to_gmap_Some. simpl. unfold load.
        apply elem_of_list_to_set, elem_of_seqZ in Hb. rewrite Hf, decide_True by lia. done.
      * intros b l [Hb <-]%lookup_gset_to_gmap_Some. apply NoDup_nil_2.
      * intros b b' l l' k [Hb <-]%lookup_gset_to_gmap_Some _ Hk. by apply not_elem_of_nil in Hk.
      * intros k Hk%elem_of_list_to_set. unfold load, pp. rewrite Hn. simpl.
        by rewrite (proj1 (Hfree k Hk)).
    + intros b Hb. rewrite lookup_gset_to_gmap, option_guard_True; [done|].
      apply elem_of_list_to_set, elem_of_seqZ. lia.
    + intros k Hk. by apply elem_of_list_to_set.
  - intros k Hk. by apply Hfree.
Qed.

Lemma table_repr_node_init t items free k v :
  table_repr t items (k :: free) ->
  exists t', node_init k v t = Done t' /\ table_repr t' items (k :: free) /\
    m_num t' = m_num t /\ values t' = <[k := v]> (values t) /\ m_bsize t' = m_bsize t.
Proof.
  intros HR. pose proof (table_repr_nodup _ _ _ HR) as Hnd.
  rewrite <-Permutation_middle in Hnd. apply NoDup_cons in Hnd as [Hk Hnd].
  destruct HR as [Hs (F & U & HF & Hb & HU) Hl Hv].
  destruct (Hv k) as [w Hw]; [set_solver|]. unfold node_init. rewrite Hw. simpl.
  destruct (hrepr_init_node _ _ _ k HF) as (s' & -> & HF'); [apply HU; left|]. simpl.
  assert (exists ls, INIT_LIST_HEAD (Some k) (tlists t) = Done ls /\
    rings ls ((None, Some <$> items) :: detached (k :: free))) as (ls & -> & Hl').
  { unfold detached in Hl. simpl in Hl. rewrite perm_swap in Hl.
    apply rings_cons in Hl as (Hr & _ & Hd & Hl).
    destruct (rings_init _ _ (Some k) Hl) as (ls & -> & Hls & _);
      [eapply ring_alloc; [exact Hr|left]|apply Hd; left|].
    exists ls. split; [done|]. unfold detached. simpl. by rewrite perm_swap. }
  simpl. eexists. split; [done|]. split; [|done]. split; simpl; [done| |done|].
  - exists F, U. split_and!; [done| |done]. intros b Hbb. rewrite Hb by done. f_equal.
    apply list_filter_iff_in. intros j Hj. unfold bucket_of, bucket. simpl.
    rewrite lookup_insert_ne; [done|]. intros ->. apply Hk. set_solver.
  - intros j Hj. rewrite lookup_insert_is_Some. destruct (decide (k = j)); [by left|right]. auto.
Qed.
End create.

(** Node memory before any table uses it: [ks] are the nodes with their values. *)
Section fresh.
Context {K V : Type} `{Countable K} `{HashKey V}.

Definition fresh_nodes (ks : list (K * V)) : table K V :=
  Table 0 0 (HHeap ∅ (gset_to_gmap (HNode None None) (list_to_set ks.*1)))
    (<[None := Link None None]> (list_to_map ((fun k => (Some k, Link (Some (Some k)) (Some (Some k)))) <$> ks.*1)))
    (list_to_map ks).

Lemma fresh_table sz garbage (ks : list (K * V)) :
  0 < sz -> NoDup ks.*1 ->
  exists t, (t ← HashTableBase (fresh_nodes ks); init sz garbage t) = Done t /\
    table_repr t [] ks.*1 /\ m_num t = 0 /\ m_bsize t = sz /\ values t = list_to_map ks.
Proof.
  intros Hsz Hnd. apply table_create; [done|done| | |].
  - intros k Hk. simpl. rewrite lookup_gset_to_gmap, option_guard_True by (by apply elem_of_list_to_set).
    split; [done|]. apply list_elem_of_fmap in Hk as ([k' v] & -> & Hk). exists v.
    by apply elem_of_list_to_map_1.
  - assert (detached ks.*1 = (fun d => (d, [])) <$> (Some <$> ks.*1)) as ->
      by (exact (list_fmap_compose Some (fun d => (d, [])) ks.*1)).
    apply rings_singletons.
    + by apply NoDup_fmap_2; [apply _|].
    + intros d (k & -> & Hk)%list_elem_of_fmap. simpl. rewrite lookup_insert_ne by done.
      apply elem_of_list_to_map_1.
      * rewrite <-(list_fmap_compose _ fst ks.*1). by apply NoDup_fmap_2; [intros ?? [=]|].
      * apply list_elem_of_fmap. by exists k.
  - simpl. apply alloc_Some. by rewrite lookup_insert_eq.
Qed.
End fresh.

(** ** The table refines a multimap *)
Section multimap.
Context {K V : Type} `{Countable K} `{HashKey V} `{!HashKeyLaws V}.
Implicit Types (t : table K V) (k : K) (v : V) (items free : list (K * V)) (num : Z).

Inductive tcmd := TInit (k : K) (v : V) | TAdd (k : K) | TRemove (k : K) | TFind (v : V) | TSize.
Inductive tret := TVoid | TPtr (p : option K) | TNum (n : Z).

Definition texec (c : tcmd) t : outcome (tret * table K V) :=
  match c with
  | TInit k v => t ← node_init k v t; Done (TVoid, t)
  | TAdd k => t ← add k t; Done (TVoid, t)
  | TRemove k => t ← remove k t; Done (TVoid, t)
  | TFind v => p ← find v t; Done (TPtr p, t)
  | TSize => Done (TNum (size t), t)
  end.

Fixpoint texecs (cs : list tcmd) t : outcome (list tret * table K V) :=
  match cs with
  | [] => Done ([], t)
  | c :: cs => r ← texec c t; rs ← texecs cs r.2; Done (r.1 :: rs.1, rs.2)
  end.

(** The multimap: entries newest first, nodes in no table with their values,
    and the counter. *)
Record multimap := Multimap { entries : list (K * V); spare : list (K * V); counter : Z }.

Definition lookup_newest v (items : list (K * V)) : option K :=
  fst <$> head (List.filter (fun kv => equal kv.2 v) items).

Inductive tmean : tcmd -> multimap -> tret -> multimap -> Prop :=
| t_init k v v0 items free free' num :
    free ≡ₚ (k, v0) :: free' ->
    tmean (TInit k v) (Multimap items free num) TVoid (Multimap items ((k, v) :: free') num)
| t_add k v items free free' num :
    free ≡ₚ (k, v) :: free' ->
    tmean (TAdd k) (Multimap items free num) TVoid (Multimap ((k, v) :: items) free' (u64 (num + 1)))
| t_remove k v l1 l2 free num :
    tmean (TRemove k) (Multimap (l1 ++ (k, v) :: l2) free num) TVoid
      (Multimap (l1 ++ l2) ((k, v) :: free) (u64 (num - 1)))
| t_remove_spare k v items free free' num :
    free ≡ₚ (k, v) :: free' ->
    tmean (TRemove k) (Multimap items free num) TVoid (Multimap items free (u64 (num - 1)))
| t_find v items free num :
    tmean (TFind v) (Multimap items free num) (TPtr (lookup_newest v items)) (Multimap items free num)
| t_size items free num :
    tmean TSize (Multimap items free num) (TNum num) (Multimap items free num).

Inductive tmeans : list tcmd -> multimap -> list tret -> multimap -> Prop :=
| tms_nil m : tmeans [] m [] m
| tms_cons c cs m1 r m2 rs m3 : tmean c m1 r m2 -> tmeans cs m2 rs m3 -> tmeans (c :: cs) m1 (r :: rs) m3.

Definition has_values t (l : list (K * V)) : Prop := forall k v, (k, v) ∈ l -> values t !! k = Some v.

Definition implements t (m : multimap) : Prop :=
  table_repr t (entries m).*1 (spare m).*1 /\ has_values t (entries m ++ spare m) /\ m_num t = counter m.

Lemma has_values_perm t l l' : l ≡ₚ l' -> has_values t l -> has_values t l'.
Proof. intros Hp Hl k v Hin. apply Hl. by rewrite Hp. Qed.

Lemma implements_spare t items free free' num :
  free ≡ₚ free' -> implements t (Multimap items free num) -> implements t (Multimap items free' num).
Proof.
  intros Hp (HR & Hv & Hn). split_and!; [|by eapply has_values_perm; [|exact Hv]; simpl; rewrite Hp|done].
  eapply table_repr_perm; [|exact HR]. simpl. by rewrite Hp.
Qed.

Lemma find_newest t items free num v :
  implements t (Multimap items free num) -> find v t = Done (lookup_newest v items).
Proof.
  intros (HR & Hv & _). simpl in *. rewrite (table_repr_find _ _ _ _ HR). f_equal.
  unfold lookup_newest. assert (Hi : has_values t items) by (intros ???; apply Hv; set_solver).
  clear -Hi. induction items as [|[k w] items IH]; [done|]. simpl.
  unfold matches at 1. rewrite (Hi k w) by left.
  destruct (equal w v); [done|]. apply IH. intros ???. apply Hi. by right.
Qed.

Lemma tmean_sound c m r m' t :
  tmean c m r m' -> implements t m -> exists t', texec c t = Done (r, t') /\ implements t' m'.
Proof.
  intros Hm HI. destruct Hm as [k v v0 items free free' num Hp|k v items free free' num Hp|k v l1 l2 free num
    |k v items free free' num Hp|v items free num|items free num]; simpl.
  - apply (implements_spare _ _ _ _ _ Hp) in HI as (HR & Hv & Hn). simpl in HR.
    destruct (table_repr_node_init _ _ _ k v HR) as (t' & -> & HR' & Hn' & Hv' & _). simpl.
    eexists. split; [done|]. split_and!; [done| |simpl; by rewrite Hn'].
    apply table_repr_nodup in HR. rewrite <-Permutation_middle in HR. apply NoDup_cons in HR as [Hk _].
    intros j w Hj. rewrite Hv'. destruct (decide (j = k)) as [->|Hne].
    + rewrite lookup_insert_eq. f_equal. simpl in Hj. rewrite <-Permutation_middle in Hj.
      apply elem_of_cons in Hj as [[= ->]|Hj]; [done|]. destruct Hk. rewrite <-fmap_app.
      apply list_elem_of_fmap. by exists (k, w).
    + rewrite lookup_insert_ne by done. apply Hv. simpl in *.
      rewrite <-Permutation_middle in Hj |- *. apply elem_of_cons in Hj as [[= -> ->]|Hj]; [done|by right].
  - apply (implements_spare _ _ _ _ _ Hp) in HI as (HR & Hv & Hn). simpl in *.
    destruct (table_repr_add _ _ _ _ HR) as (t' & -> & HR' & Hn' & Hv' & _). simpl.
    eexists. split; [done|]. split_and!; [done| |simpl; by rewrite Hn', Hn].
    intros j w Hj. rewrite Hv'. apply Hv. simpl in *. by rewrite <-Permutation_middle.
  - destruct HI as (HR & Hv & Hn). simpl in *. rewrite fmap_app, fmap_cons in HR. simpl in HR.
    destruct (table_repr_remove _ _ _ _ _ HR) as (t' & -> & HR' & Hn' & Hv' & _). simpl.
    eexists. split; [done|]. split_and!; [simpl; by rewrite fmap_app| |simpl; by rewrite Hn', Hn].
    intros j w Hj. rewrite Hv'. apply Hv. simpl in *.
    set_solver +Hj.
  - pose proof (implements_spare _ _ _ _ _ Hp HI) as (HR & Hv & Hn). simpl in *.
    destruct (table_repr_remove_detached _ _ _ _ HR) as (t' & -> & HR' & Hn' & Hv' & _). simpl.
    eexists. split; [done|]. apply (implements_spare _ _ ((k, v) :: free')); [done|].
    split_and!; [done| |simpl; by rewrite Hn', Hn]. intros j w Hj. rewrite Hv'. by apply Hv.
  - rewrite (find_newest _ _ _ _ _ HI). simpl. eauto.
  - eexists. split; [|exact HI]. destruct HI as (_ & _ & Hn). simpl in *. unfold size. by rewrite Hn.
Qed.

(** What a lookup gives. *)
Lemma lookup_newest_spec v items :
  match lookup_newest v items with
  | Some k => exists w, (k, w) ∈ items /\ equal w v = true
  | None => forall k w, (k, w) ∈ items -> equal w v = false
  end.
Proof.
  clear HashKeyLaws0. unfold lookup_newest. induction items as [|[k w] items IH]; [by intros k w ?%elem_of_nil|]. cbn [List.filter snd].
  destruct (equal w v) eqn:E; [exists w; split; [left|done]|].
  destruct (head (List.filter _ items)) as [[k' w']|]; cbn in *.
  - destruct IH as (w1 & Hin & E1). exists w1. split; [by right|done].
  - intros k1 w1 [[= -> ->]|Hin]%elem_of_cons; [done|by eapply IH].
Qed.

(** A client's insertion: Node::init and add of a node in no table. *)
Definition insert_node k v t : outcome (table K V) := t ← node_init k v t; add k t.

Lemma insert_node_ok k v v0 items free free' num t :
  free ≡ₚ (k, v0) :: free' -> implements t (Multimap items free num) ->
  exists t', insert_node k v t = Done t' /\ implements t' (Multimap ((k, v) :: items) free' (u64 (num + 1))).
Proof.
  intros Hp HI. destruct (tmean_sound _ _ _ _ t (t_init k v v0 items free free' num Hp) HI) as (t1 & E1 & HI1). cbn [texec] in E1.
  unfold insert_node. destruct (node_init k v t) as [t1'| |]; [|done..]. injection E1 as ->. rewrite outcome_bind_ret.
  destruct (tmean_sound _ _ _ _ t1 (t_add k v items ((k, v) :: free') free' num (Permutation_refl _)) HI1) as (t2 & E2 & HI2). cbn [texec] in E2.
  destruct (add k t1) as [t2'| |]; [|done..]. injection E2 as ->. by exists t2.
Qed.

(** Removal of an entry. *)
Lemma remove_node_ok k v l1 l2 free num t :
  implements t (Multimap (l1 ++ (k, v) :: l2) free num) ->
  exists t', remove k t = Done t' /\ implements t' (Multimap (l1 ++ l2) ((k, v) :: free) (u64 (num - 1))).
Proof.
  intros HI. destruct (tmean_sound _ _ _ _ t (t_remove k v l1 l2 free num) HI) as (t1 & E1 & HI1). cbn [texec] in E1.
  destruct (remove k t) as [t1'| |]; [|done..]. injection E1 as ->. by exists t1.
Qed.

(** C25: the hash table is a multimap.  Every sequence of Node::init, add,
    remove, find and size calls that adds only nodes in no table runs without
    a fault; find returns the most recently added node whose value is equal to
    the key, for every hash function that respects equal; size counts the adds
    less the removes modulo 2^64. *)
Theorem hash_table_refines cs m rs m' t :
  tmeans cs m rs m' -> implements t m ->
  exists t', texecs cs t = Done (rs, t') /\ implements t' m'.
Proof.
  intros Hm. revert t. induction Hm as [m|c cs m1 r m2 rs m3 Hc _ IH]; intros t HI; simpl; [eauto|].
  destruct (tmean_sound _ _ _ _ _ Hc HI) as (t1 & -> & HI1). simpl.
  destruct (IH _ HI1) as (t2 & -> & ?). simpl. eauto.
Qed.
End multimap.
