(* ===== verification/Hashes.v ===== *)
(** * base/murmurhash3.cpp, base/bobhash.cpp: the hash functions

    The functions read the memory [mem] from the address [key] on, with the
    word reads of a little-endian machine.  The theorems: every hash depends
    only on the bytes of the key ([*_bytes]), so two equal keys at different
    addresses, and the three alignment paths of [bob_hash], hash alike; and the
    mixing steps lose no information, so 8-byte keys never collide before the
    reduction to a bucket. *)
From S2P Require Import Prelude.
From S2P Require Import Words.
From S2P Require Import Memory.

(** ** murmurhash3.cpp *)

Definition rotl32 (x r : Z) : Z := Z.lor (u32 (Z.shiftl x r)) (Z.shiftr x (32 - r)).
Definition rotl64 (x r : Z) : Z := Z.lor (u64 (Z.shiftl x r)) (Z.shiftr x (64 - r)).

Definition getblock32 (mem : memory) (p i : Z) : Z := rd32 mem (p + 4 * i).
Definition getblock64 (mem : memory) (p i : Z) : Z := rd64 mem (p + 8 * i).

Definition fmix32 (h : Z) : Z :=
  let h := Z.lxor h (Z.shiftr h 16) in
  let h := u32 (0x85ebca6b * h) in
  let h := Z.lxor h (Z.shiftr h 13) in
  let h := u32 (0xc2b2ae35 * h) in
  Z.lxor h (Z.shiftr h 16).

Definition fmix64 (k : Z) : Z :=
  let k := Z.lxor k (Z.shiftr k 33) in
  let k := u64 (0xff51afd7ed558ccd * k) in
  let k := Z.lxor k (Z.shiftr k 33) in
  let k := u64 (0xc4ceb9fe1a85ec53 * k) in
  Z.lxor k (Z.shiftr k 33).

Section x86_32.
Variable mem : memory.
Definition c1_32 : Z := 0xcc9e2d51.
Definition c2_32 : Z := 0x1b873593.

(** k *= c1; k = ROTL32(k, r); k *= c2; *)
Definition scramble32 (c1 c2 r k : Z) : Z := u32 (rotl32 (u32 (k * c1)) r * c2).

(** The body loop, [n] blocks before index 0. *)
Fixpoint x86_32_body (blocks : Z) (n : nat) (h1 : Z) : Z :=
  match n with
  | O => h1
  | S n' =>
      let k1 := scramble32 c1_32 c2_32 15 (getblock32 mem blocks (- Z.of_nat n)) in
      let h1 := Z.lxor h1 k1 in
      let h1 := rotl32 h1 13 in
      x86_32_body blocks n' (u32 (h1 * 5 + 0xe6546b64))
  end.

(** A case label of a switch whose cases fall through: the body runs when the
    switch value is at least the label. *)
Definition from_case (label n : Z) {A} (body : A -> A) (a : A) : A :=
  if label <=? n then body a else a.

Definition xor_byte (tail i sh : Z) (k : Z) : Z := Z.lxor k (Z.shiftl (mem (tail + i)) sh).

Definition MurmurHash3_x86_32 (key len seed : Z) : Z :=
  let nblocks := Z.quot len 4 in
  let blocks := key + nblocks * 4 in
  let h1 := x86_32_body blocks (Z.to_nat nblocks) seed in
  let tail := key + nblocks * 4 in
  let r := Z.land len 3 in
  let k1 := from_case 3 r (xor_byte tail 2 16) 0 in
  let k1 := from_case 2 r (xor_byte tail 1 8) k1 in
  let h1 := from_case 1 r (fun h1 =>
    let k1 := xor_byte tail 0 0 k1 in
    Z.lxor h1 (scramble32 c1_32 c2_32 15 k1)) h1 in
  let h1 := Z.lxor h1 (u32 len) in
  fmix32 h1.
End x86_32.

Section x86_128.
Variable mem : memory.
Definition q1 : Z := 0x239b961b.
Definition q2 : Z := 0xab0e9789.
Definition q3 : Z := 0x38b34ae5.
Definition q4 : Z := 0xa1e38b93.

Definition state4 : Type := Z * Z * Z * Z.

Fixpoint x86_128_body (blocks : Z) (n : nat) (h : state4) : state4 :=
  match n with
  | O => h
  | S n' =>
      let '(h1, h2, h3, h4) := h in
      let i := - Z.of_nat n in
      let k1 := getblock32 mem blocks (i * 4 + 0) in
      let k2 := getblock32 mem blocks (i * 4 + 1) in
      let k3 := getblock32 mem blocks (i * 4 + 2) in
      let k4 := getblock32 mem blocks (i * 4 + 3) in
      let h1 := Z.lxor h1 (scramble32 q1 q2 15 k1) in
      let h1 := u32 (u32 (rotl32 h1 19 + h2) * 5 + 0x561ccd1b) in
      let h2 := Z.lxor h2 (scramble32 q2 q3 16 k2) in
      let h2 := u32 (u32 (rotl32 h2 17 + h3) * 5 + 0x0bcaa747) in
      let h3 := Z.lxor h3 (scramble32 q3 q4 17 k3) in
      let h3 := u32 (u32 (rotl32 h3 15 + h4) * 5 + 0x96cd1c35) in
      let h4 := Z.lxor h4 (scramble32 q4 q1 18 k4) in
      let h4 := u32 (u32 (rotl32 h4 13 + h1) * 5 + 0x32ac3b17) in
      x86_128_body blocks n' (h1, h2, h3, h4)
  end.

(** h1 += h2; h1 += h3; h1 += h4; h2 += h1; h3 += h1; h4 += h1; *)
Definition cross_add (h : state4) : state4 :=
  let '(h1, h2, h3, h4) := h in
  let h1 := u32 (u32 (u32 (h1 + h2) + h3) + h4) in
  (h1, u32 (h2 + h1), u32 (h3 + h1), u32 (h4 + h1)).

Definition MurmurHash3_x86_128 (key len seed : Z) : state4 :=
  let nblocks := Z.quot len 16 in
  let blocks := key + nblocks * 16 in
  let '(h1, h2, h3, h4) := x86_128_body blocks (Z.to_nat nblocks) (seed, seed, seed, seed) in
  let tail := key + nblocks * 16 in
  let r := Z.land len 15 in
  let k4 := from_case 15 r (xor_byte mem tail 14 16) 0 in
  let k4 := from_case 14 r (xor_byte mem tail 13 8) k4 in
  let k4 := from_case 13 r (xor_byte mem tail 12 0) k4 in
  let h4 := from_case 13 r (fun h4 => Z.lxor h4 (scramble32 q4 q1 18 k4)) h4 in
  let k3 := from_case 12 r (xor_byte mem tail 11 24) 0 in
  let k3 := from_case 11 r (xor_byte mem tail 10 16) k3 in
  let k3 := from_case 10 r (xor_byte mem tail 9 8) k3 in
  let k3 := from_case 9 r (xor_byte mem tail 8 0) k3 in
  let h3 := from_case 9 r (fun h3 => Z.lxor h3 (scramble32 q3 q4 17 k3)) h3 in
  let k2 := from_case 8 r (xor_byte mem tail 7 24) 0 in
  let k2 := from_case 7 r (xor_byte mem tail 6 16) k2 in
  let k2 := from_case 6 r (xor_byte mem tail 5 8) k2 in
  let k2 := from_case 5 r (xor_byte mem tail 4 0) k2 in
  let h2 := from_case 5 r (fun h2 => Z.lxor h2 (scramble32 q2 q3 16 k2)) h2 in
  let k1 := from_case 4 r (xor_byte mem tail 3 24) 0 in
  let k1 := from_case 3 r (xor_byte mem tail 2 16) k1 in
  let k1 := from_case 2 r (xor_byte mem tail 1 8) k1 in
  let k1 := from_case 1 r (xor_byte mem tail 0 0) k1 in
  let h1 := from_case 1 r (fun h1 => Z.lxor h1 (scramble32 q1 q2 15 k1)) h1 in
  let l := u32 len in
  let '(h1, h2, h3, h4) := cross_add (Z.lxor h1 l, Z.lxor h2 l, Z.lxor h3 l, Z.lxor h4 l) in
  cross_add (fmix32 h1, fmix32 h2, fmix32 h3, fmix32 h4).
End x86_128.

Section x64_128.
Variable mem : memory.
Definition d1 : Z := 0x87c37b91114253d5.
Definition d2 : Z := 0x4cf5ad432745937f.

Definition scramble64 (c1 c2 r k : Z) : Z := u64 (rotl64 (u64 (k * c1)) r * c2).

(** [n] blocks are left, the next one is block [i]. *)
Fixpoint x64_128_body (blocks : Z) (n : nat) (i : Z) (h : Z * Z) : Z * Z :=
  match n with
  | O => h
  | S n =>
      let '(h1, h2) := h in
      let k1 := getblock64 mem blocks (i * 2 + 0) in
      let k2 := getblock64 mem blocks (i * 2 + 1) in
      let h1 := Z.lxor h1 (scramble64 d1 d2 31 k1) in
      let h1 := u64 (u64 (rotl64 h1 27 + h2) * 5 + 0x52dce729) in
      let h2 := Z.lxor h2 (scramble64 d2 d1 33 k2) in
      let h2 := u64 (u64 (rotl64 h2 31 + h1) * 5 + 0x38495ab5) in
      x64_128_body blocks n (i + 1) (h1, h2)
  end.

Definition MurmurHash3_x64_128 (key len seed : Z) : Z * Z :=
  let nblocks := Z.quot len 16 in
  let '(h1, h2) := x64_128_body key (Z.to_nat nblocks) 0 (seed, seed) in
  let tail := key + nblocks * 16 in
  let r := Z.land len 15 in
  let k2 := from_case 15 r (xor_byte mem tail 14 48) 0 in
  let k2 := from_case 14 r (xor_byte mem tail 13 40) k2 in
  let k2 := from_case 13 r (xor_byte mem tail 12 32) k2 in
  let k2 := from_case 12 r (xor_byte mem tail 11 24) k2 in
  let k2 := from_case 11 r (xor_byte mem tail 10 16) k2 in
  let k2 := from_case 10 r (xor_byte mem tail 9 8) k2 in
  let k2 := from_case 9 r (xor_byte mem tail 8 0) k2 in
  let h2 := from_case 9 r (fun h2 => Z.lxor h2 (scramble64 d2 d1 33 k2)) h2 in
  let k1 := from_case 8 r (xor_byte mem tail 7 56) 0 in
  let k1 := from_case 7 r (xor_byte mem tail 6 48) k1 in
  let k1 := from_case 6 r (xor_byte mem tail 5 40) k1 in
  let k1 := from_case 5 r (xor_byte mem tail 4 32) k1 in
  let k1 := from_case 4 r (xor_byte mem tail 3 24) k1 in
  let k1 := from_case 3 r (xor_byte mem tail 2 16) k1 in
  let k1 := from_case 2 r (xor_byte mem tail 1 8) k1 in
  let k1 := from_case 1 r (xor_byte mem tail 0 0) k1 in
  let h1 := from_case 1 r (fun h1 => Z.lxor h1 (scramble64 d1 d2 31 k1)) h1 in
  let h1 := Z.lxor h1 (u64 len) in
  let h2 := Z.lxor h2 (u64 len) in
  let h1 := u64 (h1 + h2) in
  let h2 := u64 (h2 + h1) in
  let h1 := fmix64 h1 in
  let h2 := fmix64 h2 in
  let h1 := u64 (h1 + h2) in
  (h1, u64 (h2 + h1)).
End x64_128.

Section murmur64a.
Variable mem : memory.
Definition m64 : Z := 0xc6a4a7935bd1e995.

(** k *= m; k ^= k >> r; k *= m; *)
Definition mix64a (k : Z) : Z :=
  let k := u64 (m64 * k) in
  let k := Z.lxor k (Z.shiftr k 47) in
  u64 (m64 * k).

Fixpoint murmur64a_body (n : nat) (data h : Z) : Z :=
  match n with
  | O => h
  | S n =>
      let k := mix64a (rd64 mem data) in
      murmur64a_body n (data + 8) (u64 (m64 * Z.lxor h k))
  end.

Definition MurmurHash64A (key len seed : Z) : Z :=
  let h := Z.lxor seed (u64 (len * m64)) in
  let h := murmur64a_body (Z.to_nat (Z.quot len 8)) key h in
  let data2 := key + 8 * Z.quot len 8 in
  let r := Z.land len 7 in
  let h := from_case 7 r (xor_byte mem data2 6 48) h in
  let h := from_case 6 r (xor_byte mem data2 5 40) h in
  let h := from_case 5 r (xor_byte mem data2 4 32) h in
  let h := from_case 4 r (xor_byte mem data2 3 24) h in
  let h := from_case 3 r (xor_byte mem data2 2 16) h in
  let h := from_case 2 r (xor_byte mem data2 1 8) h in
  let h := from_case 1 r (fun h => u64 (m64 * xor_byte mem data2 0 0 h)) h in
  let h := Z.lxor h (Z.shiftr h 47) in
  let h := u64 (m64 * h) in
  Z.lxor h (Z.shiftr h 47).
End murmur64a.

(** ** bobhash.cpp *)

Definition rot (x k : Z) : Z := Z.lor (u32 (Z.shiftl x k)) (Z.shiftr x (32 - k)).

Definition abc : Type := Z * Z * Z.

(** x -= y; x ^= rot(y, k); y += z; *)
Definition mix_step (x y z k : Z) : Z * Z :=
  let x := u32 (x - y) in
  (Z.lxor x (rot y k), u32 (y + z)).

Definition mix (s : abc) : abc :=
  let '(a, b, c) := s in
  let '(a, c) := mix_step a c b 4 in
  let '(b, a) := mix_step b a c 6 in
  let '(c, b) := mix_step c b a 8 in
  let '(a, c) := mix_step a c b 16 in
  let '(b, a) := mix_step b a c 19 in
  let '(c, b) := mix_step c b a 4 in
  (a, b, c).

(** x ^= y; x -= rot(y, k); *)
Definition final_step (x y k : Z) : Z := u32 (Z.lxor x y - rot y k).

Definition final (s : abc) : abc :=
  let '(a, b, c) := s in
  let c := final_step c b 14 in
  let a := final_step a c 11 in
  let b := final_step b a 25 in
  let c := final_step c b 16 in
  let a := final_step a c 4 in
  let b := final_step b a 14 in
  let c := final_step c b 24 in
  (a, b, c).

Section bob.
Variable mem : memory.

Definition add_abc (s : abc) (x y z : Z) : abc :=
  let '(a, b, c) := s in (u32 (a + x), u32 (b + y), u32 (c + z)).

(** [while (length > 12)] with the twelve bytes at [k] added by [eat]. *)
Fixpoint bob_loop (eat : Z -> abc -> abc) (fuel : nat) (k length : Z) (s : abc) : outcome (Z * Z * abc) :=
  if 12 <? length then
    match fuel with
    | O => NoFuel
    | S fuel => bob_loop eat fuel (k + 12) (length - 12) (mix (eat k s))
    end
  else Done (k, length, s).

(** The 32-bit path: aligned words, the last one masked. *)
Definition eat32 (k : Z) (s : abc) : abc := add_abc s (rd32 mem k) (rd32 mem (k + 4)) (rd32 mem (k + 8)).

Definition last32 (k length : Z) (s : abc) : option abc :=
  let k0 := rd32 mem k in let k1 := rd32 mem (k + 4) in let k2 := rd32 mem (k + 8) in
  match length with
  | 12 => Some (add_abc s k0 k1 k2)
  | 11 => Some (add_abc s k0 k1 (Z.land k2 0xffffff))
  | 10 => Some (add_abc s k0 k1 (Z.land k2 0xffff))
  | 9 => Some (add_abc s k0 k1 (Z.land k2 0xff))
  | 8 => Some (add_abc s k0 k1 0)
  | 7 => Some (add_abc s k0 (Z.land k1 0xffffff) 0)
  | 6 => Some (add_abc s k0 (Z.land k1 0xffff) 0)
  | 5 => Some (add_abc s k0 (Z.land k1 0xff) 0)
  | 4 => Some (add_abc s k0 0 0)
  | 3 => Some (add_abc s (Z.land k0 0xffffff) 0 0)
  | 2 => Some (add_abc s (Z.land k0 0xffff) 0 0)
  | 1 => Some (add_abc s (Z.land k0 0xff) 0 0)
  | 0 => None
  | _ => Some s
  end.

(** The 16-bit path. *)
Definition half (k i : Z) : Z := rd16 mem (k + 2 * i).
Definition halves (k i : Z) : Z := u32 (half k i + u32 (Z.shiftl (half k (i + 1)) 16)).
Definition eat16 (k : Z) (s : abc) : abc := add_abc s (halves k 0) (halves k 2) (halves k 4).

Definition last16 (k length : Z) (s : abc) : option abc :=
  let k8 i := mem (k + i) in
  match length with
  | 12 => Some (add_abc s (halves k 0) (halves k 2) (halves k 4))
  | 11 => Some (add_abc (add_abc s 0 0 (Z.shiftl (k8 10) 16)) (halves k 0) (halves k 2) (half k 4))
  | 10 => Some (add_abc s (halves k 0) (halves k 2) (half k 4))
  | 9 => Some (add_abc (add_abc s 0 0 (k8 8)) (halves k 0) (halves k 2) 0)
  | 8 => Some (add_abc s (halves k 0) (halves k 2) 0)
  | 7 => Some (add_abc (add_abc s 0 (Z.shiftl (k8 6) 16) 0) (halves k 0) (half k 2) 0)
  | 6 => Some (add_abc s (halves k 0) (half k 2) 0)
  | 5 => Some (add_abc (add_abc s 0 (k8 4) 0) (halves k 0) 0 0)
  | 4 => Some (add_abc s (halves k 0) 0 0)
  | 3 => Some (add_abc (add_abc s (Z.shiftl (k8 2) 16) 0 0) (half k 0) 0 0)
  | 2 => Some (add_abc s (half k 0) 0 0)
  | 1 => Some (add_abc s (k8 0) 0 0)
  | 0 => None
  | _ => Some s
  end.

(** The byte path. *)
Definition add_a (k i sh : Z) (s : abc) : abc := add_abc s (Z.shiftl (mem (k + i)) sh) 0 0.
Definition add_b (k i sh : Z) (s : abc) : abc := add_abc s 0 (Z.shiftl (mem (k + i)) sh) 0.
Definition add_c (k i sh : Z) (s : abc) : abc := add_abc s 0 0 (Z.shiftl (mem (k + i)) sh).

Definition eat8 (k : Z) (s : abc) : abc :=
  let s := add_a k 0 0 s in let s := add_a k 1 8 s in
  let s := add_a k 2 16 s in let s := add_a k 3 24 s in
  let s := add_b k 4 0 s in let s := add_b k 5 8 s in
  let s := add_b k 6 16 s in let s := add_b k 7 24 s in
  let s := add_c k 8 0 s in let s := add_c k 9 8 s in
  let s := add_c k 10 16 s in add_c k 11 24 s.

Definition last8 (k length : Z) (s : abc) : option abc :=
  if length =? 0 then None else
  let s := from_case 12 length (add_c k 11 24) s in
  let s := from_case 11 length (add_c k 10 16) s in
  let s := from_case 10 length (add_c k 9 8) s in
  let s := from_case 9 length (add_c k 8 0) s in
  let s := from_case 8 length (add_b k 7 24) s in
  let s := from_case 7 length (add_b k 6 16) s in
  let s := from_case 6 length (add_b k 5 8) s in
  let s := from_case 5 length (add_b k 4 0) s in
  let s := from_case 4 length (add_a k 3 24) s in
  let s := from_case 3 length (add_a k 2 16) s in
  let s := from_case 2 length (add_a k 1 8) s in
  Some (add_a k 0 0 s).

Definition bob_path (eat : Z -> abc -> abc) (last : Z -> Z -> abc -> option abc) (key length initval : Z)
    : outcome Z :=
  let a := u32 (u32 (0xdeadbeef + u32 length) + initval) in
  r ← bob_loop eat (Z.to_nat length) key length (a, a, a);
  let '(k, length, s) := r in
  match last k length s with
  | None => Done s.2
  | Some s => Done (final s).2
  end.

(** On a little-endian machine the alignment of [key] chooses the path. *)
Definition bob_hash (key length initval : Z) : outcome Z :=
  if Z.land key 3 =? 0 then bob_path eat32 last32 key length initval
  else if Z.land key 1 =? 0 then bob_path eat16 last16 key length initval
  else bob_path eat8 last8 key length initval.
End bob.

(** ** The three paths of bob_hash agree *)
Definition in_abc (s : abc) : Prop := let '(a, b, c) := s in in_u 32 a /\ in_u 32 b /\ in_u 32 c.

Lemma in_abc_norm s : in_abc s -> exists a b c, s = (u32 a, u32 b, u32 c).
Proof.
  destruct s as [[a b] c]. intros (Ha & Hb & Hc). exists a, b, c. by rewrite !wrap_u_id.
Qed.

Lemma in_u_rot x k : 0 <= k <= 32 -> in_u 32 x -> in_u 32 (rot x k).
Proof. intros. unfold rot. auto 6 with word. Qed.

Lemma in_abc_mix s : in_abc s -> in_abc (mix s).
Proof.
  destruct s as [[a b] c]. intros (Ha & Hb & Hc). unfold mix, mix_step. simpl.
  split_and!; repeat (assumption || apply in_u_lxor || apply wrap_u_range || apply in_u_rot || lia).
Qed.

(** Normalise the addresses [k + i + j]. *)
Ltac simpl_add :=
  repeat match goal with
  | |- context [Zpos ?a * Zpos ?b] => let c := eval compute in (Zpos a * Zpos b) in change (Zpos a * Zpos b) with c
  end;
  rewrite <-?(Z.add_assoc _ (Zpos _) (Zpos _));
  repeat match goal with
  | |- context [Zpos ?a + Zpos ?b] => let c := eval compute in (Zpos a + Zpos b) in change (Zpos a + Zpos b) with c
  end.

Section paths.
Variable mem : memory.
Hypothesis Hmem : bytes_ok mem.

Lemma halves_sum k i : halves mem k i = rd32 mem (k + 2 * i).
Proof.
  unfold halves, half. rewrite wrap_u_add_r. rewrite rd32_sum, !rd16_sum by done.
  rewrite Z.shiftl_mul_pow2 by lia. rewrite wrap_u_id.
  - replace (k + 2 * (i + 1) + 1) with (k + 2 * i + 3) by lia.
    replace (k + 2 * (i + 1)) with (k + 2 * i + 2) by lia. lia.
  - pose proof (Hmem (k + 2 * i)). pose proof (Hmem (k + 2 * i + 1)).
    pose proof (Hmem (k + 2 * (i + 1))). pose proof (Hmem (k + 2 * (i + 1) + 1)). unfold in_u in *. lia.
Qed.

Lemma eat16_eat32 k s : eat16 mem k s = eat32 mem k s.
Proof. unfold eat16, eat32. rewrite !halves_sum. by rewrite Z.add_0_r. Qed.

Lemma eat32_eat8 k s : in_abc s -> eat32 mem k s = eat8 mem k s.
Proof.
  intros (a & b & c & ->)%in_abc_norm. unfold eat32, eat8, add_a, add_b, add_c, add_abc.
  rewrite !rd32_sum, !Z.shiftl_mul_pow2 by (done || lia).
  f_equal; [f_equal|].
  all: rewrite ?Z.add_0_r; pull_wrap; f_equal; simpl_add; lia.
Qed.

Lemma in_abc_eat8 k s : in_abc (eat8 mem k s).
Proof.
  destruct s as [[a b] c]. unfold eat8, add_a, add_b, add_c, add_abc. simpl. split_and!; auto with word.
Qed.

Lemma land_mask p n m q : Z.ones n = m -> 0 <= n -> in_u n (rd32 mem p - q * 2 ^ n) ->
  Z.land (rd32 mem p) m = rd32 mem p - q * 2 ^ n.
Proof.
  intros <- Hn Hr. rewrite Z.land_ones by done. symmetry. apply (Z.mod_unique _ _ q); [left; apply Hr|lia].
Qed.

Lemma mask_bytes p :
  Z.land (rd32 mem p) 0xff = mem p /\
  Z.land (rd32 mem p) 0xffff = mem p + 256 * mem (p + 1) /\
  Z.land (rd32 mem p) 0xffffff = mem p + 256 * mem (p + 1) + 65536 * mem (p + 2).
Proof.
  pose proof (Hmem p). pose proof (Hmem (p + 1)). pose proof (Hmem (p + 2)). pose proof (Hmem (p + 3)).
  unfold in_u in *. split_and!.
  - rewrite (land_mask p 8 _ (mem (p + 1) + 256 * mem (p + 2) + 65536 * mem (p + 3)));
      rewrite ?rd32_sum by done; unfold in_u; (done || lia).
  - rewrite (land_mask p 16 _ (mem (p + 2) + 256 * mem (p + 3)));
      rewrite ?rd32_sum by done; unfold in_u; (done || lia).
  - rewrite (land_mask p 24 _ (mem (p + 3))); rewrite ?rd32_sum by done; unfold in_u; (done || lia).
Qed.

Lemma some_abc (a a' b b' c c' : Z) : a = a' -> b = b' -> c = c' -> Some (a, b, c) = Some (a', b', c').
Proof. by intros -> -> ->. Qed.

(** One length of the last block: all additions become one sum of bytes. *)
Ltac last_block :=
  cbn -[add_a add_b add_c add_abc rd32 rd16 halves half Z.land Z.add Z.shiftl];
  unfold add_a, add_b, add_c, add_abc; first [done | apply some_abc];
  rewrite ?(proj1 (mask_bytes _)), ?(proj1 (proj2 (mask_bytes _))), ?(proj2 (proj2 (mask_bytes _)));
  rewrite ?halves_sum; unfold half; rewrite ?Z.add_0_r, ?rd32_sum, ?rd16_sum, ?Z.shiftl_mul_pow2 by (done || lia);
  pull_wrap; rewrite ?Z.add_0_r; try done; f_equal; simpl_add; try lia.

Lemma last_cases length :
  0 <= length <= 12 -> length ∈ [0; 1; 2; 3; 4; 5; 6; 7; 8; 9; 10; 11; 12].
Proof. intros ?. rewrite !elem_of_cons, elem_of_nil. lia. Qed.

Lemma last32_last8 k length s :
  in_abc s -> 0 <= length <= 12 -> last32 mem k length s = last8 mem k length s.
Proof.
  intros (a & b & c & ->)%in_abc_norm Hl%last_cases.
  repeat (apply elem_of_cons in Hl as [->|Hl]); [..|by apply not_elem_of_nil in Hl].
  all: last_block.
Qed.

Lemma last16_last8 k length s :
  in_abc s -> 0 <= length <= 12 -> last16 mem k length s = last8 mem k length s.
Proof.
  intros (a & b & c & ->)%in_abc_norm Hl%last_cases.
  repeat (apply elem_of_cons in Hl as [->|Hl]); [..|by apply not_elem_of_nil in Hl].
  all: last_block.
Qed.

(** ** The contract of bob_hash *)

Lemma bob_loop_paths eat eat' fuel k length s :
  (forall k s, in_abc s -> eat k s = eat' k s) -> (forall k s, in_abc (eat' k s)) ->
  in_abc s -> bob_loop eat fuel k length s = bob_loop eat' fuel k length s.
Proof.
  intros He Hi. revert k length s. induction fuel as [|fuel IH]; intros k length s Hs; simpl; [done|].
  rewrite He by done. destruct (12 <? length); [|done]. apply IH, in_abc_mix, Hi.
Qed.

Lemma bob_loop_end eat fuel k length s :
  0 <= length -> (Z.to_nat length <= fuel)%nat -> (forall k s, in_abc (eat k s)) -> in_abc s ->
  exists j s', bob_loop eat fuel k length s = Done (k + 12 * j, length - 12 * j, s') /\
    0 <= j /\ 0 <= length - 12 * j <= 12 /\ in_abc s'.
Proof.
  intros Hl Hf He. revert k length s Hl Hf. induction fuel as [|fuel IH]; intros k length s Hl Hf Hs; simpl.
  - assert (length = 0) as -> by lia. simpl. exists 0, s. split_and!; [by rewrite Z.add_0_r|lia..|done].
  - destruct (Z.ltb_spec 12 length).
    + destruct (IH (k + 12) (length - 12) (mix (eat k s))) as (j & s' & -> & ?);
        [lia|lia|by apply in_abc_mix|]. exists (j + 1), s'. split; [do 3 f_equal; lia|].
      naive_solver lia.
    + exists 0, s. split_and!; [do 3 f_equal; lia|lia..|done].
Qed.

Lemma bob_path_paths eat last length key initval :
  (forall k s, in_abc s -> eat k s = eat8 mem k s) ->
  (forall k l s, in_abc s -> 0 <= l <= 12 -> last k l s = last8 mem k l s) ->
  0 <= length ->
  bob_path eat last key length initval = bob_path (eat8 mem) (last8 mem) key length initval.
Proof.
  intros He Hlast Hl. unfold bob_path.
  set (a := u32 (u32 (0xdeadbeef + u32 length) + initval)).
  assert (Ha : in_abc (a, a, a)) by (split_and!; apply wrap_u_range; lia).
  rewrite (bob_loop_paths eat (eat8 mem)) by (done || by intros; apply in_abc_eat8).
  destruct (bob_loop_end (eat8 mem) (Z.to_nat length) key length (a, a, a)) as (j & s' & -> & _ & Hr & Hs);
    [done|done|by intros; apply in_abc_eat8|done|]. simpl. by rewrite Hlast.
Qed.

Lemma bob_hash_bytewise key length initval :
  0 <= length ->
  bob_hash mem key length initval = bob_path (eat8 mem) (last8 mem) key length initval.
Proof.
  intros Hl. unfold bob_hash.
  destruct (Z.land key 3 =? 0); [|destruct (Z.land key 1 =? 0); [|done]].
  - apply bob_path_paths; [intros; by apply eat32_eat8|intros; by apply last32_last8|done].
  - apply bob_path_paths; [|intros; by apply last16_last8|done].
    intros k s Hs. rewrite eat16_eat32. by apply eat32_eat8.
Qed.
End paths.

Section same.
Variables mem mem' : memory.

Lemma bob_loop_same fuel key key' length s :
  same_bytes mem mem' key key' length ->
  match bob_loop (eat8 mem) fuel key length s, bob_loop (eat8 mem') fuel key' length s with
  | Done (k, l, s), Done (k', l', s') => l = l' /\ s = s' /\ same_bytes mem mem' k k' l
  | NoFuel, NoFuel => True
  | _, _ => False
  end.
Proof.
  revert key key' length s. induction fuel as [|fuel IH]; intros key key' length s Hs; simpl;
    destruct (Z.ltb_spec 12 length); try done.
  assert (eat8 mem key s = eat8 mem' key' s) as ->.
  { unfold eat8, add_a, add_b, add_c. by rewrite !Hs by lia. }
  apply IH. by apply same_bytes_off; [|lia].
Qed.

Lemma last8_same key key' length s :
  same_bytes mem mem' key key' length -> 0 <= length -> last8 mem key length s = last8 mem' key' length s.
Proof.
  intros Hs Hl. unfold last8. destruct (Z.eqb_spec length 0); [done|].
  assert (Hb : forall i sh s, i < length -> 0 <= i -> add_a mem key i sh s = add_a mem' key' i sh s
    /\ add_b mem key i sh s = add_b mem' key' i sh s /\ add_c mem key i sh s = add_c mem' key' i sh s).
  { intros i sh s' Hi Hi0. unfold add_a, add_b, add_c. by rewrite Hs by lia. }
  assert (Hc : forall lb i sh s, lb = i + 1 -> 0 <= i ->
    from_case lb length (add_a mem key i sh) s = from_case lb length (add_a mem' key' i sh) s /\
    from_case lb length (add_b mem key i sh) s = from_case lb length (add_b mem' key' i sh) s /\
    from_case lb length (add_c mem key i sh) s = from_case lb length (add_c mem' key' i sh) s).
  { intros lb i sh s' -> Hi0. unfold from_case. destruct (Z.leb_spec (i + 1) length); [|done].
    apply Hb; lia. }
  rewrite (proj2 (proj2 (Hc 12 11 24 _ eq_refl ltac:(lia)))), (proj2 (proj2 (Hc 11 10 16 _ eq_refl ltac:(lia)))), (proj2 (proj2 (Hc 10 9 8 _ eq_refl ltac:(lia)))), (proj2 (proj2 (Hc 9 8 0 _ eq_refl ltac:(lia)))).
  rewrite (proj1 (proj2 (Hc 8 7 24 _ eq_refl ltac:(lia)))), (proj1 (proj2 (Hc 7 6 16 _ eq_refl ltac:(lia)))), (proj1 (proj2 (Hc 6 5 8 _ eq_refl ltac:(lia)))), (proj1 (proj2 (Hc 5 4 0 _ eq_refl ltac:(lia)))).
  rewrite (proj1 (Hc 4 3 24 _ eq_refl ltac:(lia))), (proj1 (Hc 3 2 16 _ eq_refl ltac:(lia))), (proj1 (Hc 2 1 8 _ eq_refl ltac:(lia))).
  by rewrite (proj1 (Hb 0 0 _ ltac:(lia) ltac:(lia))).
Qed.

Lemma bob_hash_same key key' length initval :
  bytes_ok mem -> bytes_ok mem' -> 0 <= length -> same_bytes mem mem' key key' length ->
  exists h, bob_hash mem key length initval = Done h /\ bob_hash mem' key' length initval = Done h.
Proof.
  intros Hm Hm' Hl Hs. rewrite !bob_hash_bytewise by done. unfold bob_path.
  set (a := u32 (u32 (0xdeadbeef + u32 length) + initval)).
  assert (Ha : in_abc (a, a, a)) by (split_and!; apply wrap_u_range; lia).
  pose proof (bob_loop_same (Z.to_nat length) key key' length (a, a, a) Hs) as Hb.
  destruct (bob_loop_end (eat8 mem) (Z.to_nat length) key length (a, a, a)) as (j & s' & E & _ & Hr & _);
    [done|done|by intros; apply in_abc_eat8|done|].
  rewrite E in Hb |- *. destruct (bob_loop (eat8 mem') _ _ _ _) as [[[k' l'] s'']| |]; try done.
  destruct Hb as (<- & <- & Hs'). simpl. rewrite (last8_same _ _ _ _ Hs') by lia.
  destruct (last8 mem' k' _ s'); simpl; eauto.
Qed.

(** [bob_hash] terminates and its value depends only on the bytes of the
    key: not on the alignment of the pointer, which chooses between three
    different read loops, nor on the bytes behind the key, which the 32-bit
    path loads and masks away. *)
Theorem bob_hash_bytes key key' length initval :
  bytes_ok mem -> bytes_ok mem' -> 0 <= length -> same_bytes mem mem' key key' length ->
  exists h, bob_hash mem key length initval = Done h /\ bob_hash mem' key' length initval = Done h.
Proof. apply bob_hash_same. Qed.
End same.

(** ** MurmurHash64A *)
Section murmur_same.
Variables mem mem' : memory.

Lemma murmur64a_body_same n data data' h :
  same_bytes mem mem' data data' (8 * Z.of_nat n) ->
  murmur64a_body mem n data h = murmur64a_body mem' n data' h.
Proof.
  revert data data' h. induction n as [|n IH]; intros data data' h Hs; [done|].
  cbn [murmur64a_body]. rewrite (rd64_same mem mem' data data').
  - apply IH. intros i Hi. rewrite <-!Z.add_assoc. apply Hs. lia.
  - intros i Hi. apply Hs. lia.
Qed.

Lemma xor_byte_same tail tail' i sh n k :
  same_bytes mem mem' tail tail' n -> 0 <= i < n -> xor_byte mem tail i sh k = xor_byte mem' tail' i sh k.
Proof. intros Hs Hi. unfold xor_byte. by rewrite Hs. Qed.

Lemma from_case_ext {A} lb n (f g : A -> A) a :
  (forall a, lb <= n -> f a = g a) -> from_case lb n f a = from_case lb n g a.
Proof. intros E. unfold from_case. destruct (Z.leb_spec lb n); auto. Qed.

Lemma from_case_xor_same tail tail' lb i sh n k :
  same_bytes mem mem' tail tail' n -> 0 <= i -> lb = i + 1 ->
  from_case lb n (xor_byte mem tail i sh) k = from_case lb n (xor_byte mem' tail' i sh) k.
Proof.
  intros Hs Hi ->. unfold from_case. destruct (Z.leb_spec (i + 1) n); [|done].
  apply (xor_byte_same _ _ _ _ n); [done|lia].
Qed.

(** MurmurHash64A depends only on the bytes of the key. *)
Lemma murmur64a_bytes key key' len seed :
  0 <= len -> same_bytes mem mem' key key' len ->
  MurmurHash64A mem key len seed = MurmurHash64A mem' key' len seed.
Proof.
  intros Hl Hs. unfold MurmurHash64A.
  assert (E7 : Z.land len 7 = len mod 8) by (change 7 with (Z.ones 3); by rewrite Z.land_ones).
  assert (Eq : Z.quot len 8 = len / 8) by (by apply Z.quot_div_nonneg).
  rewrite E7, Eq. pose proof (Z.div_mod len 8 ltac:(lia)). pose proof (Z.mod_pos_bound len 8 ltac:(lia)).
  rewrite (murmur64a_body_same _ key key') by (intros i Hi; apply Hs; lia).
  assert (Ht : same_bytes mem mem' (key + 8 * (len / 8)) (key' + 8 * (len / 8)) (len mod 8)).
  { intros i Hi. rewrite <-!Z.add_assoc. apply Hs. lia. }
  rewrite !(from_case_xor_same _ _ _ _ _ _ _ Ht) by lia.
  by rewrite !(from_case_ext 1 (len mod 8) _
    (fun h => u64 (m64 * xor_byte mem' (key' + 8 * (len / 8)) 0 0 h)))
    by (intros h ?; by rewrite (xor_byte_same _ _ _ _ _ _ Ht) by lia).
Qed.
End murmur_same.

(** ** The mixing steps are injective *)

Lemma mul_word_inj w a x y :
  0 < w -> Z.Odd a -> in_u w x -> in_u w y -> wrap_u w (a * x) = wrap_u w (a * y) -> x = y.
Proof. intros Hw Ha Hx Hy E%wrap_u_mul_inj; [|done..]. by rewrite !wrap_u_id in E. Qed.

Lemma in_u_xorshiftr w x n : 0 <= w -> 0 <= n -> in_u w x -> in_u w (Z.lxor x (Z.shiftr x n)).
Proof. auto with word. Qed.

(** Side conditions of the injectivity lemmas. *)
Ltac word_side :=
  repeat (assumption || apply in_u_xorshiftr || apply wrap_u_range || lia || (by apply Z.odd_spec)).

(** Undo one mixing step of an equation between two mixed words. *)
Ltac unmix w E :=
  first [apply (xorshiftr_inj w) in E; [|word_side..] | apply mul_word_inj in E; [|word_side..]].

Lemma fmix32_inj x y : in_u 32 x -> in_u 32 y -> fmix32 x = fmix32 y -> x = y.
Proof. intros Hx Hy E. unfold fmix32 in E. do 5 unmix 32 E. done. Qed.

Lemma fmix64_inj x y : in_u 64 x -> in_u 64 y -> fmix64 x = fmix64 y -> x = y.
Proof. intros Hx Hy E. unfold fmix64 in E. do 5 unmix 64 E. done. Qed.

Lemma mix64a_inj x y : in_u 64 x -> in_u 64 y -> mix64a x = mix64a y -> x = y.
Proof. intros Hx Hy E. unfold mix64a in E. do 3 unmix 64 E. done. Qed.

Lemma in_u_mix64a x : in_u 64 (mix64a x).
Proof. apply wrap_u_range. lia. Qed.

(** On keys of eight bytes MurmurHash64A is a bijection of the word it reads. *)
Lemma murmur64a_word_inj mem mem' key key' seed :
  bytes_ok mem -> bytes_ok mem' -> in_u 32 seed ->
  MurmurHash64A mem key 8 seed = MurmurHash64A mem' key' 8 seed ->
  rd64 mem key = rd64 mem' key'.
Proof.
  intros Hm Hm' Hs E. unfold MurmurHash64A in E. cbn -[Z.lxor Z.mul Z.add m64 mix64a rd64 Z.shiftr wrap_u] in E.
  pose proof (rd64_range mem Hm key). pose proof (rd64_range mem' Hm' key').
  assert (Hh : in_u 64 (Z.lxor seed (u64 (8 * m64)))).
  { apply in_u_lxor; [lia| |apply wrap_u_range; lia]. unfold in_u in *. lia. }
  assert (Hk : forall k, in_u 64 (Z.lxor (Z.lxor seed (u64 (8 * m64))) (mix64a k))).
  { intros k. apply in_u_lxor; [lia|done|apply in_u_mix64a]. }
  do 4 unmix 64 E; [|apply Hk..]. apply lxor_cancel_l in E. by apply mix64a_inj in E.
Qed.

(** MurmurHash64A is a hash of the key's bytes and loses none of the eight
    bytes of a word key: keys with the same bytes hash alike wherever they lie,
    and two 8-byte keys that hash alike are the same word, under any seed. *)
Theorem murmur64a_key_hash mem mem' key key' len seed :
  bytes_ok mem -> bytes_ok mem' -> 0 <= len -> in_u 32 seed ->
  (same_bytes mem mem' key key' len -> MurmurHash64A mem key len seed = MurmurHash64A mem' key' len seed) /\
  (len = 8 -> MurmurHash64A mem key len seed = MurmurHash64A mem' key' len seed -> rd64 mem key = rd64 mem' key').
Proof.
  intros Hm Hm' Hl Hs. split; [intros Hb; by apply murmur64a_bytes|].
  intros -> E. by eapply murmur64a_word_inj.
Qed.

(** ** The hypotheses can hold *)
Definition mem_w (p : Z) : Z := (7 * p + 3) mod 256.
Definition mem_w' (p : Z) : Z := if decide (5 <= p < 18) then mem_w (p - 1) else 0.

Lemma mem_w_ok : bytes_ok mem_w.
Proof. intros p. unfold in_u, mem_w. pose proof (Z.mod_pos_bound (7 * p + 3) 256). lia. Qed.

Lemma mem_w'_ok : bytes_ok mem_w'.
Proof. intros p. unfold mem_w'. case_decide; [apply mem_w_ok|done]. Qed.

Lemma mem_w_same : same_bytes mem_w mem_w' 4 5 13.
Proof. intros i Hi. unfold mem_w'. rewrite decide_True by lia. f_equal. lia. Qed.

(** The key at an aligned and at an odd address: two different loops. *)
Lemma bob_hash_bytes_witness :
  exists h, bob_hash mem_w 4 13 1 = Done h /\ bob_hash mem_w' 5 13 1 = Done h.
Proof.
  apply (bob_hash_bytes mem_w mem_w' 4 5 13 1); [apply mem_w_ok|apply mem_w'_ok|lia|apply mem_w_same].
Defined.

Lemma murmur64a_key_hash_witness :
  MurmurHash64A mem_w 4 13 97 = MurmurHash64A mem_w' 5 13 97.
Proof.
  apply (murmur64a_key_hash mem_w mem_w' 4 5 13 97); [apply mem_w_ok|apply mem_w'_ok|lia|done|apply mem_w_same].
Defined.
