(* ===== verification/HashKeys.v ===== *)
(** * base/int_map.h, base/str_map.h, base/addr_map.h, base/ref_str.h: the key types

    The classes derived from [HashTableBase] give it their hash function and
    equality; here they are instances of [HashKey], with the laws that
    [HashTable.hash_table_refines] asks for.  [StrMap] keys are [ref_str_t]s:
    a length and a pointer into a memory. *)
From S2P Require Import Prelude Words Memory Hashes HashTable.

(** ** IntMap *)
Record int_key := IntKey { int_of : Z }.

Definition int_hash (key : Z) : Z :=
  let key := u64 (u64 (Z.lnot key) + u64 (Z.shiftl key 21)) in
  let key := Z.lxor key (Z.shiftr key 24) in
  let key := u64 (u64 (key + u64 (Z.shiftl key 3)) + u64 (Z.shiftl key 8)) in
  let key := Z.lxor key (Z.shiftr key 14) in
  let key := u64 (u64 (key + u64 (Z.shiftl key 2)) + u64 (Z.shiftl key 4)) in
  let key := Z.lxor key (Z.shiftr key 28) in
  u64 (key + u64 (Z.shiftl key 31)).

#[export] Instance IntMap : HashKey int_key := {
  hash_code k := int_hash (int_of k);
  equal l r := int_of l =? int_of r;
}.

#[export] Instance IntMap_laws : HashKeyLaws int_key.
Proof.
  split.
  - intros x y E%Z.eqb_eq. simpl. by rewrite E.
  - intros x. apply wrap_u_range. lia.
Qed.

(** The four sums of [int_hash] are products by odd constants. *)
Lemma int_hash_step1 key : u64 (u64 (Z.lnot key) + u64 (Z.shiftl key 21)) = u64 (0x1fffff * key + -1).
Proof.
  pull_wrap. f_equal. rewrite Z.shiftl_mul_pow2 by lia. unfold Z.lnot. lia.
Qed.

Lemma int_hash_step2 a b key : 0 <= a -> 0 <= b ->
  u64 (u64 (key + u64 (Z.shiftl key a)) + u64 (Z.shiftl key b)) = u64 ((1 + 2 ^ a + 2 ^ b) * key).
Proof.
  intros. rewrite !Z.shiftl_mul_pow2 by done. rewrite !wrap_u_add_r, wrap_u_add_l.
  f_equal. lia.
Qed.

Lemma int_hash_step3 key : u64 (key + u64 (Z.shiftl key 31)) = u64 (0x80000001 * key).
Proof. pull_wrap. f_equal. rewrite Z.shiftl_mul_pow2 by lia. lia. Qed.

Lemma int_hash_products key :
  int_hash key =
  let k1 := u64 (0x1fffff * key + -1) in
  let k2 := u64 (265 * Z.lxor k1 (Z.shiftr k1 24)) in
  let k3 := u64 (21 * Z.lxor k2 (Z.shiftr k2 14)) in
  u64 (0x80000001 * Z.lxor k3 (Z.shiftr k3 28)).
Proof.
  unfold int_hash. rewrite int_hash_step1. set (k1 := u64 (0x1fffff * key + -1)). clearbody k1.
  cbv zeta. rewrite (int_hash_step2 3 8) by lia. change (1 + 2 ^ 3 + 2 ^ 8) with 265.
  set (k2 := u64 (265 * _)). clearbody k2.
  rewrite (int_hash_step2 2 4) by lia. change (1 + 2 ^ 2 + 2 ^ 4) with 21.
  set (k3 := u64 (21 * _)). clearbody k3. apply int_hash_step3.
Qed.

(** The first step is a product as well, up to the constant. *)
Lemma affine_inj x y :
  in_u 64 x -> in_u 64 y -> u64 (0x1fffff * x + -1) = u64 (0x1fffff * y + -1) -> x = y.
Proof.
  intros Hx Hy E. apply (mul_word_inj 64 0x1fffff); [lia|by apply Z.odd_spec|done|done|].
  replace (0x1fffff * x) with (0x1fffff * x + -1 + 1) by lia.
  replace (0x1fffff * y) with (0x1fffff * y + -1 + 1) by lia.
  by rewrite <-(wrap_u_add_l 64 (0x1fffff * x + -1)), <-(wrap_u_add_l 64 (0x1fffff * y + -1)), E.
Qed.

Lemma mul_xorshift_inj a n x y :
  Z.Odd a -> 0 < n -> in_u 64 x -> in_u 64 y ->
  u64 (a * Z.lxor x (Z.shiftr x n)) = u64 (a * Z.lxor y (Z.shiftr y n)) -> x = y.
Proof. intros Ha Hn Hx Hy E. do 2 unmix 64 E. done. Qed.

(** The hash of [IntMap] is injective on 64-bit keys: two different ids can
    only meet in a bucket, never in a hash value. *)
Theorem int_hash_injective x y :
  in_u 64 x -> in_u 64 y -> x <> y -> int_hash x <> int_hash y.
Proof.
  rewrite !int_hash_products. cbv zeta. intros Hx Hy Hne E. apply Hne.
  do 3 (apply mul_xorshift_inj in E;
    [|by apply Z.odd_spec|lia|apply wrap_u_range; lia|apply wrap_u_range; lia]).
  by apply affine_inj.
Qed.

Lemma int_hash_injective_witness : int_hash 5 <> int_hash 7.
Proof. apply int_hash_injective; unfold in_u; lia. Defined.

(** ** AddrMap *)
Record addr_key := AddrKey { addr_of : Z }.

#[export] Instance AddrMap : HashKey addr_key := {
  hash_code k := u64 (addr_of k * 2654435761);
  equal l r := addr_of l =? addr_of r;
}.

#[export] Instance AddrMap_laws : HashKeyLaws addr_key.
Proof.
  split.
  - intros x y E%Z.eqb_eq. simpl. by rewrite E.
  - intros x. apply wrap_u_range. lia.
Qed.

(** ** StrMap, on ref_str_t *)
Record ref_str := RefStr { len : Z; data : Z }.

(** memcmp(l, r, n) == 0 *)
Fixpoint mem_eq (mem : memory) (l r : Z) (n : nat) : bool :=
  match n with
  | O => true
  | S n => (mem l =? mem r) && mem_eq mem (l + 1) (r + 1) n
  end.

Definition ref_str_equal (mem : memory) (l r : ref_str) : bool :=
  (len l =? len r) && mem_eq mem (data l) (data r) (Z.to_nat (len l)).

Lemma mem_eq_same mem l r n : mem_eq mem l r n = true <-> same_bytes mem mem l r (Z.of_nat n).
Proof.
  revert l r. induction n as [|n IH]; intros l r; cbn [mem_eq].
  - split; [intros _ i Hi; lia|done].
  - rewrite andb_true_iff, Z.eqb_eq, IH. split.
    + intros [E Hs] i Hi. destruct (decide (i = 0)) as [->|]; [by rewrite !Z.add_0_r|].
      pose proof (Hs (i - 1) ltac:(lia)) as E'.
      by replace (l + 1 + (i - 1)) with (l + i) in E' by lia; replace (r + 1 + (i - 1)) with (r + i) in E' by lia.
    + intros Hs. split; [rewrite <-(Z.add_0_r l), <-(Z.add_0_r r); apply Hs; lia|].
      intros i Hi. rewrite <-!Z.add_assoc. apply Hs. lia.
Qed.

(** A key of [StrMap] whose length a C int can hold. *)
Record str_key := StrKey { str_of : ref_str; str_len : bool_decide (0 <= len str_of < 2 ^ 31) = true }.

Section str_map.
Variable mem : memory.
Hypothesis Hmem : bytes_ok mem.

Definition StrMap_hash_code (key : ref_str) : Z := MurmurHash64A mem (data key) (len key) 0.

Lemma StrMap_equal_hash l r :
  0 <= len l -> ref_str_equal mem l r = true -> StrMap_hash_code l = StrMap_hash_code r.
Proof.
  intros Hl [El%Z.eqb_eq Hm%mem_eq_same]%andb_true_iff. unfold StrMap_hash_code. rewrite <-El.
  apply murmur64a_bytes; [done|]. by rewrite Z2Nat.id in Hm.
Qed.

Lemma murmur64a_range m key n seed : bytes_ok m -> 0 <= n -> in_u 32 seed -> in_u 64 (MurmurHash64A m key n seed).
Proof.
  intros Hm Hn Hs. unfold MurmurHash64A. apply in_u_xorshiftr; [lia|lia|apply wrap_u_range; lia].
Qed.

Definition StrMap : HashKey str_key := {|
  hash_code k := StrMap_hash_code (str_of k);
  equal l r := ref_str_equal mem (str_of l) (str_of r);
|}.

Lemma StrMap_laws : @HashKeyLaws str_key StrMap.
Proof.
  split.
  - intros l r. pose proof (bool_decide_eq_true_1 _ (str_len l)). apply StrMap_equal_hash. lia.
  - intros x. pose proof (bool_decide_eq_true_1 _ (str_len x)). apply murmur64a_range; [done|lia|done].
Qed.
End str_map.

(** ** The table at a concrete key type *)

(** Two nodes with the same id: the lookup finds the one added last. *)
Definition sample_nodes : list (nat * int_key) := [(1%nat, IntKey 7); (2%nat, IntKey 7); (3%nat, IntKey 9)].

Lemma hash_table_refines_witness :
  exists t t', (t ← HashTableBase (fresh_nodes sample_nodes); init 4 (fun _ => None) t) = Done t /\
    texecs [TAdd 1; TAdd 2; TAdd 3; TFind (IntKey 7); TRemove 2; TFind (IntKey 7); TFind (IntKey 8); TSize]%nat t
    = Done ([TVoid; TVoid; TVoid; TPtr (Some 2%nat); TVoid; TPtr (Some 1%nat); TPtr None; TNum 2], t').
Proof.
  destruct (fresh_table 4 (fun _ => None) sample_nodes) as (t & E & HR & Hn & _ & Hv);
    [lia|apply (bool_decide_unpack _); by vm_compute|].
  edestruct (hash_table_refines
    [TAdd 1; TAdd 2; TAdd 3; TFind (IntKey 7); TRemove 2; TFind (IntKey 7); TFind (IntKey 8); TSize]%nat
    (Multimap [] sample_nodes 0)) as (t' & E' & _).
  - eapply tms_cons; [eapply (t_add 1%nat (IntKey 7)); unfold sample_nodes; reflexivity|].
    eapply tms_cons; [eapply (t_add 2%nat (IntKey 7)); unfold sample_nodes; reflexivity|].
    eapply tms_cons; [eapply (t_add 3%nat (IntKey 9)); reflexivity|].
    eapply tms_cons; [apply t_find|].
    eapply tms_cons; [eapply (t_remove 2%nat (IntKey 7) [(3%nat, IntKey 9)])|].
    eapply tms_cons; [apply t_find|].
    eapply tms_cons; [apply t_find|].
    eapply tms_cons; [apply t_size|apply tms_nil].
  - split_and!; [exact HR| |exact Hn]. intros k v Hk. rewrite Hv.
    apply elem_of_list_to_map_1; [apply (bool_decide_unpack _); by vm_compute|exact Hk].
  - exists t, t'. split; [exact E|exact E'].
Defined.
