(* ===== verification/Random.v ===== *)
(** * base/random.h: the xorshift generator

    [Rand] is Marsaglia's 128-bit xorshift.  [mix] is the state step, [rand_u32]
    and [rand_u64] read the stepped state, [rand_p] fills a buffer, four bytes
    per number and then one number per byte.  The theorems: a step loses no
    state, so a generator reaches the all-zero state, in which it is stuck,
    exactly when it is seeded with one value; and [rand_p] writes its buffer
    and nothing else. *)
From S2P Require Import Prelude Words Memory.

Record Rand := MkRand { x : Z; y : Z; z : Z; w : Z }.

#[export] Instance Rand_eq_dec : EqDecision Rand.
Proof. solve_decision. Defined.

Definition Rand_mix (r : Rand) : Rand :=
  let t := Z.lxor (x r) (u32 (Z.shiftl (x r) 11)) in
  let w' := Z.lxor (Z.lxor (Z.lxor (w r) (Z.shiftr (w r) 19)) t) (Z.shiftr t 8) in
  MkRand (y r) (z r) (w r) w'.

Definition reseed_u32 (seed : Z) : Rand :=
  Nat.iter 10 Rand_mix (MkRand (Z.lxor 0x498b3bc5 seed) 0 0 0).

Definition reseed_u64 (seed : Z) : Rand :=
  Nat.iter 10 Rand_mix
    (MkRand (Z.lxor 0x498b3bc5 (u32 (Z.shiftr seed 0))) (Z.lxor 0x5a05089a (u32 (Z.shiftr seed 32))) 0 0).

(** Rand::Rand() and Rand::Rand(uint32_t). *)
Definition Rand_default : Rand := reseed_u32 0.
Definition Rand_seeded (seed : Z) : Rand := reseed_u32 seed.

Definition rand_u32 (r : Rand) : Z * Rand := let r := Rand_mix r in (x r, r).

Definition rand_u64 (r : Rand) : Z * Rand :=
  let r := Rand_mix r in (Z.lor (Z.shiftl (x r) 32) (y r), r).

(** The loop over whole blocks: the pointer and the bytes left after it. *)
Fixpoint rand_blocks (fuel : nat) (blocks bytes : Z) (r : Rand) (mem : memory)
    : outcome (Z * Z * Rand * memory) :=
  match fuel with
  | O => NoFuel
  | S fuel =>
      if 4 <=? bytes then
        let '(v, r) := rand_u32 r in
        rand_blocks fuel (blocks + 4) (bytes - 4) r (wr32 blocks v mem)
      else Done (blocks, bytes, r, mem)
  end.

(** for (i = 0; i < bytes; i++) tail[i] = (uint8_t) rand_u32() *)
Fixpoint rand_tail (n : nat) (tail : Z) (r : Rand) (mem : memory) : Rand * memory :=
  match n with
  | O => (r, mem)
  | S n => let '(v, r) := rand_u32 r in rand_tail n (tail + 1) r (wr8 tail v mem)
  end.

Definition rand_p (blob bytes : Z) (r : Rand) (mem : memory) : outcome (Rand * memory) :=
  b ← rand_blocks (S (Z.to_nat bytes)) blob bytes r mem;
  let '(tail, bytes, r, mem) := b in
  Done (rand_tail (Z.to_nat bytes) tail r mem).

(** ** The state step *)
Definition rand_ok (r : Rand) : Prop := in_u 32 (x r) /\ in_u 32 (y r) /\ in_u 32 (z r) /\ in_u 32 (w r).

Definition rand_zero : Rand := MkRand 0 0 0 0.

Create HintDb rand.
#[export] Hint Extern 1 (in_u 32 _) => assumption : rand.

Lemma Rand_mix_ok r : rand_ok r -> rand_ok (Rand_mix r).
Proof.
  intros (Hx & Hy & Hz & Hw). unfold Rand_mix. split_and!; simpl; try done.
  repeat first [apply in_u_lxor | apply in_u_shiftr | apply wrap_u_range | lia | done].
Qed.

Lemma Rand_mix_inj r r' : rand_ok r -> rand_ok r' -> Rand_mix r = Rand_mix r' -> r = r'.
Proof.
  destruct r as [x1 y1 z1 w1], r' as [x2 y2 z2 w2]. unfold rand_ok, Rand_mix; simpl.
  intros (Hx1 & _ & _ & _) (Hx2 & _ & _ & _) [= <- <- <- E].
  set (t1 := Z.lxor x1 _) in E. set (t2 := Z.lxor x2 _) in E.
  assert (Ht : forall v, in_u 32 v -> in_u 32 (Z.lxor v (u32 (Z.shiftl v 11)))).
  { intros v Hv. apply in_u_lxor; [lia|done|apply wrap_u_range; lia]. }
  assert (E' : Z.lxor t1 (Z.shiftr t1 8) = Z.lxor t2 (Z.shiftr t2 8)).
  { rewrite !(Z.lxor_assoc (Z.lxor _ _)) in E.
    by apply lxor_cancel_l in E. }
  apply (xorshiftr_inj 32) in E'; [|lia|lia|by apply Ht|by apply Ht].
  by apply (xorshiftl_inj 32) in E' as ->; [|lia|lia|..].
Qed.

Lemma rand_iter_ok n r : rand_ok r -> rand_ok (Nat.iter n Rand_mix r).
Proof. intros Hr. induction n; [done|]. by apply Rand_mix_ok. Qed.

Lemma rand_iter_zero n r :
  rand_ok r -> Nat.iter n Rand_mix r = rand_zero <-> r = rand_zero.
Proof.
  intros Hr. induction n as [|n IH]; [done|]. rewrite <-IH. simpl.
  split; [|intros ->; done]. intros E. apply Rand_mix_inj; [by apply rand_iter_ok|done|by rewrite E].
Qed.

Lemma lxor_zero a b : Z.lxor a b = 0 <-> a = b.
Proof. split; [apply Z.lxor_eq|intros ->; apply Z.lxor_nilpotent]. Qed.

(** A seeded generator is stuck exactly for one seed: the state after any
    number of steps is all zero, and every number drawn is then 0, if and only
    if the 32-bit seed is 0x498b3bc5; no step from a seed leaves the 32-bit
    ranges. *)
Theorem reseed_u32_stuck seed n :
  in_u 32 seed ->
  rand_ok (Nat.iter n Rand_mix (reseed_u32 seed)) /\
  (Nat.iter n Rand_mix (reseed_u32 seed) = rand_zero <-> seed = 0x498b3bc5) /\
  (seed = 0x498b3bc5 -> rand_u32 (Nat.iter n Rand_mix (reseed_u32 seed)) = (0, rand_zero)).
Proof.
  intros Hs. unfold reseed_u32. set (r0 := MkRand _ 0 0 0).
  assert (Hr0 : rand_ok r0).
  { split_and!; try done. apply in_u_lxor; [lia|done|done]. }
  assert (Hz : r0 = rand_zero <-> seed = 0x498b3bc5).
  { split; [intros [= E]; symmetry; by apply lxor_zero|]. intros ->. reflexivity. }
  split; [by apply rand_iter_ok, rand_iter_ok|].
  split; [rewrite !rand_iter_zero by (done || by apply rand_iter_ok); done|].
  intros E. by rewrite (proj2 (rand_iter_zero n _ (rand_iter_ok 10 _ Hr0)))
    by (apply rand_iter_zero; [done|by apply Hz]).
Qed.

Lemma reseed_u32_stuck_witness :
  Nat.iter 3 Rand_mix (reseed_u32 0x498b3bc5) = rand_zero.
Proof. by apply (reseed_u32_stuck 0x498b3bc5 3). Defined.

(** ** Filling a buffer *)
Lemma rand_u32_range r : rand_ok r -> in_u 32 (rand_u32 r).1.
Proof. intros Hr. by apply Rand_mix_ok in Hr as (? & _). Qed.

(** The [i]-th number drawn from [r]. *)
Definition draw (r : Rand) (i : nat) : Z := x (Nat.iter (S i) Rand_mix r).

Lemma draw_S r i : draw (Rand_mix r) i = draw r (S i).
Proof. unfold draw. by rewrite <-!Nat.iter_succ_r. Qed.

(** What [rand_p] stores in byte [i] of a buffer of [bytes]. *)
Definition rand_byte (r : Rand) (bytes i : Z) : Z :=
  let whole := bytes / 4 * 4 in
  if i <? whole then u8 (Z.shiftr (draw r (Z.to_nat (i / 4))) (8 * (i mod 4)))
  else u8 (draw r (Z.to_nat (bytes / 4 + (i - whole)))).

Lemma rand_blocks_ok fuel : forall blocks bytes r mem,
  0 <= bytes -> (Z.to_nat bytes < fuel)%nat ->
  exists mem', rand_blocks fuel blocks bytes r mem =
    Done (blocks + bytes / 4 * 4, bytes mod 4, Nat.iter (Z.to_nat (bytes / 4)) Rand_mix r, mem') /\
  forall q, mem' q = if decide (blocks <= q < blocks + bytes / 4 * 4)
    then u8 (Z.shiftr (draw r (Z.to_nat ((q - blocks) / 4))) (8 * ((q - blocks) mod 4))) else mem q.
Proof.
  induction fuel as [|fuel IH]; intros blocks bytes r mem Hb Hf; [lia|]. cbn [rand_blocks].
  destruct (Z.leb_spec 4 bytes).
  - unfold rand_u32. destruct (IH (blocks + 4) (bytes - 4) (Rand_mix r) (wr32 blocks (x (Rand_mix r)) mem))
      as (mem' & -> & Hm); [lia|lia|].
    assert (Hd : bytes / 4 = (bytes - 4) / 4 + 1).
    { rewrite <-Z.div_add by lia. f_equal. lia. }
    assert (Hmod : (bytes - 4) mod 4 = bytes mod 4).
    { replace (bytes - 4) with (bytes + (-1) * 4) by lia. apply Z_mod_plus_full. }
    assert (0 <= (bytes - 4) / 4) by (apply Z.div_pos; lia).
    exists mem'. split.
    + rewrite Hmod, Hd. replace (blocks + 4 + (bytes - 4) / 4 * 4) with (blocks + ((bytes - 4) / 4 + 1) * 4) by lia.
      rewrite Z2Nat.inj_add, Nat.add_1_r by lia. by rewrite Nat.iter_succ_r.
    + intros q. rewrite Hm. destruct (decide (blocks <= q < blocks + 4)) as [Hq|Hq].
      * rewrite decide_False, decide_True by lia.
        replace q with (blocks + (q - blocks)) at 1 by lia. rewrite wr32_byte by lia.
        rewrite Z.div_small, (Z.mod_small (q - blocks)) by lia. done.
      * destruct (decide (blocks + 4 <= q < blocks + 4 + (bytes - 4) / 4 * 4)).
        -- rewrite decide_True by lia. rewrite draw_S.
           replace (q - (blocks + 4)) with (q - blocks + (-1) * 4) by lia.
           rewrite Z_mod_plus_full, Z_div_plus_full by lia.
           assert (1 <= (q - blocks) / 4) by (apply Z.div_le_lower_bound; lia).
           rewrite <-Z2Nat.inj_succ by lia. do 4 f_equal. lia.
        -- rewrite decide_False by lia. apply wr32_ne. lia.
  - exists mem. rewrite Z.div_small, Z.mod_small by lia. split; [do 3 f_equal; simpl; f_equal; lia|].
    intros q. by rewrite decide_False by lia.
Qed.

Lemma rand_tail_ok n : forall tail r mem q,
  rand_tail n tail r mem = (Nat.iter n Rand_mix r, (rand_tail n tail r mem).2) /\
  (rand_tail n tail r mem).2 q =
    if decide (tail <= q < tail + Z.of_nat n) then u8 (draw r (Z.to_nat (q - tail))) else mem q.
Proof.
  induction n as [|n IH]; intros tail r mem q.
  - split; [done|]. by rewrite decide_False by lia.
  - cbn [rand_tail rand_u32].
    destruct (IH (tail + 1) (Rand_mix r) (wr8 tail (x (Rand_mix r)) mem) q) as [E1 E2]. split.
    + rewrite E1 at 1. f_equal. by rewrite <-Nat.iter_succ_r.
    + rewrite E2. destruct (decide (q = tail)) as [->|].
      * rewrite decide_False, decide_True by lia. rewrite wr8_eq. do 2 f_equal. by rewrite Z.sub_diag.
      * destruct (decide (tail + 1 <= q < tail + 1 + Z.of_nat n)).
        -- rewrite decide_True by lia. rewrite draw_S. do 2 f_equal. lia.
        -- rewrite decide_False by lia. by apply wr8_ne.
Qed.

(** [rand_p] terminates for every length, draws one number per whole word
    of the buffer and one per byte of the rest, stores word [i / 4] of the
    stream at byte [i] and changes nothing outside the buffer; a length below 1
    writes nothing. *)
Theorem rand_p_fills blob bytes r mem :
  exists mem', rand_p blob bytes r mem =
    Done (Nat.iter (Z.to_nat (if 0 <=? bytes then bytes / 4 + (bytes mod 4) else 0)) Rand_mix r, mem') /\
  forall q, mem' q = if decide (blob <= q < blob + bytes) then rand_byte r bytes (q - blob) else mem q.
Proof.
  unfold rand_p. destruct (Z.leb_spec 0 bytes) as [Hb|Hb].
  - destruct (rand_blocks_ok (S (Z.to_nat bytes)) blob bytes r mem) as (m1 & -> & Hm1); [done|lia|].
    pose proof (Z.mod_pos_bound bytes 4). pose proof (Z_div_mod_eq_full bytes 4).
    assert (0 <= bytes / 4) by (apply Z.div_pos; lia).
    cbn [mbind outcome_bind]. set (r1 := Nat.iter (Z.to_nat (bytes / 4)) Rand_mix r).
    eexists. split.
    + f_equal. rewrite (proj1 (rand_tail_ok _ _ _ _ 0)). f_equal. unfold r1.
      rewrite <-Nat.iter_add. f_equal. lia.
    + intros q. rewrite (proj2 (rand_tail_ok _ _ _ _ q)), Z2Nat.id by lia. rewrite Hm1. unfold rand_byte.
      destruct (decide (blob <= q < blob + bytes)).
      * destruct (Z.ltb_spec (q - blob) (bytes / 4 * 4)).
        -- rewrite decide_False, decide_True by lia. done.
        -- rewrite decide_True by lia. unfold draw, r1. rewrite <-Nat.iter_add.
           f_equal. f_equal. f_equal. lia.
      * by rewrite !decide_False by lia.
  - exists mem. assert (E : (4 <=? bytes) = false) by lia.
    replace (Z.to_nat bytes) with 0%nat by lia. cbn [rand_blocks]. rewrite E. cbn [mbind outcome_bind].
    replace (Z.to_nat bytes) with 0%nat by lia. cbn [rand_tail]. split; [done|].
    intros q. by rewrite decide_False by lia.
Qed.
