(* ===== verification/Base64.v ===== *)
(** * base/src/base64.cpp

    The encoder writes to [dest] from table lookups; the decoder reads the input
    four bytes at a time through a [uint32_t] pointer and ors four table
    entries.  Both work on one memory, so that the aliasing of [str] and [dest]
    is the code's.  [b64] and [unb64] are the reference codec on byte lists.
    The theorems: the two functions compute the reference codec, the decoder
    even in place, touch nothing else, and the codec round-trips; the padded
    output of the encoder, however, is not accepted by the decoder. *)
From S2P Require Import Prelude Words Memory.

Definition CHARPAD : Z := 61.
Definition BADCHAR : Z := 0x01FFFFFF.

Definition e0 : list Z := [
  65; 65; 65; 65; 66; 66; 66; 66; 67; 67; 67; 67; 68; 68; 68; 68; 69; 69; 69; 69;
  70; 70; 70; 70; 71; 71; 71; 71; 72; 72; 72; 72; 73; 73; 73; 73; 74; 74; 74; 74;
  75; 75; 75; 75; 76; 76; 76; 76; 77; 77; 77; 77; 78; 78; 78; 78; 79; 79; 79; 79;
  80; 80; 80; 80; 81; 81; 81; 81; 82; 82; 82; 82; 83; 83; 83; 83; 84; 84; 84; 84;
  85; 85; 85; 85; 86; 86; 86; 86; 87; 87; 87; 87; 88; 88; 88; 88; 89; 89; 89; 89;
  90; 90; 90; 90; 97; 97; 97; 97; 98; 98; 98; 98; 99; 99; 99; 99; 100; 100; 100; 100;
  101; 101; 101; 101; 102; 102; 102; 102; 103; 103; 103; 103; 104; 104; 104; 104; 105; 105; 105; 105;
  106; 106; 106; 106; 107; 107; 107; 107; 108; 108; 108; 108; 109; 109; 109; 109; 110; 110; 110; 110;
  111; 111; 111; 111; 112; 112; 112; 112; 113; 113; 113; 113; 114; 114; 114; 114; 115; 115; 115; 115;
  116; 116; 116; 116; 117; 117; 117; 117; 118; 118; 118; 118; 119; 119; 119; 119; 120; 120; 120; 120;
  121; 121; 121; 121; 122; 122; 122; 122; 48; 48; 48; 48; 49; 49; 49; 49; 50; 50; 50; 50;
  51; 51; 51; 51; 52; 52; 52; 52; 53; 53; 53; 53; 54; 54; 54; 54; 55; 55; 55; 55;
  56; 56; 56; 56; 57; 57; 57; 57; 43; 43; 43; 43; 47; 47; 47; 47].

Definition e1 : list Z := [
  65; 66; 67; 68; 69; 70; 71; 72; 73; 74; 75; 76; 77; 78; 79; 80; 81; 82; 83; 84;
  85; 86; 87; 88; 89; 90; 97; 98; 99; 100; 101; 102; 103; 104; 105; 106; 107; 108; 109; 110;
  111; 112; 113; 114; 115; 116; 117; 118; 119; 120; 121; 122; 48; 49; 50; 51; 52; 53; 54; 55;
  56; 57; 43; 47; 65; 66; 67; 68; 69; 70; 71; 72; 73; 74; 75; 76; 77; 78; 79; 80;
  81; 82; 83; 84; 85; 86; 87; 88; 89; 90; 97; 98; 99; 100; 101; 102; 103; 104; 105; 106;
  107; 108; 109; 110; 111; 112; 113; 114; 115; 116; 117; 118; 119; 120; 121; 122; 48; 49; 50; 51;
  52; 53; 54; 55; 56; 57; 43; 47; 65; 66; 67; 68; 69; 70; 71; 72; 73; 74; 75; 76;
  77; 78; 79; 80; 81; 82; 83; 84; 85; 86; 87; 88; 89; 90; 97; 98; 99; 100; 101; 102;
  103; 104; 105; 106; 107; 108; 109; 110; 111; 112; 113; 114; 115; 116; 117; 118; 119; 120; 121; 122;
  48; 49; 50; 51; 52; 53; 54; 55; 56; 57; 43; 47; 65; 66; 67; 68; 69; 70; 71; 72;
  73; 74; 75; 76; 77; 78; 79; 80; 81; 82; 83; 84; 85; 86; 87; 88; 89; 90; 97; 98;
  99; 100; 101; 102; 103; 104; 105; 106; 107; 108; 109; 110; 111; 112; 113; 114; 115; 116; 117; 118;
  119; 120; 121; 122; 48; 49; 50; 51; 52; 53; 54; 55; 56; 57; 43; 47].

Definition e2 : list Z := [
  65; 66; 67; 68; 69; 70; 71; 72; 73; 74; 75; 76; 77; 78; 79; 80; 81; 82; 83; 84;
  85; 86; 87; 88; 89; 90; 97; 98; 99; 100; 101; 102; 103; 104; 105; 106; 107; 108; 109; 110;
  111; 112; 113; 114; 115; 116; 117; 118; 119; 120; 121; 122; 48; 49; 50; 51; 52; 53; 54; 55;
  56; 57; 43; 47; 65; 66; 67; 68; 69; 70; 71; 72; 73; 74; 75; 76; 77; 78; 79; 80;
  81; 82; 83; 84; 85; 86; 87; 88; 89; 90; 97; 98; 99; 100; 101; 102; 103; 104; 105; 106;
  107; 108; 109; 110; 111; 112; 113; 114; 115; 116; 117; 118; 119; 120; 121; 122; 48; 49; 50; 51;
  52; 53; 54; 55; 56; 57; 43; 47; 65; 66; 67; 68; 69; 70; 71; 72; 73; 74; 75; 76;
  77; 78; 79; 80; 81; 82; 83; 84; 85; 86; 87; 88; 89; 90; 97; 98; 99; 100; 101; 102;
  103; 104; 105; 106; 107; 108; 109; 110; 111; 112; 113; 114; 115; 116; 117; 118; 119; 120; 121; 122;
  48; 49; 50; 51; 52; 53; 54; 55; 56; 57; 43; 47; 65; 66; 67; 68; 69; 70; 71; 72;
  73; 74; 75; 76; 77; 78; 79; 80; 81; 82; 83; 84; 85; 86; 87; 88; 89; 90; 97; 98;
  99; 100; 101; 102; 103; 104; 105; 106; 107; 108; 109; 110; 111; 112; 113; 114; 115; 116; 117; 118;
  119; 120; 121; 122; 48; 49; 50; 51; 52; 53; 54; 55; 56; 57; 43; 47].

Definition d0 : list Z := [
  0x01ffffff; 0x01ffffff; 0x01ffffff; 0x01ffffff; 0x01ffffff; 0x01ffffff; 0x01ffffff; 0x01ffffff; 0x01ffffff; 0x01ffffff;
  0x01ffffff; 0x01ffffff; 0x01ffffff; 0x01ffffff; 0x01ffffff; 0x01ffffff; 0x01ffffff; 0x01ffffff; 0x01ffffff; 0x01ffffff;
  0x01ffffff; 0x01ffffff; 0x01ffffff; 0x01ffffff; 0x01ffffff; 0x01ffffff; 0x01ffffff; 0x01ffffff; 0x01ffffff; 0x01ffffff;
  0x01ffffff; 0x01ffffff; 0x01ffffff; 0x01ffffff; 0x01ffffff; 0x01ffffff; 0x01ffffff; 0x01ffffff; 0x01ffffff; 0x01ffffff;
  0x01ffffff; 0x01ffffff; 0x01ffffff; 0x000000f8; 0x01ffffff; 0x01ffffff; 0x01ffffff; 0x000000fc; 0x000000d0; 0x000000d4;
  0x000000d8; 0x000000dc; 0x000000e0; 0x000000e4; 0x000000e8; 0x000000ec; 0x000000f0; 0x000000f4; 0x01ffffff; 0x01ffffff;
  0x01ffffff; 0x01ffffff; 0x01ffffff; 0x01ffffff; 0x01ffffff; 0x00000000; 0x00000004; 0x00000008; 0x0000000c; 0x00000010;
  0x00000014; 0x00000018; 0x0000001c; 0x00000020; 0x00000024; 0x00000028; 0x0000002c; 0x00000030; 0x00000034; 0x00000038;
  0x0000003c; 0x00000040; 0x00000044; 0x00000048; 0x0000004c; 0x00000050; 0x00000054; 0x00000058; 0x0000005c; 0x00000060;
  0x00000064; 0x01ffffff; 0x01ffffff; 0x01ffffff; 0x01ffffff; 0x01ffffff; 0x01ffffff; 0x00000068; 0x0000006c; 0x00000070;
  0x00000074; 0x00000078; 0x0000007c; 0x00000080; 0x00000084; 0x00000088; 0x0000008c; 0x00000090; 0x00000094; 0x00000098;
  0x0000009c; 0x000000a0; 0x000000a4; 0x000000a8; 0x000000ac; 0x000000b0; 0x000000b4; 0x000000b8; 0x000000bc; 0x000000c0;
  0x000000c4; 0x000000c8; 0x000000cc; 0x01ffffff; 0x01ffffff; 0x01ffffff; 0x01ffffff; 0x01ffffff; 0x01ffffff; 0x01ffffff;
  0x01ffffff; 0x01ffffff; 0x01ffffff; 0x01ffffff; 0x01ffffff; 0x01ffffff; 0x01ffffff; 0x01ffffff; 0x01ffffff; 0x01ffffff;
  0x01ffffff; 0x01ffffff; 0x01ffffff; 0x01ffffff; 0x01ffffff; 0x01ffffff; 0x01ffffff; 0x01ffffff; 0x01ffffff; 0x01ffffff;
  0x01ffffff; 0x01ffffff; 0x01ffffff; 0x01ffffff; 0x01ffffff; 0x01ffffff; 0x01ffffff; 0x01ffffff; 0x01ffffff; 0x01ffffff;
  0x01ffffff; 0x01ffffff; 0x01ffffff; 0x01ffffff; 0x01ffffff; 0x01ffffff; 0x01ffffff; 0x01ffffff; 0x01ffffff; 0x01ffffff;
  0x01ffffff; 0x01ffffff; 0x01ffffff; 0x01ffffff; 0x01ffffff; 0x01ffffff; 0x01ffffff; 0x01ffffff; 0x01ffffff; 0x01ffffff;
  0x01ffffff; 0x01ffffff; 0x01ffffff; 0x01ffffff; 0x01ffffff; 0x01ffffff; 0x01ffffff; 0x01ffffff; 0x01ffffff; 0x01ffffff;
  0x01ffffff; 0x01ffffff; 0x01ffffff; 0x01ffffff; 0x01ffffff; 0x01ffffff; 0x01ffffff; 0x01ffffff; 0x01ffffff; 0x01ffffff;
  0x01ffffff; 0x01ffffff; 0x01ffffff; 0x01ffffff; 0x01ffffff; 0x01ffffff; 0x01ffffff; 0x01ffffff; 0x01ffffff; 0x01ffffff;
  0x01ffffff; 0x01ffffff; 0x01ffffff; 0x01ffffff; 0x01ffffff; 0x01ffffff; 0x01ffffff; 0x01ffffff; 0x01ffffff; 0x01ffffff;
  0x01ffffff; 0x01ffffff; 0x01ffffff; 0x01ffffff; 0x01ffffff; 0x01ffffff; 0x01ffffff; 0x01ffffff; 0x01ffffff; 0x01ffffff;
  0x01ffffff; 0x01ffffff; 0x01ffffff; 0x01ffffff; 0x01ffffff; 0x01ffffff; 0x01ffffff; 0x01ffffff; 0x01ffffff; 0x01ffffff;
  0x01ffffff; 0x01ffffff; 0x01ffffff; 0x01ffffff; 0x01ffffff; 0x01ffffff; 0x01ffffff; 0x01ffffff; 0x01ffffff; 0x01ffffff;
  0x01ffffff; 0x01ffffff; 0x01ffffff; 0x01ffffff; 0x01ffffff; 0x01ffffff].

Definition d1 : list Z := [
  0x01ffffff; 0x01ffffff; 0x01ffffff; 0x01ffffff; 0x01ffffff; 0x01ffffff; 0x01ffffff; 0x01ffffff; 0x01ffffff; 0x01ffffff;
  0x01ffffff; 0x01ffffff; 0x01ffffff; 0x01ffffff; 0x01ffffff; 0x01ffffff; 0x01ffffff; 0x01ffffff; 0x01ffffff; 0x01ffffff;
  0x01ffffff; 0x01ffffff; 0x01ffffff; 0x01ffffff; 0x01ffffff; 0x01ffffff; 0x01ffffff; 0x01ffffff; 0x01ffffff; 0x01ffffff;
  0x01ffffff; 0x01ffffff; 0x01ffffff; 0x01ffffff; 0x01ffffff; 0x01ffffff; 0x01ffffff; 0x01ffffff; 0x01ffffff; 0x01ffffff;
  0x01ffffff; 0x01ffffff; 0x01ffffff; 0x0000e003; 0x01ffffff; 0x01ffffff; 0x01ffffff; 0x0000f003; 0x00004003; 0x00005003;
  0x00006003; 0x00007003; 0x00008003; 0x00009003; 0x0000a003; 0x0000b003; 0x0000c003; 0x0000d003; 0x01ffffff; 0x01ffffff;
  0x01ffffff; 0x01ffffff; 0x01ffffff; 0x01ffffff; 0x01ffffff; 0x00000000; 0x00001000; 0x00002000; 0x00003000; 0x00004000;
  0x00005000; 0x00006000; 0x00007000; 0x00008000; 0x00009000; 0x0000a000; 0x0000b000; 0x0000c000; 0x0000d000; 0x0000e000;
  0x0000f000; 0x00000001; 0x00001001; 0x00002001; 0x00003001; 0x00004001; 0x00005001; 0x00006001; 0x00007001; 0x00008001;
  0x00009001; 0x01ffffff; 0x01ffffff; 0x01ffffff; 0x01ffffff; 0x01ffffff; 0x01ffffff; 0x0000a001; 0x0000b001; 0x0000c001;
  0x0000d001; 0x0000e001; 0x0000f001; 0x00000002; 0x00001002; 0x00002002; 0x00003002; 0x00004002; 0x00005002; 0x00006002;
  0x00007002; 0x00008002; 0x00009002; 0x0000a002; 0x0000b002; 0x0000c002; 0x0000d002; 0x0000e002; 0x0000f002; 0x00000003;
  0x00001003; 0x00002003; 0x00003003; 0x01ffffff; 0x01ffffff; 0x01ffffff; 0x01ffffff; 0x01ffffff; 0x01ffffff; 0x01ffffff;
  0x01ffffff; 0x01ffffff; 0x01ffffff; 0x01ffffff; 0x01ffffff; 0x01ffffff; 0x01ffffff; 0x01ffffff; 0x01ffffff; 0x01ffffff;
  0x01ffffff; 0x01ffffff; 0x01ffffff; 0x01ffffff; 0x01ffffff; 0x01ffffff; 0x01ffffff; 0x01ffffff; 0x01ffffff; 0x01ffffff;
  0x01ffffff; 0x01ffffff; 0x01ffffff; 0x01ffffff; 0x01ffffff; 0x01ffffff; 0x01ffffff; 0x01ffffff; 0x01ffffff; 0x01ffffff;
  0x01ffffff; 0x01ffffff; 0x01ffffff; 0x01ffffff; 0x01ffffff; 0x01ffffff; 0x01ffffff; 0x01ffffff; 0x01ffffff; 0x01ffffff;
  0x01ffffff; 0x01ffffff; 0x01ffffff; 0x01ffffff; 0x01ffffff; 0x01ffffff; 0x01ffffff; 0x01ffffff; 0x01ffffff; 0x01ffffff;
  0x01ffffff; 0x01ffffff; 0x01ffffff; 0x01ffffff; 0x01ffffff; 0x01ffffff; 0x01ffffff; 0x01ffffff; 0x01ffffff; 0x01ffffff;
  0x01ffffff; 0x01ffffff; 0x01ffffff; 0x01ffffff; 0x01ffffff; 0x01ffffff; 0x01ffffff; 0x01ffffff; 0x01ffffff; 0x01ffffff;
  0x01ffffff; 0x01ffffff; 0x01ffffff; 0x01ffffff; 0x01ffffff; 0x01ffffff; 0x01ffffff; 0x01ffffff; 0x01ffffff; 0x01ffffff;
  0x01ffffff; 0x01ffffff; 0x01ffffff; 0x01ffffff; 0x01ffffff; 0x01ffffff; 0x01ffffff; 0x01ffffff; 0x01ffffff; 0x01ffffff;
  0x01ffffff; 0x01ffffff; 0x01ffffff; 0x01ffffff; 0x01ffffff; 0x01ffffff; 0x01ffffff; 0x01ffffff; 0x01ffffff; 0x01ffffff;
  0x01ffffff; 0x01ffffff; 0x01ffffff; 0x01ffffff; 0x01ffffff; 0x01ffffff; 0x01ffffff; 0x01ffffff; 0x01ffffff; 0x01ffffff;
  0x01ffffff; 0x01ffffff; 0x01ffffff; 0x01ffffff; 0x01ffffff; 0x01ffffff; 0x01ffffff; 0x01ffffff; 0x01ffffff; 0x01ffffff;
  0x01ffffff; 0x01ffffff; 0x01ffffff; 0x01ffffff; 0x01ffffff; 0x01ffffff].

Definition d2 : list Z := [
  0x01ffffff; 0x01ffffff; 0x01ffffff; 0x01ffffff; 0x01ffffff; 0x01ffffff; 0x01ffffff; 0x01ffffff; 0x01ffffff; 0x01ffffff;
  0x01ffffff; 0x01ffffff; 0x01ffffff; 0x01ffffff; 0x01ffffff; 0x01ffffff; 0x01ffffff; 0x01ffffff; 0x01ffffff; 0x01ffffff;
  0x01ffffff; 0x01ffffff; 0x01ffffff; 0x01ffffff; 0x01ffffff; 0x01ffffff; 0x01ffffff; 0x01ffffff; 0x01ffffff; 0x01ffffff;
  0x01ffffff; 0x01ffffff; 0x01ffffff; 0x01ffffff; 0x01ffffff; 0x01ffffff; 0x01ffffff; 0x01ffffff; 0x01ffffff; 0x01ffffff;
  0x01ffffff; 0x01ffffff; 0x01ffffff; 0x00800f00; 0x01ffffff; 0x01ffffff; 0x01ffffff; 0x00c00f00; 0x00000d00; 0x00400d00;
  0x00800d00; 0x00c00d00; 0x00000e00; 0x00400e00; 0x00800e00; 0x00c00e00; 0x00000f00; 0x00400f00; 0x01ffffff; 0x01ffffff;
  0x01ffffff; 0x01ffffff; 0x01ffffff; 0x01ffffff; 0x01ffffff; 0x00000000; 0x00400000; 0x00800000; 0x00c00000; 0x00000100;
  0x00400100; 0x00800100; 0x00c00100; 0x00000200; 0x00400200; 0x00800200; 0x00c00200; 0x00000300; 0x00400300; 0x00800300;
  0x00c00300; 0x00000400; 0x00400400; 0x00800400; 0x00c00400; 0x00000500; 0x00400500; 0x00800500; 0x00c00500; 0x00000600;
  0x00400600; 0x01ffffff; 0x01ffffff; 0x01ffffff; 0x01ffffff; 0x01ffffff; 0x01ffffff; 0x00800600; 0x00c00600; 0x00000700;
  0x00400700; 0x00800700; 0x00c00700; 0x00000800; 0x00400800; 0x00800800; 0x00c00800; 0x00000900; 0x00400900; 0x00800900;
  0x00c00900; 0x00000a00; 0x00400a00; 0x00800a00; 0x00c00a00; 0x00000b00; 0x00400b00; 0x00800b00; 0x00c00b00; 0x00000c00;
  0x00400c00; 0x00800c00; 0x00c00c00; 0x01ffffff; 0x01ffffff; 0x01ffffff; 0x01ffffff; 0x01ffffff; 0x01ffffff; 0x01ffffff;
  0x01ffffff; 0x01ffffff; 0x01ffffff; 0x01ffffff; 0x01ffffff; 0x01ffffff; 0x01ffffff; 0x01ffffff; 0x01ffffff; 0x01ffffff;
  0x01ffffff; 0x01ffffff; 0x01ffffff; 0x01ffffff; 0x01ffffff; 0x01ffffff; 0x01ffffff; 0x01ffffff; 0x01ffffff; 0x01ffffff;
  0x01ffffff; 0x01ffffff; 0x01ffffff; 0x01ffffff; 0x01ffffff; 0x01ffffff; 0x01ffffff; 0x01ffffff; 0x01ffffff; 0x01ffffff;
  0x01ffffff; 0x01ffffff; 0x01ffffff; 0x01ffffff; 0x01ffffff; 0x01ffffff; 0x01ffffff; 0x01ffffff; 0x01ffffff; 0x01ffffff;
  0x01ffffff; 0x01ffffff; 0x01ffffff; 0x01ffffff; 0x01ffffff; 0x01ffffff; 0x01ffffff; 0x01ffffff; 0x01ffffff; 0x01ffffff;
  0x01ffffff; 0x01ffffff; 0x01ffffff; 0x01ffffff; 0x01ffffff; 0x01ffffff; 0x01ffffff; 0x01ffffff; 0x01ffffff; 0x01ffffff;
  0x01ffffff; 0x01ffffff; 0x01ffffff; 0x01ffffff; 0x01ffffff; 0x01ffffff; 0x01ffffff; 0x01ffffff; 0x01ffffff; 0x01ffffff;
  0x01ffffff; 0x01ffffff; 0x01ffffff; 0x01ffffff; 0x01ffffff; 0x01ffffff; 0x01ffffff; 0x01ffffff; 0x01ffffff; 0x01ffffff;
  0x01ffffff; 0x01ffffff; 0x01ffffff; 0x01ffffff; 0x01ffffff; 0x01ffffff; 0x01ffffff; 0x01ffffff; 0x01ffffff; 0x01ffffff;
  0x01ffffff; 0x01ffffff; 0x01ffffff; 0x01ffffff; 0x01ffffff; 0x01ffffff; 0x01ffffff; 0x01ffffff; 0x01ffffff; 0x01ffffff;
  0x01ffffff; 0x01ffffff; 0x01ffffff; 0x01ffffff; 0x01ffffff; 0x01ffffff; 0x01ffffff; 0x01ffffff; 0x01ffffff; 0x01ffffff;
  0x01ffffff; 0x01ffffff; 0x01ffffff; 0x01ffffff; 0x01ffffff; 0x01ffffff; 0x01ffffff; 0x01ffffff; 0x01ffffff; 0x01ffffff;
  0x01ffffff; 0x01ffffff; 0x01ffffff; 0x01ffffff; 0x01ffffff; 0x01ffffff].

Definition d3 : list Z := [
  0x01ffffff; 0x01ffffff; 0x01ffffff; 0x01ffffff; 0x01ffffff; 0x01ffffff; 0x01ffffff; 0x01ffffff; 0x01ffffff; 0x01ffffff;
  0x01ffffff; 0x01ffffff; 0x01ffffff; 0x01ffffff; 0x01ffffff; 0x01ffffff; 0x01ffffff; 0x01ffffff; 0x01ffffff; 0x01ffffff;
  0x01ffffff; 0x01ffffff; 0x01ffffff; 0x01ffffff; 0x01ffffff; 0x01ffffff; 0x01ffffff; 0x01ffffff; 0x01ffffff; 0x01ffffff;
  0x01ffffff; 0x01ffffff; 0x01ffffff; 0x01ffffff; 0x01ffffff; 0x01ffffff; 0x01ffffff; 0x01ffffff; 0x01ffffff; 0x01ffffff;
  0x01ffffff; 0x01ffffff; 0x01ffffff; 0x003e0000; 0x01ffffff; 0x01ffffff; 0x01ffffff; 0x003f0000; 0x00340000; 0x00350000;
  0x00360000; 0x00370000; 0x00380000; 0x00390000; 0x003a0000; 0x003b0000; 0x003c0000; 0x003d0000; 0x01ffffff; 0x01ffffff;
  0x01ffffff; 0x01ffffff; 0x01ffffff; 0x01ffffff; 0x01ffffff; 0x00000000; 0x00010000; 0x00020000; 0x00030000; 0x00040000;
  0x00050000; 0x00060000; 0x00070000; 0x00080000; 0x00090000; 0x000a0000; 0x000b0000; 0x000c0000; 0x000d0000; 0x000e0000;
  0x000f0000; 0x00100000; 0x00110000; 0x00120000; 0x00130000; 0x00140000; 0x00150000; 0x00160000; 0x00170000; 0x00180000;
  0x00190000; 0x01ffffff; 0x01ffffff; 0x01ffffff; 0x01ffffff; 0x01ffffff; 0x01ffffff; 0x001a0000; 0x001b0000; 0x001c0000;
  0x001d0000; 0x001e0000; 0x001f0000; 0x00200000; 0x00210000; 0x00220000; 0x00230000; 0x00240000; 0x00250000; 0x00260000;
  0x00270000; 0x00280000; 0x00290000; 0x002a0000; 0x002b0000; 0x002c0000; 0x002d0000; 0x002e0000; 0x002f0000; 0x00300000;
  0x00310000; 0x00320000; 0x00330000; 0x01ffffff; 0x01ffffff; 0x01ffffff; 0x01ffffff; 0x01ffffff; 0x01ffffff; 0x01ffffff;
  0x01ffffff; 0x01ffffff; 0x01ffffff; 0x01ffffff; 0x01ffffff; 0x01ffffff; 0x01ffffff; 0x01ffffff; 0x01ffffff; 0x01ffffff;
  0x01ffffff; 0x01ffffff; 0x01ffffff; 0x01ffffff; 0x01ffffff; 0x01ffffff; 0x01ffffff; 0x01ffffff; 0x01ffffff; 0x01ffffff;
  0x01ffffff; 0x01ffffff; 0x01ffffff; 0x01ffffff; 0x01ffffff; 0x01ffffff; 0x01ffffff; 0x01ffffff; 0x01ffffff; 0x01ffffff;
  0x01ffffff; 0x01ffffff; 0x01ffffff; 0x01ffffff; 0x01ffffff; 0x01ffffff; 0x01ffffff; 0x01ffffff; 0x01ffffff; 0x01ffffff;
  0x01ffffff; 0x01ffffff; 0x01ffffff; 0x01ffffff; 0x01ffffff; 0x01ffffff; 0x01ffffff; 0x01ffffff; 0x01ffffff; 0x01ffffff;
  0x01ffffff; 0x01ffffff; 0x01ffffff; 0x01ffffff; 0x01ffffff; 0x01ffffff; 0x01ffffff; 0x01ffffff; 0x01ffffff; 0x01ffffff;
  0x01ffffff; 0x01ffffff; 0x01ffffff; 0x01ffffff; 0x01ffffff; 0x01ffffff; 0x01ffffff; 0x01ffffff; 0x01ffffff; 0x01ffffff;
  0x01ffffff; 0x01ffffff; 0x01ffffff; 0x01ffffff; 0x01ffffff; 0x01ffffff; 0x01ffffff; 0x01ffffff; 0x01ffffff; 0x01ffffff;
  0x01ffffff; 0x01ffffff; 0x01ffffff; 0x01ffffff; 0x01ffffff; 0x01ffffff; 0x01ffffff; 0x01ffffff; 0x01ffffff; 0x01ffffff;
  0x01ffffff; 0x01ffffff; 0x01ffffff; 0x01ffffff; 0x01ffffff; 0x01ffffff; 0x01ffffff; 0x01ffffff; 0x01ffffff; 0x01ffffff;
  0x01ffffff; 0x01ffffff; 0x01ffffff; 0x01ffffff; 0x01ffffff; 0x01ffffff; 0x01ffffff; 0x01ffffff; 0x01ffffff; 0x01ffffff;
  0x01ffffff; 0x01ffffff; 0x01ffffff; 0x01ffffff; 0x01ffffff; 0x01ffffff; 0x01ffffff; 0x01ffffff; 0x01ffffff; 0x01ffffff;
  0x01ffffff; 0x01ffffff; 0x01ffffff; 0x01ffffff; 0x01ffffff; 0x01ffffff].

(** table[i] for a table of 256 entries. *)
Definition at_ (t : list Z) (i : Z) : Z := nth (Z.to_nat i) t 0.

(** ** base64_encode *)

(** *p++ = c, where c is a char. *)
Definition put_char (c : Z) (s : Z * memory) : Z * memory := (s.1 + 1, wr8 s.1 c s.2).

Definition enc_index1 (t1 t2 : Z) : Z :=
  Z.lor (Z.shiftl (Z.land t1 0x03) 4) (Z.land (Z.shiftr t2 4) 0x0F).
Definition enc_index2 (t2 t3 : Z) : Z :=
  Z.lor (Z.shiftl (Z.land t2 0x0F) 2) (Z.land (Z.shiftr t3 6) 0x03).

Fixpoint enc_loop (fuel : nat) (str len i p : Z) (mem : memory) : outcome (Z * (Z * memory)) :=
  match fuel with
  | O => NoFuel
  | S fuel =>
      if i <? len - 2 then
        let t1 := mem (str + i) in let t2 := mem (str + i + 1) in let t3 := mem (str + i + 2) in
        let s := put_char (at_ e0 t1) (p, mem) in
        let s := put_char (at_ e1 (enc_index1 t1 t2)) s in
        let s := put_char (at_ e1 (enc_index2 t2 t3)) s in
        let s := put_char (at_ e2 t3) s in
        enc_loop fuel str len (i + 3) s.1 s.2
      else Done (i, (p, mem))
  end.

(** The switch on [len - i]. *)
Definition enc_tail (str len i : Z) (s : Z * memory) : Z * memory :=
  if len - i =? 0 then s
  else if len - i =? 1 then
    let t1 := s.2 (str + i) in
    let s := put_char (at_ e0 t1) s in
    let s := put_char (at_ e1 (Z.shiftl (Z.land t1 0x03) 4)) s in
    put_char CHARPAD (put_char CHARPAD s)
  else
    let t1 := s.2 (str + i) in let t2 := s.2 (str + i + 1) in
    let s := put_char (at_ e0 t1) s in
    let s := put_char (at_ e1 (enc_index1 t1 t2)) s in
    let s := put_char (at_ e2 (Z.shiftl (Z.land t2 0x0F) 2)) s in
    put_char CHARPAD s.

Definition base64_encode (str len dest : Z) (mem : memory) : outcome (Z * memory) :=
  r ← enc_loop (S (Z.to_nat len)) str len 0 dest mem;
  let '(p, mem) := enc_tail str len r.1 r.2 in
  Done (p - dest, wr8 p 0 mem).

(** ** base64_decode *)
Definition dec_word (y : Z) : Z :=
  Z.lor (Z.lor (Z.lor (at_ d0 (Z.land y 0xff)) (at_ d1 (Z.land (Z.shiftr y 8) 0xff)))
    (at_ d2 (Z.land (Z.shiftr y 16) 0xff))) (at_ d3 (Z.land (Z.shiftr y 24) 0xff)).

(** The loop over the chunks: [y] is the word already read, [srcInt] the next.
    [None] is the return of -1. *)
Fixpoint dec_loop (n : nat) (y srcInt p : Z) (mem : memory) : option (Z * Z) * memory :=
  match n with
  | O => (Some (y, p), mem)
  | S n =>
      let x := dec_word y in
      if BADCHAR <=? x then (None, mem)
      else
        let mem := wr32 p x mem in
        dec_loop n (rd32 mem srcInt) (srcInt + 4) (p + 3) mem
  end.

(** Byte [i] of the word [x] in memory. *)
Definition byte_of (x i : Z) : Z := Z.land (Z.shiftr x (8 * i)) 0xff.

(** The switch on [leftover]. *)
Definition dec_tail (leftover chunks y p : Z) (mem : memory) : Z * memory :=
  if leftover =? 0 then
    let x := dec_word y in
    if BADCHAR <=? x then (-1, mem)
    else ((chunks + 1) * 3, wr8 (p + 2) (byte_of x 2) (wr8 (p + 1) (byte_of x 1) (wr8 p (byte_of x 0) mem)))
  else
    let '(x, mem) :=
      if leftover =? 1 then
        let x := at_ d0 (Z.land y 0xff) in (x, wr8 p (byte_of x 0) mem)
      else if leftover =? 2 then
        let x := Z.lor (at_ d0 (Z.land y 0xff)) (at_ d1 (Z.land (Z.shiftr y 8) 0xff)) in
        (x, wr8 p (byte_of x 0) mem)
      else
        let x := Z.lor (Z.lor (at_ d0 (Z.land y 0xff)) (at_ d1 (Z.land (Z.shiftr y 8) 0xff)))
          (at_ d2 (Z.land (Z.shiftr y 16) 0xff)) in
        (x, wr8 (p + 1) (byte_of x 1) (wr8 p (byte_of x 0) mem)) in
    if BADCHAR <=? x then (-1, mem) else (3 * chunks + Z.quot (6 * leftover) 8, mem).

Definition base64_decode (src len dest : Z) (mem : memory) : Z * memory :=
  if len =? 0 then (0, mem)
  else
    let leftover := Z.rem len 4 in
    let chunks := if leftover =? 0 then Z.quot len 4 - 1 else Z.quot len 4 in
    match dec_loop (Z.to_nat chunks) (rd32 mem src) (src + 4) dest mem with
    | (None, mem) => (-1, mem)
    | (Some (y, p), mem) => dec_tail leftover chunks y p mem
    end.

(** ** The reference codec *)
Definition b64_char (v : Z) : Z := at_ e1 v.

(** The value of a character of the alphabet. *)
Definition b64_val (c : Z) : option Z :=
  match list_find (fun d => d = c) (take 64 e1) with
  | Some (i, _) => Some (Z.of_nat i)
  | None => None
  end.

Fixpoint b64 (l : list Z) : list Z :=
  match l with
  | t1 :: t2 :: t3 :: l =>
      b64_char (t1 / 4) :: b64_char (t1 mod 4 * 16 + t2 / 16) ::
      b64_char (t2 mod 16 * 4 + t3 / 64) :: b64_char (t3 mod 64) :: b64 l
  | [t1; t2] =>
      [b64_char (t1 / 4); b64_char (t1 mod 4 * 16 + t2 / 16); b64_char (t2 mod 16 * 4); CHARPAD]
  | [t1] => [b64_char (t1 / 4); b64_char (t1 mod 4 * 16); CHARPAD; CHARPAD]
  | [] => []
  end.

(** The decoder takes unpadded input; a lone last character is checked and
    dropped. *)
Fixpoint unb64 (s : list Z) : option (list Z) :=
  match s with
  | [] => Some []
  | c0 :: s =>
      a ← b64_val c0;
      match s with
      | [] => Some []
      | c1 :: s =>
          b ← b64_val c1;
          let x0 := a * 4 + b / 16 in
          match s with
          | [] => Some [x0]
          | c2 :: s =>
              c ← b64_val c2;
              let x1 := b mod 16 * 16 + c / 4 in
              match s with
              | [] => Some [x0; x1]
              | c3 :: s =>
                  d ← b64_val c3;
                  l ← unb64 s;
                  Some (x0 :: x1 :: c mod 4 * 64 + d :: l)
              end
          end
      end
  end.

(** Induction three (four) elements at a time. *)
Lemma triple_ind {A} (P : list A -> Prop) :
  P [] -> (forall a, P [a]) -> (forall a b, P [a; b]) ->
  (forall a b c l, P l -> P (a :: b :: c :: l)) -> forall l, P l.
Proof.
  intros H0 H1 H2 H3. fix IH 1. intros [|a [|b [|c l]]]; [apply H0|apply H1|apply H2|apply H3, IH].
Qed.

Lemma quad_ind {A} (P : list A -> Prop) :
  P [] -> (forall a, P [a]) -> (forall a b, P [a; b]) -> (forall a b c, P [a; b; c]) ->
  (forall a b c d l, P l -> P (a :: b :: c :: d :: l)) -> forall l, P l.
Proof.
  intros H0 H1 H2 H3 H4. fix IH 1.
  intros [|a [|b [|c [|d l]]]]; [apply H0|apply H1|apply H2|apply H3|apply H4, IH].
Qed.

(** ** The tables, checked entry by entry *)
Ltac by_table1 n f := apply Z.eqb_eq; apply (upto_check n f); [vm_compute; reflexivity|assumption].

Lemma e0_char t : in_u 8 t -> at_ e0 t = b64_char (t / 4).
Proof. intros. by_table1 256%nat (fun t => at_ e0 t =? b64_char (t / 4)). Qed.

Lemma e1_char t : in_u 8 t -> at_ e1 t = b64_char (t mod 64).
Proof. intros. by_table1 256%nat (fun t => at_ e1 t =? b64_char (t mod 64)). Qed.

Lemma e2_char t : in_u 8 t -> at_ e2 t = b64_char (t mod 64).
Proof. intros. by_table1 256%nat (fun t => at_ e2 t =? b64_char (t mod 64)). Qed.

Lemma enc_index1_eq t1 t2 : in_u 8 t1 -> in_u 8 t2 -> enc_index1 t1 t2 = t1 mod 4 * 16 + t2 / 16.
Proof.
  intros H1 H2. apply Z.eqb_eq.
  apply (upto_check2 256 256 (fun t1 t2 => enc_index1 t1 t2 =? t1 mod 4 * 16 + t2 / 16));
    [vm_compute; reflexivity|done|done].
Qed.

Lemma enc_index2_eq t2 t3 : in_u 8 t2 -> in_u 8 t3 -> enc_index2 t2 t3 = t2 mod 16 * 4 + t3 / 64.
Proof.
  intros H1 H2. apply Z.eqb_eq.
  apply (upto_check2 256 256 (fun t1 t2 => enc_index2 t1 t2 =? t1 mod 16 * 4 + t2 / 64));
    [vm_compute; reflexivity|done|done].
Qed.

(** What a decoding table holds: the bits of the value, or [BADCHAR]. *)
Definition entry (f : Z -> Z) (c : Z) : Z := match b64_val c with Some v => f v | None => BADCHAR end.

Definition f0 (v : Z) : Z := v * 4.
Definition f1 (v : Z) : Z := v / 16 + v mod 16 * 4096.
Definition f2 (v : Z) : Z := v / 4 * 256 + v mod 4 * 4194304.
Definition f3 (v : Z) : Z := v * 65536.

Lemma d0_entry c : in_u 8 c -> at_ d0 c = entry f0 c.
Proof. intros. by_table1 256%nat (fun c => at_ d0 c =? entry f0 c). Qed.
Lemma d1_entry c : in_u 8 c -> at_ d1 c = entry f1 c.
Proof. intros. by_table1 256%nat (fun c => at_ d1 c =? entry f1 c). Qed.
Lemma d2_entry c : in_u 8 c -> at_ d2 c = entry f2 c.
Proof. intros. by_table1 256%nat (fun c => at_ d2 c =? entry f2 c). Qed.
Lemma d3_entry c : in_u 8 c -> at_ d3 c = entry f3 c.
Proof. intros. by_table1 256%nat (fun c => at_ d3 c =? entry f3 c). Qed.

Lemma b64_val_char v : 0 <= v < 64 -> b64_val (b64_char v) = Some v.
Proof.
  intros Hv. set (f := fun v => match b64_val (b64_char v) with Some u => u =? v | None => false end).
  assert (E : f v = true) by (apply (upto_check 64 f); [vm_compute; reflexivity|done]).
  unfold f in E. destruct (b64_val _); [|done]. f_equal. lia.
Qed.

Lemma b64_val_range c v : b64_val c = Some v -> 0 <= v < 64.
Proof.
  unfold b64_val. destruct (list_find _ _) as [[i d]|] eqn:E; [|done]. intros [= <-].
  apply list_find_Some in E as (E & _). apply lookup_lt_Some in E. change (length (take 64 e1)) with 64%nat in E. lia.
Qed.

(** ** The words the decoder assembles *)
Lemma lor_bad_l a b : a = BADCHAR -> in_u 25 b -> Z.lor a b = BADCHAR.
Proof.
  intros -> Hb. change BADCHAR with (Z.ones 25). apply Z.bits_inj'. intros n Hn.
  rewrite Z.lor_spec. destruct (Z.ltb_spec n 25).
  - by rewrite Z.ones_spec_low by lia.
  - apply in_u_testbit in Hb as [_ Hb]; [|done]. rewrite Z.ones_spec_high by lia. by rewrite Hb.
Qed.

Lemma lor_bad_r a b : in_u 25 a -> b = BADCHAR -> Z.lor a b = BADCHAR.
Proof. intros. rewrite Z.lor_comm. by apply lor_bad_l. Qed.

Lemma entry_25 f c : (forall v, 0 <= v < 64 -> in_u 24 (f v)) -> in_u 25 (entry f c).
Proof.
  intros Hf. unfold entry. destruct (b64_val c) as [v|] eqn:E; [|done].
  apply b64_val_range, Hf in E. unfold in_u in *. lia.
Qed.

Lemma f0_range v : 0 <= v < 64 -> in_u 24 (f0 v).
Proof. unfold in_u, f0. lia. Qed.
Lemma f1_range v : 0 <= v < 64 -> in_u 24 (f1 v).
Proof. unfold in_u, f1. intros. pose proof (Z.mod_pos_bound v 16). pose proof (Z.div_pos v 16). pose proof (Z.div_le_upper_bound v 16 4). lia. Qed.
Lemma f2_range v : 0 <= v < 64 -> in_u 24 (f2 v).
Proof.
  unfold in_u, f2. intros. pose proof (Z.mod_pos_bound v 4). pose proof (Z.div_pos v 4).
  pose proof (Z.div_lt_upper_bound v 4 16). lia.
Qed.
Lemma f3_range v : 0 <= v < 64 -> in_u 24 (f3 v).
Proof. unfold in_u, f3. lia. Qed.

#[local] Hint Resolve entry_25 f0_range f1_range f2_range f3_range : word.

Lemma f01_sum a b : 0 <= a < 64 -> 0 <= b < 64 -> Z.lor (f0 a) (f1 b) = a * 4 + b / 16 + 256 * (b mod 16 * 16).
Proof.
  intros. apply Z.eqb_eq.
  apply (upto_check2 64 64 (fun a b => Z.lor (f0 a) (f1 b) =? a * 4 + b / 16 + 256 * (b mod 16 * 16)));
    [vm_compute; reflexivity|done|done].
Qed.

Lemma f12_bits b c : 0 <= b < 64 -> 0 <= c < 64 ->
  Z.lor (b mod 16 * 16) (f2 c / 256) = b mod 16 * 16 + c / 4 + 256 * (c mod 4 * 64).
Proof.
  intros. apply Z.eqb_eq.
  apply (upto_check2 64 64 (fun b c => Z.lor (b mod 16 * 16) (f2 c / 256) =? b mod 16 * 16 + c / 4 + 256 * (c mod 4 * 64)));
    [vm_compute; reflexivity|done|done].
Qed.

Lemma f23_bits c d : 0 <= c < 64 -> 0 <= d < 64 -> Z.lor (c mod 4 * 64) d = c mod 4 * 64 + d.
Proof.
  intros. apply Z.eqb_eq.
  apply (upto_check2 64 64 (fun c d => Z.lor (c mod 4 * 64) d =? c mod 4 * 64 + d)); [vm_compute; reflexivity|done|done].
Qed.

(** [x + 256 y] or'ed with a multiple of 256. *)
Lemma lor_bytes x y z : in_u 8 x -> Z.lor (x + 256 * y) (256 * z) = x + 256 * Z.lor y z.
Proof.
  intros Hx. assert (E : forall t, x + 256 * t = Z.lor x (Z.shiftl t 8)).
  { intros t. rewrite lor_shiftl_add by (done || lia). lia. }
  rewrite !E, Z.shiftl_lor, Z.lor_assoc. do 2 f_equal. rewrite Z.shiftl_mul_pow2 by lia. lia.
Qed.

Lemma byte0_range a b : 0 <= a < 64 -> 0 <= b < 64 -> in_u 8 (a * 4 + b / 16).
Proof. intros. pose proof (Z.div_pos b 16). pose proof (Z.div_lt_upper_bound b 16 4). unfold in_u. lia. Qed.
Lemma byte1_range b c : 0 <= b < 64 -> 0 <= c < 64 -> in_u 8 (b mod 16 * 16 + c / 4).
Proof.
  intros. pose proof (Z.div_pos c 4). pose proof (Z.div_lt_upper_bound c 4 16). pose proof (Z.mod_pos_bound b 16).
  unfold in_u. lia.
Qed.
Lemma byte2_range c d : 0 <= c < 64 -> 0 <= d < 64 -> in_u 8 (c mod 4 * 64 + d).
Proof. intros. pose proof (Z.mod_pos_bound c 4). unfold in_u. lia. Qed.

Lemma f012_sum a b c : 0 <= a < 64 -> 0 <= b < 64 -> 0 <= c < 64 ->
  Z.lor (Z.lor (f0 a) (f1 b)) (f2 c) =
  a * 4 + b / 16 + 256 * (b mod 16 * 16 + c / 4 + 256 * (c mod 4 * 64)).
Proof.
  intros Ha Hb Hc. rewrite f01_sum by done.
  assert (E : f2 c = 256 * (f2 c / 256)).
  { unfold f2. replace (c / 4 * 256 + c mod 4 * 4194304) with ((c / 4 + c mod 4 * 16384) * 256) by lia.
    rewrite Z.div_mul by lia. lia. }
  rewrite E, lor_bytes by (by apply byte0_range). by rewrite f12_bits.
Qed.

Lemma f0123_sum a b c d : 0 <= a < 64 -> 0 <= b < 64 -> 0 <= c < 64 -> 0 <= d < 64 ->
  Z.lor (Z.lor (Z.lor (f0 a) (f1 b)) (f2 c)) (f3 d) =
  a * 4 + b / 16 + 256 * (b mod 16 * 16 + c / 4 + 256 * (c mod 4 * 64 + d)).
Proof.
  intros Ha Hb Hc Hd. rewrite f012_sum by done.
  replace (f3 d) with (256 * (256 * d)) by (unfold f3; lia).
  rewrite lor_bytes by (by apply byte0_range). rewrite lor_bytes by (by apply byte1_range).
  by rewrite f23_bits.
Qed.

(** ** The encoder computes [b64] *)
#[local] Opaque e0 e1 e2.

Lemma b64_char_byte v : u8 (b64_char v) = b64_char v.
Proof.
  apply wrap_u_id. unfold b64_char, at_. destruct (nth_in_or_default (Z.to_nat v) e1 0) as [Hin| ->]; [|done].
  assert (Hall : forallb (fun c => bool_decide (in_u 8 c)) e1 = true) by (vm_compute; reflexivity).
  rewrite forallb_forall in Hall. by apply Hall, bool_decide_eq_true in Hin.
Qed.

Lemma put4_ok c0 c1 c2 c3 p mem :
  let s := put_char c3 (put_char c2 (put_char c1 (put_char c0 (p, mem)))) in
  s.1 = p + 4 /\ stored s.2 p [u8 c0; u8 c1; u8 c2; u8 c3] /\ only p 4 mem s.2.
Proof.
  cbn [put_char fst snd stored]. split; [lia|]. split.
  - split_and!; [| | | |done].
    + rewrite !wr8_ne by lia. apply wr8_eq.
    + rewrite !(wr8_ne _ (p + 1)) by lia. apply wr8_eq.
    + rewrite (wr8_ne _ (p + 1 + 1)) by lia. apply wr8_eq.
    + apply wr8_eq.
  - intros q Hq. by rewrite !wr8_ne by lia.
Qed.

Lemma put_char_ok c s : bytes_ok s.2 -> bytes_ok (put_char c s).2.
Proof. apply wr8_ok. Qed.

Lemma enc_tail_bytes str len i s : bytes_ok s.2 -> bytes_ok (enc_tail str len i s).2.
Proof. intros. unfold enc_tail. repeat case_match; by repeat apply put_char_ok. Qed.

Lemma enc_loop_bytes fuel str len : forall i p mem r,
  bytes_ok mem -> enc_loop fuel str len i p mem = Done r -> bytes_ok r.2.2.
Proof.
  induction fuel as [|fuel IH]; intros i p mem r Hm; [done|]. cbn [enc_loop].
  destruct (i <? len - 2); [|by intros [= <-]]. apply IH. by repeat apply put_char_ok.
Qed.

Definition enc_all (fuel : nat) (str len i p : Z) (mem : memory) : outcome (Z * memory) :=
  r ← enc_loop fuel str len i p mem; Done (enc_tail str len r.1 r.2).

Lemma enc_all_ok str len l : forall fuel i p mem,
  Forall (in_u 8) l -> stored mem (str + i) l -> Z.of_nat (length l) = len - i -> (length l < fuel)%nat ->
  p + Z.of_nat (length (b64 l)) <= str + i \/ str + len <= p ->
  exists mem', enc_all fuel str len i p mem = Done (p + Z.of_nat (length (b64 l)), mem') /\
    stored mem' p (b64 l) /\ only p (Z.of_nat (length (b64 l))) mem mem'.
Proof.
  unfold enc_all.
  induction l as [|t1|t1 t2|t1 t2 t3 l IH] using triple_ind; intros fuel i p mem Hl Hst Hlen Hf Hd;
    (destruct fuel as [|fuel]; [simpl in Hf; lia|]); cbn [length Z.of_nat] in Hlen; cbn [enc_loop].
  - rewrite (proj2 (Z.ltb_ge _ _)) by lia. cbn [mbind outcome_bind fst snd]. unfold enc_tail.
    rewrite (proj2 (Z.eqb_eq _ _)) by lia. exists mem. simpl. rewrite Z.add_0_r. split_and!; [done..|apply only_refl].
  - rewrite (proj2 (Z.ltb_ge _ _)) by lia. cbn [mbind outcome_bind fst snd]. unfold enc_tail.
    rewrite (proj2 (Z.eqb_neq (len - i) 0)), (proj2 (Z.eqb_eq (len - i) 1)) by lia. cbn [snd].
    destruct Hst as [-> _]. apply Forall_cons in Hl as [H1 _].
    assert (E1 : Z.shiftl (Z.land t1 3) 4 = t1 mod 4 * 16).
    { change 3 with (Z.ones 2). rewrite Z.land_ones, Z.shiftl_mul_pow2 by lia. done. }
    rewrite E1, (e0_char t1), (e1_char (t1 mod 4 * 16)) by (done || (unfold in_u; pose proof (Z.mod_pos_bound t1 4); lia)).
    destruct (put4_ok (b64_char (t1 / 4)) (b64_char ((t1 mod 4 * 16) mod 64)) CHARPAD CHARPAD p mem) as (Hp & Hs & Ho).
    destruct (put_char CHARPAD _) as [p' m'] in *. cbn [fst snd] in *. subst p'. exists m'.
    rewrite !b64_char_byte, (Z.mod_small (t1 mod 4 * 16)) in Hs by (pose proof (Z.mod_pos_bound t1 4); lia).
    cbn [b64 length]. split_and!; done.
  - rewrite (proj2 (Z.ltb_ge _ _)) by lia. cbn [mbind outcome_bind fst snd]. unfold enc_tail.
    rewrite (proj2 (Z.eqb_neq (len - i) 0)), (proj2 (Z.eqb_neq (len - i) 1)) by lia. cbn [snd].
    destruct Hst as (-> & -> & _). apply Forall_cons in Hl as [H1 [H2 _]%Forall_cons].
    rewrite enc_index1_eq, (e0_char t1) by done.
    pose proof (Z.mod_pos_bound t1 4). pose proof (Z.mod_pos_bound t2 16). pose proof (Z.div_pos t2 16).
    pose proof (Z.div_lt_upper_bound t2 16 16). unfold in_u in *.
    assert (E1 : Z.shiftl (Z.land t2 15) 2 = t2 mod 16 * 4).
    { change 15 with (Z.ones 4). rewrite Z.land_ones, Z.shiftl_mul_pow2 by lia. done. }
    rewrite E1, (e1_char (t1 mod 4 * 16 + t2 / 16)), (e2_char (t2 mod 16 * 4)) by (unfold in_u; lia).
    match goal with |- context [put_char CHARPAD (put_char ?c2 (put_char ?c1 (put_char ?c0 _)))] =>
      destruct (put4_ok c0 c1 c2 CHARPAD p mem) as (Hp & Hs & Ho) end.
    destruct (put_char CHARPAD _) as [p' m'] in *. cbn [fst snd] in *. subst p'. exists m'.
    rewrite !b64_char_byte, !(Z.mod_small _ 64) in Hs by lia.
    cbn [b64 length]. split_and!; done.
  - rewrite (proj2 (Z.ltb_lt _ _)) by lia.
    destruct Hst as (-> & -> & Hst3 & Hst). apply Forall_cons in Hl as [H1 [H2 [H3 Hl]%Forall_cons]%Forall_cons].
    replace (str + i + 2) with (str + i + 1 + 1) by lia. rewrite Hst3.
    rewrite enc_index1_eq, enc_index2_eq, (e0_char t1), (e2_char t3) by done.
    pose proof (Z.mod_pos_bound t1 4). pose proof (Z.mod_pos_bound t2 16). pose proof (Z.div_pos t2 16).
    pose proof (Z.div_lt_upper_bound t2 16 16). pose proof (Z.div_pos t3 64). pose proof (Z.div_lt_upper_bound t3 64 4).
    unfold in_u in *. rewrite (e1_char (t1 mod 4 * 16 + t2 / 16)), (e1_char (t2 mod 16 * 4 + t3 / 64)) by (unfold in_u; lia).
    rewrite !(Z.mod_small (_ + _) 64) by lia.
    match goal with |- context [put_char ?c3 (put_char ?c2 (put_char ?c1 (put_char ?c0 _)))] =>
      destruct (put4_ok c0 c1 c2 c3 p mem) as (Hp & Hs & Ho) end.
    destruct (put_char _ _) as [p' m4] in *. cbn [fst snd] in *. subst p'. rewrite !b64_char_byte in Hs.
    cbn [b64 length] in Hd |- *.
    destruct (IH fuel (i + 3) (p + 4) m4) as (m' & E & Hs' & Ho'); [done| |lia|simpl in Hf; lia|lia|].
    { replace (str + (i + 3)) with (str + i + 1 + 1 + 1) by lia. eapply stored_only; [exact Ho|lia|done]. }
    rewrite E. exists m'. split; [do 2 f_equal; lia|]. split.
    + apply (stored_app _ _ [_; _; _; _]). split; [|exact Hs'].
      eapply stored_only; [exact Ho'|simpl; lia|exact Hs].
    + eapply only_trans; [eapply only_weaken; [exact Ho|lia|lia]|eapply only_weaken; [exact Ho'|lia|lia]].
Qed.

Lemma base64_encode_spec str len dest mem l :
  bytes_ok mem -> stored mem str l -> len = Z.of_nat (length l) ->
  dest + 4 * ((len + 2) / 3) + 1 <= str \/ str + len <= dest ->
  exists mem', base64_encode str len dest mem = Done (4 * ((len + 2) / 3), mem') /\
    Z.of_nat (length (b64 l)) = 4 * ((len + 2) / 3) /\
    stored mem' dest (b64 l ++ [0]) /\ only dest (4 * ((len + 2) / 3) + 1) mem mem'.
Proof.
  intros Hm Hst -> Hd. set (n := 4 * _) in *.
  assert (Hn : Z.of_nat (length (b64 l)) = n).
  { unfold n. clear. induction l as [|t1|t1 t2|t1 t2 t3 l IH] using triple_ind; try done.
    cbn [b64 length]. rewrite !Nat2Z.inj_succ in *. rewrite IH.
    replace (Z.succ (Z.succ (Z.succ (Z.of_nat (length l)))) + 2) with (Z.of_nat (length l) + 2 + 1 * 3) by lia.
    rewrite Z.div_add by lia. lia. }
  destruct (enc_all_ok str (Z.of_nat (length l)) l (S (Z.to_nat (Z.of_nat (length l)))) 0 dest mem)
    as (m' & E & Hs & Ho); [by eapply stored_bytes|by rewrite Z.add_0_r|lia|lia|lia|].
  unfold enc_all in E. unfold base64_encode. destruct (enc_loop _ _ _ _ _ _) as [[i [p m]]| |]; try done.
  cbn [mbind outcome_bind fst snd] in *. injection E as ->. rewrite Hn in *.
  exists (wr8 (dest + n) 0 m'). split; [do 2 f_equal; lia|]. split; [done|]. split.
  - apply stored_app. rewrite Hn. split; [|split; [apply wr8_eq|done]].
    eapply stored_only; [apply only_wr8|lia|done].
  - eapply only_trans; [eapply only_weaken; [exact Ho|lia|lia]|eapply only_weaken; [apply only_wr8|lia|lia]].
Qed.

(** ** The decoder computes [unb64] *)
#[local] Opaque d0 d1 d2 d3.

(** The word [y] holds the first four characters of [s]. *)
Definition word_has (y : Z) (s : list Z) : Prop :=
  forall i c, (i < 4)%nat -> s !! i = Some c -> Z.land (Z.shiftr y (8 * Z.of_nat i)) 0xff = c.

Lemma rd32_word_has mem p s : bytes_ok mem -> stored mem p s -> word_has (rd32 mem p) s.
Proof.
  intros Hm Hs i c Hi Hc. rewrite rd32_byte by (done || lia). revert p i Hi Hs Hc.
  assert (H : forall i p, stored mem p s -> s !! i = Some c -> mem (p + Z.of_nat i) = c); [|intros; by apply H].
  induction s as [|b s IH]; intros i p Hs Hc; [done|]. destruct Hs as [Hb Hs]. destruct i as [|i].
  - rewrite Z.add_0_r. simpl in Hc. congruence.
  - rewrite <-(IH i (p + 1)) by done. f_equal. lia.
Qed.

Lemma word_byte y s c0 c1 :
  word_has y (c0 :: c1 :: s) -> Z.land (Z.shiftr y 8) 0xff = c1.
Proof. intros Hy. exact (Hy 1%nat c1 ltac:(lia) eq_refl). Qed.

Lemma word_byte2 y s c0 c1 c2 :
  word_has y (c0 :: c1 :: c2 :: s) -> Z.land (Z.shiftr y 16) 0xff = c2.
Proof. intros Hy. exact (Hy 2%nat c2 ltac:(lia) eq_refl). Qed.

Lemma word_byte3 y s c0 c1 c2 c3 :
  word_has y (c0 :: c1 :: c2 :: c3 :: s) -> Z.land (Z.shiftr y 24) 0xff = c3.
Proof. intros Hy. exact (Hy 3%nat c3 ltac:(lia) eq_refl). Qed.

Lemma dec_half y s c0 : word_has y (c0 :: s) -> in_u 8 c0 -> at_ d0 (Z.land y 0xff) = entry f0 c0.
Proof.
  intros Hy Hc. pose proof (Hy 0%nat c0 ltac:(lia) eq_refl) as E0. rewrite Z.shiftr_0_r in E0.
  by rewrite E0, (d0_entry c0).
Qed.

Lemma dec_words y s c0 c1 c2 c3 :
  word_has y (c0 :: c1 :: c2 :: c3 :: s) -> Forall (in_u 8) [c0; c1; c2; c3] ->
  dec_word y = Z.lor (Z.lor (Z.lor (entry f0 c0) (entry f1 c1)) (entry f2 c2)) (entry f3 c3).
Proof.
  intros Hy Hc. unfold dec_word. rewrite !Forall_cons in Hc. destruct Hc as (? & ? & ? & ? & _).
  rewrite (dec_half _ _ _ Hy), (word_byte _ _ _ _ Hy), (word_byte2 _ _ _ _ _ Hy), (word_byte3 _ _ _ _ _ _ Hy) by done.
  by rewrite (d1_entry c1), (d2_entry c2), (d3_entry c3).
Qed.

#[local] Hint Resolve entry_25 f0_range f1_range f2_range f3_range : core.

Lemma entries2 c0 c1 :
  Z.lor (entry f0 c0) (entry f1 c1) =
  match b64_val c0, b64_val c1 with Some a, Some b => Z.lor (f0 a) (f1 b) | _, _ => BADCHAR end.
Proof.
  assert (H0 := entry_25 f0 c0 f0_range). assert (H1 := entry_25 f1 c1 f1_range). unfold entry in *.
  destruct (b64_val c0); [|by apply lor_bad_l]. destruct (b64_val c1); [done|by apply lor_bad_r].
Qed.

Lemma entries3 c0 c1 c2 :
  Z.lor (Z.lor (entry f0 c0) (entry f1 c1)) (entry f2 c2) =
  match b64_val c0, b64_val c1, b64_val c2 with
  | Some a, Some b, Some c => Z.lor (Z.lor (f0 a) (f1 b)) (f2 c) | _, _, _ => BADCHAR end.
Proof.
  assert (H01 : in_u 25 (Z.lor (entry f0 c0) (entry f1 c1))) by (apply in_u_lor; auto; lia).
  assert (H2 := entry_25 f2 c2 f2_range). rewrite entries2 in *.
  destruct (b64_val c0); [|by apply lor_bad_l]. destruct (b64_val c1); [|by apply lor_bad_l].
  unfold entry in *. destruct (b64_val c2); [done|by apply lor_bad_r].
Qed.

Lemma entries4 c0 c1 c2 c3 :
  Z.lor (Z.lor (Z.lor (entry f0 c0) (entry f1 c1)) (entry f2 c2)) (entry f3 c3) =
  match b64_val c0, b64_val c1, b64_val c2, b64_val c3 with
  | Some a, Some b, Some c, Some d => Z.lor (Z.lor (Z.lor (f0 a) (f1 b)) (f2 c)) (f3 d)
  | _, _, _, _ => BADCHAR end.
Proof.
  assert (H012 : in_u 25 (Z.lor (Z.lor (entry f0 c0) (entry f1 c1)) (entry f2 c2)))
    by (repeat apply in_u_lor; auto; lia).
  assert (H3 := entry_25 f3 c3 f3_range). rewrite entries3 in *.
  destruct (b64_val c0); [|by apply lor_bad_l]. destruct (b64_val c1); [|by apply lor_bad_l].
  destruct (b64_val c2); [|by apply lor_bad_l].
  unfold entry in *. destruct (b64_val c3); [done|by apply lor_bad_r].
Qed.

(** The bytes of an assembled word. *)
Lemma byte_of_u8 x i : 0 <= i -> byte_of x i = u8 (Z.shiftr x (8 * i)).
Proof. intros. unfold byte_of. change 0xff with (Z.ones 8). by rewrite Z.land_ones by lia. Qed.

Lemma word3_bytes x0 x1 x2 :
  in_u 8 x0 -> in_u 8 x1 -> in_u 8 x2 ->
  let x := x0 + 256 * (x1 + 256 * x2) in
  x < BADCHAR /\ byte_of x 0 = x0 /\ byte_of x 1 = x1 /\ byte_of x 2 = x2.
Proof.
  intros H0 H1 H2 x. rewrite !byte_of_u8 by lia. unfold in_u, BADCHAR, wrap_u, x in *.
  change (8 * 0) with 0. change (8 * 1) with 8. change (8 * 2) with 16. rewrite !Z.shiftr_div_pow2 by lia.
  change (2 ^ 0) with 1. change (2 ^ 16) with 65536. rewrite Z.div_1_r. change (2 ^ 8) with 256 in *.
  split_and!; [lia| | |].
  - symmetry. apply (Z.mod_unique _ _ (x1 + 256 * x2)); lia.
  - rewrite <-(Z.div_unique _ 256 (x1 + 256 * x2) x0) by lia. symmetry. apply (Z.mod_unique _ _ x2); lia.
  - rewrite <-(Z.div_unique _ 65536 x2 (x0 + 256 * x1)) by lia. apply Z.mod_small. lia.
Qed.


(** The rest of the decoding: the chunks left and the switch. *)
Definition dec_from (n : nat) (leftover chunks y srcInt p : Z) (mem : memory) : Z * memory :=
  match dec_loop n y srcInt p mem with
  | (None, mem) => (-1, mem)
  | (Some (y, p), mem) => dec_tail leftover chunks y p mem
  end.

(** What [dec_from] leaves for the characters [s] still to decode. *)
Definition decoded (s : list Z) (done_ p : Z) (mem : memory) (r : Z * memory) : Prop :=
  match unb64 s with
  | Some l => r.1 = done_ + Z.of_nat (length l) /\ stored r.2 p l
  | None => r.1 = -1
  end /\ only p (3 * ((Z.of_nat (length s) + 3) / 4)) mem r.2.

Lemma dec_tail1 y p mem C c0 :
  word_has y [c0] -> in_u 8 c0 -> decoded [c0] (3 * C) p mem (dec_tail 1 C y p mem).
Proof.
  intros Hy Hc. unfold dec_tail. simpl Z.eqb. cbv iota. rewrite (dec_half _ _ _ Hy Hc).
  unfold decoded, entry. cbn [unb64 mbind option_bind].
  assert (Ho : only p (3 * ((Z.of_nat (length [c0]) + 3) / 4)) mem (wr8 p (byte_of (entry f0 c0) 0) mem)).
  { eapply only_weaken; [apply only_wr8|lia|]. change (_ / 4) with 1. lia. }
  unfold entry in Ho. destruct (b64_val c0) as [a|] eqn:Ea; cbn [mbind option_bind].
  - apply b64_val_range in Ea. rewrite (proj2 (Z.leb_gt _ _)) by (unfold f0, BADCHAR; lia).
    cbn [fst snd length]. split; [|done]. split; [change (Z.quot (6 * 1) 8) with 0; lia|done].
  - split; [done|exact Ho].
Qed.

Lemma dec_tail2 y p mem C c0 c1 :
  word_has y [c0; c1] -> in_u 8 c0 -> in_u 8 c1 -> decoded [c0; c1] (3 * C) p mem (dec_tail 2 C y p mem).
Proof.
  intros Hy Hc0 Hc1. unfold dec_tail. simpl Z.eqb. cbv iota.
  rewrite (dec_half _ _ _ Hy), (word_byte _ _ _ _ Hy), (d1_entry c1), entries2 by done.
  unfold decoded. cbn [unb64].
  set (x := match b64_val c0 with Some _ => _ | None => _ end).
  assert (Ho : only p (3 * ((Z.of_nat (length [c0; c1]) + 3) / 4)) mem (wr8 p (byte_of x 0) mem)).
  { eapply only_weaken; [apply only_wr8|lia|]. change (_ / 4) with 1. lia. }
  revert Ho. unfold x.
  destruct (b64_val c0) as [a|] eqn:Ea; cbn [mbind option_bind]; [|by split].
  destruct (b64_val c1) as [b|] eqn:Eb; cbn [mbind option_bind]; [|by split].
  intros Ho. apply b64_val_range in Ea, Eb. rewrite f01_sum in * by done.
  destruct (word3_bytes (a * 4 + b / 16) (b mod 16 * 16) 0) as (Hlt & B0 & _);
    [by apply byte0_range|pose proof (Z.mod_pos_bound b 16); unfold in_u; lia|done|].
  rewrite Z.mul_0_r, Z.add_0_r in *. rewrite (proj2 (Z.leb_gt _ _)) by done.
  split; [|exact Ho]. split; [done|]. cbn [snd stored]. split; [|done].
  by rewrite wr8_eq, B0, wrap_u_id by (by apply byte0_range).
Qed.

Lemma dec_tail3 y p mem C c0 c1 c2 :
  word_has y [c0; c1; c2] -> in_u 8 c0 -> in_u 8 c1 -> in_u 8 c2 ->
  decoded [c0; c1; c2] (3 * C) p mem (dec_tail 3 C y p mem).
Proof.
  intros Hy Hc0 Hc1 Hc2. unfold dec_tail. simpl Z.eqb. cbv iota.
  rewrite (dec_half _ _ _ Hy), (word_byte _ _ _ _ Hy), (word_byte2 _ _ _ _ _ Hy), (d1_entry c1), (d2_entry c2), entries3 by done.
  unfold decoded. cbn [unb64].
  set (x := match b64_val c0 with Some _ => _ | None => _ end).
  assert (Ho : only p (3 * ((Z.of_nat (length [c0; c1; c2]) + 3) / 4)) mem
    (wr8 (p + 1) (byte_of x 1) (wr8 p (byte_of x 0) mem))).
  { change ((Z.of_nat (length [c0; c1; c2]) + 3) / 4) with 1. 
    eapply only_trans; [|eapply only_weaken; [apply only_wr8|lia|lia]].
    eapply only_weaken; [apply only_wr8|lia|lia]. }
  revert Ho. unfold x.
  destruct (b64_val c0) as [a|] eqn:Ea; cbn [mbind option_bind]; [|by split].
  destruct (b64_val c1) as [b|] eqn:Eb; cbn [mbind option_bind]; [|by split].
  destruct (b64_val c2) as [c|] eqn:Ec; cbn [mbind option_bind]; [|by split].
  intros Ho. apply b64_val_range in Ea, Eb, Ec. rewrite f012_sum in * by done.
  destruct (word3_bytes (a * 4 + b / 16) (b mod 16 * 16 + c / 4) (c mod 4 * 64)) as (Hlt & B0 & B1 & _);
    [by apply byte0_range|by apply byte1_range|pose proof (Z.mod_pos_bound c 4); unfold in_u; lia|].
  rewrite (proj2 (Z.leb_gt _ _)) by done.
  split; [|exact Ho]. split; [done|]. cbn [snd stored]. split_and!; [| |done].
  - rewrite wr8_ne by lia. by rewrite wr8_eq, B0, wrap_u_id by (by apply byte0_range).
  - by rewrite wr8_eq, B1, wrap_u_id by (by apply byte1_range).
Qed.

Lemma unb64_quad c0 c1 c2 c3 s :
  unb64 (c0 :: c1 :: c2 :: c3 :: s) =
  match b64_val c0, b64_val c1, b64_val c2, b64_val c3 with
  | Some a, Some b, Some c, Some d =>
      l ← unb64 s; Some (a * 4 + b / 16 :: b mod 16 * 16 + c / 4 :: c mod 4 * 64 + d :: l)
  | _, _, _, _ => None
  end.
Proof. cbn [unb64]. by destruct (b64_val c0), (b64_val c1), (b64_val c2), (b64_val c3). Qed.

(** A good word: its bytes. *)
Lemma quad_word a b c d :
  0 <= a < 64 -> 0 <= b < 64 -> 0 <= c < 64 -> 0 <= d < 64 ->
  let x := Z.lor (Z.lor (Z.lor (f0 a) (f1 b)) (f2 c)) (f3 d) in
  x < BADCHAR /\ byte_of x 0 = a * 4 + b / 16 /\ byte_of x 1 = b mod 16 * 16 + c / 4 /\
  byte_of x 2 = c mod 4 * 64 + d.
Proof.
  intros Ha Hb Hc Hd x. unfold x. rewrite f0123_sum by done.
  apply word3_bytes; [by apply byte0_range|by apply byte1_range|by apply byte2_range].
Qed.

Lemma dec_tail0 y p mem C c0 c1 c2 c3 :
  word_has y [c0; c1; c2; c3] -> Forall (in_u 8) [c0; c1; c2; c3] ->
  decoded [c0; c1; c2; c3] (3 * C) p mem (dec_tail 0 C y p mem).
Proof.
  intros Hy Hc. unfold dec_tail. simpl Z.eqb. cbv iota. rewrite (dec_words _ _ _ _ _ _ Hy Hc), entries4.
  unfold decoded. rewrite unb64_quad. change (3 * ((Z.of_nat (length [c0; c1; c2; c3]) + 3) / 4)) with 3.
  destruct (b64_val c0) as [a|] eqn:Ea; [|split; [done|apply only_refl]].
  destruct (b64_val c1) as [b|] eqn:Eb; [|split; [done|apply only_refl]].
  destruct (b64_val c2) as [c|] eqn:Ec; [|split; [done|apply only_refl]].
  destruct (b64_val c3) as [d|] eqn:Ed; [|split; [done|apply only_refl]].
  apply b64_val_range in Ea, Eb, Ec, Ed.
  destruct (quad_word a b c d) as (Hlt & B0 & B1 & B2); [done..|].
  rewrite (proj2 (Z.leb_gt _ _)), B0, B1, B2 by done. cbn [unb64 mbind option_bind fst snd stored length].
  split.
  - split; [lia|]. replace (p + 1 + 1) with (p + 2) by lia. split_and!; [| | |done].
    + rewrite !wr8_ne, wr8_eq by lia. by apply wrap_u_id, byte0_range.
    + rewrite wr8_ne, wr8_eq by lia. by apply wrap_u_id, byte1_range.
    + rewrite wr8_eq. by apply wrap_u_id, byte2_range.
  - do 2 (eapply only_trans; [|eapply only_weaken; [apply only_wr8|lia|lia]]).
    eapply only_weaken; [apply only_wr8|lia|lia].
Qed.

Lemma decoded_quad c0 c1 c2 c3 s done_ p mem mem1 r x :
  x = Z.lor (Z.lor (Z.lor (entry f0 c0) (entry f1 c1)) (entry f2 c2)) (entry f3 c3) -> x < BADCHAR ->
  mem1 = wr32 p x mem -> s <> [] ->
  decoded s (done_ + 3) (p + 3) mem1 r -> decoded (c0 :: c1 :: c2 :: c3 :: s) done_ p mem r.
Proof.
  intros Hx Hlt -> Hne [Hd Ho]. unfold decoded. rewrite unb64_quad.
  assert (Hlen : (Z.of_nat (length (c0 :: c1 :: c2 :: c3 :: s)) + 3) / 4 = (Z.of_nat (length s) + 3) / 4 + 1).
  { rewrite <-Z.div_add by lia. f_equal. cbn [length]. lia. }
  assert (1 <= (Z.of_nat (length s) + 3) / 4).
  { apply Z.div_le_lower_bound; [lia|]. destruct s; [done|cbn [length]; lia]. }
  rewrite Hlen. split.
  2:{ apply (only_trans _ _ _ (wr32 p x mem)); [eapply only_weaken; [apply only_wr32|lia|lia]|eapply only_weaken; [exact Ho|lia|lia]]. }
  rewrite entries4 in Hx.
  destruct (b64_val c0) as [a|] eqn:Ea; [|lia]. destruct (b64_val c1) as [b|] eqn:Eb; [|lia].
  destruct (b64_val c2) as [c|] eqn:Ec; [|lia]. destruct (b64_val c3) as [d|] eqn:Ed; [|lia].
  apply b64_val_range in Ea, Eb, Ec, Ed. destruct (quad_word a b c d) as (_ & B0 & B1 & B2); [done..|].
  rewrite <-Hx in B0, B1, B2.
  destruct (unb64 s) as [l|]; cbn [mbind option_bind]; [|done]. destruct Hd as [-> Hl].
  split; [cbn [length]; lia|]. apply (stored_app _ _ [_; _; _]). split; [|exact Hl].
  assert (Hw : forall i, 0 <= i < 3 -> r.2 (p + i) = byte_of x i).
  { intros i Hi. rewrite Ho by lia. rewrite wr32_byte by lia. by rewrite byte_of_u8 by lia. }
  cbn [stored]. replace (p + 1 + 1) with (p + 2) by lia. rewrite <-(Z.add_0_r p) at 1.
  rewrite !Hw, B0, B1, B2 by lia. done.
Qed.


(** Whole words still to be looped over: all but the last word or part of one. *)
Definition words_left (s : list Z) : nat := Z.to_nat ((Z.of_nat (length s) + 3) / 4 - 1).

Lemma words_left_quad c0 c1 c2 c3 s : s <> [] -> words_left (c0 :: c1 :: c2 :: c3 :: s) = S (words_left s).
Proof.
  intros Hs. unfold words_left. cbn [length]. rewrite !Nat2Z.inj_succ.
  replace (Z.succ (Z.succ (Z.succ (Z.succ (Z.of_nat (length s))))) + 3) with (Z.of_nat (length s) + 3 + 1 * 4) by lia.
  rewrite Z.div_add by lia. assert (1 <= (Z.of_nat (length s) + 3) / 4); [|lia].
  apply Z.div_le_lower_bound; [lia|]. destruct s; [done|cbn [length]; lia].
Qed.

Lemma dec_from_ok s : forall y srcInt p mem C,
  s <> [] -> Forall (in_u 8) s -> bytes_ok mem -> word_has y s -> stored mem srcInt (drop 4 s) ->
  p <= srcInt - 4 \/ srcInt - 4 + Z.of_nat (length s) <= p ->
  decoded s (3 * (C - Z.of_nat (words_left s))) p mem
    (dec_from (words_left s) (Z.rem (Z.of_nat (length s)) 4) C y srcInt p mem).
Proof.
  induction s as [|c0|c0 c1|c0 c1 c2|c0 c1 c2 c3 s IH] using quad_ind; intros y srcInt p mem C Hne Hs Hm Hy Hst Hd;
    [done| | | |].
  1-3: rewrite ?Forall_cons in Hs; destruct_and! Hs; rewrite Z.sub_0_r; unfold dec_from; cbn [dec_loop].
  - by apply dec_tail1.
  - by apply dec_tail2.
  - by apply dec_tail3.
  - destruct s as [|c s'].
    { rewrite Z.sub_0_r. by apply dec_tail0. }
    set (s := c :: s') in *. assert (Hs1 : s <> []) by done.
    rewrite (words_left_quad _ _ _ _ _ Hs1).
    assert (Hrem : Z.rem (Z.of_nat (length (c0 :: c1 :: c2 :: c3 :: s))) 4 = Z.rem (Z.of_nat (length s)) 4).
    { rewrite !Z.rem_mod_nonneg by lia.
      replace (Z.of_nat (length (c0 :: c1 :: c2 :: c3 :: s))) with (Z.of_nat (length s) + 1 * 4) by (cbn [length]; lia).
      apply Z_mod_plus_full. }
    rewrite Hrem. apply (Forall_app _ [_; _; _; _]) in Hs as [Hs4 Hs].
    pose proof (dec_words _ _ _ _ _ _ Hy Hs4) as Hx. unfold dec_from. cbn [dec_loop].
    destruct (Z.leb_spec BADCHAR (dec_word y)) as [Hbad|Hok].
    + unfold decoded. rewrite unb64_quad. split; [|apply only_refl]. rewrite Hx, entries4 in Hbad.
      destruct (b64_val c0) as [a|] eqn:Ea; [|done]. destruct (b64_val c1) as [b|] eqn:Eb; [|done].
      destruct (b64_val c2) as [d|] eqn:Ec; [|done]. destruct (b64_val c3) as [e|] eqn:Ed; [|done].
      apply b64_val_range in Ea, Eb, Ec, Ed. destruct (quad_word a b d e) as (? & _); [done..|lia].
    + eapply decoded_quad; [exact Hx|exact Hok|reflexivity|done|].
      replace (3 * (C - Z.of_nat (S (words_left s))) + 3) with (3 * (C - Z.of_nat (words_left s))) by lia.
      assert (Hst' : stored (wr32 p (dec_word y) mem) srcInt s).
      { eapply stored_only; [apply only_wr32| |exact Hst]. cbn [length] in Hd. lia. }
      apply IH; [done|done|by apply wr32_ok|apply rd32_word_has; [by apply wr32_ok|done]| |cbn [length] in Hd; lia].
      rewrite <-(take_drop 4 s) in Hst' at 1. apply stored_app in Hst' as [_ Hst'].
      destruct (decide (4 <= length s)%nat).
      * rewrite length_take, Nat.min_l in Hst' by done. exact Hst'.
      * by rewrite drop_ge by lia.
Qed.

Lemma base64_decode_spec src dest mem s :
  bytes_ok mem -> stored mem src s ->
  dest <= src \/ src + Z.of_nat (length s) <= dest ->
  decoded s 0 dest mem (base64_decode src (Z.of_nat (length s)) dest mem).
Proof.
  intros Hm Hst Hd. unfold base64_decode. destruct (decide (s = [])) as [->|Hne].
  { split; [|apply only_refl]. done. }
  set (len := Z.of_nat (length s)) in *. assert (0 < len) by (unfold len; destruct s; [done|cbn [length]; lia]).
  rewrite (proj2 (Z.eqb_neq len 0)) by lia.
  set (chunks := if Z.rem len 4 =? 0 then _ else _).
  assert (Hc : chunks = Z.of_nat (words_left s)).
  { unfold chunks, words_left. fold len. pose proof (Z_div_mod_eq_full len 4).
    rewrite Z.rem_mod_nonneg, Z.quot_div_nonneg by lia. pose proof (Z.mod_pos_bound len 4 ltac:(lia)).
    destruct (Z.eqb_spec (len mod 4) 0).
    - rewrite <-(Z.div_unique (len + 3) 4 (len / 4) 3) by lia. lia.
    - rewrite <-(Z.div_unique (len + 3) 4 (len / 4 + 1) (len mod 4 - 1)) by lia. lia. }
  rewrite Hc, Nat2Z.id. clearbody chunks.
  pose proof (dec_from_ok s (rd32 mem src) (src + 4) dest mem (Z.of_nat (words_left s)) Hne) as H1.
  replace (3 * _) with 0 in H1 by lia. apply H1; [by eapply stored_bytes|done|by apply rd32_word_has| |lia].
  clear H1. rewrite <-(take_drop 4 s) in Hst. apply stored_app in Hst as [_ Hst].
  destruct (decide (4 <= length s)%nat).
  - rewrite length_take, Nat.min_l in Hst by done. exact Hst.
  - by rewrite drop_ge by lia.
Qed.

(** ** Round trip *)

(** The encoding without its padding. *)
Definition unpadded (l : list Z) : list Z :=
  take (length (b64 l) - (if Z.of_nat (length l) mod 3 =? 0 then 0 else if Z.of_nat (length l) mod 3 =? 1 then 2 else 1)) (b64 l).

Lemma unpadded_triple t1 t2 t3 l :
  unpadded (t1 :: t2 :: t3 :: l) = take 4 (b64 (t1 :: t2 :: t3 :: l)) ++ unpadded l.
Proof.
  unfold unpadded. cbn [length]. rewrite !Nat2Z.inj_succ.
  replace (Z.succ (Z.succ (Z.succ (Z.of_nat (length l))))) with (Z.of_nat (length l) + 1 * 3) by lia.
  rewrite Z_mod_plus_full. set (k := if _ =? 0 then 0%nat else _). cbn [b64 length].
  assert (Hk : (k <= length (b64 l))%nat).
  { unfold k. clear. destruct l as [|t1 l]; [done|].
    assert (4 <= length (b64 (t1 :: l)))%nat by (destruct l as [|? [|]]; cbn [b64 length]; lia).
    repeat case_match; lia. }
  replace (S (S (S (S (length (b64 l))))) - k)%nat with (4 + (length (b64 l) - k))%nat by lia. done.
Qed.

(** The six-bit groups of two and three bytes are numbers below 64, from which
    the bytes can be put together again. *)
Lemma groups t1 t2 t3 : in_u 8 t1 -> in_u 8 t2 -> in_u 8 t3 ->
  let a := t1 / 4 in let b := t1 mod 4 * 16 + t2 / 16 in
  let c := t2 mod 16 * 4 + t3 / 64 in let d := t3 mod 64 in
  0 <= a < 64 /\ 0 <= b < 64 /\ 0 <= c < 64 /\ 0 <= d < 64 /\
  a * 4 + b / 16 = t1 /\ b mod 16 * 16 + c / 4 = t2 /\ c mod 4 * 64 + d = t3.
Proof.
  intros H1 H2 H3 a b c d. unfold in_u in *. change (2 ^ 8) with 256 in *.
  pose proof (Z.mod_pos_bound t1 4 ltac:(lia)). pose proof (Z.mod_pos_bound t2 16 ltac:(lia)).
  pose proof (Z.mod_pos_bound t3 64 ltac:(lia)).
  pose proof (Z_div_mod_eq_full t1 4). pose proof (Z_div_mod_eq_full t2 16). pose proof (Z_div_mod_eq_full t3 64).
  assert (Hb : b / 16 = t1 mod 4 /\ b mod 16 = t2 / 16).
  { unfold b. split.
    - symmetry. apply (Z.div_unique _ 16 (t1 mod 4) (t2 / 16)); lia.
    - symmetry. apply (Z.mod_unique _ 16 (t1 mod 4) (t2 / 16)); lia. }
  assert (Hc : c / 4 = t2 mod 16 /\ c mod 4 = t3 / 64).
  { unfold c. split.
    - symmetry. apply (Z.div_unique _ 4 (t2 mod 16) (t3 / 64)); lia.
    - symmetry. apply (Z.mod_unique _ 4 (t2 mod 16) (t3 / 64)); lia. }
  destruct Hb as [-> ->], Hc as [-> ->]. unfold a, b, c, d. lia.
Qed.

Lemma b64_val_pad : b64_val CHARPAD = None.
Proof. reflexivity. Qed.

Lemma unb64_app4 c0 c1 c2 c3 s a b c d :
  b64_val c0 = Some a -> b64_val c1 = Some b -> b64_val c2 = Some c -> b64_val c3 = Some d ->
  unb64 (c0 :: c1 :: c2 :: c3 :: s) =
  (l ← unb64 s; Some (a * 4 + b / 16 :: b mod 16 * 16 + c / 4 :: c mod 4 * 64 + d :: l)).
Proof. intros E0 E1 E2 E3. by rewrite unb64_quad, E0, E1, E2, E3. Qed.

Lemma unb64_b64 l : Forall (in_u 8) l ->
  unb64 (unpadded l) = Some l /\
  unb64 (b64 l) = if Z.of_nat (length l) mod 3 =? 0 then Some l else None.
Proof.
  induction l as [|t1|t1 t2|t1 t2 t3 l IH] using triple_ind; intros Hl; [done| | |].
  - rewrite Forall_cons in Hl. destruct Hl as [H1 _].
    destruct (groups t1 0 0) as (Ha & Hb & _ & _ & Ea & _ & _); [done..|].
    change (0 / 16) with 0 in *. rewrite Z.add_0_r in *.
    change (unpadded [t1]) with [b64_char (t1 / 4); b64_char (t1 mod 4 * 16)].
    change (Z.of_nat (length [t1]) mod 3 =? 0) with false. cbn [b64 unb64]. rewrite !b64_val_char by done. cbn [mbind option_bind].
    rewrite Ea, b64_val_pad. done.
  - rewrite !Forall_cons in Hl. destruct Hl as (H1 & H2 & _).
    destruct (groups t1 t2 0) as (Ha & Hb & Hc & _ & Ea & Eb & _); [done..|].
    change (0 / 64) with 0 in *. rewrite Z.add_0_r in *.
    change (unpadded [t1; t2]) with
      [b64_char (t1 / 4); b64_char (t1 mod 4 * 16 + t2 / 16); b64_char (t2 mod 16 * 4)].
    change (Z.of_nat (length [t1; t2]) mod 3 =? 0) with false. cbn [b64 unb64]. rewrite !b64_val_char by done. cbn [mbind option_bind].
    rewrite Ea, Eb, b64_val_pad. done.
  - rewrite !Forall_cons in Hl. destruct Hl as (H1 & H2 & H3 & Hl). destruct (IH Hl) as [IH1 IH2].
    destruct (groups t1 t2 t3) as (Ha & Hb & Hc & Hd & Ea & Eb & Ed); [done..|].
    rewrite unpadded_triple. cbn [b64]. cbn [firstn app]. change (take 0 (b64 l)) with (@nil Z). cbn [app].
    rewrite !(unb64_app4 _ _ _ _ _ _ _ _ _ (b64_val_char _ Ha) (b64_val_char _ Hb) (b64_val_char _ Hc) (b64_val_char _ Hd)).
    rewrite IH1, IH2, Ea, Eb, Ed. cbn [mbind option_bind length]. split; [done|].
    rewrite !Nat2Z.inj_succ.
    replace (Z.succ (Z.succ (Z.succ (Z.of_nat (length l))))) with (Z.of_nat (length l) + 1 * 3) by lia.
    rewrite Z_mod_plus_full. by destruct (_ =? 0).
Qed.

Lemma base64_encode_bytes str len dest mem n mem1 :
  bytes_ok mem -> base64_encode str len dest mem = Done (n, mem1) -> bytes_ok mem1.
Proof.
  intros Hm E. unfold base64_encode in E. apply outcome_bind_Done in E as (r & Hr & E).
  apply enc_loop_bytes in Hr; [|done]. apply (enc_tail_bytes str len r.1) in Hr.
  destruct (enc_tail _ _ _ _) as [p m]. injection E as <- <-. by apply wr8_ok.
Qed.

Lemma decoded_Some s p mem r l : decoded s 0 p mem r -> unb64 s = Some l -> r.1 = Z.of_nat (length l) /\ stored r.2 p l.
Proof. intros [Hd _] E. rewrite E in Hd. by destruct Hd as [-> ?]. Qed.

(** The encoder.  For every input and a destination that does not overlap
    it, [base64_encode] terminates, writes the reference encoding and a
    terminating zero, returns the length of the encoding, which is
    4 ceil(len / 3), and changes no other byte. *)
Theorem base64_encode_refines str len dest mem l :
  bytes_ok mem -> stored mem str l -> len = Z.of_nat (length l) ->
  dest + 4 * ((len + 2) / 3) + 1 <= str \/ str + len <= dest ->
  exists mem', base64_encode str len dest mem = Done (4 * ((len + 2) / 3), mem') /\
    Z.of_nat (length (b64 l)) = 4 * ((len + 2) / 3) /\
    stored mem' dest (b64 l ++ [0]) /\ only dest (4 * ((len + 2) / 3) + 1) mem mem'.
Proof. apply base64_encode_spec. Qed.

(** The decoder.  For an input of bytes and a destination that starts at
    or before the input (so also in place) or behind its end, [base64_decode]
    returns the length of the reference decoding and leaves it at [dest], or
    returns -1 exactly when the reference decoding fails, and writes at most
    3 ceil(len / 4) bytes. *)
Theorem base64_decode_refines src dest mem s :
  bytes_ok mem -> stored mem src s ->
  dest <= src \/ src + Z.of_nat (length s) <= dest ->
  decoded s 0 dest mem (base64_decode src (Z.of_nat (length s)) dest mem).
Proof. apply base64_decode_spec. Qed.

(** Decoding what the encoder wrote.  Given the encoding without its
    padding, [base64_decode] returns the length of the original bytes and
    writes them; given the padded encoding as it was written, it does so only
    when there is no padding, and otherwise returns -1. *)
Theorem base64_roundtrip str len dest out mem l :
  bytes_ok mem -> stored mem str l -> len = Z.of_nat (length l) ->
  dest + 4 * ((len + 2) / 3) + 1 <= str \/ str + len <= dest ->
  out <= dest \/ dest + 4 * ((len + 2) / 3) <= out ->
  exists n mem1, base64_encode str len dest mem = Done (n, mem1) /\
    (let r := base64_decode dest (Z.of_nat (length (unpadded l))) out mem1 in r.1 = len /\ stored r.2 out l) /\
    (let r := base64_decode dest n out mem1 in
     if len mod 3 =? 0 then r.1 = len /\ stored r.2 out l else r.1 = -1).
Proof.
  intros Hm Hst Hlen Hd Ho.
  destruct (base64_encode_spec str len dest mem l Hm Hst Hlen Hd) as (mem1 & E & Hn & Hs & _).
  assert (Hl : Forall (in_u 8) l) by (by eapply stored_bytes). destruct (unb64_b64 l Hl) as [U1 U2].
  assert (Hm1 : bytes_ok mem1) by (by eapply base64_encode_bytes).
  apply stored_app in Hs as [Hs _]. rewrite <-Hn in Ho. eexists _, mem1. split; [exact E|]. split.
  - rewrite Hlen. eapply decoded_Some; [|exact U1]. apply base64_decode_spec; [done| |].
    + unfold unpadded. rewrite <-(take_drop (length (unpadded l)) (b64 l)) in Hs. apply stored_app in Hs as [Hs _].
      unfold unpadded in Hs. rewrite length_take, Nat.min_l in Hs by lia. exact Hs.
    + unfold unpadded. rewrite length_take. lia.
  - rewrite <-Hn. assert (Hr : decoded (b64 l) 0 out mem1 (base64_decode dest (Z.of_nat (length (b64 l))) out mem1))
      by (apply base64_decode_spec; [done|done|lia]).
    rewrite Hlen. destruct (_ =? 0).
    + by eapply decoded_Some.
    + destruct Hr as [Hr _]. by rewrite U2 in Hr.
Qed.

(** ** The hypotheses can hold: "foob" at 0, encoded at 100, decoded in place. *)
Definition mem_b64 : memory := fun p => nth (Z.to_nat p) [102; 111; 111; 98] 0.

Lemma mem_b64_ok : bytes_ok mem_b64.
Proof.
  intros p. unfold mem_b64. destruct (Z.to_nat p) as [|[|[|[|[|n]]]]]; done.
Qed.

Lemma base64_encode_refines_witness :
  exists mem', base64_encode 0 4 100 mem_b64 = Done (8, mem') /\ stored mem' 100 [90; 109; 57; 118; 89; 103; 61; 61; 0].
Proof.
  destruct (base64_encode_refines 0 4 100 mem_b64 [102; 111; 111; 98]) as (mem' & E & _ & Hs & _);
    [apply mem_b64_ok|done|done|lia|]. exists mem'. split; [exact E|exact Hs].
Defined.

Lemma base64_decode_refines_witness :
  decoded [102; 111; 111; 98] 0 0 mem_b64 (base64_decode 0 4 0 mem_b64) /\ unb64 [102; 111; 111; 98] = Some [126; 138; 27].
Proof.
  split; [|reflexivity]. apply (base64_decode_refines 0 0 mem_b64 [102; 111; 111; 98]); [apply mem_b64_ok|done|lia].
Defined.

Lemma base64_roundtrip_witness :
  exists n mem1, base64_encode 0 4 100 mem_b64 = Done (n, mem1) /\
    (base64_decode 100 6 100 mem1).1 = 4 /\ (base64_decode 100 n 100 mem1).1 = -1.
Proof.
  destruct (base64_roundtrip 0 4 100 100 mem_b64 [102; 111; 111; 98]) as (n & mem1 & E & [H1 _] & H2);
    [apply mem_b64_ok|done|done|lia|lia|]. exists n, mem1. split; [exact E|]. split; [exact H1|exact H2].
Defined.
