(* ===== verification/UrlCode.v ===== *)
(** * base/src/url_encode.cpp

    Strings are lists of bytes.  [url_decode] works on the suffix of the buffer
    from the loop's index on; the escape test [i + 2 < len] says that two
    characters follow.  The theorems: decoding after encoding is decoding, so
    the round trip gives back exactly the texts without an escape, because the
    encoder leaves the percent sign alone; and the output of the encoder is
    ASCII without blanks. *)
From S2P Require Import Prelude Words.

Definition hex_char (ch : Z) : Z :=
  if (48 <=? ch) && (ch <=? 57) then ch - 48
  else if (97 <=? ch) && (ch <=? 102) then ch - 97 + 10
  else if (65 <=? ch) && (ch <=? 70) then ch - 65 + 10
  else -1.

(** The decoded bytes of the buffer [buf]. *)
Fixpoint url_decode (buf : list Z) : list Z :=
  match buf with
  | [] => []
  | ch :: rest =>
      match rest with
      | c1 :: c2 :: rest' =>
          if ch =? 37 then
            let v := hex_char c1 in
            if v <? 0 then ch :: url_decode rest
            else
              let v2 := hex_char c2 in
              if v2 <? 0 then ch :: url_decode rest
              else u8 (Z.shiftl v 4 + v2) :: url_decode rest'
          else ch :: url_decode rest
      | _ => ch :: url_decode rest
      end
  end.

Definition isascii (c : Z) : bool := c <? 128.

(** The digits "0123456789ABCDEF". *)
Definition hex (i : Z) : Z := nth (Z.to_nat i) [48; 49; 50; 51; 52; 53; 54; 55; 56; 57; 65; 66; 67; 68; 69; 70] 0.

(** What one character appends. *)
Definition encode_char (cc : Z) : list Z :=
  if isascii cc then
    if cc =? 32 then [37; 50; 48] else [cc]
  else [37; hex (cc / 16); hex (cc mod 16)].

(** url_encode appends to [*out]. *)
Definition url_encode (src out : list Z) : list Z := fold_left (fun dst cc => dst ++ encode_char cc) src out.

(** ** Lemmas *)
Lemma url_encode_bind src out : url_encode src out = out ++ (src ≫= encode_char).
Proof.
  revert out. induction src as [|c src IH]; intros out; [by rewrite app_nil_r|].
  cbn [url_encode fold_left]. unfold url_encode in IH. rewrite IH, bind_cons. by rewrite app_assoc.
Qed.

(** The sixteen digits: facts about [hex] are checked one by one. *)
Lemma hex_check (f : Z -> bool) : forallb f (upto 16) = true -> forall i, 0 <= i < 16 -> f i = true.
Proof. apply upto_check. Qed.

Lemma hex_char_hex i : 0 <= i < 16 -> hex_char (hex i) = i.
Proof. intros. apply Z.eqb_eq. by apply (hex_check (fun i => hex_char (hex i) =? i)). Qed.

Lemma hex_ascii i : 0 <= i < 16 -> isascii (hex i) = true /\ hex i <> 32.
Proof.
  intros Hi. rewrite <-Z.eqb_neq.
  assert (E := hex_check (fun i => isascii (hex i) && negb (hex i =? 32)) eq_refl i Hi). cbv beta in E.
  by destruct (hex i =? 32), (isascii (hex i)).
Qed.

(** The text begins with an escape. *)
Definition escape (s : list Z) : bool :=
  match s with
  | ch :: c1 :: c2 :: _ => (ch =? 37) && (0 <=? hex_char c1) && (0 <=? hex_char c2)
  | _ => false
  end.

Fixpoint no_escape (s : list Z) : bool :=
  match s with [] => true | _ :: t => negb (escape s) && no_escape t end.

Definition unescape (s : list Z) : Z := u8 (Z.shiftl (hex_char (nth 1 s 0)) 4 + hex_char (nth 2 s 0)).

Lemma url_decode_escape s : escape s = true -> url_decode s = unescape s :: url_decode (drop 3 s).
Proof.
  destruct s as [|ch [|c1 [|c2 s]]]; try done. cbn [escape url_decode]. rewrite !andb_true_iff, !Z.leb_le.
  intros ((-> & H1) & H2). by rewrite (proj2 (Z.ltb_ge _ 0)), (proj2 (Z.ltb_ge _ 0)) by done.
Qed.

Lemma url_decode_plain c s : escape (c :: s) = false -> url_decode (c :: s) = c :: url_decode s.
Proof.
  destruct s as [|c1 [|c2 s]]; try done. cbn [escape url_decode].
  destruct (c =? 37); [|done]. destruct (Z.ltb_spec (hex_char c1) 0); [done|].
  destruct (Z.ltb_spec (hex_char c2) 0); [done|]. by rewrite !(proj2 (Z.leb_le 0 _)).
Qed.

Lemma escape_drop s : escape s = true -> exists ch c1 c2, s = ch :: c1 :: c2 :: drop 3 s.
Proof. destruct s as [|ch [|c1 [|c2 s]]]; try done. eauto. Qed.

(** A hexadecimal digit is ASCII and no blank: it encodes to itself. *)
Lemma hex_char_plain c : 0 <= hex_char c -> encode_char c = [c].
Proof.
  unfold hex_char, encode_char, isascii. intros H.
  assert (48 <= c <= 102) by (repeat case_match; lia).
  rewrite (proj2 (Z.ltb_lt c 128)), (proj2 (Z.eqb_neq c 32)) by lia. done.
Qed.

(** The encoding of a character that is no digit does not start with one. *)
Lemma encode_char_head c : in_u 8 c -> exists d t, encode_char c = d :: t /\ hex_char d = hex_char c.
Proof.
  intros Hc. unfold encode_char, isascii. destruct (Z.ltb_spec c 128).
  - destruct (Z.eqb_spec c 32) as [->|]; eauto.
  - exists 37. eexists. split; [done|]. unfold hex_char. repeat case_match; lia.
Qed.

Lemma escape_encode c s :
  Forall (in_u 8) (c :: s) -> encode_char c = [c] -> escape (c :: (s ≫= encode_char)) = escape (c :: s).
Proof.
  intros Hs Hc. apply Forall_cons in Hs as [_ Hs]. destruct s as [|c1 s]; [done|]. apply Forall_cons in Hs as [H1 Hs].
  destruct (decide (0 <= hex_char c1)) as [Hx|Hx].
  - rewrite bind_cons, hex_char_plain by done. cbn [app]. destruct s as [|c2 s]; [done|].
    apply Forall_cons in Hs as [H2 Hs]. rewrite bind_cons. destruct (encode_char_head c2 H2) as (d & t & -> & E).
    cbn [app escape]. by rewrite E.
  - destruct (encode_char_head c1 H1) as (d & t & E1 & E). rewrite bind_cons, E1. cbn [app].
    assert (Hf : forall u v, escape (c :: u :: v) = true -> 0 <= hex_char u).
    { intros u [|w v]; [done|]. cbn [escape]. rewrite !andb_true_iff. lia. }
    destruct (escape (c :: d :: _)) eqn:Ed; [apply Hf in Ed; lia|].
    destruct (escape (c :: c1 :: s)) eqn:Ec; [apply Hf in Ec; lia|done].
Qed.

Lemma decode_encode_char c s :
  in_u 8 c -> encode_char c <> [c] -> url_decode (encode_char c ++ s) = c :: url_decode s.
Proof.
  intros Hc. unfold encode_char, isascii. destruct (Z.ltb_spec c 128).
  - destruct (Z.eqb_spec c 32) as [->|]; [|done]. intros _. by rewrite url_decode_escape.
  - intros _.
    pose proof (Z.div_pos c 16). pose proof (Z.mod_pos_bound c 16). unfold in_u in Hc.
    pose proof (Z.div_lt_upper_bound c 16 16).
    cbn [app]. rewrite url_decode_escape.
    + unfold unescape. cbn [nth drop]. rewrite !hex_char_hex by lia. f_equal.
      rewrite Z.shiftl_mul_pow2 by lia. change (2 ^ 4) with 16.
      pose proof (Z_div_mod_eq_full c 16). rewrite wrap_u_id by (unfold in_u; lia). lia.
    + cbn [escape]. rewrite !hex_char_hex by lia. rewrite !(proj2 (Z.leb_le 0 _)) by lia. done.
Qed.

Lemma decode_encode s : Forall (in_u 8) s -> url_decode (s ≫= encode_char) = url_decode s.
Proof.
  induction s as [s IH] using (induction_ltof1 _ length). unfold ltof in IH. intros Hs.
  destruct s as [|c s]; [done|]. pose proof (proj1 (Forall_cons _ _ _) Hs) as [Hc Hs'].
  destruct (decide (encode_char c = [c])) as [Ec|Ec].
  - rewrite bind_cons, Ec. cbn [app]. pose proof (escape_encode c s Hs Ec) as He.
    destruct (escape (c :: s)) eqn:E.
    + destruct (escape_drop _ E) as (ch & c1 & c2 & Es). injection Es as <- Es. rewrite Es in *.
      rewrite (url_decode_escape (c :: c1 :: c2 :: _)) by done.
      assert (Hx : 0 <= hex_char c1 /\ 0 <= hex_char c2).
      { cbn [escape] in E. rewrite !andb_true_iff in E. lia. }
      rewrite !bind_cons, !hex_char_plain in He |- * by apply Hx. cbn [app] in He |- *.
      rewrite url_decode_escape by done. cbn [drop]. f_equal. rewrite !drop_0.
      rewrite !Forall_cons in Hs'. apply IH; [cbn [length]; lia|apply Hs'].
    + rewrite (url_decode_plain _ _ He), (url_decode_plain _ _ E). f_equal. apply IH; [simpl; lia|done].
  - rewrite bind_cons, decode_encode_char by done. rewrite IH by (done || (simpl; lia)).
    rewrite url_decode_plain; [done|]. destruct s as [|c1 [|c2 s]]; try done. cbn [escape].
    destruct (Z.eqb_spec c 37) as [->|]; [by destruct Ec|done].
Qed.

Lemma url_decode_length s : (length (url_decode s) <= length s)%nat.
Proof.
  induction s as [s IH] using (induction_ltof1 _ length). unfold ltof in IH.
  destruct s as [|c s]; [done|]. destruct (escape (c :: s)) eqn:E.
  - rewrite url_decode_escape by done. destruct s as [|c1 [|c2 s]]; [discriminate E..|].
    cbn [drop length]. rewrite drop_0. specialize (IH s ltac:(simpl; lia)). lia.
  - rewrite url_decode_plain by done. cbn [length]. specialize (IH s ltac:(simpl; lia)). lia.
Qed.

Lemma url_decode_same s : url_decode s = s <-> no_escape s = true.
Proof.
  induction s as [|c s IH]; [done|]. cbn [no_escape]. destruct (escape (c :: s)) eqn:E; cbn [negb andb].
  - split; [|done]. intros Hd. rewrite url_decode_escape in Hd by done.
    destruct s as [|c1 [|c2 s]]; [discriminate E..|]. cbn [drop] in Hd. rewrite drop_0 in Hd.
    apply (f_equal length) in Hd. pose proof (url_decode_length s) as Hl. cbn [length] in Hd. lia.
  - rewrite url_decode_plain by done. rewrite <-IH. split; [by intros [= ->]|by intros ->].
Qed.

(** Decoding an encoding is the same as decoding the text itself, so the
    round trip returns the text exactly when the text has no escape of its own:
    the encoder does not encode the percent sign. *)
Theorem url_roundtrip s :
  Forall (in_u 8) s ->
  url_decode (url_encode s []) = url_decode s /\
  (url_decode (url_encode s []) = s <-> no_escape s = true).
Proof.
  intros Hs. rewrite url_encode_bind. cbn [app]. rewrite decode_encode by done. split; [done|apply url_decode_same].
Qed.

Lemma url_roundtrip_witness : url_decode (url_encode [37; 97; 32; 228; 184; 173] []) = [37; 97; 32; 228; 184; 173].
Proof. apply (url_roundtrip [37; 97; 32; 228; 184; 173]); [repeat constructor; done|reflexivity]. Defined.

(** The encoder's output is clean whatever the input: it appends to the
    string it is given only ASCII characters other than the blank; and the
    decoder never needs more room than its input, which is what its caller
    reserves. *)
Theorem url_encode_clean s out :
  Forall (in_u 8) s ->
  exists enc, url_encode s out = out ++ enc /\ Forall (fun c => isascii c = true /\ c <> 32) enc /\
    (length (url_decode s) <= length s)%nat.
Proof.
  intros Hs. exists (s ≫= encode_char). split; [apply url_encode_bind|]. split; [|apply url_decode_length].
  induction Hs as [|c s Hc Hs IH]; [constructor|]. rewrite bind_cons. apply Forall_app. split; [|done].
  unfold encode_char. destruct (isascii c) eqn:Ea.
  - destruct (Z.eqb_spec c 32); repeat constructor; done.
  - pose proof (Z.div_pos c 16). pose proof (Z.mod_pos_bound c 16). unfold in_u in Hc.
    pose proof (Z.div_lt_upper_bound c 16 16).
    repeat constructor; try done; apply hex_ascii; lia.
Qed.

Lemma url_encode_clean_witness :
  exists enc, url_encode [228; 32] [47] = [47] ++ enc /\ Forall (fun c => isascii c = true /\ c <> 32) enc.
Proof.
  destruct (url_encode_clean [228; 32] [47]) as (enc & E & H & _); [repeat constructor; done|]. eauto.
Defined.
