(* ===== verification/StrNum.v ===== *)
(** * base/string2number.h

    The conversions between numbers and decimal texts, with the C library calls
    they make: [strtoll], [strtoull] (decimal, saturating), [snprintf] into a
    buffer of 20 bytes and [strncmp].  The [std::string]s are lists of bytes; a
    [char const *] ends at the first 0 byte.  The theorems: the exact result of
    converting a number to a text and back, for every 64-bit number: the buffer
    is one byte too small for the texts of 20 characters, which lose their last
    digit; and the boolean false does not survive at all. *)
From S2P Require Import Prelude Words.

(** ** The C library *)

(** The characters of a C string. *)
Fixpoint c_str (s : list Z) : list Z :=
  match s with [] => [] | c :: s => if c =? 0 then [] else c :: c_str s end.

Definition isspace (c : Z) : bool := (c =? 32) || ((9 <=? c) && (c <=? 13)).
Definition isdigit (c : Z) : bool := (48 <=? c) && (c <=? 57).

Fixpoint skip_space (s : list Z) : list Z :=
  match s with c :: s' => if isspace c then skip_space s' else s | [] => [] end.

Fixpoint digits (s : list Z) (acc : Z) : Z :=
  match s with c :: s' => if isdigit c then digits s' (acc * 10 + (c - 48)) else acc | [] => acc end.

(** The sign and the magnitude of a decimal text. *)
Definition scan (s : list Z) : bool * Z :=
  match skip_space s with
  | c :: s' => if c =? 45 then (true, digits s' 0) else if c =? 43 then (false, digits s' 0) else (false, digits (c :: s') 0)
  | [] => (false, 0)
  end.

Definition strtoll (s : list Z) : Z :=
  let '(neg, m) := scan (c_str s) in
  if neg : bool then Z.max (- 2 ^ 63) (- m) else Z.min (2 ^ 63 - 1) m.

Definition strtoull (s : list Z) : Z :=
  let '(neg, m) := scan (c_str s) in
  if 2 ^ 64 - 1 <? m then 2 ^ 64 - 1 else if neg : bool then u64 (- m) else m.

(** Decimal digits of a natural number; [fuel] bounds their number. *)
Fixpoint dec (fuel : nat) (n : Z) : list Z :=
  match fuel with
  | O => []
  | S fuel => if n <? 10 then [48 + n] else dec fuel (n / 10) ++ [48 + n mod 10]
  end.

(** %ld and %lu of 64-bit numbers. *)
Definition fmt_u64 (n : Z) : list Z := dec 20 n.
Definition fmt_i64 (n : Z) : list Z := if n <? 0 then 45 :: dec 20 (- n) else dec 20 n.

(** snprintf into a zeroed buffer of [size] bytes: the buffer; the return value
    is the length of [text]. *)
Definition snprintf (size : nat) (text : list Z) : list Z :=
  let cut := take (size - 1) text in cut ++ replicate (size - length cut) 0.

(** strncmp(a, b, n) == 0 *)
Fixpoint strncmp0 (a b : list Z) (n : nat) : bool :=
  match n with
  | O => true
  | S n => let x := hd 0 a in let y := hd 0 b in
           if x =? y then (if x =? 0 then true else strncmp0 (tl a) (tl b) n) else false
  end.

(** std::string::resize, which fills with 0. *)
Definition resize (n : nat) (s : list Z) : list Z := take n s ++ replicate (n - length s) 0.

(** ** string2number *)

(** The template for a signed or unsigned integer type of [w] bits. *)
Definition string2number_s (w : Z) (src : list Z) : Z := wrap_s w (strtoll src).
Definition string2number_u (w : Z) (src : list Z) : Z := wrap_u w (strtoll src).

Definition string2number_u64 (src : list Z) : Z := strtoull src.

Definition true_text : list Z := [116; 114; 117; 101].
Definition false_text : list Z := [102; 97; 108; 115; 101].

(** [None] is the return of -1. *)
Definition string2number_bool (src : list Z) : option bool :=
  if strncmp0 src true_text 5 then Some true
  else if strncmp0 src false_text 6 then Some false
  else None.

(** ** number2string *)
Definition number2string (n : Z) : list Z :=
  let out := resize 20 [] in
  let text := fmt_i64 (i64 n) in
  let out := snprintf (length out) text in
  resize (length text) out.

Definition number2string_u64 (n : Z) : list Z :=
  let out := resize 20 [] in
  let text := fmt_u64 (u64 n) in
  let out := snprintf (length out) text in
  resize (length text) out.

Definition number2string_bool (i : bool) : list Z := if i then true_text else true_text.

(** ** Digits *)
Lemma dec_S fuel n : dec (S fuel) n = if n <? 10 then [48 + n] else dec fuel (n / 10) ++ [48 + n mod 10].
Proof. done. Qed.

Lemma digits_app s1 s2 acc : forallb isdigit s1 = true -> digits (s1 ++ s2) acc = digits s2 (digits s1 acc).
Proof.
  revert acc. induction s1 as [|c s1 IH]; intros acc Hd; [done|]. simpl in Hd |- *.
  apply andb_true_iff in Hd as [-> Hd]. by apply IH.
Qed.

Lemma isdigit_48 d : 0 <= d < 10 -> isdigit (48 + d) = true.
Proof. intros. unfold isdigit. apply andb_true_iff. lia. Qed.

Lemma dec_ok fuel : forall n, 0 <= n < 10 ^ Z.of_nat fuel -> (0 < fuel)%nat ->
  forallb isdigit (dec fuel n) = true /\ digits (dec fuel n) 0 = n /\
  (0 < length (dec fuel n))%nat /\
  (forall k, (0 < k)%nat -> (length (dec fuel n) <= k)%nat <-> n < 10 ^ Z.of_nat k).
Proof.
  induction fuel as [|fuel IH]; intros n Hn Hf; [lia|]. rewrite dec_S.
  destruct (Z.ltb_spec n 10) as [Hs|Hl].
  - cbn [forallb digits length]. rewrite isdigit_48 by lia. split_and!; [done|lia|lia|].
    intros k Hk. split; [intros _|lia]. apply Z.lt_le_trans with (10 ^ 1); [lia|]. apply Z.pow_le_mono_r; lia.
  - assert (Hf' : (0 < fuel)%nat).
    { destruct fuel; [|lia]. change (10 ^ Z.of_nat 1) with 10 in Hn. lia. }
    assert (Hq : 0 <= n / 10 < 10 ^ Z.of_nat fuel).
    { split; [apply Z.div_pos; lia|]. apply Z.div_lt_upper_bound; [lia|].
      rewrite Nat2Z.inj_succ, Z.pow_succ_r in Hn by lia. lia. }
    destruct (IH _ Hq Hf') as (Hd & Hv & Hp & Hlen). pose proof (Z.mod_pos_bound n 10 ltac:(lia)).
    pose proof (Z_div_mod_eq_full n 10). split_and!.
    + rewrite forallb_app, Hd. cbn [forallb]. by rewrite isdigit_48.
    + rewrite digits_app, Hv by done. cbn [digits]. rewrite isdigit_48 by lia. lia.
    + rewrite length_app. lia.
    + intros k Hk. rewrite length_app. cbn [length]. destruct k as [|k]; [lia|].
      destruct k as [|k].
      { change (10 ^ Z.of_nat 1) with 10. lia. }
      rewrite (Nat2Z.inj_succ (S k)), Z.pow_succ_r by lia.
      assert (Hk' : (0 < S k)%nat) by lia. specialize (Hlen (S k) Hk').
      split; [intros; assert (n / 10 < 10 ^ Z.of_nat (S k)) by (apply Hlen; lia); lia|].
      intros Hlt. assert (n / 10 < 10 ^ Z.of_nat (S k)) by (apply Z.div_lt_upper_bound; lia). apply Hlen in H1. lia.
Qed.

(** A digit is no blank, sign or 0 byte. *)
Lemma digit_plain c : isdigit c = true -> (c =? 0) = false /\ isspace c = false /\ (c =? 45) = false /\ (c =? 43) = false.
Proof. unfold isdigit, isspace. rewrite andb_true_iff. intros. split_and!; lia. Qed.

Lemma c_str_digits s t : forallb isdigit s = true -> c_str (s ++ t) = s ++ c_str t.
Proof.
  induction s as [|c s IH]; intros Hd; [done|]. simpl in Hd |- *. apply andb_true_iff in Hd as [Hc Hd].
  apply digit_plain in Hc as (-> & _). by rewrite IH.
Qed.

Lemma scan_digits s : forallb isdigit s = true -> scan s = (false, digits s 0).
Proof.
  intros Hd. destruct s as [|c s]; [done|]. unfold scan. cbn [skip_space].
  assert (Hc : isdigit c = true) by (simpl in Hd; by apply andb_true_iff in Hd as [? _]).
  apply digit_plain in Hc as (_ & -> & -> & ->). done.
Qed.

Lemma scan_minus s : scan (45 :: s) = (true, digits s 0).
Proof. done. Qed.

(** [resize] of the buffer to the length of the text: the text, but for the
    last of 20 characters. *)
Lemma buffer_short text : (length text <= 19)%nat -> resize (length text) (snprintf 20 text) = text.
Proof.
  intros Hl. unfold resize, snprintf. cbn [Nat.sub]. rewrite (take_ge text) by lia.
  rewrite take_app_le, take_ge by lia. rewrite length_app, length_replicate.
  replace (length text - _)%nat with 0%nat by lia. by rewrite app_nil_r.
Qed.

Lemma buffer_20 text : length text = 20%nat -> resize (length text) (snprintf 20 text) = take 19 text ++ [0].
Proof.
  intros Hl. unfold resize, snprintf. cbn [Nat.sub]. rewrite Hl, length_take, Hl. cbn [Nat.min Nat.sub replicate].
  assert (Hb : length (take 19 text ++ [0]) = 20%nat) by (rewrite length_app, length_take, Hl; done).
  rewrite take_ge by (rewrite Hb; lia). rewrite Hb. cbn [Nat.sub replicate]. by rewrite app_nil_r.
Qed.

(** The text of [m] without its last digit. *)
Lemma dec_cut m : 10 <= m -> take (length (dec 20 m) - 1) (dec 20 m) = dec 19 (m / 10).
Proof.
  intros Hm. rewrite dec_S, (proj2 (Z.ltb_ge m 10)) by done. rewrite length_app. cbn [length].
  rewrite take_app_le by lia. apply take_ge. lia.
Qed.

Lemma c_str_all s t : forallb isdigit s = true -> c_str (s ++ 0 :: t) = s.
Proof. intros. rewrite c_str_digits by done. simpl. apply app_nil_r. Qed.

Lemma c_str_self s : forallb isdigit s = true -> c_str s = s.
Proof. intros. rewrite <-(app_nil_r s) at 1. rewrite c_str_digits by done. apply app_nil_r. Qed.

Lemma dec_20_length m : 0 <= m < 10 ^ 20 -> (length (dec 20 m) <= 20)%nat.
Proof. intros Hm. destruct (dec_ok 20 m) as (_ & _ & _ & Hl); [done|lia|]. apply (Hl 20%nat); [lia|apply Hm]. Qed.

(** The digits that survive the buffer. *)
Lemma dec_through m k :
  0 <= m < 10 ^ 20 -> (0 < k)%nat -> 10 ^ Z.of_nat k <= m < 10 ^ Z.of_nat (S k) ->
  take k (dec 20 m) = dec 19 (m / 10) /\ length (dec 20 m) = S k.
Proof.
  intros Hm Hk Hr. destruct (dec_ok 20 m) as (_ & _ & _ & Hl); [done|lia|].
  assert (Hlen : length (dec 20 m) = S k).
  { pose proof (Hl k Hk). pose proof (Hl (S k) ltac:(lia)). lia. }
  split; [|done]. assert (10 <= m).
  { apply Z.le_trans with (10 ^ Z.of_nat k); [|lia]. change 10 with (10 ^ 1) at 1. apply Z.pow_le_mono_r; lia. }
  rewrite <-(dec_cut m) by done. rewrite Hlen. f_equal. lia.
Qed.

Lemma tenth m : 10 <= m < 10 ^ 20 -> digits (dec 19 (m / 10)) 0 = m / 10 /\ forallb isdigit (dec 19 (m / 10)) = true.
Proof.
  intros Hm. destruct (dec_ok 19 (m / 10)) as (Hd & Hv & _); [|lia|done].
  split; [apply Z.div_pos; lia|]. apply Z.div_lt_upper_bound; lia.
Qed.

(** A signed 64-bit number survives the way to a text and back if its
    text has fewer than 20 characters; a number of -10^18 or below comes back as
    a tenth of itself, because the buffer of 20 bytes has no room for the last
    digit.  The same holds of the narrower integer types, which come back
    unchanged. *)
Theorem number2string_roundtrip w n :
  0 < w <= 64 -> in_s w n ->
  string2number_s w (number2string n) = if n <=? - 10 ^ 18 then - (- n / 10) else n.
Proof.
  intros Hw Hn. assert (H64 : in_s 64 n).
  { unfold in_s in *. assert (2 ^ (w - 1) <= 2 ^ (64 - 1)) by (apply Z.pow_le_mono_r; lia). lia. }
  unfold number2string. rewrite (wrap_s_id 64 n) by (done || lia). unfold in_s in H64.
  change (2 ^ (64 - 1)) with 9223372036854775808 in H64. change (length (resize 20 [])) with 20%nat.
  unfold string2number_s, fmt_i64. destruct (Z.ltb_spec n 0) as [Hneg|Hpos].
  - assert (Hm : 0 <= - n < 10 ^ 20) by lia. destruct (dec_ok 20 (- n)) as (Hd & Hv & _ & Hl); [done|lia|].
    destruct (Z.leb_spec n (- 10 ^ 18)).
    + destruct (dec_through (- n) 18) as [Ht Hlen]; [done|lia|lia|]. destruct (tenth (- n)) as [Hv' Hd']; [lia|].
      rewrite (buffer_20 (45 :: _)) by (cbn [length]; by rewrite Hlen). cbn [take]. rewrite Ht.
      unfold strtoll. cbn [app c_str]. rewrite (proj2 (Z.eqb_neq 45 0)), c_str_all, scan_minus, Hv' by done.
      assert (0 <= - n / 10 <= - n) by (split; [apply Z.div_pos; lia|apply Z.div_le_upper_bound; lia]).
      rewrite Z.max_r by lia. apply wrap_s_id; [lia|]. unfold in_s in *. lia.
    + assert (length (dec 20 (- n)) <= 18)%nat by (apply Hl; lia).
      rewrite (buffer_short (45 :: _)) by (cbn [length]; lia). unfold strtoll. cbn [c_str].
      rewrite (proj2 (Z.eqb_neq 45 0)), c_str_self, scan_minus, Hv by done.
      rewrite Z.opp_involutive, Z.max_r by lia. apply wrap_s_id; [lia|done].
  - assert (Hm : 0 <= n < 10 ^ 20) by lia. destruct (dec_ok 20 n) as (Hd & Hv & _ & Hl); [done|lia|].
    rewrite (proj2 (Z.leb_gt n _)) by lia. assert (length (dec 20 n) <= 19)%nat by (apply Hl; lia).
    rewrite buffer_short by done. unfold strtoll. rewrite c_str_self, scan_digits, Hv by done.
    rewrite Z.min_r by lia. apply wrap_s_id; [lia|done].
Qed.

Lemma number2string_roundtrip_witness :
  string2number_s 64 (number2string (- 2 ^ 63)) = -922337203685477580 /\
  string2number_s 32 (number2string (- 2 ^ 31)) = - 2 ^ 31.
Proof.
  split; [exact (number2string_roundtrip 64 (- 2 ^ 63) ltac:(lia) ltac:(unfold in_s; lia))|].
  exact (number2string_roundtrip 32 (- 2 ^ 31) ltac:(lia) ltac:(unfold in_s; lia)).
Defined.

(** An unsigned 64-bit number survives if it is below 10^19; the larger
    ones lose their last digit. *)
Theorem number2string_u64_roundtrip n :
  in_u 64 n -> string2number_u64 (number2string_u64 n) = if 10 ^ 19 <=? n then n / 10 else n.
Proof.
  intros Hn. unfold number2string_u64, string2number_u64. rewrite (wrap_u_id 64 n) by done.
  change (length (resize 20 [])) with 20%nat. unfold in_u in Hn. change (2 ^ 64) with 18446744073709551616 in Hn.
  assert (Hm : 0 <= n < 10 ^ 20) by lia. destruct (dec_ok 20 n) as (Hd & Hv & _ & Hl); [done|lia|].
  unfold fmt_u64, strtoull. destruct (Z.leb_spec (10 ^ 19) n).
  - destruct (dec_through n 19) as [Ht Hlen]; [done|lia|lia|]. destruct (tenth n) as [Hv' Hd']; [lia|].
    rewrite buffer_20, Ht, c_str_all, scan_digits, Hv' by done.
    assert (n / 10 <= n) by (apply Z.div_le_upper_bound; lia). by rewrite (proj2 (Z.ltb_ge _ _)) by lia.
  - assert (length (dec 20 n) <= 19)%nat by (apply Hl; lia).
    rewrite buffer_short by done. rewrite c_str_self, scan_digits, Hv by done.
    by rewrite (proj2 (Z.ltb_ge _ _)) by lia.
Qed.

Lemma number2string_u64_roundtrip_witness :
  string2number_u64 (number2string_u64 (2 ^ 64 - 1)) = 1844674407370955161.
Proof. exact (number2string_u64_roundtrip (2 ^ 64 - 1) ltac:(unfold in_u; lia)). Defined.

Lemma strncmp0_text a b : 0 ∉ b -> strncmp0 a b (S (length b)) = bool_decide (c_str a = b).
Proof.
  revert a. induction b as [|y b IH]; intros a Hb.
  - simpl. destruct a as [|x a]; simpl; [done|]. destruct (Z.eqb_spec x 0) as [->|]; [done|].
    by rewrite bool_decide_false.
  - apply not_elem_of_cons in Hb as [Hy Hb]. cbn [length]. remember (S (length b)) as n eqn:En. cbn [strncmp0 hd tl].
    destruct a as [|x a]; cbn [hd tl c_str].
    + rewrite (proj2 (Z.eqb_neq 0 y)) by done. by rewrite bool_decide_false.
    + destruct (Z.eqb_spec x y) as [->|Hxy].
      * rewrite (proj2 (Z.eqb_neq y 0)) by done.
        rewrite IH by done. apply bool_decide_ext. split; [by intros ->|by intros [=]].
      * destruct (Z.eqb_spec x 0); [by rewrite bool_decide_false|]. rewrite bool_decide_false; [done|by intros [=]].
Qed.

(** A text converts to a boolean exactly when it is "true" or "false", and
    anything else is the error; but both booleans convert to "true", so false
    comes back as true. *)
Theorem bool_conversion src b :
  (string2number_bool src = Some b <-> c_str src = if b then true_text else false_text) /\
  string2number_bool (number2string_bool b) = Some true.
Proof.
  split; [|by destruct b]. unfold string2number_bool.
  assert (Ht : 0 ∉ true_text) by (by apply (bool_decide_unpack _); vm_compute).
  assert (Hf : 0 ∉ false_text) by (by apply (bool_decide_unpack _); vm_compute).
  rewrite (strncmp0_text src true_text Ht : strncmp0 src true_text 5 = _).
  rewrite (strncmp0_text src false_text Hf : strncmp0 src false_text 6 = _).
  destruct (decide (c_str src = true_text)) as [->|H1]; [|rewrite (bool_decide_false _ H1)].
  { rewrite bool_decide_true by done. destruct b; by split. }
  destruct (decide (c_str src = false_text)) as [->|H2]; [|rewrite (bool_decide_false _ H2)].
  { rewrite bool_decide_true by done. destruct b; by split. }
  destruct b; by split.
Qed.
