(* ===== verification/IpList.v ===== *)
(** * base/ip_list.h: endpoint lists

    [parse_ip_list] cuts its text at semicolons with [strtok], which skips empty
    tokens, and each token at its first colon; [ip_port_t] has an equality, an
    order and a hash for the containers it is a key of.  The theorems: the parser
    works entry by entry and ignores what is no entry, it reads back what is
    written in its format, the order is a strict total order that agrees with the
    equality, and equal endpoints hash alike. *)
From S2P Require Import Prelude Words Memory Hashes StrNum.

Record ip_port_t := IpPort { ip : list Z; port : Z }.

#[export] Instance ip_port_eq_dec : EqDecision ip_port_t.
Proof. solve_decision. Defined.

(** std::string::compare: the first different byte, as unsigned chars, or the
    lengths. *)
Fixpoint compare (l r : list Z) : Z :=
  match l, r with
  | [], [] => 0
  | [], _ :: _ => -1
  | _ :: _, [] => 1
  | a :: l, b :: r => if a <? b then -1 else if b <? a then 1 else compare l r
  end.

(** operator< and operator==. *)
Definition ip_port_lt (lval rval : ip_port_t) : bool :=
  let i := compare (ip lval) (ip rval) in
  if 0 <? i then false else if i <? 0 then true else port lval <? port rval.

Definition ip_port_eqb (lval rval : ip_port_t) : bool :=
  let i := compare (ip lval) (ip rval) in
  if negb (i =? 0) then false else port lval =? port rval.

(** ip_port_hash_t::operator(): the bytes of the ip at [p] and those of the
    port, an int, at [pp]. *)
Definition ip_port_hash (mem : memory) (p pp len : Z) : outcome Z :=
  seed ← bob_hash mem p len 251;
  seed2 ← bob_hash mem pp 4 251;
  Done (u64 (u64 (3 * seed) + u64 (23 * seed2))).

(** strtok(text, ";") and its continuations: the tokens. *)
Fixpoint strtok (s : list Z) (tok : list Z) : list (list Z) :=
  match s with
  | [] => match tok with [] => [] | _ => [tok] end
  | c :: s => if c =? 59 then match tok with [] => strtok s [] | _ => tok :: strtok s [] end
              else strtok s (tok ++ [c])
  end.

(** while ( *p2 != ':' && *p2 != 0) ++p2: what lies before and from [p2] on. *)
Fixpoint find_colon (p : list Z) : list Z * list Z :=
  match p with
  | [] => ([], [])
  | c :: p' => if c =? 58 then ([], p) else let r := find_colon p' in (c :: r.1, r.2)
  end.

Definition atoi (s : list Z) : Z := i32 (strtoll s).

(** The body of the loop over the tokens. *)
Definition parse_token (list : list ip_port_t) (p : Datatypes.list Z) : Datatypes.list ip_port_t :=
  let '(before, p2) := find_colon p in
  match p2 with
  | _ :: rest => list ++ [IpPort before (atoi rest)]
  | [] => list
  end.

Definition parse_ip_list (txt : list Z) (list : list ip_port_t) : Datatypes.list ip_port_t :=
  fold_left parse_token (strtok (c_str txt) []) list.

(** ** The parser *)
Definition plain (s : list Z) : Prop := Forall (fun c => c <> 59 /\ c <> 58 /\ c <> 0) s.

Lemma strtok_tok s tok : 59 ∉ s -> strtok s tok = match tok ++ s with [] => [] | t => [t] end.
Proof.
  revert tok. induction s as [|c s IH]; intros tok Hs; cbn [strtok].
  - rewrite app_nil_r. by destruct tok.
  - apply not_elem_of_cons in Hs as [Hc Hs]. rewrite (proj2 (Z.eqb_neq c 59)), IH by done.
    by rewrite <-app_assoc.
Qed.

Lemma strtok_cut s1 s2 tok : strtok (s1 ++ 59 :: s2) tok = strtok s1 tok ++ strtok s2 [].
Proof.
  revert tok. induction s1 as [|c s1 IH]; intros tok; cbn [app strtok].
  - rewrite Z.eqb_refl. by destruct tok.
  - destruct (c =? 59); [|by rewrite IH]. destruct tok; by rewrite IH.
Qed.

Lemma find_colon_plain s rest : 58 ∉ s -> find_colon (s ++ 58 :: rest) = (s, 58 :: rest).
Proof.
  induction s as [|c s IH]; intros Hs; [done|]. apply not_elem_of_cons in Hs as [Hc Hs].
  cbn [app find_colon]. rewrite (proj2 (Z.eqb_neq c 58)) by done. by rewrite IH.
Qed.

Lemma find_colon_none s : 58 ∉ s -> find_colon s = (s, []).
Proof.
  induction s as [|c s IH]; intros Hs; [done|]. apply not_elem_of_cons in Hs as [Hc Hs].
  cbn [find_colon]. rewrite (proj2 (Z.eqb_neq c 58)) by done. by rewrite IH.
Qed.

Lemma c_str_plain s : 0 ∉ s -> c_str s = s.
Proof.
  induction s as [|c s IH]; intros Hs; [done|]. apply not_elem_of_cons in Hs as [Hc Hs].
  cbn [c_str]. rewrite (proj2 (Z.eqb_neq c 0)) by done. by rewrite IH.
Qed.

Lemma parse_cut s1 s2 acc : 0 ∉ s1 ->
  parse_ip_list (s1 ++ 59 :: s2) acc = parse_ip_list s2 (parse_ip_list s1 acc).
Proof.
  intros Hs. unfold parse_ip_list. rewrite (c_str_plain s1) by done.
  assert (E : c_str (s1 ++ 59 :: s2) = s1 ++ 59 :: c_str s2).
  { clear -Hs. induction s1 as [|c s IH]; [done|]. apply not_elem_of_cons in Hs as [Hc Hs].
    cbn [app c_str]. rewrite (proj2 (Z.eqb_neq c 0)) by done. by rewrite IH. }
  by rewrite E, strtok_cut, fold_left_app.
Qed.

(** The parser reads entry by entry: what stands before and after a
    semicolon is parsed on its own, in order; a piece without a colon, the
    empty one included, adds nothing. *)
Theorem parse_ip_list_pieces s1 s2 acc :
  0 ∉ s1 ->
  parse_ip_list (s1 ++ 59 :: s2) acc = parse_ip_list s2 (parse_ip_list s1 acc) /\
  (58 ∉ s1 -> 59 ∉ s1 -> parse_ip_list s1 acc = acc).
Proof.
  intros Hs. split; [by apply parse_cut|]. intros H58 H59. unfold parse_ip_list.
  rewrite c_str_plain, strtok_tok by done. cbn [app]. destruct s1 as [|c s1]; [done|].
  cbn [fold_left]. unfold parse_token. by rewrite find_colon_none.
Qed.

Lemma parse_ip_list_pieces_witness :
  parse_ip_list ([97; 98] ++ 59 :: [99; 58; 56; 48]) [] = [IpPort [99] 80].
Proof.
  destruct (parse_ip_list_pieces [97; 98] [99; 58; 56; 48] []) as [E1 E2];
    [by apply (bool_decide_unpack _); vm_compute|].
  rewrite E1, E2; [reflexivity|by apply (bool_decide_unpack _); vm_compute..].
Defined.

(** The text of a list: "ip:port;" for each entry. *)
Definition render (l : list ip_port_t) : list Z := l ≫= (fun e => ip e ++ 58 :: fmt_i64 (port e) ++ [59]).

Lemma digits_plain s : forallb isdigit s = true -> (0 ∉ s) /\ (58 ∉ s) /\ (59 ∉ s).
Proof.
  intros Hd. rewrite forallb_forall in Hd.
  assert (H : forall c, isdigit c = false -> c ∉ s).
  { intros c Hc Hin. apply list_elem_of_In, Hd in Hin. congruence. }
  by split_and!; apply H.
Qed.

Lemma fmt_plain n : in_s 32 n -> (0 ∉ fmt_i64 n) /\ (58 ∉ fmt_i64 n) /\ (59 ∉ fmt_i64 n).
Proof.
  unfold in_s. intros Hn. change (2 ^ (32 - 1)) with 2147483648 in Hn. unfold fmt_i64.
  assert (Hp : forall m, 0 <= m <= 2147483648 -> forallb isdigit (dec 20 m) = true).
  { intros m Hm. apply (dec_ok 20 m); lia. }
  destruct (Z.ltb_spec n 0).
  - destruct (digits_plain (dec 20 (- n))) as (?&?&?); [apply Hp; lia|]. by rewrite !not_elem_of_cons.
  - apply digits_plain, Hp. lia.
Qed.

Lemma atoi_fmt n : in_s 32 n -> atoi (fmt_i64 n) = n.
Proof.
  intros Hn. pose proof (fmt_plain n Hn) as (H0 & _). unfold atoi, strtoll. rewrite c_str_plain by done.
  unfold in_s in Hn. change (2 ^ (32 - 1)) with 2147483648 in Hn. unfold fmt_i64. destruct (Z.ltb_spec n 0).
  - destruct (dec_ok 20 (- n)) as (_ & Hv & _); [lia..|]. rewrite scan_minus, Hv, Z.max_r, Z.opp_involutive by lia.
    apply wrap_s_id; [lia|]. unfold in_s. lia.
  - destruct (dec_ok 20 n) as (Hd & Hv & _); [lia..|]. rewrite scan_digits, Hv, Z.min_r by (done || lia).
    apply wrap_s_id; [lia|]. unfold in_s. lia.
Qed.

(** A list written in the parser's format is read back, appended to what
    the output list held, for addresses without separators and ports that fit
    an int. *)
Theorem parse_ip_list_render l acc :
  Forall (fun e => plain (ip e) /\ in_s 32 (port e)) l -> parse_ip_list (render l) acc = acc ++ l.
Proof.
  intros Hl. revert acc. induction Hl as [|e l [Hp Hport] Hl IH]; intros acc; [by rewrite app_nil_r|].
  pose proof (fmt_plain _ Hport) as (F0 & F58 & F59). unfold plain in Hp. rewrite Forall_forall in Hp.
  assert (Hno : forall c, c = 59 \/ c = 58 \/ c = 0 -> c ∉ ip e).
  { intros c Hc Hin. destruct (Hp c Hin) as (?&?&?). naive_solver. }
  unfold render. rewrite bind_cons. fold (render l). rewrite <-!app_assoc. cbn [app]. rewrite <-app_assoc. cbn [app].
  rewrite (app_assoc (ip e) (58 :: fmt_i64 (port e)) (59 :: render l) : ip e ++ 58 :: fmt_i64 (port e) ++ 59 :: render l = (ip e ++ 58 :: fmt_i64 (port e)) ++ 59 :: render l).
  assert (Hall : forall c, c = 59 \/ c = 0 -> c ∉ ip e ++ 58 :: fmt_i64 (port e)).
  { intros c Hc. rewrite not_elem_of_app, not_elem_of_cons. split; [apply Hno; tauto|].
    destruct Hc as [-> | ->]; by split. }
  rewrite parse_cut by auto. rewrite IH. unfold parse_ip_list.
  rewrite c_str_plain, strtok_tok by auto. cbn [app].
  destruct (ip e ++ 58 :: fmt_i64 (port e)) as [|c t] eqn:Et; [by destruct (ip e)|]. rewrite <-Et.
  cbn [fold_left]. unfold parse_token. rewrite find_colon_plain by auto.
  rewrite atoi_fmt by done. rewrite <-app_assoc. by destruct e.
Qed.

Lemma parse_ip_list_render_witness :
  parse_ip_list (render [IpPort [49; 46; 50] 80; IpPort [] (-1)]) [IpPort [120] 7] =
  [IpPort [120] 7; IpPort [49; 46; 50] 80; IpPort [] (-1)].
Proof. apply (parse_ip_list_render [IpPort [49; 46; 50] 80; IpPort [] (-1)]). repeat constructor; done. Defined.

(** ** The order *)
Lemma compare_eq l r : compare l r = 0 <-> l = r.
Proof.
  revert r. induction l as [|a l IH]; intros [|b r]; simpl; try done.
  destruct (Z.ltb_spec a b); [split; [done|intros [= -> _]; lia]|].
  destruct (Z.ltb_spec b a); [split; [done|intros [= -> _]; lia]|].
  rewrite IH. split; [intros ->; f_equal; lia|by intros [= _ ->]].
Qed.

Lemma compare_swap l r : compare r l = - compare l r.
Proof.
  revert r. induction l as [|a l IH]; intros [|b r]; simpl; try done.
  destruct (Z.ltb_spec a b), (Z.ltb_spec b a); lia || apply IH.
Qed.

Lemma compare_trans l m r : compare l m < 0 -> compare m r < 0 -> compare l r < 0.
Proof.
  revert m r. induction l as [|a l IH]; intros [|b m] [|c r]; simpl; try lia.
  destruct (Z.ltb_spec a b), (Z.ltb_spec b a), (Z.ltb_spec b c), (Z.ltb_spec c b), (Z.ltb_spec a c), (Z.ltb_spec c a);
    try lia. apply IH.
Qed.

Lemma ip_port_eqb_eq x y : ip_port_eqb x y = true <-> x = y.
Proof.
  unfold ip_port_eqb. destruct x as [i p], y as [j r]. simpl.
  destruct (Z.eqb_spec (compare i j) 0) as [E|E]; simpl.
  - apply compare_eq in E as ->. rewrite Z.eqb_eq. split; [by intros ->|by intros [= ->]].
  - split; [done|]. intros [= -> _]. by destruct E; apply compare_eq.
Qed.

Lemma ip_port_lt_spec x y : ip_port_lt x y = true <-> compare (ip x) (ip y) < 0 \/ (ip x = ip y /\ port x < port y).
Proof.
  unfold ip_port_lt. rewrite <-compare_eq. destruct (Z.ltb_spec 0 (compare (ip x) (ip y))), (Z.ltb_spec (compare (ip x) (ip y)) 0);
    rewrite ?Z.ltb_lt; (split; [intros|]; lia) || lia.
Qed.

(** [ip_port_t] is a lawful container key: operator== is equality,
    operator< is irreflexive, transitive and total, and the hash of two equal
    endpoints is the same wherever their bytes lie. *)
Theorem ip_port_key_laws x y z :
  (ip_port_eqb x y = true <-> x = y) /\
  ip_port_lt x x = false /\
  (ip_port_lt x y = true -> ip_port_lt y z = true -> ip_port_lt x z = true) /\
  (ip_port_lt x y = true \/ ip_port_lt y x = true \/ ip_port_eqb x y = true) /\
  (forall mem p pp p' pp', bytes_ok mem -> stored mem p (ip x) -> stored mem p' (ip x) -> same_bytes mem mem pp pp' 4 ->
     exists h, ip_port_hash mem p pp (Z.of_nat (length (ip x))) = Done h /\
               ip_port_hash mem p' pp' (Z.of_nat (length (ip x))) = Done h).
Proof.
  split_and!.
  - apply ip_port_eqb_eq.
  - apply not_true_iff_false. rewrite ip_port_lt_spec. rewrite (proj2 (compare_eq _ _)) by done. lia.
  - rewrite !ip_port_lt_spec. intros [H1|[H1 H1']] [H2|[H2 H2']].
    + left. by eapply compare_trans.
    + left. by rewrite <-H2.
    + left. by rewrite H1.
    + right. split; [congruence|lia].
  - rewrite !ip_port_lt_spec, ip_port_eqb_eq. rewrite (compare_swap (ip x) (ip y)).
    destruct (decide (compare (ip x) (ip y) < 0)); [by do 2 left|].
    destruct (decide (0 < compare (ip x) (ip y))); [right; left; left; lia|].
    assert (E : ip x = ip y) by (apply compare_eq; lia). rewrite E.
    destruct (Z.lt_trichotomy (port x) (port y)) as [?|[?|?]]; [by left; right|right; right|by right; left; right].
    destruct x, y; simpl in *; congruence.
  - intros mem p pp p' pp' Hm Hp Hp' Hs. set (n := Z.of_nat _).
    assert (Hsame : same_bytes mem mem p p' n) by (by apply stored_same).
    destruct (bob_hash_same mem mem p p' n 251) as (h1 & E1 & E1'); [done|done|lia|done|].
    destruct (bob_hash_same mem mem pp pp' 4 251) as (h2 & E2 & E2'); [done|done|lia|done|].
    unfold ip_port_hash. rewrite E1, E1', E2, E2'. eexists. split; reflexivity.
Qed.
