(* ===== verification/Component.v ===== *)
(** * Components of a world

    The C code calls back: a task, a timer or a coroutine runs code that may use
    every other part of the program.  A component is therefore modelled on an
    arbitrary world [W] of which it owns one part; [Has C W] is the lens to that
    part, and a callback is a function on [W].  [hoist] runs an operation of the
    component in the world. *)
From S2P Require Import Prelude.

Class Has (C W : Type) := {
  get : W -> C;
  put : C -> W -> W;
  get_put c w : get (put c w) = c;
  put_put c c' w : put c (put c' w) = put c w;
  put_get w : put (get w) w = w;
}.

(** Two components that do not overlap. *)
Class Separate (C D W : Type) `{Has C W, Has D W} := {
  get_put_l (c : C) w : get (C:=D) (put c w) = get w;
  get_put_r (d : D) w : get (C:=C) (put d w) = get w;
}.

Definition hoist {C W} `{Has C W} (f : C -> outcome C) (w : W) : outcome W :=
  c ← f (get w); Done (put c w).

(** A component alone is a world. *)
#[export] Instance has_self C : Has C C :=
  {| get w := w; put c _ := c; get_put c w := eq_refl; put_put c c' w := eq_refl; put_get w := eq_refl |}.

#[export] Instance has_fst C D : Has C (C * D).
Proof. refine {| get w := w.1; put c w := (c, w.2) |}; by intros; destruct w || done. Defined.

#[export] Instance has_snd C D : Has D (C * D).
Proof. refine {| get w := w.2; put d w := (w.1, d) |}; by intros; destruct w || done. Defined.

#[export] Instance separate_pair C D : Separate C D (C * D).
Proof. by split. Qed.

(** An iteration of calls, each on the world the one before left. *)
Fixpoint run_all {A W} (f : A -> W -> outcome W) (l : list A) (w : W) : outcome W :=
  match l with
  | [] => Done w
  | a :: l => w ← f a w; run_all f l w
  end.

Lemma run_all_app {A W} (f : A -> W -> outcome W) l1 l2 w :
  run_all f (l1 ++ l2) w = (w ← run_all f l1 w; run_all f l2 w).
Proof.
  revert w. induction l1 as [|a l1 IH]; intros w; [done|]. simpl. destruct (f a w); simpl; auto.
Qed.
