(* ===== verification/Cells.v ===== *)
(** * List cells of a component

    The [list_head]s a component works with are its named heads, the list heads
    on its stack frames ([LIST_HEAD(queue)]) and the [link_to] members of its
    objects.  The lemmas move a member between a list and the detached members. *)
From S2P Require Import Prelude CList CListStore CListIter.

Inductive cell (H T : Type) := Head (h : H) | Local (n : nat) | Member (t : T).
Arguments Head {H T} h.
Arguments Local {H T} n.
Arguments Member {H T} t.

#[export] Instance cell_eq_dec {H T} `{EqDecision H, EqDecision T} : EqDecision (cell H T).
Proof. solve_decision. Defined.

#[export] Instance cell_countable {H T} `{Countable H, Countable T} : Countable (cell H T).
Proof.
  apply (inj_countable'
    (fun c => match c with Head h => inl (inl h) | Local n => inl (inr n) | Member t => inr t end)
    (fun s => match s with inl (inl h) => Head h | inl (inr n) => Local n | inr t => Member t end)).
  by intros [].
Defined.

#[export] Instance Member_inj {H T} : Inj (=) (=) (@Member H T).
Proof. by intros ?? [=]. Qed.

(** LIST_HEAD(name): a list head on the stack, at a free frame slot. *)
Definition LIST_HEAD {K} `{Countable K} (name : K) (h : heap K) : outcome (heap K) :=
  match h !! name with
  | None => Done (<[name := Link (Some name) (Some name)]> h)
  | Some _ => Fault
  end.

Section cells.
Context {H T : Type} `{Countable H, Countable T}.
Implicit Types (h : heap (cell H T)) (t : T) (l free : list T) (F : list (cell H T * list (cell H T))).

(** The members in no list. *)
Definition detached free : list (cell H T * list (cell H T)) := (fun t => (Member t, [])) <$> free.

Lemma detached_cons t free : detached (t :: free) = (Member t, []) :: detached free.
Proof. done. Qed.

Lemma blocks_app F G : blocks (F ++ G) = blocks F ++ blocks G.
Proof. unfold blocks. apply bind_app. Qed.

Lemma blocks_detached free : blocks (detached free) = Member <$> free.
Proof.
  induction free as [|t free IH]; [done|]. by rewrite detached_cons, blocks_cons, IH.
Qed.

Lemma detached_perm free free' : free ≡ₚ free' -> detached free ≡ₚ detached free'.
Proof. intros Hp. unfold detached. by rewrite Hp. Qed.

(** Every list of a component: its lists by head, and the detached members. *)
Definition lists_of (Ls : list (cell H T * list T)) free : list (cell H T * list (cell H T)) :=
  ((fun p : cell H T * list T => (p.1, Member <$> p.2)) <$> Ls) ++ detached free.

Implicit Types (Ls : list (cell H T * list T)).

Lemma lists_of_cons k l Ls free : lists_of ((k, l) :: Ls) free = (k, Member <$> l) :: lists_of Ls free.
Proof. done. Qed.

Lemma lists_of_perm Ls Ls' free free' :
  Ls ≡ₚ Ls' -> free ≡ₚ free' -> lists_of Ls free ≡ₚ lists_of Ls' free'.
Proof. intros HL Hf. unfold lists_of. by rewrite HL, (detached_perm _ _ Hf). Qed.

#[export] Instance lists_of_proper : Proper ((≡ₚ) ==> (≡ₚ) ==> (≡ₚ)) lists_of.
Proof. intros Ls Ls' HL free free' Hf. by apply lists_of_perm. Qed.

Lemma lists_of_free Ls t free : lists_of Ls (t :: free) ≡ₚ (Member t, []) :: lists_of Ls free.
Proof. unfold lists_of. rewrite detached_cons. by rewrite Permutation_middle. Qed.

(** The members of a store, listed or detached. *)
Definition members Ls free : list T := (Ls ≫= snd) ++ free.

Lemma blocks_lists_of Ls free : blocks (lists_of Ls free) ≡ₚ Ls.*1 ++ (Member <$> members Ls free).
Proof.
  unfold lists_of, members. rewrite blocks_app, blocks_detached, fmap_app.
  rewrite (app_assoc Ls.*1). apply Permutation_app_tail.
  induction Ls as [|[k l] Ls IH]; [done|]. rewrite fmap_cons, blocks_cons, IH, fmap_cons, bind_cons.
  simpl. rewrite fmap_app. apply perm_skip. rewrite !app_assoc. apply Permutation_app_tail, Permutation_app_comm.
Qed.

Lemma members_nodup h Ls free : rings h (lists_of Ls free) -> NoDup (members Ls free).
Proof.
  intros [Hnd _]. rewrite blocks_lists_of in Hnd. apply NoDup_app in Hnd as (_ & _ & Hnd).
  by apply NoDup_fmap_1 in Hnd.
Qed.

(** Operations on members. *)
Lemma cells_add_tail h k l Ls t free :
  rings h (lists_of ((k, l) :: Ls) (t :: free)) ->
  exists h', list_add_tail (Member t) k h = Done h' /\ rings h' (lists_of ((k, l ++ [t]) :: Ls) free) /\ same_cells h h'.
Proof.
  intros HR. rewrite lists_of_free, lists_of_cons in HR.
  assert (Hal : alloc h (Member t)) by (eapply rings_alloc; [exact HR|rewrite blocks_cons; left]).
  apply rings_cons in HR as (_ & _ & Hni & HR).
  destruct (rings_list_add_tail _ _ _ _ (Member t) HR) as (h' & -> & HR' & Hs); [done|apply Hni; left|].
  exists h'. split; [done|]. split; [|done]. rewrite lists_of_cons, fmap_app. exact HR'.
Qed.

Lemma cells_add h k l Ls t free :
  rings h (lists_of ((k, l) :: Ls) (t :: free)) ->
  exists h', list_add (Member t) k h = Done h' /\ rings h' (lists_of ((k, t :: l) :: Ls) free) /\ same_cells h h'.
Proof.
  intros HR. rewrite lists_of_free, lists_of_cons in HR.
  assert (Hal : alloc h (Member t)) by (eapply rings_alloc; [exact HR|rewrite blocks_cons; left]).
  apply rings_cons in HR as (_ & _ & Hni & HR).
  destruct (rings_list_add _ _ _ _ (Member t) HR) as (h' & -> & HR' & Hs); [done|apply Hni; left|].
  exists h'. split; [done|]. split; [|done]. exact HR'.
Qed.

Lemma cells_del_init h k l1 t l2 Ls free :
  rings h (lists_of ((k, l1 ++ t :: l2) :: Ls) free) ->
  exists h', list_del_init (Member t) h = Done h' /\ rings h' (lists_of ((k, l1 ++ l2) :: Ls) (t :: free)) /\
    same_cells h h'.
Proof.
  intros HR. rewrite lists_of_cons, fmap_app, fmap_cons in HR.
  destruct (rings_list_del_init _ _ _ _ _ _ HR) as (h' & -> & HR' & Hs).
  exists h'. split; [done|]. split; [|done]. rewrite lists_of_free, lists_of_cons, fmap_app. exact HR'.
Qed.

Lemma cells_del_init_detached h Ls t free :
  rings h (lists_of Ls (t :: free)) ->
  exists h', list_del_init (Member t) h = Done h' /\ rings h' (lists_of Ls (t :: free)) /\ same_cells h h'.
Proof.
  intros HR. rewrite lists_of_free in HR.
  destruct (rings_list_del_init_detached _ _ _ HR) as (h' & -> & HR' & Hs).
  exists h'. split; [done|]. split; [|done]. by rewrite lists_of_free.
Qed.

Lemma cells_move_tail h k l Ls k' l1 t l2 free :
  rings h (lists_of ((k', l1 ++ t :: l2) :: (k, l) :: Ls) free) ->
  exists h', list_move_tail (Member t) k h = Done h' /\
    rings h' (lists_of ((k, l ++ [t]) :: (k', l1 ++ l2) :: Ls) free) /\ same_cells h h'.
Proof.
  intros HR. rewrite !lists_of_cons, fmap_app, fmap_cons in HR.
  destruct (rings_list_move_tail _ _ _ _ _ _ k (Member <$> l) ((k', Member <$> (l1 ++ l2)) :: lists_of Ls free) HR)
    as (h' & -> & HR' & Hs); [rewrite fmap_app; apply perm_swap|].
  exists h'. split; [done|]. split; [|done]. rewrite !lists_of_cons, fmap_app. exact HR'.
Qed.

Lemma cells_move h k l Ls k' l1 t l2 free :
  rings h (lists_of ((k', l1 ++ t :: l2) :: (k, l) :: Ls) free) ->
  exists h', list_move (Member t) k h = Done h' /\
    rings h' (lists_of ((k, t :: l) :: (k', l1 ++ l2) :: Ls) free) /\ same_cells h h'.
Proof.
  intros HR. rewrite !lists_of_cons, fmap_app, fmap_cons in HR.
  destruct (rings_list_move _ _ _ _ _ _ k (Member <$> l) ((k', Member <$> (l1 ++ l2)) :: lists_of Ls free) HR)
    as (h' & -> & HR' & Hs); [rewrite fmap_app; apply perm_swap|].
  exists h'. split; [done|]. split; [|done]. rewrite !lists_of_cons. exact HR'.
Qed.

Lemma cells_move_tail_same h k l1 t l2 Ls free :
  rings h (lists_of ((k, l1 ++ t :: l2) :: Ls) free) ->
  exists h', list_move_tail (Member t) k h = Done h' /\
    rings h' (lists_of ((k, l1 ++ l2 ++ [t]) :: Ls) free) /\ same_cells h h'.
Proof.
  intros HR. rewrite lists_of_cons, fmap_app, fmap_cons in HR.
  destruct (rings_list_move_tail _ _ _ _ _ _ k (Member <$> (l1 ++ l2)) (lists_of Ls free) HR)
    as (h' & -> & HR' & Hs); [by rewrite fmap_app|].
  exists h'. split; [done|]. split; [|done]. by rewrite lists_of_cons, app_assoc, (fmap_app Member (l1 ++ l2)).
Qed.

Lemma cells_empty h k l Ls free :
  rings h (lists_of ((k, l) :: Ls) free) -> list_empty k h = Done (bool_decide (l = [])).
Proof.
  intros HR. rewrite lists_of_cons in HR. rewrite (rings_empty _ _ _ _ HR). f_equal.
  apply bool_decide_ext. by destruct l.
Qed.

Lemma cells_empty_detached h Ls t free :
  rings h (lists_of Ls (t :: free)) -> list_empty (Member t) h = Done true.
Proof. intros HR. rewrite lists_of_free in HR. by rewrite (rings_empty _ _ _ _ HR). Qed.

Lemma cells_empty_member h k l1 t l2 Ls free :
  rings h (lists_of ((k, l1 ++ t :: l2) :: Ls) free) -> list_empty (Member t) h = Done false.
Proof.
  intros HR. rewrite lists_of_cons, fmap_app, fmap_cons in HR. by rewrite (rings_empty_entry _ _ _ _ _ _ HR).
Qed.

(** A new stack list is empty, and it can be dropped when it is. *)
Lemma cells_LIST_HEAD h n Ls free :
  rings h (lists_of Ls free) -> h !! Local n = None ->
  exists h', LIST_HEAD (Local n) h = Done h' /\ rings h' (lists_of ((Local n, []) :: Ls) free).
Proof.
  intros HR Hn. unfold LIST_HEAD. rewrite Hn. eexists. split; [done|].
  rewrite lists_of_cons. apply rings_cons.
  assert (Hni : Local n ∉ blocks (lists_of Ls free)).
  { intros Hin%(rings_alloc _ _ _ HR)%alloc_Some. rewrite Hn in Hin. by destruct Hin. }
  split_and!.
  - apply (rings_singletons _ [Local n]); [apply NoDup_singleton| |left].
    intros d ->%list_elem_of_singleton. by rewrite lookup_insert_eq.
  - apply NoDup_singleton.
  - by intros x ->%list_elem_of_singleton.
  - by apply rings_insert_fresh.
Qed.

(** A new list takes the members of another one over: it is added to the ring
    in front of them, and the old head is taken out. *)
Lemma cells_take_over h d k l Ls free :
  rings h (lists_of ((k, l) :: Ls) free) -> h !! Head d = None ->
  exists h1 h2 h3, INIT_LIST_HEAD (Head d) (<[Head d := Link None None]> h) = Done h1 /\
    list_add (Head d) k h1 = Done h2 /\ list_del_init k h2 = Done h3 /\
    rings h3 (lists_of ((k, []) :: (Head d, l) :: Ls) free).
Proof.
  intros HR Hd. assert (Hni : Head d ∉ blocks (lists_of ((k, l) :: Ls) free)).
  { intros Hin%(rings_alloc _ _ _ HR)%alloc_Some. rewrite Hd in Hin. by destruct Hin. }
  assert (HR0 : rings (<[Head d := Link None None]> h) (lists_of ((k, l) :: Ls) free)) by by apply rings_insert_fresh.
  destruct (rings_init _ _ (Head d) HR0) as (h1 & E1 & HR1 & _); [apply alloc_Some; by rewrite lookup_insert_eq|done|].
  apply rings_cons in HR1 as ([_ Hal] & _ & _ & HR1). rewrite lists_of_cons in HR1, Hni.
  destruct (rings_list_add _ _ _ _ (Head d) HR1) as (h2 & E2 & HR2 & _); [apply Hal; left|done|].
  apply (rings_rotate _ _ []) in HR2.
  destruct (rings_list_del_init _ _ _ _ _ _ HR2) as (h3 & E3 & HR3 & _). exists h1, h2, h3.
  by rewrite !lists_of_cons, <-(app_nil_r (Member <$> l)).
Qed.

Lemma cells_drop h k l Ls free :
  rings h (lists_of ((k, l) :: Ls) free) -> rings (delete k h) (lists_of Ls free).
Proof.
  intros HR. rewrite lists_of_cons in HR. apply rings_cons in HR as (_ & _ & Hni & HR).
  apply rings_delete_unused; [|done]. apply Hni. left.
Qed.

Lemma cells_drop_member h Ls t free :
  rings h (lists_of Ls (t :: free)) -> rings (delete (Member t) h) (lists_of Ls free).
Proof.
  intros HR. rewrite lists_of_free in HR. apply rings_cons in HR as (_ & _ & Hni & HR).
  apply rings_delete_unused; [|done]. apply Hni. left.
Qed.

Lemma cells_swap h a b la lb Ls free mid :
  rings h (lists_of ((a, la) :: (b, lb) :: Ls) free) -> h !! mid = None ->
  exists h', list_swap mid a b h = Done h' /\ rings h' (lists_of ((a, lb) :: (b, la) :: Ls) free) /\
    same_cells h h'.
Proof.
  intros HR Hm. rewrite !lists_of_cons in HR.
  destruct (rings_list_swap _ _ _ _ _ _ _ HR Hm) as (h' & -> & HR' & Hs). eauto.
Qed.

Lemma same_cells_None h h' (k : cell H T) : same_cells h h' -> h !! k = None -> h' !! k = None.
Proof.
  intros Hs Hk. apply eq_None_not_Some. rewrite <-alloc_Some, (Hs k), alloc_Some.
  rewrite Hk. by intros [? ?].
Qed.

(** Members that point to themselves are detached. *)
Lemma rings_detached h free :
  NoDup free -> (forall t, t ∈ free -> h !! Member t = Some (Link (Some (Member t)) (Some (Member t)))) ->
  rings h (lists_of [] free).
Proof.
  intros Hnd Hh. change (rings h (detached free)).
  assert (detached free = (fun c => (c, [])) <$> (Member <$> free)) as ->
    by exact (list_fmap_compose Member (fun c => (c, [])) free).
  apply rings_singletons; [by apply NoDup_fmap_2; [apply _|]|].
  intros d (t & -> & Ht)%list_elem_of_fmap. auto.
Qed.
End cells.
