(* ===== verification/FixedMempool.v ===== *)
(** * base/fixed_mempool.h, base/src/fixed_mempool.cpp

    A pool of equal blocks.  A freed block is linked into [free_list] through a
    [list_head] in its own first bytes, so the blocks are cells of the list
    heap: a block the client holds has whatever the client wrote there.  The
    operating system is a parameter: the answer to an allocation call.  The
    theorems: rounding of the block size, and for any sequence of calls by a
    client that frees what it holds, exclusive ownership of the blocks, a bounded
    cache and exact counters. *)
From S2P Require Import Prelude CList CListStore CListIter Words Cells.

Section mempool.
Context {K : Type} `{Countable K}.

(** Blocks are the members; the only head is [free_list]. *)
Definition free_list : cell unit K := Head tt.

Record fixed_mempool := Mempool {
  alloc_size : Z; total_num : Z; used_num : Z; free_num : Z; max_num : Z; align_size : Z;
  is_page_alloc : bool;
  fcells : heap (cell unit K) }.

Definition fixed_mempool_t (h : heap (cell unit K)) : outcome fixed_mempool :=
  h ← INIT_LIST_HEAD free_list h; Done (Mempool 0 0 0 0 0 0 false h).

Definition set_cells h p := Mempool (alloc_size p) (total_num p) (used_num p) (free_num p) (max_num p) (align_size p) (is_page_alloc p) h.
Definition set_total n p := Mempool (alloc_size p) (u64 n) (used_num p) (free_num p) (max_num p) (align_size p) (is_page_alloc p) (fcells p).
Definition set_used n p := Mempool (alloc_size p) (total_num p) (u64 n) (free_num p) (max_num p) (align_size p) (is_page_alloc p) (fcells p).

(** g_page_size, with the answer of sysconf. *)
Definition page_size (g sysconf : Z) : Z := if g =? 0 then (if sysconf <=? 0 then -1 else sysconf) else g.

(** (size + unit - 1) / unit * unit in uint64_t. *)
Definition round_up (size unit_ : Z) : Z := u64 (u64 (size + unit_ - 1) / unit_ * unit_).

Definition init (page size max align : Z) (p : fixed_mempool) : fixed_mempool :=
  let '(size, paged) :=
    if (0 <? page) && (page <=? size) then (round_up size page, true)
    else ((if 0 <? align then round_up size align else size), false) in
  Mempool size (total_num p) (used_num p) (free_num p) max align paged (fcells p).

(** The system call of [alloc_mem_help]. *)
Inductive os_call := os_mmap (size : Z) | os_malloc (size : Z) | os_memalign (align size : Z).

Definition alloc_mem_help (p : fixed_mempool) : os_call :=
  if is_page_alloc p then os_mmap (alloc_size p)
  else if 1 <? align_size p then os_malloc (alloc_size p)
  else os_memalign (align_size p) (alloc_size p).

(** munmap or free: the block is gone. *)
Definition free_mem_help (e : K) (p : fixed_mempool) : fixed_mempool := set_cells (delete (Member e) (fcells p)) p.

(** What a call of [alloc] may return: a block, or the value of a system call that
    failed, which is not NULL for mmap. *)
Inductive pointer := NULL | MAP_FAILED | Block (k : K).
Definition failure (c : os_call) : pointer := match c with os_mmap _ => MAP_FAILED | _ => NULL end.

(** [os] answers the system call: [None] when it fails, or a block and the bytes
    that lie in it. *)
Definition alloc (os : os_call -> option (K * link (cell unit K))) (p : fixed_mempool)
    : outcome (pointer * fixed_mempool) :=
  r ← list_pop_head free_list (fcells p);
  let '(n, h) := r in
  let p := set_cells h p in
  match n with
  | Some (Member k) => Done (Block k, set_used (used_num p + 1) p)
  | Some _ => Fault
  | None =>
      let '(n, p) := match os (alloc_mem_help p) with
        | Some (k, junk) => (Block k, set_cells (<[Member k := junk]> (fcells p)) p)
        | None => (failure (alloc_mem_help p), p) end in
      let p := set_total (total_num p + 1) p in
      Done (n, set_used (used_num p + 1) p)
  end.

Definition free (obj : K) (p : fixed_mempool) : outcome fixed_mempool :=
  h ← INIT_LIST_HEAD (Member obj) (fcells p);
  let p := set_cells h p in
  p ← (if max_num p <=? total_num p then Done (free_mem_help obj (set_total (total_num p - 1) p))
       else h ← list_add (Member obj) free_list (fcells p); Done (set_cells h p));
  Done (set_used (used_num p - 1) p).

(** The loop body of [fini]. *)
Definition fini_body (e : cell unit K) (p : fixed_mempool) : outcome (bool * fixed_mempool) :=
  h ← list_del e (fcells p);
  match e with
  | Member k => Done (false, free_mem_help k (set_cells h p))
  | _ => Fault
  end.

Definition fini (fuel : nat) (p : fixed_mempool) : outcome fixed_mempool :=
  list_for_each_safe fcells free_list fini_body fuel p.

(** ** The pool's state: the cached blocks [fs], the blocks [cs] that the client
    holds, and the number [lost] of failed system calls. *)
Record pool_repr (p : fixed_mempool) (fs cs : list K) (lost : nat) : Prop := {
  pr_rings : rings (fcells p) [(free_list, Member <$> fs)];
  pr_nodup : NoDup (fs ++ cs);
  pr_held : forall k, k ∈ cs -> CList.alloc (fcells p) (Member k);
  pr_total : total_num p = u64 (Z.of_nat (length fs + length cs + lost));
  pr_used : used_num p = u64 (Z.of_nat (length cs + lost)) }.

(** The calls of a client, which may also write to the blocks it holds; the result is
    that of [alloc]. *)
Inductive pcall :=
| PAlloc (os : os_call -> option (K * link (cell unit K)))
| PFree (k : K)
| PWrite (k : K) (v : link (cell unit K)).

Definition pexec (c : pcall) (p : fixed_mempool) : outcome (option pointer * fixed_mempool) :=
  match c with
  | PAlloc os => r ← alloc os p; Done (Some r.1, r.2)
  | PFree k => p ← free k p; Done (None, p)
  | PWrite k v => Done (None, set_cells (<[Member k := v]> (fcells p)) p)
  end.

Fixpoint pexecs (cs : list pcall) (p : fixed_mempool) : outcome (list (option pointer) * fixed_mempool) :=
  match cs with
  | [] => Done ([], p)
  | c :: cs => r ← pexec c p; rs ← pexecs cs r.2; Done (r.1 :: rs.1, rs.2)
  end.

(** The abstract pool: a stack of cached blocks and the set of held ones. *)
Record apool := APool { cached : list K; held : list K; lost : nat }.

Variables (maxn : Z) (the_call : os_call).

Definition total (a : apool) : nat := length (cached a) + length (held a) + lost a.

Inductive pmean : pcall -> apool -> option pointer -> apool -> Prop :=
| m_recycle os k fs cs n :
    pmean (PAlloc os) (APool (k :: fs) cs n) (Some (Block k)) (APool fs (k :: cs) n)
| m_grow os k junk cs n :
    os the_call = Some (k, junk) -> k ∉ cs ->
    pmean (PAlloc os) (APool [] cs n) (Some (Block k)) (APool [] (k :: cs) n)
| m_fail os cs n :
    os the_call = None -> pmean (PAlloc os) (APool [] cs n) (Some (failure the_call)) (APool [] cs (S n))
| m_release k fs cs cs' n :
    cs ≡ₚ k :: cs' -> maxn <= Z.of_nat (total (APool fs cs n)) ->
    pmean (PFree k) (APool fs cs n) None (APool fs cs' n)
| m_cache k fs cs cs' n :
    cs ≡ₚ k :: cs' -> Z.of_nat (total (APool fs cs n)) < maxn ->
    pmean (PFree k) (APool fs cs n) None (APool (k :: fs) cs' n)
| m_write k v a : k ∈ held a -> pmean (PWrite k v) a None a.

Inductive pmeans : list pcall -> apool -> list (option pointer) -> apool -> Prop :=
| ms_nil a : pmeans [] a [] a
| ms_cons c cs a r a1 rs a2 :
    Z.of_nat (total a) < 2 ^ 64 - 1 -> pmean c a r a1 -> pmeans cs a1 rs a2 -> pmeans (c :: cs) a (r :: rs) a2.

Definition implements (p : fixed_mempool) (a : apool) : Prop :=
  pool_repr p (cached a) (held a) (lost a) /\ max_num p = maxn /\ alloc_mem_help p = the_call.
End mempool.
Arguments fixed_mempool K {_ _}.
Arguments apool K : clear implicits.
Arguments pcall K : clear implicits.

(** ** Each call implements its meaning *)
Section refine.
Context {K : Type} `{Countable K}.
Variables (maxn : Z) (the_call : os_call).
Implicit Types (p : fixed_mempool K) (fs cs : list K) (a : apool K) (c : pcall K) (calls : list (pcall K)).
#[local] Abbreviation repr := (implements maxn the_call).
#[local] Abbreviation mean := (pmean maxn the_call).

Lemma u64_small z : 0 <= z < 2 ^ 64 -> u64 z = z.
Proof. intros. by apply wrap_u_id. Qed.

Lemma fl_ring_cells p fs cs n k :
  pool_repr p fs cs n -> k ∈ cs -> Member k ∉ blocks [(free_list, Member <$> fs)].
Proof.
  intros [_ Hnd _ _ _] Hk. rewrite blocks_cons. cbn. rewrite app_nil_r.
  rewrite elem_of_cons, list_elem_of_fmap. intros [?|(k' & [= <-] & Hk')]; [done|].
  apply NoDup_app in Hnd as (_ & Hd & _). by apply (Hd k).
Qed.

Lemma exec_recycle os k fs cs n p :
  repr p (APool (k :: fs) cs n) ->
  exists p', alloc os p = Done (Block k, p') /\ repr p' (APool fs (k :: cs) n).
Proof.
  intros ([HR Hnd Hh Ht Hu] & Hm & Hc). cbn in HR, Hnd, Hh, Ht, Hu.
  pose proof (rings_list_pop_head _ _ _ _ HR) as (h & E & HR' & Hs). unfold alloc. rewrite E.
  eexists. split; [reflexivity|]. split; [|done]. apply rings_cons in HR' as (_ & _ & _ & HR'). split; cbn.
  - exact HR'.
  - by rewrite <-Permutation_middle.
  - intros k'. rewrite elem_of_cons. intros Hk. apply Hs. destruct Hk as [->|Hk]; [|by apply Hh].
    eapply rings_alloc; [exact HR|]. rewrite blocks_cons. right. left.
  - rewrite Ht. do 2 f_equal. cbn. lia.
  - rewrite Hu. unfold set_cells, set_used. cbn. rewrite wrap_u_add_l. f_equal. lia.
Qed.

Lemma exec_grow os k junk cs n p :
  repr p (APool [] cs n) -> os the_call = Some (k, junk) -> k ∉ cs ->
  exists p', alloc os p = Done (Block k, p') /\ repr p' (APool [] (k :: cs) n).
Proof.
  intros ([HR Hnd Hh Ht Hu] & Hm & Hc) Ho Hk. cbn in HR, Hnd, Hh, Ht, Hu.
  pose proof (rings_list_pop_head _ _ _ _ HR) as E. unfold alloc. rewrite E. cbn [mbind outcome_bind].
  assert (Hc' : alloc_mem_help (set_cells (fcells p) p) = the_call) by done. rewrite Hc', Ho.
  eexists. split; [reflexivity|]. split; [|done]. split; cbn.
  - apply (rings_cells (fcells p)); [|exact HR]. intros c. rewrite blocks_cons. cbn. intros ->%list_elem_of_singleton.
    by apply lookup_insert_ne.
  - by apply NoDup_cons.
  - intros k'. rewrite elem_of_cons, alloc_Some. intros Hk'. destruct (decide (k' = k)) as [->|].
    + by rewrite lookup_insert_eq.
    + rewrite lookup_insert_ne by congruence. rewrite <-alloc_Some. apply Hh. by destruct Hk'.
  - unfold set_total, set_used. cbn. rewrite Ht. pull_wrap. f_equal. cbn. lia.
  - rewrite Hu. pull_wrap. f_equal. lia.
Qed.

Lemma exec_fail os cs n p :
  repr p (APool [] cs n) -> os the_call = None ->
  exists p', alloc os p = Done (failure the_call, p') /\ repr p' (APool [] cs (S n)).
Proof.
  intros ([HR Hnd Hh Ht Hu] & Hm & Hc) Ho. cbn in HR, Hnd, Hh, Ht, Hu.
  pose proof (rings_list_pop_head _ _ _ _ HR) as E. unfold alloc. rewrite E. cbn [mbind outcome_bind].
  assert (Hc' : alloc_mem_help (set_cells (fcells p) p) = the_call) by done. rewrite Hc', Ho.
  eexists. split; [reflexivity|]. split; [|done]. split; cbn; [done..| |].
  - unfold set_total, set_used. cbn. rewrite Ht. pull_wrap. f_equal. cbn. lia.
  - rewrite Hu. pull_wrap. f_equal. lia.
Qed.

(** The state of a held block once [free] has made it a list entry. *)
Lemma free_init k fs cs cs' n p :
  repr p (APool fs cs n) -> cs ≡ₚ k :: cs' ->
  exists h, INIT_LIST_HEAD (Member k) (fcells p) = Done h /\
    rings h [(Member k, []); (free_list, Member <$> fs)] /\ same_cells (fcells p) h.
Proof.
  intros (HP & _) Hp. assert (Hk : k ∈ cs) by (rewrite Hp; left). pose proof HP as [HR Hnd Hh _ _].
  apply rings_init; [done|by apply Hh|by eapply fl_ring_cells].
Qed.

Lemma held_rest k cs cs' : NoDup cs -> cs ≡ₚ k :: cs' -> k ∉ cs'.
Proof. intros Hnd Hp. rewrite Hp in Hnd. by apply NoDup_cons in Hnd as [? _]. Qed.

Lemma exec_release k fs cs cs' n p :
  repr p (APool fs cs n) -> Z.of_nat (total (APool fs cs n)) < 2 ^ 64 - 1 -> cs ≡ₚ k :: cs' ->
  maxn <= Z.of_nat (total (APool fs cs n)) ->
  exists p', free k p = Done p' /\ repr p' (APool fs cs' n).
Proof.
  intros HI Htot Hp Hmax. destruct (free_init _ _ _ _ _ _ HI Hp) as (h & E & HR' & Hs).
  destruct HI as ([HR Hnd Hh Ht Hu] & Hm & Hc). cbn in HR, Hnd, Hh, Ht, Hu, Htot, Hmax. unfold total in *. cbn in Htot, Hmax.
  pose proof (Permutation_length Hp) as Hlen. cbn in Hlen.
  unfold free. rewrite E. cbn [mbind outcome_bind]. cbn [max_num total_num set_cells].
  rewrite Hm, Ht, u64_small by lia. rewrite (proj2 (Z.leb_le _ _)) by lia.
  apply rings_cons in HR' as (_ & _ & Hni & HR'). apply NoDup_app in Hnd as (Hfs & Hd & Hcs).
  pose proof (held_rest _ _ _ Hcs Hp) as Hk.
  eexists. split; [reflexivity|]. split; [|done]. split; cbn.
  - apply rings_delete_unused; [|done]. apply Hni. left.
  - apply NoDup_app. split_and!; [done| |rewrite Hp in Hcs; by apply NoDup_cons in Hcs as [_ ?]].
    intros x Hx Hx'. apply (Hd x Hx). rewrite Hp. by right.
  - intros x Hx. rewrite alloc_Some. rewrite lookup_delete_ne by congruence. rewrite <-alloc_Some.
    apply Hs, Hh. rewrite Hp. by right.
  - unfold set_total. cbn. f_equal. lia.
  - rewrite Hu. pull_wrap. rewrite wrap_u_sub_l. f_equal. lia.
Qed.

Lemma exec_cache k fs cs cs' n p :
  repr p (APool fs cs n) -> Z.of_nat (total (APool fs cs n)) < 2 ^ 64 - 1 -> cs ≡ₚ k :: cs' ->
  Z.of_nat (total (APool fs cs n)) < maxn ->
  exists p', free k p = Done p' /\ repr p' (APool (k :: fs) cs' n).
Proof.
  intros HI Htot Hp Hmax. destruct (free_init _ _ _ _ _ _ HI Hp) as (h & E & HR' & Hs).
  destruct HI as ([HR Hnd Hh Ht Hu] & Hm & Hc). cbn in HR, Hnd, Hh, Ht, Hu. unfold total in *. cbn in Htot, Hmax.
  pose proof (Permutation_length Hp) as Hlen. cbn in Hlen.
  unfold free. rewrite E. cbn [mbind outcome_bind]. cbn [max_num total_num set_cells fcells].
  rewrite Hm, Ht, u64_small by lia. rewrite (proj2 (Z.leb_gt _ _)) by lia.
  assert (Hal : CList.alloc h (Member k)) by (eapply rings_alloc; [exact HR'|rewrite blocks_cons; left]).
  apply rings_cons in HR' as (_ & _ & Hni & HR').
  destruct (rings_list_add _ _ _ _ (Member k) HR') as (h2 & E2 & HR2 & Hs2); [done|apply Hni; left|].
  rewrite E2. cbn [mbind outcome_bind].
  eexists. split; [reflexivity|]. split; [|done]. split; cbn.
  - exact HR2.
  - rewrite Hp in Hnd. by rewrite (Permutation_middle fs cs' k).
  - intros x Hx. apply Hs2, Hs, Hh. rewrite Hp. by right.
  - rewrite Ht. f_equal. lia.
  - rewrite Hu. rewrite wrap_u_sub_l. f_equal. lia.
Qed.

Lemma exec_write k v a p :
  repr p a -> k ∈ held a -> repr (set_cells (<[Member k := v]> (fcells p)) p) a.
Proof.
  intros (HP & Hm & Hc) Hk. split; [|done]. pose proof (fl_ring_cells _ _ _ _ _ HP Hk) as Hni.
  destruct HP as [HR Hnd Hh Ht Hu]. split; cbn; try done.
  - apply (rings_cells (fcells p)); [|done]. intros c Hin. apply lookup_insert_ne. by intros <-.
  - intros x Hx. rewrite alloc_Some. destruct (decide (x = k)) as [->|]; [by rewrite lookup_insert_eq|].
    rewrite lookup_insert_ne by congruence. rewrite <-alloc_Some. by apply Hh.
Qed.

Lemma pmean_sound c a r a' p :
  Z.of_nat (total a) < 2 ^ 64 - 1 -> mean c a r a' -> repr p a ->
  exists p', pexec c p = Done (r, p') /\ repr p' a'.
Proof.
  intros Htot Hm. revert Htot. destruct Hm; intros Htot HI; cbn [pexec].
  - destruct (exec_recycle os _ _ _ _ _ HI) as (p' & -> & ?). by exists p'.
  - edestruct exec_grow as (p' & -> & ?); [exact HI|eassumption..|]. by exists p'.
  - edestruct exec_fail as (p' & -> & ?); [exact HI|eassumption..|]. by exists p'.
  - edestruct exec_release as (p' & -> & ?); [exact HI|exact Htot|eassumption..|]. by exists p'.
  - edestruct exec_cache as (p' & -> & ?); [exact HI|exact Htot|eassumption..|]. by exists p'.
  - eexists. split; [done|]. by apply exec_write.
Qed.

(** C34: the pool implements a stack of cached blocks plus the set of blocks
    the client holds.  Every sequence of allocations, frees of held blocks and
    writes to held blocks runs without a fault whatever the client writes;
    an allocated block is one the client does not hold; blocks are recycled last
    freed first; a block goes back to the system exactly when it is freed while
    [total_num] has reached [max_num]; and the two counters are exact, failed
    system calls, whose value alloc returns, included. *)
Theorem mempool_refines calls a rs a' p :
  pmeans maxn the_call calls a rs a' -> repr p a ->
  exists p', pexecs calls p = Done (rs, p') /\ repr p' a'.
Proof.
  intros Hm. revert p. induction Hm as [a|c cs a r a1 rs a2 Ht Hc _ IH]; intros p HI; [by exists p|].
  destruct (pmean_sound _ _ _ _ _ Ht Hc HI) as (p1 & E & HI1).
  destruct (IH _ HI1) as (p2 & E2 & HI2). exists p2. split; [|done].
  cbn [pexecs]. rewrite E. cbn [mbind outcome_bind fst snd]. by rewrite E2.
Qed.

(** The cache is bounded. *)
Lemma pmean_cache_bound c a r a' :
  mean c a r a' -> Z.of_nat (length (cached a)) <= Z.max 0 maxn -> Z.of_nat (length (cached a')) <= Z.max 0 maxn.
Proof. destruct 1; intros Hb; unfold total in *; cbn in *; lia. Qed.

(** The pool caches at most [max_num] free blocks, whatever the client
    does. *)
Theorem mempool_cache_bounded calls a rs a' :
  pmeans maxn the_call calls a rs a' -> Z.of_nat (length (cached a)) <= Z.max 0 maxn ->
  Z.of_nat (length (cached a')) <= Z.max 0 maxn.
Proof.
  intros Hm. induction Hm as [a|c cs a r a1 rs a2 Ht Hc _ IH]; intros Hb; [done|].
  apply IH. by eapply pmean_cache_bound.
Qed.
End refine.

(** ** Block sizes *)
Lemma round_up_ok size unit_ :
  0 <= size -> 0 < unit_ -> size + unit_ <= 2 ^ 64 ->
  (unit_ | round_up size unit_) /\ size <= round_up size unit_ < size + unit_.
Proof.
  intros Hs Hu Hb. unfold round_up. rewrite (wrap_u_id 64 (size + unit_ - 1)) by (unfold in_u; lia).
  pose proof (Z_div_mod_eq_full (size + unit_ - 1) unit_). pose proof (Z.mod_pos_bound (size + unit_ - 1) unit_ Hu).
  assert (0 <= (size + unit_ - 1) / unit_) by (apply Z.div_pos; lia).
  rewrite wrap_u_id by (unfold in_u; nia). split; [by exists ((size + unit_ - 1) / unit_)|nia].
Qed.

(** The block size that [init] chooses holds the requested size, is a
    multiple of the page size for blocks of a page or more and of the alignment
    for smaller ones, and exceeds the request by less than one unit, as long as
    rounding does not overflow 64 bits; but the block of an aligned pool is then
    asked from malloc, without the alignment. *)
Theorem init_block_size {K} `{Countable K} page size max align (p : fixed_mempool K) :
  0 < page < 2 ^ 63 -> 0 <= size -> 0 <= align < 2 ^ 31 -> size + 2 ^ 63 <= 2 ^ 64 ->
  let p' := init page size max align p in
  size <= alloc_size p' /\ max_num p' = max /\
  (page <= size -> is_page_alloc p' = true /\ (page | alloc_size p') /\ alloc_size p' < size + page) /\
  (size < page -> is_page_alloc p' = false /\
     (0 < align -> (align | alloc_size p') /\ alloc_size p' < size + align) /\
     (1 < align -> alloc_mem_help p' = os_malloc (alloc_size p'))).
Proof.
  intros Hp Hs Ha Hb p'. unfold p', init, alloc_mem_help. rewrite (proj2 (Z.ltb_lt 0 page)) by lia. simpl.
  destruct (Z.leb_spec page size); simpl.
  - destruct (round_up_ok size page) as [Hd Hr]; [lia..|]. split; [lia|]. split; [done|]. split; [intros _; split_and!; [done|done|lia]|intros; lia].
  - destruct (Z.ltb_spec 0 align); simpl.
    + destruct (round_up_ok size align) as [Hd Hr]; [lia..|]. split; [lia|]. split; [done|]. split; [intros; lia|].
      intros _. split; [done|]. split; [intros _; split; [done|lia]|]. intros Hal. by rewrite (proj2 (Z.ltb_lt 1 align)).
    + split; [lia|]. split; [done|]. split; [intros; lia|]. intros _. split; [done|]. split; intros; lia.
Qed.

(** ** The hypotheses can hold *)
Definition junk : link (cell unit nat) := Link None None.

(** A system that hands out the blocks 7, 8, .. *)
Definition os_gives (k : nat) (c : os_call) : option (nat * link (cell unit nat)) := Some (k, junk).

Definition new_pool (max : Z) : outcome (fixed_mempool nat) :=
  p ← fixed_mempool_t (<[free_list := junk]> ∅); Done (init 4096 40 max 0 p).

Definition sample_calls : list (pcall nat) :=
  [PAlloc (os_gives 7); PWrite 7%nat (Link (Some (Member 3%nat)) None); PAlloc (os_gives 8); PFree 7%nat; PFree 8%nat;
   PAlloc (os_gives 9)].

Lemma new_pool_implements :
  exists p, new_pool 2 = Done p /\ implements 2 (os_memalign 0 40) p (APool [] [] 0).
Proof.
  eexists. split; [vm_compute; reflexivity|]. split; [|done]. split; try done.
  - apply (rings_singletons _ [free_list]); [apply NoDup_singleton|].
    intros d ->%list_elem_of_singleton. vm_compute. reflexivity.
  - constructor.
  - intros k Hk. by apply not_elem_of_nil in Hk.
Qed.

Lemma sample_pmeans :
  pmeans 2 (os_memalign 0 40) sample_calls (APool [] [] 0)
    [Some (Block 7%nat); None; Some (Block 8%nat); None; None; Some (Block 8%nat)] (APool [] [8%nat] 0).
Proof.
  unfold sample_calls.
  eapply ms_cons; [done|by apply (m_grow _ _ _ 7%nat junk); [|set_solver]|].
  eapply ms_cons; [done|apply m_write; left|].
  eapply ms_cons; [done|apply (m_grow _ _ _ 8%nat junk); [done|set_solver]|].
  eapply ms_cons; [done|apply (m_release _ _ _ _ _ [8%nat]); [apply perm_swap|done]|].
  eapply ms_cons; [done|apply (m_cache _ _ _ _ _ []); [done|done]|].
  eapply ms_cons; [done|apply m_recycle|]. constructor.
Qed.

Lemma mempool_refines_witness :
  exists p p', new_pool 2 = Done p /\
    pexecs sample_calls p = Done ([Some (Block 7%nat); None; Some (Block 8%nat); None; None; Some (Block 8%nat)], p').
Proof.
  destruct new_pool_implements as (p & E & HI).
  destruct (mempool_refines 2 (os_memalign 0 40) _ _ _ _ p sample_pmeans HI) as (p' & E' & _). eauto.
Defined.

Lemma mempool_cache_bounded_witness :
  Z.of_nat (length (cached (APool [] [8%nat] 0))) <= Z.max 0 2.
Proof. apply (mempool_cache_bounded 2 (os_memalign 0 40) _ _ _ _ sample_pmeans). done. Defined.

Lemma init_block_size_witness :
  (8 | alloc_size (init 4096 42 10 8 (Mempool 0 0 0 0 0 0 false (∅ : heap (cell unit nat))))).
Proof. apply (init_block_size 4096 42 10 8); lia. Defined.
