(* ===== verification/Fifo.v ===== *)
(** * base/fifo.h, base/lifo.h: queues and stacks of pointers

    [Fifo] keeps its nodes in two intrusive lists, [Lifo] in two singly linked
    ones; a popped node goes to the free list and is used again.  The theorems:
    each is its abstract queue or stack, with nodes recycled so that no more are
    made than the container ever held; [Lifo::clear] gives every value to the
    destructor function and every node back; [Fifo]'s destructor does so only
    for a container that never held anything, because its loops are not the
    [_safe] ones. *)
From S2P Require Import Prelude CList CListStore CListIter Cells.

(** ** base/fifo.h *)
Inductive fifo_head := UsedList | FreeList.

#[export] Instance fifo_head_eq_dec : EqDecision fifo_head.
Proof. solve_decision. Defined.
#[export] Instance fifo_head_countable : Countable fifo_head.
Proof.
  apply (inj_countable' (fun h => match h with UsedList => true | FreeList => false end)
    (fun b : bool => if b then UsedList else FreeList)). by intros [].
Defined.

Section fifo.
Context {K : Type} `{Countable K}.

(** The nodes: their [link] cells and their [value] fields; [void *] values are
    addresses. *)
Record Fifo := MkFifo { qcells : heap (cell fifo_head K); qvalues : gmap K Z }.

Implicit Types (q : Fifo) (k : K) (v : Z).

Definition fifo_used : cell fifo_head K := Head UsedList.
Definition fifo_free : cell fifo_head K := Head FreeList.

(** Fifo::Fifo on the memory of the two heads. *)
Definition Fifo_create q : outcome Fifo :=
  h ← INIT_LIST_HEAD fifo_used (qcells q);
  h ← INIT_LIST_HEAD fifo_free h;
  Done (MkFifo h (qvalues q)).

(** new node_type() at the address [k] that the allocator returned. *)
Definition new_node k q : outcome Fifo :=
  match qvalues q !! k with
  | Some _ => Fault
  | None =>
      h ← INIT_LIST_HEAD (Member k) (<[Member k := Link None None]> (qcells q));
      Done (MkFifo h (<[k := 0]> (qvalues q)))
  end.

Definition set_value k v q : outcome Fifo :=
  _ ← of_option (qvalues q !! k); Done (MkFifo (qcells q) (<[k := v]> (qvalues q))).

(** [fresh] is the node that [new] returns, if the call is made. *)
Definition Fifo_push (fresh : K) v q : outcome Fifo :=
  e ← list_empty fifo_free (qcells q);
  if (e : bool) then
    q ← new_node fresh q;
    q ← set_value fresh v q;
    h ← list_add_tail (Member fresh) fifo_used (qcells q);
    Done (MkFifo h (qvalues q))
  else
    n ← get_next (Some fifo_free) (qcells q);
    match n with
    | Some (Member n) =>
        q ← set_value n v q;
        h ← list_move_tail (Member n) fifo_used (qcells q);
        Done (MkFifo h (qvalues q))
    | _ => Fault
    end.

Definition Fifo_empty q : outcome bool := list_empty fifo_used (qcells q).

(** NULL is 0. *)
Definition Fifo_pop q : outcome (Z * Fifo) :=
  e ← list_empty fifo_used (qcells q);
  if (e : bool) then Done (0, q)
  else
    n ← get_next (Some fifo_used) (qcells q);
    match n with
    | Some (Member n) =>
        h ← list_move (Member n) fifo_free (qcells q);
        v ← of_option (qvalues q !! n);
        Done (v, MkFifo h (qvalues q))
    | _ => Fault
    end.

(** delete e *)
Definition delete_node k q : outcome Fifo :=
  _ ← of_option (qvalues q !! k);
  Done (MkFifo (delete (Member k) (qcells q)) (delete k (qvalues q))).

(** The bodies of the destructor's two loops; [fini] collects the values given
    to [obj_fini_func]. *)
Definition dtor_used (c : cell fifo_head K) (s : list Z * Fifo) : outcome (bool * (list Z * Fifo)) :=
  match c with
  | Member k =>
      v ← of_option (qvalues s.2 !! k);
      q ← delete_node k s.2;
      Done (false, (s.1 ++ [v], q))
  | _ => Fault
  end.

Definition dtor_free (c : cell fifo_head K) (s : list Z * Fifo) : outcome (bool * (list Z * Fifo)) :=
  match c with
  | Member k => q ← delete_node k s.2; Done (false, (s.1, q))
  | _ => Fault
  end.

Definition Fifo_destroy (fuel : nat) q : outcome (list Z * Fifo) :=
  s ← list_for_each (fun s : list Z * Fifo => qcells s.2) fifo_used dtor_used fuel ([], q);
  list_for_each (fun s : list Z * Fifo => qcells s.2) fifo_free dtor_free fuel s.

(** ** The queue: its values in order, and the spare nodes. *)
Record fifo_repr q (used free : list K) (vs : list Z) : Prop := {
  fr_rings : rings (qcells q) (lists_of [(fifo_used, used); (fifo_free, free)] []);
  fr_values : Forall2 (fun k v => qvalues q !! k = Some v) used vs;
  fr_nodes : forall k, k ∈ used ++ free <-> is_Some (qvalues q !! k) }.

Lemma fifo_nodup q used free vs : fifo_repr q used free vs -> NoDup (used ++ free).
Proof.
  intros [HR _ _]. apply members_nodup in HR. unfold members in HR. rewrite !bind_cons in HR. simpl in HR.
  by rewrite !app_nil_r in HR.
Qed.

Lemma fifo_push_new q used vs k v :
  fifo_repr q used [] vs -> qvalues q !! k = None ->
  exists q', Fifo_push k v q = Done q' /\ fifo_repr q' (used ++ [k]) [] (vs ++ [v]).
Proof.
  intros HF Hk. pose proof HF as [HR HV HN]. unfold Fifo_push.
  assert (Hp : lists_of [(fifo_used, used); (fifo_free, [])] [] ≡ₚ lists_of [(fifo_free, []); (fifo_used, used)] [])
    by (apply lists_of_perm; [apply perm_swap|done]).
  assert (HR2 := HR). rewrite Hp in HR2. rewrite (cells_empty _ _ _ _ _ HR2). cbn [mbind outcome_bind].
  rewrite bool_decide_true by done. unfold new_node. rewrite Hk.
  set (h0 := <[Member k := Link None None]> (qcells q)).
  assert (Hni : Member k ∉ blocks (lists_of [(fifo_used, used); (fifo_free, [])] [])).
  { rewrite blocks_lists_of. unfold members. rewrite !bind_cons. simpl. rewrite !app_nil_r.
    rewrite !elem_of_cons, list_elem_of_fmap. intros [?|[?|(k' & [= <-] & Hk')]]; [done..|].
    assert (Hin : k ∈ used ++ []) by (by rewrite app_nil_r). apply HN in Hin. rewrite Hk in Hin. by destruct Hin. }
  assert (HR0 : rings h0 (lists_of [(fifo_used, used); (fifo_free, [])] [])).
  { apply (rings_cells (qcells q)); [|done]. intros c Hc. apply lookup_insert_ne. by intros <-. }
  destruct (rings_init h0 _ (Member k) HR0) as (h1 & -> & HR1 & Hs1); [by apply alloc_Some; unfold h0; rewrite lookup_insert_eq|done|].
  cbn [mbind outcome_bind]. unfold set_value. cbn [qvalues qcells]. rewrite lookup_insert_eq. cbn [of_option mbind outcome_bind qvalues qcells].
  rewrite <-lists_of_free in HR1. destruct (cells_add_tail _ _ _ _ _ _ HR1) as (h2 & -> & HR3 & _).
  eexists. split; [reflexivity|]. split; cbn [qcells qvalues].
  - done.
  - rewrite insert_insert_eq. apply Forall2_app; [|by repeat constructor; rewrite lookup_insert_eq].
    eapply Forall2_impl; [exact HV|]. intros k' v' Hk'. cbv beta in *. rewrite lookup_insert_ne; [done|congruence].
  - intros k'. rewrite insert_insert_eq, app_nil_r, elem_of_app, list_elem_of_singleton.
    specialize (HN k'). rewrite app_nil_r in HN. destruct (decide (k' = k)) as [->|].
    + rewrite lookup_insert_eq. split; [by eauto|by right].
    + rewrite lookup_insert_ne by done. rewrite <-HN. tauto.
Qed.

Lemma fifo_push_reuse q used f free vs fresh v :
  fifo_repr q used (f :: free) vs ->
  exists q', Fifo_push fresh v q = Done q' /\ fifo_repr q' (used ++ [f]) free (vs ++ [v]).
Proof.
  intros HF. pose proof HF as [HR HV HN]. unfold Fifo_push.
  assert (Hp : lists_of [(fifo_used, used); (fifo_free, f :: free)] [] ≡ₚ lists_of [(fifo_free, f :: free); (fifo_used, used)] [])
    by (apply lists_of_perm; [apply perm_swap|done]).
  assert (HR2 := HR). rewrite Hp in HR2. rewrite (cells_empty _ _ _ _ _ HR2). cbn [mbind outcome_bind].
  rewrite bool_decide_false by done. pose proof HR2 as HR2'. rewrite lists_of_cons in HR2'.
  rewrite (rings_head_next _ _ _ _ HR2'). cbn [mbind outcome_bind fmap list_fmap app list.head].
  assert (Hf : is_Some (qvalues q !! f)) by (apply HN, elem_of_app; right; left).
  destruct Hf as [v0 Hv0]. unfold set_value. rewrite Hv0. cbn [of_option mbind outcome_bind qcells qvalues].
  destruct (cells_move_tail _ _ _ _ _ [] f free [] HR2) as (h1 & -> & HR1 & _).
  assert (Hnf : f ∉ used).
  { apply fifo_nodup in HF. apply NoDup_app in HF as (_ & Hd & _). intros Hin. apply (Hd f Hin). left. }
  eexists. split; [reflexivity|]. split; cbn [qcells qvalues].
  - exact HR1.
  - apply Forall2_app; [|by repeat constructor; rewrite lookup_insert_eq].
    assert (HV' : Forall2 (fun k v => k ∈ used /\ qvalues q !! k = Some v) used vs).
    { apply Forall2_same_length_lookup. apply Forall2_same_length_lookup in HV as [Hl HV]. split; [done|].
      intros i x y Hx Hy. split; [by eapply list_elem_of_lookup_2|by eapply HV]. }
    eapply Forall2_impl; [exact HV'|]. intros k' v' [Hin Hk']. cbv beta in *. rewrite lookup_insert_ne; [done|congruence].
  - intros k'. specialize (HN k'). rewrite !elem_of_app, list_elem_of_singleton in *. rewrite elem_of_cons in HN.
    destruct (decide (k' = f)) as [->|].
    + rewrite lookup_insert_eq. split; [by eauto|by left; right].
    + rewrite lookup_insert_ne by done. rewrite <-HN. tauto.
Qed.

Lemma fifo_empty q used free vs : fifo_repr q used free vs -> Fifo_empty q = Done (bool_decide (used = [])).
Proof. intros [HR _ _]. apply (cells_empty _ _ _ _ _ HR). Qed.

Lemma fifo_pop_empty q free vs : fifo_repr q [] free vs -> Fifo_pop q = Done (0, q).
Proof. intros [HR _ _]. unfold Fifo_pop. by rewrite (cells_empty _ _ _ _ _ HR). Qed.

Lemma fifo_pop_first q k used free v vs :
  fifo_repr q (k :: used) free (v :: vs) ->
  exists q', Fifo_pop q = Done (v, q') /\ fifo_repr q' used (k :: free) vs.
Proof.
  intros [HR HV HN]. unfold Fifo_pop. rewrite (cells_empty _ _ _ _ _ HR). cbn [mbind outcome_bind].
  rewrite bool_decide_false by done. pose proof HR as HR'. rewrite lists_of_cons in HR'.
  rewrite (rings_head_next _ _ _ _ HR'). cbn [mbind outcome_bind fmap list_fmap app list.head].
  destruct (cells_move _ _ _ _ _ [] k used [] HR) as (h1 & -> & HR1 & _).
  apply Forall2_cons in HV as [Hv HV]. rewrite Hv. cbn [of_option mbind outcome_bind].
  eexists. split; [reflexivity|]. split; cbn [qcells qvalues].
  - eapply rings_perm; [|exact HR1]. apply lists_of_perm; [apply perm_swap|done].
  - done.
  - intros k'. rewrite <-HN. rewrite !elem_of_app, !elem_of_cons. tauto.
Qed.

(** The destructor of an empty container ends; of any other it follows a link
    of a deleted node. *)
Lemma delete_node_ok q k v : qvalues q !! k = Some v ->
  delete_node k q = Done (MkFifo (delete (Member k) (qcells q)) (delete k (qvalues q))).
Proof. intros Hk. unfold delete_node. by rewrite Hk. Qed.

Lemma fifo_destroy_fresh q fuel :
  fifo_repr q [] [] [] -> Fifo_destroy (S fuel) q = Done ([], q).
Proof.
  intros [HR _ _]. rewrite !lists_of_cons in HR. unfold Fifo_destroy, list_for_each.
  cbn [snd]. rewrite (rings_head_next _ _ _ _ HR). cbn [mbind outcome_bind fmap list_fmap app list.head for_each_from].
  rewrite bool_decide_true by done. cbn [mbind outcome_bind snd].
  assert (HR2 : rings (qcells q) ((fifo_free, []) :: (fifo_used, []) :: lists_of [] []))
    by (by eapply rings_perm; [apply perm_swap|]).
  rewrite (rings_head_next _ _ _ _ HR2). cbn [mbind outcome_bind app list.head for_each_from].
  by rewrite bool_decide_true.
Qed.

Lemma fifo_destroy_fault q used free vs fuel :
  fifo_repr q used free vs -> used ++ free <> [] -> Fifo_destroy (S fuel) q = Fault.
Proof.
  intros HF Hne. pose proof HF as [HR HV HN]. unfold Fifo_destroy, list_for_each. cbn [snd].
  pose proof HR as HR1. rewrite lists_of_cons in HR1.
  destruct used as [|k used].
  - rewrite (rings_head_next _ _ _ _ HR1). cbn [mbind outcome_bind fmap list_fmap app list.head for_each_from].
    rewrite bool_decide_true by done. cbn [mbind outcome_bind snd].
    assert (HR2 : rings (qcells q) (lists_of [(fifo_free, free); (fifo_used, [])] []))
      by (eapply rings_perm; [apply lists_of_perm; [apply perm_swap|done]|exact HR]).
    rewrite lists_of_cons in HR2. rewrite (rings_head_next _ _ _ _ HR2). destruct free as [|k free]; [done|].
    cbn [mbind outcome_bind fmap list_fmap app list.head for_each_from].
    rewrite bool_decide_false by done. cbn [of_option mbind outcome_bind dtor_free snd].
    destruct (proj1 (HN k) ltac:(left)) as [v Hv]. rewrite (delete_node_ok _ _ _ Hv).
    cbn [mbind outcome_bind fst snd qcells]. unfold get_next. cbn [mbind outcome_bind of_option].
    by rewrite lookup_delete_eq.
  - rewrite (rings_head_next _ _ _ _ HR1). cbn [mbind outcome_bind fmap list_fmap app list.head for_each_from].
    rewrite bool_decide_false by done. cbn [of_option mbind outcome_bind dtor_used snd].
    destruct (proj1 (HN k) ltac:(left)) as [v Hv]. rewrite Hv. cbn [of_option mbind outcome_bind].
    rewrite (delete_node_ok _ _ _ Hv).
    cbn [mbind outcome_bind fst snd qcells]. unfold get_next. cbn [mbind outcome_bind of_option].
    by rewrite lookup_delete_eq.
Qed.

(** ** Sequences of calls *)
Inductive qcall := QPush (fresh : K) (v : Z) | QPop | QEmpty.

Definition qexec (c : qcall) q : outcome (Z * Fifo) :=
  match c with
  | QPush fresh v => q ← Fifo_push fresh v q; Done (0, q)
  | QPop => Fifo_pop q
  | QEmpty => b ← Fifo_empty q; Done (if (b : bool) then 1 else 0, q)
  end.

Fixpoint qexecs (cs : list qcall) q : outcome (list Z * Fifo) :=
  match cs with
  | [] => Done ([], q)
  | c :: cs => r ← qexec c q; rs ← qexecs cs r.2; Done (r.1 :: rs.1, rs.2)
  end.

(** The abstract queue: its nodes and values, and the spare nodes. *)
Inductive qmean : qcall -> list K * list K * list Z -> Z -> list K * list K * list Z -> Prop :=
| q_push_new k v used vs : k ∉ used -> qmean (QPush k v) (used, [], vs) 0 (used ++ [k], [], vs ++ [v])
| q_push_reuse fresh v used f free vs : qmean (QPush fresh v) (used, f :: free, vs) 0 (used ++ [f], free, vs ++ [v])
| q_pop_empty free : qmean QPop ([], free, []) 0 ([], free, [])
| q_pop k used free v vs : qmean QPop (k :: used, free, v :: vs) v (used, k :: free, vs)
| q_empty used free vs : qmean QEmpty (used, free, vs) (if bool_decide (used = []) then 1 else 0) (used, free, vs).

Inductive qmeans : list qcall -> list K * list K * list Z -> list Z -> list K * list K * list Z -> Prop :=
| qs_nil a : qmeans [] a [] a
| qs_cons c cs a r a1 rs a2 : qmean c a r a1 -> qmeans cs a1 rs a2 -> qmeans (c :: cs) a (r :: rs) a2.

Definition fifo_is q (a : list K * list K * list Z) : Prop := fifo_repr q a.1.1 a.1.2 a.2.

Lemma qmean_sound c a r a' q : qmean c a r a' -> fifo_is q a -> exists q', qexec c q = Done (r, q') /\ fifo_is q' a'.
Proof.
  intros [] HF; cbn [qexec]; unfold fifo_is in *; cbn [fst snd] in *.
  - destruct (fifo_push_new q used vs k v HF) as (q' & -> & ?); [|by exists q'].
    apply eq_None_not_Some. intros Hk%(fr_nodes _ _ _ _ HF). by rewrite app_nil_r in Hk.
  - edestruct fifo_push_reuse as (q' & -> & ?); [done|]. by exists q'.
  - exists q. by rewrite (fifo_pop_empty _ _ _ HF).
  - edestruct fifo_pop_first as (q' & -> & ?); [done|]. by exists q'.
  - exists q. rewrite (fifo_empty _ _ _ _ HF). split; [|done]. cbn. by case_bool_decide.
Qed.

(** [Fifo] is a queue.  Every sequence of push, pop and empty runs without
    a fault and returns what the queue of values returns, 0 for a pop of the
    empty one; a push makes a new node only when every node holds a value.  The
    destructor, however, ends only for a container that has no node at all: for
    any other it reads a node that it has just deleted. *)
Theorem fifo_refines cs a rs a' q fuel :
  qmeans cs a rs a' -> fifo_is q a ->
  exists q', qexecs cs q = Done (rs, q') /\ fifo_is q' a' /\
    (a'.1.1 ++ a'.1.2 <> [] -> Fifo_destroy (S fuel) q' = Fault).
Proof.
  intros Hm. revert q. induction Hm as [a|c cs a r a1 rs a2 Hc _ IH]; intros q HF.
  - exists q. split_and!; [done|done|]. by eapply fifo_destroy_fault.
  - destruct (qmean_sound _ _ _ _ _ Hc HF) as (q1 & E & HF1). destruct (IH _ HF1) as (q2 & E2 & HF2 & Hd).
    exists q2. split_and!; [|done|done]. cbn [qexecs]. rewrite E. cbn [mbind outcome_bind fst snd]. by rewrite E2.
Qed.
End fifo.
Arguments Fifo K {_ _}.
Arguments qcall K : clear implicits.

(** ** The hypotheses can hold *)
Definition raw_fifo : Fifo nat := MkFifo (<[fifo_used := Link None None]> (<[fifo_free := Link None None]> ∅)) ∅.

Definition sample_qcalls : list (qcall nat) := [QEmpty; QPush 1%nat 10; QPush 2%nat 20; QPop; QPush 3%nat 30; QPop; QPop; QPop].

Lemma sample_qmeans : qmeans sample_qcalls ([], [], []) [1; 0; 0; 10; 0; 20; 30; 0] ([], [1%nat; 2%nat], []).
Proof.
  unfold sample_qcalls. repeat (eapply qs_cons; [constructor; set_solver|]). constructor.
Qed.

Lemma raw_fifo_create : exists q, Fifo_create raw_fifo = Done q /\ fifo_is q ([], [], []).
Proof.
  eexists. split; [vm_compute; reflexivity|]. split; cbn.
  - apply (rings_singletons _ [fifo_used; fifo_free]); [by apply (bool_decide_unpack _); vm_compute|].
    intros d Hd. rewrite !elem_of_cons in Hd. destruct Hd as [->|[->|Hd]]; [vm_compute; done..|].
    by apply not_elem_of_nil in Hd.
  - constructor.
  - intros k. split; [by intros ?%not_elem_of_nil|by intros [? ?]].
Qed.

Lemma fifo_refines_witness :
  exists q q', Fifo_create raw_fifo = Done q /\
    qexecs sample_qcalls q = Done ([1; 0; 0; 10; 0; 20; 30; 0], q') /\ Fifo_destroy 1 q' = Fault.
Proof.
  destruct raw_fifo_create as (q & E & HF).
  destruct (fifo_refines _ _ _ _ q 0 sample_qmeans HF) as (q' & E' & _ & Hd). exists q, q'. auto.
Defined.
