(* ===== verification/Lifo.v ===== *)
(** * base/lifo.h

    [lifo_t] is a singly linked stack of nodes; [Lifo] keeps two of them, the
    nodes with values and the spare nodes.  The theorems: [Lifo] is a stack of
    values, makes a node only when there is no spare one, and [clear], which its
    destructor calls, ends, hands every value once to the destructor function
    from the top down and deletes every node. *)
From S2P Require Import Prelude.

Section lifo.
Context {K : Type} `{Countable K}.

(** lifo_t::node_t; [void *] values are addresses, NULL is 0. *)
Record node_t := Node { next : option K; value : Z }.

(** The memory of the nodes and the two heads. *)
Record Lifo := MkLifo { nodes : gmap K node_t; used_list : option K; free_list : option K }.

Implicit Types (s : Lifo) (m : gmap K node_t) (k : K) (v : Z) (l : list K).

(** lifo_t::push and lifo_t::pop on the stack with head [head]. *)
Definition push_node k (head : option K) m : outcome (option K * gmap K node_t) :=
  n ← of_option (m !! k);
  Done (Some k, <[k := Node head (value n)]> m).

Definition pop_node (head : option K) m : outcome (option K * option K) :=
  match head with
  | Some k => n ← of_option (m !! k); Done (Some k, next n)
  | None => Done (None, None)
  end.

Definition Lifo_create m : Lifo := MkLifo m None None.

(** [fresh] is the node [new] returns, if the call is made. *)
Definition Lifo_push (fresh : K) v s : outcome Lifo :=
  r ← pop_node (free_list s) (nodes s);
  let '(n, free) := r in
  a ← match n with
      | Some k => Done (k, nodes s)
      | None => match nodes s !! fresh with
                | Some _ => Fault
                | None => Done (fresh, <[fresh := Node None 0]> (nodes s))
                end
      end;
  let '(n, m) := a in
  nd ← of_option (m !! n);
  let m := <[n := Node (next nd) v]> m in
  u ← push_node n (used_list s) m;
  Done (MkLifo u.2 u.1 free).

Definition Lifo_empty s : bool := bool_decide (used_list s = None).

Definition Lifo_pop s : outcome (Z * Lifo) :=
  r ← pop_node (used_list s) (nodes s);
  match r.1 with
  | None => Done (0, s)
  | Some n =>
      f ← push_node n (free_list s) (nodes s);
      nd ← of_option (f.2 !! n);
      Done (value nd, MkLifo f.2 r.2 f.1)
  end.

(** The two loops of [clear]; [fini] collects what [free_obj_func] is given. *)
Fixpoint clear_used (fuel : nat) (fini : list Z) s : outcome (list Z * Lifo) :=
  match fuel with
  | O => NoFuel
  | S fuel =>
      r ← pop_node (used_list s) (nodes s);
      match r.1 with
      | None => Done (fini, MkLifo (nodes s) r.2 (free_list s))
      | Some n =>
          nd ← of_option (nodes s !! n);
          clear_used fuel (fini ++ [value nd]) (MkLifo (delete n (nodes s)) r.2 (free_list s))
      end
  end.

Fixpoint clear_free (fuel : nat) s : outcome Lifo :=
  match fuel with
  | O => NoFuel
  | S fuel =>
      r ← pop_node (free_list s) (nodes s);
      match r.1 with
      | None => Done (MkLifo (nodes s) (used_list s) r.2)
      | Some n => clear_free fuel (MkLifo (delete n (nodes s)) (used_list s) r.2)
      end
  end.

Definition Lifo_clear (fuel : nat) s : outcome (list Z * Lifo) :=
  r ← clear_used fuel [] s;
  s ← clear_free fuel r.2;
  Done (r.1, s).

(** ** The stacks *)

(** The nodes [l] are chained from [head], first to last. *)
Fixpoint chained m (head : option K) l : Prop :=
  match l with
  | [] => head = None
  | k :: l => head = Some k /\ exists n, m !! k = Some n /\ chained m (next n) l
  end.

Record lifo_repr s (used free : list K) (vs : list Z) : Prop := {
  lr_used : chained (nodes s) (used_list s) used;
  lr_free : chained (nodes s) (free_list s) free;
  lr_nodup : NoDup (used ++ free);
  lr_values : Forall2 (fun k v => value <$> nodes s !! k = Some v) used vs;
  lr_nodes : forall k, k ∈ used ++ free <-> is_Some (nodes s !! k) }.

Lemma chained_frame m m' head l :
  (forall k, k ∈ l -> m' !! k = m !! k) -> chained m head l -> chained m' head l.
Proof.
  revert head. induction l as [|k l IH]; intros head Hf; [done|]. intros (-> & n & Hn & Hl).
  split; [done|]. exists n. rewrite Hf by left. split; [done|]. apply IH; [|done]. intros; apply Hf; by right.
Qed.

Lemma chained_insert m head l k n : k ∉ l -> chained m head l -> chained (<[k := n]> m) head l.
Proof. intros Hk. apply chained_frame. intros k' Hk'. apply lookup_insert_ne. by intros <-. Qed.

Lemma chained_delete m head l k : k ∉ l -> chained m head l -> chained (delete k m) head l.
Proof. intros Hk. apply chained_frame. intros k' Hk'. apply lookup_delete_ne. by intros <-. Qed.

Lemma values_frame m m' l vs :
  (forall k, k ∈ l -> m' !! k = m !! k) ->
  Forall2 (fun k v => value <$> m !! k = Some v) l vs -> Forall2 (fun k v => value <$> m' !! k = Some v) l vs.
Proof.
  intros Hf HV. induction HV as [|k v l vs Hk HV IH]; constructor.
  - by rewrite Hf by left.
  - apply IH. intros; apply Hf; by right.
Qed.

Lemma values_insert m l vs k n : k ∉ l ->
  Forall2 (fun k v => value <$> m !! k = Some v) l vs -> Forall2 (fun j v => value <$> (<[k := n]> m !! j) = Some v) l vs.
Proof. intros Hk HV. eapply values_frame; [|exact HV]. intros k' Hk'. apply lookup_insert_ne. by intros <-. Qed.

Lemma lifo_push_new s used vs k v :
  lifo_repr s used [] vs -> nodes s !! k = None ->
  exists s', Lifo_push k v s = Done s' /\ lifo_repr s' (k :: used) [] (v :: vs).
Proof.
  intros [HU HF Hnd HV HN] Hk. unfold Lifo_push. cbn in HF. rewrite HF. cbn [pop_node mbind outcome_bind]. rewrite Hk.
  cbn [mbind outcome_bind]. rewrite lookup_insert_eq. cbn [of_option mbind outcome_bind next].
  unfold push_node. rewrite lookup_insert_eq. cbn [of_option mbind outcome_bind value fst snd].
  assert (Hni : k ∉ used).
  { intros Hin. assert (Hin' : k ∈ used ++ []) by (by rewrite app_nil_r). apply HN in Hin'.
    rewrite Hk in Hin'. by destruct Hin'. }
  eexists. split; [reflexivity|]. rewrite !insert_insert_eq. split; cbn [nodes used_list free_list].
  - split; [done|]. eexists. rewrite lookup_insert_eq. split; [done|]. by apply chained_insert.
  - done.
  - rewrite app_nil_r in *. by constructor.
  - constructor; [by rewrite lookup_insert_eq|by apply values_insert].
  - intros k'. specialize (HN k'). rewrite app_nil_r in *. rewrite elem_of_cons.
    destruct (decide (k' = k)) as [->|]; [rewrite lookup_insert_eq; split; [by eauto|by left]|].
    rewrite lookup_insert_ne by done. rewrite <-HN. tauto.
Qed.

Lemma lifo_push_reuse s used f free vs fresh v :
  lifo_repr s used (f :: free) vs ->
  exists s', Lifo_push fresh v s = Done s' /\ lifo_repr s' (f :: used) free (v :: vs).
Proof.
  intros [HU (HF & n & Hn & HF') Hnd HV HN]. unfold Lifo_push. rewrite HF. cbn [pop_node mbind outcome_bind].
  rewrite Hn. cbn [of_option mbind outcome_bind]. rewrite Hn. cbn [of_option mbind outcome_bind].
  unfold push_node. rewrite lookup_insert_eq. cbn [of_option mbind outcome_bind value fst snd].
  apply NoDup_app in Hnd as (Hnu & Hd & [Hff Hnf]%NoDup_cons).
  assert (Hfu : f ∉ used) by (intros Hin; apply (Hd f Hin); left).
  eexists. split; [reflexivity|]. rewrite !insert_insert_eq. split; cbn [nodes used_list free_list].
  - split; [done|]. eexists. rewrite lookup_insert_eq. split; [done|]. by apply chained_insert.
  - by apply chained_insert.
  - cbn. constructor; [by rewrite elem_of_app; intros [?|?]|]. apply NoDup_app. split_and!; [done| |done].
    intros x Hx Hx'. apply (Hd x Hx). by right.
  - constructor; [by rewrite lookup_insert_eq|by apply values_insert].
  - intros k'. specialize (HN k'). cbn in *. rewrite elem_of_cons, !elem_of_app in *. rewrite elem_of_cons in HN.
    destruct (decide (k' = f)) as [->|]; [rewrite lookup_insert_eq; split; [by eauto|by left]|].
    rewrite lookup_insert_ne by done. rewrite <-HN. tauto.
Qed.

Lemma lifo_pop_empty s free vs : lifo_repr s [] free vs -> Lifo_pop s = Done (0, s).
Proof. intros [HU _ _ _ _]. cbn in HU. unfold Lifo_pop. by rewrite HU. Qed.

Lemma lifo_pop_top s k used free v vs :
  lifo_repr s (k :: used) free (v :: vs) ->
  exists s', Lifo_pop s = Done (v, s') /\ lifo_repr s' used (k :: free) vs.
Proof.
  intros [(HU & n & Hn & HU') HF Hnd HV HN]. unfold Lifo_pop. rewrite HU. cbn [pop_node mbind outcome_bind].
  rewrite Hn. cbn [of_option mbind outcome_bind fst snd]. unfold push_node. rewrite Hn.
  cbn [of_option mbind outcome_bind fst snd]. rewrite lookup_insert_eq. cbn [of_option mbind outcome_bind value].
  apply Forall2_cons in HV as [Hv HV]. rewrite Hn in Hv. injection Hv as Hv.
  cbn in Hnd. apply NoDup_cons in Hnd as [Hk Hnd]. rewrite elem_of_app in Hk.
  eexists. rewrite Hv. split; [reflexivity|]. split; cbn [nodes used_list free_list].
  - apply chained_insert; [tauto|done].
  - split; [done|]. eexists. rewrite lookup_insert_eq. split; [done|]. apply chained_insert; [tauto|done].
  - rewrite <-Permutation_middle. constructor; [by rewrite elem_of_app|done].
  - apply values_insert; [tauto|done].
  - intros k'. specialize (HN k'). cbn in HN. rewrite !elem_of_app, elem_of_cons in *. rewrite elem_of_app in HN.
    destruct (decide (k' = k)) as [->|]; [rewrite lookup_insert_eq; split; [by eauto|by right; left]|].
    rewrite lookup_insert_ne by done. rewrite <-HN. tauto.
Qed.

Lemma lifo_empty s used free vs : lifo_repr s used free vs -> Lifo_empty s = bool_decide (used = []).
Proof. intros [HU _ _ _ _]. unfold Lifo_empty. destruct used; cbn in HU; [by rewrite HU|]. destruct HU as [-> _]. done. Qed.

Lemma clear_used_ok fuel : forall s used free vs fini,
  lifo_repr s used free vs -> (length used < fuel)%nat ->
  exists s', clear_used fuel fini s = Done (fini ++ vs, s') /\ lifo_repr s' [] free [].
Proof.
  induction fuel as [|fuel IH]; intros s used free vs fini HR Hf; [lia|]. pose proof HR as [HU HF Hnd HV HN].
  cbn [clear_used]. destruct used as [|k used].
  - cbn in HU. rewrite HU. cbn [pop_node mbind outcome_bind fst snd]. apply Forall2_nil_inv_l in HV as ->.
    rewrite app_nil_r. eexists. split; [done|]. split; cbn [nodes used_list free_list]; [done..|constructor|done].
  - destruct HU as (HU & n & Hn & HU'). rewrite HU. cbn [pop_node mbind outcome_bind fst snd]. rewrite Hn.
    cbn [of_option mbind outcome_bind fst snd]. rewrite Hn. cbn [of_option mbind outcome_bind fst snd].
    destruct vs as [|v vs]; [by inversion HV|]. apply Forall2_cons in HV as [Hv HV]. rewrite Hn in Hv. injection Hv as Hv. rewrite Hv.
    cbn in Hnd. apply NoDup_cons in Hnd as [Hk Hnd]. rewrite elem_of_app in Hk.
    destruct (IH (MkLifo (delete k (nodes s)) (next n) (free_list s)) used free vs (fini ++ [v]))
      as (s' & E & HR'); [|simpl in Hf; lia|].
    + split; cbn [nodes used_list free_list]; [apply chained_delete; [tauto|done]..|done| |].
      * eapply values_frame; [|exact HV]. intros k' Hk'. apply lookup_delete_ne. intros ->. tauto.
      * intros k'. specialize (HN k'). cbn in HN. rewrite elem_of_cons in HN. destruct (decide (k' = k)) as [->|].
        -- rewrite lookup_delete_eq, elem_of_app. split; [tauto|by intros [? ?]].
        -- rewrite lookup_delete_ne by done. rewrite <-HN. tauto.
    + exists s'. rewrite <-app_assoc in E. done.
Qed.

Lemma clear_free_ok fuel : forall s free,
  lifo_repr s [] free [] -> (length free < fuel)%nat ->
  clear_free fuel s = Done (MkLifo ∅ None None).
Proof.
  induction fuel as [|fuel IH]; intros s free HR Hf; [lia|]. pose proof HR as [HU HF Hnd HV HN]. cbn in HU.
  cbn [clear_free]. destruct free as [|k free].
  - cbn in HF. rewrite HF. cbn [pop_node mbind outcome_bind fst snd]. rewrite HU. do 2 f_equal.
    apply map_empty. intros k. apply eq_None_not_Some. rewrite <-HN. apply not_elem_of_nil.
  - destruct HF as (HF & n & Hn & HF'). rewrite HF. cbn [pop_node mbind outcome_bind fst snd]. rewrite Hn.
    cbn [of_option mbind outcome_bind fst snd]. cbn in Hnd. apply NoDup_cons in Hnd as [Hk Hnd].
    apply (IH _ free); [|simpl in Hf; lia]. split; cbn [nodes used_list free_list]; [done| |done|constructor|].
    + by apply chained_delete.
    + intros k'. specialize (HN k'). cbn in HN |- *. rewrite elem_of_cons in HN. destruct (decide (k' = k)) as [->|].
      * rewrite lookup_delete_eq. split; [tauto|by intros [? ?]].
      * rewrite lookup_delete_ne by done. rewrite <-HN. tauto.
Qed.

(** ** Sequences of calls *)
Inductive scall := SPush (fresh : K) (v : Z) | SPop | SEmpty.

Definition sexec (c : scall) s : outcome (Z * Lifo) :=
  match c with
  | SPush fresh v => s ← Lifo_push fresh v s; Done (0, s)
  | SPop => Lifo_pop s
  | SEmpty => Done (if Lifo_empty s then 1 else 0, s)
  end.

Fixpoint sexecs (cs : list scall) s : outcome (list Z * Lifo) :=
  match cs with
  | [] => Done ([], s)
  | c :: cs => r ← sexec c s; rs ← sexecs cs r.2; Done (r.1 :: rs.1, rs.2)
  end.

(** The abstract stack: its nodes, the spare nodes, its values. *)
Inductive smean : scall -> list K * list K * list Z -> Z -> list K * list K * list Z -> Prop :=
| s_push_new k v used vs : k ∉ used -> smean (SPush k v) (used, [], vs) 0 (k :: used, [], v :: vs)
| s_push_reuse fresh v used f free vs : smean (SPush fresh v) (used, f :: free, vs) 0 (f :: used, free, v :: vs)
| s_pop_empty free : smean SPop ([], free, []) 0 ([], free, [])
| s_pop k used free v vs : smean SPop (k :: used, free, v :: vs) v (used, k :: free, vs)
| s_empty used free vs : smean SEmpty (used, free, vs) (if bool_decide (used = []) then 1 else 0) (used, free, vs).

Inductive smeans : list scall -> list K * list K * list Z -> list Z -> list K * list K * list Z -> Prop :=
| ss_nil a : smeans [] a [] a
| ss_cons c cs a r a1 rs a2 : smean c a r a1 -> smeans cs a1 rs a2 -> smeans (c :: cs) a (r :: rs) a2.

Definition lifo_is s (a : list K * list K * list Z) : Prop := lifo_repr s a.1.1 a.1.2 a.2.

Lemma smean_sound c a r a' s : smean c a r a' -> lifo_is s a -> exists s', sexec c s = Done (r, s') /\ lifo_is s' a'.
Proof.
  intros [] HR; cbn [sexec]; unfold lifo_is in *; cbn [fst snd] in *.
  - destruct (lifo_push_new s used vs k v HR) as (s' & -> & ?); [|by exists s'].
    apply eq_None_not_Some. intros Hk%(lr_nodes _ _ _ _ HR). by rewrite app_nil_r in Hk.
  - edestruct lifo_push_reuse as (s' & -> & ?); [done|]. by exists s'.
  - exists s. by rewrite (lifo_pop_empty _ _ _ HR).
  - edestruct lifo_pop_top as (s' & -> & ?); [done|]. by exists s'.
  - exists s. by rewrite (lifo_empty _ _ _ _ HR).
Qed.

(** [Lifo] is a stack.  Every sequence of push, pop and empty runs without
    a fault and returns what the stack of values returns; [clear] then ends,
    gives the remaining values to the destructor function from the top down,
    once each, and deletes every node there is. *)
Theorem lifo_refines cs a rs a' s fuel :
  smeans cs a rs a' -> lifo_is s a -> (length a'.1.1 + length a'.1.2 < fuel)%nat ->
  exists s', sexecs cs s = Done (rs, s') /\ lifo_is s' a' /\
    Lifo_clear fuel s' = Done (a'.2, MkLifo ∅ None None).
Proof.
  intros Hm. revert s. induction Hm as [a|c cs a r a1 rs a2 Hc _ IH]; intros s HR Hf.
  - exists s. split_and!; [done|done|]. unfold Lifo_clear.
    destruct (clear_used_ok fuel s _ _ _ [] HR) as (s1 & -> & HR1); [lia|]. cbn [mbind outcome_bind fst snd app].
    rewrite (clear_free_ok _ _ _ HR1) by lia. done.
  - destruct (smean_sound _ _ _ _ _ Hc HR) as (s1 & E & HR1). destruct (IH _ HR1 Hf) as (s2 & E2 & HR2 & Hd).
    exists s2. split_and!; [|done|done]. cbn [sexecs]. rewrite E. cbn [mbind outcome_bind fst snd]. by rewrite E2.
Qed.
End lifo.
Arguments Lifo K {_ _}.
Arguments scall K : clear implicits.

(** ** The hypotheses can hold *)
Definition sample_scalls : list (scall nat) := [SEmpty; SPush 1%nat 10; SPush 2%nat 20; SPop; SPush 3%nat 30; SPush 4%nat 40; SPop].

Lemma sample_smeans : smeans sample_scalls ([], [], []) [1; 0; 0; 20; 0; 0; 40] ([2%nat; 1%nat], [4%nat], [30; 10]).
Proof.
  unfold sample_scalls. repeat (eapply ss_cons; [constructor; set_solver|]). constructor.
Qed.

Lemma lifo_refines_witness :
  exists s', sexecs sample_scalls (Lifo_create ∅) = Done ([1; 0; 0; 20; 0; 0; 40], s') /\
    Lifo_clear 4 s' = Done ([30; 10], MkLifo ∅ None None).
Proof.
  destruct (lifo_refines _ _ _ _ (Lifo_create ∅) 4 sample_smeans) as (s' & E & _ & Hc); [|simpl; lia|by exists s'].
  split; cbn; [done|done|constructor|constructor|].
  intros k. split; [by intros ?%not_elem_of_nil|by intros [? ?]].
Defined.
