(* ===== verification/FdQueue.v ===== *)
(** * base/fd_queue.h, base/src/fd_queue.cpp: the lock-free descriptor queue

    A ring of [max_num] slots shared by threads.  The producer and the consumers
    are step machines with one shared access per step; a schedule is a list of
    labels, and [run] executes it on a sequentially consistent memory.  The
    fields [pushed], [popped] and the number [seen] in a consumer's state are
    history: no step depends on them.  The theorems: one producer and any number
    of consumers make a bounded FIFO queue as long as no consumer sleeps between
    its reads and its compare-and-swap while the others pop [max_num] entries;
    when one does, the swap succeeds on a stale value (the ABA problem), and a
    descriptor is handed out twice while another is lost, although the header
    calls one writer and many readers safe. *)
From stdpp Require Import functions.
From S2P Require Import Prelude Words.

(** [alloc_size] is the size of the mapping, the struct itself included. *)
Record FdQueue := MkFdQueue { alloc_size : Z; max_num : Z; read_pos : Z; write_pos : Z; fds : Z -> Z }.

(** The bytes in front of the slots. *)
Definition sizeof_FdQueue : Z := 40.

(** FdQueue::create.  The size is an int, which mmap takes for a size_t; memset runs
    over the end of the mapping when the int has lost bits, and over MAP_FAILED when
    it is negative. *)
Definition create (n : Z) : outcome FdQueue :=
  let max := u64 (n + 100) in
  let size := i32 (u64 (sizeof_FdQueue + u64 (max * 8))) in
  if (size <=? 0) || (size <? sizeof_FdQueue + u64 (max * 8)) then Fault
  else Done (MkFdQueue (u64 size) max 0 0 (fun _ => 0)).

(** A slot inside of the mapping. *)
Definition slot_mapped (p : Z) (q : FdQueue) : bool := (0 <=? p) && (sizeof_FdQueue + 8 * p + 8 <=? alloc_size q).

Definition empty_at (rpos wpos : Z) : bool := rpos =? wpos.

(** The test of [full], on the two positions it reads. *)
Definition full_at (max w r : Z) : bool := u64 (max - 100) <=? u64 (u64 (max + w) - r) mod max.

(** Where the producer is in [push_fd]: before the two reads of [full], before
    the reads of the loop, before its store and its compare-and-swap. *)
Inductive producer :=
| PIdle
| PFullW (fd : Z)
| PFullR (fd w : Z)
| PLoop (fd : Z)
| PStore (fd wpos : Z)
| PSwap (fd wpos : Z).

(** Where a consumer is in [pop_fd]; [seen] counts the pops there had been when
    it read [read_pos]. *)
Inductive consumer :=
| CIdle
| CWrite (rpos : Z) (seen : nat)
| CLoad (rpos : Z) (seen : nat)
| CSwap (rpos fd : Z) (seen : nat)
| CRetry.

Record state := State {
  q : FdQueue;
  prod : producer;
  cons_ : nat -> consumer;
  pushed : list Z;
  popped : list Z;
  returned : list (nat * Z) }.

Definition set_prod p s := State (q s) p (cons_ s) (pushed s) (popped s) (returned s).
Definition set_cons c k s := State (q s) (prod s) (<[c := k]> (cons_ s)) (pushed s) (popped s) (returned s).
Definition give c v s := State (q s) (prod s) (<[c := CIdle]> (cons_ s)) (pushed s) (popped s) (returned s ++ [(c, v)]).

(** [push_fd fd]: what it does before the first shared access. *)
Definition push_fd (fd : Z) s : state := if fd <? 0 then s else set_prod (PFullW fd) s.

(** One access of the producer; [None] when it has none to make, and when the slot is
    outside of the mapping. *)
Definition producer_step s : option state :=
  match prod s with
  | PIdle => None
  | PFullW fd => Some (set_prod (PFullR fd (write_pos (q s))) s)
  | PFullR fd w =>
      Some (set_prod (if full_at (max_num (q s)) w (read_pos (q s)) then PIdle else PLoop fd) s)
  | PLoop fd => Some (set_prod (PStore fd (write_pos (q s))) s)
  | PStore fd wpos =>
      let q' := MkFdQueue (alloc_size (q s)) (max_num (q s)) (read_pos (q s)) (write_pos (q s)) (<[wpos := fd]> (fds (q s))) in
      if slot_mapped wpos (q s) then Some (State q' (PSwap fd wpos) (cons_ s) (pushed s) (popped s) (returned s)) else None
  | PSwap fd wpos =>
      if write_pos (q s) =? wpos then
        let q' := MkFdQueue (alloc_size (q s)) (max_num (q s)) (read_pos (q s)) ((wpos + 1) mod max_num (q s)) (fds (q s)) in
        Some (State q' PIdle (cons_ s) (pushed s ++ [fd]) (popped s) (returned s))
      else Some (set_prod (PLoop fd) s)
  end.

(** One access of consumer [c]: the start of [pop_fd] and its loop. *)
Definition consumer_step (c : nat) s : option state :=
  match cons_ s c with
  | CIdle | CRetry => Some (set_cons c (CWrite (read_pos (q s)) (length (popped s))) s)
  | CWrite rpos seen =>
      Some (if empty_at rpos (write_pos (q s)) then give c (-1) s else set_cons c (CLoad rpos seen) s)
  | CLoad rpos seen => if slot_mapped rpos (q s) then Some (set_cons c (CSwap rpos (fds (q s) rpos) seen) s) else None
  | CSwap rpos fd seen =>
      if read_pos (q s) =? rpos then
        let q' := MkFdQueue (alloc_size (q s)) (max_num (q s)) ((rpos + 1) mod max_num (q s)) (write_pos (q s)) (fds (q s)) in
        Some (State q' (prod s) (<[c := CIdle]> (cons_ s)) (pushed s) (popped s ++ [fd]) (returned s ++ [(c, fd)]))
      else Some (set_cons c CRetry s)
  end.

Inductive label := LPush (fd : Z) | LProd | LCons (c : nat).

Definition step (l : label) s : option state :=
  match l with
  | LPush fd => match prod s with PIdle => Some (push_fd fd s) | _ => None end
  | LProd => producer_step s
  | LCons c => consumer_step c s
  end.

(** The swap of a consumer is timely when fewer than [max_num] entries were
    popped since the consumer read [read_pos]. *)
Definition timely (l : label) s : bool :=
  match l with
  | LCons c => match cons_ s c with
               | CSwap _ _ seen => Z.of_nat (length (popped s) - seen) <? max_num (q s)
               | _ => true
               end
  | _ => true
  end.

Fixpoint run (ls : list label) s : option state :=
  match ls with [] => Some s | l :: ls => s ← step l s; run ls s end.

Fixpoint run_timely (ls : list label) s : option state :=
  match ls with
  | [] => Some s
  | l :: ls => if timely l s then s ← step l s; run_timely ls s else None
  end.

Definition new_queue (n : Z) : outcome state := q ← create n; Done (State q PIdle (fun _ => CIdle) [] [] []).

(** ** The invariant *)
Definition N s := max_num (q s).

(** The descriptors that pop_fd has returned, in order; -1 says that there was none. *)
Definition descriptors s : list Z := filter (fun v => 0 <= v) (returned s).*2.

(** The [i]-th entry pushed. *)
Definition entry (s : state) (i : nat) : option Z := pushed s !! i.

Definition prod_ok s : Prop :=
  let R := Z.of_nat (length (popped s)) in let W := Z.of_nat (length (pushed s)) in
  match prod s with
  | PIdle => True
  | PFullW fd => 0 <= fd
  | PFullR fd w => 0 <= fd /\ w = W mod N s
  | PLoop fd => 0 <= fd /\ W - R < N s - 100
  | PStore fd wpos => 0 <= fd /\ wpos = W mod N s /\ W - R < N s - 100
  | PSwap fd wpos => 0 <= fd /\ wpos = W mod N s /\ W - R < N s - 100 /\ fds (q s) wpos = fd
  end.

Definition cons_ok s (k : consumer) : Prop :=
  let R := length (popped s) in let W := length (pushed s) in
  match k with
  | CIdle | CRetry => True
  | CWrite rpos seen => (seen <= R)%nat /\ rpos = Z.of_nat seen mod N s
  | CLoad rpos seen => (seen <= R)%nat /\ rpos = Z.of_nat seen mod N s /\ (seen < W)%nat
  | CSwap rpos fd seen => (seen <= R)%nat /\ rpos = Z.of_nat seen mod N s /\ (seen < W)%nat /\
      (seen = R -> entry s seen = Some fd)
  end.

Record inv s : Prop := {
  i_size : 100 < N s < 2 ^ 62;
  i_alloc : sizeof_FdQueue + 8 * N s <= alloc_size (q s);
  i_nonneg : Forall (fun fd => 0 <= fd) (pushed s);
  i_returned : descriptors s = popped s;
  i_read : read_pos (q s) = Z.of_nat (length (popped s)) mod N s;
  i_write : write_pos (q s) = Z.of_nat (length (pushed s)) mod N s;
  i_room : (length (popped s) <= length (pushed s))%nat /\
           Z.of_nat (length (pushed s)) - Z.of_nat (length (popped s)) <= N s - 100;
  i_slots : forall i, (length (popped s) <= i < length (pushed s))%nat ->
              entry s i = Some (fds (q s) (Z.of_nat i mod N s));
  i_fifo : popped s = take (length (popped s)) (pushed s);
  i_prod : prod_ok s;
  i_cons : forall c, cons_ok s (cons_ s c) }.

(** Two logical positions less than a lap apart use the same slot only when
    they are the same. *)
Lemma slot_inj n a b : 0 < n -> a mod n = b mod n -> a <= b < a + n -> a = b.
Proof.
  intros Hn Hm Hab. pose proof (Z_div_mod_eq_full a n). pose proof (Z_div_mod_eq_full b n).
  assert (b - a = n * (b / n - a / n)) by lia. assert (b / n - a / n = 0) by nia. lia.
Qed.

Lemma succ_slot n a : 0 < n -> (a mod n + 1) mod n = (a + 1) mod n.
Proof. intros. apply Zplus_mod_idemp_l. Qed.

(** [full] with a position read earlier: room for one more entry. *)
Lemma full_at_room n W R :
  100 < n < 2 ^ 62 -> 0 <= R <= W -> W - R <= n - 100 ->
  full_at n (W mod n) (R mod n) = (n - 100 <=? W - R).
Proof.
  intros Hn HR HW. unfold full_at. pose proof (Z.mod_pos_bound W n ltac:(lia)). pose proof (Z.mod_pos_bound R n ltac:(lia)).
  rewrite (wrap_u_id 64 (n - 100)), (wrap_u_id 64 (n + W mod n)), (wrap_u_id 64 (n + W mod n - R mod n))
    by (unfold in_u; lia).
  f_equal. replace (n + W mod n - R mod n) with (W mod n - R mod n + 1 * n) by lia. rewrite Z_mod_plus_full.
  rewrite <-Zminus_mod. apply Z.mod_small. lia.
Qed.

Lemma cons_ok_same s s' k :
  N s' = N s -> pushed s' = pushed s -> popped s' = popped s -> cons_ok s k -> cons_ok s' k.
Proof. intros HN Hp Ho. unfold cons_ok, entry. rewrite HN, Hp, Ho. done. Qed.

Lemma cons_ok_pushed s s' k fd :
  N s' = N s -> pushed s' = pushed s ++ [fd] -> popped s' = popped s -> cons_ok s k -> cons_ok s' k.
Proof.
  intros HN Hp Ho. unfold cons_ok, entry. rewrite HN, Hp, Ho, length_app. destruct k; try tauto; simpl.
  - intros (?&?&?). split_and!; [done..|lia].
  - intros (?&?&Hlt&He). split_and!; [done|done|lia|]. intros E. by rewrite lookup_app_l, He.
Qed.

Lemma cons_ok_popped s s' k fd :
  N s' = N s -> pushed s' = pushed s -> popped s' = popped s ++ [fd] -> cons_ok s k -> cons_ok s' k.
Proof.
  intros HN Hp Ho. unfold cons_ok, entry. rewrite HN, Hp, Ho, length_app. destruct k; try tauto; simpl.
  - intros (?&?). split; [lia|done].
  - intros (?&?&?). split_and!; [lia|done|lia].
  - intros (?&?&?&?). split_and!; [lia|done|lia|lia].
Qed.

Lemma descriptors_snoc s s' c v :
  returned s' = returned s ++ [(c, v)] -> descriptors s' = descriptors s ++ (if decide (0 <= v) then [v] else []).
Proof.
  intros E. unfold descriptors. rewrite E, fmap_app, filter_app. by f_equal.
Qed.

(** A position below the capacity is a slot of the mapping. *)
Lemma slot_mapped_mod s i : inv s -> 0 <= i -> slot_mapped (i mod N s) (q s) = true.
Proof.
  intros Hi H0. pose proof (i_size s Hi). pose proof (i_alloc s Hi). pose proof (Z.mod_pos_bound i (N s) ltac:(lia)).
  unfold slot_mapped. apply andb_true_intro. split; apply Z.leb_le; lia.
Qed.

Lemma producer_step_inv s s' : inv s -> producer_step s = Some s' -> inv s'.
Proof.
  intros Hi E. pose proof (slot_mapped_mod s (Z.of_nat (length (pushed s))) Hi ltac:(lia)) as Hmap.
  destruct Hi as [HN Ha Hp Hret Hr Hw Hroom Hs Hf HP HC]. unfold producer_step in E. unfold prod_ok in HP.
  destruct (prod s) as [|fd|fd w|fd|fd wpos|fd wpos] eqn:Ep; [done| | | | |].
  - injection E as <-. split; done.
  - injection E as <-. destruct HP as [H0 ->]. split; try done. unfold prod_ok, set_prod, N in *; simpl. rewrite Hr, full_at_room by lia.
    destruct (Z.leb_spec (max_num (q s) - 100) (Z.of_nat (length (pushed s)) - Z.of_nat (length (popped s)))); [done|].
    split; [done|lia].
  - injection E as <-. destruct HP. split; try done.
  - destruct HP as (H0 & -> & HP). rewrite Hmap in E. injection E as <-.
    split; try done; unfold prod_ok, N, entry in *; simpl in *.
    + intros i Hi. rewrite fn_lookup_insert_ne; [by apply Hs|]. intros Hm. symmetry in Hm. apply slot_inj in Hm; lia.
    + split_and!; [done|done|done|]. apply fn_lookup_insert.
  - destruct HP as (H0 & -> & HP & Hfd). rewrite Hw, Z.eqb_refl in E. injection E as <-.
    unfold N, entry in *. split; unfold N, entry in *; simpl in *; try done.
    + apply Forall_app. split; [done|]. by constructor.
    + rewrite succ_slot, length_app by lia. simpl. do 2 f_equal. lia.
    + rewrite length_app. simpl. lia.
    + intros i Hi. rewrite length_app in Hi. simpl in Hi. destruct (decide (i < length (pushed s))%nat).
      * rewrite lookup_app_l by done. apply Hs. lia.
      * assert (i = length (pushed s)) as -> by lia. rewrite list_lookup_middle by done. by rewrite Hfd.
    + rewrite take_app_le by lia. done.
    + intros c. eapply cons_ok_pushed; [..|apply HC]; done.
Qed.

Lemma set_cons_inv s c k : inv s -> cons_ok s k -> inv (set_cons c k s).
Proof.
  intros [HN Ha Hp Hret Hr Hw Hroom Hs Hf HP HC] Hk. split; try done. intros c'. unfold set_cons. simpl.
  destruct (decide (c' = c)) as [->|]; [rewrite fn_lookup_insert; done|rewrite fn_lookup_insert_ne by done; apply HC].
Qed.

Lemma give_inv s c : inv s -> inv (give c (-1) s).
Proof.
  intros Hi. assert (H := set_cons_inv s c CIdle Hi I). destruct H as [HN Ha Hp Hret Hr Hw Hroom Hs Hf HP HC].
  split; try done. rewrite (descriptors_snoc s (give c (-1) s) c (-1) eq_refl), app_nil_r. exact Hret.
Qed.

Lemma consumer_step_inv c s s' : inv s -> timely (LCons c) s = true -> consumer_step c s = Some s' -> inv s'.
Proof.
  intros Hi Ht E. pose proof Hi as [HN Ha Hp Hret Hr Hw Hroom Hs Hf HP HC]. pose proof (HC c) as Hc.
  unfold consumer_step in E. unfold timely in Ht. destruct (cons_ s c) as [|rpos seen|rpos seen|rpos fd seen|] eqn:Ec.
  - injection E as <-. apply set_cons_inv; [done|]. split; [lia|done].
  - injection E as <-. destruct Hc as [Hle ->]. unfold empty_at. destruct (Z.eqb_spec (Z.of_nat seen mod N s) (write_pos (q s))) as [Ee|Hne].
    + by apply give_inv.
    + apply set_cons_inv; [done|]. split_and!; [done|done|]. rewrite Hw in Hne.
      destruct (decide (seen < length (pushed s))%nat); [done|]. destruct Hne. f_equal. lia.
  - destruct Hc as (Hle & -> & Hlt). rewrite slot_mapped_mod in E by (done || lia). injection E as <-.
    apply set_cons_inv; [done|]. split_and!; [done..|]. intros ->. by apply Hs.
  - destruct Hc as (Hle & -> & Hlt & He). rewrite Hr in E.
    destruct (Z.eqb_spec (Z.of_nat (length (popped s)) mod N s) (Z.of_nat seen mod N s)) as [Em|_].
    2:{ injection E as <-. by apply set_cons_inv. }
    injection E as <-. unfold N in Ht. apply Z.ltb_lt in Ht. symmetry in Em.
    apply slot_inj in Em; [|lia|unfold N; lia]. assert (seen = length (popped s)) as -> by lia. specialize (He eq_refl).
    assert (H0 : 0 <= fd) by exact (proj1 (Forall_lookup _ _) Hp _ _ He).
    unfold N, entry in *. split; unfold N, entry in *; simpl in *; try done.
    + etransitivity; [eapply (descriptors_snoc s); reflexivity|]. by rewrite Hret, decide_True.
    + rewrite succ_slot, length_app by lia. simpl. do 2 f_equal. lia.
    + rewrite length_app. simpl. lia.
    + intros i Hi'. rewrite length_app in Hi'. simpl in Hi'. apply Hs. lia.
    + rewrite length_app, Nat.add_1_r. simpl. rewrite (take_S_r _ _ fd He). by rewrite <-Hf.
    + unfold prod_ok in *. simpl in *. unfold N in *. rewrite length_app. simpl.
      destruct (prod s); try done; simpl; intuition lia.
    + intros c'. destruct (decide (c' = c)) as [->|]; [by rewrite fn_lookup_insert|].
      rewrite fn_lookup_insert_ne by done. eapply cons_ok_popped; [..|apply HC]; done.
  - injection E as <-. apply set_cons_inv; [done|]. split; [lia|done].
Qed.

Lemma step_inv l s s' : inv s -> timely l s = true -> step l s = Some s' -> inv s'.
Proof.
  intros Hi Ht E. destruct l as [fd| |c]; cbn [step] in E.
  - destruct (prod s) eqn:Ep; try done. injection E as <-. unfold push_fd. destruct (Z.ltb_spec fd 0); [done|].
    destruct Hi as [HN Ha Hp Hret Hr Hw Hroom Hs Hf HP HC]. split; done.
  - by eapply producer_step_inv.
  - by eapply consumer_step_inv.
Qed.

Lemma run_timely_inv ls : forall s s', inv s -> run_timely ls s = Some s' -> inv s'.
Proof.
  induction ls as [|l ls IH]; intros s s' Hi E; cbn [run_timely] in E; [by injection E as <-|].
  destruct (timely l s) eqn:Ht; [|done]. destruct (step l s) as [s1|] eqn:E1; [|done].
  eapply IH; [|exact E]. by eapply step_inv.
Qed.

(** The number of slots never changes. *)
Lemma step_N l s s' : step l s = Some s' -> N s' = N s.
Proof.
  destruct l as [fd| |c]; cbn [step]; intros E.
  - destruct (prod s); try done. injection E as <-. unfold push_fd. by destruct (fd <? 0).
  - unfold producer_step in E. repeat case_match; by simplify_eq.
  - unfold consumer_step in E. repeat case_match; by simplify_eq.
Qed.

Lemma run_timely_N ls : forall s s', run_timely ls s = Some s' -> N s' = N s.
Proof.
  induction ls as [|l ls IH]; intros s s' E; cbn [run_timely] in E; [by injection E as <-|].
  destruct (timely l s); [|done]. destruct (step l s) as [s1|] eqn:E1; [|done].
  rewrite (IH _ _ E). by eapply step_N.
Qed.

(** The bytes of the queue fit in the int. *)
Definition fits (n : Z) : Prop := 0 < n /\ sizeof_FdQueue + 8 * (n + 100) < 2 ^ 31.

Lemma new_queue_inv n : fits n -> exists s0, new_queue n = Done s0 /\ inv s0 /\ N s0 = n + 100.
Proof.
  intros [H0 Hn]. unfold sizeof_FdQueue in Hn. unfold new_queue, create, sizeof_FdQueue.
  rewrite (wrap_u_id 64 (n + 100)) by (unfold in_u; lia). rewrite (wrap_u_id 64 ((n + 100) * 8)) by (unfold in_u; lia).
  rewrite (wrap_u_id 64 (40 + _)) by (unfold in_u; lia). rewrite (wrap_s_id 32) by (unfold in_s; lia).
  rewrite (wrap_u_id 64) by (unfold in_u; lia).
  destruct (Z.leb_spec (40 + (n + 100) * 8) 0); [lia|]. rewrite Z.ltb_irrefl. cbn [orb].
  eexists. split; [reflexivity|]. split; [|done]. split; unfold N, sizeof_FdQueue; simpl; try done; try lia.
Qed.

(** No access of a timely schedule is outside of the mapping. *)
Lemma consumer_step_total s c : inv s -> exists s', consumer_step c s = Some s'.
Proof.
  intros Hi. pose proof (i_cons s Hi c) as Hc. unfold consumer_step.
  destruct (cons_ s c) as [|rpos seen|rpos seen|rpos fd seen|]; try by eexists.
  - destruct Hc as (_ & -> & _). rewrite slot_mapped_mod by (done || lia). by eexists.
  - destruct (read_pos (q s) =? rpos); by eexists.
Qed.

Lemma producer_step_total s : inv s -> prod s <> PIdle -> exists s', producer_step s = Some s'.
Proof.
  intros Hi Hp. pose proof (i_prod s Hi) as HP. unfold prod_ok in HP. unfold producer_step.
  destruct (prod s) as [|fd|fd w|fd|fd wpos|fd wpos]; try done; try by eexists.
  - destruct HP as (_ & -> & _). rewrite slot_mapped_mod by (done || lia). by eexists.
  - destruct (write_pos (q s) =? wpos); by eexists.
Qed.

(** ** Schedules *)
Definition one_push (fd : Z) : list label := LPush fd :: replicate 5 LProd.
Definition one_pop (c : nat) : list label := replicate 4 (LCons c).

Lemma run_step l ls s s1 : step l s = Some s1 -> run (l :: ls) s = run ls s1.
Proof. intros E. cbn [run]. by rewrite E. Qed.

(** One step of a thread that runs alone, on a state written out. *)
Ltac run_one E := erewrite run_step; [|cbn [step]; unfold consumer_step, producer_step; cbn [cons_ prod q set_cons set_prod];
  rewrite ?fn_lookup_insert; cbn [q set_cons set_prod write_pos read_pos max_num]; rewrite ?E, ?Z.eqb_refl; reflexivity].

(** A pop that runs alone. *)
Lemma pop_alone s c fd :
  inv s -> cons_ s c = CIdle -> pushed s !! length (popped s) = Some fd ->
  exists s', run (one_pop c) s = Some s' /\ returned s' = returned s ++ [(c, fd)] /\ pushed s' = pushed s /\
    popped s' = popped s ++ [fd].
Proof.
  intros Hi Ec Hfd. pose proof (lookup_lt_Some _ _ _ Hfd) as Hlt. pose proof (i_size s Hi) as HN. pose proof (i_room s Hi) as HR.
  assert (Hne : empty_at (read_pos (q s)) (write_pos (q s)) = false).
  { unfold empty_at. rewrite (i_read s Hi), (i_write s Hi). apply Z.eqb_neq. intros Hm. apply slot_inj in Hm; lia. }
  pose proof (i_slots s Hi _ ltac:(split; [reflexivity|exact Hlt])) as Hv. unfold entry in Hv. rewrite Hfd in Hv. injection Hv as Hv.
  pose proof (slot_mapped_mod s (Z.of_nat (length (popped s))) Hi ltac:(lia)) as Hmap. rewrite <-(i_read s Hi) in Hv, Hmap.
  unfold one_pop. cbn [replicate]. run_one Ec. run_one Hne. run_one Hmap. run_one Ec.
  eexists. split; [reflexivity|]. cbn [returned pushed popped set_cons]. by rewrite Hv.
Qed.

Lemma pop_empty s c :
  inv s -> cons_ s c = CIdle -> length (popped s) = length (pushed s) ->
  exists s', run [LCons c; LCons c] s = Some s' /\ returned s' = returned s ++ [(c, -1)] /\ pushed s' = pushed s /\
    popped s' = popped s.
Proof.
  intros Hi Ec Hl. assert (He : empty_at (read_pos (q s)) (write_pos (q s)) = true).
  { unfold empty_at. rewrite (i_read s Hi), (i_write s Hi), Hl. apply Z.eqb_refl. }
  run_one Ec. run_one He.
  eexists. split; [reflexivity|]. done.
Qed.

(** A push that runs alone. *)
Lemma push_alone s fd :
  inv s -> prod s = PIdle -> 0 <= fd ->
  Z.of_nat (length (pushed s)) - Z.of_nat (length (popped s)) < N s - 100 ->
  exists s', run (one_push fd) s = Some s' /\ pushed s' = pushed s ++ [fd] /\ returned s' = returned s /\ popped s' = popped s.
Proof.
  intros Hi Ep H0 Hlt. pose proof (i_size s Hi) as HN. pose proof (i_room s Hi) as HR.
  assert (Hf : full_at (max_num (q s)) (write_pos (q s)) (read_pos (q s)) = false).
  { fold (N s). rewrite (i_read s Hi), (i_write s Hi), full_at_room by lia. apply Z.leb_gt. lia. }
  pose proof (slot_mapped_mod s (Z.of_nat (length (pushed s))) Hi ltac:(lia)) as Hmap. rewrite <-(i_write s Hi) in Hmap.
  unfold one_push. cbn [replicate]. erewrite run_step; [|cbn [step]; rewrite Ep; reflexivity].
  unfold push_fd. destruct (Z.ltb_spec fd 0); [lia|].
  run_one Ep. run_one Hf. run_one Ep. run_one Hmap. run_one Ep.
  eexists. split; [reflexivity|]. done.
Qed.

Lemma push_full s fd :
  inv s -> prod s = PIdle -> 0 <= fd ->
  Z.of_nat (length (pushed s)) - Z.of_nat (length (popped s)) = N s - 100 ->
  run [LPush fd; LProd; LProd] s = Some (set_prod PIdle s).
Proof.
  intros Hi Ep H0 Heq. pose proof (i_size s Hi) as HN. pose proof (i_room s Hi) as HR.
  assert (Hf : full_at (max_num (q s)) (write_pos (q s)) (read_pos (q s)) = true).
  { fold (N s). rewrite (i_read s Hi), (i_write s Hi), full_at_room by lia. apply Z.leb_le. lia. }
  erewrite run_step; [|cbn [step]; rewrite Ep; reflexivity]. unfold push_fd. destruct (Z.ltb_spec fd 0); [lia|].
  run_one Ep. run_one Hf. reflexivity.
Qed.

Definition waiting s : Z := Z.of_nat (length (pushed s)) - Z.of_nat (length (descriptors s)).

(** C39: one producer and any number of consumers, interleaved access by access
    in any order, make a FIFO queue of capacity [n], for an [n] whose bytes fit
    in the int of [create].  Along every schedule whose swaps are timely, every access
    is inside of the mapping, so that no thread is stuck; the descriptors that the
    calls of pop_fd have returned are the first pushed ones, in order, each once;
    never more than [n] wait.  A pop_fd that then runs alone returns the oldest
    descriptor that waits, and -1 when none does; a push_fd that runs alone appends its
    descriptor when fewer than [n] wait and leaves the queue as it is otherwise. *)
Theorem fd_queue_fifo n :
  fits n -> exists s0, new_queue n = Done s0 /\
  forall ls s, run_timely ls s0 = Some s ->
    (descriptors s = take (length (descriptors s)) (pushed s) /\ 0 <= waiting s <= n) /\
    ((prod s <> PIdle -> is_Some (step LProd s)) /\ forall c, is_Some (step (LCons c) s)) /\
    (forall c, cons_ s c = CIdle ->
      match pushed s !! length (descriptors s) with
      | Some fd => exists s', run (one_pop c) s = Some s' /\ returned s' = returned s ++ [(c, fd)] /\ pushed s' = pushed s
      | None => exists s', run [LCons c; LCons c] s = Some s' /\ returned s' = returned s ++ [(c, -1)] /\ pushed s' = pushed s
      end) /\
    (prod s = PIdle -> forall fd, 0 <= fd ->
      if waiting s <? n
      then exists s', run (one_push fd) s = Some s' /\ pushed s' = pushed s ++ [fd] /\ returned s' = returned s
      else run [LPush fd; LProd; LProd] s = Some (set_prod PIdle s)).
Proof.
  intros Hn. destruct (new_queue_inv n Hn) as (s0 & E0 & Hi0 & HN0). exists s0. split; [done|].
  intros ls s E. pose proof (run_timely_inv _ _ _ Hi0 E) as Hi. pose proof (run_timely_N _ _ _ E) as HN. rewrite HN0 in HN.
  pose proof (i_room s Hi) as HR. unfold waiting. rewrite (i_returned s Hi).
  split; [split; [exact (i_fifo s Hi)|lia]|].
  split; [split; [exact (producer_step_total s Hi)|intros c; exact (consumer_step_total s c Hi)]|]. split.
  - intros c Hc. destruct (pushed s !! length (popped s)) as [fd|] eqn:Efd.
    + destruct (pop_alone s c fd Hi Hc Efd) as (s' & ? & ? & ? & _). by exists s'.
    + apply lookup_ge_None in Efd. destruct (pop_empty s c Hi Hc ltac:(lia)) as (s' & ? & ? & ? & _). by exists s'.
  - intros Hp fd H0. destruct (Z.ltb_spec (Z.of_nat (length (pushed s)) - Z.of_nat (length (popped s))) n).
    + destruct (push_alone s fd Hi Hp H0 ltac:(lia)) as (s' & ? & ? & ? & _). by exists s'.
    + apply push_full; try done. lia.
Qed.

Lemma fd_queue_fifo_witness :
  exists s0, new_queue 2 = Done s0 /\
  exists s, run_timely (one_push 5 ++ one_push 6 ++ one_pop 0 ++ [LCons 1; LCons 1] ++ one_push 7 ++ one_pop 1) s0 = Some s /\
    returned s = [(0%nat, 5); (1%nat, 6)] /\ pushed s = [5; 6; 7] /\
    descriptors s = take (length (descriptors s)) (pushed s).
Proof.
  destruct (fd_queue_fifo 2 ltac:(split; reflexivity)) as (s0 & E0 & H).
  assert (E1 : new_queue 2 = Done s0) by exact E0. vm_compute in E1. injection E1 as <-. eexists. split; [exact E0|]. eexists.
  split; [vm_compute; reflexivity|]. split; [reflexivity|]. split; [reflexivity|].
  exact (proj1 (proj1 (H (one_push 5 ++ one_push 6 ++ one_pop 0 ++ [LCons 1; LCons 1] ++ one_push 7 ++ one_pop 1) _
    ltac:(vm_compute; reflexivity)))).
Defined.

(** Consumer 1 reads its entry and sleeps; consumer 0 pops it, and a whole lap
    of others; then consumer 1 wakes up. *)
Definition aba_schedule : list label :=
  one_push 5 ++ replicate 3 (LCons 1) ++ one_pop 0 ++
  mjoin (replicate 100 (one_push 7 ++ one_pop 0)) ++ one_push 9 ++ [LCons 1] ++ one_pop 0.

(** One writer and many readers are not safe.  In a queue for one
    descriptor, a consumer that sleeps for one lap returns a descriptor that
    another consumer has returned before, and the last descriptor pushed, 9, is
    never returned: the queue is empty. *)
Theorem fd_queue_aba :
  exists s0 s, new_queue 1 = Done s0 /\ run aba_schedule s0 = Some s /\
    head (returned s) = Some (0%nat, 5) /\ last (take 102 (returned s)) = Some (1%nat, 5) /\
    (9 ∈ pushed s) /\ (9 ∉ popped s) /\ last (returned s) = Some (0%nat, -1).
Proof.
  eexists _, _. split; [reflexivity|]. split; [vm_compute; reflexivity|]. cbn [returned pushed popped].
  split; [reflexivity|]. split; [reflexivity|].
  split; [by apply (bool_decide_unpack _); vm_compute|]. split; [by apply (bool_decide_unpack _); vm_compute|reflexivity].
Qed.
