(* ===== verification/Gc.v ===== *)
(** * core/gc.h, core/src/gc.cpp: the coroutine's garbage lists

    A manager is a list of blocks with their destructors.  [gc_free_all] destroys
    and frees them all; [ScopeGC] puts a marker into the list and is meant to free
    what was allocated after it.  A destructor is a function of the freed object;
    the model records the calls.  The theorems: allocation appends or prepends,
    [gc_free] and [gc_free_all] destroy each block exactly once and leave a
    well-formed list; but the destructor of [ScopeGC] frees what was allocated
    before the scope and keeps what was allocated inside. *)
From S2P Require Import Prelude CList CListStore CListIter Cells.

Section gc.
Context {M B : Type} `{Countable M, Countable B}.

(** gc_block_t: has it a destructor, and how many objects. *)
Record gc_block := GcBlock { destructor : bool; num : Z }.

(** The list cells of all managers and blocks, the blocks in memory and the
    destructor calls so far. *)
Record gc := Gc { gcells : heap (cell M B); blocks_ : gmap B gc_block; destroyed : list (B * Z) }.

Implicit Types (g : gc) (m : M) (b : B).

Definition with_gcells h g : gc := Gc h (blocks_ g) (destroyed g).

Definition init_gc_mgr m g : outcome gc := h ← INIT_LIST_HEAD (Head m) (gcells g); Done (with_gcells h g).

(** malloc of a block: the cell holds anything. *)
Definition malloc_block b blk g : outcome gc :=
  match blocks_ g !! b with
  | Some _ => Fault
  | None =>
      h ← INIT_LIST_HEAD (Member b) (<[Member b := Link None None]> (gcells g));
      Done (Gc h (<[b := blk]> (blocks_ g)) (destroyed g))
  end.

(** gc_alloc ([dtor] false), gc_new and GC_NEW ([dtor] true). [None] is NULL. *)
Definition gc_new (dtor : bool) (fresh : B) n m (add_to_tail : bool) g : outcome (option B * gc) :=
  if n <=? 0 then Done (None, g)
  else
    g ← malloc_block fresh (GcBlock dtor n) g;
    h ← (if add_to_tail then list_add_tail (Member fresh) (Head m) (gcells g)
         else list_add (Member fresh) (Head m) (gcells g));
    Done (Some fresh, with_gcells h g).

(** The destructor call and the release of a block. *)
Definition release b g : outcome gc :=
  blk ← of_option (blocks_ g !! b);
  let g := if destructor blk then Gc (gcells g) (blocks_ g) (destroyed g ++ [(b, num blk)]) else g in
  h ← list_del (Member b) (gcells g);
  Done (Gc (delete (Member b) h) (delete b (blocks_ g)) (destroyed g)).

Definition free_body (c : cell M B) g : outcome (bool * gc) :=
  match c with Member b => g ← release b g; Done (false, g) | _ => Fault end.

Definition gc_free_all (fuel : nat) m g : outcome gc := list_for_each_safe gcells (Head m) free_body fuel g.

(** gc_free; [None] is NULL. *)
Definition gc_free (p : option B) g : outcome gc := b ← of_option p; release b g.

(** ScopeGC::ScopeGC, with the marker block [mark]. *)
Definition ScopeGC mark m g : outcome gc :=
  g ← malloc_block mark (GcBlock false 1) g;
  h ← list_add_tail (Member mark) (Head m) (gcells g);
  Done (with_gcells h g).

(** ScopeGC::~ScopeGC; the local manager is the head [Local sp]. *)
Definition ScopeGC_end (fuel sp : nat) mark m g : outcome gc :=
  h ← LIST_HEAD (Local sp) (gcells g);
  h ← list_cut_position (Local sp) (Head m) (Member mark) h;
  g ← list_for_each_safe gcells (Local sp) free_body fuel (with_gcells h g);
  Done (with_gcells (delete (Local sp) (gcells g)) g).
End gc.
Arguments gc M B {_ _ _ _}.

(** ** The lists of blocks *)
Section proofs.
Context {M B : Type} `{Countable M, Countable B}.
Implicit Types (g : gc M B) (m : M) (b : B) (l : list B) (Ls : list (cell M B * list B)).

(** [Ls] are the managers with their blocks; every block in memory is in one. *)
Record gc_repr g Ls : Prop := {
  gr_rings : rings (gcells g) (lists_of Ls []);
  gr_blocks : forall b, b ∈ Ls ≫= snd <-> is_Some (blocks_ g !! b);
  gr_heads : forall b, Member b ∉ Ls.*1 }.

(** The destructor calls for the blocks [l]. *)
Definition dtor_call (bs : gmap B gc_block) b : list (B * Z) :=
  match bs !! b with Some blk => if destructor blk then [(b, num blk)] else [] | None => [] end.
Definition dtor_calls (bs : gmap B gc_block) l : list (B * Z) := l ≫= dtor_call bs.

Lemma gc_repr_perm g Ls Ls' : Ls ≡ₚ Ls' -> gc_repr g Ls -> gc_repr g Ls'.
Proof.
  intros Hp [HR HB HH]. split.
  - by rewrite <-(lists_of_perm Ls Ls' [] []).
  - intros b. rewrite <-HB. by rewrite Hp.
  - intros b. by rewrite <-Hp.
Qed.

Lemma gc_nodup g Ls : gc_repr g Ls -> NoDup (Ls ≫= snd).
Proof. intros [HR _ _]. apply members_nodup in HR. unfold members in HR. by rewrite app_nil_r in HR. Qed.

Lemma malloc_block_ok g Ls b blk :
  gc_repr g Ls -> blocks_ g !! b = None ->
  exists g', malloc_block b blk g = Done g' /\ rings (gcells g') (lists_of Ls [b]) /\
    blocks_ g' = <[b := blk]> (blocks_ g) /\ destroyed g' = destroyed g.
Proof.
  intros [HR HB HH] Hb. unfold malloc_block. rewrite Hb.
  assert (Hni : Member b ∉ blocks (lists_of Ls [])).
  { rewrite blocks_lists_of, elem_of_app. unfold members. rewrite app_nil_r. intros [Hin|Hin]; [by destruct (HH b)|].
    apply list_elem_of_fmap in Hin as (b' & [= <-] & Hin). apply HB in Hin. rewrite Hb in Hin. by destruct Hin. }
  set (h0 := <[Member b := Link None None]> (gcells g)).
  assert (HR0 : rings h0 (lists_of Ls [])).
  { apply (rings_cells (gcells g)); [|done]. intros c Hc. apply lookup_insert_ne. by intros <-. }
  destruct (rings_init h0 _ (Member b) HR0) as (h1 & -> & HR1 & _); [|done|].
  { apply alloc_Some. unfold h0. by rewrite lookup_insert_eq. }
  eexists. split; [reflexivity|]. split; [|done]. cbn [gcells]. by rewrite lists_of_free.
Qed.

Lemma gc_repr_grow g g' Ls Ls' b blk :
  gc_repr g Ls -> rings (gcells g') (lists_of Ls' []) -> blocks_ g' = <[b := blk]> (blocks_ g) ->
  Ls'.*1 = Ls.*1 -> Ls' ≫= snd ≡ₚ b :: (Ls ≫= snd) -> gc_repr g' Ls'.
Proof.
  intros [HR HB HH] HR' Hbl Hh Hp. split; [done| |by rewrite Hh].
  intros b'. rewrite Hp, elem_of_cons, Hbl, HB. destruct (decide (b' = b)) as [->|].
  - rewrite lookup_insert_eq. split; [by eauto|by left].
  - rewrite lookup_insert_ne by done. naive_solver.
Qed.

Lemma gc_new_ok dtor fresh n m (tail : bool) g l Ls :
  0 < n -> blocks_ g !! fresh = None -> gc_repr g ((Head m, l) :: Ls) ->
  exists g', gc_new dtor fresh n m tail g = Done (Some fresh, g') /\
    gc_repr g' ((Head m, if tail then l ++ [fresh] else fresh :: l) :: Ls) /\
    blocks_ g' = <[fresh := GcBlock dtor n]> (blocks_ g) /\ destroyed g' = destroyed g.
Proof.
  intros Hn Hf HG. unfold gc_new. rewrite (proj2 (Z.leb_gt n 0)) by done.
  destruct (malloc_block_ok g _ fresh (GcBlock dtor n) HG Hf) as (g1 & -> & HR1 & Hb1 & Hd1). cbn [mbind outcome_bind].
  destruct tail.
  - destruct (cells_add_tail _ _ _ _ _ _ HR1) as (h2 & -> & HR2 & _). cbn [mbind outcome_bind].
    eexists. split; [reflexivity|]. split; [|done]. eapply gc_repr_grow; [exact HG|exact HR2|exact Hb1|done|].
    rewrite !bind_cons. cbn [snd]. rewrite <-app_assoc. cbn [app]. by rewrite Permutation_middle.
  - destruct (cells_add _ _ _ _ _ _ HR1) as (h2 & -> & HR2 & _). cbn [mbind outcome_bind].
    eexists. split; [reflexivity|]. split; [|done]. eapply gc_repr_grow; [exact HG|exact HR2|exact Hb1|done|done].
Qed.

Lemma release_ok g k l1 b l2 Ls :
  gc_repr g ((k, l1 ++ b :: l2) :: Ls) ->
  exists g', release b g = Done g' /\ gc_repr g' ((k, l1 ++ l2) :: Ls) /\
    blocks_ g' = delete b (blocks_ g) /\ destroyed g' = destroyed g ++ dtor_call (blocks_ g) b.
Proof.
  intros HG. pose proof HG as [HR HB HH].
  assert (Hb : is_Some (blocks_ g !! b)).
  { apply HB. rewrite bind_cons. cbn [snd]. rewrite !elem_of_app, elem_of_cons. tauto. }
  destruct Hb as [blk Hb]. unfold release. rewrite Hb. cbn [of_option mbind outcome_bind].
  rewrite lists_of_cons, fmap_app, fmap_cons in HR.
  destruct (rings_list_del _ _ _ _ _ _ HR) as (h1 & E & HR1 & _ & _ & _).
  assert (Hg : forall d, gcells (if destructor blk then Gc (gcells g) (blocks_ g) d else g) = gcells g) by (by destruct (destructor blk)).
  rewrite Hg, E. cbn [mbind outcome_bind].
  eexists. split; [reflexivity|]. cbn [gcells blocks_ destroyed].
  assert (Hbl : forall d, blocks_ (if destructor blk then Gc (gcells g) (blocks_ g) d else g) = blocks_ g) by (by destruct (destructor blk)).
  rewrite Hbl. split; [|split; [done|]].
  2:{ unfold dtor_call. rewrite Hb. destruct (destructor blk); cbn; [done|by rewrite app_nil_r]. }
  pose proof (gc_nodup _ _ HG) as Hnd. rewrite bind_cons in Hnd. cbn [snd] in Hnd.
  rewrite <-app_assoc in Hnd. cbn [app] in Hnd. rewrite <-Permutation_middle in Hnd. apply NoDup_cons in Hnd as [Hnb _].
  split; cbn [gcells blocks_].
  - rewrite lists_of_cons, fmap_app. apply rings_delete_unused; [|done].
    rewrite <-fmap_app, <-lists_of_cons, blocks_lists_of. unfold members. rewrite app_nil_r, bind_cons, elem_of_app.
    cbn [snd]. intros [Hin|(b' & [= <-] & Hin)%list_elem_of_fmap]; [by destruct (HH b)|].
    apply Hnb. by rewrite app_assoc.
  - intros b'. rewrite bind_cons. cbn [snd]. specialize (HB b'). rewrite bind_cons in HB. cbn [snd] in HB.
    rewrite <-app_assoc in HB |- *. cbn [app] in HB. rewrite <-Permutation_middle, elem_of_cons in HB.
    destruct (decide (b' = b)) as [->|].
    + rewrite lookup_delete_eq. split; [done|by intros [? ?]].
    + rewrite lookup_delete_ne by done. rewrite <-HB. naive_solver.
  - done.
Qed.

Lemma free_list_ok fuel k l Ls g :
  gc_repr g ((k, l) :: Ls) -> (length l <= fuel)%nat ->
  exists g', list_for_each_safe gcells k free_body fuel g = Done g' /\
    gc_repr g' ((k, []) :: Ls) /\ destroyed g' = destroyed g ++ dtor_calls (blocks_ g) l /\
    (forall b, b ∉ l -> blocks_ g' !! b = blocks_ g !! b).
Proof.
  intros HG Hf. pose proof (gr_rings _ _ HG) as HR. rewrite lists_of_cons in HR.
  set (Inv := fun (rem : list (cell M B)) (s : gc M B) => exists l1 l2, l = l1 ++ l2 /\ rem = Member <$> l2 /\
    gc_repr s ((k, l2) :: Ls) /\ destroyed s = destroyed g ++ dtor_calls (blocks_ g) l1 /\
    forall b, b ∉ l1 -> blocks_ s !! b = blocks_ g !! b).
  apply (list_for_each_safe_rule gcells k (Member <$> l) (lists_of Ls []) free_body Inv
    (fun s => gc_repr s ((k, []) :: Ls) /\ destroyed s = destroyed g ++ dtor_calls (blocks_ g) l /\
       forall b, b ∉ l -> blocks_ s !! b = blocks_ g !! b)).
  - exact HR.
  - intros rem s (l1 & l2 & _ & -> & [HR2 _ _] & _). rewrite lists_of_cons in HR2. by eapply (rings_follows_next _ _ []).
  - intros s (l1 & l2 & -> & E & HG2 & Hd & Hb). symmetry in E. apply fmap_nil_inv in E as ->. by rewrite app_nil_r.
  - intros x rem s (l1 & l2 & -> & E & HG2 & Hd & Hb). destruct l2 as [|b l2]; [done|]. injection E as -> ->.
    destruct (release_ok s k [] b l2 Ls HG2) as (s' & Er & HG' & Hbl & Hd'). cbn [free_body]. rewrite Er.
    eexists false, s'. split; [done|]. exists (l1 ++ [b]), l2. rewrite <-app_assoc. split; [done|]. split; [done|].
    pose proof (gc_nodup _ _ HG) as Hnd. rewrite bind_cons in Hnd. cbn [snd] in Hnd. rewrite <-app_assoc in Hnd.
    assert (Hnb : b ∉ l1) by (apply NoDup_app in Hnd as (_ & Hd1 & _); intros Hin; apply (Hd1 b Hin); left).
    split; [done|]. split.
    + unfold dtor_calls in *. rewrite Hd', Hd, bind_app, bind_cons. cbn. unfold dtor_call at 2 4. rewrite Hb by done.
      by rewrite app_nil_r, app_assoc.
    + intros b' Hb'. apply not_elem_of_app in Hb' as [Hb1 Hb2%not_elem_of_cons]. rewrite Hbl, lookup_delete_ne by naive_solver.
      by apply Hb.
  - exists [], l. split_and!; [done|done|done|by rewrite app_nil_r|done].
  - by rewrite length_fmap.
Qed.

(** [gc_free_all] ends, calls the destructor of every block of the manager
    that has one, once each, in list order, with its number of objects, frees
    all of them and no block of another manager, and leaves an empty list; a
    block allocated before it is at the end of the list or at its front, as
    asked. *)
Theorem gc_free_all_frees dtor fresh n m (tail : bool) g l Ls fuel :
  0 < n -> blocks_ g !! fresh = None -> gc_repr g ((Head m, l) :: Ls) -> (length l < fuel)%nat ->
  exists g1 g2, gc_new dtor fresh n m tail g = Done (Some fresh, g1) /\ gc_free_all fuel m g1 = Done g2 /\
    gc_repr g2 ((Head m, []) :: Ls) /\
    destroyed g2 = destroyed g ++ dtor_calls (<[fresh := GcBlock dtor n]> (blocks_ g)) (if tail then l ++ [fresh] else fresh :: l) /\
    (forall b, b ∉ l -> b <> fresh -> blocks_ g2 !! b = blocks_ g !! b) /\
    (forall b, b ∈ fresh :: l -> blocks_ g2 !! b = None).
Proof.
  intros Hn Hf HG Hfuel. destruct (gc_new_ok dtor fresh n m tail g l Ls Hn Hf HG) as (g1 & E1 & HG1 & Hb1 & Hd1).
  set (l' := if tail then l ++ [fresh] else fresh :: l) in *.
  assert (Hl' : l' ≡ₚ fresh :: l) by (unfold l'; destruct tail; [by rewrite Permutation_app_comm|done]).
  destruct (free_list_ok fuel (Head m) l' Ls g1 HG1) as (g2 & E2 & HG2 & Hd2 & Hb2).
  { rewrite Hl'. simpl. lia. }
  exists g1, g2. split; [done|]. split; [exact E2|]. split; [done|]. split; [by rewrite Hd2, Hd1, Hb1|]. split.
  - intros b Hb Hne. rewrite Hb2, Hb1 by (rewrite Hl', elem_of_cons; tauto). by apply lookup_insert_ne.
  - intros b Hb. apply eq_None_not_Some. intros Hin. apply (gr_blocks _ _ HG2) in Hin. rewrite bind_cons in Hin. cbn in Hin.
    pose proof (gc_nodup _ _ HG1) as Hnd. rewrite bind_cons in Hnd. cbn [snd] in Hnd.
    apply NoDup_app in Hnd as (_ & Hdj & _). apply (Hdj b); [by rewrite Hl'|done].
Qed.

(** The end of a [ScopeGC] frees the wrong half of the list.  With the
    blocks [before] allocated when the scope began and [inside] allocated since,
    the destructor destroys and frees [before] and keeps [inside]. *)
Theorem ScopeGC_frees_outer m mark g before inside Ls sp fuel :
  gc_repr g ((Head m, before ++ mark :: inside) :: Ls) -> blocks_ g !! mark = Some (GcBlock false 1) ->
  gcells g !! Local sp = None -> (length before < fuel)%nat ->
  exists g', ScopeGC_end fuel sp mark m g = Done g' /\ gc_repr g' ((Head m, inside) :: Ls) /\
    destroyed g' = destroyed g ++ dtor_calls (blocks_ g) before /\
    (forall b, b ∈ before -> blocks_ g' !! b = None) /\
    (forall b, b ∈ inside -> blocks_ g' !! b = blocks_ g !! b).
Proof.
  intros HG Hm Hsp Hf. pose proof HG as [HR HB HH]. unfold ScopeGC_end.
  destruct (cells_LIST_HEAD _ _ _ _ HR Hsp) as (h1 & -> & HR1). cbn [mbind outcome_bind].
  assert (Hal : alloc h1 (Local sp)) by (eapply rings_alloc; [exact HR1|rewrite lists_of_cons, blocks_cons; left]).
  rewrite !lists_of_cons in HR1. apply rings_cons in HR1 as (_ & _ & Hni & HR1). rewrite fmap_app, fmap_cons in HR1, Hni.
  destruct (rings_list_cut_position _ _ _ _ _ _ (Local sp) HR1) as (h2 & -> & HR2 & _); [done|apply Hni; left|].
  cbn [mbind outcome_bind]. assert (Hnd := gc_nodup _ _ HG). rewrite bind_cons in Hnd. cbn [snd] in Hnd.
  assert (HG2 : gc_repr (with_gcells h2 g) ((Local sp, before ++ [mark]) :: (Head m, inside) :: Ls)).
  { split; cbn [gcells with_gcells blocks_].
    - rewrite !lists_of_cons, fmap_app. exact HR2.
    - intros b. rewrite <-HB, !bind_cons. cbn [snd]. clear. set_solver.
    - intros b. specialize (HH b). rewrite !fmap_cons, !not_elem_of_cons in *. cbn. naive_solver. }
  destruct (free_list_ok fuel _ _ _ _ HG2) as (g3 & -> & HG3 & Hd3 & Hb3); [rewrite length_app; simpl; lia|].
  cbn [mbind outcome_bind]. eexists. split; [reflexivity|]. cbn [with_gcells blocks_ destroyed] in *.
  rewrite <-app_assoc in Hnd. cbn [app] in Hnd.
  split; [|split; [|split]].
  - destruct HG3 as [HR3 HB3 HH3]. split; cbn [gcells blocks_].
    + by eapply cells_drop.
    + exact HB3.
    + intros b. specialize (HH3 b). rewrite fmap_cons, not_elem_of_cons in HH3. by destruct HH3.
  - rewrite Hd3. unfold dtor_calls. rewrite bind_app, bind_cons. cbn. unfold dtor_call at 2. rewrite Hm. cbn. by rewrite app_nil_r.
  - intros b Hb. apply eq_None_not_Some. intros Hin. apply (gr_blocks _ _ HG3) in Hin. rewrite !bind_cons in Hin. cbn in Hin.
    apply NoDup_app in Hnd as (_ & Hdj & _). apply (Hdj b Hb). by right.
  - intros b Hb. apply Hb3. rewrite elem_of_app, list_elem_of_singleton. apply NoDup_app in Hnd as (_ & Hdj & Hnd).
    apply NoDup_cons in Hnd as [Hmk _]. intros [Hx| ->].
    + apply (Hdj b Hx). right. apply elem_of_app. by left.
    + apply Hmk, elem_of_app. by left.
Qed.
End proofs.

(** ** The hypotheses can hold *)
Definition gc0 : gc unit nat := Gc {[Head tt := Link (Some (Head tt)) (Some (Head tt))]} ∅ [].

Lemma gc0_repr : gc_repr gc0 [(Head tt, [])].
Proof.
  split.
  - apply (rings_singletons _ [Head tt]); [apply NoDup_singleton|]. by intros d ->%list_elem_of_singleton.
  - intros b. split; [by intros ?%not_elem_of_nil|by intros [? ?]].
  - intros b. by apply (bool_decide_unpack _).
Qed.

Lemma gc_free_all_frees_witness :
  exists g1 g2, gc_new true 5%nat 2 tt true gc0 = Done (Some 5%nat, g1) /\ gc_free_all 1 tt g1 = Done g2 /\
    destroyed g2 = [(5%nat, 2)].
Proof.
  destruct (gc_free_all_frees true 5%nat 2 tt true gc0 [] [] 1) as (g1 & g2 & E1 & E2 & _ & Hd & _);
    [done|done|apply gc0_repr|simpl; lia|]. exists g1, g2. split; [exact E1|]. split; [exact E2|]. rewrite Hd. reflexivity.
Defined.

(** Block 1 before the scope with marker 2, block 3 inside it. *)
Definition scope_run : outcome (gc unit nat) :=
  r ← gc_new true 1%nat 1 tt true gc0;
  g ← ScopeGC 2%nat tt r.2;
  r ← gc_new true 3%nat 1 tt true g;
  Done r.2.

Lemma scope_run_repr : exists g, scope_run = Done g /\ gc_repr g [(Head tt, [1%nat; 2%nat; 3%nat])] /\
  blocks_ g !! 2%nat = Some (GcBlock false 1).
Proof.
  unfold scope_run. destruct (gc_new_ok true 1%nat 1 tt true gc0 [] []) as (g1 & E1 & HG1 & Hb1 & _); [done|done|apply gc0_repr|].
  rewrite E1. cbn [mbind outcome_bind snd]. unfold ScopeGC.
  destruct (malloc_block_ok g1 _ 2%nat (GcBlock false 1) HG1) as (g2 & -> & HR2 & Hb2 & _); [by rewrite Hb1|].
  cbn [mbind outcome_bind]. destruct (cells_add_tail _ _ _ _ _ _ HR2) as (h2 & -> & HR3 & _). cbn [mbind outcome_bind].
  assert (HG2 : gc_repr (with_gcells h2 g2) [(Head tt, [1%nat; 2%nat])]).
  { eapply gc_repr_grow; [exact HG1|exact HR3|exact Hb2|done|]. apply perm_swap. }
  destruct (gc_new_ok true 3%nat 1 tt true (with_gcells h2 g2) [1%nat; 2%nat] []) as (g3 & -> & HG3 & Hb3 & _);
    [done|cbn [blocks_ with_gcells]; by rewrite Hb2, Hb1|exact HG2|].
  cbn [mbind outcome_bind snd]. exists g3. split; [done|]. split; [done|].
  rewrite Hb3. cbn [blocks_ with_gcells]. by rewrite Hb2, Hb1.
Qed.

Lemma ScopeGC_frees_outer_witness :
  exists g g', scope_run = Done g /\ ScopeGC_end 2 0 2%nat tt g = Done g' /\
    blocks_ g' !! 1%nat = None /\ blocks_ g' !! 3%nat = blocks_ g !! 3%nat.
Proof.
  destruct scope_run_repr as (g & E & HG & Hm).
  destruct (ScopeGC_frees_outer tt 2%nat g [1%nat] [3%nat] [] 0 2 HG Hm) as (g' & E' & _ & _ & Hb & Hi);
    [|simpl; lia|exists g, g'; split_and!; [exact E|exact E'|apply Hb; left|apply Hi; left]].
  vm_compute in E. injection E as <-. reflexivity.
Defined.
