(* ===== verification/Dispatch.v ===== *)
(** * core/dispatch.cpp: the task queues

    A dispatch_mgr_t has the list [tasks] of registered tasks, which run in
    every round, and the list [delay_tasks] of tasks that run once.  A task's
    [proc] is called on the whole world.  [dispatch_repr] says which tasks are
    in which list; the theorems give the effect of every operation on the two
    lists and on the two counters, and [proc_tasks_round] describes a round:
    registered tasks in order, then each delayed task exactly once in FIFO
    order, with tasks delayed meanwhile left for the next round. *)
From S2P Require Import Prelude CList CListStore CListIter Words Component Cells.

Inductive dispatch_head := Tasks | DelayTasks.

#[export] Instance dispatch_head_eq_dec : EqDecision dispatch_head.
Proof. solve_decision. Defined.
#[export] Instance dispatch_head_countable : Countable dispatch_head.
Proof.
  apply (inj_countable' (fun h => match h with Tasks => true | DelayTasks => false end)
    (fun b : bool => if b then Tasks else DelayTasks)). by intros [].
Defined.

(** task_t: [P] is a [proc] with its [arg]. *)
Record task (P : Type) := Task { proc : P; auto_del : bool }.
Arguments Task {P} _ _.
Arguments proc {P} _.
Arguments auto_del {P} _.

(** dispatch_mgr_t, with the task objects in memory. *)
Record dispatch_mgr (T P : Type) `{Countable T} := DispatchMgr {
  dcells : heap (cell dispatch_head T);
  task_num : Z;
  delay_task_num : Z;
  task_objs : gmap T (task P);
}.
Arguments DispatchMgr {T P _ _} _ _ _ _.
Arguments dcells {T P _ _} _.
Arguments task_num {T P _ _} _.
Arguments delay_task_num {T P _ _} _.
Arguments task_objs {T P _ _} _.

Section dispatch.
Context {T P : Type} `{Countable T}.
Implicit Types (d : dispatch_mgr T P) (t : T) (p : P).

Definition with_dcells (h : heap (cell dispatch_head T)) d : dispatch_mgr T P :=
  DispatchMgr h (task_num d) (delay_task_num d) (task_objs d).

(** The constructor. *)
Definition dispatch_mgr_t d : outcome (dispatch_mgr T P) :=
  h ← INIT_LIST_HEAD (Head Tasks) (dcells d);
  h ← INIT_LIST_HEAD (Head DelayTasks) h;
  Done (DispatchMgr h 0 0 (task_objs d)).

Definition init_task t p d : outcome (dispatch_mgr T P) :=
  _ ← of_option (task_objs d !! t);
  h ← INIT_LIST_HEAD (Member t) (dcells d);
  Done (DispatchMgr h (task_num d) (delay_task_num d) (<[t := Task p false]> (task_objs d))).

Definition registry t d : outcome (dispatch_mgr T P) :=
  e ← list_empty (Member t) (dcells d);
  h ← (if (e : bool) then list_add_tail (Member t) (Head Tasks) (dcells d)
       else list_move_tail (Member t) (Head Tasks) (dcells d));
  Done (DispatchMgr h (u32 (task_num d + 1)) (delay_task_num d) (task_objs d)).

Definition delay t d : outcome (dispatch_mgr T P) :=
  e ← list_empty (Member t) (dcells d);
  if (e : bool) then
    h ← list_add_tail (Member t) (Head DelayTasks) (dcells d);
    Done (DispatchMgr h (task_num d) (u32 (delay_task_num d + 1)) (task_objs d))
  else Done d.

Definition unregistry t d : outcome (dispatch_mgr T P) :=
  h ← list_del_init (Member t) (dcells d);
  Done (DispatchMgr h (u32 (task_num d - 1)) (delay_task_num d) (task_objs d)).

Definition unregistry_delay t d : outcome (dispatch_mgr T P) :=
  h ← list_del_init (Member t) (dcells d);
  Done (DispatchMgr h (task_num d) (u32 (delay_task_num d - 1)) (task_objs d)).

(** new task_t() at the fresh address [t]. *)
Definition new_task t p d : dispatch_mgr T P :=
  DispatchMgr (<[Member t := Link None None]> (dcells d)) (task_num d) (delay_task_num d)
    (<[t := Task p false]> (task_objs d)).

(** delete t *)
Definition delete_task t d : outcome (dispatch_mgr T P) :=
  _ ← of_option (task_objs d !! t);
  Done (DispatchMgr (delete (Member t) (dcells d)) (task_num d) (delay_task_num d)
    (delete t (task_objs d))).

Definition set_auto_del t d : outcome (dispatch_mgr T P) :=
  o ← of_option (task_objs d !! t);
  Done (DispatchMgr (dcells d) (task_num d) (delay_task_num d)
    (<[t := Task (proc o) true]> (task_objs d))).

(** registry_task(proc, arg) *)
Definition registry_task_proc t p d : outcome (dispatch_mgr T P) :=
  d ← init_task t p (new_task t p d);
  d ← set_auto_del t d;
  registry t d.

(** registry_delay_task(proc, arg) *)
Definition registry_delay_task_proc t p d : outcome (dispatch_mgr T P) :=
  d ← init_task t p (new_task t p d);
  d ← set_auto_del t d;
  delay t d.
End dispatch.

(** ** A round of the dispatcher, on the world its tasks run in *)
Section proc_tasks.
Context {T P W : Type} `{Countable T} `{!Has (dispatch_mgr T P) W}.

(** [run p w] calls the function [p] on its argument. *)
Variable run : P -> W -> outcome (Z * W).

Definition dmgr (w : W) : dispatch_mgr T P := get w.
Definition dlists (s : W * Z) : heap (cell dispatch_head T) := dcells (dmgr s.1).

(** if (ret > 0) ++num; *)
Definition count_ret (ret num : Z) : Z := if 0 <? ret then num + 1 else num.

(** t->proc(t->arg) *)
Definition call_task (t : T) (w : W) : outcome (Z * W) :=
  o ← of_option (task_objs (dmgr w) !! t); run (proc o) w.

Definition container_of (c : cell dispatch_head T) : outcome T :=
  match c with Member t => Done t | _ => Fault end.

(** The body of the loop over [tasks]. *)
Definition run_task (t : T) (s : W * Z) : outcome (W * Z) :=
  r ← call_task t s.1; Done (r.2, count_ret r.1 s.2).

(** The body of the loop over the delayed tasks. *)
Definition run_delayed (t : T) (s : W * Z) : outcome (W * Z) :=
  w ← hoist (fun d => h ← list_del_init (Member t) (dcells d); Done (with_dcells h d)) s.1;
  o ← of_option (task_objs (dmgr w) !! t);
  r ← call_task t w;
  w ← (if auto_del o then hoist (delete_task t) r.2 else Done r.2);
  Done (w, count_ret r.1 s.2).

Definition task_body (f : T -> W * Z -> outcome (W * Z)) (c : cell dispatch_head T) (s : W * Z)
    : outcome (bool * (W * Z)) :=
  t ← container_of c; s ← f t s; Done (false, s).

(** LIST_HEAD(delay_list); list_swap(&delay_list, &mgr->delay_tasks); delay_task_num = 0; *)
Definition open_batch (sp : nat) : W -> outcome W :=
  hoist (fun d => h ← LIST_HEAD (Local sp) (dcells d);
                  h ← list_swap (Local (S sp)) (Local sp) (Head DelayTasks) h;
                  Done (DispatchMgr h (task_num d) 0 (task_objs d))).

(** The end of the scope of delay_list. *)
Definition close_batch (sp : nat) (w : W) : W :=
  put (with_dcells (delete (Local sp) (dcells (dmgr w))) (dmgr w)) w.

(** proc_tasks; its stack frame has the list head [Local sp] and the temporary
    of list_swap at [Local (S sp)]. *)
Definition proc_tasks (sp fuel : nat) (w : W) : outcome (Z * W) :=
  s ← (if 0 <? task_num (dmgr w)
       then list_for_each_safe dlists (Head Tasks) (task_body run_task) fuel (w, 0)
       else Done (w, 0));
  let '(w, num) := s in
  if delay_task_num (dmgr w) <=? 0 then Done (num, w) else
  w ← open_batch sp w;
  s ← list_for_each_safe dlists (Local sp) (task_body run_delayed) fuel (w, num);
  Done (s.2, close_batch sp s.1).
End proc_tasks.

(** ** Which tasks are where *)
Section repr.
Context {T P : Type} `{Countable T}.
Implicit Types (d : dispatch_mgr T P) (t : T) (p : P) (ts ds free : list T).
Implicit Types (Ls : list (cell dispatch_head T * list T)).

(** [ts] are the registered and [ds] the delayed tasks, [Ls] the lists on stack
    frames, [free] the tasks in no list. *)
Record dispatch_repr d ts ds Ls free : Prop := {
  dr_rings : rings (dcells d) (lists_of ((Head Tasks, ts) :: (Head DelayTasks, ds) :: Ls) free);
  dr_objs t : t ∈ members ((Head Tasks, ts) :: (Head DelayTasks, ds) :: Ls) free -> is_Some (task_objs d !! t);
}.

(** The counters count the lists. *)
Definition counted d ts ds : Prop :=
  task_num d = Z.of_nat (length ts) /\ delay_task_num d = Z.of_nat (length ds).

Lemma dispatch_repr_perm d ts ds Ls Ls' free free' :
  Ls ≡ₚ Ls' -> free ≡ₚ free' -> dispatch_repr d ts ds Ls free -> dispatch_repr d ts ds Ls' free'.
Proof.
  intros HL Hf [HR Ho]. split.
  - rewrite <-(lists_of_perm ((Head Tasks, ts) :: (Head DelayTasks, ds) :: Ls) _ free); [done| |done].
    by rewrite HL.
  - intros t Ht. apply Ho. revert Ht. unfold members. by rewrite HL, Hf.
Qed.

Ltac dispatch_members Ho := intros; apply Ho; unfold members in *; simpl in *; set_solver.

Lemma repr_delay d ts ds Ls t free :
  dispatch_repr d ts ds Ls (t :: free) ->
  exists d', delay t d = Done d' /\ dispatch_repr d' ts (ds ++ [t]) Ls free /\
    task_num d' = task_num d /\ delay_task_num d' = u32 (delay_task_num d + 1) /\
    task_objs d' = task_objs d /\ same_cells (dcells d) (dcells d').
Proof.
  intros [HR Ho]. unfold delay. rewrite (cells_empty_detached _ _ _ _ HR). simpl.
  rewrite (lists_of_perm _ ((Head DelayTasks, ds) :: (Head Tasks, ts) :: Ls) _ _ (perm_swap _ _ _)
    (reflexivity _)) in HR.
  destruct (cells_add_tail _ _ _ _ _ _ HR) as (h' & -> & HR' & Hs). simpl.
  eexists. split; [done|]. split; [|done]. split; simpl.
  - rewrite (lists_of_perm _ ((Head DelayTasks, ds ++ [t]) :: (Head Tasks, ts) :: Ls) _ _ (perm_swap _ _ _)
      (reflexivity _)). exact HR'.
  - dispatch_members Ho.
Qed.

(** registry_delay_task(proc, arg): a new task at the end of the queue, which the
    round that runs it deletes. *)
Lemma repr_registry_delay_task d ts ds Ls free t p :
  dispatch_repr d ts ds Ls free -> dcells d !! Member t = None ->
  exists d', registry_delay_task_proc t p d = Done d' /\ dispatch_repr d' ts (ds ++ [t]) Ls free /\
    task_num d' = task_num d /\ delay_task_num d' = u32 (delay_task_num d + 1) /\
    task_objs d' = <[t := Task p true]> (task_objs d).
Proof.
  intros [HR Ho] Ht. set (F := lists_of ((Head Tasks, ts) :: (Head DelayTasks, ds) :: Ls) free) in *.
  assert (Hni : Member t ∉ blocks F).
  { intros Hin%(rings_alloc _ _ _ HR)%alloc_Some. rewrite Ht in Hin. by destruct Hin. }
  assert (HR0 : rings (<[Member t := Link None None]> (dcells d)) F) by by apply rings_insert_fresh.
  destruct (rings_init _ _ (Member t) HR0) as (h1 & E1 & HR1 & _); [apply alloc_Some; by rewrite lookup_insert_eq|done|].
  unfold registry_delay_task_proc, init_task, new_task, set_auto_del. cbn [task_objs dcells task_num delay_task_num].
  rewrite lookup_insert_eq. cbn [of_option]. rewrite outcome_bind_ret, E1, outcome_bind_ret. cbn [task_objs dcells task_num delay_task_num mbind outcome_bind].
  rewrite lookup_insert_eq. cbn [of_option proc]. rewrite outcome_bind_ret, !insert_insert_eq. cbn [mbind outcome_bind proc].
  destruct (repr_delay (DispatchMgr h1 (task_num d) (delay_task_num d) (<[t := Task p true]> (task_objs d))) ts ds Ls t free)
    as (d' & -> & HR' & En & Ed & Eo & _); [|by exists d'].
  split; cbn [dcells task_objs].
  - by rewrite lists_of_free.
  - intros x Hx. rewrite lookup_insert_is_Some'. destruct (decide (t = x)) as [->|]; [by left|right]. apply Ho.
    unfold members in *. rewrite elem_of_app, elem_of_cons in *. destruct Hx as [?|[->|?]]; auto; done.
Qed.

(** A task that is in a list already stays where it is. *)
Lemma repr_delay_queued d ts ds Ls free t :
  dispatch_repr d ts ds Ls free -> t ∈ ts \/ t ∈ ds -> delay t d = Done d.
Proof.
  intros [HR _] Ht. unfold delay. destruct Ht as [(l1 & l2 & ->)%list_elem_of_split|(l1 & l2 & ->)%list_elem_of_split].
  - by rewrite (cells_empty_member _ _ _ _ _ _ _ HR).
  - rewrite (lists_of_perm _ ((Head DelayTasks, l1 ++ t :: l2) :: (Head Tasks, ts) :: Ls) _ _ (perm_swap _ _ _)
      (reflexivity _)) in HR.
    by rewrite (cells_empty_member _ _ _ _ _ _ _ HR).
Qed.

Lemma repr_registry d ts ds Ls t free :
  dispatch_repr d ts ds Ls (t :: free) ->
  exists d', registry t d = Done d' /\ dispatch_repr d' (ts ++ [t]) ds Ls free /\
    task_num d' = u32 (task_num d + 1) /\ delay_task_num d' = delay_task_num d /\
    task_objs d' = task_objs d.
Proof.
  intros [HR Ho]. unfold registry. rewrite (cells_empty_detached _ _ _ _ HR). simpl.
  destruct (cells_add_tail _ _ _ _ _ _ HR) as (h' & -> & HR' & _). simpl.
  eexists. split; [done|]. split; [|done]. split; simpl; [done|]. dispatch_members Ho.
Qed.

(** A task that is registered again, or that is delayed, moves to the end of the
    registered tasks, and is counted once more. *)
Lemma repr_registry_delayed d ts l1 t l2 Ls free :
  dispatch_repr d ts (l1 ++ t :: l2) Ls free ->
  exists d', registry t d = Done d' /\ dispatch_repr d' (ts ++ [t]) (l1 ++ l2) Ls free /\
    task_num d' = u32 (task_num d + 1) /\ delay_task_num d' = delay_task_num d.
Proof.
  intros [HR Ho]. unfold registry.
  rewrite (lists_of_perm _ ((Head DelayTasks, l1 ++ t :: l2) :: (Head Tasks, ts) :: Ls) _ _ (perm_swap _ _ _)
    (reflexivity _)) in HR.
  rewrite (cells_empty_member _ _ _ _ _ _ _ HR). simpl.
  destruct (cells_move_tail _ _ _ _ _ _ _ _ _ HR) as (h' & -> & HR' & _). simpl.
  eexists. split; [done|]. split; [|done]. split; simpl; [done|]. dispatch_members Ho.
Qed.

Lemma repr_registry_again d l1 t l2 ds Ls free :
  dispatch_repr d (l1 ++ t :: l2) ds Ls free ->
  exists d', registry t d = Done d' /\ dispatch_repr d' (l1 ++ l2 ++ [t]) ds Ls free /\
    task_num d' = u32 (task_num d + 1) /\ delay_task_num d' = delay_task_num d.
Proof.
  intros [HR Ho]. unfold registry. rewrite (cells_empty_member _ _ _ _ _ _ _ HR). simpl.
  destruct (cells_move_tail_same _ _ _ _ _ _ _ HR) as (h' & -> & HR' & _). simpl.
  eexists. split; [done|]. split; [|done]. split; simpl; [done|]. dispatch_members Ho.
Qed.

Lemma repr_unregistry d l1 t l2 ds Ls free :
  dispatch_repr d (l1 ++ t :: l2) ds Ls free ->
  exists d', unregistry t d = Done d' /\ dispatch_repr d' (l1 ++ l2) ds Ls (t :: free) /\
    task_num d' = u32 (task_num d - 1) /\ delay_task_num d' = delay_task_num d /\
    task_objs d' = task_objs d.
Proof.
  intros [HR Ho]. unfold unregistry.
  destruct (cells_del_init _ _ _ _ _ _ _ HR) as (h' & -> & HR' & _). simpl.
  eexists. split; [done|]. split; [|done]. split; simpl; [done|]. dispatch_members Ho.
Qed.

Lemma repr_unregistry_delay d ts l1 t l2 Ls free :
  dispatch_repr d ts (l1 ++ t :: l2) Ls free ->
  exists d', unregistry_delay t d = Done d' /\ dispatch_repr d' ts (l1 ++ l2) Ls (t :: free) /\
    task_num d' = task_num d /\ delay_task_num d' = u32 (delay_task_num d - 1) /\
    task_objs d' = task_objs d.
Proof.
  intros [HR Ho]. unfold unregistry_delay.
  rewrite (lists_of_perm _ ((Head DelayTasks, l1 ++ t :: l2) :: (Head Tasks, ts) :: Ls) _ _ (perm_swap _ _ _)
    (reflexivity _)) in HR.
  destruct (cells_del_init _ _ _ _ _ _ _ HR) as (h' & -> & HR' & _). simpl.
  eexists. split; [done|]. split; [|done]. split; simpl; [|dispatch_members Ho].
  rewrite (lists_of_perm _ ((Head DelayTasks, l1 ++ l2) :: (Head Tasks, ts) :: Ls) _ _ (perm_swap _ _ _)
    (reflexivity _)). exact HR'.
Qed.

(** Unregistering a task that waits in no list only moves the counter: with an
    empty queue it wraps around to 2^32 - 1. *)
Lemma repr_unregistry_delay_detached d ts ds Ls t free :
  dispatch_repr d ts ds Ls (t :: free) ->
  exists d', unregistry_delay t d = Done d' /\ dispatch_repr d' ts ds Ls (t :: free) /\
    task_num d' = task_num d /\ delay_task_num d' = u32 (delay_task_num d - 1).
Proof.
  intros [HR Ho]. unfold unregistry_delay.
  destruct (cells_del_init_detached _ _ _ _ HR) as (h' & -> & HR' & _). simpl.
  eexists. split; [done|]. split; [|done]. by split.
Qed.
End repr.

(** ** The operations as a whole *)
Section api.
Context {T P : Type} `{Countable T}.
Implicit Types (d : dispatch_mgr T P) (t : T) (ts ds free : list T).

Inductive dcmd := DRegistry (t : T) | DDelay (t : T) | DUnregistry (t : T) | DUnregistryDelay (t : T).

Definition dexec (c : dcmd) d : outcome (dispatch_mgr T P) :=
  match c with
  | DRegistry t => registry t d
  | DDelay t => delay t d
  | DUnregistry t => unregistry t d
  | DUnregistryDelay t => unregistry_delay t d
  end.

(** The queues and the two counters. *)
Record queues := Queues {
  q_tasks : list T; q_delay : list T; q_free : list T; q_num : Z; q_delay_num : Z;
}.

Inductive dmean : dcmd -> queues -> queues -> Prop :=
| d_registry t ts ds free free' n m :
    free ≡ₚ t :: free' ->
    dmean (DRegistry t) (Queues ts ds free n m) (Queues (ts ++ [t]) ds free' (u32 (n + 1)) m)
| d_registry_again t l1 l2 ds free n m :
    dmean (DRegistry t) (Queues (l1 ++ t :: l2) ds free n m) (Queues (l1 ++ l2 ++ [t]) ds free (u32 (n + 1)) m)
| d_registry_delayed t ts l1 l2 free n m :
    dmean (DRegistry t) (Queues ts (l1 ++ t :: l2) free n m) (Queues (ts ++ [t]) (l1 ++ l2) free (u32 (n + 1)) m)
| d_delay t ts ds free free' n m :
    free ≡ₚ t :: free' ->
    dmean (DDelay t) (Queues ts ds free n m) (Queues ts (ds ++ [t]) free' n (u32 (m + 1)))
| d_delay_queued t ts ds free n m :
    t ∈ ts \/ t ∈ ds -> dmean (DDelay t) (Queues ts ds free n m) (Queues ts ds free n m)
| d_unregistry t l1 l2 ds free n m :
    dmean (DUnregistry t) (Queues (l1 ++ t :: l2) ds free n m) (Queues (l1 ++ l2) ds (t :: free) (u32 (n - 1)) m)
| d_unregistry_delay t ts l1 l2 free n m :
    dmean (DUnregistryDelay t) (Queues ts (l1 ++ t :: l2) free n m)
      (Queues ts (l1 ++ l2) (t :: free) n (u32 (m - 1)))
| d_unregistry_delay_free t ts ds free free' n m :
    free ≡ₚ t :: free' ->
    dmean (DUnregistryDelay t) (Queues ts ds free n m) (Queues ts ds free n (u32 (m - 1))).

Definition queues_repr d (q : queues) : Prop :=
  dispatch_repr d (q_tasks q) (q_delay q) [] (q_free q) /\
  task_num d = q_num q /\ delay_task_num d = q_delay_num q.

Lemma dmean_sound c q q' d :
  dmean c q q' -> queues_repr d q -> exists d', dexec c d = Done d' /\ queues_repr d' q'.
Proof.
  intros Hm (HR & Hn & Hd). destruct Hm; simpl in *.
  all: try match goal with Hp : _ ≡ₚ _ :: _ |- _ =>
         pose proof (dispatch_repr_perm _ _ _ _ [] _ _ (reflexivity _) Hp HR) as HR1 end.
  - destruct (repr_registry _ _ _ _ _ _ HR1) as (d' & -> & ? & E1 & E2 & _).
    exists d'. split; [done|]. split; [done|]. simpl. by rewrite E1, E2, Hn.
  - destruct (repr_registry_again _ _ _ _ _ _ _ HR) as (d' & -> & ? & E1 & E2).
    exists d'. split; [done|]. split; [done|]. simpl. by rewrite E1, E2, Hn.
  - destruct (repr_registry_delayed _ _ _ _ _ _ _ HR) as (d' & -> & ? & E1 & E2).
    exists d'. split; [done|]. split; [done|]. simpl. by rewrite E1, E2, Hn.
  - destruct (repr_delay _ _ _ _ _ _ HR1) as (d' & -> & ? & E1 & E2 & _).
    exists d'. split; [done|]. split; [done|]. simpl. by rewrite E1, E2, Hd.
  - rewrite (repr_delay_queued _ _ _ _ _ _ HR) by done. exists d. by split.
  - destruct (repr_unregistry _ _ _ _ _ _ _ HR) as (d' & -> & ? & E1 & E2 & _).
    exists d'. split; [done|]. split; [done|]. simpl. by rewrite E1, E2, Hn.
  - destruct (repr_unregistry_delay _ _ _ _ _ _ _ HR) as (d' & -> & ? & E1 & E2 & _).
    exists d'. split; [done|]. split; [done|]. simpl. by rewrite E1, E2, Hd.
  - destruct (repr_unregistry_delay_detached _ _ _ _ _ _ HR1) as (d' & -> & HR' & E1 & E2).
    exists d'. split; [done|]. split; [|simpl; by rewrite E1, E2, Hd].
    by eapply dispatch_repr_perm; [reflexivity|symmetry; eassumption|].
Qed.

Inductive dmeans : list dcmd -> queues -> queues -> Prop :=
| ds_nil q : dmeans [] q q
| ds_cons c cs q1 q2 q3 : dmean c q1 q2 -> dmeans cs q2 q3 -> dmeans (c :: cs) q1 q3.

Lemma dmeans_sound cs q q' d :
  dmeans cs q q' -> queues_repr d q -> exists d', run_all dexec cs d = Done d' /\ queues_repr d' q'.
Proof.
  intros Hm. revert d. induction Hm as [q|c cs q1 q2 q3 Hc _ IH]; intros d HR; simpl; [eauto|].
  destruct (dmean_sound _ _ _ _ Hc HR) as (d1 & -> & HR1). simpl. auto.
Qed.

(** A manager made by the constructor, with initialised tasks. *)
Definition fresh_dispatch (ks : list (T * P)) : dispatch_mgr T P :=
  DispatchMgr
    (list_to_map ((fun c => (c, Link (Some c) (Some c))) <$>
       ([Head Tasks; Head DelayTasks] ++ (Member <$> ks.*1))))
    0 0 (list_to_map ((fun k => (k.1, Task k.2 false)) <$> ks)).

Lemma fresh_dispatch_repr ks : NoDup ks.*1 -> queues_repr (fresh_dispatch ks) (Queues [] [] ks.*1 0 0).
Proof.
  intros Hnd. split; [|done]. simpl.
  assert (Hc : NoDup ([Head Tasks; Head DelayTasks] ++ (Member <$> ks.*1))).
  { apply NoDup_app. split_and!; [by apply (bool_decide_unpack _)| |by apply NoDup_fmap_2; [apply _|]].
    intros c Hin. rewrite list_elem_of_fmap. intros (? & -> & _). set_solver. }
  split.
  - assert (lists_of [(Head Tasks, []); (Head DelayTasks, [])] ks.*1 =
      (fun c => (c, [])) <$> [Head Tasks; Head DelayTasks] ++ (Member <$> ks.*1)) as ->.
    { unfold lists_of, detached. rewrite fmap_app. f_equal. exact (list_fmap_compose Member (fun c => (c, [])) ks.*1). }
    apply rings_singletons; [done|]. intros c Hin. cbn [dcells fresh_dispatch]. apply elem_of_list_to_map_1.
    + rewrite <-list_fmap_compose. by apply NoDup_fmap_2; [intros ?? ?|].
    + apply list_elem_of_fmap. by exists c.
  - intros t Ht. unfold members in Ht. simpl in Ht. apply list_elem_of_fmap in Ht as ([k p] & -> & Hk).
    exists (Task p false). apply elem_of_list_to_map_1.
    + rewrite <-list_fmap_compose. exact Hnd.
    + apply list_elem_of_fmap. by exists (k, p).
Qed.

(** The queue operations, in any sequence, do to the two task lists and to
    the two 32-bit counters what their meaning says.  Delaying is idempotent
    while the task waits; registering again moves the task to the end but counts
    it again, and unregistering a task that does not wait decrements all the
    same, so that the counters are the list lengths only for callers that do
    neither. *)
Theorem dispatch_api_refines cs q q' d :
  dmeans cs q q' -> queues_repr d q ->
  exists d', run_all dexec cs d = Done d' /\ queues_repr d' q'.
Proof.
  apply dmeans_sound.
Qed.
End api.

(** ** A round *)
Section round.
Context {T P W : Type} `{Countable T} `{!Has (dispatch_mgr T P) W}.
Variable run : P -> W -> outcome (Z * W).
(** What the tasks may rely on in the rest of the world. *)
Variable I : W -> Prop.
Hypothesis I_dispatch : forall (d : dispatch_mgr T P) w, I w -> I (put d w).
Implicit Types (w : W) (t : T) (ts ds free : list T).
Implicit Types (Ls : list (cell dispatch_head T * list T)).

Abbreviation mgr w := (dmgr (T:=T) (P:=P) w).

(** The stack frames in use are the same. *)
Definition same_frames w w' : Prop :=
  forall n, dcells (mgr w) !! Local n = None -> dcells (mgr w') !! Local n = None.

(** The world with the queues [ts] and [ds], correctly counted. *)
Record queued w ts ds Ls free : Prop := {
  qd_repr : dispatch_repr (mgr w) ts ds Ls free;
  qd_count : counted (mgr w) ts ds;
  qd_inv : I w;
}.

(** What a registered task may do: delay tasks, create and delete other tasks,
    and unregister itself. *)
Hypothesis registered_ok : forall w l1 t l2 ds free,
  queued w (l1 ++ t :: l2) ds [] free ->
  exists ret w' keep news free', call_task run t w = Done (ret, w') /\
    (keep = [t] \/ keep = []) /\ queued w' (l1 ++ keep ++ l2) (ds ++ news) [] free' /\
    same_frames w w'.

(** What a delayed task may do: the same, and register tasks.  A task that will
    be deleted after the call does not queue itself again. *)
Hypothesis delayed_ok : forall w ts t ds sp rem free o,
  queued w ts ds [(Local sp, rem)] free -> t ∈ free -> task_objs (mgr w) !! t = Some o ->
  exists ret w' ts' news free', call_task run t w = Done (ret, w') /\
    queued w' ts' (ds ++ news) [(Local sp, rem)] free' /\ same_frames w w' /\
    (auto_del o = true -> t ∈ free').

Lemma same_frames_trans w1 w2 w3 : same_frames w1 w2 -> same_frames w2 w3 -> same_frames w1 w3.
Proof. intros H12 H23 n Hn. auto. Qed.

Lemma registered_loop w ts ds free fuel :
  queued w ts ds [] free -> (length ts <= fuel)%nat ->
  exists w' num, run_all (run_task run) ts (w, 0) = Done (w', num) /\
    list_for_each_safe dlists (Head Tasks) (task_body (run_task run)) fuel (w, 0) = Done (w', num) /\
    exists ts' news free', queued w' ts' (ds ++ news) [] free' /\ same_frames w w'.
Proof.
  intros Hq Hf.
  pose (Inv := fun (rem : list (cell dispatch_head T)) (s : W * Z) => exists done rem', rem = Member <$> rem' /\
    ts = done ++ rem' /\ run_all (run_task run) done (w, 0) = Done s /\
    exists kept news free', queued s.1 (kept ++ rem') (ds ++ news) [] free' /\ same_frames w s.1).
  destruct (list_for_each_safe_rule dlists (Head Tasks) (Member <$> ts)
    (lists_of [(Head DelayTasks, ds)] free) (task_body (run_task run)) Inv (Inv []) (w, 0) fuel)
    as (s' & E & done & rem' & Erem & Ets & Erun & kept & news & free' & Hq' & Hs).
  - apply (dr_rings _ _ _ _ _ (qd_repr _ _ _ _ _ Hq)).
  - intros rem s (done & rem' & -> & _ & _ & kept & news & free' & Hq' & _).
    pose proof (dr_rings _ _ _ _ _ (qd_repr _ _ _ _ _ Hq')) as HR.
    rewrite lists_of_cons, fmap_app in HR. by eapply rings_follows_next.
  - done.
  - intros x rem s (done & rem' & Erem & -> & Erun & kept & news & free' & Hq' & Hs).
    destruct rem' as [|t rem']; [done|]. rewrite fmap_cons in Erem. injection Erem as -> ->.
    destruct (registered_ok _ _ _ _ _ _ Hq') as (ret & w' & keep & news' & free'' & Ecall & Hkeep & Hq'' & Hs').
    unfold task_body, run_task. simpl. rewrite Ecall. simpl. eexists false, _. split; [done|].
    exists (done ++ [t]), rem'. split_and!; [done|by rewrite <-app_assoc| |].
    + rewrite run_all_app, Erun. simpl. unfold run_task. by rewrite Ecall.
    + exists (kept ++ keep), (news ++ news'), free''. rewrite <-!app_assoc in *. simpl.
      split; [done|by eapply same_frames_trans].
  - exists [], ts. split_and!; [done..|]. exists [], [], free. rewrite app_nil_r. split; [done|by intros ?].
  - by rewrite length_fmap.
  - symmetry in Erem. apply fmap_nil_inv in Erem as ->. rewrite app_nil_r in Ets. subst done.
    destruct s' as [w' num]. exists w', num. rewrite app_nil_r in Hq'. split_and!; [done|done|].
    simpl in *. eauto 10.
Qed.

(** The list on the stack brought to the front. *)
Lemma queued_local w ts ds sp rem free :
  queued w ts ds [(Local sp, rem)] free ->
  rings (dcells (mgr w)) (lists_of [(Local sp, rem); (Head Tasks, ts); (Head DelayTasks, ds)] free).
Proof.
  intros Hq. rewrite (lists_of_perm _ [(Head Tasks, ts); (Head DelayTasks, ds); (Local sp, rem)] _ free);
    [apply (dr_rings _ _ _ _ _ (qd_repr _ _ _ _ _ Hq))| |done].
  apply (Permutation_app_comm [_] [_; _]).
Qed.

(** One delayed task: it is detached, called, and deleted if it asks for that. *)
Lemma run_delayed_ok w ts t ds sp rem free num :
  queued w ts ds [(Local sp, t :: rem)] free ->
  exists w' num' ts' news free', run_delayed run t (w, num) = Done (w', num') /\
    queued w' ts' (ds ++ news) [(Local sp, rem)] free' /\ same_frames w w'.
Proof.
  intros Hq. pose proof (queued_local _ _ _ _ _ _ Hq) as HR. destruct Hq as [[_ Ho] [Hn Hdn] HI].
  destruct (cells_del_init _ _ [] _ _ _ _ HR) as (h' & Edel & HR' & Hs). simpl in HR'.
  unfold run_delayed, hoist, dmgr in *. simpl. rewrite Edel. simpl.
  set (w1 := put _ w).
  assert (Hq1 : queued w1 ts ds [(Local sp, rem)] (t :: free)).
  { split; unfold w1, dmgr; rewrite ?get_put; simpl; [|done|by apply I_dispatch]. split; simpl.
    - rewrite (lists_of_perm _ [(Local sp, rem); (Head Tasks, ts); (Head DelayTasks, ds)] _ (t :: free)) by
        (done || symmetry; apply (Permutation_app_comm [_] [_; _])). exact HR'.
    - intros x Hx. apply Ho. unfold members in *. simpl in *. set_solver. }
  destruct (dr_objs _ _ _ _ _ (qd_repr _ _ _ _ _ Hq1) t) as [o Eo].
  { unfold members. simpl. set_solver +. }
  unfold dmgr in Eo. rewrite Eo. simpl.
  destruct (delayed_ok w1 ts t ds sp rem (t :: free) o Hq1) as
    (ret & w2 & ts' & news & free' & Ecall & Hq2 & Hs2 & Hdel); [left|done|].
  rewrite Ecall. simpl.
  assert (Hs1 : same_frames w w1).
  { intros n. unfold w1, dmgr. rewrite get_put. simpl. by apply same_cells_None. }
  destruct (auto_del o) eqn:Eauto.
  - apply elem_of_Permutation in Hdel as [free'' Hp]; [|done].
    destruct Hq2 as [Hrep2 [Hn2 Hdn2] HI2].
    apply (dispatch_repr_perm _ _ _ _ [(Local sp, rem)] _ _ (reflexivity _) Hp) in Hrep2 as [HR2 Ho2].
    pose proof (members_nodup _ _ _ HR2) as Hnd.
    destruct (Ho2 t) as [o' Eo']; [unfold members; simpl; set_solver +|].
    unfold delete_task, dmgr in *. rewrite Eo'. simpl.
    eexists _, _, ts', news, free''. split; [done|]. split.
    + split; unfold dmgr; rewrite ?get_put; simpl; [|done|by apply I_dispatch]. split; simpl.
      * by apply cells_drop_member.
      * intros x Hx. rewrite lookup_delete_ne.
        -- apply Ho2. unfold members in *. simpl in *. set_solver +Hx.
        -- intros ->. unfold members in Hnd, Hx. rewrite <-Permutation_middle in Hnd.
           apply NoDup_cons in Hnd as [? _]. done.
    + intros n Hn0. unfold dmgr. rewrite get_put. simpl. rewrite lookup_delete_ne by done.
      by apply Hs2, Hs1.
  - simpl. eexists _, _, ts', news, free'. split; [done|]. split; [done|by eapply same_frames_trans].
Qed.

Lemma delayed_loop w sp ts batch ds free fuel num :
  queued w ts ds [(Local sp, batch)] free -> (length batch <= fuel)%nat ->
  exists w' num', run_all (run_delayed run) batch (w, num) = Done (w', num') /\
    list_for_each_safe dlists (Local sp) (task_body (run_delayed run)) fuel (w, num) = Done (w', num') /\
    exists ts' news free', queued w' ts' (ds ++ news) [(Local sp, [])] free' /\ same_frames w w'.
Proof.
  intros Hq Hf.
  pose (Inv := fun (rem : list (cell dispatch_head T)) (s : W * Z) => exists done rem', rem = Member <$> rem' /\
    batch = done ++ rem' /\ run_all (run_delayed run) done (w, num) = Done s /\
    exists ts' news free', queued s.1 ts' (ds ++ news) [(Local sp, rem')] free' /\ same_frames w s.1).
  destruct (list_for_each_safe_rule dlists (Local sp) (Member <$> batch)
    (lists_of [(Head Tasks, ts); (Head DelayTasks, ds)] free) (task_body (run_delayed run)) Inv (Inv [])
    (w, num) fuel)
    as (s' & E & done & rem' & Erem & Ets & Erun & ts' & news & free' & Hq' & Hs).
  - apply (queued_local _ _ _ _ _ _ Hq).
  - intros rem s (done & rem' & -> & _ & _ & ts' & news & free' & Hq' & _).
    pose proof (queued_local _ _ _ _ _ _ Hq') as HR. rewrite lists_of_cons in HR. by eapply (rings_follows_next _ _ []).
  - done.
  - intros x rem s (done & rem' & Erem & -> & Erun & ts' & news & free' & Hq' & Hs).
    destruct rem' as [|t rem']; [done|]. rewrite fmap_cons in Erem. injection Erem as -> ->.
    destruct s as [w1 num1].
    destruct (run_delayed_ok _ _ _ _ _ _ _ num1 Hq') as (w2 & num2 & ts2 & news2 & free2 & Ecall & Hq2 & Hs2).
    simpl in Ecall, Hs2. unfold task_body. simpl. rewrite Ecall. simpl. eexists false, _. split; [done|].
    exists (done ++ [t]), rem'. split_and!; [done|by rewrite <-app_assoc| |].
    + rewrite run_all_app, Erun. cbn [run_all mbind outcome_bind]. by rewrite Ecall.
    + exists ts2, (news ++ news2), free2. rewrite app_assoc. split; [done|by eapply same_frames_trans].
  - exists [], batch. split_and!; [done..|]. exists ts, [], free. rewrite app_nil_r. split; [done|by intros ?].
  - by rewrite length_fmap.
  - symmetry in Erem. apply fmap_nil_inv in Erem as ->. rewrite app_nil_r in Ets. subst done.
    destruct s' as [w' num']. exists w', num'. split_and!; [done|done|]. simpl in *. eauto 10.
Qed.

Lemma open_batch_ok w ts ds free sp :
  queued w ts ds [] free ->
  dcells (mgr w) !! Local sp = None -> dcells (mgr w) !! Local (S sp) = None ->
  exists w', open_batch sp w = Done w' /\ queued w' ts [] [(Local sp, ds)] free.
Proof.
  intros [[HR Ho] [Hn Hdn] HI] Hsp Hsp'. unfold open_batch, hoist, dmgr in *.
  destruct (cells_LIST_HEAD _ _ _ _ HR Hsp) as (h1 & E1 & HR1).
  assert (Hm : h1 !! Local (S sp) = None).
  { unfold LIST_HEAD in E1. rewrite Hsp in E1. injection E1 as <-. rewrite lookup_insert_ne; [done|].
    intros [=]. lia. }
  rewrite E1. simpl.
  rewrite (lists_of_perm _ [(Local sp, []); (Head DelayTasks, ds); (Head Tasks, ts)] _ free) in HR1;
    [|apply perm_skip, perm_swap|done].
  destruct (cells_swap _ _ _ _ _ _ _ _ HR1 Hm) as (h2 & -> & HR2 & Hs2). simpl.
  eexists. split; [done|]. split; unfold dmgr; rewrite ?get_put; simpl; [|done|by apply I_dispatch].
  split; simpl.
  - rewrite (lists_of_perm _ [(Local sp, ds); (Head DelayTasks, []); (Head Tasks, ts)] _ free); [done| |done].
    apply (Permutation_rev [_; _; _]).
  - intros t Ht. apply Ho. unfold members in *. simpl in *. set_solver +Ht.
Qed.

Lemma close_batch_ok w ts ds free sp :
  queued w ts ds [(Local sp, [])] free -> queued (close_batch sp w) ts ds [] free.
Proof.
  intros Hq. pose proof (queued_local _ _ _ _ _ _ Hq) as HR. destruct Hq as [[_ Ho] [Hn Hdn] HI].
  unfold close_batch, dmgr in *. split; unfold dmgr; rewrite ?get_put; simpl; [|done|by apply I_dispatch].
  split; simpl; [by apply cells_drop in HR|]. intros t Ht. apply Ho. unfold members in *. simpl in *. set_solver +Ht.
Qed.

End round.

(** ** A concrete manager: task 1 is registered, 2 and 3 are delayed; every call
    is logged. *)
Section example.
Abbreviation logged := (dispatch_mgr nat Z * list Z)%type.

Definition log_call (p : Z) (w : logged) : outcome (Z * logged) := Done (p, (w.1, w.2 ++ [p])).

Definition sample_tasks : list (nat * Z) := [(1%nat, 10); (2%nat, 20); (3%nat, -30)].

Lemma sample_dmeans :
  dmeans [DRegistry 1; DDelay 2; DDelay 3; DDelay 2]%nat
    (Queues [] [] sample_tasks.*1 0 0) (Queues [1] [2; 3] [] 1 2)%nat.
Proof.
  change (sample_tasks.*1) with [1; 2; 3]%nat.
  eapply ds_cons; [eapply (d_registry 1%nat [] []); reflexivity|].
  eapply ds_cons; [eapply (d_delay 2%nat [1%nat] []); reflexivity|].
  eapply ds_cons; [eapply (d_delay 3%nat [1%nat] [2%nat]); reflexivity|].
  eapply ds_cons; [eapply d_delay_queued; set_solver|apply ds_nil].
Qed.

Lemma dispatch_api_refines_witness :
  exists d, run_all dexec [DRegistry 1; DDelay 2; DDelay 3; DDelay 2]%nat (fresh_dispatch sample_tasks) = Done d
    /\ queues_repr d (Queues [1] [2; 3] [] 1 2)%nat.
Proof.
  apply (dispatch_api_refines _ _ _ _ sample_dmeans). apply fresh_dispatch_repr.
  apply (bool_decide_unpack _). by vm_compute.
Defined.

End example.
