(* ===== verification/Timewheel.v ===== *)
(** * core/timewheel.cpp: the timer wheel

    A timewheel_t hashes armed timeout handles into [slot_num] lists by the low
    bits of their expiry time; handles with no delay wait in [now_list] for the
    task [do_now_task] of the dispatcher.  The handles call back on the whole
    world, so the wheel is a component of a world that also has the dispatcher
    and a clock.  [tw_repr] says which handle is where; [check_fires] is the
    contract of [check]. *)
From stdpp Require Import functions.
From S2P Require Import Prelude CList CListStore CListIter Words Component Cells Dispatch.

Inductive tw_head := Slot (i : Z) | NowList.

#[export] Instance tw_head_eq_dec : EqDecision tw_head.
Proof. solve_decision. Defined.
#[export] Instance tw_head_countable : Countable tw_head.
Proof.
  apply (inj_countable' (fun h => match h with Slot i => Some i | NowList => None end)
    (fun o => match o with Some i => Slot i | None => NowList end)). by intros [].
Defined.

(** timeout_handle_t: [F] is [fn] with [arg], [has_tw] says that [tw] is not NULL. *)
Record timer (F : Type) := Timer { timeout : Z; fn : F; interval : Z; has_tw : bool }.
Arguments Timer {F} _ _ _ _.
Arguments timeout {F} _.
Arguments fn {F} _.
Arguments interval {F} _.
Arguments has_tw {F} _.

(** timewheel_t, with the handles in memory. *)
Record timewheel (K F : Type) `{Countable K} := Timewheel {
  tcells : heap (cell tw_head K);
  timers : gmap K (timer F);
  pos : Z;
  prev_ms : Z;
  now_ms : Z;
  tw_task_num : Z;
  slot_num : Z;
  slot_num_mask : Z;
}.
Arguments Timewheel {K F _ _} _ _ _ _ _ _ _ _.
Arguments tcells {K F _ _} _.
Arguments timers {K F _ _} _.
Arguments pos {K F _ _} _.
Arguments prev_ms {K F _ _} _.
Arguments now_ms {K F _ _} _.
Arguments tw_task_num {K F _ _} _.
Arguments slot_num {K F _ _} _.
Arguments slot_num_mask {K F _ _} _.

(** base/time_helper.h: time_after_eq(a, b) and time_diff(a, b). *)
Definition time_after_eq (a b : Z) : bool := 0 <=? i64 a - i64 b.
Definition time_diff (a b : Z) : Z := i64 a - i64 b.

(** __builtin_clz *)
Definition clz (n : Z) : Z := 31 - Z.log2 n.

Section wheel.
Context {K F : Type} `{Countable K}.
Implicit Types (tw : timewheel K F) (k : K).

Definition with_tcells h tw : timewheel K F :=
  Timewheel h (timers tw) (pos tw) (prev_ms tw) (now_ms tw) (tw_task_num tw) (slot_num tw) (slot_num_mask tw).
Definition with_timers m tw : timewheel K F :=
  Timewheel (tcells tw) m (pos tw) (prev_ms tw) (now_ms tw) (tw_task_num tw) (slot_num tw) (slot_num_mask tw).
Definition with_task_num n tw : timewheel K F :=
  Timewheel (tcells tw) (timers tw) (pos tw) (prev_ms tw) (now_ms tw) n (slot_num tw) (slot_num_mask tw).

(** An assignment to members of the handle [k]. *)
Definition set_timer k (f : timer F -> timer F) tw : outcome (timewheel K F) :=
  r ← of_option (timers tw !! k); Done (with_timers (<[k := f r]> (timers tw)) tw).

Definition tw_del_init k tw : outcome (timewheel K F) :=
  h ← list_del_init (Member k) (tcells tw); Done (with_tcells h tw).

Definition tw_add_tail k (hd : tw_head) tw : outcome (timewheel K F) :=
  h ← list_add_tail (Member k) (Head hd) (tcells tw); Done (with_tcells h tw).

Definition init_timeout_handle k (f : F) tw : outcome (timewheel K F) :=
  h ← INIT_LIST_HEAD (Member k) (tcells tw);
  set_timer k (fun _ => Timer 0 f 0 false) (with_tcells h tw).

Definition cancel_timeout k tw : outcome (timewheel K F) :=
  e ← list_empty (Member k) (tcells tw);
  tw ← (if (e : bool) then Done tw else
        tw ← tw_del_init k tw;
        r ← of_option (timers tw !! k);
        Done (if has_tw r && (0 <? timeout r) then with_task_num (i32 (tw_task_num tw - 1)) tw else tw));
  set_timer k (fun r => Timer (timeout r) (fn r) (interval r) false) tw.

(** The number of slots for the constructor's argument. *)
Definition slots_for (n : Z) : Z := i32 (Z.shiftl 1 (32 - clz n + 1)).

(** for (i = 0; i < slot_num; ++i) INIT_LIST_HEAD(&slots[i]); *)
Fixpoint init_slots (n : nat) (i : Z) (h : heap (cell tw_head K)) : outcome (heap (cell tw_head K)) :=
  match n with
  | O => Done h
  | S n => h ← INIT_LIST_HEAD (Head (Slot i)) h; init_slots n (i + 1) h
  end.

(** The slots come from memalign: the new cells are not initialised. *)
Fixpoint alloc_slots (n : nat) (i : Z) (h : heap (cell tw_head K)) : heap (cell tw_head K) :=
  match n with
  | O => h
  | S n => alloc_slots n (i + 1) (<[Head (Slot i) := Link None None]> h)
  end.

(** uint64_t get_latest_ms(timewheel_t *tw) *)
Fixpoint latest_from (n : nat) (i p now : Z) tw : outcome Z :=
  match n with
  | O => Done (now + 10)
  | S n =>
      let p := Z.land (p + i) (slot_num_mask tw) in
      e ← list_empty (Head (Slot p)) (tcells tw);
      if (e : bool) then latest_from n (i + 1) p now tw else Done (u64 (now + i))
  end.
Definition get_latest_ms tw : outcome Z := latest_from 10 0 (pos tw) (now_ms tw) tw.
End wheel.

(** ** The wheel in a world with a dispatcher and a clock *)
Section world.
Context {K F T P W : Type} `{Countable K} `{Countable T}.
Context `{!Has (timewheel K F) W} `{!Has (dispatch_mgr T P) W}.
(** get_sys_ms(), the task that runs [do_now_task], and the call of a handle. *)
Variable get_cur_ms : W -> Z * W.
Variable delay_task : T.
Variable call : F -> W -> outcome W.
Implicit Types (w : W) (k : K).

Definition wheel (w : W) : timewheel K F := get w.
Definition on_wheel (f : timewheel K F -> outcome (timewheel K F)) : W -> outcome W := hoist f.
Definition on_dispatch (f : dispatch_mgr T P -> outcome (dispatch_mgr T P)) : W -> outcome W := hoist f.

(** The constructor, on the memory [w] of the new wheel. *)
Definition timewheel_t (n : Z) w : outcome W :=
  _ ← c_assert (0 <? n);
  let slot_num := slots_for n in
  let tw := wheel w in
  let h := alloc_slots (Z.to_nat slot_num) 0 (tcells tw) in
  h ← init_slots (Z.to_nat slot_num) 0 h;
  let mask := slot_num - 1 in
  let '(cur_ms, w) := get_cur_ms w in
  h ← INIT_LIST_HEAD (Head NowList) h;
  let w := put (Timewheel h (timers tw) (Z.land cur_ms mask) cur_ms cur_ms 0 slot_num mask) w in
  on_dispatch (delay delay_task) w.

Definition set_timeout_impl k (timeout_ interval_ : Z) w : outcome W :=
  w ← on_wheel (fun tw => tw ← tw_del_init k tw;
                 set_timer k (fun r => Timer (timeout r) (fn r) interval_ true) tw) w;
  if (timeout_ <=? 0) && (interval_ =? 0) then
    w ← on_wheel (tw_add_tail k NowList) w;
    on_dispatch (delay delay_task) w
  else
    let '(cur_ms, w) := get_cur_ms w in
    let t := u64 (cur_ms + timeout_) in
    let t := if t <? prev_ms (wheel w) then prev_ms (wheel w) else t in
    on_wheel (fun tw =>
      tw ← set_timer k (fun r => Timer t (fn r) (interval r) (has_tw r)) tw;
      tw_add_tail k (Slot (Z.land t (slot_num_mask tw))) (with_task_num (i32 (tw_task_num tw + 1)) tw)) w.

Definition set_timeout k (ms : Z) w : outcome W := set_timeout_impl k ms 0 w.
Definition set_interval k (ms : Z) w : outcome W := set_timeout_impl k ms ms w.

Definition tw_handle (c : cell tw_head K) : outcome K :=
  match c with Member k => Done k | _ => Fault end.

(** it->fn(it->arg) *)
Definition call_handle k w : outcome W :=
  r ← of_option (timers (wheel w) !! k); call (fn r) w.

(** The body of the loop of do_now_task. *)
Definition run_now k w : outcome W :=
  w ← on_wheel (tw_del_init k) w;
  w ← call_handle k w;
  r ← of_option (timers (wheel w) !! k);
  if interval r =? 0 then Done w else set_timeout_impl k (interval r) (interval r) w.

(** do_now_task; [sp] is its stack frame, see [Dispatch.proc_tasks]. *)
Definition do_now_task (sp fuel : nat) w : outcome (Z * W) :=
  w ← on_wheel (fun tw =>
        h ← LIST_HEAD (Local sp) (tcells tw);
        h ← list_swap (Local (S sp)) (Local sp) (Head NowList) h;
        Done (with_tcells h tw)) w;
  w ← list_for_each_safe (fun w => tcells (wheel w)) (Local sp)
        (fun c w => k ← tw_handle c; w ← run_now k w; Done (false, w)) fuel w;
  Done (0, put (with_tcells (delete (Local sp) (tcells (wheel w))) (wheel w)) w).

(** The body of the inner loop of check for a handle that has expired. *)
Definition fire k w : outcome W :=
  w ← on_wheel (cancel_timeout k) w;
  r ← of_option (timers (wheel w) !! k);
  w ← (if interval r =? 0 then Done w else set_timeout_impl k (interval r) (interval r) w);
  call_handle k w.

Definition check_body (cur_ms : Z) (c : cell tw_head K) (s : W * Z) : outcome (bool * (W * Z)) :=
  k ← tw_handle c;
  r ← of_option (timers (wheel s.1) !! k);
  if time_after_eq cur_ms (timeout r) then
    w ← fire k s.1; Done (false, (w, s.2 + 1))
  else Done (false, s).

(** The do-while loop over the slots from [p] to [end_pos]. *)
Fixpoint check_slots (cur_ms end_pos mask : Z) (fuel lfuel : nat) (p : Z) (s : W * Z) : outcome (W * Z) :=
  match fuel with
  | O => NoFuel
  | S fuel =>
      s ← list_for_each_safe (fun s : W * Z => tcells (wheel s.1)) (Head (Slot p)) (check_body cur_ms) lfuel s;
      if p =? end_pos then Done s
      else check_slots cur_ms end_pos mask fuel lfuel (Z.land (p + 1) mask) s
  end.

Definition set_pos (p cur_ms : Z) (tw : timewheel K F) : timewheel K F :=
  Timewheel (tcells tw) (timers tw) p cur_ms (now_ms tw) (tw_task_num tw) (slot_num tw) (slot_num_mask tw).

Definition check (lfuel : nat) (cur_ms : Z) w : outcome (Z * W) :=
  let '(cur_ms, w) := if cur_ms =? 0 then get_cur_ms w else (cur_ms, w) in
  let tw := wheel w in
  if tw_task_num tw <=? 0 then
    Done (0, put (set_pos (Z.land cur_ms (slot_num_mask tw)) cur_ms tw) w)
  else
  let elasp_ms := time_diff cur_ms (prev_ms tw) in
  if elasp_ms <=? 0 then Done (0, w) else
  let mask := slot_num_mask tw in
  let end_pos :=
    if slot_num tw <=? elasp_ms then Z.land (pos tw + slot_num tw - 1) mask else Z.land cur_ms mask in
  s ← check_slots cur_ms end_pos mask (Z.to_nat (slot_num tw)) lfuel (pos tw) (w, 0);
  Done (s.2, put (set_pos (Z.land cur_ms mask) cur_ms (wheel s.1)) s.1).
End world.

(** ** Which handle is where *)
Section repr.
Context {K F : Type} `{Countable K}.
Implicit Types (tw : timewheel K F) (k x : K) (l now free : list K) (slots : Z -> list K).

(** The lists of the wheel by head. *)
Definition slot_list slots (i : Z) : cell tw_head K * list K := (Head (Slot i), slots i).
Definition wheel_lists (N : Z) slots now (Ls : list (cell tw_head K * list K)) : list (cell tw_head K * list K) :=
  (slot_list slots <$> seqZ 0 N) ++ (Head NowList, now) :: Ls.

(** [slots] and [now] are the armed handles, [Ls] the lists on stack frames,
    [free] the handles in no list.  An armed handle is in the slot of its expiry
    time, which is not before the last check. *)
Record tw_repr tw slots now (Ls : list (cell tw_head K * list K)) free : Prop := {
  tw_rings : rings (tcells tw) (lists_of (wheel_lists (slot_num tw) slots now Ls) free);
  tw_timers x : x ∈ members (wheel_lists (slot_num tw) slots now Ls) free -> is_Some (timers tw !! x);
  tw_size : (exists b, 0 <= b <= 30 /\ slot_num tw = 2 ^ b) /\ 0 <= prev_ms tw;
  tw_mask : slot_num_mask tw = slot_num tw - 1;
  tw_slots i x r : 0 <= i < slot_num tw -> x ∈ slots i -> timers tw !! x = Some r ->
    timeout r mod slot_num tw = i /\ prev_ms tw <= timeout r < 2 ^ 63 /\ 0 <= interval r < 2 ^ 31 /\ has_tw r = true;
}.

(** One slot at the front; the other slots are [others]. *)
Lemma wheel_lists_split (N i : Z) : 0 <= i < N ->
  exists others, (i ∉ others) /\ (forall j, j ∈ others <-> 0 <= j < N /\ j <> i) /\
  forall slots now Ls, wheel_lists N slots now Ls ≡ₚ
    (Head (Slot i), slots i) :: (slot_list slots <$> others) ++ (Head NowList, now) :: Ls.
Proof.
  intros Hi. assert (Hin : i ∈ seqZ 0 N) by (apply elem_of_seqZ; lia).
  apply elem_of_Permutation in Hin as [others Hp].
  pose proof (NoDup_seqZ 0 N) as Hnd. rewrite Hp in Hnd. apply NoDup_cons in Hnd as [Hni _].
  exists others. split; [done|]. split.
  - intros j. assert (Hj : j ∈ seqZ 0 N <-> j = i \/ j ∈ others) by (rewrite Hp; apply elem_of_cons).
    rewrite elem_of_seqZ in Hj. split; [intros Hjo; split; [apply Hj|intros ->]; auto|].
    intros [? ?]. destruct (proj1 Hj); [lia|done|done].
  - intros slots now Ls. unfold wheel_lists. by rewrite Hp.
Qed.

Lemma slot_list_insert slots (i : Z) l (others : list Z) :
  i ∉ others -> slot_list (<[i := l]> slots) <$> others = slot_list slots <$> others.
Proof.
  intros Hi. apply list_fmap_ext. intros ? j Hj%list_elem_of_lookup_2. unfold slot_list.
  rewrite fn_lookup_insert_ne; [done|]. by intros ->.
Qed.

Lemma mask_mod tw slots now Ls free z :
  tw_repr tw slots now Ls free -> Z.land z (slot_num_mask tw) = z mod slot_num tw.
Proof.
  intros HR. destruct (tw_size _ _ _ _ _ HR) as [(b & Hb & E) _].
  rewrite (tw_mask _ _ _ _ _ HR), E. rewrite <-Z.land_ones by lia. f_equal. rewrite Z.ones_equiv. lia.
Qed.

Lemma slot_num_pos tw slots now Ls free : tw_repr tw slots now Ls free -> 0 < slot_num tw.
Proof. intros HR. destruct (tw_size _ _ _ _ _ HR) as [(b & Hb & ->) _]. lia. Qed.

(** Membership in the lists of the wheel. *)
Lemma elem_of_members N slots now Ls free x :
  x ∈ members (wheel_lists N slots now Ls) free <->
  (exists i, 0 <= i < N /\ x ∈ slots i) \/ x ∈ now \/ x ∈ (Ls ≫= snd) \/ x ∈ free.
Proof.
  unfold members, wheel_lists. rewrite elem_of_app, list_elem_of_bind. setoid_rewrite elem_of_app.
  setoid_rewrite elem_of_cons. setoid_rewrite list_elem_of_fmap. setoid_rewrite elem_of_seqZ.
  rewrite list_elem_of_bind. split.
  - intros [([c l] & Hx & [(i & [= -> ->] & Hi)|[[= -> ->]|Hin]])|?]; simpl in *; eauto 10.
    right; right; left. by exists (c, l).
  - intros [(i & Hi & Hx)|[?|[([c l] & Hx & Hin)|?]]]; [left|left|left|by right].
    + exists (slot_list slots i). split; [done|]. left. exists i. split; [done|lia].
    + exists (Head NowList, now). auto.
    + exists (c, l). auto.
Qed.

(** Nobody is in two places. *)
Lemma tw_disjoint tw slots now Ls k free :
  tw_repr tw slots now Ls (k :: free) ->
  (forall i, 0 <= i < slot_num tw -> k ∉ slots i) /\ (k ∉ now) /\ k ∉ free.
Proof.
  intros HR. pose proof (members_nodup _ _ _ (tw_rings _ _ _ _ _ HR)) as Hnd.
  assert (Hk : k ∉ members (wheel_lists (slot_num tw) slots now Ls) free).
  { unfold members in *. rewrite <-Permutation_middle in Hnd. by apply NoDup_cons in Hnd as [? _]. }
  rewrite elem_of_members in Hk. naive_solver.
Qed.

Lemma slots_disjoint tw slots now Ls free i j x :
  tw_repr tw slots now Ls free -> 0 <= i < slot_num tw -> 0 <= j < slot_num tw ->
  x ∈ slots i -> x ∈ slots j -> i = j.
Proof.
  intros HR Hi Hj Hxi Hxj. destruct (tw_timers _ _ _ _ _ HR x) as [r Hr].
  { apply elem_of_members. eauto. }
  destruct (tw_slots _ _ _ _ _ HR _ _ _ Hi Hxi Hr) as [<- _].
  by destruct (tw_slots _ _ _ _ _ HR _ _ _ Hj Hxj Hr) as [<- _].
Qed.

(** A handle outside of the slots may change. *)
Lemma repr_set_timer tw slots now Ls free k r0 f :
  tw_repr tw slots now Ls free -> timers tw !! k = Some r0 ->
  (forall i, 0 <= i < slot_num tw -> k ∉ slots i) ->
  exists tw', set_timer k f tw = Done tw' /\ tw' = with_timers (<[k := f r0]> (timers tw)) tw /\
    tw_repr tw' slots now Ls free.
Proof.
  intros HR Hk Hni. unfold set_timer. rewrite Hk. simpl. eexists. split; [done|]. split; [done|].
  destruct HR as [HR Ht Hs Hm Hsl]. split; simpl; try done.
  - intros x Hx. rewrite lookup_insert_is_Some. destruct (decide (k = x)); auto.
  - intros i x r Hi Hx Hr. rewrite lookup_insert_ne in Hr; [by eapply Hsl|]. intros ->. by eapply Hni.
Qed.

Lemma repr_del_free tw slots now Ls k free :
  tw_repr tw slots now Ls (k :: free) ->
  exists h', tw_del_init k tw = Done (with_tcells h' tw) /\ tw_repr (with_tcells h' tw) slots now Ls (k :: free).
Proof.
  intros [HR Ht Hs Hm Hsl]. unfold tw_del_init.
  destruct (cells_del_init_detached _ _ _ _ HR) as (h' & -> & HR' & _). exists h'. by split.
Qed.

Lemma repr_del_slot tw slots now Ls free i l1 k l2 :
  tw_repr tw slots now Ls free -> 0 <= i < slot_num tw -> slots i = l1 ++ k :: l2 ->
  exists h', tw_del_init k tw = Done (with_tcells h' tw) /\
    tw_repr (with_tcells h' tw) (<[i := l1 ++ l2]> slots) now Ls (k :: free).
Proof.
  intros [HR Ht Hs Hm Hsl] Hi El. unfold tw_del_init.
  destruct (wheel_lists_split (slot_num tw) i Hi) as (others & Hni & Ho & Hp).
  rewrite (lists_of_perm _ _ _ _ (Hp slots now Ls) (reflexivity free)), El in HR.
  destruct (cells_del_init _ _ _ _ _ _ _ HR) as (h' & -> & HR' & _). exists h'. split; [done|].
  split; simpl; try done.
  - rewrite (lists_of_perm _ _ _ _ (Hp _ now Ls) (reflexivity (k :: free))).
    by rewrite fn_lookup_insert, slot_list_insert.
  - intros x Hx. apply Ht. rewrite elem_of_members in Hx |- *.
    destruct Hx as [(j & Hj & Hx)|[?|[?|Hx]]]; [|by auto..|].
    + left. exists j. split; [done|]. destruct (decide (j = i)) as [->|].
      * rewrite fn_lookup_insert in Hx. rewrite El. set_solver.
      * by rewrite fn_lookup_insert_ne in Hx.
    + apply elem_of_cons in Hx as [->|?]; [|auto]. left. exists i. split; [done|]. rewrite El. set_solver.
  - intros j x r Hj Hx Hr. apply (Hsl j x r); [done| |done]. destruct (decide (j = i)) as [->|].
    + rewrite fn_lookup_insert in Hx. rewrite El. set_solver.
    + by rewrite fn_lookup_insert_ne in Hx.
Qed.

Lemma wheel_lists_now N slots now Ls :
  wheel_lists N slots now Ls ≡ₚ (Head NowList, now) :: (slot_list slots <$> seqZ 0 N) ++ Ls.
Proof. unfold wheel_lists. symmetry. apply Permutation_middle. Qed.

Lemma repr_del_now tw slots l1 k l2 Ls free :
  tw_repr tw slots (l1 ++ k :: l2) Ls free ->
  exists h', tw_del_init k tw = Done (with_tcells h' tw) /\
    tw_repr (with_tcells h' tw) slots (l1 ++ l2) Ls (k :: free).
Proof.
  intros [HR Ht Hs Hm Hsl]. unfold tw_del_init.
  rewrite (lists_of_perm _ _ _ _ (wheel_lists_now _ slots _ Ls) (reflexivity free)) in HR.
  destruct (cells_del_init _ _ _ _ _ _ _ HR) as (h' & -> & HR' & _). exists h'. split; [done|].
  split; simpl; try done.
  - by rewrite (lists_of_perm _ _ _ _ (wheel_lists_now _ slots _ Ls) (reflexivity (k :: free))).
  - intros x Hx. apply Ht. rewrite elem_of_members in Hx |- *. set_solver +Hx.
Qed.

Lemma repr_add_now tw slots now Ls k free :
  tw_repr tw slots now Ls (k :: free) ->
  exists h', tw_add_tail k NowList tw = Done (with_tcells h' tw) /\
    tw_repr (with_tcells h' tw) slots (now ++ [k]) Ls free.
Proof.
  intros [HR Ht Hs Hm Hsl]. unfold tw_add_tail.
  rewrite (lists_of_perm _ _ _ _ (wheel_lists_now _ slots _ Ls) (reflexivity (k :: free))) in HR.
  destruct (cells_add_tail _ _ _ _ _ _ HR) as (h' & -> & HR' & _). exists h'. split; [done|].
  split; simpl; try done.
  - by rewrite (lists_of_perm _ _ _ _ (wheel_lists_now _ slots _ Ls) (reflexivity free)).
  - intros x Hx. apply Ht. rewrite elem_of_members in Hx |- *. set_solver +Hx.
Qed.

Lemma repr_add_slot tw slots now Ls k free r i :
  tw_repr tw slots now Ls (k :: free) -> timers tw !! k = Some r ->
  timeout r mod slot_num tw = i -> prev_ms tw <= timeout r < 2 ^ 63 -> 0 <= interval r < 2 ^ 31 -> has_tw r = true ->
  exists h', tw_add_tail k (Slot i) tw = Done (with_tcells h' tw) /\
    tw_repr (with_tcells h' tw) (<[i := slots i ++ [k]]> slots) now Ls free.
Proof.
  intros HR0 Hk Hmod Ht63 Hiv Htw. pose proof (slot_num_pos _ _ _ _ _ HR0) as HN.
  pose proof (tw_disjoint _ _ _ _ _ _ HR0) as (Hni & _ & _).
  destruct HR0 as [HR Ht Hs Hm Hsl]. unfold tw_add_tail.
  assert (Hi : 0 <= i < slot_num tw) by (subst i; by apply Z.mod_pos_bound).
  destruct (wheel_lists_split (slot_num tw) i Hi) as (others & Hno & Ho & Hp).
  rewrite (lists_of_perm _ _ _ _ (Hp slots now Ls) (reflexivity (k :: free))) in HR.
  destruct (cells_add_tail _ _ _ _ _ _ HR) as (h' & -> & HR' & _). exists h'. split; [done|].
  split; simpl; try done.
  - rewrite (lists_of_perm _ _ _ _ (Hp _ now Ls) (reflexivity free)).
    by rewrite fn_lookup_insert, slot_list_insert.
  - intros x Hx. apply Ht. rewrite elem_of_members in Hx |- *.
    destruct Hx as [(j & Hj & Hx)|[?|[?|Hx]]]; [|by auto..|set_solver +Hx].
    destruct (decide (j = i)) as [->|]; [|rewrite fn_lookup_insert_ne in Hx by done; eauto].
    rewrite fn_lookup_insert in Hx. apply elem_of_app in Hx as [Hx| ->%list_elem_of_singleton]; [eauto|].
    right. right. right. left.
  - intros j x r' Hj Hx Hr. destruct (decide (j = i)) as [->|].
    + rewrite fn_lookup_insert in Hx. apply elem_of_app in Hx as [Hx| ->%list_elem_of_singleton];
        [by apply (Hsl i x)|]. assert (r' = r) as -> by congruence. auto.
    + rewrite fn_lookup_insert_ne in Hx by done. by apply (Hsl j x).
Qed.

(** The scalars that [tw_repr] constrains. *)
Definition same_shape tw tw' : Prop :=
  slot_num tw' = slot_num tw /\ slot_num_mask tw' = slot_num_mask tw /\ prev_ms tw' = prev_ms tw /\
  pos tw' = pos tw.

Lemma repr_task_num tw slots now Ls free n :
  tw_repr tw slots now Ls free -> tw_repr (with_task_num n tw) slots now Ls free.
Proof. by intros [HR Ht Hs Hm Hsl]. Qed.

Lemma cancel_timeout_free tw slots now Ls k free r :
  tw_repr tw slots now Ls (k :: free) -> timers tw !! k = Some r ->
  exists tw', cancel_timeout k tw = Done tw' /\ tw_repr tw' slots now Ls (k :: free) /\
    timers tw' = <[k := Timer (timeout r) (fn r) (interval r) false]> (timers tw) /\
    tw_task_num tw' = tw_task_num tw /\ same_shape tw tw'.
Proof.
  intros HR Hk. unfold cancel_timeout. rewrite (cells_empty_detached _ _ _ _ (tw_rings _ _ _ _ _ HR)). simpl.
  destruct (repr_set_timer _ _ _ _ _ _ _ (fun r => Timer (timeout r) (fn r) (interval r) false) HR Hk)
    as (tw' & -> & -> & HR'); [apply (tw_disjoint _ _ _ _ _ _ HR)|]. eexists. by split_and!.
Qed.

Lemma cancel_timeout_slot tw slots now Ls free i l1 k l2 r :
  tw_repr tw slots now Ls free -> 0 <= i < slot_num tw -> slots i = l1 ++ k :: l2 -> timers tw !! k = Some r ->
  exists tw', cancel_timeout k tw = Done tw' /\ tw_repr tw' (<[i := l1 ++ l2]> slots) now Ls (k :: free) /\
    timers tw' = <[k := Timer (timeout r) (fn r) (interval r) false]> (timers tw) /\
    tw_task_num tw' = (if 0 <? timeout r then i32 (tw_task_num tw - 1) else tw_task_num tw) /\ same_shape tw tw'.
Proof.
  intros HR Hi El Hk. unfold cancel_timeout.
  assert (list_empty (Member k) (tcells tw) = Done false) as ->.
  { destruct (wheel_lists_split (slot_num tw) i Hi) as (others & _ & _ & Hp).
    pose proof (tw_rings _ _ _ _ _ HR) as Hr.
    rewrite (lists_of_perm _ _ _ _ (Hp slots now Ls) (reflexivity free)), El in Hr.
    by apply (cells_empty_member _ _ _ _ _ _ _ Hr). }
  cbn [mbind outcome_bind].
  destruct (repr_del_slot _ _ _ _ _ _ _ _ _ HR Hi El) as (h' & -> & HR'). cbn [mbind outcome_bind].
  assert (Hin : k ∈ slots i) by (rewrite El; set_solver).
  destruct (tw_slots _ _ _ _ _ HR _ _ _ Hi Hin Hk) as (_ & _ & _ & Htw).
  simpl. rewrite Hk. simpl. rewrite Htw. simpl.
  set (n := if 0 <? timeout r then i32 (tw_task_num tw - 1) else tw_task_num tw).
  assert ((if 0 <? timeout r then with_task_num (i32 (tw_task_num tw - 1)) (with_tcells h' tw) else with_tcells h' tw)
    = with_task_num n (with_tcells h' tw)) as -> by (unfold n; by destruct (0 <? timeout r)).
  apply (repr_task_num _ _ _ _ _ n) in HR'.
  destruct (repr_set_timer _ _ _ _ _ k r (fun r => Timer (timeout r) (fn r) (interval r) false) HR')
    as (tw' & -> & -> & HR''); [done|apply (tw_disjoint _ _ _ _ _ _ HR')|]. eexists. by split_and!.
Qed.

(** A handle in the now list that was never armed before has a zero timeout;
    otherwise its cancellation takes one off the counter of the slots. *)
Lemma cancel_timeout_now tw slots l1 k l2 Ls free r :
  tw_repr tw slots (l1 ++ k :: l2) Ls free -> timers tw !! k = Some r ->
  exists tw', cancel_timeout k tw = Done tw' /\ tw_repr tw' slots (l1 ++ l2) Ls (k :: free) /\
    timers tw' = <[k := Timer (timeout r) (fn r) (interval r) false]> (timers tw) /\
    tw_task_num tw' = (if has_tw r && (0 <? timeout r) then i32 (tw_task_num tw - 1) else tw_task_num tw) /\
    same_shape tw tw'.
Proof.
  intros HR Hk. unfold cancel_timeout.
  assert (list_empty (Member k) (tcells tw) = Done false) as ->.
  { pose proof (tw_rings _ _ _ _ _ HR) as Hr.
    rewrite (lists_of_perm _ _ _ _ (wheel_lists_now _ slots _ Ls) (reflexivity free)) in Hr.
    by apply (cells_empty_member _ _ _ _ _ _ _ Hr). }
  cbn [mbind outcome_bind].
  destruct (repr_del_now _ _ _ _ _ _ _ HR) as (h' & -> & HR'). cbn [mbind outcome_bind]. simpl.
  rewrite Hk. simpl.
  set (n := if has_tw r && (0 <? timeout r) then i32 (tw_task_num tw - 1) else tw_task_num tw).
  assert ((if has_tw r && (0 <? timeout r) then with_task_num (i32 (tw_task_num tw - 1)) (with_tcells h' tw)
    else with_tcells h' tw) = with_task_num n (with_tcells h' tw)) as ->
    by (unfold n; by destruct (has_tw r && (0 <? timeout r))).
  apply (repr_task_num _ _ _ _ _ n) in HR'.
  destruct (repr_set_timer _ _ _ _ _ k r (fun r => Timer (timeout r) (fn r) (interval r) false) HR')
    as (tw' & -> & -> & HR''); [done|apply (tw_disjoint _ _ _ _ _ _ HR')|]. eexists. by split_and!.
Qed.
End repr.

(** ** Arming a handle *)
Section arm.
Context {K F T P W : Type} `{Countable K} `{Countable T}.
Context `{!Has (timewheel K F) W} `{!Has (dispatch_mgr T P) W}.
Context `{!Separate (timewheel K F) (dispatch_mgr T P) W}.
Variable get_cur_ms : W -> Z * W.
Variable delay_task : T.
Implicit Types (w : W) (k : K) (tw : timewheel K F).

Abbreviation wh w := (wheel (K:=K) (F:=F) w).
Abbreviation arm := (set_timeout_impl (F:=F) (P:=P) get_cur_ms delay_task).

(** What [set_timeout_impl] does to a detached handle with a delay or an
    interval: it goes to the slot of its expiry time, which is not before the
    last check. *)
Lemma arm_slot w slots now Ls k free r ms iv :
  tw_repr (wh w) slots now Ls (k :: free) -> timers (wh w) !! k = Some r ->
  0 < ms \/ iv <> 0 -> 0 <= iv < 2 ^ 31 ->
  prev_ms (wh w) < 2 ^ 63 ->
  (forall tw, exists cur w', get_cur_ms (put tw w) = (cur, w') /\ wh w' = tw /\ 0 <= cur + ms < 2 ^ 63) ->
  exists cur tw1 w2 t, get_cur_ms (put tw1 w) = (cur, w2) /\ t = Z.max (cur + ms) (prev_ms (wh w)) /\
    exists w', arm k ms iv w = Done w' /\ w' = put (wh w') w2 /\
    tw_repr (wh w') (<[t mod slot_num (wh w) := slots (t mod slot_num (wh w)) ++ [k]]> slots) now Ls free /\
    timers (wh w') = <[k := Timer t (fn r) iv true]> (timers (wh w)) /\
    tw_task_num (wh w') = i32 (tw_task_num (wh w) + 1) /\ same_shape (wh w) (wh w').
Proof.
  intros HR Hk Hms Hiv Hprev Hclock. unfold set_timeout_impl, on_wheel, hoist, wheel in *.
  destruct (repr_del_free _ _ _ _ _ _ HR) as (h1 & -> & HR1). cbn [mbind outcome_bind].
  destruct (repr_set_timer _ _ _ _ _ _ _ (fun r => Timer (timeout r) (fn r) iv true) HR1 Hk)
    as (tw1 & -> & Etw1 & HR1'); [apply (tw_disjoint _ _ _ _ _ _ HR1)|]. cbn [mbind outcome_bind].
  assert ((ms <=? 0) && (iv =? 0) = false) as -> by lia.
  destruct (Hclock tw1) as (cur & w2 & Ecur & Ew2 & Hcur). rewrite Ecur, Ew2.
  assert (Eprev : prev_ms tw1 = prev_ms (get w)) by by rewrite Etw1.
  set (t := Z.max (cur + ms) (prev_ms (get w))).
  assert ((if u64 (cur + ms) <? prev_ms tw1 then prev_ms tw1 else u64 (cur + ms)) = t) as ->.
  { rewrite Eprev, wrap_u_id by (unfold in_u; lia). unfold t. destruct (Z.ltb_spec (cur + ms) (prev_ms (get w))); lia. }
  assert (Hk1 : timers tw1 !! k = Some (Timer (timeout r) (fn r) iv true)).
  { rewrite Etw1. simpl. by rewrite lookup_insert_eq. }
  destruct (repr_set_timer _ _ _ _ _ _ _ (fun r => Timer t (fn r) (interval r) (has_tw r)) HR1' Hk1)
    as (tw2 & -> & Etw2 & HR2); [apply (tw_disjoint _ _ _ _ _ _ HR1')|]. cbn [mbind outcome_bind].
  rewrite (mask_mod _ _ _ _ _ t HR2).
  apply (repr_task_num _ _ _ _ _ (i32 (tw_task_num tw2 + 1))) in HR2.
  destruct (repr_add_slot _ _ _ _ _ _ (Timer t (fn r) iv true) (t mod slot_num tw2) HR2) as (h3 & -> & HR3);
    [by rewrite Etw2; simpl; rewrite lookup_insert_eq|done| |done|done|].
  { simpl. rewrite Etw2. simpl. rewrite Eprev. unfold t. split; [lia|]. apply Z.max_lub_lt; lia. }
  simpl. exists cur, tw1, w2, t. split; [done|]. split; [done|]. eexists. split; [done|].
  rewrite get_put. split; [done|]. subst tw2 tw1. simpl in *. split_and!; [exact HR3| |done|done].
  by rewrite insert_insert_eq.
Qed.

(** A handle with no delay goes to the now list, and the wheel's task is delayed. *)
Lemma arm_now w slots now Ls k free r ms :
  tw_repr (wh w) slots now Ls (k :: free) -> timers (wh w) !! k = Some r -> ms <= 0 ->
  exists tw', tw_repr tw' slots (now ++ [k]) Ls free /\ same_shape (wh w) tw' /\
    tw_task_num tw' = tw_task_num (wh w) /\
    timers tw' = <[k := Timer (timeout r) (fn r) 0 true]> (timers (wh w)) /\
    arm k ms 0 w = on_dispatch (T:=T) (P:=P) (delay delay_task) (put tw' w).
Proof.
  intros HR Hk Hms. unfold set_timeout_impl, on_wheel, hoist, wheel in *.
  destruct (repr_del_free _ _ _ _ _ _ HR) as (h1 & -> & HR1). cbn [mbind outcome_bind].
  destruct (repr_set_timer _ _ _ _ _ _ _ (fun r => Timer (timeout r) (fn r) 0 true) HR1 Hk)
    as (tw1 & -> & Etw1 & HR1'); [apply (tw_disjoint _ _ _ _ _ _ HR1)|]. cbn [mbind outcome_bind].
  assert ((ms <=? 0) && (0 =? 0) = true) as -> by lia.
  rewrite get_put. destruct (repr_add_now _ _ _ _ _ _ HR1') as (h2 & -> & HR2). cbn [mbind outcome_bind].
  rewrite put_put. eexists. split; [exact HR2|]. subst tw1. by split_and!.
Qed.
End arm.

(** ** check *)
Section check.
Context {K F T P W : Type} `{Countable K} `{Countable T}.
Context `{!Has (timewheel K F) W} `{!Has (dispatch_mgr T P) W}.
Context `{!Separate (timewheel K F) (dispatch_mgr T P) W}.
Variable get_cur_ms : W -> Z * W.
Variable delay_task : T.
Variable call : F -> W -> outcome W.
(** The time of the check, and what the rest of the world guarantees. *)
Variable cur : Z.
Variable I : W -> Prop.
Implicit Types (w : W) (k x : K) (tw : timewheel K F) (l now free : list K) (slots : Z -> list K).

Abbreviation wh w := (wheel (K:=K) (F:=F) w).
Abbreviation fire_ := (fire (F:=F) (P:=P) get_cur_ms delay_task call).

Definition due tw x : bool :=
  match timers tw !! x with Some r => timeout r <=? cur | None => false end.
Definition not_due tw x : Prop := exists r, timers tw !! x = Some r /\ cur < timeout r.

(** Nothing is taken out of a slot, and only handles that have not expired are added. *)
Definition grows tw slots tw' slots' : Prop :=
  same_shape tw tw' /\
  forall i, 0 <= i < slot_num tw -> exists new, slots' i = slots i ++ new /\
    Forall (not_due tw') new /\ forall x, x ∈ slots i -> timers tw' !! x = timers tw !! x.

Hypothesis cur_pos : 0 <= cur.
Hypothesis I_wheel : forall tw w, I w -> I (put tw w).
(** The clock does not go back behind the time of the check. *)
Hypothesis clock_ok : forall w, I w ->
  exists t w', get_cur_ms w = (t, w') /\ cur <= t < 2 ^ 62 /\ I w' /\ wh w' = wh w.
(** A handle's function may arm, cancel and create other handles and do anything
    in the rest of the world, but it cancels no handle that is in a slot. *)
Hypothesis handle_ok : forall w slots now free k r,
  I w -> tw_repr (wh w) slots now [] free -> timers (wh w) !! k = Some r ->
  k ∈ free \/ ((exists i, 0 <= i < slot_num (wh w) /\ k ∈ slots i) /\ cur < timeout r) ->
  exists w' slots' now' free', call (fn r) w = Done w' /\ I w' /\
    tw_repr (wh w') slots' now' [] free' /\ grows (wh w) slots (wh w') slots'.

Lemma same_shape_trans tw1 tw2 tw3 : same_shape tw1 tw2 -> same_shape tw2 tw3 -> same_shape tw1 tw3.
Proof. unfold same_shape. intuition congruence. Qed.

Lemma grows_trans tw1 s1 tw2 s2 tw3 s3 :
  grows tw1 s1 tw2 s2 -> grows tw2 s2 tw3 s3 -> grows tw1 s1 tw3 s3.
Proof.
  intros [Hs12 H12] [Hs23 H23]. split; [by eapply same_shape_trans|]. intros i Hi.
  destruct (H12 i Hi) as (n1 & E1 & Hn1 & Ht1). pose proof Hs12 as (Es & _).
  destruct (H23 i) as (n2 & E2 & Hn2 & Ht2); [by rewrite Es|].
  exists (n1 ++ n2). split; [by rewrite E2, E1, app_assoc|]. split.
  - apply Forall_app. split; [|done]. rewrite Forall_forall in Hn1 |- *. intros x Hx.
    destruct (Hn1 x Hx) as (r & Hr & ?). exists r. split; [|done]. rewrite Ht2; [done|]. rewrite E1. set_solver.
  - intros x Hx. rewrite Ht2, Ht1; [done|done|]. rewrite E1. set_solver.
Qed.

(** Firing one expired handle takes it out of its slot, and re-arms it first if
    it has an interval. *)
Lemma fire_ok w slots now free p kept k rest r :
  I w -> tw_repr (wh w) slots now [] free -> 0 <= p < slot_num (wh w) ->
  slots p = kept ++ k :: rest -> timers (wh w) !! k = Some r ->
  exists w' slots' now' free', fire_ k w = Done w' /\ I w' /\ tw_repr (wh w') slots' now' [] free' /\
    grows (wh w) (<[p := kept ++ rest]> slots) (wh w') slots'.
Proof.
  intros HI HR Hp El Hk. assert (Hin : k ∈ slots p) by (rewrite El; set_solver).
  destruct (tw_slots _ _ _ _ _ HR _ _ _ Hp Hin Hk) as (_ & Hto & Hiv & _).
  unfold fire. unfold on_wheel at 1. unfold hoist.
  destruct (cancel_timeout_slot _ _ _ _ _ _ _ _ _ _ HR Hp El Hk) as (tw1 & E1 & HR1 & Et1 & _ & Hs1).
  unfold wheel in E1. rewrite E1. cbn [mbind outcome_bind].
  set (w1 := put tw1 w). assert (Hw1 : wh w1 = tw1) by apply get_put.
  assert (HI1 : I w1) by by apply I_wheel.
  assert (Hk1 : timers tw1 !! k = Some (Timer (timeout r) (fn r) (interval r) false))
    by (rewrite Et1; apply lookup_insert_eq).
  fold (wh w1). rewrite Hw1, Hk1. cbn [of_option mbind outcome_bind interval].
  assert (Hg1 : grows (wh w) (<[p := kept ++ rest]> slots) tw1 (<[p := kept ++ rest]> slots)).
  { split; [done|]. intros i Hi. exists []. rewrite app_nil_r. split; [done|]. split; [constructor|].
    intros x Hx. rewrite Et1, lookup_insert_ne; [done|]. intros <-.
    pose proof (proj1 (tw_disjoint _ _ _ _ _ _ HR1) i) as Hni. destruct Hs1 as (Es & _).
    rewrite Es in Hni. by apply Hni. }
  unfold call_handle. destruct (Z.eqb_spec (interval r) 0) as [Hiv0|Hiv0].
  - cbn [mbind outcome_bind]. fold (wh w1). rewrite Hw1, Hk1. cbn [of_option mbind outcome_bind fn].
    destruct (handle_ok w1 (<[p := kept ++ rest]> slots) now (k :: free) k
      (Timer (timeout r) (fn r) (interval r) false)) as (w' & slots' & now' & free' & Ecall & HI' & HR' & Hg');
      [done|by rewrite Hw1|by rewrite Hw1|left; left|].
    exists w', slots', now', free'. split; [exact Ecall|]. split_and!; [done..|]. eapply grows_trans; [exact Hg1|]. by rewrite Hw1 in Hg'.
  - destruct (arm_slot (P:=P) get_cur_ms delay_task w1 (<[p := kept ++ rest]> slots) now [] k free
      (Timer (timeout r) (fn r) (interval r) false) (interval r) (interval r))
      as (c & tw1' & w2 & t & Ec & Et & w3 & E3 & Ew3 & HR3 & Et3 & _ & Hs3).
    + by rewrite Hw1.
    + by rewrite Hw1.
    + by right.
    + done.
    + rewrite Hw1. destruct Hs1 as (_ & _ & -> & _). lia.
    + intros tw. destruct (clock_ok (put tw w1)) as (c & w' & E & Hc & _ & Hw'); [by apply I_wheel|].
      exists c, w'. split; [done|]. rewrite Hw'. split; [apply get_put|].
      pose proof (proj2 (tw_size _ _ _ _ _ HR)). lia.
    + rewrite E3. cbn [mbind outcome_bind].
      destruct (clock_ok (put tw1' w1)) as (c' & w2' & E' & Hc & HI2 & _); [by apply I_wheel|].
      rewrite Ec in E'. injection E' as <- <-.
      assert (HI3 : I w3) by (rewrite Ew3; by apply I_wheel).
      fold (wh w3). rewrite Et3, lookup_insert_eq. cbn [of_option mbind outcome_bind fn].
      set (r3 := Timer t (fn r) (interval r) true).
      rewrite Hw1 in HR3, Et3, Hs3. assert (Htcur : cur < t) by (rewrite Et; lia).
      assert (HN : slot_num (wh w3) = slot_num tw1) by apply Hs3.
      assert (Htm : 0 <= t mod slot_num tw1 < slot_num tw1).
      { apply Z.mod_pos_bound. rewrite <-HN. by eapply slot_num_pos. }
      destruct (handle_ok w3 _ now free k r3 HI3 HR3) as (w' & slots' & now' & free' & Ecall & HI' & HR' & Hg').
      { by rewrite Et3, lookup_insert_eq. }
      { right. split; [|done]. exists (t mod slot_num tw1). rewrite HN. split; [done|].
        rewrite fn_lookup_insert. set_solver. }
      exists w', slots', now', free'. split; [exact Ecall|]. split_and!; [done..|].
      eapply grows_trans; [exact Hg1|]. eapply grows_trans; [|exact Hg']. split; [done|].
      intros i Hi. pose proof (proj1 (tw_disjoint _ _ _ _ _ _ HR1) i Hi) as Hni.
      exists (if decide (i = t mod slot_num tw1) then [k] else []). split_and!.
      * case_decide as Hd; [subst i; by rewrite fn_lookup_insert|by rewrite fn_lookup_insert_ne, app_nil_r].
      * case_decide; [|constructor]. apply Forall_singleton. exists r3. split; [|done].
        by rewrite Et3, lookup_insert_eq.
      * intros x Hx. rewrite Et3, lookup_insert_ne; [done|]. by intros ->.
Qed.

(** Slots other than [p] only grow. *)
Definition others_grow p tw slots tw' slots' : Prop :=
  same_shape tw tw' /\
  forall i, 0 <= i < slot_num tw -> i <> p -> exists new, slots' i = slots i ++ new /\
    Forall (not_due tw') new /\ forall x, x ∈ slots i -> timers tw' !! x = timers tw !! x.

Lemma due_not_due tw x : is_Some (timers tw !! x) -> not_due tw x <-> due tw x = false.
Proof.
  intros [r Hr]. unfold not_due, due. rewrite Hr. split.
  - intros (r' & [= <-] & ?). lia.
  - intros ?. exists r. split; [done|lia].
Qed.

Lemma due_same tw tw' x : timers tw' !! x = timers tw !! x -> due tw' x = due tw x.
Proof. unfold due. by intros ->. Qed.

Lemma filter_due_same tw tw' l :
  (forall x, x ∈ l -> timers tw' !! x = timers tw !! x) ->
  filter (fun x => due tw' x = true) l = filter (fun x => due tw x = true) l.
Proof. intros Hl. apply list_filter_iff_in. intros x Hx. by rewrite (due_same tw tw') by auto. Qed.

Lemma filter_not_due tw l : Forall (not_due tw) l -> filter (fun x => due tw x = true) l = [].
Proof.
  intros Hl. induction Hl as [|x l Hx Hl IH]; [done|]. rewrite filter_cons_False; [done|].
  assert (Hs : is_Some (timers tw !! x)) by (destruct Hx as (r & ? & _); eauto).
  apply (due_not_due _ _ Hs) in Hx. congruence.
Qed.

Lemma Forall_not_due_same tw tw' l :
  (forall x, x ∈ l -> timers tw' !! x = timers tw !! x) -> Forall (not_due tw) l -> Forall (not_due tw') l.
Proof.
  intros Hl. rewrite !Forall_forall. intros Hf x Hx. destruct (Hf x Hx) as (r & ? & ?). exists r.
  by rewrite Hl.
Qed.

(** The clock of a well-formed wheel decides expiry as on integers. *)
Lemma time_after_eq_due tw slots now free i x r :
  cur < 2 ^ 63 -> tw_repr tw slots now [] free -> 0 <= i < slot_num tw -> x ∈ slots i ->
  timers tw !! x = Some r -> time_after_eq cur (timeout r) = due tw x.
Proof.
  intros Hcur HR Hi Hx Hr. destruct (tw_slots _ _ _ _ _ HR _ _ _ Hi Hx Hr) as (_ & Hto & _).
  pose proof (proj2 (tw_size _ _ _ _ _ HR)). unfold time_after_eq, due. rewrite Hr.
  rewrite !wrap_s_id by (unfold in_s; lia). destruct (Z.leb_spec (timeout r) cur), (Z.leb_spec 0 (cur - timeout r)); lia.
Qed.

Record slot_state w0 slots0 c0 p D (d : nat) (rem : list K) (s : W * Z) (slots : Z -> list K) now free kept dl : Prop := {
  ss_inv : I s.1;
  ss_repr : tw_repr (wh s.1) slots now [] free;
  ss_slot : slots p = kept ++ rem;
  ss_kept : Forall (not_due (wh s.1)) kept;
  ss_run : run_all fire_ dl w0 = Done s.1;
  ss_cnt : s.2 = c0 + Z.of_nat (length dl);
  ss_due : dl ++ filter (fun x => due (wh s.1) x = true) rem = D;
  ss_left : d = length (filter (fun x => due (wh s.1) x = true) rem);
  ss_others : others_grow p (wh w0) slots0 (wh s.1) slots;
}.

Lemma slot_rings w slots now free p :
  tw_repr (wh w) slots now [] free -> 0 <= p < slot_num (wh w) ->
  exists G, rings (tcells (wh w)) ((Head (Slot p), Member <$> slots p) :: G).
Proof.
  intros HR Hp. destruct (wheel_lists_split (K:=K) (slot_num (wh w)) p Hp) as (others & _ & _ & Hperm).
  pose proof (tw_rings _ _ _ _ _ HR) as Hr.
  rewrite (lists_of_perm _ _ _ _ (Hperm slots now []) (reflexivity free)), lists_of_cons in Hr. eauto.
Qed.

(** One round of the inner loop of check. *)
Lemma check_body_ok w0 slots0 c0 p D d x rem s slots now free kept dl :
  cur < 2 ^ 63 -> 0 <= p < slot_num (wh w0) ->
  slot_state w0 slots0 c0 p D d (x :: rem) s slots now free kept dl ->
  exists s', check_body (P:=P) get_cur_ms delay_task call cur (Member x) s = Done (false, s') /\
    exists d' new slots' now' free' kept' dl',
      slot_state w0 slots0 c0 p D d' (rem ++ new) s' slots' now' free' kept' dl' /\
      (d' < d \/ d' = d /\ new = [])%nat /\ (rem = [] -> Forall (not_due (wh s'.1)) new).
Proof.
  intros Hcur Hp [HI HR Hsl Hkept Hrun Hcnt Hdue Hleft [Hsh Hoth]].
  assert (Hp' : 0 <= p < slot_num (wh s.1)) by (destruct Hsh as (-> & _); done).
  assert (Hin : x ∈ slots p) by (rewrite Hsl; set_solver).
  destruct (tw_timers _ _ _ _ _ HR x) as [r Hr]; [apply elem_of_members; eauto|].
  unfold check_body. cbn [tw_handle mbind outcome_bind]. rewrite Hr. cbn [of_option mbind outcome_bind].
  rewrite (time_after_eq_due _ _ _ _ _ _ _ Hcur HR Hp' Hin Hr).
  destruct (due (wh s.1) x) eqn:Ed.
  - destruct (fire_ok s.1 slots now free p kept x rem r HI HR Hp' Hsl Hr)
      as (w' & slots' & now' & free' & Efire & HI' & HR' & [Hsh' Hg]).
    rewrite Efire. cbn [mbind outcome_bind]. eexists. split; [done|].
    destruct (Hg p Hp') as (new & Enew & Hnew & Hsame). rewrite fn_lookup_insert in Enew, Hsame.
    rewrite filter_cons_True in Hdue, Hleft by done.
    assert (Efil : filter (fun y => due (wh w') y = true) (rem ++ new) =
                   filter (fun y => due (wh s.1) y = true) rem).
    { rewrite filter_app, (filter_not_due _ _ Hnew), app_nil_r. apply filter_due_same.
      intros y Hy. apply Hsame. set_solver. }
    eexists _, new, slots', now', free', kept, (dl ++ [x]). split.
    + split; simpl; try done.
      * by rewrite Enew, app_assoc.
      * apply (Forall_not_due_same (wh s.1)); [|done]. intros y Hy. apply Hsame. set_solver.
      * rewrite run_all_app, Hrun. simpl. by rewrite Efire.
      * rewrite length_app. simpl. lia.
      * rewrite Efil, <-app_assoc. exact Hdue.
      * split; [by eapply same_shape_trans|]. intros i Hi Hne.
        destruct (Hoth i Hi Hne) as (n1 & E1 & Hn1 & Ht1).
        assert (Hi' : 0 <= i < slot_num (wh s.1)) by (destruct Hsh as (-> & _); done).
        destruct (Hg i Hi') as (n2 & E2 & Hn2 & Ht2). rewrite fn_lookup_insert_ne in E2, Ht2 by done.
        exists (n1 ++ n2). split; [by rewrite E2, E1, app_assoc|]. split.
        -- apply Forall_app. split; [|done]. apply (Forall_not_due_same (wh s.1)); [|done].
           intros y Hy. apply Ht2. rewrite E1. set_solver.
        -- intros y Hy. rewrite Ht2; [by apply Ht1|]. rewrite E1. set_solver.
    + rewrite Efil. split; [left; rewrite Hleft; simpl; lia|done].
  - eexists. split; [done|]. rewrite filter_cons_False in Hdue, Hleft by congruence.
    exists d, [], slots, now, free, (kept ++ [x]), dl. rewrite app_nil_r. split.
    + split; try done.
      * rewrite <-app_assoc. exact Hsl.
      * apply Forall_app. split; [done|]. apply Forall_singleton.
        apply due_not_due; [eauto|done].
    + split; [by right|constructor].
Qed.

Abbreviation slot_body := (check_body (F:=F) (P:=P) get_cur_ms delay_task call cur).
Abbreviation cells_of := (fun s : W * Z => tcells (wh s.1)).
Abbreviation expired w l := (filter (fun x => due (wh w) x = true) l).

(** The inner loop of check on slot [p]. *)
Lemma slot_loop w slots now free c p :
  cur < 2 ^ 63 -> I w -> tw_repr (wh w) slots now [] free -> 0 <= p < slot_num (wh w) ->
  exists n w' slots' now' free', run_all fire_ (expired w (slots p)) w = Done w' /\
    (forall fuel, (n <= fuel)%nat -> list_for_each_safe cells_of (Head (Slot p)) slot_body fuel (w, c) =
       Done (w', c + Z.of_nat (length (expired w (slots p))))) /\
    I w' /\ tw_repr (wh w') slots' now' [] free' /\ Forall (not_due (wh w')) (slots' p) /\
    others_grow p (wh w) slots (wh w') slots'.
Proof.
  intros Hcur HI HR Hp. set (D := expired w (slots p)).
  pose (Inv := fun (d : nat) (rem : list (cell tw_head K)) (s : W * Z) => exists rem' slots' now' free' kept dl,
    rem = Member <$> rem' /\ slot_state w slots c p D d rem' s slots' now' free' kept dl).
  pose (Post := fun s : W * Z => exists slots' now' free' kept dl, Forall (not_due (wh s.1)) (slots' p) /\
    slot_state w slots c p D 0 [] s slots' now' free' kept dl).
  assert (Hrange : forall d rem s slots' now' free' kept dl,
    slot_state w slots c p D d rem s slots' now' free' kept dl -> 0 <= p < slot_num (wh s.1)).
  { intros d rem s slots' now' free' kept dl Hs. destruct (ss_others _ _ _ _ _ _ _ _ _ _ _ _ _ Hs) as [(-> & _) _]. done. }
  assert (Hinit : slot_state w slots c p D (length D) (slots p) (w, c) slots now free [] []).
  { split; simpl; try done; [lia|]. split; [done|]. intros i _ _. exists []. by rewrite app_nil_r. }
  assert (Hfollow : forall d rem s, Inv d rem s -> follows get_next (cells_of s) rem (Head (Slot p))).
  { intros d rem s (rem' & slots' & now' & free' & kept & dl & -> & Hs).
    destruct (slot_rings _ _ _ _ _ (ss_repr _ _ _ _ _ _ _ _ _ _ _ _ _ Hs) (Hrange _ _ _ _ _ _ _ _ Hs)) as [G HG].
    rewrite (ss_slot _ _ _ _ _ _ _ _ _ _ _ _ _ Hs), fmap_app in HG. by eapply rings_follows_next. }
  assert (Hpost : forall s, Post s -> exists q, get_next (Some (Head (Slot p))) (cells_of s) = Done q).
  { intros s (slots' & now' & free' & kept & dl & _ & Hs).
    destruct (slot_rings _ _ _ _ _ (ss_repr _ _ _ _ _ _ _ _ _ _ _ _ _ Hs) (Hrange _ _ _ _ _ _ _ _ Hs)) as [G HG].
    eexists. by apply (rings_head_next _ _ _ _ HG). }
  assert (exists n s', list_for_each_safe cells_of (Head (Slot p)) slot_body n (w, c) = Done s' /\ Post s')
    as (n & [w' c'] & Eloop & slots' & now' & free' & kept & dl & Hall & Hs).
  { destruct (slot_rings _ _ _ _ _ HR Hp) as [G HG]. unfold list_for_each_safe. cbn [fst].
    setoid_rewrite (rings_head_next _ _ _ _ HG). cbn [mbind outcome_bind]. destruct (slots p) as [|x rem] eqn:El.
    - simpl. exists O, (w, c). setoid_rewrite (rings_head_next _ _ _ _ HG). simpl. rewrite bool_decide_eq_true_2 by done.
      split; [done|]. exists slots, now, free, [], []. rewrite El. split; [constructor|done].
    - rewrite fmap_cons. cbn [app head]. setoid_rewrite (rings_get_next _ _ [] _ _ _ HG). cbn [mbind outcome_bind].
      refine (grow_loop_rule cells_of get_next (Head (Slot p)) slot_body Inv Post Hfollow Hpost _
        (length D) (Member <$> (x :: rem)) (w, c) _ _ _ _); [| |done|by intros ? ? [= <- <-]].
      + intros d y rem0 s (rem' & slots' & now' & free' & kept & dl & Erem & Hs).
        destruct rem' as [|z rem']; [done|]. rewrite fmap_cons in Erem. injection Erem as -> ->.
        destruct (check_body_ok _ _ _ _ _ _ _ _ _ _ _ _ _ _ Hcur Hp Hs) as
          (s' & Eb & d' & new & slots'' & now'' & free'' & kept' & dl' & Hs' & Hdec & Hlast).
        exists s'. split; [done|]. split.
        * intros Enil. apply fmap_nil_inv in Enil as ->. specialize (Hlast eq_refl). simpl in Hs'.
          exists slots'', now'', free'', (kept' ++ new), dl'. pose proof Hs' as [].
          split; [rewrite ss_slot0; by apply Forall_app|]. split; try done.
          -- by rewrite app_nil_r.
          -- by apply Forall_app.
          -- by rewrite <-ss_due0, (filter_not_due _ _ Hlast).
        * intros _. exists d', (Member <$> new). split.
          -- exists (rem' ++ new), slots'', now'', free'', kept', dl'. by rewrite fmap_app.
          -- destruct Hdec as [?|[-> ->]]; auto.
      + exists (x :: rem), slots, now, free, [], []. split; [done|]. exact Hinit. }
  pose proof Hs as [HI' HR' _ _ Hrun Hcnt Hdue _ Hoth]. rewrite filter_nil, app_nil_r in Hdue. subst dl.
  exists n, w', slots', now', free'. simpl in *. split; [done|]. split; [|done].
  intros fuel Hf. rewrite <-Hcnt. by eapply list_for_each_safe_fuel.
Qed.

(** The [m] slots from [p] on, around the wheel. *)
Definition visited (N p : Z) (m : nat) : list Z := (fun j => (p + j) mod N) <$> seqZ 0 (Z.of_nat m).

Lemma visited_S N p m : 0 < N -> 0 <= p < N -> visited N p (S m) = p :: visited N ((p + 1) mod N) m.
Proof.
  intros HN Hp. unfold visited. rewrite Nat2Z.inj_succ, seqZ_cons, fmap_cons by lia. f_equal.
  - rewrite Z.add_0_r. by apply Z.mod_small.
  - rewrite Z.pred_succ. change (Z.succ 0) with (1 + 0). rewrite <-fmap_add_seqZ, <-list_fmap_compose.
    apply list_fmap_ext. intros _ j _. simpl. rewrite Zplus_mod_idemp_l. f_equal. lia.
Qed.

Lemma visited_inj N p j1 j2 : 0 < N -> 0 <= j1 < N -> 0 <= j2 < N -> (p + j1) mod N = (p + j2) mod N -> j1 = j2.
Proof.
  intros HN H1 H2 E. assert (Hd : (N | j1 - j2)).
  { apply Z.mod_divide; [lia|]. replace (j1 - j2) with ((p + j1) - (p + j2)) by lia.
    rewrite Zminus_mod, E, Z.sub_diag. apply Zmod_0_l. }
  destruct Hd as [q Hq]. assert (q = 0) by nia. lia.
Qed.

Lemma elem_of_visited N p m q : q ∈ visited N p m <-> exists j, 0 <= j < Z.of_nat m /\ q = (p + j) mod N.
Proof.
  unfold visited. rewrite list_elem_of_fmap. setoid_rewrite elem_of_seqZ.
  split; intros (j & ? & ?); exists j; split; lia || done.
Qed.

(** The handles that a check finds expired, in the order of its loops. *)
Definition expired_in_order w slots (N p : Z) (m : nat) : list K := visited N p m ≫= (fun q => expired w (slots q)).

(** After the slots of [vs] were visited. *)
Definition progress (vs : list Z) tw slots tw' slots' : Prop :=
  same_shape tw tw' /\
  forall i, 0 <= i < slot_num tw ->
    (i ∈ vs -> Forall (not_due tw') (slots' i)) /\
    ((i ∉ vs) -> exists new, slots' i = slots i ++ new /\
      Forall (not_due tw') new /\ forall x, x ∈ slots i -> timers tw' !! x = timers tw !! x).

Lemma check_slots_ok m : forall w slots now free c p,
  cur < 2 ^ 63 -> I w -> tw_repr (wh w) slots now [] free -> 0 <= p < slot_num (wh w) ->
  Z.of_nat (S m) <= slot_num (wh w) ->
  exists n w' slots' now' free', run_all fire_ (expired_in_order w slots (slot_num (wh w)) p (S m)) w = Done w' /\
    (forall fuel lfuel, (S m <= fuel)%nat -> (n <= lfuel)%nat ->
      check_slots (F:=F) (P:=P) get_cur_ms delay_task call cur ((p + Z.of_nat m) mod slot_num (wh w))
        (slot_num_mask (wh w)) fuel lfuel p (w, c) =
      Done (w', c + Z.of_nat (length (expired_in_order w slots (slot_num (wh w)) p (S m))))) /\
    I w' /\ tw_repr (wh w') slots' now' [] free' /\
    progress (visited (slot_num (wh w)) p (S m)) (wh w) slots (wh w') slots'.
Proof.
  induction m as [|m IH]; intros w slots now free c p Hcur HI HR Hp Hm;
    pose proof (slot_num_pos _ _ _ _ _ HR) as HN;
    destruct (slot_loop w slots now free c p Hcur HI HR Hp) as
      (n1 & w1 & slots1 & now1 & free1 & Erun1 & Eloop1 & HI1 & HR1 & Hnd1 & [Hsh1 Ho1]);
    unfold expired_in_order; rewrite visited_S by done; rewrite bind_cons.
  - exists n1, w1, slots1, now1, free1. split; [by rewrite app_nil_r|]. split_and!; [|done..|].
    + intros fuel lfuel Hf Hlf. destruct fuel as [|fuel]; [lia|]. cbn [check_slots].
      rewrite Eloop1 by done. cbn [mbind outcome_bind]. rewrite Z.add_0_r, Z.mod_small, Z.eqb_refl by done.
      simpl. by rewrite app_nil_r.
    + split; [done|]. intros i Hi. split; [by intros ->%list_elem_of_singleton|].
      intros Hni. apply Ho1; [done|set_solver].
  - set (N := slot_num (wh w)) in *. assert (HN1 : slot_num (wh w1) = N) by apply Hsh1.
    set (p1 := (p + 1) mod N). assert (Hp1 : 0 <= p1 < N) by (by apply Z.mod_pos_bound).
    assert (Hpm : forall j, 0 <= j -> j + 1 < N -> (p1 + j) mod N <> p).
    { intros j Hj HjN E. unfold p1 in E. rewrite Zplus_mod_idemp_l in E.
      assert (E0 : (p + (j + 1)) mod N = (p + 0) mod N).
      { rewrite Z.add_0_r, (Z.mod_small p) by done. rewrite <-E. f_equal. lia. }
      apply visited_inj in E0; lia. }
    destruct (IH w1 slots1 now1 free1 (c + Z.of_nat (length (expired w (slots p)))) p1) as
      (n2 & w2 & slots2 & now2 & free2 & Erun2 & Eloop2 & HI2 & HR2 & [Hsh2 Hpr2]);
      [done..|by rewrite HN1|rewrite HN1; lia|]. rewrite HN1 in *.
    assert (Eexp : expired_in_order w1 slots1 N p1 (S m) = visited N p1 (S m) ≫= (fun q => expired w (slots q))).
    { unfold expired_in_order. apply list_bind_ext_in. intros q Hq%elem_of_visited.
      destruct Hq as (j & Hj & ->). assert (Hjr : 0 <= (p1 + j) mod N < N) by (by apply Z.mod_pos_bound).
      destruct (Ho1 ((p1 + j) mod N) Hjr) as (new & -> & Hnew & Hsame); [apply Hpm; lia|].
      rewrite filter_app, (filter_not_due _ _ Hnew), app_nil_r. by apply filter_due_same. }
    rewrite Eexp in Erun2, Eloop2.
    exists (max n1 n2)%nat, w2, slots2, now2, free2. split_and!; [| |done..|].
    + rewrite run_all_app, Erun1. exact Erun2.
    + intros fuel lfuel Hf Hlf. destruct fuel as [|fuel]; [lia|]. cbn [check_slots].
      rewrite Eloop1 by lia. cbn [mbind outcome_bind].
      destruct (Z.eqb_spec p ((p + Z.of_nat (S m)) mod N)) as [E|_].
      { exfalso. apply (Hpm (Z.of_nat m)); [lia|lia|]. unfold p1. rewrite Zplus_mod_idemp_l.
        etrans; [|symmetry; exact E]. f_equal. lia. }
      rewrite (mask_mod _ _ _ _ _ (p + 1) HR). fold N p1.
      replace ((p + Z.of_nat (S m)) mod N) with ((p1 + Z.of_nat m) mod N)
        by (unfold p1; rewrite Zplus_mod_idemp_l; f_equal; lia).
      assert (slot_num_mask (wh w) = slot_num_mask (wh w1)) as -> by (symmetry; apply Hsh1).
      rewrite Eloop2 by lia. f_equal. f_equal. rewrite length_app. lia.
    + split; [by eapply same_shape_trans|]. intros i Hi. fold N in Hi. destruct (Hpr2 i Hi) as [Hv Hnv].
      split.
      * intros [->|Hin]%elem_of_cons; [|by apply Hv].
        destruct (decide (p ∈ visited N p1 (S m))) as [|Hnin]; [by apply Hv|].
        destruct (Hnv Hnin) as (new & -> & Hnew & Hsame). apply Forall_app. split; [|done].
        by apply (Forall_not_due_same (wh w1)).
      * intros [Hip Hnin]%not_elem_of_cons. destruct (Hnv Hnin) as (n2' & E2 & Hn2 & Hs2).
        destruct (Ho1 i Hi Hip) as (n1' & E1 & Hn1 & Hs1). exists (n1' ++ n2').
        split; [by rewrite E2, E1, app_assoc|]. split.
        -- apply Forall_app. split; [|done]. apply (Forall_not_due_same (wh w1)); [|done].
           intros x Hx. apply Hs2. rewrite E1. set_solver.
        -- intros x Hx. rewrite Hs2, Hs1; [done|done|]. rewrite E1. set_solver.
Qed.

(** The number of slots that a check visits. *)
Definition slots_visited (N elapsed : Z) : nat := Z.to_nat (Z.min (elapsed + 1) N).

(** Every handle that has expired is in a slot that the check visits. *)
Lemma expired_visited w slots now free i x :
  tw_repr (wh w) slots now [] free -> prev_ms (wh w) < cur ->
  0 <= i < slot_num (wh w) -> x ∈ slots i -> due (wh w) x = true ->
  i ∈ visited (slot_num (wh w)) (prev_ms (wh w) mod slot_num (wh w))
        (slots_visited (slot_num (wh w)) (cur - prev_ms (wh w))).
Proof.
  intros HR Hcur Hi Hx Hd. pose proof (slot_num_pos _ _ _ _ _ HR) as HN.
  destruct (tw_timers _ _ _ _ _ HR x) as [r Hr]; [apply elem_of_members; eauto|].
  destruct (tw_slots _ _ _ _ _ HR _ _ _ Hi Hx Hr) as (Hmod & Hto & _).
  unfold due in Hd. rewrite Hr in Hd. apply Z.leb_le in Hd.
  set (N := slot_num (wh w)) in *. set (prev := prev_ms (wh w)) in *.
  apply elem_of_visited. exists ((timeout r - prev) mod N).
  pose proof (Z.mod_pos_bound (timeout r - prev) N HN).
  assert ((timeout r - prev) mod N <= timeout r - prev) by (apply Z.mod_le; lia).
  unfold slots_visited. rewrite Z2Nat.id by lia. split; [lia|].
  rewrite <-Hmod, Zplus_mod_idemp_l, Zplus_mod_idemp_r. f_equal. lia.
Qed.

End check.

(** ** The constructor *)

(** The number of slots is a power of two between twice and four times the
    argument. *)
Lemma slots_for_bounds n :
  1 <= n < 2 ^ 28 -> exists b, 0 <= b <= 30 /\ slots_for n = 2 ^ b /\ 2 * n < slots_for n <= 4 * n.
Proof.
  intros Hn. pose proof (Z.log2_spec n ltac:(lia)) as [Hlo Hhi]. pose proof (Z.log2_nonneg n).
  assert (Z.log2 n < 28) by (apply Z.log2_lt_pow2; lia).
  assert (E : slots_for n = 2 ^ (Z.log2 n + 2)).
  { unfold slots_for, clz. replace (32 - (31 - Z.log2 n) + 1) with (Z.log2 n + 2) by lia.
    rewrite Z.shiftl_mul_pow2, Z.mul_1_l by lia. apply wrap_s_id; [lia|]. unfold in_s.
    assert (0 < 2 ^ (Z.log2 n + 2)) by lia.
    assert (2 ^ (Z.log2 n + 2) < 2 ^ 31) by (apply Z.pow_lt_mono_r; lia). lia. }
  exists (Z.log2 n + 2). rewrite E. split; [lia|]. split; [done|].
  rewrite Z.pow_add_r by lia. rewrite Z.pow_succ_r in Hhi by lia. lia.
Qed.

Section create.
Context {K F T P W : Type} `{Countable K} `{Countable T}.
Context `{!Has (timewheel K F) W} `{!Has (dispatch_mgr T P) W}.
Context `{!Separate (timewheel K F) (dispatch_mgr T P) W}.
Variable get_cur_ms : W -> Z * W.
Variable delay_task : T.
Implicit Types (w : W) (h : heap (cell tw_head K)) (Ls : list (cell tw_head K * list K)).

Abbreviation wh w := (wheel (K:=K) (F:=F) w).
Abbreviation no_slots := (fun _ : Z => @nil K).

Lemma alloc_slots_ok n i h Ls free :
  rings h (lists_of Ls free) -> (forall j, h !! Head (Slot j) = None) ->
  rings (alloc_slots n i h) (lists_of Ls free) /\
  (forall j, i <= j < i + Z.of_nat n -> alloc (alloc_slots n i h) (Head (Slot j))) /\
  (forall c, alloc h c -> alloc (alloc_slots n i h) c).
Proof.
  assert (Hgen : forall n i h, rings h (lists_of Ls free) ->
    (forall j, i <= j -> h !! Head (Slot j) = None) ->
    rings (alloc_slots n i h) (lists_of Ls free) /\
    (forall j, i <= j < i + Z.of_nat n -> alloc (alloc_slots n i h) (Head (Slot j))) /\
    (forall c, alloc h c -> alloc (alloc_slots n i h) c)).
  { clear n i h. induction n as [|n IH]; intros i h HR Hn; cbn [alloc_slots]; [split_and!; [done|lia|done]|].
    destruct (IH (i + 1) (<[Head (Slot i) := Link None None]> h)) as (HR' & Hal & Hk).
    - apply rings_insert_fresh; [apply Hn; lia|done].
    - intros j Hj. rewrite lookup_insert_ne by (intros [=]; lia). apply Hn. lia.
    - split; [done|]. assert (Hmono : forall c, alloc h c -> alloc (<[Head (Slot i) := Link None None]> h) c).
      { intros c. rewrite !alloc_Some, lookup_insert_is_Some. destruct (decide (Head (Slot i) = c)); auto. }
      split; [|auto]. intros j Hj. destruct (decide (j = i)) as [->|]; [|apply Hal; lia].
      apply Hk, alloc_Some. by rewrite lookup_insert_eq. }
  intros HR Hn. by apply Hgen.
Qed.

Lemma init_slots_ok n i h Ls free :
  rings h (lists_of Ls free) ->
  (forall j, i <= j < i + Z.of_nat n -> alloc h (Head (Slot j)) /\ Head (Slot j) ∉ Ls.*1) ->
  exists h', init_slots n i h = Done h' /\
    rings h' (lists_of ((slot_list no_slots <$> seqZ i (Z.of_nat n)) ++ Ls) free) /\ same_cells h h'.
Proof.
  revert i h Ls. induction n as [|n IH]; intros i h Ls HR Hal; cbn [init_slots]; [by exists h|].
  destruct (Hal i) as [Hi Hni]; [lia|].
  destruct (rings_init _ _ (Head (Slot i)) HR Hi) as (h1 & -> & HR1 & Hs1).
  { rewrite blocks_lists_of, elem_of_app. intros [?|(? & ? & _)%list_elem_of_fmap]; done. }
  cbn [mbind outcome_bind].
  destruct (IH (i + 1) h1 ((Head (Slot i), []) :: Ls)) as (h2 & -> & HR2 & Hs2).
  - by rewrite lists_of_cons.
  - intros j Hj. destruct (Hal j) as [Hj1 Hj2]; [lia|]. split; [by apply Hs1|].
    rewrite fmap_cons. simpl. apply not_elem_of_cons. split; [intros [=]; lia|done].
  - exists h2. split; [done|]. split; [|by etrans].
    rewrite Nat2Z.inj_succ, seqZ_cons by lia. rewrite Z.pred_succ, Z.add_1_r in *.
    rewrite fmap_cons. rewrite (lists_of_perm _ ((slot_list no_slots <$> seqZ (Z.succ i) (Z.of_nat n)) ++
      (Head (Slot i), []) :: Ls) _ free); [done| |done]. by rewrite <-Permutation_middle.
Qed.

(** The constructor, in full. *)
Lemma timewheel_t_ok w n free tasks delayed dfree :
  1 <= n < 2 ^ 28 ->
  rings (tcells (wh w)) (lists_of [] free) -> (forall x, x ∈ free -> is_Some (timers (wh w) !! x)) ->
  alloc (tcells (wh w)) (Head NowList) -> (forall j, tcells (wh w) !! Head (Slot j) = None) ->
  dispatch_repr (get (C:=dispatch_mgr T P) w) tasks delayed [] (delay_task :: dfree) ->
  (exists cur w1, get_cur_ms w = (cur, w1) /\ 0 <= cur /\ get (C:=dispatch_mgr T P) w1 = get w) ->
  exists w', timewheel_t (F:=F) (P:=P) get_cur_ms delay_task n w = Done w' /\
    tw_repr (wh w') no_slots [] [] free /\ 2 * n < slot_num (wh w') <= 4 * n /\
    tw_task_num (wh w') = 0 /\ pos (wh w') = prev_ms (wh w') mod slot_num (wh w') /\
    prev_ms (wh w') = (get_cur_ms w).1 /\ timers (wh w') = timers (wh w) /\
    dispatch_repr (get (C:=dispatch_mgr T P) w') tasks (delayed ++ [delay_task]) [] dfree.
Proof.
  intros Hn HR Ht Hnow Hns HD (cur & w1 & Ecur & Hcur & Ed). unfold timewheel_t.
  rewrite (proj2 (Z.ltb_lt 0 n)) by lia. cbn [c_assert mbind outcome_bind].
  destruct (slots_for_bounds n Hn) as (b & Hb & Eb & Hsz). set (N := slots_for n) in *.
  destruct (alloc_slots_ok (Z.to_nat N) 0 _ _ _ HR Hns) as (HR1 & Hal1 & Hk1).
  destruct (init_slots_ok (Z.to_nat N) 0 _ _ _ HR1) as (h2 & -> & HR2 & Hs2).
  { intros j Hj. split; [by apply Hal1|]. apply not_elem_of_nil. }
  cbn [mbind outcome_bind]. rewrite Ecur. cbv beta iota.
  destruct (rings_init _ _ (Head NowList) HR2) as (h3 & -> & HR3 & _).
  { by apply Hs2, Hk1. }
  { rewrite blocks_lists_of, elem_of_app. intros [([c l] & Ec & Hin)%list_elem_of_fmap|(? & ? & _)%list_elem_of_fmap];
      [|done].
    rewrite app_nil_r in Hin. simpl in Ec. subst c.
    apply list_elem_of_fmap in Hin as (j & [=] & _). }
  cbn [mbind outcome_bind]. unfold on_dispatch, hoist. rewrite get_put_l, Ed.
  destruct (repr_delay _ _ _ _ _ _ HD) as (d' & -> & HD' & _). cbn [mbind outcome_bind].
  eexists. split; [done|]. unfold wheel. rewrite get_put_r, !get_put. cbn [slot_num prev_ms tw_task_num pos timers].
  assert (Hmask : Z.land cur (N - 1) = cur mod N).
  { rewrite Eb, <-Z.land_ones by lia. f_equal. rewrite Z.ones_equiv. lia. }
  split_and!; [|lia|lia|done|done|done|done|done].
  split; cbn [slot_num prev_ms slot_num_mask tcells timers].
  - rewrite app_nil_r, Z2Nat.id in HR3 by lia. unfold wheel_lists.
    rewrite (lists_of_perm _ ((Head NowList, []) :: (slot_list no_slots <$> seqZ 0 N)) _ free); [done| |done].
    by rewrite Permutation_app_comm.
  - intros x Hx. apply Ht. rewrite elem_of_members in Hx. set_solver +Hx.
  - split; [eauto|done].
  - done.
  - intros i x r _ Hx. by apply not_elem_of_nil in Hx.
Qed.

(** The constructor makes an empty wheel whose size is a power of two in
    (2n, 4n], positioned at the current time, and queues the wheel's task on the
    dispatcher. *)
Theorem timewheel_create w n free tasks delayed dfree :
  1 <= n < 2 ^ 28 ->
  rings (tcells (wh w)) (lists_of [] free) -> (forall x, x ∈ free -> is_Some (timers (wh w) !! x)) ->
  alloc (tcells (wh w)) (Head NowList) -> (forall j, tcells (wh w) !! Head (Slot j) = None) ->
  dispatch_repr (get (C:=dispatch_mgr T P) w) tasks delayed [] (delay_task :: dfree) ->
  (exists cur w1, get_cur_ms w = (cur, w1) /\ 0 <= cur /\ get (C:=dispatch_mgr T P) w1 = get w) ->
  exists w', timewheel_t (F:=F) (P:=P) get_cur_ms delay_task n w = Done w' /\
    tw_repr (wh w') no_slots [] [] free /\ 2 * n < slot_num (wh w') <= 4 * n /\
    tw_task_num (wh w') = 0 /\ pos (wh w') = prev_ms (wh w') mod slot_num (wh w') /\
    prev_ms (wh w') = (get_cur_ms w).1 /\ timers (wh w') = timers (wh w) /\
    dispatch_repr (get (C:=dispatch_mgr T P) w') tasks (delayed ++ [delay_task]) [] dfree.
Proof. apply timewheel_t_ok. Qed.
End create.

(** ** A concrete wheel: four slots, made and armed at time 3, checked at time 8 *)
Section example.
Abbreviation sample_world := (timewheel nat unit * dispatch_mgr nat unit)%type.

Definition clock_at (t : Z) (w : sample_world) : Z * sample_world := (t, w).
Definition no_call (_ : unit) (w : sample_world) : outcome sample_world := Done w.

(** Memory with the handles 1, 2 and 3, before the constructor runs. *)
Definition raw_world : sample_world :=
  (Timewheel (<[Head NowList := Link None None]> (list_to_map
      ((fun k => (Member k, Link (Some (Member k)) (Some (Member k)))) <$> [1; 2; 3]%nat)))
    (list_to_map ((fun k => (k, Timer 0 () 0 false)) <$> [1; 2; 3]%nat)) 0 0 0 0 0 0,
   fresh_dispatch [(0%nat, ())]).

Definition done_or {A} (d : A) (o : outcome A) : A := match o with Done a => a | _ => d end.

Definition new_world : sample_world :=
  done_or raw_world (timewheel_t (K:=nat) (F:=unit) (P:=unit) (clock_at 3) 0%nat 1 raw_world).

Lemma raw_world_handles : rings (tcells (wheel raw_world)) (lists_of [] [1; 2; 3]%nat).
Proof.
  apply (rings_insert_fresh (list_to_map _)); [by vm_compute|].
  apply rings_detached; [apply (bool_decide_unpack _); by vm_compute|].
  intros d Hd. repeat (apply elem_of_cons in Hd as [->|Hd]; [by vm_compute|]). by apply not_elem_of_nil in Hd.
Qed.

Lemma raw_world_timers x : x ∈ [1; 2; 3]%nat -> is_Some (timers (wheel raw_world) !! x).
Proof.
  intros Hd. repeat (apply elem_of_cons in Hd as [->|Hd]; [by eexists; vm_compute|]). by apply not_elem_of_nil in Hd.
Qed.

Lemma raw_world_dispatch :
  dispatch_repr (get (C:=dispatch_mgr nat unit) raw_world) [] [] [] [0%nat].
Proof. apply (fresh_dispatch_repr [(0%nat, ())]). apply (bool_decide_unpack _); by vm_compute. Qed.

Lemma timewheel_create_witness :
  exists w', timewheel_t (K:=nat) (F:=unit) (P:=unit) (clock_at 3) 0%nat 1 raw_world = Done w' /\
    tw_repr (wheel w') (fun _ => []) [] [] [1; 2; 3]%nat.
Proof.
  edestruct (timewheel_create (K:=nat) (F:=unit) (P:=unit) (clock_at 3) 0%nat raw_world 1 [1; 2; 3]%nat [] [] [])
    as (w' & E & HR & _); [lia|apply raw_world_handles|apply raw_world_timers|apply alloc_Some; by eexists; vm_compute
      | |apply raw_world_dispatch|exists 3, raw_world; by split_and!|].
  - intros j. simpl. by rewrite !lookup_insert_ne by done.
  - exists w'. split; [exact E|exact HR].
Defined.

(** Handle 1 expires at 5, handle 2 every 4 ms from 7 on, handle 3 at 23. *)
Abbreviation sample_arm := (set_timeout_impl (K:=nat) (F:=unit) (P:=unit) (clock_at 3) 0%nat).
Definition armed_world : sample_world :=
  let w1 := done_or new_world (sample_arm 1%nat 2 0 new_world) in
  let w2 := done_or w1 (sample_arm 2%nat 4 4 w1) in
  done_or w2 (sample_arm 3%nat 20 0 w2).

Lemma sample_arm_ok w slots now k free r ms iv :
  tw_repr (wheel w) slots now [] (k :: free) -> timers (wheel w) !! k = Some r ->
  0 < ms < 2 ^ 31 -> 0 <= iv < 2 ^ 31 -> prev_ms (wheel w) = 3 -> slot_num (wheel w) = 4 ->
  tw_repr (wheel (done_or w (sample_arm k ms iv w)))
    (<[(3 + ms) mod 4 := slots ((3 + ms) mod 4) ++ [k]]> slots) now [] free.
Proof.
  intros HR Hk Hms Hiv Hp Hs.
  destruct (arm_slot (P:=unit) (clock_at 3) 0%nat w _ _ _ _ _ _ ms iv HR Hk) as
    (cur & tw1 & w2 & t & Ec & Et & w' & E & _ & HR' & _); [lia|done|lia| |].
  - intros tw. exists 3, (put tw w). split; [done|]. split; [apply get_put|lia].
  - injection Ec as <- <-. rewrite E. simpl. rewrite Hs, Hp in *. rewrite Z.max_l in Et by lia. by rewrite Et in HR'.
Qed.

Lemma armed_world_repr : exists slots, tw_repr (wheel armed_world) slots [] [] [] /\
  slots 0 = [] /\ slots 1 = [1%nat] /\ slots 2 = [] /\ slots 3 = [2%nat; 3%nat].
Proof.
  destruct (timewheel_t_ok (K:=nat) (F:=unit) (P:=unit) (clock_at 3) 0%nat raw_world 1 [1; 2; 3]%nat [] [] [])
    as (w' & E & HR & _); [lia|apply raw_world_handles|apply raw_world_timers|apply alloc_Some; by eexists; vm_compute
      | |apply raw_world_dispatch|exists 3, raw_world; by split_and!|].
  { intros j. simpl. by rewrite !lookup_insert_ne by done. }
  assert (Enew : new_world = w') by (unfold new_world; by rewrite E). subst w'.
  eapply sample_arm_ok with (ms := 2) (iv := 0) in HR; [|by vm_compute|lia|lia|by vm_compute|by vm_compute].
  eapply sample_arm_ok with (ms := 4) (iv := 4) in HR; [|by vm_compute|lia|lia|by vm_compute|by vm_compute].
  eapply sample_arm_ok with (ms := 20) (iv := 0) in HR; [|by vm_compute|lia|lia|by vm_compute|by vm_compute].
  eexists. split; [|split; [|split; [|split]]].
  - exact HR.
  - by vm_compute.
  - by vm_compute.
  - by vm_compute.
  - by vm_compute.
Qed.


(** Handle 1 fires once, is queued without a delay and cancelled: its old expiry
    time makes [cancel_timeout] take one off the counter of the slots, which did
    not count it.  Handle 2 is then armed for time 10. *)
Definition drift (w : sample_world) : outcome sample_world :=
  w ← set_timeout (K:=nat) (F:=unit) (P:=unit) (clock_at 3) 0%nat 1%nat 2 w;
  r ← check (K:=nat) (F:=unit) (P:=unit) (clock_at 8) 0%nat no_call 10 8 w;
  w ← set_timeout (K:=nat) (F:=unit) (P:=unit) (clock_at 8) 0%nat 1%nat 0 r.2;
  w ← on_wheel (K:=nat) (F:=unit) (cancel_timeout 1%nat) w;
  set_timeout (K:=nat) (F:=unit) (P:=unit) (clock_at 8) 0%nat 2%nat 2 w.

(** Cancelling a handle that fired before and now waits without a delay
    makes the wheel lose count: here the counter is 0 although handle 2 is armed
    for time 10, so a check at time 20 takes the early return, calls nothing and
    leaves the handle in its slot. *)
Theorem cancel_now_loses_timer :
  exists w w', drift new_world = Done w /\ tw_task_num (wheel w) = 0 /\
    (timeout <$> timers (wheel w) !! 2%nat) = Some 10 /\
    check (K:=nat) (F:=unit) (P:=unit) (clock_at 20) 0%nat no_call 10 20 w = Done (0, w') /\
    list_empty (Member 2%nat) (tcells (wheel w')) = Done false.
Proof.
  pose (w := done_or new_world (drift new_world)).
  pose (w' := (done_or (0, new_world)
    (check (K:=nat) (F:=unit) (P:=unit) (clock_at 20) 0%nat no_call 10 20 w)).2).
  exists w, w'. split_and!; by vm_compute.
Qed.
End example.
