(* ===== verification/Coroutine.v ===== *)
(** * core/coroutine.cpp, core/coroutine_env.cpp: the coroutine scheduler

    A coroutine_env_t is the run queue, the coroutines with their [wait_to] and
    [exit_notify_queue] cells and the current coroutine.  [resume], [yield] and
    the exit of a coroutine change the lists and then jump; the model of such a
    function ends in the [switch] it jumps to.  Sched.v has the theorems. *)
From S2P Require Import Prelude CList CListStore CListIter Words Component Cells Dispatch.

(** The list heads: run_queue, the exit_notify_queue of a coroutine, and the
    heads that other code owns: wait lists and the [queue] of an exit_notify_t. *)
Inductive co_head (C Q : Type) := RunQueue | ExitQueue (c : C) | WaitList (q : Q).
Arguments RunQueue {C Q}.
Arguments ExitQueue {C Q} c.
Arguments WaitList {C Q} q.

#[export] Instance co_head_eq_dec {C Q} `{EqDecision C, EqDecision Q} : EqDecision (co_head C Q).
Proof. solve_decision. Defined.
#[export] Instance co_head_countable {C Q} `{Countable C, Countable Q} : Countable (co_head C Q).
Proof.
  apply (inj_countable'
    (fun h => match h with RunQueue => inl (inl tt) | ExitQueue c => inl (inr c) | WaitList q => inr q end)
    (fun s => match s with inl (inl _) => RunQueue | inl (inr c) => ExitQueue c | inr q => WaitList q end)).
  by intros [].
Defined.

Definition CREATE : Z := 0.
Definition RUNNING : Z := 1.
Definition SUSPEND : Z := 2.
Definition STOP : Z := 3.

(** gc_block_t, a block of a coroutine's memory manager: its destructor, if it has one,
    and the number of its objects. *)
Record gc_obj := GcObj { gc_dtor : option nat; gc_num : Z }.

(** coroutine_t; the three maps are those of [static_vars], [spec] and
    [pthread_spec], [None] before their first use, and [gc_mgr] has the blocks of the
    memory manager in the order of its list (Gc.v has the list). *)
Record coroutine := Co {
  state : Z;
  ret_val : Z;
  is_main : bool;
  is_end_delete : bool;
  co_id : Z;
  stack_size : Z;
  static_vars : option (gmap Z Z);
  spec : option (gmap Z Z);
  pthread_spec : option (gmap Z Z);
  gc_mgr : option (list gc_obj) }.

(** The functions that coroutine.cpp hands to the dispatcher. *)
Inductive co_proc (Q : Type) := proc_exit_notify (data : Q) | do_delay_del_co_task | other_proc (n : nat).
Arguments proc_exit_notify {Q} data.
Arguments do_delay_del_co_task {Q}.
Arguments other_proc {Q} n.

(** A pointer argument or an integer in it. *)
Inductive value (C : Type) := VInt (n : Z) | VCo (c : C).
Arguments VInt {C} n.
Arguments VCo {C} c.

(** What a function of the scheduler ends in: it returns, or jumps from [from]
    to [to], first making a new context for [to] when [fresh] is set. *)
Inductive switch (C : Type) := Return (v : value C) | Go (from to : C) (fresh : bool) (v : value C).
Arguments Return {C} v.
Arguments Go {C} from to fresh v.

Section coroutine.
Context {C Q T : Type} `{Countable C, Countable Q, Countable T}.

(** coroutine_env_t.  [delay_cells] holds the list delay_del_list (at [Head tt])
    and the task_t on the stack of an ended coroutine; [exit_data] the [ret_val]
    of the exit_notify_t objects.  [destroyed] is history: the calls of destructors. *)
Record env := Env {
  cells : heap (cell (co_head C Q) C);
  cos : gmap C coroutine;
  curr_co : C;
  main : C;
  next_id : Z;
  spec_key_seed : Z;
  delay_cells : heap (cell unit C);
  delay_del_task : T;
  dispatch : dispatch_mgr T (co_proc Q);
  exit_data : gmap Q Z;
  destroyed : list (nat * Z) }.

Implicit Types (e : env) (c co last : C) (q : Q).

Definition set_cells h e := Env h (cos e) (curr_co e) (main e) (next_id e) (spec_key_seed e) (delay_cells e) (delay_del_task e) (dispatch e) (exit_data e) (destroyed e).
Definition set_cos m e := Env (cells e) m (curr_co e) (main e) (next_id e) (spec_key_seed e) (delay_cells e) (delay_del_task e) (dispatch e) (exit_data e) (destroyed e).
Definition set_curr c e := Env (cells e) (cos e) c (main e) (next_id e) (spec_key_seed e) (delay_cells e) (delay_del_task e) (dispatch e) (exit_data e) (destroyed e).
Definition set_delay h e := Env (cells e) (cos e) (curr_co e) (main e) (next_id e) (spec_key_seed e) h (delay_del_task e) (dispatch e) (exit_data e) (destroyed e).
Definition set_dispatch d e := Env (cells e) (cos e) (curr_co e) (main e) (next_id e) (spec_key_seed e) (delay_cells e) (delay_del_task e) d (exit_data e) (destroyed e).
Definition set_exit_data m e := Env (cells e) (cos e) (curr_co e) (main e) (next_id e) (spec_key_seed e) (delay_cells e) (delay_del_task e) (dispatch e) m (destroyed e).

Definition with_state s (r : coroutine) := Co s (ret_val r) (is_main r) (is_end_delete r) (co_id r) (stack_size r) (static_vars r) (spec r) (pthread_spec r) (gc_mgr r).
Definition with_ret v (r : coroutine) := Co (state r) v (is_main r) (is_end_delete r) (co_id r) (stack_size r) (static_vars r) (spec r) (pthread_spec r) (gc_mgr r).

Definition with_gc m (r : coroutine) := Co (state r) (ret_val r) (is_main r) (is_end_delete r) (co_id r) (stack_size r) (static_vars r) (spec r) (pthread_spec r) m.
Definition without_vars (r : coroutine) := Co (state r) (ret_val r) (is_main r) (is_end_delete r) (co_id r) (stack_size r) None None None (gc_mgr r).
Definition set_destroyed l e := Env (cells e) (cos e) (curr_co e) (main e) (next_id e) (spec_key_seed e) (delay_cells e) (delay_del_task e) (dispatch e) (exit_data e) l.

(** co->field = ..., for a coroutine in memory. *)
Definition upd_co c (f : coroutine -> coroutine) e : outcome env :=
  r ← of_option (cos e !! c); Done (set_cos (<[c := f r]> (cos e)) e).

(** Operations on the lists. *)
Definition on_cells (f : heap (cell (co_head C Q) C) -> outcome (heap (cell (co_head C Q) C))) e : outcome env :=
  h ← f (cells e); Done (set_cells h e).

Definition wait_to c : cell (co_head C Q) C := Member c.
Definition run_queue : cell (co_head C Q) C := Head RunQueue.
Definition exit_notify_queue c : cell (co_head C Q) C := Head (ExitQueue c).

(** is_stop *)
Definition is_stop c e : outcome bool := r ← of_option (cos e !! c); Done (state r =? STOP).

Definition set_auto_delete c : env -> outcome env :=
  upd_co c (fun r => Co (state r) (ret_val r) (is_main r) true (co_id r) (stack_size r) (static_vars r) (spec r) (pthread_spec r) (gc_mgr r)).

Definition current_coroutine e : C := curr_co e.

(** init_coroutine on the memory of [self]. *)
Definition init_coroutine self e : outcome env :=
  h ← INIT_LIST_HEAD (wait_to self) (cells e);
  h ← INIT_LIST_HEAD (exit_notify_queue self) h;
  Done (Env h (<[self := Co CREATE 0 false false (next_id e) 0 None None None None]> (cos e)) (curr_co e) (main e)
          (u64 (next_id e + 1)) (spec_key_seed e) (delay_cells e) (delay_del_task e) (dispatch e) (exit_data e) (destroyed e)).

(** alloc_coroutine: [co] is what co_struct_pool.alloc returns, and [size] the
    stack size that set_callback settles on. *)
Definition alloc_coroutine co size e : outcome env :=
  match cos e !! co with
  | Some _ => Fault
  | None =>
      let e := set_cells (<[wait_to co := Link None None]> (<[exit_notify_queue co := Link None None]> (cells e))) e in
      e ← init_coroutine co e;
      upd_co co (fun r => Co (state r) (ret_val r) (is_main r) (is_end_delete r) (co_id r) size (static_vars r) (spec r) (pthread_spec r) (gc_mgr r)) e
  end.

(** The manager of the current coroutine, which get_gc_mgr makes when it is needed, and
    GC_NEW, which adds a block at the end of its list. *)
Definition get_gc_mgr e : outcome (list gc_obj * env) :=
  r ← of_option (cos e !! curr_co e);
  match gc_mgr r with
  | Some m => Done (m, e)
  | None => e ← upd_co (curr_co e) (with_gc (Some [])) e; Done ([], e)
  end.

Definition GC_NEW (d : nat) e : outcome env :=
  '(m, e) ← get_gc_mgr e; upd_co (curr_co e) (with_gc (Some (m ++ [GcObj (Some d) 1]))) e.

(** The destructors are the users' functions, which may do what they like with the
    environment. *)
Variable destructor : nat -> Z -> env -> outcome env.

(** gc_free_all: the loop over the blocks. *)
Fixpoint gc_free_all (bs : list gc_obj) e : outcome env :=
  match bs with
  | [] => Done e
  | GcObj d n :: bs =>
      e ← (match d with Some d => e ← destructor d n e; Done (set_destroyed (destroyed e ++ [(d, n)]) e) | None => Done e end);
      gc_free_all bs e
  end.

(** free_coroutine.  The blocks of the memory manager are destroyed; then the manager,
    the three maps (their values are not), the stack, with the task_t that an ended
    coroutine left on it, and the structure are gone. *)
Definition free_coroutine co e : outcome env :=
  r ← of_option (cos e !! co);
  e ← (match gc_mgr r with
       | Some bs => e ← gc_free_all bs e; upd_co co (with_gc None) e
       | None => Done e
       end);
  e ← upd_co co without_vars e;
  Done (set_delay (delete (Member co) (delay_cells e))
    (set_cells (delete (wait_to co) (delete (exit_notify_queue co) (cells e))) (set_cos (delete co (cos e)) e))).

(** resume(env, co, val) up to its jump. *)
Definition resume co (val : value C) e : outcome (env * switch C) :=
  let cur := curr_co e in
  let e := set_curr co e in
  r ← of_option (cos e !! co);
  let fresh := state r =? CREATE in
  let val := if fresh then VCo co else val in
  e ← upd_co co (with_state RUNNING) e;
  b ← list_empty (wait_to co) (cells e);
  e ← (if negb b then on_cells (list_del_init (wait_to co)) e else Done e);
  e ← on_cells (list_del_init (wait_to cur)) e;
  e ← on_cells (list_add_tail (wait_to cur) run_queue) e;
  Done (e, Go cur co fresh val).

(** The coroutine whose [wait_to] a cell is. *)
Definition co_of (k : option (cell (co_head C Q) C)) : outcome C :=
  match k with Some (Member c) => Done c | _ => Fault end.

(** yield(wait_to, val) up to its jump; the empty run queue aborts. *)
Definition yield (wait : option (cell (co_head C Q) C)) (val : value C) e : outcome (env * switch C) :=
  let cur := curr_co e in
  b ← list_empty run_queue (cells e);
  if (b : bool) then Fault
  else
    r ← list_pop_tail run_queue (cells e);
    last ← co_of r.1;
    let e := set_curr last (set_cells r.2 e) in
    e ← (match wait with
         | Some w => e ← on_cells (list_del_init (wait_to cur)) e; on_cells (list_add_tail (wait_to cur) w) e
         | None => Done e
         end);
    e ← upd_co cur (with_state SUSPEND) e;
    e ← upd_co last (with_state RUNNING) e;
    Done (e, Go cur last false val).

(** co_return_p: with an empty run queue it returns, and then the coroutine's
    entry function does, which ends the thread. *)
Definition co_return_p co e : outcome (env * switch C) :=
  b ← list_empty run_queue (cells e);
  if (b : bool) then Fault
  else
    p ← get_prev (Some run_queue) (cells e);
    last ← co_of p;
    e ← on_cells (list_del_init (wait_to last)) e;
    let e := set_curr last e in
    e ← upd_co last (with_state RUNNING) e;
    Done (e, Go co last false (VInt 0)).

(** co_main_helper2, the notification: the waiters move to a new exit_notify_t
    [data], for a delayed task of the dispatcher.  [data] and [task] are the
    objects that the two calls of [new] return. *)
Definition exit_notify co (v : Z) (data : Q) (task : T) e : outcome env :=
  b ← list_empty (exit_notify_queue co) (cells e);
  if negb b then
    h ← INIT_LIST_HEAD (Head (WaitList data)) (<[Head (WaitList data) := Link None None]> (cells e));
    h ← list_add (Head (WaitList data)) (exit_notify_queue co) h;
    h ← list_del_init (exit_notify_queue co) h;
    let e := set_exit_data (<[data := v]> (exit_data e)) (set_cells h e) in
    d ← registry_delay_task_proc task (proc_exit_notify data) (dispatch e);
    Done (set_dispatch d e)
  else Done e.

(** co_main_helper2, the delayed deletion; the task_t is on the stack of [co]. *)
Definition delay_delete co e : outcome env :=
  r ← of_option (cos e !! co);
  if is_end_delete r then
    h ← INIT_LIST_HEAD (Member co) (<[Member co := Link None None]> (delay_cells e));
    h ← list_add_tail (Member co) (Head tt) h;
    d ← delay (delay_del_task e) (dispatch e);
    Done (set_dispatch d (set_delay h e))
  else Done e.

(** The end of co_main_helper2, after [pfn] returned [v]. *)
Definition co_exit co (v : Z) (data : Q) (task : T) e : outcome (env * switch C) :=
  e ← upd_co co (fun r => with_state STOP (with_ret v r)) e;
  e ← on_cells (list_del_init (wait_to co)) e;
  e ← exit_notify co v data task e;
  e ← delay_delete co e;
  co_return_p co e.

(** wait(co): the return value of a stopped coroutine, or a yield into its exit
    queue. *)
Definition wait co e : outcome (env * switch C) :=
  r ← of_option (cos e !! co);
  if STOP <=? state r then Done (e, Return (VInt (ret_val r)))
  else yield (Some (exit_notify_queue co)) (VInt 0) e.

(** wait_timeout_handle *)
Definition wait_timeout_handle co e : outcome (env * switch C) :=
  e ← on_cells (list_del_init (wait_to co)) e;
  resume co (VInt (-1)) e.

(** One pass of the loop of proc_exit_notify: the entry [it] of data->queue. *)
Definition notify_one (data : Q) (it : cell (co_head C Q) C) e : outcome (env * switch C) :=
  e ← on_cells (list_del_init it) e;
  co2 ← co_of (Some it);
  r ← of_option (cos e !! co2);
  v ← of_option (exit_data e !! data);
  if state r <? STOP then resume co2 (VInt v) e else Done (e, Return (VInt 0)).

(** The cursor of the loop: list_for_each_safe reads [next] before the pass. *)
Definition notify_start (data : Q) e : outcome (option (cell (co_head C Q) C) * option (cell (co_head C Q) C)) :=
  it ← get_next (Some (Head (WaitList data))) (cells e);
  next ← get_next it (cells e);
  Done (it, next).

Definition notify_advance (next : option (cell (co_head C Q) C)) e : outcome (option (cell (co_head C Q) C) * option (cell (co_head C Q) C)) :=
  n ← get_next next (cells e); Done (next, n).

(** delete data; its list head is gone with it. *)
Definition delete_data (data : Q) e : outcome env :=
  _ ← of_option (exit_data e !! data);
  Done (set_exit_data (delete data (exit_data e)) (set_cells (delete (Head (WaitList data)) (cells e)) e)).

(** do_delay_del_co_task: swap the list out and free its coroutines.  The local
    list is [Local sp], list_swap's temporary [Local (S sp)]. *)
Definition delay_body (k : cell unit C) e : outcome (bool * env) :=
  h ← list_del_init k (delay_cells e);
  match k with
  | Member co => e ← free_coroutine co (set_delay h e); Done (false, e)
  | _ => Fault
  end.

Definition do_delay_del (sp fuel : nat) e : outcome env :=
  h ← LIST_HEAD (Local sp) (delay_cells e);
  h ← list_swap (Local (S sp)) (Local sp) (Head tt) h;
  e ← list_for_each_safe delay_cells (Local sp) delay_body fuel (set_delay h e);
  Done (set_delay (delete (Local sp) (delay_cells e)) e).

(** ** Coroutine-local variables *)

(** std::map::operator[], which inserts NULL. *)
Definition map_at (m : gmap Z Z) (key : Z) : Z * gmap Z Z :=
  match m !! key with Some v => (v, m) | None => (0, <[key := 0]> m) end.

Definition set_static_var (key val : Z) e : outcome (Z * env) :=
  r ← of_option (cos e !! curr_co e);
  let '(old, m) := map_at (default ∅ (static_vars r)) key in
  let r := Co (state r) (ret_val r) (is_main r) (is_end_delete r) (co_id r) (stack_size r) (Some (<[key := val]> m)) (spec r) (pthread_spec r) (gc_mgr r) in
  Done (old, set_cos (<[curr_co e := r]> (cos e)) e).

Definition get_static_var (key : Z) e : outcome (Z * env) :=
  r ← of_option (cos e !! curr_co e);
  match static_vars r with
  | None => Done (0, e)
  | Some m =>
      let '(v, m) := map_at m key in
      let r := Co (state r) (ret_val r) (is_main r) (is_end_delete r) (co_id r) (stack_size r) (Some m) (spec r) (pthread_spec r) (gc_mgr r) in
      Done (v, set_cos (<[curr_co e := r]> (cos e)) e)
  end.

Definition get_spec (key : Z) e : outcome (Z * env) :=
  r ← of_option (cos e !! curr_co e);
  match spec r with
  | None => Done (0, e)
  | Some m =>
      let '(v, m) := map_at m key in
      let r := Co (state r) (ret_val r) (is_main r) (is_end_delete r) (co_id r) (stack_size r) (static_vars r) (Some m) (pthread_spec r) (gc_mgr r) in
      Done (v, set_cos (<[curr_co e := r]> (cos e)) e)
  end.

Definition set_spec (key val : Z) e : outcome env :=
  r ← of_option (cos e !! curr_co e);
  let r := Co (state r) (ret_val r) (is_main r) (is_end_delete r) (co_id r) (stack_size r) (static_vars r)
    (Some (<[key := val]> (default ∅ (spec r)))) (pthread_spec r) (gc_mgr r) in
  Done (set_cos (<[curr_co e := r]> (cos e)) e).

Definition get_pthread_spec (key : Z) e : outcome (Z * env) :=
  r ← of_option (cos e !! curr_co e);
  match pthread_spec r with
  | None => Done (0, e)
  | Some m =>
      let '(v, m) := map_at m key in
      let r := Co (state r) (ret_val r) (is_main r) (is_end_delete r) (co_id r) (stack_size r) (static_vars r) (spec r) (Some m) (gc_mgr r) in
      Done (v, set_cos (<[curr_co e := r]> (cos e)) e)
  end.

Definition set_pthread_spec (key val : Z) e : outcome env :=
  r ← of_option (cos e !! curr_co e);
  let r := Co (state r) (ret_val r) (is_main r) (is_end_delete r) (co_id r) (stack_size r) (static_vars r) (spec r)
    (Some (<[key := val]> (default ∅ (pthread_spec r)))) (gc_mgr r) in
  Done (set_cos (<[curr_co e := r]> (cos e)) e).

(** create_spec_key *)
Definition create_spec_key e : Z * env :=
  (spec_key_seed e, Env (cells e) (cos e) (curr_co e) (main e) (next_id e) (u64 (spec_key_seed e + 1)) (delay_cells e) (delay_del_task e) (dispatch e) (exit_data e) (destroyed e)).

(** coroutine_env_t::coroutine_env_t, the part of the scheduler: [self] is the
    memory of the new environment and of its main coroutine; the dispatcher has
    been made. *)
Definition coroutine_env_t e : outcome env :=
  e ← init_coroutine (main e) e;
  e ← upd_co (main e) (fun r => Co RUNNING (ret_val r) true (is_end_delete r) (co_id r) (stack_size r) (static_vars r) (spec r) (pthread_spec r) (gc_mgr r)) e;
  e ← on_cells (INIT_LIST_HEAD (wait_to (main e))) e;
  let e := set_curr (main e) e in
  e ← on_cells (INIT_LIST_HEAD run_queue) e;
  e ← on_cells (list_add_tail (wait_to (main e)) run_queue) e;
  h ← INIT_LIST_HEAD (Head tt) (delay_cells e);
  d ← init_task (delay_del_task e) do_delay_del_co_task (dispatch e);
  Done (Env (cells e) (cos e) (curr_co e) (main e) (next_id e) 10000 h (delay_del_task e) d (exit_data e) (destroyed e)).
End coroutine.
Arguments env C Q T {_ _ _ _ _ _}.
