(* ===== verification/Sched.v ===== *)
(** * The scheduler's invariant

    [sched] says which coroutine is where: the current one, the stack of its
    resumers (the run queue), the wait lists and the rest.  The theorems give the
    effect of every operation of Coroutine.v on that state. *)
From S2P Require Import Prelude CList CListStore CListIter Words Component Cells Dispatch Coroutine.

(** ** Which coroutine is where *)
Section sched.
Context {C Q T : Type} `{Countable C, Countable Q, Countable T}.
Implicit Types (e : env C Q T) (c co cur last : C) (rq idle : list C).
Implicit Types (ws : list (cell (co_head C Q) C * list C)).

Definition state_of e c : option Z := state <$> cos e !! c.

(** [rq] is the run queue, whose last entry resumed the current coroutine; [ws]
    are the wait lists, exit queues included, and [idle] the coroutines in no
    list other than the current one: not started, suspended or stopped. *)
Record sched e rq ws idle : Prop := {
  s_rings : rings (cells e) (lists_of ((run_queue, rq) :: ws) (curr_co e :: idle));
  s_cos : forall c, c ∈ members ((run_queue, rq) :: ws) (curr_co e :: idle) <-> is_Some (cos e !! c);
  s_heads : forall c, exit_notify_queue c ∈ ws.*1 <-> is_Some (cos e !! c);
  s_run : forall c, c ∈ curr_co e :: rq -> state_of e c = Some RUNNING;
  s_wait : forall c, c ∈ ws ≫= snd -> state_of e c = Some SUSPEND;
  s_idle : forall c, c ∈ idle -> state_of e c ∈ [Some CREATE; Some SUSPEND; Some STOP] }.

Lemma sched_perm e rq ws ws' idle idle' :
  ws ≡ₚ ws' -> idle ≡ₚ idle' -> sched e rq ws idle -> sched e rq ws' idle'.
Proof.
  intros Hw Hi [HR HC HH Hr Hwa Hid]. split.
  - rewrite <-(lists_of_perm ((run_queue, rq) :: ws) _ (curr_co e :: idle) _); [done|by rewrite Hw|by rewrite Hi].
  - intros c. rewrite <-HC. unfold members. rewrite !bind_cons. by rewrite Hw, Hi.
  - intros c. rewrite <-Hw. apply HH.
  - done.
  - intros c. rewrite <-Hw. apply Hwa.
  - intros c. rewrite <-Hi. apply Hid.
Qed.

(** Taking a coroutine out of where it is. *)
Inductive takes co : list C * list (cell (co_head C Q) C * list C) * list C ->
    list C * list (cell (co_head C Q) C * list C) * list C -> Prop :=
| take_idle rq ws idle idle' : idle ≡ₚ co :: idle' -> takes co (rq, ws, idle) (rq, ws, idle')
| take_stack l1 l2 ws idle : takes co (l1 ++ co :: l2, ws, idle) (l1 ++ l2, ws, idle)
| take_wait rq k l1 l2 ws ws' idle :
    ws ≡ₚ (k, l1 ++ co :: l2) :: ws' -> takes co (rq, ws, idle) (rq, (k, l1 ++ l2) :: ws', idle).

(** Putting a coroutine into a wait list or aside. *)
Inductive puts cur : option (cell (co_head C Q) C) -> list (cell (co_head C Q) C * list C) * list C ->
    list (cell (co_head C Q) C * list C) * list C -> Prop :=
| put_idle ws idle : puts cur None (ws, idle) (ws, cur :: idle)
| put_wait w l ws ws' idle : ws ≡ₚ (w, l) :: ws' -> puts cur (Some w) (ws, idle) ((w, l ++ [cur]) :: ws', idle).

Definition all_of rq ws idle : list C := rq ++ (ws ≫= snd) ++ idle.

Lemma members_all rq ws idle : members ((run_queue, rq) :: ws) idle = all_of rq ws idle.
Proof. unfold members, all_of. rewrite bind_cons. cbn. by rewrite app_assoc. Qed.

Lemma takes_all co rq ws idle rq' ws' idle' :
  takes co (rq, ws, idle) (rq', ws', idle') -> all_of rq ws idle ≡ₚ co :: all_of rq' ws' idle'.
Proof.
  inversion 1 as [? ? ? ? Hp|l1 l2 ? ?|? k l1 l2 ? ws0 ? Hp]; subst; unfold all_of.
  - rewrite Hp. by rewrite <-!Permutation_middle.
  - rewrite <-!app_assoc. cbn. by rewrite <-Permutation_middle.
  - rewrite Hp, !bind_cons. cbn. rewrite <-!app_assoc. cbn. by rewrite (app_assoc rq'), (app_assoc rq' l1 (l2 ++ _)), <-!Permutation_middle.
Qed.

Lemma puts_all cur w ws idle ws' idle' rq :
  puts cur w (ws, idle) (ws', idle') -> all_of rq ws' idle' ≡ₚ cur :: all_of rq ws idle.
Proof.
  inversion 1 as [|? l ? ws0 ? Hp]; subst; unfold all_of.
  - by rewrite <-!Permutation_middle.
  - rewrite Hp, !bind_cons. cbn. rewrite <-!app_assoc. cbn. by rewrite (app_assoc rq), (app_assoc rq l (_ ++ _)), <-!Permutation_middle.
Qed.

Lemma sched_nodup e rq ws idle : sched e rq ws idle -> NoDup (curr_co e :: all_of rq ws idle).
Proof.
  intros [HR _ _ _ _ _]. apply members_nodup in HR. rewrite members_all in HR. unfold all_of in *.
  rewrite !app_assoc in HR. rewrite <-Permutation_middle in HR. by rewrite !app_assoc.
Qed.

Lemma sched_member e rq ws idle c : sched e rq ws idle -> c ∈ curr_co e :: all_of rq ws idle <-> is_Some (cos e !! c).
Proof.
  intros [_ HC _ _ _ _]. rewrite <-HC, members_all. unfold all_of. rewrite elem_of_cons, !elem_of_app, elem_of_cons. tauto.
Qed.

(** Unlinking [co]: what resume does to its [wait_to], linked or not. *)
Lemma takes_cells h co rq ws idle rq' ws' idle' :
  takes co (rq, ws, idle) (rq', ws', idle') ->
  forall free, rings h (lists_of ((run_queue, rq) :: ws) (free ++ idle)) ->
  exists h', (b ← list_empty (wait_to co) h; if negb b then list_del_init (wait_to co) h else Done h) = Done h' /\
    rings h' (lists_of ((run_queue, rq') :: ws') (co :: free ++ idle')) /\ same_cells h h'.
Proof.
  unfold wait_to. inversion 1 as [? ? ? ? Hp|l1 l2 ? ?|? k l1 l2 ? ws0 ? Hp]; subst; intros free HR.
  - assert (HR' : rings h (lists_of ((run_queue, rq') :: ws') (co :: free ++ idle'))).
    { rewrite <-(lists_of_perm ((run_queue, rq') :: ws') _ (free ++ idle) _); [done|done|].
      rewrite Hp. by rewrite <-Permutation_middle. }
    rewrite (cells_empty_detached _ _ _ _ HR'). exists h. done.
  - rewrite (cells_empty_member _ _ _ _ _ _ _ HR). cbn [mbind outcome_bind negb].
    destruct (cells_del_init _ _ _ _ _ _ _ HR) as (h' & -> & HR' & Hs). exists h'. done.
  - assert (HR' : rings h (lists_of ((k, l1 ++ co :: l2) :: (run_queue, rq') :: ws0) (free ++ idle'))).
    { rewrite <-(lists_of_perm ((run_queue, rq') :: ws) _ (free ++ idle') _); [done| |done]. rewrite Hp. apply perm_swap. }
    rewrite (cells_empty_member _ _ _ _ _ _ _ HR'). cbn [mbind outcome_bind negb].
    destruct (cells_del_init _ _ _ _ _ _ _ HR') as (h' & -> & HR2 & Hs). exists h'. split; [done|]. split; [|done].
    rewrite (lists_of_perm _ ((k, l1 ++ l2) :: (run_queue, rq') :: ws0) _ (co :: free ++ idle')); [done|apply perm_swap|done].
Qed.

Lemma takes_heads co rq ws idle rq' ws' idle' :
  takes co (rq, ws, idle) (rq', ws', idle') -> ws'.*1 ≡ₚ ws.*1.
Proof. inversion 1 as [? ? ? ? Hp|l1 l2 ? ?|? k l1 l2 ? ws0 ? Hp]; subst; [done|done|by rewrite Hp]. Qed.

Lemma puts_heads cur w ws idle ws' idle' : puts cur w (ws, idle) (ws', idle') -> ws'.*1 ≡ₚ ws.*1.
Proof. inversion 1 as [|? l ? ws0 ? Hp]; subst; [done|by rewrite Hp]. Qed.

Lemma takes_in co rq ws idle rq' ws' idle' c :
  takes co (rq, ws, idle) (rq', ws', idle') ->
  (c ∈ rq' -> c ∈ rq) /\ (c ∈ ws' ≫= snd -> c ∈ ws ≫= snd) /\ (c ∈ idle' -> c ∈ idle).
Proof.
  inversion 1 as [? ? ? ? Hp|l1 l2 ? ?|? k l1 l2 ? ws0 ? Hp]; subst; try (rewrite Hp); rewrite ?bind_cons; cbn;
    split_and!; try done; rewrite ?elem_of_app, ?elem_of_cons, ?elem_of_app; tauto.
Qed.

Lemma upd_co_ok c f e r : cos e !! c = Some r -> upd_co c f e = Done (set_cos (<[c := f r]> (cos e)) e).
Proof. intros Hc. unfold upd_co. by rewrite Hc. Qed.

Lemma state_of_insert e c r c' : state_of (set_cos (<[c := r]> (cos e)) e) c' = if decide (c' = c) then Some (state r) else state_of e c'.
Proof.
  unfold state_of. cbn. destruct (decide (c' = c)) as [->|]; [by rewrite lookup_insert_eq|by rewrite lookup_insert_ne].
Qed.

(** The conditional unlinking of [resume], as an operation on the cells. *)
Lemma unlink_cells {A} co e (k : env C Q T -> outcome A) :
  (b ← list_empty (wait_to co) (cells e);
   e ← (if negb b then on_cells (list_del_init (wait_to co)) e else Done e); k e) =
  (h ← (b ← list_empty (wait_to co) (cells e); if negb b then list_del_init (wait_to co) (cells e) else Done (cells e));
   k (set_cells h e)).
Proof.
  destruct (list_empty (wait_to co) (cells e)) as [b| |]; [|done..]. cbn [mbind outcome_bind].
  destruct (negb b); [|by destruct e]. unfold on_cells. by destruct (list_del_init (wait_to co) (cells e)).
Qed.

(** A state made from another by moving coroutines about. *)
Lemma sched_moved e rq ws idle e' rq' ws' idle' :
  sched e rq ws idle ->
  rings (cells e') (lists_of ((run_queue, rq') :: ws') (curr_co e' :: idle')) ->
  curr_co e' :: all_of rq' ws' idle' ≡ₚ curr_co e :: all_of rq ws idle ->
  (forall c, is_Some (cos e' !! c) <-> is_Some (cos e !! c)) ->
  (forall c, exit_notify_queue c ∈ ws'.*1 <-> exit_notify_queue c ∈ ws.*1) ->
  (forall c, c ∈ curr_co e' :: rq' -> state_of e' c = Some RUNNING) ->
  (forall c, c ∈ ws' ≫= snd -> state_of e' c = Some SUSPEND) ->
  (forall c, c ∈ idle' -> state_of e' c ∈ [Some CREATE; Some SUSPEND; Some STOP]) ->
  sched e' rq' ws' idle'.
Proof.
  intros HS HR Hp Hcos Hh Hr Hw Hi. split; [done| | |done..].
  - intros c. rewrite Hcos, <-(sched_member _ _ _ _ c HS), <-Hp, members_all. unfold all_of.
    rewrite !elem_of_app, !elem_of_cons, !elem_of_app. tauto.
  - intros c. rewrite Hh, Hcos. apply (s_heads _ _ _ _ HS).
Qed.

Lemma state_of_eq e e' c : cos e' !! c = cos e !! c -> state_of e' c = state_of e c.
Proof. intros E. unfold state_of. by rewrite E. Qed.

(** [resume co]: whatever list [co] was in, the current coroutine goes onto the
    run queue and [co] becomes the current one. *)
Lemma resume_ok e rq ws idle rq' ws' idle' co v r :
  sched e rq ws idle -> cos e !! co = Some r -> takes co (rq, ws, idle) (rq', ws', idle') ->
  exists e', resume co v e =
      Done (e', Go (curr_co e) co (bool_decide (state r = CREATE)) (if bool_decide (state r = CREATE) then VCo co else v)) /\
    sched e' (rq' ++ [curr_co e]) ws' idle' /\ curr_co e' = co /\
    cos e' = <[co := with_state RUNNING r]> (cos e) /\ main e' = main e /\
    dispatch e' = dispatch e /\ exit_data e' = exit_data e /\ delay_cells e' = delay_cells e /\
    delay_del_task e' = delay_del_task e.
Proof.
  intros HS Hr Ht. pose proof (sched_nodup _ _ _ _ HS) as Hnd. assert (Hall := takes_all _ _ _ _ _ _ _ Ht).
  assert (Hco : co ∉ curr_co e :: all_of rq' ws' idle').
  { rewrite Hall, (perm_swap co) in Hnd. by apply NoDup_cons in Hnd as []. }
  destruct (takes_cells (cells e) co _ _ _ _ _ _ Ht [curr_co e] (s_rings _ _ _ _ HS)) as (h1 & E1 & HR1 & Hs1).
  cbn [app] in HR1. rewrite (lists_of_perm _ ((run_queue, rq') :: ws') _ (curr_co e :: co :: idle') (reflexivity _) (perm_swap _ _ _)) in HR1.
  destruct (cells_del_init_detached _ _ _ _ HR1) as (h2 & E2 & HR2 & Hs2).
  destruct (cells_add_tail _ _ _ _ _ _ HR2) as (h3 & E3 & HR3 & Hs3).
  unfold resume. change (cos (set_curr co e)) with (cos e). rewrite Hr. cbn [of_option]. rewrite outcome_bind_ret.
  rewrite (upd_co_ok co _ (set_curr co e) r), outcome_bind_ret by done.
  rewrite unlink_cells. cbn [cells set_cos set_curr]. rewrite E1. cbn [mbind outcome_bind].
  unfold on_cells, wait_to. cbn [cells set_cells]. rewrite E2. cbn [mbind outcome_bind cells set_cells].
  rewrite E3. cbn [mbind outcome_bind].
  eexists. split; [by destruct (Z.eqb_spec (state r) CREATE); case_bool_decide|].
  split; [|done]. eapply (sched_moved e); [done|exact HR3|..]; cbn [cells cos curr_co set_cells set_cos set_curr].
  - rewrite Hall. unfold all_of. rewrite <-!app_assoc. cbn [app]. rewrite <-(Permutation_middle rq'). apply perm_swap.
  - intros c. rewrite lookup_insert_is_Some'. split; [by intros [<-|]|by right].
  - intros c. by rewrite (takes_heads _ _ _ _ _ _ _ Ht).
  - intros c Hc. unfold state_of. cbn. rewrite elem_of_cons, elem_of_app, list_elem_of_singleton in Hc.
    destruct (decide (c = co)) as [->|]; [by rewrite lookup_insert_eq|rewrite lookup_insert_ne by done].
    apply (s_run _ _ _ _ HS). rewrite elem_of_cons. destruct (takes_in _ _ _ _ _ _ _ c Ht) as (Hx & _ & _). tauto.
  - intros c Hc. unfold state_of. cbn. rewrite lookup_insert_ne.
    + apply (s_wait _ _ _ _ HS). by apply (takes_in _ _ _ _ _ _ _ c Ht).
    + intros ->. apply Hco. right. unfold all_of. rewrite !elem_of_app. tauto.
  - intros c Hc. unfold state_of. cbn. rewrite lookup_insert_ne.
    + apply (s_idle _ _ _ _ HS). by apply (takes_in _ _ _ _ _ _ _ c Ht).
    + intros ->. apply Hco. right. unfold all_of. rewrite !elem_of_app. tauto.
Qed.

(** Popping the run queue. *)
Lemma pop_run_queue h q last ws free :
  rings h (lists_of ((run_queue, q ++ [last]) :: ws) free) ->
  exists h', list_pop_tail run_queue h = Done (Some (wait_to last), h') /\
    rings h' (lists_of ((run_queue, q) :: ws) (last :: free)).
Proof.
  intros HR. rewrite lists_of_cons, fmap_app in HR. pose proof (rings_list_pop_tail _ _ _ _ HR) as E.
  cbn [fmap list_fmap] in E. rewrite last_snoc, removelast_snoc in E.
  destruct E as (h' & -> & HR' & _). exists h'. split; [done|]. by rewrite lists_of_free, lists_of_cons.
Qed.

(** Putting the current coroutine away: what yield does to its [wait_to]. *)
Lemma puts_cells h cur w rq ws idle ws' idle' free :
  rings h (lists_of ((run_queue, rq) :: ws) (cur :: free ++ idle)) -> puts cur w (ws, idle) (ws', idle') ->
  exists h', (match w with
      | Some w => h ← list_del_init (wait_to cur) h; list_add_tail (wait_to cur) w h
      | None => Done h
      end) = Done h' /\ rings h' (lists_of ((run_queue, rq) :: ws') (free ++ idle')).
Proof.
  intros HR. inversion 1 as [|k l ? ws0 ? Hp]; subst.
  - exists h. split; [done|]. by rewrite <-(lists_of_perm _ _ _ _ (reflexivity _) (Permutation_middle free idle cur)).
  - destruct (cells_del_init_detached _ _ _ _ HR) as (h2 & E2 & HR2 & Hs2). unfold wait_to. rewrite E2. cbn [mbind outcome_bind].
    assert (HR3 : rings h2 (lists_of ((k, l) :: (run_queue, rq) :: ws0) (cur :: free ++ idle'))).
    { rewrite <-(lists_of_perm ((run_queue, rq) :: ws) _ (cur :: free ++ idle') _); [done| |done]. rewrite Hp. apply perm_swap. }
    destruct (cells_add_tail _ _ _ _ _ _ HR3) as (h3 & E3 & HR4 & Hs3). exists h3. split; [done|].
    by rewrite (lists_of_perm _ ((k, l ++ [cur]) :: (run_queue, rq) :: ws0) _ (free ++ idle') (perm_swap _ _ _) (reflexivity _)).
Qed.

Lemma wait_cells {A} cur w e (k : env C Q T -> outcome A) :
  (e ← (match w with
        | Some w => e ← on_cells (list_del_init (wait_to cur)) e; on_cells (list_add_tail (wait_to cur) w) e
        | None => Done e
        end); k e) =
  (h ← (match w with
        | Some w => h ← list_del_init (wait_to cur) (cells e); list_add_tail (wait_to cur) w h
        | None => Done (cells e)
        end); k (set_cells h e)).
Proof.
  destruct w as [w|]; [|by destruct e]. unfold on_cells.
  destruct (list_del_init (wait_to cur) (cells e)) as [h| |]; [|done..]. cbn [mbind outcome_bind cells set_cells].
  by destruct (list_add_tail (wait_to cur) w h).
Qed.

Lemma puts_in cur w ws idle ws' idle' c :
  puts cur w (ws, idle) (ws', idle') ->
  (c ∈ ws' ≫= snd -> c = cur \/ c ∈ ws ≫= snd) /\ (c ∈ idle' -> c = cur \/ c ∈ idle).
Proof.
  inversion 1 as [|? l ? ws0 ? Hp]; subst; try rewrite Hp; rewrite ?bind_cons; cbn;
    split; rewrite ?elem_of_app, ?list_elem_of_singleton, ?elem_of_cons; tauto.
Qed.

(** [yield]: the current coroutine is suspended, in the wait list it names if
    any, and the last entry of the run queue goes on with the value. *)
Lemma yield_ok e q last ws idle w ws' idle' v rc rl :
  sched e (q ++ [last]) ws idle -> puts (curr_co e) w (ws, idle) (ws', idle') ->
  cos e !! curr_co e = Some rc -> cos e !! last = Some rl ->
  exists e', yield w v e = Done (e', Go (curr_co e) last false v) /\
    sched e' q ws' idle' /\ curr_co e' = last /\
    cos e' = <[last := with_state RUNNING rl]> (<[curr_co e := with_state SUSPEND rc]> (cos e)) /\ main e' = main e /\
    dispatch e' = dispatch e /\ exit_data e' = exit_data e /\ delay_cells e' = delay_cells e /\
    delay_del_task e' = delay_del_task e.
Proof.
  intros HS Hp Hc Hl. pose proof (sched_nodup _ _ _ _ HS) as Hnd. pose proof (puts_all _ _ _ _ _ _ q Hp) as Hall.
  assert (Hni : (last ∉ curr_co e :: q ++ (ws ≫= snd) ++ idle) /\ (curr_co e ∉ q)).
  { unfold all_of in Hnd. rewrite <-app_assoc in Hnd. cbn [app] in Hnd. rewrite <-(Permutation_middle q), (perm_swap last) in Hnd.
    apply NoDup_cons in Hnd as [Ha [Hb _]%NoDup_cons]. rewrite elem_of_app in Hb. tauto. }
  destruct Hni as [Hnl Hnc]. assert (Hne : curr_co e <> last) by (intros E; apply Hnl; rewrite E; left).
  destruct (pop_run_queue _ _ _ _ _ (s_rings _ _ _ _ HS)) as (h1 & E1 & HR1).
  rewrite (lists_of_perm _ ((run_queue, q) :: ws) _ (curr_co e :: [last] ++ idle) (reflexivity _) (perm_swap _ _ _)) in HR1.
  destruct (puts_cells _ _ _ _ _ _ _ _ _ HR1 Hp) as (h2 & E2 & HR2).
  unfold yield. rewrite (cells_empty _ _ _ _ _ (s_rings _ _ _ _ HS)), outcome_bind_ret.
  rewrite bool_decide_false by (by destruct q). rewrite E1, outcome_bind_ret. cbn [fst co_of wait_to]. rewrite outcome_bind_ret.
  rewrite wait_cells. cbn [cells set_cells set_curr snd]. rewrite E2, outcome_bind_ret.
  rewrite (upd_co_ok _ _ _ rc), outcome_bind_ret by done.
  rewrite (upd_co_ok _ _ _ rl), outcome_bind_ret by (cbn; by rewrite lookup_insert_ne).
  eexists. split; [done|]. split; [|done]. eapply (sched_moved e); [done|exact HR2|..]; cbn [cells cos curr_co set_cells set_cos set_curr].
  - rewrite Hall. unfold all_of. rewrite <-!app_assoc. cbn [app]. rewrite <-(Permutation_middle q). apply perm_swap.
  - intros c. rewrite !lookup_insert_is_Some'. split; [by intros [<-|[<-|]]|by auto].
  - intros c. by rewrite (puts_heads _ _ _ _ _ _ Hp).
  - intros c Hc'. unfold state_of. cbn. rewrite elem_of_cons in Hc'.
    destruct (decide (c = last)) as [->|]; [by rewrite lookup_insert_eq|rewrite lookup_insert_ne by done].
    destruct Hc' as [->|Hc']; [done|]. rewrite lookup_insert_ne by (by intros <-).
    apply (s_run _ _ _ _ HS). rewrite elem_of_cons, elem_of_app. auto.
  - intros c Hc'. unfold state_of. cbn. destruct (puts_in _ _ _ _ _ _ c Hp) as [Hx _]. specialize (Hx Hc').
    destruct (decide (c = curr_co e)) as [->|]; [by rewrite lookup_insert_ne, lookup_insert_eq by done|].
    destruct Hx as [|Hx]; [done|]. rewrite !lookup_insert_ne; [by apply (s_wait _ _ _ _ HS)|done|].
    intros ->. apply Hnl. rewrite elem_of_cons, !elem_of_app. tauto.
  - intros c Hc'. unfold state_of. cbn. destruct (puts_in _ _ _ _ _ _ c Hp) as [_ Hx]. specialize (Hx Hc').
    destruct (decide (c = curr_co e)) as [->|]; [rewrite lookup_insert_ne, lookup_insert_eq by done; right; left|].
    destruct Hx as [|Hx]; [done|]. rewrite !lookup_insert_ne; [by apply (s_idle _ _ _ _ HS)|done|].
    intros ->. apply Hnl. rewrite elem_of_cons, !elem_of_app. tauto.
Qed.

(** A yield of the main coroutine, which nothing resumed, aborts. *)
Lemma yield_empty e ws idle w v : sched e [] ws idle -> yield w v e = Fault.
Proof. intros HS. unfold yield. by rewrite (cells_empty _ _ _ _ _ (s_rings _ _ _ _ HS)). Qed.

(** ** The end of a coroutine *)

(** The dispatcher has the delayed tasks [ds], and delay_del_task is one of them
    or waits to be. *)
Definition disp_ok e (ds : list T) : Prop :=
  exists ts free, dispatch_repr (dispatch e) ts ds [] free /\ delay_del_task e ∈ ds ++ free /\
    delay_task_num (dispatch e) = u32 (Z.of_nat (length ds)).

(** The ended coroutines [dl] that wait for their deletion. *)
Definition delay_ok e (dl : list C) : Prop := rings (delay_cells e) (lists_of [(Head tt, dl)] []).

Definition ended data co (l : list C) ws : list (cell (co_head C Q) C * list C) :=
  (exit_notify_queue co, []) :: match l with [] => ws | _ => (Head (WaitList data), l) :: ws end.

Definition add_notify (task : T) (l : list C) (ds : list T) : list T := match l with [] => ds | _ => ds ++ [task] end.

Definition add_once (t : T) (ds : list T) : list T := if bool_decide (t ∈ ds) then ds else ds ++ [t].

Lemma u32_snoc {A} (l : list A) x : u32 (u32 (Z.of_nat (length l)) + 1) = u32 (Z.of_nat (length (l ++ [x]))).
Proof.
  rewrite length_app. cbn [length]. unfold u32. rewrite Z.add_mod_idemp_l by done. f_equal. lia.
Qed.

Lemma exit_notify_ok e co rq ws ws0 l idle ds v data task :
  rings (cells e) (lists_of ((run_queue, rq) :: ws) (co :: idle)) -> ws ≡ₚ (exit_notify_queue co, l) :: ws0 ->
  disp_ok e ds -> cells e !! Head (WaitList data) = None -> dcells (dispatch e) !! Member task = None ->
  exists h d m, exit_notify co v data task e = Done (set_dispatch d (set_exit_data m (set_cells h e))) /\
    rings h (lists_of ((run_queue, rq) :: ended data co l ws0) (co :: idle)) /\
    disp_ok (set_dispatch d e) (add_notify task l ds) /\
    (l <> [] -> m !! data = Some v /\ task_objs d !! task = Some (Task (proc_exit_notify data) true)).
Proof.
  intros HR Hws (ts & free & HD & Hdel & Hn) Hd Ht.
  rewrite (lists_of_perm _ ((exit_notify_queue co, l) :: (run_queue, rq) :: ws0) _ (co :: idle)) in HR;
    [|rewrite Hws; apply perm_swap|done].
  unfold exit_notify, exit_notify_queue in *. rewrite (cells_empty _ _ _ _ _ HR), outcome_bind_ret.
  destruct l as [|x l]; cbn [negb].
  - rewrite bool_decide_true by done. cbn [negb]. exists (cells e), (dispatch e), (exit_data e). split; [by destruct e|].
    split; [|split; [by exists ts, free|done]].
    by rewrite (lists_of_perm _ ((exit_notify_queue co, []) :: (run_queue, rq) :: ws0) _ (co :: idle) (perm_swap _ _ _) (reflexivity _)).
  - rewrite bool_decide_false by done. cbn [negb].
    destruct (cells_take_over _ (WaitList data) _ _ _ _ HR Hd) as (h1 & h2 & h3 & -> & E2 & E3 & HR3).
    rewrite outcome_bind_ret, E2, outcome_bind_ret, E3, outcome_bind_ret. cbn [dispatch set_exit_data set_cells exit_data].
    destruct (repr_registry_delay_task _ _ _ _ _ task (proc_exit_notify data) HD Ht) as (d & -> & HD' & _ & En & Eo).
    rewrite outcome_bind_ret. exists h3, d, (<[data := v]> (exit_data e)). split; [done|]. split_and!.
    + unfold ended, exit_notify_queue.
      rewrite <-(lists_of_perm ((Head (ExitQueue co), []) :: (Head (WaitList data), x :: l) :: (run_queue, rq) :: ws0) _ (co :: idle) _); [done| |done].
      symmetry. exact (Permutation_middle [(Head (ExitQueue co), []); (Head (WaitList data), x :: l)] ws0 (run_queue, rq)).
    + exists ts, free. cbn [dispatch set_dispatch delay_del_task add_notify]. split; [done|]. split; [set_solver|].
      by rewrite En, Hn, (u32_snoc ds task).
    + intros _. by rewrite Eo, !lookup_insert_eq.
Qed.

Lemma delay_delete_ok e co ds dl r :
  cos e !! co = Some r -> disp_ok e ds -> delay_ok e dl -> co ∉ dl ->
  exists h d, delay_delete co e = Done (set_dispatch d (set_delay h e)) /\
    disp_ok (set_dispatch d e) (if is_end_delete r then add_once (delay_del_task e) ds else ds) /\
    delay_ok (set_delay h e) (if is_end_delete r then dl ++ [co] else dl) /\ task_objs d = task_objs (dispatch e).
Proof.
  intros Hr (ts & free & HD & Hdel & Hn) HR Hni. unfold delay_delete. rewrite Hr. cbn [of_option]. rewrite outcome_bind_ret.
  destruct (is_end_delete r); [|exists (delay_cells e), (dispatch e); split; [by destruct e|]; split_and!; [by exists ts, free|done..]].
  unfold delay_ok in HR. assert (Hnb : Member co ∉ blocks (lists_of [(Head tt, dl)] [])).
  { rewrite blocks_lists_of. unfold members. cbn. rewrite !app_nil_r. rewrite elem_of_cons, list_elem_of_fmap.
    intros [|(x & E & Hx)]; [done|]. by simplify_eq. }
  assert (HR0 : rings (<[Member co := Link None None]> (delay_cells e)) (lists_of [(Head tt, dl)] [])).
  { apply (rings_cells (delay_cells e)); [|done]. intros c Hc. apply lookup_insert_ne. by intros <-. }
  destruct (rings_init _ _ (Member co) HR0) as (h1 & -> & HR1 & _); [apply alloc_Some; by rewrite lookup_insert_eq|done|].
  rewrite outcome_bind_ret. rewrite <-lists_of_free in HR1. destruct (cells_add_tail _ _ _ _ _ _ HR1) as (h2 & -> & HR2 & _).
  rewrite outcome_bind_ret. unfold add_once. case_bool_decide as Hin.
  - rewrite (repr_delay_queued _ _ _ _ _ _ HD) by by right. rewrite outcome_bind_ret. exists h2, (dispatch e).
    split; [done|]. split; [by exists ts, free|]. done.
  - assert (Hf : exists free', free ≡ₚ delay_del_task e :: free').
    { rewrite elem_of_app in Hdel. destruct Hdel as [|(l1 & l2 & ->)%list_elem_of_split]; [done|].
      exists (l1 ++ l2). by rewrite Permutation_middle. }
    destruct Hf as [free' Hf]. apply (dispatch_repr_perm _ _ _ _ [] _ (delay_del_task e :: free')) in HD; [|done..].
    destruct (repr_delay _ _ _ _ _ _ HD) as (d & -> & HD' & _ & En & Eo & _). rewrite outcome_bind_ret. exists h2, d.
    split; [done|]. split; [|done]. exists ts, free'. cbn [dispatch set_dispatch delay_del_task]. split; [done|].
    split; [set_solver|]. by rewrite En, Hn, (u32_snoc ds (delay_del_task e)).
Qed.

Lemma co_return_ok e co q last ws free rl :
  rings (cells e) (lists_of ((run_queue, q ++ [last]) :: ws) free) -> cos e !! last = Some rl ->
  exists h, co_return_p co e =
      Done (set_cos (<[last := with_state RUNNING rl]> (cos e)) (set_curr last (set_cells h e)), Go co last false (VInt 0)) /\
    rings h (lists_of ((run_queue, q) :: ws) (last :: free)).
Proof.
  intros HR Hl. unfold co_return_p. rewrite (cells_empty _ _ _ _ _ HR), outcome_bind_ret.
  rewrite bool_decide_false by by destruct q. pose proof HR as HR'. rewrite lists_of_cons in HR'.
  rewrite (rings_head_prev _ _ _ _ HR'), fmap_app. cbn [fmap list_fmap].
  rewrite (app_comm_cons (Member <$> q) _ run_queue), last_snoc. cbn [co_of mbind outcome_bind]. unfold on_cells, wait_to.
  destruct (cells_del_init _ _ _ _ _ _ _ HR) as (h & -> & HR2 & _). rewrite outcome_bind_ret. cbn [mbind outcome_bind].
  rewrite (upd_co_ok _ _ _ rl), outcome_bind_ret by done. exists h. split; [done|]. by rewrite app_nil_r in HR2.
Qed.

(** The scheduler with the dispatcher's delayed tasks [ds] and the list [dl] of
    ended coroutines to delete. *)
Record sys e rq ws idle ds dl : Prop := {
  y_sched : sched e rq ws idle;
  y_disp : disp_ok e ds;
  y_delay : delay_ok e dl;
  y_dead : forall c, c ∈ dl -> c ∈ idle /\ state_of e c = Some STOP;
  y_queued : dl <> [] -> delay_del_task e ∈ ds;
  y_exits : forall c, state_of e c = Some STOP -> (exit_notify_queue c, []) ∈ ws }.

Lemma ended_moved q data co l ws ws0 idle last :
  ws ≡ₚ (exit_notify_queue co, l) :: ws0 ->
  last :: all_of q (ended data co l ws0) (co :: idle) ≡ₚ co :: all_of (q ++ [last]) ws idle.
Proof.
  intros Hws. unfold all_of. rewrite Hws. assert (ended data co l ws0 ≫= snd = ((exit_notify_queue co, l) :: ws0) ≫= snd) as ->.
  { unfold ended. by destruct l. }
  rewrite <-app_assoc. cbn [app]. rewrite <-!Permutation_middle. apply perm_swap.
Qed.

Lemma ended_heads data co c l ws :
  exit_notify_queue c ∈ (ended data co l ws).*1 <-> exit_notify_queue c ∈ ((exit_notify_queue co, l) :: ws).*1.
Proof.
  unfold ended. destruct l; [done|]. rewrite !fmap_cons, !elem_of_cons. cbn. split; [|tauto].
  intros [|[Hx|]]; [by left|by inversion Hx|by right].
Qed.

Lemma ended_exits data co c l ws :
  c <> co -> (exit_notify_queue c, []) ∈ (exit_notify_queue co, l) :: ws -> (exit_notify_queue c, []) ∈ ended data co l ws.
Proof.
  intros Hne. rewrite elem_of_cons. intros [Hx|Hx]; [by inversion Hx|]. unfold ended. right. destruct l; [done|by right].
Qed.

Lemma ended_waits data co c l ws : c ∈ ended data co l ws ≫= snd -> c ∈ ((exit_notify_queue co, l) :: ws) ≫= snd.
Proof. unfold ended. by destruct l. Qed.

Lemma add_notify_in task l ds t : t ∈ ds -> t ∈ add_notify task l ds.
Proof. destruct l; [done|]. cbn. rewrite elem_of_app. auto. Qed.

(** The current coroutine ends: it is stopped with its result, its waiters wait
    in [data] for the dispatcher, and its resumer goes on. *)
Lemma co_exit_sys e q last ws ws0 l idle ds dl v data task rc rl :
  sys e (q ++ [last]) ws idle ds dl -> ws ≡ₚ (exit_notify_queue (curr_co e), l) :: ws0 ->
  cos e !! curr_co e = Some rc -> cos e !! last = Some rl ->
  cells e !! Head (WaitList data) = None -> dcells (dispatch e) !! Member task = None ->
  exists e', co_exit (curr_co e) v data task e = Done (e', Go (curr_co e) last false (VInt 0)) /\
    sys e' q (ended data (curr_co e) l ws0) (curr_co e :: idle)
      (if is_end_delete rc then add_once (delay_del_task e) (add_notify task l ds) else add_notify task l ds)
      (if is_end_delete rc then dl ++ [curr_co e] else dl) /\
    curr_co e' = last /\
    cos e' = <[last := with_state RUNNING rl]> (<[curr_co e := with_state STOP (with_ret v rc)]> (cos e)) /\
    delay_del_task e' = delay_del_task e /\
    (l <> [] -> exit_data e' !! data = Some v /\
      task_objs (dispatch e') !! task = Some (Task (proc_exit_notify data) true)).
Proof.
  intros [HS HD HL Hdead Hq Hex] Hws Hc Hl Hfd Hft. pose proof (sched_nodup _ _ _ _ HS) as Hnd.
  set (co := curr_co e) in *. unfold all_of in Hnd. rewrite <-app_assoc in Hnd. cbn [app] in Hnd.
  assert (Hne : co <> last /\ (co ∉ q) /\ (co ∉ idle) /\ (last ∉ idle) /\ (last ∉ ws ≫= snd) /\ (co ∉ ws ≫= snd) /\ (last ∉ q)).
  { rewrite <-(Permutation_middle q), (perm_swap last) in Hnd. apply NoDup_cons in Hnd as [Ha [Hb _]%NoDup_cons].
    rewrite elem_of_cons, !elem_of_app in Ha. rewrite !elem_of_app in Hb. split_and!; intuition congruence. }
  destruct Hne as (Hne & Hcq & Hci & Hli & Hlw & Hcw & Hlq).
  destruct (cells_del_init_detached _ _ _ _ (s_rings _ _ _ _ HS)) as (h1 & E1 & HR1 & Hs1).
  unfold co_exit. rewrite (upd_co_ok co _ e rc), outcome_bind_ret by done. unfold on_cells, wait_to. cbn [cells set_cos].
  fold co in E1. rewrite E1. cbn [mbind outcome_bind].
  set (e1 := set_cells h1 (set_cos (<[co := with_state STOP (with_ret v rc)]> (cos e)) e)).
  destruct (exit_notify_ok e1 co (q ++ [last]) ws ws0 l idle ds v data task) as (h2 & d2 & m2 & -> & HR2 & HD2 & Hm);
    [done|done|exact HD|by eapply same_cells_None|done|]. cbn [mbind outcome_bind].
  set (e2 := set_dispatch d2 (set_exit_data m2 (set_cells h2 e1))).
  destruct (delay_delete_ok e2 co (add_notify task l ds) dl (with_state STOP (with_ret v rc)))
    as (h3 & d3 & -> & HD3 & HL3 & Ht3); [cbn; by rewrite lookup_insert_eq|exact HD2|exact HL| |].
  { by intros [? _]%Hdead. }
  cbn [mbind outcome_bind].
  set (e3 := set_dispatch d3 (set_delay h3 e2)).
  destruct (co_return_ok e3 co q last (ended data co l ws0) (co :: idle) rl) as (h4 & -> & HR4);
    [done|cbn; by rewrite lookup_insert_ne|].
  eexists. split; [done|]. cbn [is_end_delete with_state with_ret] in *. split; [|split_and!; [done..|]; cbn; rewrite Ht3; exact Hm].
  destruct HD3 as (ts & free & HD3 & Hin3 & Hn3). split.
  - eapply (sched_moved e); [done|exact HR4|..]; cbn [cells cos curr_co set_cells set_cos set_curr].
    + by apply ended_moved.
    + intros c. cbn. rewrite !lookup_insert_is_Some'. split; [by intros [<-|[<-|]]|by auto].
    + intros c. rewrite (ended_heads data co c l ws0). by rewrite Hws.
    + intros c Hcr. unfold state_of. cbn. rewrite elem_of_cons in Hcr.
      destruct (decide (c = last)) as [->|]; [by rewrite lookup_insert_eq|]. destruct Hcr as [|Hcr]; [done|].
      rewrite !lookup_insert_ne by congruence. apply (s_run _ _ _ _ HS). rewrite elem_of_cons, elem_of_app. auto.
    + intros c Hcw'. unfold state_of. cbn.
      assert (Hin : c ∈ ws ≫= snd) by (rewrite Hws; by apply (ended_waits data co c l ws0)).
      rewrite !lookup_insert_ne by (by intros <-). by apply (s_wait _ _ _ _ HS).
    + intros c Hcw'. unfold state_of. cbn. rewrite elem_of_cons in Hcw'.
      destruct (decide (c = co)) as [->|]; [rewrite lookup_insert_ne, lookup_insert_eq by done; right; right; left|].
      destruct Hcw' as [|Hcw']; [done|]. rewrite !lookup_insert_ne by (by intros <-). by apply (s_idle _ _ _ _ HS).
  - by exists ts, free.
  - exact HL3.
  - intros c Hcd. unfold state_of. cbn. assert (Hc' : c = co \/ c ∈ dl).
    { destruct (is_end_delete rc); [|by right]. rewrite elem_of_app, list_elem_of_singleton in Hcd. tauto. }
    destruct (decide (c = co)) as [->|]; [split; [left|by rewrite lookup_insert_ne, lookup_insert_eq]|].
    destruct Hc' as [|Hc']; [done|]. destruct (Hdead c Hc') as [Hi Hst]. split; [by right|].
    by rewrite !lookup_insert_ne by (by intros <-).
  - intros Hdl. cbn. destruct (is_end_delete rc); [|by apply add_notify_in, Hq].
    unfold add_once. case_bool_decide; [done|]. rewrite elem_of_app. right. left.
  - intros c. unfold state_of. cbn. destruct (decide (c = co)) as [->|]; [intros _; unfold ended; left|].
    destruct (decide (c = last)) as [->|]; [by rewrite lookup_insert_eq|]. rewrite !lookup_insert_ne by done.
    intros Hst%Hex. rewrite Hws in Hst. by apply (ended_exits data co c l ws0).
Qed.

(** One pass of proc_exit_notify wakes the first waiter with the result. *)
Lemma notify_one_sched e rq ws idle data it l v :
  sched e rq ((Head (WaitList data), it :: l) :: ws) idle -> exit_data e !! data = Some v ->
  exists e', notify_one data (wait_to it) e = Done (e', Go (curr_co e) it false (VInt v)) /\
    sched e' (rq ++ [curr_co e]) ((Head (WaitList data), l) :: ws) idle /\ curr_co e' = it /\ exit_data e' = exit_data e.
Proof.
  intros HS Hv. pose proof HS as [HR HC HH Hr Hw Hi].
  assert (Hst : state_of e it = Some SUSPEND) by (apply Hw; rewrite bind_cons; left).
  unfold state_of in Hst. apply fmap_Some in Hst as (r & Hrr & Hs).
  rewrite (lists_of_perm _ ((Head (WaitList data), it :: l) :: (run_queue, rq) :: ws) _ (curr_co e :: idle)) in HR;
    [|apply perm_swap|done].
  destruct (cells_del_init _ _ [] _ _ _ _ HR) as (h & E & HR' & _). cbn [app] in HR'.
  assert (HS1 : sched (set_cells h e) rq ((Head (WaitList data), l) :: ws) (it :: idle)).
  { eapply (sched_moved _ _ _ _ _ _ _ _ HS); cbn [cells cos curr_co set_cells]; try done.
    - rewrite (lists_of_perm _ ((Head (WaitList data), l) :: (run_queue, rq) :: ws) _ (it :: curr_co e :: idle));
        [done|apply perm_swap|apply perm_swap].
    - unfold all_of. rewrite !bind_cons. cbn [snd]. by rewrite <-(Permutation_middle (l ++ _)).
    - intros c Hc. apply Hw. rewrite bind_cons in Hc |- *. by right.
    - intros c. rewrite elem_of_cons. intros [->|Hc]; [|by apply Hi]. unfold state_of. cbn. rewrite Hrr. cbn. rewrite <-Hs. right. left. }
  destruct (resume_ok _ _ _ _ rq _ idle it (VInt v) r HS1 Hrr (take_idle _ _ _ _ _ (reflexivity _)))
    as (e' & E' & HS' & Hcur & _ & _ & _ & Hx & _).
  unfold notify_one, on_cells, wait_to. rewrite E. cbn [mbind outcome_bind co_of cos set_cells exit_data]. rewrite Hrr, Hv.
  cbn [mbind outcome_bind of_option]. rewrite <-Hs in *. cbn [Z.ltb]. change (SUSPEND <? STOP) with true. cbn iota.
  exists e'. rewrite E'. by split_and!.
Qed.

(** wait: the result of an ended coroutine, or a yield into its exit queue. *)
Lemma wait_yield e co r :
  cos e !! co = Some r -> state r < STOP -> wait co e = yield (Some (exit_notify_queue co)) (VInt 0) e.
Proof. intros Hr Hs. unfold wait. rewrite Hr. cbn [of_option]. rewrite outcome_bind_ret. by rewrite (proj2 (Z.leb_gt _ _)). Qed.

Lemma wait_stopped e co r : cos e !! co = Some r -> STOP <= state r -> wait co e = Done (e, Return (VInt (ret_val r))).
Proof. intros Hr Hs. unfold wait. rewrite Hr. cbn [of_option]. rewrite outcome_bind_ret. by rewrite (proj2 (Z.leb_le _ _)). Qed.

(** ** The other operations on the whole state *)

Lemma takes_exits co rq ws idle rq' ws' idle' (k : cell (co_head C Q) C) :
  takes co (rq, ws, idle) (rq', ws', idle') -> (k, []) ∈ ws -> (k, []) ∈ ws'.
Proof.
  inversion 1 as [? ? ? ? Hp|l1 l2 ? ?|? k' l1 l2 ? ws0 ? Hp]; subst; [done|done|]. rewrite Hp, !elem_of_cons.
  intros [[= _ Hx]|?]; [by destruct l1|by right].
Qed.

Lemma takes_idle co rq ws idle rq' ws' idle' c :
  takes co (rq, ws, idle) (rq', ws', idle') -> c <> co -> c ∈ idle -> c ∈ idle'.
Proof.
  inversion 1 as [? ? ? ? Hp|l1 l2 ? ?|? k l1 l2 ? ws0 ? Hp]; subst; [|done|done]. rewrite Hp, elem_of_cons. tauto.
Qed.

Lemma resume_sys e rq ws idle ds dl rq' ws' idle' co v r :
  sys e rq ws idle ds dl -> cos e !! co = Some r -> state r <> STOP -> takes co (rq, ws, idle) (rq', ws', idle') ->
  exists e', resume co v e =
      Done (e', Go (curr_co e) co (bool_decide (state r = CREATE)) (if bool_decide (state r = CREATE) then VCo co else v)) /\
    sys e' (rq' ++ [curr_co e]) ws' idle' ds dl /\ curr_co e' = co /\ cos e' = <[co := with_state RUNNING r]> (cos e).
Proof.
  intros [HS HD HL Hdead Hq Hex] Hr Hst Ht.
  destruct (resume_ok _ _ _ _ _ _ _ _ v _ HS Hr Ht) as (e' & E & HS' & Hcur & Hcos & _ & Hdis & _ & Hdel & Hdt).
  exists e'. split; [done|]. split; [|done]. split; [done| | | | |].
  - unfold disp_ok in *. by rewrite Hdis, Hdt.
  - unfold delay_ok in *. by rewrite Hdel.
  - intros c Hc. destruct (Hdead c Hc) as [Hi Hs]. assert (c <> co).
    { intros ->. unfold state_of in Hs. rewrite Hr in Hs. by injection Hs. }
    split; [by eapply takes_idle|]. unfold state_of. by rewrite Hcos, lookup_insert_ne.
  - by rewrite Hdt.
  - intros c. unfold state_of. rewrite Hcos. destruct (decide (c = co)) as [->|]; [by rewrite lookup_insert_eq|].
    rewrite lookup_insert_ne by done. intros Hx. eapply takes_exits; [done|by apply Hex].
Qed.

Lemma puts_exits cur w ws idle ws' idle' (k : cell (co_head C Q) C) :
  puts cur w (ws, idle) (ws', idle') -> w <> Some k -> (k, []) ∈ ws -> (k, []) ∈ ws'.
Proof.
  inversion 1 as [|? l ? ws0 ? Hp]; subst; [done|]. rewrite Hp, !elem_of_cons. intros Hne [[= -> _]|?]; [done|by right].
Qed.

Lemma puts_idle cur w ws idle ws' idle' c : puts cur w (ws, idle) (ws', idle') -> c ∈ idle -> c ∈ idle'.
Proof. inversion 1; subst; [by right|done]. Qed.

Lemma yield_sys e q last ws idle ds dl w ws' idle' v rc rl :
  sys e (q ++ [last]) ws idle ds dl -> puts (curr_co e) w (ws, idle) (ws', idle') ->
  cos e !! curr_co e = Some rc -> cos e !! last = Some rl ->
  (forall c, w = Some (exit_notify_queue c) -> state_of e c <> Some STOP) ->
  exists e', yield w v e = Done (e', Go (curr_co e) last false v) /\
    sys e' q ws' idle' ds dl /\ curr_co e' = last /\
    cos e' = <[last := with_state RUNNING rl]> (<[curr_co e := with_state SUSPEND rc]> (cos e)).
Proof.
  intros [HS HD HL Hdead Hq Hex] Hp Hc Hl Hw.
  destruct (yield_ok _ _ _ _ _ _ _ _ v _ _ HS Hp Hc Hl) as (e' & E & HS' & Hcur & Hcos & _ & Hdis & _ & Hdel & Hdt).
  assert (Hst : forall c, state_of e' c = Some STOP -> state_of e c = Some STOP).
  { intros c. unfold state_of. rewrite Hcos. destruct (decide (c = last)) as [->|]; [by rewrite lookup_insert_eq|].
    destruct (decide (c = curr_co e)) as [->|]; [by rewrite lookup_insert_ne, lookup_insert_eq|].
    by rewrite !lookup_insert_ne. }
  exists e'. split; [done|]. split; [|done]. split; [done| | | | |].
  - unfold disp_ok in *. by rewrite Hdis, Hdt.
  - unfold delay_ok in *. by rewrite Hdel.
  - intros c Hcd. destruct (Hdead c Hcd) as [Hi Hs]. split; [by eapply puts_idle|].
    assert (Hrun : c ∉ curr_co e :: q ++ [last]).
    { intros Hx%(s_run _ _ _ _ HS). by rewrite Hs in Hx. }
    rewrite elem_of_cons, elem_of_app, list_elem_of_singleton in Hrun.
    unfold state_of. rewrite Hcos, !lookup_insert_ne by (intros <-; tauto). done.
  - by rewrite Hdt.
  - intros c Hx%Hst. eapply puts_exits; [done| |by apply Hex]. intros ->. by apply (Hw c).
Qed.

(** ** The deletion of ended coroutines *)

Lemma heads_nodup h rq ws free : rings h (lists_of ((run_queue, rq) :: ws) free) -> NoDup (run_queue :: ws.*1).
Proof. intros [Hnd _]. rewrite blocks_lists_of in Hnd. by apply NoDup_app in Hnd as [? _]. Qed.

(** e after free_coroutine(c), and after the task of [c] is unlinked. *)
Definition freed (h : heap (cell unit C)) c e : env C Q T :=
  set_delay h (set_cells (delete (wait_to c) (delete (exit_notify_queue c) (cells e))) (set_cos (delete c (cos e)) e)).

Lemma sched_free h e rq ws idle c :
  sched e rq ((exit_notify_queue c, []) :: ws) (c :: idle) -> sched (freed h c e) rq ws idle.
Proof.
  intros HS. pose proof HS as [HR HC HH Hr Hw Hi]. pose proof (sched_nodup _ _ _ _ HS) as Hnd.
  assert (Hni : c ∉ curr_co e :: all_of rq ws idle).
  { unfold all_of in Hnd. rewrite bind_cons in Hnd. cbn [snd app] in Hnd.
    rewrite <-(Permutation_middle (ws ≫= snd)), <-(Permutation_middle rq), (perm_swap c) in Hnd. by apply NoDup_cons in Hnd as []. }
  assert (Hne : c <> curr_co e /\ (c ∉ rq) /\ (c ∉ ws ≫= snd) /\ (c ∉ idle)).
  { unfold all_of in Hni. rewrite elem_of_cons, !elem_of_app in Hni. tauto. }
  destruct Hne as (Hc1 & Hc2 & Hc3 & Hc4).
  pose proof (heads_nodup _ _ _ _ HR) as Hhd. rewrite fmap_cons in Hhd. apply NoDup_cons in Hhd as [_ [Hex _]%NoDup_cons].
  assert (Hdel : forall c', state_of (freed h c e) c' = if bool_decide (c' = c) then None else state_of e c').
  { intros c'. unfold state_of, freed. cbn. case_bool_decide as E; [by rewrite E, lookup_delete_eq|by rewrite lookup_delete_ne]. }
  split.
  - rewrite (lists_of_perm _ ((exit_notify_queue c, []) :: (run_queue, rq) :: ws) _ (c :: curr_co e :: idle)) in HR;
      [|apply perm_swap|apply perm_swap].
    apply cells_drop, cells_drop_member in HR. exact HR.
  - intros c'. rewrite members_all. unfold freed. cbn [cos set_cos set_cells set_delay curr_co].
    rewrite lookup_delete_is_Some, <-(sched_member _ _ _ _ c' HS). unfold all_of in *.
    rewrite bind_cons. cbn [snd app]. rewrite !elem_of_cons, !elem_of_app, !elem_of_cons in *. split.
    + intros Hc'. split; [by intros ->; tauto|tauto].
    + intros [Hne Hc']. assert (c' <> c) by done. tauto.
  - intros c'. cbn. rewrite lookup_delete_is_Some, <-HH, fmap_cons, elem_of_cons. cbn. split.
    + intros Hin. split; [by intros ->|by right].
    + by intros [Hne [[= ->]|Hin]].
  - intros c' Hc'. rewrite Hdel, bool_decide_false; [by apply Hr|]. intros ->. cbn in Hc'. rewrite elem_of_cons in Hc'. tauto.
  - intros c' Hc'. rewrite Hdel, bool_decide_false; [apply Hw; by rewrite bind_cons|by intros ->].
  - intros c' Hc'. rewrite Hdel, bool_decide_false; [apply Hi; by right|by intros ->].
Qed.

Definition exits (l : list C) : list (cell (co_head C Q) C * list C) := (fun c => (exit_notify_queue c, [])) <$> l.

(** The users' destructors keep out of the scheduler: they do not start, resume or end
    coroutines, and touch no coroutine's structure. *)
Record quiet e e' : Prop := {
  q_cells : cells e' = cells e;
  q_cos : cos e' = cos e;
  q_curr : curr_co e' = curr_co e;
  q_delay : delay_cells e' = delay_cells e;
  q_task : delay_del_task e' = delay_del_task e;
  q_disp : dispatch e' = dispatch e }.

Section deletion.
Context (destructor : nat -> Z -> env C Q T -> outcome (env C Q T)).
Context (destructor_ok : forall d n e, exists e', destructor d n e = Done e' /\ quiet e e' /\ destroyed e' = destroyed e).

Definition dtor_calls (bs : list gc_obj) : list (nat * Z) :=
  bs ≫= fun b => match gc_dtor b with Some d => [(d, gc_num b)] | None => [] end.

(** The destructor calls that the end of coroutine [c] makes. *)
Definition destroys e c : list (nat * Z) :=
  match cos e !! c with Some r => dtor_calls (default [] (gc_mgr r)) | None => [] end.

Lemma sched_quiet e e' rq ws idle : quiet e e' -> sched e rq ws idle -> sched e' rq ws idle.
Proof.
  intros [Hc Ho Hcu _ _ _] [HR HC HH Hr Hw Hi]. split; unfold state_of; rewrite ?Hc, ?Ho, ?Hcu; done.
Qed.

Lemma gc_free_all_ok bs : forall e, exists e', gc_free_all destructor bs e = Done e' /\ quiet e e' /\
  destroyed e' = destroyed e ++ dtor_calls bs.
Proof.
  induction bs as [|[[d|] n] bs IH]; intros e; cbn [gc_free_all].
  - exists e. split; [done|]. split; [done|]. by rewrite app_nil_r.
  - destruct (destructor_ok d n e) as (e1 & -> & [] & Hd). cbn [mbind outcome_bind].
    destruct (IH (set_destroyed (destroyed e1 ++ [(d, n)]) e1)) as (e2 & -> & [] & Hd2). exists e2. split; [done|].
    split; [split; etransitivity; eassumption|]. rewrite Hd2. cbn. rewrite Hd. by rewrite <-app_assoc.
  - cbn [mbind outcome_bind]. apply IH.
Qed.

(** free_coroutine, with the task_t of the coroutine unlinked. *)
Lemma free_coroutine_ok h e rq ws idle c :
  sched e rq ((exit_notify_queue c, []) :: ws) (c :: idle) ->
  exists e', free_coroutine destructor c (set_delay h e) = Done e' /\ sched e' rq ws idle /\ delay_cells e' = delete (Member c) h /\
    curr_co e' = curr_co e /\ dispatch e' = dispatch e /\ delay_del_task e' = delay_del_task e /\ cos e' = delete c (cos e) /\
    destroyed e' = destroyed e ++ destroys e c.
Proof.
  intros HS. assert (Hc : is_Some (cos e !! c)).
  { apply (sched_member _ _ _ _ c HS). right. unfold all_of. rewrite !elem_of_app. right. right. left. }
  destruct Hc as [r Hc]. unfold free_coroutine, destroys. cbn [cos set_delay]. rewrite Hc. cbn [of_option]. rewrite outcome_bind_ret.
  assert (Hgc : exists e1 r1, (match gc_mgr r with
       | Some bs => e ← gc_free_all destructor bs (set_delay h e); upd_co c (with_gc None) e
       | None => Done (set_delay h e)
       end) = Done e1 /\ cells e1 = cells e /\ cos e1 !! c = Some r1 /\ delete c (cos e1) = delete c (cos e) /\
     curr_co e1 = curr_co e /\ dispatch e1 = dispatch e /\ delay_del_task e1 = delay_del_task e /\ delay_cells e1 = h /\
     destroyed e1 = destroyed e ++ dtor_calls (default [] (gc_mgr r))).
  { destruct (gc_mgr r) as [bs|]; [|eexists _, r; by rewrite app_nil_r].
    destruct (gc_free_all_ok bs (set_delay h e)) as (e1 & -> & [Q1 Q2 Q3 Q4 Q5 Q6] & Hd). cbn [mbind outcome_bind].
    cbn [cos set_delay] in Q2. rewrite (upd_co_ok c _ e1 r) by (by rewrite Q2). eexists _, _. split; [done|].
    cbn [set_cos cells cos curr_co dispatch delay_del_task delay_cells destroyed]. rewrite lookup_insert_eq, delete_insert_eq, Q2.
    by split_and!. }
  destruct Hgc as (e1 & r1 & -> & G1 & G2 & G3 & G4 & G5 & G6 & G7 & G8). cbn [mbind outcome_bind].
  rewrite (upd_co_ok c _ e1 r1 G2). cbn [mbind outcome_bind]. eexists. split; [done|].
  cbn [set_delay set_cells set_cos cells cos curr_co dispatch delay_del_task delay_cells destroyed].
  rewrite delete_insert_eq, G3, G7. split; [|done].
  apply (sched_free (delete (Member c) h)) in HS. eapply sched_quiet; [|exact HS].
  split; cbn; (congruence || by rewrite ?G1, ?G3, ?G7).
Qed.

(** The loop of do_delay_del_co_task frees the coroutines of its list. *)
Lemma delay_loop sp fuel e rq ws idle (dl : list C) :
  sched e rq (exits dl ++ ws) (dl ++ idle) -> rings (delay_cells e) (lists_of [(Local sp, dl); (Head tt, [])] []) ->
  (length dl <= fuel)%nat ->
  exists e', list_for_each_safe delay_cells (Local sp) (delay_body destructor) fuel e = Done e' /\
    sched e' rq ws idle /\ rings (delay_cells e') (lists_of [(Local sp, []); (Head tt, [])] []) /\
    curr_co e' = curr_co e /\ dispatch e' = dispatch e /\ (forall c, c ∈ dl -> cos e' !! c = None) /\
    (forall c, c ∉ dl -> cos e' !! c = cos e !! c) /\ destroyed e' = destroyed e ++ (dl ≫= destroys e).
Proof.
  intros HS HR Hf. assert (Hnd : NoDup dl).
  { pose proof (sched_nodup _ _ _ _ HS) as Hx. unfold all_of in Hx. apply NoDup_cons in Hx as [_ Hx].
    by apply NoDup_app in Hx as (_ & _ & (_ & _ & (Hx & _)%NoDup_app)%NoDup_app). }
  pose (Inv := fun (rem : list (cell unit C)) (s : env C Q T) => exists done rem', rem = Member <$> rem' /\ dl = done ++ rem' /\
    sched s rq (exits rem' ++ ws) (rem' ++ idle) /\ rings (delay_cells s) (lists_of [(Local sp, rem'); (Head tt, [])] []) /\
    curr_co s = curr_co e /\ dispatch s = dispatch e /\ (forall c, c ∈ done -> cos s !! c = None) /\
    (forall c, c ∉ done -> cos s !! c = cos e !! c) /\ destroyed s = destroyed e ++ (done ≫= destroys e)).
  pose proof HR as HR0. rewrite lists_of_cons in HR0.
  destruct (list_for_each_safe_rule delay_cells (Local sp) _ _ (delay_body destructor) Inv (Inv []) e fuel HR0)
    as (e' & E & seen & rem' & Erem & Edl & HS' & HR' & Hrest).
  - intros rem s (done & rem' & -> & _ & _ & HRs & _). rewrite lists_of_cons in HRs. by eapply (rings_follows_next _ _ []).
  - done.
  - intros x rem s (done & rem' & Erem & Edl & HSs & HRs & Hcur & Hdis & Hgone & Hkept & Hds).
    destruct rem' as [|c rem']; [done|]. rewrite fmap_cons in Erem. injection Erem as -> ->.
    destruct (cells_del_init _ _ [] _ _ _ _ HRs) as (h1 & E1 & HR1 & _). cbn [app] in HR1.
    unfold exits in HSs. rewrite fmap_cons in HSs. cbn [app] in HSs.
    destruct (free_coroutine_ok h1 s rq _ _ c HSs) as (s' & E2 & HSs' & Hdc & F1 & F2 & _ & F3 & F4).
    unfold delay_body. rewrite E1. cbn [mbind outcome_bind]. rewrite E2. cbn [mbind outcome_bind]. eexists false, s'. split; [done|].
    assert (Hcn : c ∉ done).
    { rewrite Edl in Hnd. apply NoDup_app in Hnd as (_ & Hdj & _). intros Hin. apply (Hdj c Hin). left. }
    exists (done ++ [c]), rem'. split_and!; [done|by rewrite <-app_assoc|exact HSs'| |congruence|congruence| | |].
    + rewrite Hdc. by apply cells_drop_member.
    + intros c' Hc'. rewrite F3. rewrite elem_of_app, list_elem_of_singleton in Hc'. rewrite lookup_delete_None.
      destruct Hc' as [Hc'| ->]; [right; by apply Hgone|by left].
    + intros c' Hc'. rewrite F3. rewrite elem_of_app, list_elem_of_singleton in Hc'. rewrite lookup_delete_ne by (intros ->; tauto).
      apply Hkept. tauto.
    + rewrite F4, Hds, bind_app, bind_cons. cbn. rewrite app_nil_r, <-app_assoc. unfold destroys at 2 4. by rewrite (Hkept c Hcn).
  - exists [], dl. split_and!; try done; [by intros c ?%elem_of_nil|by rewrite app_nil_r].
  - by rewrite length_fmap.
  - symmetry in Erem. apply fmap_nil_inv in Erem as ->. rewrite app_nil_r in Edl. subst seen. exists e'.
    destruct Hrest as (? & ? & ? & ? & ?). by split_and!.
Qed.

(** do_delay_del_co_task frees the ended coroutines that wait for it, and only
    them. *)
Lemma do_delay_del_sched e rq ws idle dl sp fuel :
  sched e rq (exits dl ++ ws) (dl ++ idle) -> delay_ok e dl ->
  delay_cells e !! Local sp = None -> delay_cells e !! Local (S sp) = None -> (length dl <= fuel)%nat ->
  exists e', do_delay_del destructor sp fuel e = Done e' /\
    sched e' rq ws idle /\ delay_ok e' [] /\ curr_co e' = curr_co e /\ dispatch e' = dispatch e /\
    (forall c, c ∈ dl -> cos e' !! c = None) /\ (forall c, c ∉ dl -> cos e' !! c = cos e !! c) /\
    destroyed e' = destroyed e ++ (dl ≫= destroys e).
Proof.
  intros HS HR H0' H1' Hf. destruct (cells_LIST_HEAD _ _ _ _ HR H0') as (h1 & E1 & HR1).
  assert (Hm : h1 !! Local (S sp) = None).
  { unfold LIST_HEAD in E1. rewrite H0' in E1. injection E1 as <-. rewrite lookup_insert_ne; [done|]. intros [=]. lia. }
  destruct (cells_swap _ _ _ _ _ _ _ _ HR1 Hm) as (h2 & E2 & HR2 & _).
  unfold do_delay_del. rewrite E1, outcome_bind_ret, E2, outcome_bind_ret.
  destruct (delay_loop sp fuel (set_delay h2 e) rq ws idle dl) as (e' & -> & HS' & HR' & Hrest);
    [destruct HS; by split|done|done|]. cbn [mbind outcome_bind]. eexists. split; [done|]. split; [destruct HS'; by split|].
  split; [|done]. by apply cells_drop in HR'.
Qed.
End deletion.

(** ** The start *)

(** After the constructor of coroutine_env_t the main coroutine is current and in
    the run queue as well; the coroutines [idle] have been made since. *)
Record booted e idle : Prop := {
  b_rings : rings (cells e) (lists_of ((run_queue, [curr_co e]) :: exits (curr_co e :: idle)) idle);
  b_cos : forall c, c ∈ curr_co e :: idle <-> is_Some (cos e !! c);
  b_main : state_of e (curr_co e) = Some RUNNING;
  b_idle : forall c, c ∈ idle -> state_of e c = Some CREATE;
  b_disp : disp_ok e [];
  b_delay : delay_ok e [] }.

Lemma exits_waits l : exits l ≫= snd = [].
Proof. by induction l. Qed.

Lemma exits_heads l c : exit_notify_queue c ∈ (exits l).*1 <-> c ∈ l.
Proof.
  unfold exits. rewrite <-list_fmap_compose, list_elem_of_fmap. split; [by intros (x & [= ->] & ?)|intros; by exists c].
Qed.

Lemma exits_in c l : c ∈ l -> (exit_notify_queue c, []) ∈ exits l.
Proof. intros Hc. unfold exits. apply list_elem_of_fmap. by exists c. Qed.

Lemma booted_sched e idle :
  booted e idle -> exists h, list_del_init (wait_to (curr_co e)) (cells e) = Done h /\
    sched (set_cells h e) [] (exits (curr_co e :: idle)) idle.
Proof.
  intros [HR HC Hm Hi _ _]. destruct (cells_del_init _ _ [] _ [] _ _ HR) as (h & E & HR' & _). exists h. split; [exact E|].
  split; cbn [cells set_cells cos curr_co].
  - exact HR'.
  - intros c. rewrite members_all. unfold all_of. rewrite exits_waits. apply HC.
  - intros c. by rewrite exits_heads.
  - by intros c ->%list_elem_of_singleton.
  - intros c. rewrite exits_waits. by intros ?%elem_of_nil.
  - intros c Hc. change (state_of (set_cells h e) c) with (state_of e c). rewrite (Hi c Hc). left.
Qed.

(** The first resume makes the state regular. *)
Lemma boot_resume e idle co idle' v :
  booted e idle -> idle ≡ₚ co :: idle' ->
  exists e', resume co v e = Done (e', Go (curr_co e) co true (VCo co)) /\
    sys e' [curr_co e] (exits (curr_co e :: idle)) idle' [] [] /\ curr_co e' = co.
Proof.
  intros HB Hp. destruct (booted_sched e idle HB) as (h & E & HS). destruct HB as [HR HC Hm Hi HD HL].
  assert (Hst : state_of e co = Some CREATE) by (apply Hi; rewrite Hp; left).
  unfold state_of in Hst. apply fmap_Some in Hst as (r & Hr & Hs).
  pose proof (sched_nodup _ _ _ _ HS) as Hnd. unfold all_of in Hnd. rewrite exits_waits, Hp in Hnd. cbn in Hnd.
  apply NoDup_cons in Hnd as [Hnc [Hnco _]%NoDup_cons]. rewrite elem_of_cons in Hnc.
  pose proof HR as HR0. rewrite (lists_of_perm _ _ idle (co :: idle') (reflexivity _) Hp) in HR0.
  pose proof (s_rings _ _ _ _ HS) as HR1. cbn [cells set_cells curr_co] in HR1.
  rewrite (lists_of_perm _ _ (curr_co e :: idle) (curr_co e :: co :: idle')) in HR1 by (by rewrite ?Hp).
  destruct (cells_add_tail _ _ _ _ _ _ HR1) as (h2 & E2 & HR2 & _).
  unfold resume. change (cos (set_curr co e)) with (cos e). rewrite Hr. cbn [of_option]. rewrite outcome_bind_ret.
  rewrite (upd_co_ok co _ (set_curr co e) r), outcome_bind_ret by done. cbn [cells set_cos set_curr wait_to].
  unfold wait_to in *. rewrite (cells_empty_detached _ _ _ _ HR0), outcome_bind_ret. cbn [negb]. rewrite outcome_bind_ret.
  unfold on_cells. cbn [cells set_cos set_curr]. rewrite E. cbn [mbind outcome_bind cells set_cells]. rewrite E2. cbn [mbind outcome_bind].
  rewrite <-Hs, Z.eqb_refl. eexists. split; [done|]. split; [|done].
  assert (Hstate : forall c, c <> co -> <[co:=with_state RUNNING r]> (cos e) !! c = cos e !! c) by (intros; by apply lookup_insert_ne).
  split; [|done|done|by intros c ?%elem_of_nil|done|].
  - eapply (sched_moved _ _ _ _ _ _ _ _ HS); [exact HR2|..]; cbn [cells cos curr_co set_cells set_cos set_curr].
    + unfold all_of. rewrite exits_waits, Hp. cbn. apply perm_swap.
    + intros c. rewrite lookup_insert_is_Some'. split; [by intros [<-|]|by right].
    + done.
    + intros c Hc. unfold state_of. cbn. destruct (decide (c = co)) as [->|]; [by rewrite lookup_insert_eq|].
      rewrite Hstate by done. rewrite elem_of_cons, list_elem_of_singleton in Hc. by destruct Hc as [| ->].
    + intros c. rewrite exits_waits. by intros ?%elem_of_nil.
    + intros c Hc. unfold state_of. cbn. rewrite Hstate by (by intros ->).
      assert (Hc' : state_of e c = Some CREATE) by (apply Hi; rewrite Hp; by right). unfold state_of in Hc'. rewrite Hc'. left.
  - intros c. unfold state_of. cbn. destruct (decide (c = co)) as [->|]; [by rewrite lookup_insert_eq|]. rewrite Hstate by done.
    intros Hx. apply (exits_in c (curr_co e :: idle)), HC. by destruct (cos e !! c).
Qed.

(** alloc_coroutine before the start. *)
Lemma booted_alloc e idle co size :
  booted e idle -> cos e !! co = None ->
  cells e !! wait_to co = None -> cells e !! exit_notify_queue co = None ->
  exists e', alloc_coroutine co size e = Done e' /\ booted e' (co :: idle) /\ curr_co e' = curr_co e.
Proof.
  intros [HR HC Hm Hi HD HL] Hn Hw Hx. unfold alloc_coroutine. rewrite Hn. unfold init_coroutine. cbn [cells set_cells].
  assert (HR0 : rings (<[wait_to co := Link None None]> (<[exit_notify_queue co := Link None None]> (cells e)))
    (lists_of ((run_queue, [curr_co e]) :: exits (curr_co e :: idle)) idle)).
  { apply rings_insert_fresh; [by rewrite lookup_insert_ne|by apply rings_insert_fresh]. }
  assert (Hnb : forall k, cells e !! k = None -> k ∉ blocks (lists_of ((run_queue, [curr_co e]) :: exits (curr_co e :: idle)) idle)).
  { intros k Hk Hin%(rings_alloc _ _ _ HR)%alloc_Some. rewrite Hk in Hin. by destruct Hin. }
  destruct (rings_init _ _ (wait_to co) HR0) as (h1 & -> & HR1 & Hs1); [apply alloc_Some; by rewrite lookup_insert_eq|by apply Hnb|].
  rewrite outcome_bind_ret.
  destruct (rings_init _ _ (exit_notify_queue co) HR1) as (h2 & -> & HR2 & _).
  { apply Hs1, alloc_Some. by rewrite lookup_insert_ne, lookup_insert_eq. }
  { rewrite blocks_cons, elem_of_app, list_elem_of_singleton. intros [|Hin]; [done|by apply (Hnb _ Hx)]. }
  rewrite outcome_bind_ret. cbn [mbind outcome_bind]. erewrite upd_co_ok; [|cbn; by rewrite lookup_insert_eq]. eexists. split; [done|].
  split; [|done]. assert (Hc : co <> curr_co e) by (intros ->; assert (Hf : is_Some (cos e !! curr_co e)) by (apply HC; left); rewrite Hn in Hf; by destruct Hf).
  cbn [cos cells set_cells set_cos]. rewrite insert_insert_eq. split; cbn [cos cells set_cells set_cos curr_co]; [| | | |done|done].
  - assert (HP : (run_queue, [curr_co e]) :: exits (curr_co e :: co :: idle) ≡ₚ
      (exit_notify_queue co, []) :: (run_queue, [curr_co e]) :: exits (curr_co e :: idle)).
    { symmetry. apply (Permutation_middle [_; _]). }
    rewrite (lists_of_perm _ _ (co :: idle) _ HP (reflexivity _)), lists_of_cons, lists_of_free. exact HR2.
  - intros c. rewrite lookup_insert_is_Some', <-HC, !elem_of_cons. assert (co = c <-> c = co) by (split; congruence). tauto.
  - unfold state_of. cbn. by rewrite lookup_insert_ne.
  - intros c. unfold state_of. cbn. rewrite elem_of_cons. destruct (decide (c = co)) as [->|]; [by rewrite lookup_insert_eq|].
    rewrite lookup_insert_ne by done. intros [|Hin]; [done|by apply Hi].
Qed.

(** The constructor, in uninitialised memory and with a new dispatcher. *)
Lemma coroutine_env_t_booted e :
  cos e = ∅ -> alloc (cells e) (wait_to (main e)) -> alloc (cells e) (exit_notify_queue (main e)) -> alloc (cells e) run_queue ->
  alloc (delay_cells e) (Head tt) -> dispatch_repr (dispatch e) [] [] [] [] -> delay_task_num (dispatch e) = 0 ->
  is_Some (task_objs (dispatch e) !! delay_del_task e) -> alloc (dcells (dispatch e)) (Member (delay_del_task e)) ->
  exists e', coroutine_env_t e = Done e' /\ booted e' [] /\ curr_co e' = main e /\ same_cells (cells e) (cells e').
Proof.
  intros Hcos Hw Hx Hq Hd HD Hn [o Ho] Ht. unfold coroutine_env_t, init_coroutine.
  assert (HR : rings (cells e) []) by (split; [constructor|by intros ?? ?%elem_of_nil]).
  destruct (rings_init _ _ _ HR Hw) as (h1 & -> & HR1 & Hs1); [by intros ?%elem_of_nil|]. rewrite outcome_bind_ret.
  apply Hs1 in Hx, Hq. destruct (rings_init _ _ _ HR1 Hx) as (h2 & -> & HR2 & Hs2).
  { rewrite blocks_cons, elem_of_app, list_elem_of_singleton. by intros [|?%elem_of_nil]. }
  rewrite !outcome_bind_ret. cbn [cos cells main set_cos]. erewrite upd_co_ok; [|cbn; by rewrite lookup_insert_eq]. rewrite outcome_bind_ret.
  rewrite perm_swap in HR2. apply rings_cons in HR2 as (Hrw & _ & Hniw & HR2).
  unfold on_cells. cbn [cells set_cos main].
  destruct (rings_init _ _ _ HR2 (proj2 Hrw _ ltac:(left))) as (h3 & -> & HR3 & Hs3); [apply Hniw; left|].
  cbn [mbind outcome_bind cells set_cells set_curr main set_cos].
  apply Hs2, Hs3 in Hq. destruct (rings_init _ _ _ HR3 Hq) as (h4 & -> & HR4 & Hs4).
  { rewrite !blocks_cons. cbn. rewrite !elem_of_cons. by intros [|[|?%elem_of_nil]]. }
  cbn [mbind outcome_bind cells set_cells set_curr main set_cos].
  assert (HR4' : rings h4 (lists_of [(run_queue, []); (exit_notify_queue (main e), [])] [main e])).
  { change (rings h4 [(run_queue, []); (exit_notify_queue (main e), []); (wait_to (main e), [])]). by rewrite (perm_swap (wait_to (main e), [])). }
  destruct (cells_add_tail _ _ _ _ _ _ HR4') as (h5 & E5 & HR5 & Hs5). unfold wait_to in *. rewrite E5. cbn [mbind outcome_bind cells set_cells set_curr delay_cells main set_cos].
  assert (HRd : rings (delay_cells e) []) by (split; [constructor|by intros ?? ?%elem_of_nil]).
  cbn [set_cos delay_cells]. destruct (rings_init _ _ _ HRd Hd) as (h6 & -> & HR6 & _); [by intros ?%elem_of_nil|].
  rewrite outcome_bind_ret. unfold init_task. cbn [dispatch set_cells set_curr set_cos delay_del_task]. rewrite Ho.
  cbn [of_option]. rewrite outcome_bind_ret.
  destruct HD as [HDr HDo]. destruct (rings_init _ _ _ HDr Ht) as (h7 & -> & HR7 & _).
  { rewrite blocks_lists_of. cbn. rewrite !elem_of_cons. by intros [|[|?%elem_of_nil]]. }
  rewrite !outcome_bind_ret. eexists. split; [done|].
  split; [|split; [done|]; intros k; by rewrite (Hs5 k), (Hs4 k), (Hs3 k), (Hs2 k), (Hs1 k)].
  split; cbn [cells cos curr_co main delay_cells dispatch delay_del_task set_cells set_curr set_cos].
  - exact HR5.
  - intros c. rewrite insert_insert_eq, Hcos, lookup_insert_is_Some', lookup_empty, list_elem_of_singleton. split; [by left|].
    by intros [|[? ?]].
  - unfold state_of. cbn. by rewrite lookup_insert_eq.
  - by intros c ?%elem_of_nil.
  - exists [], [delay_del_task e]. cbn [dispatch delay_del_task delay_task_num]. split; [|by split; [left|]]. split; cbn [dcells task_objs].
    + by rewrite lists_of_free.
    + intros t. cbn. rewrite list_elem_of_singleton. intros ->. by rewrite lookup_insert_eq.
  - exact HR6.
Qed.

Lemma scheduler_start_sys e co size v :
  cos e = ∅ -> alloc (cells e) (wait_to (main e)) -> alloc (cells e) (exit_notify_queue (main e)) -> alloc (cells e) run_queue ->
  alloc (delay_cells e) (Head tt) -> dispatch_repr (dispatch e) [] [] [] [] -> delay_task_num (dispatch e) = 0 ->
  is_Some (task_objs (dispatch e) !! delay_del_task e) -> alloc (dcells (dispatch e)) (Member (delay_del_task e)) ->
  co <> main e -> cells e !! wait_to co = None -> cells e !! exit_notify_queue co = None ->
  exists e1 e2 e3, coroutine_env_t e = Done e1 /\ alloc_coroutine co size e1 = Done e2 /\
    resume co v e2 = Done (e3, Go (main e) co true (VCo co)) /\
    sys e3 [main e] (exits [main e; co]) [] [] [] /\ curr_co e3 = co.
Proof.
  intros ? ? ? ? ? ? ? ? ? Hne Hw Hx. destruct (coroutine_env_t_booted e) as (e1 & -> & HB & Hcur & Hs); [done..|].
  destruct (booted_alloc e1 [] co size HB) as (e2 & E2 & HB2 & Hcur2); [|by eapply same_cells_None..|].
  { apply eq_None_not_Some. rewrite <-(b_cos _ _ HB), list_elem_of_singleton. by rewrite Hcur. }
  destruct (boot_resume e2 [co] co [] v HB2) as (e3 & E & HY & Hc3); [done|].
  rewrite Hcur2, Hcur in *. exists e1, e2, e3. by split_and!.
Qed.

(** The constructor of coroutine_env_t makes the main coroutine current with
    no resumer but itself; from there, making a coroutine and resuming it gives
    a state in which the run queue is exactly the stack of resumers. *)
Theorem scheduler_starts e co size v :
  cos e = ∅ -> alloc (cells e) (wait_to (main e)) -> alloc (cells e) (exit_notify_queue (main e)) -> alloc (cells e) run_queue ->
  alloc (delay_cells e) (Head tt) -> dispatch_repr (dispatch e) [] [] [] [] -> delay_task_num (dispatch e) = 0 ->
  is_Some (task_objs (dispatch e) !! delay_del_task e) -> alloc (dcells (dispatch e)) (Member (delay_del_task e)) ->
  co <> main e -> cells e !! wait_to co = None -> cells e !! exit_notify_queue co = None ->
  exists e1 e2 e3, coroutine_env_t e = Done e1 /\ alloc_coroutine co size e1 = Done e2 /\
    resume co v e2 = Done (e3, Go (main e) co true (VCo co)) /\
    sys e3 [main e] (exits [main e; co]) [] [] [] /\ curr_co e3 = co.
Proof. apply scheduler_start_sys. Qed.

(** C8: when a coroutine returns [v], it is stopped with the result [v], its
    waiters move in order to a new list that a delayed task of the dispatcher
    will wake, its deletion is queued once if it was asked for, and the
    coroutine that resumed it last goes on. *)
Theorem coroutine_exit e q last ws ws0 l idle ds dl v data task rc rl :
  sys e (q ++ [last]) ws idle ds dl -> ws ≡ₚ (exit_notify_queue (curr_co e), l) :: ws0 ->
  cos e !! curr_co e = Some rc -> cos e !! last = Some rl ->
  cells e !! Head (WaitList data) = None -> dcells (dispatch e) !! Member task = None ->
  exists e', co_exit (curr_co e) v data task e = Done (e', Go (curr_co e) last false (VInt 0)) /\
    sys e' q (ended data (curr_co e) l ws0) (curr_co e :: idle)
      (if is_end_delete rc then add_once (delay_del_task e) (add_notify task l ds) else add_notify task l ds)
      (if is_end_delete rc then dl ++ [curr_co e] else dl) /\
    curr_co e' = last /\
    cos e' = <[last := with_state RUNNING rl]> (<[curr_co e := with_state STOP (with_ret v rc)]> (cos e)) /\
    delay_del_task e' = delay_del_task e /\
    (l <> [] -> exit_data e' !! data = Some v /\
      task_objs (dispatch e') !! task = Some (Task (proc_exit_notify data) true)).
Proof. apply co_exit_sys. Qed.

(** A pass of proc_exit_notify takes the first waiter off the list and
    resumes it with the value that the ended coroutine returned; the rest of the
    list waits as before. *)
Theorem waiter_woken e rq ws idle data it l v :
  sched e rq ((Head (WaitList data), it :: l) :: ws) idle -> exit_data e !! data = Some v ->
  exists e', notify_one data (wait_to it) e = Done (e', Go (curr_co e) it false (VInt v)) /\
    sched e' (rq ++ [curr_co e]) ((Head (WaitList data), l) :: ws) idle /\ curr_co e' = it /\ exit_data e' = exit_data e.
Proof. apply notify_one_sched. Qed.

(** C9: do_delay_del_co_task calls the destructors of the garbage-collected objects of
    the ended coroutines on the list, each once, in the order of the coroutines and of
    their objects, frees these coroutines and no other, empties the list and keeps the
    scheduler's state, as long as the users' destructors return and keep out of the
    scheduler. *)
Theorem delayed_deletion destructor e rq ws idle dl sp fuel :
  (forall d n e, exists e', destructor d n e = Done e' /\ quiet e e' /\ destroyed e' = destroyed e) ->
  sched e rq (exits dl ++ ws) (dl ++ idle) -> delay_ok e dl ->
  delay_cells e !! Local sp = None -> delay_cells e !! Local (S sp) = None -> (length dl <= fuel)%nat ->
  exists e', do_delay_del destructor sp fuel e = Done e' /\
    sched e' rq ws idle /\ delay_ok e' [] /\ curr_co e' = curr_co e /\ dispatch e' = dispatch e /\
    (forall c, c ∈ dl -> cos e' !! c = None) /\ (forall c, c ∉ dl -> cos e' !! c = cos e !! c) /\
    destroyed e' = destroyed e ++ (dl ≫= destroys e).
Proof. intros Hd. by apply do_delay_del_sched. Qed.
End sched.

(** ** A concrete scheduler: main is 0, coroutine 1 is made and resumed *)
Section example.
Abbreviation nenv := (env nat nat nat).

Definition raw_link {K} : link K := Link None None.

Definition raw_env : nenv :=
  Env (<[run_queue := raw_link]> (<[wait_to 0%nat := raw_link]> (<[exit_notify_queue 0%nat := raw_link]> ∅)))
    ∅ 0%nat 0%nat 1 0 (<[Head tt := raw_link]> ∅) 7%nat
    (DispatchMgr (<[Member 7%nat := raw_link]> (<[Head Tasks := Link (Some (Head Tasks)) (Some (Head Tasks))]>
      (<[Head DelayTasks := Link (Some (Head DelayTasks)) (Some (Head DelayTasks))]> ∅))) 0 0
      (<[7%nat := Task do_delay_del_co_task false]> ∅)) ∅ [].

Lemma raw_dispatch : dispatch_repr (dispatch raw_env) [] [] [] [].
Proof.
  split; [|by intros ? ?%elem_of_nil].
  apply (rings_singletons _ [Head Tasks; Head DelayTasks]); [by apply (bool_decide_unpack _); vm_compute|].
  intros c [->| ->%list_elem_of_singleton]%elem_of_cons; by vm_compute.
Qed.

Lemma scheduler_starts_witness :
  exists e1 e2 e3, coroutine_env_t raw_env = Done e1 /\ alloc_coroutine 1%nat 16384 e1 = Done e2 /\
    resume 1%nat (VInt 5) e2 = Done (e3, Go 0%nat 1%nat true (VCo 1%nat)).
Proof.
  destruct (scheduler_starts raw_env 1%nat 16384 (VInt 5)) as (e1 & e2 & e3 & E1 & E2 & E3 & _).
  1: reflexivity.
  1-4: apply alloc_Some; vm_compute; by eexists.
  1: apply raw_dispatch.
  1: reflexivity.
  1: vm_compute; by eexists.
  1: apply alloc_Some; vm_compute; by eexists.
  1: discriminate.
  1-2: reflexivity.
  exists e1, e2, e3. exact (conj E1 (conj E2 E3)).
Defined.

(** Main makes 1 and 2 and resumes 1, which waits for 2; main resumes 2, which
    makes two garbage-collected objects and ends with 42. *)
Definition forced (o : outcome nenv) : nenv := match o with Done e => e | _ => raw_env end.
Definition force (o : outcome (nenv * switch nat)) : nenv := match o with Done (e, _) => e | _ => raw_env end.

Definition b0 : nenv := forced (coroutine_env_t raw_env).
Definition b1 : nenv := forced (alloc_coroutine 1%nat 16384 b0).
Definition b2 : nenv := forced (alloc_coroutine 2%nat 16384 b1).
Definition s0 : nenv := forced (set_auto_delete 2%nat b2).
Definition s1 : nenv := force (resume 1%nat (VInt 0) s0).
Definition s2 : nenv := force (wait 2%nat s1).
Definition s3a : nenv := force (resume 2%nat (VInt 0) s2).
Definition s3 : nenv := forced (e ← GC_NEW 6 s3a; GC_NEW 5 e).
Definition s4 : nenv := force (co_exit 2%nat 42 9%nat 8%nat s3).

Lemma booted_auto_delete (e : nenv) idle c : booted e idle -> is_Some (cos e !! c) ->
  exists e', set_auto_delete c e = Done e' /\ booted e' idle.
Proof.
  intros [HR HC Hm Hi HD HL] [r Er]. unfold set_auto_delete. rewrite (upd_co_ok _ _ _ r) by done. eexists. split; [done|].
  set (f := Co (state r) _ _ _ _ _ _ _ _ _).
  assert (Hst : forall c', state_of (set_cos (<[c := f]> (cos e)) e) c' = state_of e c').
  { intros c'. rewrite state_of_insert. case_decide as Hc; [|done]. subst c'. unfold state_of. by rewrite Er. }
  split; [exact HR| |by rewrite Hst|by intros c' Hc; rewrite Hst; apply Hi|exact HD|exact HL].
  intros c'. cbn. rewrite HC, lookup_insert_is_Some'. split; [by right|]. intros [<-|]; [by eexists|done].
Qed.

Lemma s0_booted : booted s0 [2; 1]%nat.
Proof.
  assert (HB0 : booted b0 []).
  { destruct (coroutine_env_t_booted raw_env) as (e1 & E1 & HB1 & Hc1 & Hs1).
    1: reflexivity.
    1-4: apply alloc_Some; vm_compute; by eexists.
    1: apply raw_dispatch.
    1: reflexivity.
    1: vm_compute; by eexists.
    1: apply alloc_Some; vm_compute; by eexists.
    unfold b0. by rewrite E1. }
  destruct (booted_alloc b0 [] 1%nat 16384 HB0) as (e1 & E1 & HB1 & _); [by vm_compute..|].
  assert (b1 = e1) as <- by (unfold b1; by rewrite E1).
  destruct (booted_alloc b1 [1%nat] 2%nat 16384 HB1) as (e2 & E2 & HB2 & _); [by vm_compute..|].
  assert (b2 = e2) as <- by (unfold b2; by rewrite E2).
  destruct (booted_auto_delete b2 [2; 1]%nat 2%nat HB2) as (e3 & E3 & HB3); [apply (b_cos _ _ HB2); right; left|].
  unfold s0. by rewrite E3.
Qed.

Lemma s1_sys : sys s1 [0%nat] (exits [0; 2; 1]%nat) [2%nat] [] [].
Proof.
  destruct (boot_resume s0 [2; 1]%nat 1%nat [2%nat] (VInt 0) s0_booted (perm_swap _ _ _)) as (e & E & HY & _).
  unfold s1. by rewrite E.
Qed.

Lemma s2_sys : sys s2 [] ((exit_notify_queue 2%nat, [1%nat]) :: exits [0; 1]%nat) [2%nat] [] [].
Proof.
  destruct (cos s1 !! 1%nat) as [rc|] eqn:Ec; [|by vm_compute in Ec]. destruct (cos s1 !! 0%nat) as [rl|] eqn:El; [|by vm_compute in El].
  destruct (yield_sys s1 [] 0%nat (exits [0; 2; 1]%nat) [2%nat] [] [] (Some (exit_notify_queue 2%nat))
    ((exit_notify_queue 2%nat, [1%nat]) :: exits [0; 1]%nat) [2%nat] (VInt 0) rc rl s1_sys) as (e & E & HY & _).
  - apply (put_wait 1%nat _ [] _ (exits [0; 1]%nat)). apply perm_swap.
  - exact Ec.
  - exact El.
  - intros c [= <-]. vm_compute. discriminate.
  - destruct (cos s1 !! 2%nat) as [r|] eqn:Er; [|by vm_compute in Er].
    unfold s2. rewrite (wait_yield s1 2%nat r Er); [by rewrite E|]. vm_compute in Er. by injection Er as <-.
Qed.

Lemma sys_gc_new d (e : nenv) rq ws idle ds dl : sys e rq ws idle ds dl ->
  exists e', GC_NEW d e = Done e' /\ sys e' rq ws idle ds dl.
Proof.
  intros HY. assert (Hupd : forall c f (e : nenv) r, (forall r, state (f r) = state r) -> cos e !! c = Some r ->
    sys e rq ws idle ds dl -> sys (set_cos (<[c := f r]> (cos e)) e) rq ws idle ds dl).
  { clear. intros c f e r Hf Er [[HR HC HH Hr Hw Hi] HD HL Hdead Hq Hex].
    assert (Hst : forall c', state_of (set_cos (<[c := f r]> (cos e)) e) c' = state_of e c').
    { intros c'. rewrite state_of_insert. case_decide as Hc; [|done]. subst c'. unfold state_of. rewrite Er. cbn. by rewrite Hf. }
    assert (Hin : forall c', is_Some (<[c := f r]> (cos e) !! c') <-> is_Some (cos e !! c')).
    { intros c'. rewrite lookup_insert_is_Some'. split; [intros [<-|]; [by eexists|done]|by right]. }
    split; [split|exact HD|exact HL| | |]; try (intros c'; rewrite ?Hst; cbn [cos set_cos curr_co]; rewrite ?Hin); eauto. }
  assert (Hcur : is_Some (cos e !! curr_co e)).
  { apply (sched_member _ _ _ _ _ (y_sched _ _ _ _ _ _ HY)). left. }
  destruct Hcur as [r Er]. unfold GC_NEW, get_gc_mgr. rewrite Er. cbn [of_option]. rewrite outcome_bind_ret.
  destruct (gc_mgr r) as [m|].
  - cbn [mbind outcome_bind]. rewrite (upd_co_ok _ _ _ r Er). eexists. split; [done|]. by apply Hupd.
  - rewrite (upd_co_ok _ _ _ r Er). cbn [mbind outcome_bind].
    erewrite upd_co_ok; [|cbn; by rewrite lookup_insert_eq]. eexists. split; [done|].
    apply (Hupd (curr_co e) (with_gc (Some [])) e r) in HY; [|done|done].
    eapply (Hupd (curr_co e) (with_gc _)) in HY; [exact HY|done|cbn; by rewrite lookup_insert_eq].
Qed.

Lemma s3a_sys : sys s3a [0%nat] ((exit_notify_queue 2%nat, [1%nat]) :: exits [0; 1]%nat) [] [] [].
Proof.
  destruct (cos s2 !! 2%nat) as [r|] eqn:Er; [|by vm_compute in Er].
  destruct (resume_sys s2 _ _ _ _ _ [] ((exit_notify_queue 2%nat, [1%nat]) :: exits [0; 1]%nat) [] 2%nat (VInt 0) r s2_sys Er)
    as (e & E & HY & _).
  - vm_compute in Er. injection Er as <-. discriminate.
  - by apply take_idle.
  - unfold s3a. by rewrite E.
Qed.

Lemma s3_sys : sys s3 [0%nat] ((exit_notify_queue 2%nat, [1%nat]) :: exits [0; 1]%nat) [] [] [].
Proof.
  destruct (sys_gc_new 6 _ _ _ _ _ _ s3a_sys) as (e1 & E1 & HY1). destruct (sys_gc_new 5 _ _ _ _ _ _ HY1) as (e2 & E2 & HY2).
  unfold s3. rewrite E1. cbn [mbind outcome_bind]. by rewrite E2.
Qed.

Lemma s3_waits : ((exit_notify_queue (Q:=nat) 2%nat, [1%nat]) :: exits [0; 1]%nat) ≡ₚ (exit_notify_queue (curr_co s3), [1%nat]) :: exits [0; 1]%nat.
Proof. done. Qed.

Lemma coroutine_exit_witness :
  exists e', co_exit (curr_co s3) 42 9%nat 8%nat s3 = Done (e', Go (curr_co s3) 0%nat false (VInt 0)) /\ exit_data e' !! 9%nat = Some 42.
Proof.
  destruct (cos s3 !! 2%nat) as [rc|] eqn:Ec; [|by vm_compute in Ec]. destruct (cos s3 !! 0%nat) as [rl|] eqn:El; [|by vm_compute in El].
  destruct (coroutine_exit s3 [] 0%nat _ (exits [0; 1]%nat) [1%nat] [] [] [] 42 9%nat 8%nat rc rl s3_sys s3_waits) as
    (e' & E & _ & _ & _ & _ & Hx).
  - exact Ec.
  - exact El.
  - by vm_compute.
  - by vm_compute.
  - exists e'. split; [exact E|]. by apply Hx.
Defined.

Lemma s4_sys : sys s4 [] (ended 9%nat 2%nat [1%nat] (exits [0; 1]%nat)) [2%nat] [8; 7]%nat [2%nat].
Proof.
  destruct (cos s3 !! 2%nat) as [rc|] eqn:Ec; [|by vm_compute in Ec]. destruct (cos s3 !! 0%nat) as [rl|] eqn:El; [|by vm_compute in El].
  destruct (co_exit_sys s3 [] 0%nat _ (exits [0; 1]%nat) [1%nat] [] [] [] 42 9%nat 8%nat rc rl s3_sys s3_waits) as (e' & E & HY & _).
  1: exact Ec.
  1: exact El.
  1-2: by vm_compute.
  assert (Hd : is_end_delete rc = true) by (vm_compute in Ec; by injection Ec as <-). rewrite Hd in HY.
  change (curr_co s3) with 2%nat in *. unfold s4. rewrite E. exact HY.
Qed.

Lemma waiter_woken_witness : exists e', notify_one 9%nat (wait_to 1%nat) s4 = Done (e', Go (curr_co s4) 1%nat false (VInt 42)).
Proof.
  destruct (waiter_woken s4 [] (exits [2; 0; 1]%nat) [2%nat] 9%nat 1%nat [] 42) as (e' & E & _).
  - eapply sched_perm; [|reflexivity|exact (y_sched _ _ _ _ _ _ s4_sys)]. apply perm_swap.
  - by vm_compute.
  - by exists e'.
Defined.

(** A destructor that makes a key for coroutine-local variables. *)
Definition key_dtor (_ : nat) (_ : Z) (e : nenv) : outcome nenv := Done (create_spec_key e).2.

Lemma delayed_deletion_witness :
  exists e', do_delay_del key_dtor 0 1 s4 = Done e' /\ cos e' !! 2%nat = None /\ destroyed e' = [(6%nat, 1); (5%nat, 1)].
Proof.
  destruct (delayed_deletion key_dtor s4 [] ((Head (WaitList 9%nat), [1%nat]) :: exits [0; 1]%nat) [] [2%nat] 0 1) as
    (e' & E & _ & _ & _ & _ & Hx & _ & Hd).
  - intros d n e. eexists. split; [reflexivity|]. split; [by split|done].
  - exact (y_sched _ _ _ _ _ _ s4_sys).
  - exact (y_delay _ _ _ _ _ _ s4_sys).
  - by vm_compute.
  - by vm_compute.
  - done.
  - exists e'. split; [exact E|]. split; [apply Hx; left|]. rewrite Hd. by vm_compute.
Defined.
End example.
