(* ===== verification/Machine.v ===== *)
(** * Coroutines at work

    The context switches of core/coroutine.cpp.  A coroutine is a program that
    calls the scheduler; [Ret] is the return of its [pfn].  Every coroutine other
    than the current one has a saved context, made by make_fcontext or by the
    jump that left it.  [machine_step] runs the current coroutine up to its next
    call and executes the jump that the call ends in; a jump to a coroutine
    without a context is a [Fault].  [machine_safe] shows that the calls that the
    interface allows never fault. *)
From S2P Require Import Prelude CList CListStore CListIter Words Component Cells Dispatch Coroutine Sched.

Section machine.
Context {C Q T : Type} `{Countable C, Countable Q, Countable T}.
Implicit Types (e : env C Q T) (c co last : C) (rq idle : list C).
Implicit Types (ws : list (cell (co_head C Q) C * list C)).

(** A call of the scheduler; [CYield] names the wait list, if any. *)
Inductive call := CResume (co : C) (v : value C) | CYield (w : option Q) (v : value C) | CWait (co : C).

Definition exec (c : call) : env C Q T -> outcome (env C Q T * switch C) :=
  match c with
  | CResume co v => resume co v
  | CYield w v => yield ((fun q => Head (WaitList q)) <$> w) v
  | CWait co => wait co
  end.

Inductive prog := Ret (v : Z) | Call (c : call) (k : value C -> prog).

(** fcontext_t: the entry of a new coroutine, or the rest of a left one. *)
Inductive context := Entry (p : prog) | Frame (k : value C -> prog).

Record machine := Machine { menv : env C Q T; contexts : gmap C context; now : prog }.

(** jump_fcontext(&from->fctx, to->fctx, v), [from] to go on with [k]. *)
Definition jump (k : value C -> prog) (r : env C Q T * switch C) (ctxs : gmap C context) : outcome machine :=
  match r.2 with
  | Return v => Done (Machine r.1 ctxs (k v))
  | Go from to fresh v =>
      match ctxs !! to with
      | Some (Entry p) => if fresh then Done (Machine r.1 (<[from := Frame k]> (delete to ctxs)) p) else Fault
      | Some (Frame k') => if fresh then Fault else Done (Machine r.1 (<[from := Frame k]> (delete to ctxs)) (k' v))
      | None => Fault
      end
  end.

(** One call of the current coroutine; [data] and [task] are the objects that its
    end allocates.  A coroutine that ended has no context: nothing may jump back. *)
Definition machine_step (data : Q) (task : T) (m : machine) : outcome machine :=
  let cur := curr_co (menv m) in
  match now m with
  | Call c k => r ← exec c (menv m); jump k r (contexts m)
  | Ret v =>
      r ← co_exit cur v data task (menv m);
      m' ← jump (fun _ => Ret 0) r (contexts m);
      Done (Machine (menv m') (delete cur (contexts m')) (now m'))
  end.

(** Every coroutine has the context that its state promises. *)
Definition ctx_ok e (ctxs : gmap C context) : Prop :=
  forall c s, c <> curr_co e -> state_of e c = Some s -> s <> STOP ->
    match ctxs !! c with
    | Some (Entry _) => s = CREATE
    | Some (Frame _) => s <> CREATE
    | None => False
    end.

Record machine_ok (m : machine) rq ws idle (ds : list T) (dl : list C) : Prop := {
  m_sys : sys (menv m) rq ws idle ds dl;
  m_ctx : ctx_ok (menv m) (contexts m) }.

(** What a caller must know: a coroutine to resume or to wait for is alive, one
    to resume is not the caller and has not ended, and there is someone to yield
    to. *)
Definition legal e rq ws (p : prog) : Prop :=
  match p with
  | Ret _ => rq <> []
  | Call (CResume co _) _ => co <> curr_co e /\ exists s, state_of e co = Some s /\ s <> STOP
  | Call (CYield w _) _ => rq <> [] /\ forall q, w = Some q -> Head (WaitList q) ∈ ws.*1
  | Call (CWait co) _ => exists s, state_of e co = Some s /\ (s = STOP \/ rq <> [])
  end.
End machine.
Arguments call C Q : clear implicits.
Arguments prog C Q : clear implicits.
Arguments context C Q : clear implicits.
Arguments machine C Q T {_ _ _ _ _ _}.

Section machine_safe.
Context {C Q T : Type} `{Countable C, Countable Q, Countable T}.
Implicit Types (e : env C Q T) (c co last : C) (rq idle : list C).
Implicit Types (ws : list (cell (co_head C Q) C * list C)) (m : machine C Q T).

Lemma find_takes e rq ws idle co :
  sched e rq ws idle -> co <> curr_co e -> is_Some (cos e !! co) ->
  exists rq' ws' idle', takes co (rq, ws, idle) (rq', ws', idle').
Proof.
  intros HS Hne Hc%(sched_member _ _ _ _ co HS). unfold all_of in Hc.
  rewrite elem_of_cons, !elem_of_app in Hc. destruct Hc as [|[Hc|[Hc|Hc]]]; [done|..].
  - apply list_elem_of_split in Hc as (l1 & l2 & ->). eexists _, _, _. apply take_stack.
  - apply list_elem_of_bind in Hc as ([k l] & Hl & Hk). cbn in Hl. apply list_elem_of_split in Hl as (l1 & l2 & ->).
    apply list_elem_of_split in Hk as (w1 & w2 & ->). eexists _, _, _. eapply take_wait. by rewrite <-Permutation_middle.
  - apply list_elem_of_split in Hc as (l1 & l2 & ->). eexists _, _, _. apply take_idle. by rewrite <-Permutation_middle.
Qed.

Lemma find_puts cur ws idle (k : cell (co_head C Q) C) :
  k ∈ ws.*1 -> exists ws' idle', puts cur (Some k) (ws, idle) (ws', idle').
Proof.
  intros ([k' l] & -> & Hin)%list_elem_of_fmap. apply list_elem_of_split in Hin as (w1 & w2 & ->).
  eexists _, _. eapply put_wait. by rewrite <-Permutation_middle.
Qed.

(** The contexts after a jump from the current coroutine, which is left in a
    state other than CREATE, to [to]. *)
Lemma ctx_jump e e' ctxs from to k :
  ctx_ok e ctxs -> from = curr_co e -> to <> from -> curr_co e' = to ->
  (forall c, c <> from -> c <> to -> state_of e' c = state_of e c) -> state_of e' from <> Some CREATE ->
  ctx_ok e' (<[from := Frame k]> (delete to ctxs)).
Proof.
  intros Hok -> Hne Hcur Hst Hcr c s Hc Hs Hstop. rewrite Hcur in Hc.
  destruct (decide (c = curr_co e)) as [->|Hcc].
  - rewrite lookup_insert_eq. intros ->. done.
  - rewrite lookup_insert_ne, lookup_delete_ne by done. rewrite Hst in Hs by done. by apply (Hok c s).
Qed.

Lemma jump_ok e ctxs k co s e' v :
  ctx_ok e ctxs -> co <> curr_co e -> state_of e co = Some s -> s <> STOP ->
  curr_co e' = co ->
  (forall c, c <> curr_co e -> c <> co -> state_of e' c = state_of e c) -> state_of e' (curr_co e) <> Some CREATE ->
  exists m', jump k (e', Go (curr_co e) co (bool_decide (s = CREATE)) v) ctxs = Done m' /\ menv m' = e' /\ ctx_ok e' (contexts m').
Proof.
  intros Hok Hne Hs Hstop Hcur Hst Hcr. pose proof (Hok co s Hne Hs Hstop) as Hx. unfold jump. cbn [fst snd].
  destruct (ctxs !! co) as [[p|k']|] eqn:E; [|..|done].
  - rewrite bool_decide_true by done. eexists. split; [done|]. split; [done|]. by eapply ctx_jump.
  - rewrite bool_decide_false by done. eexists. split; [done|]. split; [done|]. by eapply ctx_jump.
Qed.

Lemma run_queue_last rq : rq <> [] -> exists (q : list C) last, rq = q ++ [last].
Proof. destruct (last_snoc_cases rq) as [->|(q & last & ->)]; [done|eauto]. Qed.

Lemma state_of_Some e c s : state_of e c = Some s -> exists r, cos e !! c = Some r /\ state r = s.
Proof. unfold state_of. intros (r & Hr & Hs)%fmap_Some. eauto. Qed.

Lemma sys_state e rq ws idle ds dl c : sys e rq ws idle ds dl -> c ∈ curr_co e :: rq -> exists r, cos e !! c = Some r /\ state r = RUNNING.
Proof. intros HY Hc. apply state_of_Some. by apply (s_run _ _ _ _ (y_sched _ _ _ _ _ _ HY)). Qed.

Lemma sys_last_ne e q last ws idle ds dl : sys e (q ++ [last]) ws idle ds dl -> last <> curr_co e.
Proof.
  intros HY E. pose proof (sched_nodup _ _ _ _ (y_sched _ _ _ _ _ _ HY)) as [Hni _]%NoDup_cons. apply Hni.
  rewrite <-E. unfold all_of. rewrite !elem_of_app. left. right. left.
Qed.

Lemma yield_step m rq ws idle ds dl w v k :
  machine_ok m rq ws idle ds dl -> rq <> [] -> (forall x, w = Some x -> x ∈ ws.*1) ->
  (forall c, w = Some (exit_notify_queue c) -> state_of (menv m) c <> Some STOP) ->
  exists e' sw m' rq' ws' idle', yield w v (menv m) = Done (e', sw) /\ jump k (e', sw) (contexts m) = Done m' /\
    machine_ok m' rq' ws' idle' ds dl.
Proof.
  intros [HY HC] (q & last & ->)%run_queue_last Hw Hx. set (e := menv m) in *.
  destruct (sys_state _ _ _ _ _ _ (curr_co e) HY) as (rc & Hrc & Hsc); [left|].
  destruct (sys_state _ _ _ _ _ _ last HY) as (rl & Hrl & Hsl); [rewrite elem_of_cons, elem_of_app; right; right; left|].
  assert (Hp : exists ws' idle', puts (curr_co e) w (ws, idle) (ws', idle')).
  { destruct w as [x|]; [by apply find_puts, Hw|]. eexists _, _. apply put_idle. }
  destruct Hp as (ws' & idle' & Hp). pose proof (sys_last_ne _ _ _ _ _ _ _ HY) as Hne.
  destruct (yield_sys _ _ _ _ _ _ _ _ _ _ v _ _ HY Hp Hrc Hrl Hx) as (e' & E & HY' & Hcur & Hcos).
  destruct (jump_ok e (contexts m) k last RUNNING e' v HC Hne) as (m' & Ej & Em & HC');
    [unfold state_of; by rewrite Hrl, <-Hsl|done|done| | |].
  - intros c Hc1 Hc2. unfold state_of. by rewrite Hcos, !lookup_insert_ne.
  - unfold state_of. by rewrite Hcos, lookup_insert_ne, lookup_insert_eq by done.
  - exists e', (Go (curr_co e) last false v), m', q, ws', idle'. split; [done|]. split; [exact Ej|]. by split; rewrite Em.
Qed.

Lemma resume_step m rq ws idle ds dl co v k s :
  machine_ok m rq ws idle ds dl -> co <> curr_co (menv m) -> state_of (menv m) co = Some s -> s <> STOP ->
  exists e' sw m' rq' ws' idle', resume co v (menv m) = Done (e', sw) /\ jump k (e', sw) (contexts m) = Done m' /\
    machine_ok m' rq' ws' idle' ds dl.
Proof.
  intros [HY HC] Hne Hs Hst. set (e := menv m) in *. destruct (state_of_Some _ _ _ Hs) as (r & Hr & <-).
  destruct (find_takes e rq ws idle co (y_sched _ _ _ _ _ _ HY) Hne) as (rq' & ws' & idle' & Ht); [by eexists|].
  destruct (resume_sys _ _ _ _ _ _ _ _ _ _ v _ HY Hr Hst Ht) as (e' & E & HY' & Hcur & Hcos).
  destruct (jump_ok e (contexts m) k co (state r) e' (if bool_decide (state r = CREATE) then VCo co else v) HC Hne)
    as (m' & Ej & Em & HC'); [done|done|done| | |].
  - intros c Hc1 Hc2. unfold state_of. by rewrite Hcos, !lookup_insert_ne.
  - destruct (sys_state _ _ _ _ _ _ (curr_co e) HY) as (rc & Hrc & Hsc); [left|]. unfold state_of.
    rewrite Hcos, lookup_insert_ne, Hrc by done. cbn. by rewrite Hsc.
  - eexists e', _, m', (rq' ++ [curr_co e]), ws', idle'. split; [done|]. split; [exact Ej|]. by split; rewrite Em.
Qed.

Lemma exit_step m rq ws idle ds dl v data task k :
  machine_ok m rq ws idle ds dl -> rq <> [] ->
  cells (menv m) !! Head (WaitList data) = None -> dcells (dispatch (menv m)) !! Member task = None ->
  exists e' sw m' rq' ws' idle' ds' dl', co_exit (curr_co (menv m)) v data task (menv m) = Done (e', sw) /\
    jump k (e', sw) (contexts m) = Done m' /\
    machine_ok (Machine (menv m') (delete (curr_co (menv m)) (contexts m')) (now m')) rq' ws' idle' ds' dl'.
Proof.
  intros [HY HC] (q & last & ->)%run_queue_last Hfd Hft. set (e := menv m) in *.
  destruct (sys_state _ _ _ _ _ _ (curr_co e) HY) as (rc & Hrc & Hsc); [left|].
  destruct (sys_state _ _ _ _ _ _ last HY) as (rl & Hrl & Hsl); [rewrite elem_of_cons, elem_of_app; right; right; left|].
  assert (Hin : exit_notify_queue (curr_co e) ∈ ws.*1) by (apply (s_heads _ _ _ _ (y_sched _ _ _ _ _ _ HY)); by eexists).
  apply list_elem_of_fmap in Hin as ([k' l] & Ek & (w1 & w2 & ->)%list_elem_of_split). cbn in Ek. subst k'.
  pose proof (sys_last_ne _ _ _ _ _ _ _ HY) as Hne.
  destruct (co_exit_sys e q last _ (w1 ++ w2) l idle ds dl v data task rc rl HY) as (e' & E & HY' & Hcur & Hcos & _);
    [by rewrite <-Permutation_middle|done..|].
  destruct (jump_ok e (contexts m) k last RUNNING e' (VInt 0) HC Hne) as (m' & Ej & Em & HC');
    [unfold state_of; by rewrite Hrl, <-Hsl|done|done| | |].
  - intros c Hc1 Hc2. unfold state_of. by rewrite Hcos, !lookup_insert_ne.
  - unfold state_of. by rewrite Hcos, lookup_insert_ne, lookup_insert_eq by done.
  - eexists e', _, m', q, _, _, _, _. split; [done|]. split; [exact Ej|]. rewrite Em. split; [exact HY'|]. cbn.
    intros c s Hc Hs Hstop. destruct (decide (c = curr_co e)) as [->|].
    + unfold state_of in Hs. rewrite Hcos, lookup_insert_ne, lookup_insert_eq in Hs by done. by injection Hs as <-.
    + rewrite lookup_delete_ne by done. by apply (HC' c s).
Qed.

(** C2: from a state where the run queue, the wait lists, the delayed deletions
    and the saved contexts are in order, a call that the interface allows
    (resume, yield, wait or the return of a coroutine) never jumps to a
    coroutine that has no context, never makes a new context over a saved one,
    and leaves such a state. *)
Theorem machine_safe m rq ws idle ds dl data task :
  machine_ok m rq ws idle ds dl -> legal (menv m) rq ws (now m) ->
  cells (menv m) !! Head (WaitList data) = None -> dcells (dispatch (menv m)) !! Member task = None ->
  exists m' rq' ws' idle' ds' dl', machine_step data task m = Done m' /\ machine_ok m' rq' ws' idle' ds' dl'.
Proof.
  intros HM Hl Hd Ht. unfold machine_step. destruct (now m) as [v|[co v|w v|co] k]; cbn [legal exec] in *.
  - destruct (exit_step m rq ws idle ds dl v data task (fun _ => Ret 0) HM Hl Hd Ht) as
      (e' & sw & m' & rq' & ws' & idle' & ds' & dl' & -> & E & HM'). cbn [mbind outcome_bind]. rewrite E. eauto 10.
  - destruct Hl as (Hne & s & Hs & Hst).
    destruct (resume_step m rq ws idle ds dl co v k s HM Hne Hs Hst) as (e' & sw & m' & rq' & ws' & idle' & -> & E & HM').
    cbn [mbind outcome_bind]. rewrite E. eauto 10.
  - destruct Hl as [Hq Hw].
    destruct (yield_step m rq ws idle ds dl ((fun q => Head (WaitList q)) <$> w) v k HM Hq) as
      (e' & sw & m' & rq' & ws' & idle' & -> & E & HM'); [|by destruct w|cbn [mbind outcome_bind]; rewrite E; eauto 10].
    intros x (q & Hwq & ->)%fmap_Some. by apply Hw.
  - destruct Hl as (s & Hs & Hq). destruct (state_of_Some _ _ _ Hs) as (r & Hr & Er).
    destruct (Z.le_gt_cases STOP (state r)) as [Hge|Hlt].
    + rewrite (wait_stopped _ _ r) by done. rewrite outcome_bind_ret. unfold jump. cbn [fst snd]. eexists _, rq, ws, idle, ds, dl. split; [done|].
      destruct HM as [HY HC]. by split.
    + rewrite (wait_yield _ _ r) by done. assert (Hq' : rq <> []) by (destruct Hq as [->|]; [rewrite Er in Hlt; by apply Z.lt_irrefl in Hlt|done]).
      destruct (yield_step m rq ws idle ds dl (Some (exit_notify_queue co)) (VInt 0) k HM Hq') as
        (e' & sw & m' & rq' & ws' & idle' & -> & E & HM'); [| |cbn [mbind outcome_bind]; rewrite E; eauto 10].
      * intros x [= <-]. apply (s_heads _ _ _ _ (y_sched _ _ _ _ _ _ (m_sys _ _ _ _ _ _ HM))). by eexists.
      * intros c [= <-]. rewrite Hs, <-Er. intros [= Hx]. rewrite Hx in Hlt. by apply Z.lt_irrefl in Hlt.
Qed.
End machine_safe.

(** Coroutine 1 of the example of Sched.v waits for 2. *)
Definition sample_machine : machine nat nat nat :=
  Machine s1 (<[0%nat := Frame (fun _ => Ret 0)]> (<[2%nat := Entry (Ret 42)]> ∅)) (Call (CWait 2%nat) (fun _ => Ret 1)).

Lemma sample_ctx : ctx_ok s1 (contexts sample_machine).
Proof.
  intros c s Hc Hs _. destruct (state_of_Some s1 c s Hs) as (r & Hr & _).
  assert (Hin : c ∈ curr_co s1 :: all_of [0%nat] (exits (Q:=nat) [0; 2; 1]%nat) [2%nat]).
  { apply (sched_member _ _ _ _ c (y_sched _ _ _ _ _ _ s1_sys)). by exists r. }
  assert (H1 : state_of s1 0%nat = Some RUNNING) by (by vm_compute). assert (H2 : state_of s1 2%nat = Some CREATE) by (by vm_compute).
  assert (El : all_of [0%nat] (exits (Q:=nat) [0; 2; 1]%nat) [2%nat] = [0; 2]%nat) by reflexivity.
  rewrite El, !elem_of_cons in Hin. destruct Hin as [Hx|[->|[->|Hx%elem_of_nil]]]; [exact (False_ind _ (Hc Hx))| | |exact (False_ind _ Hx)].
  - rewrite H1 in Hs. injection Hs as <-. vm_compute. discriminate.
  - rewrite H2 in Hs. injection Hs as <-. vm_compute. reflexivity.
Qed.

Lemma machine_safe_witness : exists m', machine_step 9%nat 8%nat sample_machine = Done m'.
Proof.
  destruct (machine_safe sample_machine [0%nat] (exits [0; 2; 1]%nat) [2%nat] [] [] 9%nat 8%nat) as (m' & _ & _ & _ & _ & _ & E & _).
  - split; [exact s1_sys|exact sample_ctx].
  - exists CREATE. split; [by vm_compute|]. right. discriminate.
  - by vm_compute.
  - by vm_compute.
  - by exists m'.
Defined.

(** ** A waiter that is resumed while the others are being notified *)

(** 1 and 3 wait for 2, which ends; while proc_exit_notify resumes 1, 1 resumes
    3, and 3 goes on to wait in another list, [WaitList 5].  The result is the
    state in which proc_exit_notify goes on, and its cursor. *)
Definition stale_cursor : outcome (env nat nat nat * (option (cell (co_head nat nat) nat) * option (cell (co_head nat nat) nat))) :=
  e ← alloc_coroutine 1%nat 16384 b0; e ← alloc_coroutine 2%nat 16384 e; e ← alloc_coroutine 3%nat 16384 e;
  r ← resume 1%nat (VInt 0) e; r ← wait 2%nat r.1;
  r ← resume 3%nat (VInt 0) r.1; r ← wait 2%nat r.1;
  r ← resume 2%nat (VInt 0) r.1; r ← co_exit 2%nat 42 9%nat 8%nat r.1;
  cursor ← notify_start 9%nat r.1;
  r ← notify_one 9%nat (wait_to 1%nat) r.1;
  r ← resume 3%nat (VInt 7) r.1;
  e ← on_cells (fun h => INIT_LIST_HEAD (Head (WaitList 5%nat)) (<[Head (WaitList 5%nat) := raw_link]> h)) r.1;
  r ← yield (Some (Head (WaitList 5%nat))) (VInt 0) e;
  r ← yield None (VInt 0) r.1;
  cursor ← notify_advance cursor.2 r.1;
  Done (r.1, cursor).

(** The loop of proc_exit_notify keeps the next waiter across a resume.  If
    the resumed coroutine resumes that waiter and it waits elsewhere, the loop
    takes it out of the list it is in now and wakes it with the result of the
    other coroutine, then follows the list it was in to a list head that is not
    its own, which it would take for a coroutine. *)
Theorem exit_notify_stale :
  (r ← stale_cursor; Done r.2) = Done (Some (wait_to 3%nat), Some (Head (WaitList 5%nat))) /\
  (r ← stale_cursor; get_next (Some (Head (WaitList 5%nat))) (cells r.1)) = Done (Some (wait_to 3%nat)) /\
  (r ← stale_cursor; s ← notify_one 9%nat (wait_to 3%nat) r.1; Done s.2) = Done (Go 0%nat 3%nat false (VInt 42)) /\
  (r ← stale_cursor; notify_one 9%nat (Head (WaitList 5%nat)) r.1) = Fault.
Proof. split_and!; by vm_compute. Qed.
