(* ===== verification/LList.v ===== *)
(** * base/llist.h: the lock-less list

    A list of nodes that threads push to with compare-and-swap, and that one
    thread at a time takes from.  Every operation is a machine with one shared
    access per step, so that a schedule is a list of labels; the memory is
    sequentially consistent.  [llist_sim] is a forward simulation into a stack on
    which each operation happens at once. *)
From S2P Require Import Prelude.

Section llist.
Context {N T : Type} `{Countable N, Countable T}.
Implicit Types (x y : N) (t : T) (o : option N) (l : list N).

(** llist_node in memory and llist_head. *)
Record llist := LList { nodes : gmap N (option N); first : option N }.
Implicit Types s : llist.

Definition set_next x o s : outcome llist :=
  _ ← of_option (nodes s !! x); Done (LList (<[x := o]> (nodes s)) (first s)).

Definition init_llist_head s : llist := LList (nodes s) None.
Definition llist_empty s : bool := bool_decide (first s = None).
Definition llist_next x s : outcome (option N) := of_option (nodes s !! x).

(** Where a thread is: in llist_add_batch before its read of head->first, its
    store to new_last->next and its compare-and-swap; in llist_del_first at the
    top of the loop, with [entry], and before its compare-and-swap. *)
Inductive pc :=
| AddRead (new_first new_last : N)
| AddStore (new_first new_last : N) (first_ : option N)
| AddSwap (new_first new_last : N) (first_ : option N)
| DelRead
| DelLoop (entry : option N)
| DelSwap (old_entry : N) (next : option N).

(** What an operation returns. *)
Inductive result := RAdd (was_empty : bool) | RFirst (entry : option N) | RAll (first_ : option N).

Definition CAS_first (old new : option N) s : bool * llist :=
  if bool_decide (first s = old) then (true, LList (nodes s) new) else (false, s).

(** llist_add_batch, one access. *)
Definition llist_add_batch_step (p : pc) s : outcome (option pc * option result * llist) :=
  match p with
  | AddRead f l => Done (Some (AddStore f l (first s)), None, s)
  | AddStore f l o => s ← set_next l o s; Done (Some (AddSwap f l o), None, s)
  | AddSwap f l o =>
      let '(ok, s) := CAS_first o (Some f) s in
      if ok then Done (None, Some (RAdd (bool_decide (o = None))), s) else Done (Some (AddRead f l), None, s)
  | _ => Fault
  end.

(** llist_del_first, one access. *)
Definition llist_del_first_step (p : pc) s : outcome (option pc * option result * llist) :=
  match p with
  | DelRead => Done (Some (DelLoop (first s)), None, s)
  | DelLoop None => Done (None, Some (RFirst None), s)
  | DelLoop (Some e) => n ← llist_next e s; Done (Some (DelSwap e n), None, s)
  | DelSwap e n =>
      let entry := first s in
      let '(ok, s) := CAS_first (Some e) n s in
      if ok then Done (None, Some (RFirst (Some e)), s) else Done (Some (DelLoop entry), None, s)
  | _ => Fault
  end.

Definition pc_step (p : pc) s : outcome (option pc * option result * llist) :=
  match p with
  | AddRead _ _ | AddStore _ _ _ | AddSwap _ _ _ => llist_add_batch_step p s
  | _ => llist_del_first_step p s
  end.

(** llist_del_all: one atomic exchange. *)
Definition llist_del_all s : option N * llist := (first s, LList (nodes s) None).

(** llist_reverse_order. *)
Fixpoint reverse_from (fuel : nat) (head new_head : option N) s : outcome (option N * llist) :=
  match head with
  | None => Done (new_head, s)
  | Some tmp =>
      match fuel with
      | O => NoFuel
      | S fuel => n ← llist_next tmp s; s ← set_next tmp new_head s; reverse_from fuel n (Some tmp) s
      end
  end.

Definition llist_reverse_order (fuel : nat) (head : option N) s : outcome (option N * llist) := reverse_from fuel head None s.

(** The whole: memory and threads. *)
Record sys := Sys { mem : llist; pcs : gmap T pc }.

(** A schedule: a thread links a batch of its own and calls llist_add_batch, or
    calls llist_del_first; takes a step; calls llist_del_all. *)
Inductive label := StartAdd t (batch : list N) | StartDel t | Step t | DelAll t.

Fixpoint link_batch (b : list N) s : outcome llist :=
  match b with
  | x :: (y :: _) as r => s ← set_next x (Some y) s; link_batch r s
  | _ => Done s
  end.

Definition step (lb : label) (w : sys) : outcome (sys * option result) :=
  match lb with
  | StartAdd t b =>
      match b, last b with
      | f :: _, Some l => s ← link_batch b (mem w); Done (Sys s (<[t := AddRead f l]> (pcs w)), None)
      | _, _ => Fault
      end
  | StartDel t => Done (Sys (mem w) (<[t := DelRead]> (pcs w)), None)
  | Step t =>
      p ← of_option (pcs w !! t);
      r ← pc_step p (mem w);
      Done (Sys r.2 (match r.1.1 with Some p => <[t := p]> (pcs w) | None => delete t (pcs w) end), r.1.2)
  | DelAll t => let '(o, s) := llist_del_all (mem w) in Done (Sys s (pcs w), Some (RAll o))
  end.

(** ** The abstract stack *)

(** [stack] is the list, [adding] the batches under way, [deleter] the thread in
    llist_del_first and whether it has seen the empty list. *)
Record astate := AState { stack : list N; adding : gmap T (list N); deleter : option (T * bool) }.
Implicit Types a : astate.

Definition fresh_batch (b : list N) a : Prop :=
  b <> [] /\ NoDup b /\ (forall x, x ∈ b -> x ∉ stack a) /\
  (forall t b' x, adding a !! t = Some b' -> x ∈ b -> x ∉ b').

(** The discipline of the header's table: no two users of llist_del_first at a
    time, and no llist_del_all while there is one. *)
Definition allowed (lb : label) a (w : sys) : Prop :=
  match lb with
  | StartAdd t b => fresh_batch b a /\ adding a !! t = None /\ (forall e, deleter a <> Some (t, e)) /\
      forall x, x ∈ b -> is_Some (nodes (mem w) !! x)
  | StartDel t => deleter a = None /\ adding a !! t = None
  | Step t => is_Some (adding a !! t) \/ exists e, deleter a = Some (t, e)
  | DelAll t => deleter a = None
  end.

(** Each operation happens at one step: a batch is pushed as a whole, the first
    entry or all of them are taken.  llist_del_first returns NULL only if the
    list was empty at some point of the call. *)
Inductive astep : label -> astate -> option result -> astate -> Prop :=
| a_start t b st ad d : astep (StartAdd t b) (AState st ad d) None (AState st (<[t := b]> ad) d)
| a_startdel t st ad : astep (StartDel t) (AState st ad None) None (AState st ad (Some (t, false)))
| a_wait t a : astep (Step t) a None a
| a_add t b st ad d :
    ad !! t = Some b ->
    astep (Step t) (AState st ad d) (Some (RAdd (bool_decide (st = [])))) (AState (b ++ st) (delete t ad) d)
| a_del t x st ad : astep (Step t) (AState (x :: st) ad (Some (t, false))) (Some (RFirst (Some x))) (AState st ad None)
| a_see_empty t ad : astep (Step t) (AState [] ad (Some (t, false))) None (AState [] ad (Some (t, true)))
| a_del_none t st ad : astep (Step t) (AState st ad (Some (t, true))) (Some (RFirst None)) (AState st ad None)
| a_delall t st ad d : astep (DelAll t) (AState st ad d) (Some (RAll (head st))) (AState [] ad d).

(** ** Chains of nodes *)

(** From [o] through the nodes [l] to [e]. *)
Fixpoint lseg (m : gmap N (option N)) o l e : Prop :=
  match l with
  | [] => o = e
  | x :: l => o = Some x /\ exists p, m !! x = Some p /\ lseg m p l e
  end.

Lemma lseg_app m o l1 l2 e : lseg m o (l1 ++ l2) e <-> exists p, lseg m o l1 p /\ lseg m p l2 e.
Proof.
  revert o. induction l1 as [|x l1 IH]; intros o; cbn.
  - split; [eauto|by intros (p & -> & ?)].
  - split.
    + intros (-> & p & Hp & (q & ? & ?)%IH). eauto 10.
    + intros (q & (-> & p & Hp & ?) & ?). split; [done|]. exists p. split; [done|]. apply IH. eauto.
Qed.

Lemma lseg_insert m o l e x v : x ∉ l -> lseg m o l e -> lseg (<[x := v]> m) o l e.
Proof.
  revert o. induction l as [|y l IH]; intros o Hx; cbn; [done|]. intros (-> & p & Hp & Hl).
  apply not_elem_of_cons in Hx as [Hxy Hx]. split; [done|]. exists p. rewrite lookup_insert_ne by done. auto.
Qed.

Lemma lseg_head m o l : lseg m o l None -> o = head l.
Proof. destruct l; [done|by intros [-> _]]. Qed.

Lemma lseg_lookup m o l e x : lseg m o l e -> x ∈ l -> is_Some (m !! x).
Proof.
  revert o. induction l as [|y l IH]; intros o; [by intros _ ?%elem_of_nil|]. intros (_ & p & Hp & Hl) [->|Hx]%elem_of_cons; eauto.
Qed.

(** A batch: its nodes are linked up to the last one. *)
Definition batch (m : gmap N (option N)) (b : list N) (f z : N) : Prop := exists b', b = b' ++ [z] /\ lseg m (Some f) b' (Some z) /\ is_Some (m !! z).

(** A thread that adds [b], and the thread in llist_del_first. *)
Definition adder_ok (m : gmap N (option N)) (b : list N) (p : pc) : Prop :=
  match p with
  | AddRead f z | AddStore f z _ => batch m b f z
  | AddSwap f z o => batch m b f z /\ m !! z = Some o
  | _ => False
  end.

Definition deleter_ok (m : gmap N (option N)) (st : list N) (e : bool) (p : pc) : Prop :=
  match p with
  | DelRead => e = false
  | DelLoop None => e = true
  | DelLoop (Some x) => e = false /\ x ∈ st
  | DelSwap x n => e = false /\ x ∈ st /\ m !! x = Some n
  | _ => False
  end.

Record inv a (w : sys) : Prop := {
  i_chain : lseg (nodes (mem w)) (first (mem w)) (stack a) None;
  i_nodup : NoDup (stack a);
  i_add : forall t b, adding a !! t = Some b -> exists p, pcs w !! t = Some p /\ adder_ok (nodes (mem w)) b p;
  i_del : forall t e, deleter a = Some (t, e) -> exists p, pcs w !! t = Some p /\ deleter_ok (nodes (mem w)) (stack a) e p;
  i_sep : forall t e, deleter a = Some (t, e) -> adding a !! t = None;
  i_batch : forall t b, adding a !! t = Some b -> NoDup b /\ forall x, x ∈ b -> x ∉ stack a;
  i_disj : forall t t' b b' x, t <> t' -> adding a !! t = Some b -> adding a !! t' = Some b' -> x ∈ b -> x ∉ b' }.

(** Writing to a node outside of everything that [b] and [st] are made of. *)
Lemma adder_insert m b p x v : x ∉ b -> adder_ok m b p -> adder_ok (<[x := v]> m) b p.
Proof.
  assert (Hb : forall f z, x ∉ b -> batch m b f z -> batch (<[x := v]> m) b f z).
  { intros f z Hx (b' & -> & Hl & Hz). rewrite elem_of_app, list_elem_of_singleton in Hx. exists b'. split; [done|].
    split; [apply lseg_insert; [tauto|done]|]. rewrite lookup_insert_ne; [done|]. intros ->. tauto. }
  destruct p; cbn; try done; intros Hx; [by apply Hb..|]. intros [Hbt Hz]. split; [by apply Hb|].
  rewrite lookup_insert_ne; [done|]. intros ->. destruct Hbt as (b' & -> & _). apply Hx, elem_of_app. right. left.
Qed.

Lemma deleter_insert m st e p x v : x ∉ st -> deleter_ok m st e p -> deleter_ok (<[x := v]> m) st e p.
Proof.
  destruct p as [| | | |[y|]|y n]; cbn; try done. intros Hx (-> & Hy & Hn). split_and!; [done..|].
  by rewrite lookup_insert_ne by (by intros ->).
Qed.

(** A thread goes on without a store. *)
Lemma inv_adder a w t b p :
  inv a w -> adding a !! t = Some b -> adder_ok (nodes (mem w)) b p -> inv a (Sys (mem w) (<[t := p]> (pcs w))).
Proof.
  intros [Hc Hn Ha Hd Hs Hb Hj] Ht Hp. split; cbn; try done.
  - intros t' b' Ht'. destruct (decide (t = t')) as [<-|Hne]; [rewrite lookup_insert_eq|rewrite lookup_insert_ne by done; by apply Ha].
    exists p. split; [done|]. by rewrite Ht in Ht'; injection Ht' as <-.
  - intros t' e Ht'. rewrite lookup_insert_ne; [by apply Hd|]. intros <-. by rewrite (Hs _ _ Ht') in Ht.
Qed.

Lemma inv_deleter a w t e e' p :
  inv a w -> deleter a = Some (t, e) -> deleter_ok (nodes (mem w)) (stack a) e' p ->
  inv (AState (stack a) (adding a) (Some (t, e'))) (Sys (mem w) (<[t := p]> (pcs w))).
Proof.
  intros [Hc Hn Ha Hd Hs Hb Hj] Ht Hp. split; cbn; try done.
  - intros t' b' Ht'. rewrite lookup_insert_ne; [by apply Ha|]. intros <-. by rewrite (Hs _ _ Ht) in Ht'.
  - intros t' e0 [= <- <-]. exists p. by rewrite lookup_insert_eq.
  - intros t' e0 [= <- <-]. by apply (Hs _ _ Ht).
Qed.

(** The store to the last node of a batch. *)
Lemma inv_store a w t b f z o :
  inv a w -> adding a !! t = Some b -> batch (nodes (mem w)) b f z ->
  inv a (Sys (LList (<[z := o]> (nodes (mem w))) (first (mem w))) (<[t := AddSwap f z o]> (pcs w))).
Proof.
  intros HI Ht Hbt. pose proof Hbt as (b' & -> & Hl & Hz). pose proof HI as [Hc Hn Ha Hd Hs Hb Hj].
  destruct (Hb _ _ Ht) as [Hnd Hst]. assert (Hzb : z ∈ b' ++ [z]) by (rewrite elem_of_app; right; left).
  assert (Hzs : z ∉ stack a) by by apply Hst. split; cbn.
  - by apply lseg_insert.
  - done.
  - intros t' b0 Ht'. destruct (decide (t = t')) as [<-|Hne].
    + rewrite lookup_insert_eq. rewrite Ht in Ht'. injection Ht' as <-. eexists. split; [done|]. cbn. rewrite lookup_insert_eq.
      split; [|done]. exists b'. split; [done|]. split; [|by rewrite lookup_insert_eq]. apply lseg_insert; [|done].
      apply NoDup_app in Hnd as (_ & Hnd & _). intros Hin. apply (Hnd z Hin). left.
    + rewrite lookup_insert_ne by done. destruct (Ha _ _ Ht') as (p & Hp & Hok). exists p. split; [done|].
      apply adder_insert; [|done]. by apply (Hj t t' (b' ++ [z])).
  - intros t' e Ht'. rewrite lookup_insert_ne by (by intros <-; rewrite (Hs _ _ Ht') in Ht).
    destruct (Hd _ _ Ht') as (p & Hp & Hok). exists p. split; [done|]. by apply deleter_insert.
  - done.
  - done.
  - done.
Qed.

(** The swap that pushes a batch. *)
Lemma inv_push a w t b f z :
  inv a w -> adding a !! t = Some b -> batch (nodes (mem w)) b f z -> nodes (mem w) !! z = Some (first (mem w)) ->
  inv (AState (b ++ stack a) (delete t (adding a)) (deleter a)) (Sys (LList (nodes (mem w)) (Some f)) (delete t (pcs w))).
Proof.
  intros [Hc Hn Ha Hd Hs Hb Hj] Ht (b' & -> & Hl & _) Hz. destruct (Hb _ _ Ht) as [Hnd Hst]. split; cbn.
  - rewrite <-app_assoc. apply lseg_app. exists (Some z). split; [done|]. cbn. split; [done|]. eauto.
  - apply NoDup_app. split_and!; [done|by apply Hst|done].
  - intros t' b0 [Hne Ht']%lookup_delete_Some. rewrite lookup_delete_ne by done. by apply Ha.
  - intros t' e Ht'. rewrite lookup_delete_ne by (by intros <-; rewrite (Hs _ _ Ht') in Ht).
    destruct (Hd _ _ Ht') as (p & Hp & Hok). exists p. split; [done|]. destruct p as [| | | |[y|]|y n]; cbn in *; try done;
      rewrite ?elem_of_app; naive_solver.
  - intros t' e Ht'. apply lookup_delete_None. right. by apply (Hs _ e).
  - intros t' b0 [Hne Ht']%lookup_delete_Some. destruct (Hb _ _ Ht') as [Hnd' Hst']. split; [done|]. intros x Hx.
    rewrite elem_of_app. intros [Hxb|Hxs]; [|by apply (Hst' x)]. by apply (Hj t' t b0 (b' ++ [z]) x).
  - intros t1 t2 b1 b2 x Hne [_ H1]%lookup_delete_Some [_ H2]%lookup_delete_Some. by apply (Hj t1 t2).
Qed.

(** The end of an llist_del_first that leaves [st]. *)
Lemma inv_take a w t e st o :
  inv a w -> deleter a = Some (t, e) -> lseg (nodes (mem w)) o st None -> NoDup st -> (forall x, x ∈ st -> x ∈ stack a) ->
  inv (AState st (adding a) None) (Sys (LList (nodes (mem w)) o) (delete t (pcs w))).
Proof.
  intros [Hc Hn Ha Hd Hs Hb Hj] Ht Hl Hnd Hsub. split; cbn; try done.
  - intros t' b Ht'. rewrite lookup_delete_ne; [by apply Ha|]. intros <-. by rewrite (Hs _ _ Ht) in Ht'.
  - intros t' b Ht'. destruct (Hb _ _ Ht') as [Hnd' Hst']. split; [done|]. intros x Hx Hin. by apply (Hst' x Hx), Hsub.
Qed.

Lemma first_stack a w : inv a w -> first (mem w) = head (stack a).
Proof. intros HI. exact (lseg_head _ _ _ (i_chain _ _ HI)). Qed.

Lemma add_step a w t b p :
  inv a w -> adding a !! t = Some b -> pcs w !! t = Some p -> adder_ok (nodes (mem w)) b p ->
  exists w' r a', step (Step t) w = Done (w', r) /\ astep (Step t) a r a' /\ inv a' w'.
Proof.
  intros HI Ht Hp Hok. cbn [step]. rewrite Hp. cbn [of_option]. rewrite outcome_bind_ret.
  destruct p as [f z|f z o|f z o| | |]; cbn in Hok; try done; cbn [pc_step llist_add_batch_step].
  - eexists _, _, a. split; [done|]. split; [apply a_wait|]. by eapply inv_adder.
  - unfold set_next. assert (Hz : is_Some (nodes (mem w) !! z)) by by destruct Hok as (_ & _ & _ & ?).
    destruct Hz as [v Hz]. rewrite Hz. cbn [of_option]. eexists _, _, a. split; [done|]. split; [apply a_wait|]. by eapply inv_store.
  - destruct Hok as [Hbt Hz]. unfold CAS_first. case_bool_decide as Hf; cbn.
    + eexists _, _, (AState (b ++ stack a) (delete t (adding a)) (deleter a)). split; [done|]. subst o. split; [|by apply (inv_push a w t b f z)].
      rewrite (first_stack _ _ HI). destruct a as [st ad d]. cbn in *.
      replace (bool_decide (head st = None)) with (bool_decide (st = [])) by (apply bool_decide_ext; by destruct st).
      by apply a_add.
    + eexists _, _, a. split; [done|]. split; [apply a_wait|]. by eapply inv_adder.
Qed.

(** [entry] is a value of head->first, read in a state in which the list is
    [stack a]. *)
Lemma loop_step a w t :
  inv a w -> deleter a = Some (t, false) ->
  exists a', astep (Step t) a None a' /\ inv a' (Sys (mem w) (<[t := DelLoop (first (mem w))]> (pcs w))).
Proof.
  intros HI Ht. rewrite (first_stack _ _ HI). destruct a as [st ad d]. cbn in *. subst d. destruct st as [|x st]; cbn.
  - exists (AState [] ad (Some (t, true))). split; [apply a_see_empty|]. by eapply (inv_deleter _ _ t false true _ HI).
  - exists (AState (x :: st) ad (Some (t, false))). split; [apply a_wait|]. eapply (inv_deleter _ _ t false false _ HI); [done|].
    split; [done|left].
Qed.

Lemma del_step a w t e p :
  inv a w -> deleter a = Some (t, e) -> pcs w !! t = Some p -> deleter_ok (nodes (mem w)) (stack a) e p ->
  exists w' r a', step (Step t) w = Done (w', r) /\ astep (Step t) a r a' /\ inv a' w'.
Proof.
  intros HI Ht Hp Hok. cbn [step]. rewrite Hp. cbn [of_option]. rewrite outcome_bind_ret.
  destruct p as [| | | |[x|]|x n]; cbn in Hok; try done; cbn [pc_step llist_del_first_step].
  - subst e. destruct (loop_step _ _ _ HI Ht) as (a' & Ha & HI'). eexists _, _, a'. split; [done|]. by split.
  - destruct Hok as [-> Hx]. destruct (lseg_lookup _ _ _ _ x (i_chain _ _ HI) Hx) as [n Hn]. unfold llist_next. rewrite Hn.
    cbn [of_option]. rewrite outcome_bind_ret. eexists _, _, (AState (stack a) (adding a) (Some (t, false))). split; [done|].
    split; [|by eapply inv_deleter]. destruct a as [st ad d]. cbn in *. subst d. apply a_wait.
  - subst e. eexists _, _, (AState (stack a) (adding a) None). split; [done|]. split.
    + destruct a as [st ad d]. cbn in *. subst d. apply a_del_none.
    + pose proof HI as [Hc Hn _ _ _ _ _]. pose proof (inv_take a w t true (stack a) (first (mem w)) HI Ht Hc Hn (fun x Hx => Hx)) as HT. cbn. by destruct (mem w).
  - destruct Hok as (-> & Hx & Hn). unfold CAS_first. case_bool_decide as Hf; cbn.
    + pose proof (first_stack _ _ HI) as Hh. rewrite Hf in Hh. pose proof HI as [Hc Hnd _ _ _ _ _].
      destruct a as [st ad d]. cbn in *. subst d. destruct st as [|y st]; [done|]. injection Hh as ->.
      destruct Hc as (_ & n' & Hn' & Hc). rewrite Hn in Hn'. injection Hn' as <-. apply NoDup_cons in Hnd as [_ Hnd].
      eexists _, _, (AState st ad None). split; [done|]. split; [apply a_del|].
      eapply (inv_take (AState (y :: st) ad (Some (t, false))) w t false st n); cbn; try done. intros z Hz. by right.
    + destruct (loop_step _ _ _ HI Ht) as (a' & Ha & HI'). eexists _, _, a'. split; [done|]. by split.
Qed.

Lemma link_batch_ok b s f z :
  NoDup b -> head b = Some f -> last b = Some z -> (forall x, x ∈ b -> is_Some (nodes s !! x)) ->
  exists s', link_batch b s = Done s' /\ first s' = first s /\ batch (nodes s') b f z /\
    forall x, x ∉ b -> nodes s' !! x = nodes s !! x.
Proof.
  revert s f. induction b as [|x b IH]; intros s f Hnd Hh Hz Hal; [done|]. injection Hh as ->. destruct b as [|y b].
  - injection Hz as ->. exists s. split; [done|]. split; [done|]. split; [|done]. exists []. split; [done|]. split; [done|]. apply Hal. left.
  - apply NoDup_cons in Hnd as [Hf Hnd]. destruct (Hal f) as [v Hv]; [left|].
    destruct (IH (LList (<[f := Some y]> (nodes s)) (first s)) y) as (s' & E & Hfst & (b' & Eb & Hl & Hz') & Hsame); [done|done|done| |].
    { intros w Hw. cbn. apply lookup_insert_is_Some'. right. apply Hal. by right. }
    exists s'. split; [|split; [done|split]].
    + change (link_batch (f :: y :: b) s) with (s0 ← set_next f (Some y) s; link_batch (y :: b) s0). unfold set_next. rewrite Hv.
      cbn [of_option]. rewrite !outcome_bind_ret. exact E.
    + exists (f :: b'). rewrite Eb. split; [done|]. split; [|done]. split; [done|]. exists (Some y). split; [|done].
      rewrite Hsame by done. cbn. by rewrite lookup_insert_eq.
    + intros w Hw. apply not_elem_of_cons in Hw as [Hwf Hw]. rewrite Hsame by done. cbn. by rewrite lookup_insert_ne.
Qed.

Lemma adder_same m m' b p : (forall x, x ∈ b -> m' !! x = m !! x) -> adder_ok m b p -> adder_ok m' b p.
Proof.
  intros Hs. assert (Hl : forall l o e, (forall x, x ∈ l -> m' !! x = m !! x) -> lseg m o l e -> lseg m' o l e).
  { induction l as [|y l IH]; intros o e Hm; [done|]. cbn. intros (-> & p0 & Hp & Hl). split; [done|]. exists p0.
    rewrite Hm by left. split; [done|]. apply IH; [|done]. intros; apply Hm; by right. }
  assert (Hb : forall f z, batch m b f z -> batch m' b f z).
  { intros f z (b' & -> & Hb' & Hz). exists b'. split; [done|]. split; [apply Hl; [|done]; intros; apply Hs, elem_of_app; by left|].
    rewrite Hs; [done|]. apply elem_of_app. right. left. }
  destruct p; cbn; try done; [by apply Hb..|]. intros [Hbt Hz]. split; [by apply Hb|]. rewrite Hs; [done|].
  destruct Hbt as (b' & -> & _). apply elem_of_app. right. left.
Qed.

Lemma deleter_same m m' st e p : (forall x, x ∈ st -> m' !! x = m !! x) -> deleter_ok m st e p -> deleter_ok m' st e p.
Proof. intros Hs. destruct p as [| | | |[y|]|y n]; cbn; try done. intros (-> & Hy & Hn). by rewrite Hs. Qed.

Lemma lseg_same m m' o l e : (forall x, x ∈ l -> m' !! x = m !! x) -> lseg m o l e -> lseg m' o l e.
Proof.
  revert o. induction l as [|y l IH]; intros o Hm; [done|]. cbn. intros (-> & p0 & Hp & Hl). split; [done|]. exists p0.
  rewrite Hm by left. split; [done|]. apply IH; [|done]. intros; apply Hm; by right.
Qed.

Lemma start_step a w t b :
  inv a w -> allowed (StartAdd t b) a w ->
  exists w' r a', step (StartAdd t b) w = Done (w', r) /\ astep (StartAdd t b) a r a' /\ inv a' w'.
Proof.
  intros HI ((Hne & Hnd & Hst & Hother) & Hta & Htd & Hal). pose proof HI as [Hc Hn Ha Hd Hs Hb Hj].
  destruct b as [|f b0] eqn:Eb; [done|]. rewrite <-Eb in *. destruct (last b) as [z|] eqn:Ez; [|by apply last_None in Ez].
  destruct (link_batch_ok b (mem w) f z) as (s' & E & Hfst & Hbt & Hsame); [done|by subst|done|done|].
  exists (Sys s' (<[t := AddRead f z]> (pcs w))), None, (AState (stack a) (<[t := b]> (adding a)) (deleter a)).
  split; [|split].
  - cbn [step]. rewrite Eb. rewrite <-Eb. rewrite Ez, E. done.
  - destruct a. apply a_start.
  - split; cbn.
    + rewrite Hfst. apply (lseg_same (nodes (mem w))); [|done]. intros x Hx. apply Hsame. intros Hxb. by apply (Hst x).
    + done.
    + intros t' b' [[<- <-]|[Hne' Ht']]%lookup_insert_Some.
      * exists (AddRead f z). by rewrite lookup_insert_eq.
      * rewrite lookup_insert_ne by done. destruct (Ha _ _ Ht') as (p & Hp & Hok). exists p. split; [done|].
        apply (adder_same (nodes (mem w))); [|done]. intros x Hx. apply Hsame. intros Hxb. by apply (Hother t' b' x).
    + intros t' e Ht'. rewrite lookup_insert_ne by (intros <-; by apply (Htd e)). destruct (Hd _ _ Ht') as (p & Hp & Hok).
      exists p. split; [done|]. apply (deleter_same (nodes (mem w))); [|done]. intros x Hx. apply Hsame. intros Hxb. by apply (Hst x).
    + intros t' e Ht'. apply lookup_insert_None. split; [by apply (Hs _ e)|]. intros <-. by apply (Htd e).
    + intros t' b' [[<- <-]|[Hne' Ht']]%lookup_insert_Some; [by split|by apply (Hb t')].
    + intros t1 t2 b1 b2 x Hne' [[<- <-]|[Hn1 H1]]%lookup_insert_Some [[<- <-]|[Hn2 H2]]%lookup_insert_Some Hx.
      * done.
      * by apply (Hother t2 b2 x).
      * intros Hxb. by apply (Hother t1 b1 x).
      * by apply (Hj t1 t2 b1 b2 x).
Qed.

Lemma step_sim a w lb :
  inv a w -> allowed lb a w -> exists w' r a', step lb w = Done (w', r) /\ astep lb a r a' /\ inv a' w'.
Proof.
  intros HI Hal. pose proof HI as [Hc Hn Ha Hd Hs Hb Hj]. destruct lb as [t b|t|t|t].
  - by apply start_step.
  - destruct Hal as [Hdel Hta]. eexists _, None, (AState (stack a) (adding a) (Some (t, false))). split; [done|].
    split; [destruct a; cbn in *; subst; apply a_startdel|]. split; cbn; try done.
    + intros t' b Ht'. rewrite lookup_insert_ne; [by apply Ha|]. intros <-. by rewrite Ht' in Hta.
    + intros t' e [= <- <-]. exists DelRead. by rewrite lookup_insert_eq.
    + by intros t' e [= <- <-].
  - destruct Hal as [[b Ht]|[e Ht]].
    + destruct (Ha _ _ Ht) as (p & Hp & Hok). by apply (add_step a w t b p).
    + destruct (Hd _ _ Ht) as (p & Hp & Hok). by apply (del_step a w t e p).
  - cbn in Hal. eexists _, _, (AState [] (adding a) (deleter a)). split; [done|]. split.
    + rewrite (first_stack _ _ HI). destruct a. apply a_delall.
    + split; cbn; try done; [constructor| |].
      * intros t' e Ht'. by rewrite Hal in Ht'.
      * intros t' b Ht'. split; [by apply (Hb t')|]. by intros x _ ?%elem_of_nil.
Qed.

(** ** Whole histories *)
Fixpoint steps (ls : list label) (w : sys) : outcome (sys * list (option result)) :=
  match ls with
  | [] => Done (w, [])
  | lb :: ls => r ← step lb w; rs ← steps ls r.1; Done (rs.1, r.2 :: rs.2)
  end.

Inductive asteps : list label -> astate -> list (option result) -> astate -> Prop :=
| as_nil a : asteps [] a [] a
| as_cons lb ls a r a1 rs a2 : astep lb a r a1 -> asteps ls a1 rs a2 -> asteps (lb :: ls) a (r :: rs) a2.

(** The schedule keeps to the header's table, whatever the steps before did. *)
Inductive disciplined : list label -> astate -> sys -> Prop :=
| d_nil a w : disciplined [] a w
| d_cons lb ls a w :
    allowed lb a w ->
    (forall w' r a', step lb w = Done (w', r) -> astep lb a r a' -> disciplined ls a' w') ->
    disciplined (lb :: ls) a w.

(** C40: under every [disciplined] schedule, of pushers, one llist_del_first at a
    time, and llist_del_all while nobody is in llist_del_first, no operation follows a
    bad pointer, and the results are those of a stack on which every operation happens
    at one instant between its call and its return. *)
Theorem llist_linearizable ls a w :
  inv a w -> disciplined ls a w ->
  exists w' rs a', steps ls w = Done (w', rs) /\ asteps ls a rs a' /\ inv a' w'.
Proof.
  intros HI Hd. revert HI. induction Hd as [a w|lb ls a w Hal _ IH]; intros HI.
  - exists w, [], a. split; [done|]. split; [apply as_nil|done].
  - destruct (step_sim _ _ _ HI Hal) as (w1 & r & a1 & E & Ha & HI1).
    destruct (IH _ _ _ E Ha HI1) as (w2 & rs & a2 & E2 & Ha2 & HI2). exists w2, (r :: rs), a2.
    cbn [steps]. rewrite E. cbn [mbind outcome_bind fst snd]. rewrite E2. split; [done|]. split; [by eapply as_cons|done].
Qed.

(** llist_reverse_order turns a chain around. *)
Lemma reverse_from_ok fuel l m fst_ o acc :
  (length l <= fuel)%nat -> lseg m o l None ->
  forall q, lseg m q acc None -> NoDup (l ++ acc) ->
  exists q' s', reverse_from fuel o q (LList m fst_) = Done (q', s') /\ first s' = fst_ /\ lseg (nodes s') q' (rev l ++ acc) None.
Proof.
  revert m o acc fuel. induction l as [|x l IH]; intros m o acc fuel Hf Hl q Hq Hnd; cbn in Hl.
  - subst o. destruct fuel; cbn; eauto.
  - destruct Hl as (-> & n & Hn & Hl). destruct fuel as [|fuel]; [cbn in Hf; lia|]. cbn [reverse_from]. unfold llist_next, set_next. cbn [nodes].
    rewrite Hn. cbn [of_option]. rewrite !outcome_bind_ret. cbn [nodes first]. apply NoDup_cons in Hnd as [Hx Hnd].
    rewrite elem_of_app in Hx. destruct (IH (<[x := q]> m) n (x :: acc) fuel) with (q := Some x) as (q' & s' & E & Hfs & Hr).
    + cbn in Hf. lia.
    + apply lseg_insert; [tauto|done].
    + cbn. split; [done|]. exists q. rewrite lookup_insert_eq. split; [done|]. apply lseg_insert; [tauto|done].
    + rewrite <-Permutation_middle. apply NoDup_cons. by rewrite elem_of_app.
    + exists q', s'. split; [exact E|]. split; [done|]. cbn [rev]. by rewrite <-app_assoc.
Qed.

Lemma llist_reverse fuel l s o :
  (length l <= fuel)%nat -> NoDup l -> lseg (nodes s) o l None ->
  exists q s', llist_reverse_order fuel o s = Done (q, s') /\ first s' = first s /\ lseg (nodes s') q (rev l) None.
Proof.
  intros Hf Hnd Hl. destruct s as [m f]. cbn in Hl.
  destruct (reverse_from_ok fuel l m f o [] Hf Hl None) as (q & s' & E & Hfs & Hr); [done|by rewrite app_nil_r|].
  rewrite app_nil_r in Hr. by exists q, s'.
Qed.
End llist.

(** ** A concrete history: thread 1 pushes the nodes 10 and 11, thread 2 takes
    the list *)
Section example.
Abbreviation lsys := (sys (N:=nat) (T:=nat)).

Definition new_nodes : lsys := Sys (LList (<[10%nat := None]> (<[11%nat := None]> ∅)) None) ∅.
Definition no_threads : astate (N:=nat) (T:=nat) := AState [] ∅ None.
Definition push_and_take : list (label (N:=nat) (T:=nat)) := [StartAdd 1 [10; 11]; Step 1; Step 1; Step 1; DelAll 2]%nat.

Lemma new_nodes_inv : inv no_threads new_nodes.
Proof. split; try done. constructor. Qed.

Lemma push_and_take_disciplined : disciplined push_and_take no_threads new_nodes.
Proof.
  apply d_cons.
  { split_and!; [split_and!; [done|by apply (bool_decide_unpack _); vm_compute|by intros ? _ ?%elem_of_nil|done]|done|done|].
    intros x [->|[->|?%elem_of_nil]%elem_of_cons]%elem_of_cons; [by vm_compute; eexists..|done]. }
  intros w r a E Ha. vm_compute in E. injection E as <- <-. inversion Ha; subst.
  do 2 (apply d_cons; [left; by eexists|]; intros w r a E Ha'; vm_compute in E; injection E as <- <-; inversion Ha'; subst; clear Ha').
  apply d_cons; [left; by eexists|]. intros w r a E Ha'. vm_compute in E. injection E as <- <-. inversion Ha'; subst.
  apply d_cons; [done|]. intros. apply d_nil.
Qed.

Lemma llist_linearizable_witness : exists w rs a, steps push_and_take new_nodes = Done (w, rs) /\
  asteps push_and_take no_threads rs a.
Proof.
  destruct (llist_linearizable push_and_take no_threads new_nodes new_nodes_inv push_and_take_disciplined) as (w & rs & a & E & Ha & _).
  by exists w, rs, a.
Defined.
End example.
