(* ===== verification/FdCtx.v ===== *)
(** * core/fd_ctx.h, core/src/fd_ctx.cpp: the table of descriptor contexts

    An array of pointers to fd_ctx_t, indexed by descriptor, that grows on
    demand.  A slot holds the context that its pointer points to, if any: every
    context has one pointer in the table.  An access outside of the allocated
    array is a [Fault].  The theorems: the table is a finite map whose accessors
    never leave the array, whatever its size; the two exceptions are a
    free_fd_ctx of the descriptor that equals the size, and the destructor, once
    the table has grown. *)
From S2P Require Import Prelude.

Record fd_ctx_t := FdCtx {
  type_ : Z; fd_ : Z; user_flag : Z; closed : Z; rcv_timeout : Z; snd_timeout : Z; domain : Z }.

(** fd_ctx_mgr_t *)
Record fd_ctx_mgr_t := Mgr { fds : list (option fd_ctx_t); size : Z }.
Implicit Types (m : fd_ctx_mgr_t) (fd : Z).

(** mgr->fds[i] *)
Definition slot (i : Z) m : outcome (option fd_ctx_t) := if i <? 0 then Fault else of_option (fds m !! Z.to_nat i).
Definition set_slot (i : Z) (c : option fd_ctx_t) m : outcome fd_ctx_mgr_t :=
  _ ← slot i m; Done (Mgr (<[Z.to_nat i := c]> (fds m)) (size m)).

(** create_fd_ctx_mgr *)
Definition create_fd_ctx_mgr (n : Z) : fd_ctx_mgr_t := Mgr (replicate (Z.to_nat (n + 1)) None) n.

(** The loop of fd_ctx_expand; an int that overflows is undefined. *)
Fixpoint grow (fuel : nat) (n need_size : Z) : outcome Z :=
  if n <=? need_size then
    match fuel with
    | O => NoFuel
    | S fuel => if 2 ^ 31 <=? n + 10000 then Fault else grow fuel (n + 10000) need_size
    end
  else Done n.

(** fd_ctx_expand; memcpy reads [size] slots.  The old array is not deleted. *)
Definition fd_ctx_expand (fuel : nat) (need_size : Z) m : outcome fd_ctx_mgr_t :=
  n ← grow fuel (size m) need_size;
  if Z.of_nat (length (fds m)) <? size m then Fault
  else Done (Mgr (take (Z.to_nat (size m)) (fds m) ++ replicate (Z.to_nat (n - size m)) None) n).

(** The common start of the accessors: expand when fd >= mgr->size. *)
Definition reserve (fuel : nat) fd m : outcome fd_ctx_mgr_t :=
  if size m <=? fd then fd_ctx_expand fuel (fd + 1) m else Done m.

(** get_fd_ctx on an existing manager; [None] is NULL. *)
Definition get_fd_ctx (fuel : nat) fd (type : Z) m : outcome (option fd_ctx_t * fd_ctx_mgr_t) :=
  if fd <? 0 then Done (None, m)
  else
    m ← reserve fuel fd m;
    c ← slot fd m;
    match c with
    | None => Done (None, m)
    | Some ctx => if type =? 0 then Done (Some ctx, m)
                  else if type_ ctx =? type then Done (Some ctx, m) else Done (None, m)
    end.

Section kernel.
Context {K : Type}.

(** The kernel's fcntl. *)
Variable fcntl : Z -> Z -> Z -> K -> Z * K.

Definition F_GETFL : Z := 3.
Definition F_SETFL : Z := 4.
Definition O_NONBLOCK : Z := 2048.

(** alloc_fd_ctx2; a negative descriptor fails an assertion.  All the fields but
    [dest] are set, so that a context that was there before is overwritten. *)
Definition alloc_fd_ctx2 (fuel : nat) fd (type : Z) (has_nonblocked : bool) (mk : fd_ctx_mgr_t * K)
    : outcome (option fd_ctx_t * (fd_ctx_mgr_t * K)) :=
  if fd <? 0 then Fault
  else
    m ← reserve fuel fd mk.1;
    _ ← slot fd m;
    m ← set_slot fd (Some (FdCtx type fd 0 0 1000 1000 0)) m;
    let k := if has_nonblocked then mk.2
             else let '(flags, k) := fcntl fd F_GETFL 0 mk.2 in (fcntl fd F_SETFL (Z.lor flags O_NONBLOCK) k).2 in
    c ← slot fd m;
    Done (c, (m, k)).

Definition alloc_fd_ctx (fuel : nat) fd (type : Z) := alloc_fd_ctx2 fuel fd type false.
End kernel.

(** free_fd_ctx *)
Definition free_fd_ctx fd m : outcome (Z * fd_ctx_mgr_t) :=
  if fd <? 0 then Done (-1, m)
  else if size m <? fd then Done (-2, m)
  else
    c ← slot fd m;
    match c with
    | None => Done (-2, m)
    | Some _ => m ← set_slot fd None m; Done (0, m)
    end.

(** free_fd_ctx_mgr: the contexts it deletes, in order. *)
Fixpoint delete_from (fuel : nat) (i : Z) m : outcome (list fd_ctx_t) :=
  if i <=? size m then
    match fuel with
    | O => NoFuel
    | S fuel =>
        c ← slot i m;
        r ← delete_from fuel (i + 1) m;
        Done (match c with Some c => c :: r | None => r end)
    end
  else Done [].

Definition free_fd_ctx_mgr (fuel : nat) m : outcome (list fd_ctx_t) := delete_from fuel 0 m.

(** ** The table as a map *)

Definition mgr_ok m : Prop := 0 <= size m < 2 ^ 31 /\ size m <= Z.of_nat (length (fds m)).

(** The context of a descriptor. *)
Definition ctx_of m fd : option fd_ctx_t :=
  if (0 <=? fd) && (fd <? size m) then mjoin (fds m !! Z.to_nat fd) else None.

Lemma slot_ok m fd : mgr_ok m -> 0 <= fd < size m -> slot fd m = Done (ctx_of m fd).
Proof.
  intros [Hs Hl] Hfd. unfold slot, ctx_of. rewrite (proj2 (Z.ltb_ge fd 0)), (proj2 (Z.leb_le 0 fd)), (proj2 (Z.ltb_lt fd _)) by lia.
  cbn [andb]. destruct (lookup_lt_is_Some_2 (fds m) (Z.to_nat fd)) as [c Hc]; [lia|]. by rewrite Hc.
Qed.

Lemma grow_ok need fuel n :
  n <= need -> need < n + Z.of_nat fuel * 10000 -> need + 10000 < 2 ^ 31 ->
  exists n', grow fuel n need = Done n' /\ need < n' <= need + 10000.
Proof.
  revert n. induction fuel as [|fuel IH]; intros n Hn Hf Hb; [lia|]. cbn [grow]. rewrite (proj2 (Z.leb_le _ _)) by done.
  rewrite (proj2 (Z.leb_gt _ _)) by lia. destruct (Z.le_gt_cases (n + 10000) need) as [Hle|Hgt].
  - apply IH; lia.
  - exists (n + 10000). split; [|lia]. destruct fuel; cbn [grow]; by rewrite (proj2 (Z.leb_gt _ _)).
Qed.

(** Fuel that is enough for every descriptor below [fd]. *)
Definition fuel_for fd : nat := S (Z.to_nat ((fd + 1) / 10000 + 1)).

Lemma reserve_ok fuel m fd :
  mgr_ok m -> 0 <= fd -> fd + 10001 < 2 ^ 31 -> (fuel_for fd <= fuel)%nat ->
  exists m', reserve fuel fd m = Done m' /\ mgr_ok m' /\ fd < size m' /\ (size m <= size m') /\ (forall i, ctx_of m' i = ctx_of m i) /\
    (size m <= fd -> Z.of_nat (length (fds m')) = size m').
Proof.
  intros [Hs Hl] Hfd Hb Hf. unfold reserve. destruct (Z.leb_spec (size m) fd) as [Hge|Hlt]; [|exists m; split_and!; done || lia].
  assert (Hfu : fd + 1 < size m + Z.of_nat fuel * 10000).
  { pose proof (Z.div_mod (fd + 1) 10000 ltac:(lia)). pose proof (Z.mod_pos_bound (fd + 1) 10000 ltac:(lia)).
    assert (0 <= (fd + 1) / 10000) by (apply Z.div_pos; lia). unfold fuel_for in Hf. lia. }
  destruct (grow_ok (fd + 1) fuel (size m)) as (n & E & Hn); [lia|lia|lia|].
  unfold fd_ctx_expand. rewrite E, outcome_bind_ret, (proj2 (Z.ltb_ge _ _)) by lia. eexists. split; [done|].
  set (m' := Mgr _ n).
  assert (Hlen : Z.of_nat (length (fds m')) = n).
  { cbn. rewrite length_app, length_take, length_replicate. lia. }
  assert (Hn' : size m' = n) by done. split_and!; [split; lia|lia|lia| |by rewrite Hlen].
  intros i. unfold ctx_of. cbn [size fds m'].
  destruct (Z.leb_spec 0 i); cbn; [|done]. destruct (Z.ltb_spec i (size m)) as [Hi|Hi].
  - rewrite (proj2 (Z.ltb_lt i n)) by lia. rewrite lookup_app_l by (rewrite length_take; lia). by rewrite lookup_take_lt by lia.
  - destruct (Z.ltb_spec i n); [|done]. rewrite lookup_app_r by (rewrite length_take; lia).
    rewrite length_take. rewrite lookup_replicate_2 by lia. done.
Qed.

Lemma set_slot_ok m fd c :
  mgr_ok m -> 0 <= fd < size m ->
  exists m', set_slot fd c m = Done m' /\ mgr_ok m' /\ size m' = size m /\ length (fds m') = length (fds m) /\
    forall i, ctx_of m' i = if bool_decide (i = fd) then c else ctx_of m i.
Proof.
  intros Hok Hfd. unfold set_slot. rewrite (slot_ok m fd) by done. rewrite outcome_bind_ret. eexists. split; [done|].
  destruct Hok as [Hs Hl]. split_and!; cbn; try done; [split; cbn; rewrite ?length_insert; lia|by rewrite length_insert|].
  intros i. unfold ctx_of. cbn [size fds]. case_bool_decide as Hi.
  - subst i. rewrite (proj2 (Z.leb_le 0 fd)), (proj2 (Z.ltb_lt fd _)) by lia. cbn [andb]. by rewrite list_lookup_insert_eq by lia.
  - destruct (Z.leb_spec 0 i); [|done]. destruct (Z.ltb_spec i (size m)); [|done]. cbn [andb].
    rewrite list_lookup_insert_ne by lia. done.
Qed.

(** What a call of get_fd_ctx selects. *)
Definition select (type : Z) (c : option fd_ctx_t) : option fd_ctx_t :=
  match c with Some ctx => if (type =? 0) || (type_ ctx =? type) then Some ctx else None | None => None end.

Lemma get_fd_ctx_ok fuel fd type m :
  mgr_ok m -> 0 <= fd -> fd + 10001 < 2 ^ 31 -> (fuel_for fd <= fuel)%nat ->
  exists m', get_fd_ctx fuel fd type m = Done (select type (ctx_of m fd), m') /\ mgr_ok m' /\ forall i, ctx_of m' i = ctx_of m i.
Proof.
  intros Hm Hfd Hb Hf. destruct (reserve_ok fuel m fd Hm Hfd Hb Hf) as (m' & E & Hm' & Hlt & _ & Hsame & _).
  exists m'. split; [|done]. unfold get_fd_ctx. rewrite (proj2 (Z.ltb_ge fd 0)), E, outcome_bind_ret by done.
  rewrite slot_ok, outcome_bind_ret, Hsame by done. destruct (ctx_of m fd) as [c|]; cbn; [|done].
  destruct (type =? 0); [done|]. by destruct (type_ c =? type).
Qed.

Lemma alloc_fd_ctx2_ok {K} (fcntl : Z -> Z -> Z -> K -> Z * K) fuel fd type nb m k :
  mgr_ok m -> 0 <= fd -> fd + 10001 < 2 ^ 31 -> (fuel_for fd <= fuel)%nat ->
  exists m' k', alloc_fd_ctx2 fcntl fuel fd type nb (m, k) = Done (Some (FdCtx type fd 0 0 1000 1000 0), (m', k')) /\ mgr_ok m' /\
    k' = (if nb then k else (fcntl fd F_SETFL (Z.lor (fcntl fd F_GETFL 0 k).1 O_NONBLOCK) (fcntl fd F_GETFL 0 k).2).2) /\
    forall i, ctx_of m' i = if bool_decide (i = fd) then Some (FdCtx type fd 0 0 1000 1000 0) else ctx_of m i.
Proof.
  intros Hm Hfd Hb Hf. destruct (reserve_ok fuel m fd Hm Hfd Hb Hf) as (m' & E & Hm' & Hlt & _ & Hsame & _).
  destruct (set_slot_ok m' fd (Some (FdCtx type fd 0 0 1000 1000 0)) Hm' ltac:(lia)) as (m2 & E2 & Hm2 & Hsz & _ & Hctx).
  unfold alloc_fd_ctx2. rewrite (proj2 (Z.ltb_ge fd 0)) by done. cbn [fst snd]. rewrite E, outcome_bind_ret, slot_ok, outcome_bind_ret by done.
  rewrite E2, outcome_bind_ret, slot_ok, outcome_bind_ret by (done || lia). rewrite Hctx, bool_decide_true by done.
  eexists _, _. split; [done|]. split; [done|]. split; [|intros i; rewrite Hctx; by rewrite Hsame].
  destruct nb; [done|]. by destruct (fcntl fd F_GETFL 0 k).
Qed.

Lemma free_fd_ctx_ok fd m :
  mgr_ok m -> 0 <= fd -> fd <> size m ->
  exists m', free_fd_ctx fd m = Done (if ctx_of m fd is Some _ then 0 else -2, m') /\ mgr_ok m' /\
    forall i, ctx_of m' i = if bool_decide (i = fd) then None else ctx_of m i.
Proof.
  intros Hm Hfd Hne. unfold free_fd_ctx. rewrite (proj2 (Z.ltb_ge fd 0)) by done.
  assert (Hnone : ctx_of m fd = None -> forall i, ctx_of m i = if bool_decide (i = fd) then None else ctx_of m i).
  { intros Hn i. case_bool_decide; by subst. }
  destruct (Z.ltb_spec (size m) fd) as [Hlt|Hge].
  - assert (Hn : ctx_of m fd = None) by (unfold ctx_of; rewrite (proj2 (Z.ltb_ge fd (size m))) by lia; by rewrite andb_false_r).
    rewrite Hn. exists m. split; [done|]. split; [done|]. by apply Hnone.
  - rewrite slot_ok, outcome_bind_ret by (done || lia). destruct (ctx_of m fd) as [c|] eqn:Ec.
    + destruct (set_slot_ok m fd None Hm ltac:(lia)) as (m' & -> & Hm' & _ & _ & Hctx). exists m'. by split_and!.
    + exists m. split; [done|]. split; [done|]. by apply Hnone.
Qed.

(** The descriptor table is a map from descriptors to contexts: for every
    descriptor that leaves room for the growth of the table below 2^31,
    alloc_fd_ctx2 stores a fresh context there and returns it, and sets the
    descriptor to non-blocking unless told that it is; get_fd_ctx finds it, with
    the type asked for; free_fd_ctx removes it.  No call leaves the array,
    except for free_fd_ctx of the descriptor that equals the size. *)
Theorem fd_ctx_table {K} (fcntl : Z -> Z -> Z -> K -> Z * K) fuel fd type nb m k :
  mgr_ok m -> 0 <= fd -> fd + 10001 < 2 ^ 31 -> (fuel_for fd <= fuel)%nat ->
  (exists m' k', alloc_fd_ctx2 fcntl fuel fd type nb (m, k) = Done (Some (FdCtx type fd 0 0 1000 1000 0), (m', k')) /\ mgr_ok m' /\
    k' = (if nb then k else (fcntl fd F_SETFL (Z.lor (fcntl fd F_GETFL 0 k).1 O_NONBLOCK) (fcntl fd F_GETFL 0 k).2).2) /\
    forall i, ctx_of m' i = if bool_decide (i = fd) then Some (FdCtx type fd 0 0 1000 1000 0) else ctx_of m i) /\
  (exists m', get_fd_ctx fuel fd type m = Done (select type (ctx_of m fd), m') /\ mgr_ok m' /\ forall i, ctx_of m' i = ctx_of m i) /\
  (fd <> size m -> exists m', free_fd_ctx fd m = Done (if ctx_of m fd is Some _ then 0 else -2, m') /\ mgr_ok m' /\
    forall i, ctx_of m' i = if bool_decide (i = fd) then None else ctx_of m i).
Proof.
  intros Hm Hfd Hb Hf. split_and!; [by apply alloc_fd_ctx2_ok|by apply get_fd_ctx_ok|by apply free_fd_ctx_ok].
Qed.

Lemma fd_ctx_table_witness : exists m' k', alloc_fd_ctx2 (fun _ _ _ (k : Z) => (2, k + 1)) 3 12000 1 false (create_fd_ctx_mgr 3, 0) =
  Done (Some (FdCtx 1 12000 0 0 1000 1000 0), (m', k')) /\ k' = 2.
Proof.
  destruct (fd_ctx_table (fun _ _ _ (k : Z) => (2, k + 1)) 3 12000 1 false (create_fd_ctx_mgr 3) 0) as ((m' & k' & E & _ & Hk & _) & _).
  - split; [cbn; lia|by vm_compute].
  - lia.
  - lia.
  - vm_compute. lia.
  - exists m', k'. by split.
Defined.

(** ** The destructor *)

Lemma delete_from_ok m i fuel :
  size m + 1 <= Z.of_nat (length (fds m)) -> 0 <= i -> size m + 1 - i <= Z.of_nat fuel ->
  delete_from fuel i m = Done (omap id (take (Z.to_nat (size m + 1 - i)) (drop (Z.to_nat i) (fds m)))).
Proof.
  intros Hl. revert i. induction fuel as [|fuel IH]; intros i Hi Hf; cbn [delete_from].
  - rewrite (proj2 (Z.leb_gt _ _)) by lia. by replace (Z.to_nat (size m + 1 - i)) with O by lia.
  - destruct (Z.leb_spec i (size m)) as [Hle|]; [|by replace (Z.to_nat (size m + 1 - i)) with O by lia].
    unfold slot. rewrite (proj2 (Z.ltb_ge i 0)) by done. destruct (lookup_lt_is_Some_2 (fds m) (Z.to_nat i)) as [c Hc]; [lia|].
    rewrite Hc. cbn [of_option]. rewrite outcome_bind_ret, IH, outcome_bind_ret by lia.
    rewrite (drop_S _ c (Z.to_nat i)) by done. replace (Z.to_nat (size m + 1 - i)) with (S (Z.to_nat (size m + 1 - (i + 1)))) by lia.
    replace (S (Z.to_nat i)) with (Z.to_nat (i + 1)) by lia. cbn [take omap list_omap id]. by destruct c.
Qed.

Lemma delete_from_overrun m i fuel :
  mgr_ok m -> Z.of_nat (length (fds m)) = size m -> 0 <= i <= size m -> size m + 1 - i <= Z.of_nat fuel -> delete_from fuel i m = Fault.
Proof.
  intros Hm Hl. revert i. induction fuel as [|fuel IH]; intros i Hi Hf; [lia|]. cbn [delete_from].
  rewrite (proj2 (Z.leb_le _ _)) by lia. destruct (decide (i = size m)) as [->|Hne].
  - unfold slot. rewrite (proj2 (Z.ltb_ge _ 0)) by lia. by rewrite lookup_ge_None_2 by lia.
  - rewrite slot_ok by (done || lia). rewrite outcome_bind_ret, IH by lia. done.
Qed.

(** The array has [size] + 1 slots when it is created, and the destructor
    deletes the contexts of all of them; the array that fd_ctx_expand makes has
    [size] slots, so that once the table has grown the destructor, and
    free_fd_ctx of the descriptor [size], read past its end. *)
Theorem fd_ctx_overrun fuel fd m :
  mgr_ok m -> 0 <= fd -> fd + 10001 < 2 ^ 31 -> (fuel_for fd <= fuel)%nat ->
  (Z.of_nat (length (fds m)) = size m + 1 ->
    free_fd_ctx_mgr (S (Z.to_nat (size m))) m = Done (omap id (fds m))) /\
  (size m <= fd -> exists m', fd_ctx_expand fuel (fd + 1) m = Done m' /\ free_fd_ctx (size m') m' = Fault /\
    free_fd_ctx_mgr (S (Z.to_nat (size m'))) m' = Fault).
Proof.
  intros Hm Hfd Hb Hf. split.
  - intros Hl. unfold free_fd_ctx_mgr. pose proof Hm as [Hs _]. rewrite delete_from_ok by lia.
    rewrite drop_0, take_ge by lia. done.
  - intros Hge. destruct (reserve_ok fuel m fd Hm Hfd Hb Hf) as (m' & E & Hm' & _ & _ & _ & Hl). specialize (Hl Hge).
    unfold reserve in E. rewrite (proj2 (Z.leb_le _ _)) in E by done. exists m'. split; [exact E|]. pose proof Hm' as [Hs _]. split.
    + unfold free_fd_ctx. rewrite (proj2 (Z.ltb_ge _ 0)), Z.ltb_irrefl by lia. unfold slot. rewrite (proj2 (Z.ltb_ge _ 0)) by lia.
      by rewrite lookup_ge_None_2 by lia.
    + apply delete_from_overrun; [done|done|lia|lia].
Qed.

Lemma fd_ctx_overrun_witness : exists m', fd_ctx_expand 3 12001 (create_fd_ctx_mgr 3) = Done m' /\ free_fd_ctx (size m') m' = Fault.
Proof.
  destruct (fd_ctx_overrun 3 12000 (create_fd_ctx_mgr 3)) as (_ & m' & E & Ef & _).
  - split; [cbn; lia|by vm_compute].
  - lia.
  - lia.
  - vm_compute. lia.
  - cbn. lia.
  - exists m'. by split.
Defined.
