(* ===== verification/WaitQueue.v ===== *)
(** * core/wait_queue.h, core/src/wait_queue.cpp: wait queues

    A WaitQueue lists the WaitItems on the stacks of the coroutines that wait.
    wait_on is two functions here: up to its yield and after it; [resume] runs
    another coroutine until control comes back, and may do anything that the
    frame hypothesis allows.  Timers are operations of the world.  The theorems:
    the wake-ups take waiters from the end they name, each once and in order;
    wait_on returns -1 exactly when its timer fired; and wakeup_all does not end
    when two waiters or more wait again as soon as they are woken. *)
From S2P Require Import Prelude CList CListStore CListIter Words Component Cells.

(** WaitItem, but for its link and its timer. *)
Record wait_item (C : Type) := WaitItem { wi_co : C; expired_flag : bool }.
Arguments WaitItem {C} _ _.
Arguments wi_co {C} _.
Arguments expired_flag {C} _.

(** WaitQueue, with the items in memory; [queue] is [Head tt]. *)
Record WaitQueue (I C : Type) `{Countable I} := MkWaitQueue {
  wcells : heap (cell unit I);
  wait_num : Z;
  items : gmap I (wait_item C) }.
Arguments MkWaitQueue {I C _ _} _ _ _.
Arguments wcells {I C _ _} _.
Arguments wait_num {I C _ _} _.
Arguments items {I C _ _} _.

Abbreviation i32 := (wrap_s 32).

Section wait_queue.
Context {I C W : Type} `{Countable I} `{!Has (WaitQueue I C) W}.
Implicit Types (i : I) (c : C) (q : WaitQueue I C) (w : W) (l out : list I).

(** conet::resume, and the timer of an item. *)
Variables (resume : C -> W -> outcome W) (set_timer : I -> Z -> W -> outcome W) (cancel_timer : I -> W -> outcome W).

Definition wq w : WaitQueue I C := get w.
Definition queue : cell unit I := Head tt.

(** WaitQueue::WaitQueue *)
Definition WaitQueue_create : W -> outcome W :=
  hoist (fun q => h ← INIT_LIST_HEAD queue (wcells q); Done (MkWaitQueue h 0 (items q))).

(** wait_on up to its yield; [i] is the WaitItem on the stack of [co]. *)
Definition wait_on_begin i (co : C) (ms : Z) w : outcome W :=
  w ← hoist (fun q =>
        h ← INIT_LIST_HEAD (Member i) (<[Member i := Link None None]> (wcells q));
        Done (MkWaitQueue h (wait_num q) (<[i := WaitItem co false]> (items q)))) w;
  w ← (if 0 <=? ms then set_timer i ms w else Done w);
  hoist (fun q => h ← list_add_tail (Member i) queue (wcells q); Done (MkWaitQueue h (i32 (wait_num q + 1)) (items q))) w.

(** wait_on after its yield; the item is gone when it returns. *)
Definition wait_on_end i (ms : Z) w : outcome (Z * W) :=
  w ← hoist (fun q => Done (MkWaitQueue (wcells q) (i32 (wait_num q - 1)) (items q))) w;
  w ← (if 0 <=? ms then cancel_timer i w else Done w);
  it ← of_option (items (wq w) !! i);
  w ← hoist (fun q => Done (MkWaitQueue (delete (Member i) (wcells q)) (wait_num q) (delete i (items q)))) w;
  Done (if expired_flag it then -1 else 0, w).

(** wait_queue_item_timeout *)
Definition wait_queue_item_timeout i w : outcome W :=
  w ← hoist (fun q => it ← of_option (items q !! i);
        h ← list_del_init (Member i) (wcells q);
        Done (MkWaitQueue h (wait_num q) (<[i := WaitItem (wi_co it) true]> (items q)))) w;
  it ← of_option (items (wq w) !! i);
  resume (wi_co it) w.

(** list_del_init(&it->link); conet::resume(it->co) *)
Definition wake i w : outcome W :=
  w ← hoist (fun q => h ← list_del_init (Member i) (wcells q); Done (MkWaitQueue h (wait_num q) (items q))) w;
  it ← of_option (items (wq w) !! i);
  resume (wi_co it) w.

Definition item_of (k : option (cell unit I)) : outcome I := match k with Some (Member i) => Done i | _ => Fault end.

Definition wakeup_head w : outcome (Z * W) :=
  e ← list_empty queue (wcells (wq w));
  if negb e then
    k ← get_next (Some queue) (wcells (wq w)); i ← item_of k; w ← wake i w; Done (1, w)
  else Done (0, w).

Definition wakeup_tail w : outcome (Z * W) :=
  e ← list_empty queue (wcells (wq w));
  if negb e then
    k ← get_prev (Some queue) (wcells (wq w)); i ← item_of k; w ← wake i w; Done (1, w)
  else Done (0, w).

(** The loop body of the four loops: [stop n] breaks after the [n]th waiter. *)
Definition wake_body (stop : Z -> bool) (k : cell unit I) (s : W * Z) : outcome (bool * (W * Z)) :=
  i ← item_of (Some k);
  w ← wake i s.1;
  Done (stop (s.2 + 1), (w, s.2 + 1)).

Definition lists (s : W * Z) : heap (cell unit I) := wcells (wq s.1).

Definition wakeup_head_n (num : Z) (fuel : nat) w : outcome (W * Z) :=
  list_for_each_safe lists queue (wake_body (fun n => num <=? n)) fuel (w, 0).
Definition wakeup_tail_n (num : Z) (fuel : nat) w : outcome (W * Z) :=
  list_for_each_safe_reverse lists queue (wake_body (fun n => num <=? n)) fuel (w, 0).
Definition wakeup_all (fuel : nat) w : outcome (W * Z) :=
  list_for_each_safe lists queue (wake_body (fun _ => false)) fuel (w, 0).

(** ~WaitQueue, before the members are gone. *)
Definition WaitQueue_destroy (fuel : nat) w : outcome (W * Z) := wakeup_all fuel w.

(** ** Who waits *)

(** [l] are the items in the queue, [out] those whose coroutine has been taken
    off and has not returned from wait_on yet. *)
Record wq_repr q l out : Prop := {
  wr_rings : rings (wcells q) (lists_of [(queue, l)] out);
  wr_items : forall i, i ∈ l ++ out -> is_Some (items q !! i);
  wr_num : wait_num q = i32 (Z.of_nat (length l + length out)) }.

Lemma i32_add a b : i32 (i32 a + b) = i32 (a + b).
Proof.
  unfold wrap_s. f_equal. replace ((a + 2 ^ (32 - 1)) mod 2 ^ 32 - 2 ^ (32 - 1) + b + 2 ^ (32 - 1)) with ((a + 2 ^ (32 - 1)) mod 2 ^ 32 + b) by lia.
  rewrite Zplus_mod_idemp_l. f_equal. lia.
Qed.

Lemma wq_perm q l out out' : out ≡ₚ out' -> wq_repr q l out -> wq_repr q l out'.
Proof.
  intros Hp [HR Hi Hn]. split.
  - by rewrite <-(lists_of_perm _ _ _ _ (reflexivity _) Hp).
  - intros i. rewrite <-Hp. apply Hi.
  - by rewrite <-Hp.
Qed.

Lemma wq_put q w : wq (put q w) = q.
Proof. apply get_put. Qed.

(** The invariant of the rest of the world, and what a resumed coroutine may do:
    return from its own wait_on and anything else but touch the waiters. *)
Variable Inv : W -> Prop.
Hypothesis Inv_wq : forall q w, Inv w -> Inv (put q w).

Definition queued w l out : Prop := wq_repr (wq w) l out /\ Inv w.

Hypothesis resume_ok : forall w l out i it,
  queued w l out -> i ∈ out -> items (wq w) !! i = Some it ->
  exists w' out', resume (wi_co it) w = Done w' /\ queued w' l out'.

Lemma unlink_ok w l1 i l2 out :
  queued w (l1 ++ i :: l2) out ->
  exists h, list_del_init (Member i) (wcells (wq w)) = Done h /\
    wq_repr (MkWaitQueue h (wait_num (wq w)) (items (wq w))) (l1 ++ l2) (i :: out).
Proof.
  intros [[HR Hi Hn] _]. destruct (cells_del_init _ _ _ _ _ _ _ HR) as (h & -> & HR' & _). exists h. split; [done|]. split; cbn.
  - exact HR'.
  - intros x Hx. apply Hi. rewrite !elem_of_app, ?elem_of_cons in Hx |- *. clear -Hx. tauto.
  - rewrite Hn. do 2 f_equal. rewrite !length_app. cbn. lia.
Qed.

Lemma wake_ok w l1 i l2 out :
  queued w (l1 ++ i :: l2) out -> exists w' out', wake i w = Done w' /\ queued w' (l1 ++ l2) out'.
Proof.
  intros HQ. destruct (unlink_ok _ _ _ _ _ HQ) as (h & E & HR). destruct HQ as [_ HI].
  unfold wake, hoist. fold (wq w). rewrite E. cbn [mbind outcome_bind]. rewrite wq_put. cbn [items].
  destruct (wr_items _ _ _ HR i) as [it Hit]; [rewrite elem_of_app; right; left|]. cbn [items] in Hit. rewrite Hit. cbn [of_option].
  rewrite outcome_bind_ret. eapply resume_ok; [|left|].
  - split; [by rewrite wq_put|by apply Inv_wq].
  - by rewrite wq_put.
Qed.

(** ** The wake-ups *)

(** How many waiters a loop wakes that stops after [num]: at least one. *)
Definition batch (num : Z) l : nat := Nat.min (length l) (Z.to_nat (Z.max num 1)).

Lemma wq_ring w l out : queued w l out -> rings (wcells (wq w)) ((queue, Member <$> l) :: lists_of [] out).
Proof. intros [[HR _ _] _]. by rewrite lists_of_cons in HR. Qed.

(** The loops, from either end: [ord] are the waiters in the order of the loop,
    and [rest d] those that are left after [d] wake-ups. *)
Record stops (stop : Z -> bool) (k : nat) (ord : list I) : Prop := {
  st_le : (k <= length ord)%nat;
  st_go : forall j, (0 < j < k)%nat -> stop (Z.of_nat j) = false;
  st_stop : (0 < k < length ord)%nat -> stop (Z.of_nat k) = true;
  st_zero : k = O -> ord = [] }.

Definition woken w ord (rest : nat -> list I) (d : nat) (s : W * Z) : Prop :=
  s.2 = Z.of_nat d /\ run_all wake (take d ord) w = Done s.1 /\ exists out', queued s.1 (rest d) out'.

Definition to_go (k d : nat) (ord : list I) : Prop := (d <= k)%nat /\ (d < k \/ k = length ord)%nat.

Lemma wake_step stop k w ord rest d i s :
  stops stop k ord -> (forall d i, ord !! d = Some i -> exists l1 l2, rest d = l1 ++ i :: l2 /\ rest (S d) = l1 ++ l2) ->
  ord !! d = Some i -> to_go k d ord -> woken w ord rest d s ->
  exists b s', wake_body stop (Member i) s = Done (b, s') /\
    if (b : bool) then woken w ord rest k s' else to_go k (S d) ord /\ woken w ord rest (S d) s'.
Proof.
  intros [Hle Hgo Hstop _] Hrest Hi [Hd Hdk] (Hn & Hrun & out & HQ). destruct s as [w1 n]. cbn in Hn, Hrun, HQ. subst n.
  destruct (Hrest d i Hi) as (l1 & l2 & E1 & E2). rewrite E1 in HQ. destruct (wake_ok _ _ _ _ _ HQ) as (w2 & out2 & Ew & HQ2).
  unfold wake_body. cbn [item_of fst snd]. rewrite outcome_bind_ret, Ew, outcome_bind_ret. eexists _, _. split; [done|].
  assert (Hlt : (d < length ord)%nat) by (by apply lookup_lt_Some in Hi).
  replace (Z.of_nat d + 1) with (Z.of_nat (S d)) by lia.
  assert (HS : woken w ord rest (S d) (w2, Z.of_nat (S d))).
  { split; [done|]. split; [|exists out2; by rewrite E2]. rewrite (take_S_r _ _ _ Hi), run_all_app, Hrun. cbn [mbind outcome_bind run_all].
    by rewrite Ew. }
  unfold to_go. destruct (decide (S d = k)) as [<-|Hne].
  - destruct (decide (S d < length ord)%nat); [rewrite Hstop by lia; exact HS|].
    destruct (stop (Z.of_nat (S d))); [exact HS|]. split; [lia|exact HS].
  - rewrite Hgo by lia. split; [lia|exact HS].
Qed.

Lemma wake_start stop k w ord (rest : nat -> list I) out :
  stops stop k ord -> queued w (rest O) out -> to_go k 0 ord /\ woken w ord rest 0 (w, 0).
Proof.
  intros [Hle _ _ Hz] HQ. split; [|by split_and!; eauto]. unfold to_go. destruct k; [|lia]. rewrite Hz by done. cbn. lia.
Qed.

Lemma member_rev l : (Member <$> rev l : list (cell unit I)) = rev (Member <$> l).
Proof. induction l as [|i l IH]; [done|]. cbn [rev]. rewrite fmap_app, IH. done. Qed.

Lemma drop_nil_length l d : drop d l = [] -> (length l <= d)%nat.
Proof. intros Hl%(f_equal length). rewrite length_drop in Hl. cbn in Hl. lia. Qed.

Lemma head_loop stop k w l out fuel :
  queued w l out -> stops stop k l -> (length l <= fuel)%nat ->
  exists w' out', list_for_each_safe lists queue (wake_body stop) fuel (w, 0) = Done (w', Z.of_nat k) /\
    run_all wake (take k l) w = Done w' /\ queued w' (drop k l) out'.
Proof.
  intros HQ Hst Hf. set (rest d := drop d l).
  assert (Hrest : forall d i, l !! d = Some i -> exists l1 l2, rest d = l1 ++ i :: l2 /\ rest (S d) = l1 ++ l2).
  { intros d i Hi. exists [], (drop (S d) l). unfold rest. by rewrite (drop_S _ _ _ Hi). }
  pose (Inv_ := fun (rem : list (cell unit I)) s => exists d, to_go k d l /\ rem = Member <$> drop d l /\ woken w l rest d s).
  destruct (list_for_each_safe_rule lists queue (Member <$> l) (lists_of [] out) (wake_body stop) Inv_ (woken w l rest k) (w, 0) fuel)
    as ([w' n] & E & Hn & Hrun & out' & HQ').
  - by apply wq_ring.
  - intros rem s (d & _ & -> & _ & _ & out' & HQ'). apply wq_ring in HQ'. by eapply (rings_follows_next _ _ []).
  - intros s (d & [Hd Hdk] & Hrem & HS). symmetry in Hrem. apply fmap_nil_inv, drop_nil_length in Hrem.
    pose proof (st_le _ _ _ Hst). by replace k with d by lia.
  - intros x rem s (d & Hd & Hrem & HS). destruct (drop d l) as [|i r] eqn:Ed; [done|]. rewrite fmap_cons in Hrem. injection Hrem as -> ->.
    assert (Hi : l !! d = Some i) by (rewrite <-(Nat.add_0_r d), <-lookup_drop, Ed; done).
    destruct (wake_step _ _ _ _ _ _ _ _ Hst Hrest Hi Hd HS) as (b & s' & E & HP). exists b, s'. split; [done|]. destruct b; [done|].
    exists (S d). split; [apply HP|]. split; [|apply HP]. rewrite (drop_S _ _ _ Hi) in Ed. by injection Ed as ->.
  - exists O. rewrite drop_0. destruct (wake_start stop k w l rest out Hst) as [? ?]; [by unfold rest; rewrite drop_0|]. by split_and!.
  - by rewrite length_fmap.
  - exists w', out'. cbn in *. subst n. by split_and!.
Qed.

Lemma tail_loop stop k w l out fuel :
  queued w l out -> stops stop k (rev l) -> (length l <= fuel)%nat ->
  exists w' out', list_for_each_safe_reverse lists queue (wake_body stop) fuel (w, 0) = Done (w', Z.of_nat k) /\
    run_all wake (take k (rev l)) w = Done w' /\ queued w' (rev (drop k (rev l))) out'.
Proof.
  intros HQ Hst Hf. set (rest d := rev (drop d (rev l))).
  assert (Hrest : forall d i, rev l !! d = Some i -> exists l1 l2, rest d = l1 ++ i :: l2 /\ rest (S d) = l1 ++ l2).
  { intros d i Hi. exists (rest (S d)), []. unfold rest. rewrite (drop_S _ _ _ Hi), app_nil_r. done. }
  pose (Inv_ := fun (rem : list (cell unit I)) s => exists d, to_go k d (rev l) /\ rem = Member <$> drop d (rev l) /\ woken w (rev l) rest d s).
  destruct (list_for_each_safe_reverse_rule lists queue (Member <$> l) (lists_of [] out) (wake_body stop) Inv_ (woken w (rev l) rest k) (w, 0) fuel)
    as ([w' n] & E & Hn & Hrun & out' & HQ').
  - by apply wq_ring.
  - intros rem s (d & _ & -> & _ & _ & out' & HQ'). apply wq_ring in HQ'.
    apply (rings_follows_prev _ _ []  _ (lists_of [] out')). rewrite app_nil_r, <-member_rev. exact HQ'.
  - intros s (d & [Hd Hdk] & Hrem & HS). symmetry in Hrem. apply fmap_nil_inv, drop_nil_length in Hrem.
    pose proof (st_le _ _ _ Hst). by replace k with d by lia.
  - intros x rem s (d & Hd & Hrem & HS). destruct (drop d (rev l)) as [|i r] eqn:Ed; [done|]. rewrite fmap_cons in Hrem. injection Hrem as -> ->.
    assert (Hi : rev l !! d = Some i) by (rewrite <-(Nat.add_0_r d), <-lookup_drop, Ed; done).
    destruct (wake_step _ _ _ _ _ _ _ _ Hst Hrest Hi Hd HS) as (b & s' & E & HP). exists b, s'. split; [done|]. destruct b; [done|].
    exists (S d). split; [apply HP|]. split; [|apply HP]. rewrite (drop_S _ _ _ Hi) in Ed. by injection Ed as ->.
  - exists O. rewrite drop_0. destruct (wake_start stop k w (rev l) rest out Hst) as [? ?];
      [by unfold rest; rewrite drop_0, rev_involutive|]. split; [done|]. split; [|done]. by rewrite <-member_rev.
  - by rewrite length_fmap.
  - exists w', out'. cbn in *. subst n. by split_and!.
Qed.

Lemma stops_all l : stops (fun _ => false) (length l) l.
Proof. split; try done; [lia|]. by destruct l. Qed.

Lemma stops_n num ord : stops (fun n => num <=? n) (Nat.min (length ord) (Z.to_nat (Z.max num 1))) ord.
Proof.
  split; [lia|..].
  - intros j Hj. apply Z.leb_gt. lia.
  - intros Hk. apply Z.leb_le. lia.
  - destruct ord; [done|]. cbn [length]. lia.
Qed.

Lemma wakeup_head_ok w l out :
  queued w l out ->
  match l with
  | [] => wakeup_head w = Done (0, w)
  | i :: l' => exists w' out', wake i w = Done w' /\ wakeup_head w = Done (1, w') /\ queued w' l' out'
  end.
Proof.
  intros HQ. unfold wakeup_head. rewrite (rings_empty _ _ _ _ (wq_ring _ _ _ HQ)), outcome_bind_ret. destruct l as [|i l]; cbn [fmap list_fmap].
  - by rewrite bool_decide_true.
  - rewrite bool_decide_false by done. cbn [negb]. rewrite (rings_head_next _ _ _ _ (wq_ring _ _ _ HQ)), outcome_bind_ret. cbn [item_of].
    destruct (wake_ok _ [] _ _ _ HQ) as (w' & out' & E & HQ'). exists w', out'. split; [done|]. split; [|done].
    change (item_of _) with (Done i). rewrite outcome_bind_ret, E, outcome_bind_ret. done.
Qed.

Lemma wakeup_tail_ok w l out :
  queued w l out ->
  match last l with
  | None => wakeup_tail w = Done (0, w)
  | Some i => exists w' out', wake i w = Done w' /\ wakeup_tail w = Done (1, w') /\ queued w' (removelast l) out'
  end.
Proof.
  intros HQ. unfold wakeup_tail. rewrite (rings_empty _ _ _ _ (wq_ring _ _ _ HQ)), outcome_bind_ret.
  destruct (last_snoc_cases l) as [->|(l' & i & ->)]; [done|]. rewrite last_snoc, removelast_last.
  rewrite bool_decide_false by by destruct l'. cbn [negb]. rewrite (rings_head_prev _ _ _ _ (wq_ring _ _ _ HQ)), outcome_bind_ret.
  rewrite fmap_app. cbn [fmap list_fmap]. rewrite (app_comm_cons _ _ queue), last_snoc. cbn [item_of]. rewrite outcome_bind_ret.
  destruct (wake_ok _ _ _ [] _ HQ) as (w' & out' & E & HQ'). exists w', out'. rewrite E, outcome_bind_ret. rewrite app_nil_r in HQ'. by split_and!.
Qed.

(** Wakeup_all wakes every waiter once, first to last, and returns their
    number; wakeup_head_n and wakeup_tail_n wake the first or last [num] of them
    in the order from that end, but one at least if there is any, whatever [num]
    is; wakeup_head and wakeup_tail wake one.  The others stay in order. *)
Theorem wakeups w l out num fuel :
  queued w l out -> (length l <= fuel)%nat ->
  let k := Nat.min (length l) (Z.to_nat (Z.max num 1)) in
  (exists w' out', wakeup_all fuel w = Done (w', Z.of_nat (length l)) /\ run_all wake l w = Done w' /\ queued w' [] out') /\
  (exists w' out', wakeup_head_n num fuel w = Done (w', Z.of_nat k) /\ run_all wake (take k l) w = Done w' /\ queued w' (drop k l) out') /\
  (exists w' out', wakeup_tail_n num fuel w = Done (w', Z.of_nat k) /\ run_all wake (take k (rev l)) w = Done w' /\
    queued w' (rev (drop k (rev l))) out') /\
  match l with
  | [] => wakeup_head w = Done (0, w)
  | i :: l' => exists w' out', wake i w = Done w' /\ wakeup_head w = Done (1, w') /\ queued w' l' out'
  end /\
  match last l with
  | None => wakeup_tail w = Done (0, w)
  | Some i => exists w' out', wake i w = Done w' /\ wakeup_tail w = Done (1, w') /\ queued w' (removelast l) out'
  end.
Proof.
  intros HQ Hf k. split; [|split; [|split; [|split]]].
  - destruct (head_loop _ _ _ _ _ fuel HQ (stops_all l) Hf) as (w' & out' & E & Hr & HQ'). exists w', out'.
    rewrite firstn_all in Hr. rewrite drop_all in HQ'. by split_and!.
  - apply (head_loop _ _ _ _ _ fuel HQ (stops_n num l) Hf).
  - pose proof (stops_n num (rev l)) as Hs. rewrite length_rev in Hs. apply (tail_loop _ _ _ _ _ fuel HQ Hs Hf).
  - by apply (wakeup_head_ok w l out).
  - by apply (wakeup_tail_ok w l out).
Qed.

(** ** One wait *)
Hypothesis set_timer_ok : forall i ms w, Inv w -> exists w', set_timer i ms w = Done w' /\ wq w' = wq w /\ Inv w'.
Hypothesis cancel_timer_ok : forall i w, Inv w -> exists w', cancel_timer i w = Done w' /\ wq w' = wq w /\ Inv w'.

Lemma wait_begin_ok w l out i co ms :
  queued w l out -> wcells (wq w) !! Member i = None ->
  exists w', wait_on_begin i co ms w = Done w' /\ queued w' (l ++ [i]) out /\ items (wq w') = <[i := WaitItem co false]> (items (wq w)).
Proof.
  intros [[HR Hi Hn] HI] Hf. unfold wait_on_begin, hoist. fold (wq w).
  assert (HR0 : rings (<[Member i := Link None None]> (wcells (wq w))) (lists_of [(queue, l)] out)) by by apply rings_insert_fresh.
  destruct (rings_init _ _ (Member i) HR0) as (h1 & -> & HR1 & _); [apply alloc_Some; by rewrite lookup_insert_eq| |].
  { intros Hin%(rings_alloc _ _ _ HR)%alloc_Some. rewrite Hf in Hin. by destruct Hin. }
  rewrite outcome_bind_ret. cbn [mbind outcome_bind]. rewrite <-lists_of_free in HR1.
  set (q1 := MkWaitQueue h1 _ _). assert (Ht : exists w1, (if 0 <=? ms then set_timer i ms (put q1 w) else Done (put q1 w)) = Done w1 /\
    wq w1 = q1 /\ Inv w1).
  { destruct (0 <=? ms); [|exists (put q1 w); split; [done|]; split; [apply wq_put|by apply Inv_wq]].
    destruct (set_timer_ok i ms (put q1 w)) as (w1 & E & Hw & HI1); [by apply Inv_wq|]. exists w1. by rewrite Hw, wq_put. }
  destruct Ht as (w1 & -> & Hw1 & HI1). cbn [mbind outcome_bind]. fold (wq w1). rewrite Hw1. cbn [wcells q1 wait_num items].
  destruct (cells_add_tail _ _ _ _ _ _ HR1) as (h2 & -> & HR2 & _). cbn [mbind outcome_bind]. eexists. split; [done|].
  rewrite wq_put. cbn [items]. split; [|done]. split; [|by apply Inv_wq]. rewrite wq_put. split; cbn.
  - exact HR2.
  - intros j Hj. rewrite lookup_insert_is_Some'. rewrite elem_of_app, elem_of_app, list_elem_of_singleton in Hj.
    destruct Hj as [[Hj|Hj]|Hj]; [right|left; by symmetry|right]; apply Hi, elem_of_app; auto.
  - rewrite Hn, i32_add. f_equal. rewrite length_app. cbn. lia.
Qed.

Lemma wait_end_ok w l i out it ms :
  queued w l (i :: out) -> items (wq w) !! i = Some it ->
  exists w', wait_on_end i ms w = Done (if expired_flag it then -1 else 0, w') /\ queued w' l out /\
    items (wq w') = delete i (items (wq w)) /\ wcells (wq w') !! Member i = None.
Proof.
  intros [[HR Hi Hn] HI] Hit. unfold wait_on_end, hoist. fold (wq w). cbn [mbind outcome_bind].
  set (q1 := MkWaitQueue _ _ _). assert (Ht : exists w1, (if 0 <=? ms then cancel_timer i (put q1 w) else Done (put q1 w)) = Done w1 /\
    wq w1 = q1 /\ Inv w1).
  { destruct (0 <=? ms); [|exists (put q1 w); split; [done|]; split; [apply wq_put|by apply Inv_wq]].
    destruct (cancel_timer_ok i (put q1 w)) as (w1 & E & Hw & HI1); [by apply Inv_wq|]. exists w1. by rewrite Hw, wq_put. }
  destruct Ht as (w1 & -> & Hw1 & HI1). cbn [mbind outcome_bind]. rewrite Hw1. cbn [items q1]. rewrite Hit. cbn [of_option mbind outcome_bind].
  fold (wq w1). rewrite Hw1. cbn [wcells q1 wait_num items]. eexists. split; [done|]. rewrite wq_put. cbn [items wcells].
  split; [|by rewrite lookup_delete_eq]. split; [|by apply Inv_wq]. rewrite wq_put. pose proof (members_nodup _ _ _ HR) as Hnd. unfold members in Hnd. cbn in Hnd.
  rewrite app_nil_r in Hnd. split; cbn [wcells wait_num items].
  - by apply cells_drop_member.
  - intros j Hj. rewrite lookup_delete_ne; [apply Hi; rewrite elem_of_app, elem_of_cons; rewrite elem_of_app in Hj; tauto|].
    intros <-. rewrite <-Permutation_middle in Hnd. apply NoDup_cons in Hnd as [? _]. done.
  - rewrite Hn. replace (i32 (Z.of_nat (length l + length (i :: out))) - 1) with (i32 (Z.of_nat (length l + length (i :: out))) + -1) by lia.
    rewrite i32_add. f_equal. cbn [length]. lia.
Qed.

(** Wait_on queues its item last; a wake-up takes the item out and resumes
    its coroutine, and so does its timer, which also marks it; after that wait_on
    returns -1 if the timer fired and 0 if not, and the count of waiters is back. *)
Theorem wait_on_result w l1 i l2 out co ms :
  (queued w l1 out -> wcells (wq w) !! Member i = None ->
    exists w', wait_on_begin i co ms w = Done w' /\ queued w' (l1 ++ [i]) out /\ items (wq w') = <[i := WaitItem co false]> (items (wq w))) /\
  (queued w (l1 ++ i :: l2) out -> items (wq w) !! i = Some (WaitItem co false) ->
    (exists w1, wake i w = resume co w1 /\ queued w1 (l1 ++ l2) (i :: out) /\ items (wq w1) !! i = Some (WaitItem co false)) /\
    (exists w1, wait_queue_item_timeout i w = resume co w1 /\ queued w1 (l1 ++ l2) (i :: out) /\
      items (wq w1) !! i = Some (WaitItem co true))) /\
  (forall it, queued w l1 (i :: out) -> items (wq w) !! i = Some it ->
    exists w', wait_on_end i ms w = Done (if expired_flag it then -1 else 0, w') /\ queued w' l1 out /\
      items (wq w') = delete i (items (wq w)) /\ wcells (wq w') !! Member i = None).
Proof.
  split; [apply wait_begin_ok|]. split; [|intros it; apply wait_end_ok].
  intros HQ Hit. destruct (unlink_ok _ _ _ _ _ HQ) as (h & E & HR). destruct HQ as [_ HI]. split.
  - unfold wake, hoist. fold (wq w). rewrite E. cbn [mbind outcome_bind]. rewrite wq_put. cbn [items]. rewrite Hit. cbn [of_option mbind outcome_bind wi_co].
    eexists. split; [done|]. rewrite wq_put. split; [split; [by rewrite wq_put|by apply Inv_wq]|done].
  - unfold wait_queue_item_timeout, hoist. fold (wq w). rewrite Hit. cbn [of_option mbind outcome_bind wi_co]. rewrite E. cbn [mbind outcome_bind].
    rewrite wq_put. cbn [items]. rewrite lookup_insert_eq. cbn [of_option mbind outcome_bind wi_co]. eexists. split; [done|]. rewrite wq_put. cbn [items].
    rewrite lookup_insert_eq. split; [|done]. split; [rewrite wq_put|by apply Inv_wq]. destruct HR as [HR Hi Hn]. split; cbn; [done| |done].
    intros j Hj. rewrite lookup_insert_is_Some'. right. by apply Hi.
Qed.
End wait_queue.

(** ** CondWaitQueue *)

(** CondWaitQueue but for its WaitQueue and its timer; [F] stands for the
    functions a condition can be. *)
Record CondWaitQueue (F : Type) := MkCondWaitQueue { cond_check_func : option F; delay_ms : Z }.
Arguments MkCondWaitQueue {F} _ _.
Arguments cond_check_func {F} _.
Arguments delay_ms {F} _.

Section cond_wait_queue.
Context {I C W : Type} `{Countable I} `{!Has (WaitQueue I C) W} (resume : C -> W -> outcome W).
Variables (cond_timer_idle : W -> outcome bool) (set_cond_timer : Z -> W -> outcome W) (cancel_cond_timer : W -> outcome W).

(** CondWaitQueue::CondWaitQueue and CondWaitQueue::init; a condition is given with its argument. *)
Definition CondWaitQueue_create : CondWaitQueue (W -> outcome (Z * W)) := MkCondWaitQueue None 0.
Definition cond_init (func : option (W -> outcome (Z * W))) (ms : Z) (c : CondWaitQueue (W -> outcome (Z * W))) : Z * CondWaitQueue (W -> outcome (Z * W)) :=
  (0, MkCondWaitQueue func ms).

(** timeout_proc of the condition's timer. *)
Definition cond_timeout_proc (fuel : nat) (w : W) : outcome W := r ← wakeup_all resume fuel w; Done r.1.

Definition cond_wakeup_all (fuel : nat) (c : CondWaitQueue (W -> outcome (Z * W))) (w : W) : outcome (W * Z) :=
  match cond_check_func c with
  | Some f =>
      r ← f w;
      let '(ret, w) := r in
      if 0 <? ret then w ← cancel_cond_timer w; wakeup_all resume fuel w
      else
        idle ← cond_timer_idle w;
        w ← (if (idle : bool) then set_cond_timer (delay_ms c) w else Done w);
        Done (w, 0)
  | None => wakeup_all resume fuel w
  end.

(** The hypotheses of the queue, and [armed]: whether the condition's timer is set. *)
Variables (Inv : W -> Prop) (armed : W -> bool).
Hypothesis Inv_wq : forall (q : WaitQueue I C) w, Inv w -> Inv (put q w).
Hypothesis resume_ok : forall w l out i it,
  queued Inv w l out -> i ∈ out -> items (wq w) !! i = Some it ->
  exists w' out', resume (wi_co it) w = Done w' /\ queued Inv w' l out'.
Hypothesis idle_ok : forall w, cond_timer_idle w = Done (negb (armed w)).
Hypothesis set_ok : forall ms w l out, queued Inv w l out ->
  exists w', set_cond_timer ms w = Done w' /\ queued Inv w' l out /\ armed w' = true.
Hypothesis cancel_ok : forall w l out, queued Inv w l out ->
  exists w', cancel_cond_timer w = Done w' /\ queued Inv w' l out /\ armed w' = false.

(** C38: CondWaitQueue::wakeup_all forgets no waiter: when it returns, either
    nobody waits or the timer is armed whose expiry wakes everybody; and it wakes
    nobody unless the condition, if there is one, returned more than zero.  The
    coroutines that it resumes do not wait in the queue again before they give the
    processor back ([resume_ok]); [wakeup_all_livelock] is about one that does. *)
Theorem cond_wakeup_all_forgets_none w l out fuel c :
  queued Inv w l out -> (length l <= fuel)%nat ->
  (forall f, cond_check_func c = Some f -> exists ret w1, f w = Done (ret, w1) /\ queued Inv w1 l out) ->
  exists w' n l' out', cond_wakeup_all fuel c w = Done (w', n) /\ queued Inv w' l' out' /\
    ((l' = [] /\ n = Z.of_nat (length l)) \/ (l' = l /\ n = 0 /\ armed w' = true /\
      exists w'' out'', cond_timeout_proc fuel w' = Done w'' /\ queued Inv w'' [] out'')).
Proof.
  intros HQ Hf Hc.
  assert (Hall : forall w out, queued Inv w l out -> exists w' out', wakeup_all resume fuel w = Done (w', Z.of_nat (length l)) /\ queued Inv w' [] out').
  { clear -Inv_wq resume_ok Hf. intros w out HQ. destruct (head_loop resume Inv Inv_wq resume_ok _ _ _ _ _ fuel HQ (stops_all l) Hf)
      as (w' & out' & E & _ & HQ'). rewrite drop_all in HQ'. eauto. }
  unfold cond_wakeup_all. destruct (cond_check_func c) as [f|] eqn:Ef.
  - destruct (Hc f eq_refl) as (ret & w1 & -> & HQ1). rewrite outcome_bind_ret. destruct (0 <? ret).
    + destruct (cancel_ok _ _ _ HQ1) as (w2 & -> & HQ2 & _). rewrite outcome_bind_ret. destruct (Hall _ _ HQ2) as (w' & out' & -> & HQ').
      exists w', (Z.of_nat (length l)), [], out'. auto.
    + rewrite idle_ok, outcome_bind_ret.
      assert (Hs : exists w2, (if negb (armed w1) then set_cond_timer (delay_ms c) w1 else Done w1) = Done w2 /\ queued Inv w2 l out /\ armed w2 = true).
      { destruct (armed w1) eqn:Ea; cbn [negb]; [by exists w1|by apply set_ok]. }
      destruct Hs as (w2 & -> & HQ2 & Ha). rewrite outcome_bind_ret. destruct (Hall _ _ HQ2) as (w' & out' & E & HQ').
      exists w2, 0, l, out. split; [done|]. split; [done|]. right. split_and!; try done. exists w', out'. unfold cond_timeout_proc. by rewrite E.
  - destruct (Hall _ _ HQ) as (w' & out' & -> & HQ'). exists w', (Z.of_nat (length l)), [], out'. auto.
Qed.
End cond_wait_queue.

(** ** A queue of three, and the coroutines resumed in order *)
Section example.
Abbreviation world := (WaitQueue nat nat * list nat)%type.

Definition log_resume (c : nat) (w : world) : outcome world := Done (w.1, w.2 ++ [c]).
Definition no_timer (i : nat) (ms : Z) (w : world) : outcome world := Done w.
Definition no_cancel (i : nat) (w : world) : outcome world := Done w.
Definition any (w : world) : Prop := True.
Definition raw_queue : world := (MkWaitQueue {[Head tt := Link None None]} 7 ∅, []).
Definition three_wait : outcome world :=
  w ← WaitQueue_create raw_queue;
  w ← wait_on_begin no_timer 0%nat 10%nat (-1) w;
  w ← wait_on_begin no_timer 1%nat 11%nat 5 w;
  wait_on_begin no_timer 2%nat 12%nat (-1) w.

Lemma any_put : forall (q : WaitQueue nat nat) (w : world), any w -> any (put q w).
Proof. done. Qed.

Lemma log_resume_ok : forall (w : world) l out i it,
  queued any w l out -> i ∈ out -> items (wq w) !! i = Some it ->
  exists w' out', log_resume (wi_co it) w = Done w' /\ queued any w' l out'.
Proof. intros w l out i it HQ _ _. eexists _, out. split; [done|]. exact HQ. Qed.

Lemma no_timer_ok : forall i ms (w : world), any w -> exists w', no_timer i ms w = Done w' /\ wq w' = wq w /\ any w'.
Proof. intros i ms w _. by exists w. Qed.

Lemma no_cancel_ok : forall i (w : world), any w -> exists w', no_cancel i w = Done w' /\ wq w' = wq w /\ any w'.
Proof. intros i w _. by exists w. Qed.

Lemma create_ok : exists w0, WaitQueue_create raw_queue = Done w0 /\ queued any w0 [] [] /\ forall i, wcells (wq w0) !! Member i = None.
Proof.
  set (h0 := {[queue := Link None None]} : heap (cell unit nat)). assert (HR0 : rings h0 []) by (split; [by apply NoDup_nil|set_solver]).
  destruct (rings_init h0 [] queue HR0) as (h & E & HR & Hk); [by apply alloc_Some|set_solver|].
  exists (MkWaitQueue h 0 ∅, []). split; [|split; [split; [split|]|]]; try done.
  - unfold WaitQueue_create, hoist. change (wcells (get raw_queue)) with h0. by rewrite E.
  - by intros i ?%not_elem_of_nil.
  - intros i. apply (same_cells_None _ _ _ Hk). unfold h0. by rewrite lookup_singleton_ne.
Qed.

(** What a run of closed code leaves, read off by evaluation. *)
Lemma run_reads {A B} (r : outcome A) (f : A -> B) a b : r = Done a -> (x ← r; Done (f x)) = Done b -> f a = b.
Proof. intros ->. by intros [= ->]. Qed.

Lemma three_wait_ok : exists w, three_wait = Done w /\ queued any w [0; 1; 2]%nat [] /\ w.2 = [] /\
  items (wq w) !! 1%nat = Some (WaitItem 11%nat false).
Proof.
  destruct create_ok as (w0 & E0 & HQ0 & Hf).
  destruct (wait_begin_ok no_timer any any_put no_timer_ok w0 [] [] 0%nat 10%nat (-1) HQ0 (Hf _)) as (w1 & E1 & HQ1 & _).
  assert (P1 : (w ← WaitQueue_create raw_queue; wait_on_begin no_timer 0%nat 10%nat (-1) w) = Done w1) by by rewrite E0, outcome_bind_ret.
  destruct (wait_begin_ok no_timer any any_put no_timer_ok w1 _ [] 1%nat 11%nat 5 HQ1) as (w2 & E2 & HQ2 & _).
  { apply (run_reads _ (fun w => wcells (wq w) !! Member 1%nat) _ _ P1). by vm_compute. }
  assert (P2 : (w ← (w ← WaitQueue_create raw_queue; wait_on_begin no_timer 0%nat 10%nat (-1) w); wait_on_begin no_timer 1%nat 11%nat 5 w) = Done w2)
    by by rewrite P1, outcome_bind_ret.
  destruct (wait_begin_ok no_timer any any_put no_timer_ok w2 _ [] 2%nat 12%nat (-1) HQ2) as (w3 & E3 & HQ3 & _).
  { apply (run_reads _ (fun w => wcells (wq w) !! Member 2%nat) _ _ P2). by vm_compute. }
  exists w3. assert (E : three_wait = Done w3) by (unfold three_wait; rewrite E0, outcome_bind_ret, E1, outcome_bind_ret, E2, outcome_bind_ret; exact E3).
  split; [exact E|]. split; [exact HQ3|]. split.
  - apply (run_reads _ snd _ _ E). by vm_compute.
  - apply (run_reads _ (fun w => items (wq w) !! 1%nat) _ _ E). by vm_compute.
Qed.

Lemma wakeups_witness : exists w w', three_wait = Done w /\ wakeup_all log_resume 3 w = Done (w', 3) /\ w'.2 = [10; 11; 12]%nat.
Proof.
  destruct three_wait_ok as (w & E & HQ & Hw & _).
  destruct (wakeups log_resume any any_put log_resume_ok w _ [] 2 3 HQ) as ((w' & out' & Ea & Hr & _) & _); [cbn; lia|].
  exists w, w'. split; [exact E|]. split; [exact Ea|].
  assert (P : (w ← three_wait; wakeup_all log_resume 3 w) = Done (w', 3)) by by rewrite E, outcome_bind_ret.
  apply (run_reads _ (fun r => r.1.2) _ _ P). by vm_compute.
Defined.

Lemma wait_on_result_witness : exists w w1, three_wait = Done w /\ wait_queue_item_timeout log_resume 1%nat w = Done w1 /\
  w1.2 = [11]%nat /\ items (wq w1) !! 1%nat = Some (WaitItem 11%nat true).
Proof.
  destruct three_wait_ok as (w & E & HQ & Hw & Hi).
  destruct (wait_on_result log_resume no_timer no_cancel any any_put no_timer_ok no_cancel_ok w [0]%nat 1%nat [2]%nat [] 11%nat 5)
    as (_ & Hwake & _).
  destruct (Hwake HQ Hi) as (_ & w1 & Et & _ & Hi1). exists w, (w1.1, w1.2 ++ [11%nat]). split; [exact E|]. split; [exact Et|].
  split; [|exact Hi1].
  assert (P : (w ← three_wait; wait_queue_item_timeout log_resume 1%nat w) = Done (w1.1, w1.2 ++ [11%nat])) by by rewrite E, outcome_bind_ret.
  apply (run_reads _ snd _ _ P). by vm_compute.
Defined.

(** The condition's timer is the second part of this world. *)
Abbreviation cworld := (WaitQueue nat nat * bool)%type.
Definition arm (ms : Z) (w : cworld) : outcome cworld := Done (w.1, true).
Definition disarm (w : cworld) : outcome cworld := Done (w.1, false).
Definition idle (w : cworld) : outcome bool := Done (negb w.2).
Definition not_yet (w : cworld) : outcome (Z * cworld) := Done (0, w).

Lemma cond_wakeup_all_forgets_none_witness : exists q w, (exists log, three_wait = Done (q, log)) /\
  cond_wakeup_all (fun _ w => Done w) idle arm disarm 3 (cond_init (Some not_yet) 50 CondWaitQueue_create).2 (q, false) = Done (w, 0) /\
  w.2 = true.
Proof.
  destruct three_wait_ok as ([q log] & E & [HQ _] & _). set (quiet := fun (_ : nat) (w : cworld) => Done w).
  destruct (cond_wakeup_all_forgets_none quiet idle arm disarm (fun _ => True) snd) with (w := (q, false)) (l := [0; 1; 2]%nat)
    (out := @nil nat) (fuel := 3%nat) (c := (cond_init (Some not_yet) 50 CondWaitQueue_create).2) as (w' & n & l' & out' & Ec & _ & Hc); try done.
  - intros w l out i it Hq _ _. by exists w, out.
  - intros ms w l out Hq. by exists (w.1, true).
  - intros w l out Hq. by exists (w.1, false).
  - intros f [= <-]. by exists 0, (q, false).
  - injection Ec as <- <-. exists q, (q, true). split; [by exists log|]. done.
Defined.

(** ** Coroutines that wait again *)

(** The coroutine of item [c] returns from wait_on and calls it again at once. *)
Definition again (c : nat) (w : WaitQueue nat nat) : outcome (WaitQueue nat nat) :=
  r ← wait_on_end (fun _ w => Done w) c (-1) w;
  wait_on_begin (fun _ _ w => Done w) c c (-1) r.2.

Lemma quiet_put : forall (q w : WaitQueue nat nat), True -> True.
Proof. done. Qed.
Lemma quiet_timer : forall (i : nat) (ms : Z) (w : WaitQueue nat nat), True -> exists w', Done w = Done w' /\ wq w' = wq w /\ True.
Proof. intros i ms w _. by exists w. Qed.

Definition own_items (w : WaitQueue nat nat) : Prop := forall i it, items w !! i = Some it -> wi_co it = i.
Abbreviation waiting w l := (queued (fun _ => True) w l [] /\ own_items w).

Lemma wake_again w i l : waiting w (i :: l) -> exists w', wake again i w = Done w' /\ waiting w' (l ++ [i]).
Proof.
  intros [HQ Ho]. destruct (unlink_ok _ w [] i l [] HQ) as (h & E & HR). destruct (wr_items _ _ _ HR i) as [it Hit]; [set_solver|]. cbn in Hit.
  unfold wake, hoist. change (get w) with (wq w). rewrite E. cbn [mbind outcome_bind]. rewrite wq_put. cbn [items]. change (items w) with (items (wq w)) in *. rewrite Hit. cbn [of_option].
  rewrite outcome_bind_ret, (Ho _ _ Hit). unfold again. set (q := put _ w).
  destruct (wait_end_ok (fun _ w => Done w) (fun _ => True) quiet_put (fun i w => quiet_timer i 0 w) q l i [] it (-1)) as (w1 & E1 & HQ1 & Hi1 & Hf1); [done..|].
  rewrite E1, outcome_bind_ret. cbn [snd].
  destruct (wait_begin_ok (fun _ _ w => Done w) (fun _ => True) quiet_put quiet_timer w1 l [] i i (-1) HQ1 Hf1) as (w2 & -> & HQ2 & Hi2).
  exists w2. split; [done|]. split; [done|]. intros j jt. change (items w2) with (items (wq w2)). rewrite Hi2, Hi1. change (items (wq q)) with (items w).
  destruct (decide (j = i)) as [->|Hne]; [rewrite lookup_insert_eq; by intros [= <-]|].
  rewrite lookup_insert_ne, lookup_delete_ne by done. apply Ho.
Qed.

Lemma wake_body_done (resume : nat -> WaitQueue nat nat -> outcome (WaitQueue nat nat)) stop i w n w' :
  wake resume i w = Done w' -> wake_body resume stop (Member i) (w, n) = Done (stop (n + 1), (w', n + 1)).
Proof. intros E. unfold wake_body. cbn [item_of fst snd]. by rewrite outcome_bind_ret, E. Qed.

Lemma again_forever fuel : forall w i l n, waiting w (i :: l) -> l <> [] ->
  for_each_safe_from lists get_next queue (wake_body again (fun _ => false)) fuel (Some (Member i)) (Member <$> list.head l) (w, n) = NoFuel.
Proof.
  induction fuel as [|fuel IH]; intros w i l n Hw Hl; cbn [for_each_safe_from]; rewrite bool_decide_false by done; [done|].
  cbn [of_option]. rewrite outcome_bind_ret. destruct (wake_again _ _ _ Hw) as (w' & E & Hw').
  rewrite (wake_body_done _ _ _ _ _ _ E), outcome_bind_ret. cbn [fst snd]. destruct l as [|j l]; [done|].
  pose proof (wq_ring _ _ _ _ (proj1 Hw')) as HR. cbn [list.head fmap option_fmap option_map]. cbn [app fmap list_fmap] in HR.
  change (lists (w', n + 1)) with (wcells (wq w')). rewrite (rings_get_next _ _ [] _ _ _ HR), outcome_bind_ret.
  replace (list.head (((Member <$> l ++ [i]) ++ [queue]))) with (Member <$> list.head (l ++ [i]) : option (cell unit nat)) by by destruct l.
  apply (IH w' j (l ++ [i]) (n + 1) Hw'). by destruct l.
Qed.

Lemma wakeup_all_start w i l fuel : waiting w (i :: l) ->
  wakeup_all again fuel w = for_each_safe_from lists get_next queue (wake_body again (fun _ => false)) fuel (Some (Member i))
    (list.head ((Member <$> l) ++ [queue])) (w, 0).
Proof.
  intros [HQ _]. pose proof (wq_ring _ _ _ _ HQ) as HR. cbn [fmap list_fmap] in HR. unfold wakeup_all, list_for_each_safe.
  change (lists (w, 0)) with (wcells (wq w)). rewrite (rings_head_next _ _ _ _ HR), outcome_bind_ret. cbn [list.head app].
  by rewrite (rings_get_next _ _ [] _ _ _ HR), outcome_bind_ret.
Qed.

(** With two waiters or more that wait again as soon as they are woken,
    wakeup_all never returns, whatever the fuel (the saved cursor is the next
    waiter, and the ones woken queue behind it); a single one is woken once, and
    waits when wakeup_all returns. *)
Theorem wakeup_all_livelock w i l fuel :
  waiting w (i :: l) ->
  (l <> [] -> wakeup_all again fuel w = NoFuel) /\
  (l = [] -> exists w', wakeup_all again (S fuel) w = Done (w', 1) /\ waiting w' [i]).
Proof.
  intros Hw. split; rewrite (wakeup_all_start _ _ _ _ Hw).
  - intros Hl. replace (list.head ((Member <$> l) ++ [queue])) with (Member <$> list.head l : option (cell unit nat)) by by destruct l.
    by apply again_forever.
  - intros ->. cbn [fmap list_fmap app list.head for_each_safe_from]. rewrite bool_decide_false by done. cbn [of_option]. rewrite outcome_bind_ret.
    destruct (wake_again _ _ _ Hw) as (w' & E & Hw'). rewrite (wake_body_done _ _ _ _ _ _ E), outcome_bind_ret. cbn [fst snd]. exists w'. split; [|exact Hw'].
    pose proof (wq_ring _ _ _ _ (proj1 Hw')) as HR'. change (lists (w', 0 + 1)) with (wcells (wq w')).
    rewrite (rings_head_next _ _ _ _ HR'), outcome_bind_ret. destruct fuel; cbn [for_each_safe_from]; by rewrite bool_decide_true.
Qed.

Lemma wakeup_all_livelock_witness : exists w, waiting w [0; 1]%nat /\ wakeup_all again 1000 w = NoFuel.
Proof.
  destruct create_ok as (w0 & E0 & [HR0 _] & Hf).
  destruct (wait_begin_ok (fun _ _ w => Done w) (fun _ => True) quiet_put quiet_timer w0.1 [] [] 0%nat 0%nat (-1) (conj HR0 Logic.I) (Hf _))
    as (w1 & E1 & HQ1 & Hi1).
  destruct (wait_begin_ok (fun _ _ w => Done w) (fun _ => True) quiet_put quiet_timer w1 _ [] 1%nat 1%nat (-1) HQ1) as (w2 & E2 & HQ2 & Hi2).
  { assert (P1 : (w ← WaitQueue_create raw_queue; wait_on_begin (fun _ _ w => Done w) 0%nat 0%nat (-1) w.1) = Done w1) by by rewrite E0, outcome_bind_ret.
    apply (run_reads _ (fun w => wcells (wq w) !! Member 1%nat) _ _ P1). by vm_compute. }
  exists w2. assert (Hw : waiting w2 [0; 1]%nat).
  { split; [exact HQ2|]. intros j it. change (items w2) with (items (wq w2)). rewrite Hi2, Hi1, !lookup_insert_Some.
    intros [[<- <-]|(_ & [[<- <-]|(_ & Hj)])]; [done|done|]. exfalso.
    assert (Hn : items (wq w0) !! j = None).
    { apply (run_reads _ (fun w => items (wq w) !! j) _ _ E0). by vm_compute. }
    change (items (wq w0.1)) with (items (wq w0)) in Hj. rewrite Hn in Hj. discriminate. }
  split; [exact Hw|]. destruct (wakeup_all_livelock w2 0%nat [1%nat] 1000 Hw) as [HL _]. by apply HL.
Defined.
End example.
