(* ===== verification/Net.v ===== *)
(** * core/src/network.cpp: polled descriptors and the kernel's interest set

    poll_wait_item_t, poll_ctx_t and the tables of both, with epoll_ctl as a
    parameter.  A poll_wait_item_t and a poll_ctx_t have addresses, so that a
    pointer to a deleted one faults.  The dispatch list is a ring of the to_dispatch
    members.  The theorem [interest_set_kept]: the kernel waits for exactly the
    events that wait_events says, and for all that a coroutine polls for, as long as
    every poll is for some of epoll's four events on descriptors that nobody else
    polls and only descriptors that nobody polls are closed.
    [poll_nothing_loses_events] and [close_under_poll] are what happens otherwise.
    [netevent_round] is a round of the event loop, and [co_poll_outcome] what co_poll
    returns after it. *)
From S2P Require Import Prelude CList CListStore CListIter Words Component Cells FdCtx.

(** struct pollfd *)
Record pollfd := Pollfd { pfd : Z; pevents : Z; prevents : Z }.

(** poll_wait_item_t, but for its link, which only the constructor touches. *)
Record poll_wait_item (P : Type) := WaitItem { poll_ctx : option P; pos : Z; wfd : Z; wait_events : Z }.
Arguments WaitItem {P} _ _ _ _.
Arguments poll_ctx {P} _.
Arguments pos {P} _.
Arguments wfd {P} _.
Arguments wait_events {P} _.

(** poll_ctx_t, but for its timer and its link; [fds] is the array of the caller,
    with nfds entries, and a pointer that is not set yet is [None]. *)
Record poll_ctx_t (A C : Type) := PollCtx {
  fds : list pollfd; num_raise : Z; retcode : Z; coroutine : option C; wait_item : option A; timeout : Z }.
Arguments PollCtx {A C} _ _ _ _ _ _.
Arguments fds {A C} _.
Arguments num_raise {A C} _.
Arguments retcode {A C} _.
Arguments coroutine {A C} _.
Arguments wait_item {A C} _.
Arguments timeout {A C} _.

(** g_wait_item_mgr ([None] before the first use), what it points to, the
    poll_ctx_ts on the stacks, the kernel, the to_dispatch links and epoll_ctx's
    wait_num and last_event_cnt. *)
Record net (A P C K : Type) `{Countable A, Countable P} := Net {
  mgr : option (list (option A));
  items : gmap A (poll_wait_item P);
  ctxs : gmap P (poll_ctx_t A C);
  kern : K;
  ncells : heap (cell unit P);
  nwait_num : Z;
  last_event_cnt : Z }.
Arguments Net {A P C K _ _ _ _} _ _ _ _ _ _ _.
Arguments mgr {A P C K _ _ _ _} _.
Arguments items {A P C K _ _ _ _} _.
Arguments ctxs {A P C K _ _ _ _} _.
Arguments kern {A P C K _ _ _ _} _.
Arguments ncells {A P C K _ _ _ _} _.
Arguments nwait_num {A P C K _ _ _ _} _.
Arguments last_event_cnt {A P C K _ _ _ _} _.

Definition EPOLLIN : Z := 1.
Definition EPOLLOUT : Z := 4.
Definition EPOLLERR : Z := 8.
Definition EPOLLHUP : Z := 16.
Definition EPOLLET : Z := 2 ^ 31.

Definition epoll_mask : Z := Z.lor (Z.lor EPOLLIN EPOLLOUT) (Z.lor EPOLLHUP EPOLLERR).
Definition epoll_event2poll (events : Z) : Z := Z.land events epoll_mask.
Definition poll_event2epoll (events : Z) : Z := Z.land events epoll_mask.

(** Sets of events by their bits. *)
Definition subset (a b : Z) : Prop := Z.land a b = a.

Lemma subset_bits a b : subset a b <-> forall n, 0 <= n -> Z.testbit a n = true -> Z.testbit b n = true.
Proof.
  unfold subset. split.
  - intros E n Hn Ha. rewrite <-E, Z.land_spec in Ha. by apply andb_prop in Ha as [_ ?].
  - intros Hs. apply Z.bits_inj'. intros n Hn. rewrite Z.land_spec. destruct (Z.testbit a n) eqn:Ea; [|done]. by rewrite (Hs n Hn Ea).
Qed.

Lemma disjoint_bits a b : Z.land a b = 0 <-> forall n, 0 <= n -> Z.testbit a n = true -> Z.testbit b n = false.
Proof.
  split.
  - intros E n Hn Ha. pose proof (f_equal (fun z => Z.testbit z n) E) as Eb. cbn beta in Eb. by rewrite Z.land_spec, Ha, Z.bits_0 in Eb.
  - intros Hd. apply Z.bits_inj'. intros n Hn. rewrite Z.land_spec, Z.bits_0. destruct (Z.testbit a n) eqn:Ea; [|done]. by rewrite (Hd n Hn Ea).
Qed.

Lemma subset_trans a b c : subset a b -> subset b c -> subset a c.
Proof. rewrite !subset_bits. intros H1 H2 n Hn Ha. auto. Qed.

Lemma subset_land_l a b : subset (Z.land a b) a.
Proof. apply subset_bits. intros n Hn. rewrite Z.land_spec. by intros [? _]%andb_prop. Qed.

Lemma subset_land_r a b : subset (Z.land a b) b.
Proof. apply subset_bits. intros n Hn. rewrite Z.land_spec. by intros [_ ?]%andb_prop. Qed.

Lemma subset_lor_l a b : subset a (Z.lor a b).
Proof. apply subset_bits. intros n Hn Ha. by rewrite Z.lor_spec, Ha. Qed.

Lemma subset_lor a b c : subset a c -> subset b c -> subset (Z.lor a b) c.
Proof. rewrite !subset_bits. intros Ha Hb n Hn. rewrite Z.lor_spec. intros [?|?]%orb_prop; auto. Qed.

Lemma subset_minus a b e : subset a b -> Z.land a e = 0 -> subset a (Z.land b (Z.lnot e)).
Proof.
  rewrite !subset_bits, disjoint_bits. intros Hs Hd n Hn Ha. rewrite Z.land_spec, Z.lnot_spec by done. by rewrite (Hs n Hn Ha), (Hd n Hn Ha).
Qed.

Lemma subset_not0 a b : subset a b -> a <> 0 -> b <> 0.
Proof. unfold subset. intros Hs Ha ->. rewrite Z.land_0_r in Hs. congruence. Qed.

(** epoll_ctl, and what the kernel waits for: the events and the data of each
    registered descriptor, as epoll_ctl(2) documents them for a descriptor that
    epoll can watch. *)
Inductive ctl := EPOLL_CTL_ADD | EPOLL_CTL_MOD | EPOLL_CTL_DEL.

Class Epoll (A K : Type) := {
  epoll_ctl : ctl -> Z -> Z -> A -> K -> Z * K;
  interest : K -> Z -> option (Z * A);
  ctl_add k fd ev a : interest k fd = None ->
    exists k', epoll_ctl EPOLL_CTL_ADD fd ev a k = (0, k') /\ forall i, interest k' i = if decide (i = fd) then Some (ev, a) else interest k i;
  ctl_mod k fd ev a : is_Some (interest k fd) ->
    exists k', epoll_ctl EPOLL_CTL_MOD fd ev a k = (0, k') /\ forall i, interest k' i = if decide (i = fd) then Some (ev, a) else interest k i;
  ctl_del k fd ev a : is_Some (interest k fd) ->
    exists k', epoll_ctl EPOLL_CTL_DEL fd ev a k = (0, k') /\ forall i, interest k' i = if decide (i = fd) then None else interest k i;
  ctl_exists k fd ev a : is_Some (interest k fd) -> epoll_ctl EPOLL_CTL_ADD fd ev a k = (-1, k);
  ctl_missing_mod k fd ev a : interest k fd = None -> epoll_ctl EPOLL_CTL_MOD fd ev a k = (-1, k);
  ctl_missing_del k fd ev a : interest k fd = None -> epoll_ctl EPOLL_CTL_DEL fd ev a k = (-1, k) }.

Section network.
Context {A P C K W : Type} `{Countable A, Countable P, !Epoll A K, !Has (net A P C K) W}.
Implicit Types (a : A) (p : P) (q : net A P C K) (w : W) (fd events : Z) (it : poll_wait_item P) (c : poll_ctx_t A C).

(** RLIMIT_NOFILE, operator new, and the timers. *)
Variables (default_size : Z) (malloc : gmap A (poll_wait_item P) -> A).
Variables (set_timer : P -> Z -> W -> outcome W) (cancel_timer : P -> W -> outcome W).

Definition nt w : net A P C K := get w.

Definition set_mgr t q : net A P C K := Net (Some t) (items q) (ctxs q) (kern q) (ncells q) (nwait_num q) (last_event_cnt q).
Definition set_items m q : net A P C K := Net (mgr q) m (ctxs q) (kern q) (ncells q) (nwait_num q) (last_event_cnt q).
Definition set_ctxs m q : net A P C K := Net (mgr q) (items q) m (kern q) (ncells q) (nwait_num q) (last_event_cnt q).
Definition set_kern k q : net A P C K := Net (mgr q) (items q) (ctxs q) k (ncells q) (nwait_num q) (last_event_cnt q).
Definition set_ncells h q : net A P C K := Net (mgr q) (items q) (ctxs q) (kern q) h (nwait_num q) (last_event_cnt q).
Definition set_wait_num n q : net A P C K := Net (mgr q) (items q) (ctxs q) (kern q) (ncells q) n (last_event_cnt q).
Definition set_last n q : net A P C K := Net (mgr q) (items q) (ctxs q) (kern q) (ncells q) (nwait_num q) n.

(** Pointer accesses: item->field and ctx->field. *)
Definition the_item a q : outcome (poll_wait_item P) := of_option (items q !! a).
Definition the_ctx p q : outcome (poll_ctx_t A C) := of_option (ctxs q !! p).
Definition put_item a it q : net A P C K := set_items (<[a := it]> (items q)) q.
Definition put_ctx p c q : net A P C K := set_ctxs (<[p := c]> (ctxs q)) q.
Definition set_events n it : poll_wait_item P := WaitItem (poll_ctx it) (pos it) (wfd it) n.
Definition set_poll o it : poll_wait_item P := WaitItem o (pos it) (wfd it) (wait_events it).
Definition set_fds l c : poll_ctx_t A C := PollCtx l (num_raise c) (retcode c) (coroutine c) (wait_item c) (timeout c).
Definition set_num n c : poll_ctx_t A C := PollCtx (fds c) n (retcode c) (coroutine c) (wait_item c) (timeout c).
Definition set_retcode n c : poll_ctx_t A C := PollCtx (fds c) (num_raise c) n (coroutine c) (wait_item c) (timeout c).
Definition set_coroutine o c : poll_ctx_t A C := PollCtx (fds c) (num_raise c) (retcode c) o (wait_item c) (timeout c).
Definition set_wait_item o c : poll_ctx_t A C := PollCtx (fds c) (num_raise c) (retcode c) (coroutine c) o (timeout c).

(** epoll_ctl, whose failure is logged only. *)
Definition do_ctl (op : ctl) fd ev a q : net A P C K := set_kern (epoll_ctl op fd ev a (kern q)).2 q.

(** poll_wait_item_mgr_t::poll_wait_item_mgr_t, and TLS_GET(g_wait_item_mgr). *)
Definition new_mgr : list (option A) := replicate (Z.to_nat (default_size + 1)) None.
Definition TLS_GET q : list (option A) := match mgr q with Some t => t | None => new_mgr end.

(** poll_wait_item_mgr_t::expand; its loop is that of fd_ctx_expand. *)
Definition expand (fuel : nat) (need_size : Z) (t : list (option A)) : outcome (list (option A)) :=
  n ← grow fuel (Z.of_nat (length t)) need_size;
  Done (t ++ replicate (Z.to_nat n - length t) None).

Definition get_wait_item (fuel : nat) fd q : outcome (A * net A P C K) :=
  if fd <? 0 then Fault
  else
    let t := TLS_GET q in
    t ← (if Z.of_nat (length t) <=? fd then expand fuel (fd + 1) t else Done t);
    s ← of_option (t !! Z.to_nat fd);
    match s with
    | Some a => Done (a, set_mgr t q)
    | None =>
        let a := malloc (items q) in
        Done (a, set_mgr (<[Z.to_nat fd := Some a]> t) (put_item a (WaitItem None 0 fd 0) q))
    end.

(** free_wait_item *)
Definition free_wait_item fd q : outcome (net A P C K) :=
  if fd <? 0 then Fault
  else
    let t := TLS_GET q in
    s ← of_option (t !! Z.to_nat fd);
    match s with
    | None => Done (set_mgr t q)
    | Some a =>
        _ ← the_item a q;
        Done (set_mgr (<[Z.to_nat fd := None]> t) (set_items (delete a (items q)) q))
    end.

(** close_fd_notify_poll *)
Definition close_fd_notify_poll (fuel : nat) fd q : outcome (net A P C K) :=
  match mgr q with
  | None => Done q
  | Some _ =>
      r ← get_wait_item fuel fd q;
      let '(a, q) := r in
      it ← the_item a q;
      let q := if wait_events it =? 0 then q else do_ctl EPOLL_CTL_DEL fd 0 a (put_item a (set_events 0 it) q) in
      free_wait_item fd q
  end.

(** clear_invalid_event *)
Definition clear_invalid_event a events q : outcome (net A P C K) :=
  it ← the_item a q;
  let ev := Z.land (wait_events it) (Z.lnot events) in
  if negb (ev =? 0) then Done (do_ctl EPOLL_CTL_MOD (wfd it) (Z.lor ev EPOLLET) a (put_item a (set_events ev it) q))
  else Done (do_ctl EPOLL_CTL_DEL (wfd it) events a (put_item a (set_events 0 it) q)).

(** fd_notify_events_to_poll; the abort is a fault. *)
Definition fd_notify_events_to_poll (dispatch : nat) a events w : outcome W :=
  it ← the_item a (nt w);
  match poll_ctx it with
  | None => hoist (clear_invalid_event a events) w
  | Some p =>
      c ← the_ctx p (nt w);
      let nfds := wrap_s 32 (Z.of_nat (length (fds c))) in
      if (pos it <? 0) || (nfds <=? pos it) then Fault
      else
        f ← of_option (fds c !! Z.to_nat (pos it));
        let mask := poll_event2epoll (pevents f) in
        let revents := Z.land mask events in
        if negb (revents =? 0) then
          w ← hoist (fun q => Done (put_ctx p (set_fds (<[Z.to_nat (pos it) := Pollfd (pfd f) (pevents f) (epoll_event2poll revents)]> (fds c)) c) q)) w;
          w ← (if 0 <=? timeout c then cancel_timer p w else Done w);
          hoist (fun q =>
            e ← list_empty (Member p) (ncells q);
            h ← (if (e : bool) then list_add_tail (Member p) (Local dispatch) (ncells q) else Done (ncells q));
            c ← the_ctx p q;
            Done (put_ctx p (set_num (wrap_s 32 (num_raise c + 1)) c) (set_ncells h q))) w
        else hoist (clear_invalid_event a events) w
  end.

(** The body of the loop of poll_ctx_t::init; a descriptor that is polled already
    and a negative one abort. *)
Definition poll_one (fuel : nat) p (i : nat) q : outcome (net A P C K) :=
  c ← the_ctx p q;
  f ← of_option (fds c !! i);
  let q := put_ctx p (set_fds (<[i := Pollfd (pfd f) (pevents f) 0]> (fds c)) c) q in
  if pfd f <? 0 then Fault
  else
    r ← get_wait_item fuel (pfd f) q;
    let '(a, q) := r in
    it ← the_item a q;
    match poll_ctx it with
    | Some _ => Fault
    | None =>
        c ← the_ctx p q;
        let q := if bool_decide (i = O) then put_ctx p (set_wait_item (Some a) c) q else q in
        let it := WaitItem (Some p) (Z.of_nat i) (wfd it) (wait_events it) in
        let q := put_item a it q in
        let ev := poll_event2epoll (pevents f) in
        if negb (wait_events it =? 0) then
          let events := Z.lor ev (wait_events it) in
          if negb (events =? wait_events it) then
            Done (do_ctl EPOLL_CTL_MOD (pfd f) (Z.lor events EPOLLET) a (put_item a (set_events events it) q))
          else Done q
        else Done (do_ctl EPOLL_CTL_ADD (pfd f) (Z.lor ev EPOLLET) a (put_item a (set_events ev it) q))
    end.

(** poll_ctx_t::init *)
Definition init_poll_ctx (fuel : nat) p (l : list pollfd) (ms : Z) w : outcome W :=
  w ← hoist (fun q => Done (put_ctx p (PollCtx l 0 0 None None ms) (set_ncells (<[Member p := Link None None]> (ncells q)) q))) w;
  w ← (if 0 <=? ms then set_timer p ms w else Done w);
  w ← hoist (fun q => h ← INIT_LIST_HEAD (Member p) (ncells q); Done (set_ncells h q)) w;
  hoist (run_all (poll_one fuel p) (seq 0 (length l))) w.

(** The body of the loop of destruct_poll_ctx, and the whole function. *)
Definition unpoll (fuel : nat) (f : pollfd) q : outcome (net A P C K) :=
  r ← get_wait_item fuel (pfd f) q;
  let '(a, q) := r in
  it ← the_item a q;
  Done (put_item a (set_poll None it) q).

Definition destruct_poll_ctx (fuel : nat) p q : outcome (net A P C K) :=
  c ← the_ctx p q;
  match fds c with
  | [_] =>
      a ← of_option (wait_item c);
      it ← the_item a q;
      Done (put_item a (set_poll None it) q)
  | l => run_all (unpoll fuel) l q
  end.

(** co_poll up to its yield; [p] is the poll_ctx_t on the stack of [co]. *)
Definition co_poll_begin (fuel : nat) p (co : C) (l : list pollfd) (ms : Z) w : outcome W :=
  w ← init_poll_ctx fuel p l ms w;
  hoist (fun q => c ← the_ctx p q;
    Done (set_wait_num (wrap_s 32 (nwait_num q + 1)) (put_ctx p (set_coroutine (Some co) c) q))) w.

(** co_poll after its yield: the result and the array of the caller. *)
Definition poll_result c : Z := if retcode c =? 0 then num_raise c else if retcode c =? 1 then 0 else -1.

Definition co_poll_end (fuel : nat) p w : outcome (Z * list pollfd * W) :=
  w ← hoist (fun q => c ← the_ctx p q;
        let q := set_wait_num (wrap_s 32 (nwait_num q - 1)) (put_ctx p (set_coroutine None c) q) in
        destruct_poll_ctx fuel p q) w;
  c ← the_ctx p (nt w);
  w ← hoist (fun q => Done (set_ctxs (delete p (ctxs q)) (set_ncells (delete (Member p) (ncells q)) q))) w;
  Done (poll_result c, fds c, w).

(** ** What holds of the tables *)

(** The item of a descriptor. *)
Definition at_table (t : list (option A)) fd : option A := if fd <? 0 then None else mjoin (t !! Z.to_nat fd).
Definition item_at q fd : option A := at_table (TLS_GET q) fd.

(** While poll_ctx_t::init or destruct_poll_ctx runs on [p], only the entries
    [lo] to [hi] of its array are linked to their items: [Some (p, lo, hi)]. *)
Implicit Types (X : option (P * nat * nat)) (tab : Z -> option A) (Is : gmap A (poll_wait_item P)) (Cs : gmap P (poll_ctx_t A C)) (int : Z -> option (Z * A)).

Definition in_range X p (i : nat) : Prop :=
  match X with Some (p', lo, hi) => p = p' -> (lo <= i < hi)%nat | None => True end.

Record tables X tab Is Cs int : Prop := {
  (* every slot points to an item of its descriptor, and every item has its slot *)
  tb_slot : forall fd a, tab fd = Some a -> exists it, Is !! a = Some it /\ wfd it = fd;
  tb_item : forall a it, Is !! a = Some it -> tab (wfd it) = Some a;
  (* the kernel waits for wait_events *)
  tb_mask : forall a it, Is !! a = Some it -> subset (wait_events it) epoll_mask;
  tb_kern : forall fd, int fd = (a ← tab fd; it ← Is !! a; if wait_events it =? 0 then None else Some (Z.lor (wait_events it) EPOLLET, a));
  (* an item that is polled is that of an entry of its poll_ctx, and waits for the events of the entry *)
  tb_poll : forall a it p, Is !! a = Some it -> poll_ctx it = Some p ->
    exists c f, Cs !! p = Some c /\ 0 <= pos it /\ in_range X p (Z.to_nat (pos it)) /\ fds c !! Z.to_nat (pos it) = Some f /\
      pfd f = wfd it /\ subset (poll_event2epoll (pevents f)) (wait_events it);
  (* and every entry has its item *)
  tb_ctx : forall p c i f, Cs !! p = Some c -> fds c !! i = Some f -> in_range X p i ->
    exists a it, tab (pfd f) = Some a /\ Is !! a = Some it /\ poll_ctx it = Some p /\ pos it = Z.of_nat i /\
      (length (fds c) = 1%nat -> wait_item c = Some a) }.

Lemma tables_ext X tab tab' Is Cs int int' :
  (forall fd, tab' fd = tab fd) -> (forall fd, int' fd = int fd) -> tables X tab Is Cs int -> tables X tab' Is Cs int'.
Proof.
  intros Ha Hi [H1 H2 H3 H4 H5 H6]. split; try done.
  - intros fd a. rewrite Ha. apply H1.
  - intros a it. rewrite Ha. apply H2.
  - intros fd. rewrite Ha, Hi. apply H4.
  - intros p c i f Hc Hf Hr. rewrite Ha. eauto.
Qed.

(** A new item. *)
Lemma tables_new X tab Is Cs int fd a :
  tables X tab Is Cs int -> tab fd = None -> Is !! a = None ->
  tables X (fun i => if decide (i = fd) then Some a else tab i) (<[a := WaitItem None 0 fd 0]> Is) Cs int.
Proof.
  intros [H1 H2 H3 H4 H5 H6] Hfd Ha. split.
  - intros i b. case_decide as Hi; [intros [= <-]; eexists; split; [apply lookup_insert_eq|done]|].
    intros Hb. destruct (H1 _ _ Hb) as (it & Hit & <-). exists it. split; [|done]. rewrite lookup_insert_ne; [done|congruence].
  - intros b it [[<- <-]|[Hne Hb]]%lookup_insert_Some; cbn; [by rewrite decide_True|]. rewrite decide_False; [by apply H2|].
    intros E. apply H2 in Hb. congruence.
  - intros b it [[<- <-]|[Hne Hb]]%lookup_insert_Some; [done|by eapply H3].
  - intros i. rewrite H4. case_decide as Hi; [subst i; rewrite Hfd; cbn; by rewrite lookup_insert_eq|].
    destruct (tab i) as [b|] eqn:Eb; [|done]. cbn. rewrite lookup_insert_ne; [done|]. intros <-. destruct (H1 _ _ Eb) as (it & Hit & _). congruence.
  - intros b it p [[<- <-]|[Hne Hb]]%lookup_insert_Some; [done|by apply (H5 b)].
  - intros p c i f Hc Hf Hr. destruct (H6 p c i f Hc Hf Hr) as (b & it & Hat & Hb & Hrest). exists b, it.
    rewrite decide_False by congruence. rewrite lookup_insert_ne by congruence. done.
Qed.

(** A change of an item and of what the kernel waits for on its descriptor. *)
Lemma tables_put X X' tab Is Cs int int' a it it' :
  tables X tab Is Cs int -> Is !! a = Some it -> wfd it' = wfd it -> subset (wait_events it') epoll_mask ->
  (forall i, int' i = if decide (i = wfd it) then if wait_events it' =? 0 then None else Some (Z.lor (wait_events it') EPOLLET, a) else int i) ->
  (forall b jt p, b <> a -> Is !! b = Some jt -> poll_ctx jt = Some p -> in_range X p (Z.to_nat (pos jt)) -> in_range X' p (Z.to_nat (pos jt))) ->
  (forall p, poll_ctx it' = Some p -> exists c f, Cs !! p = Some c /\ 0 <= pos it' /\ in_range X' p (Z.to_nat (pos it')) /\
     fds c !! Z.to_nat (pos it') = Some f /\ pfd f = wfd it /\ subset (poll_event2epoll (pevents f)) (wait_events it')) ->
  (forall p c i f, Cs !! p = Some c -> fds c !! i = Some f -> in_range X' p i ->
    (tab (pfd f) = Some a -> poll_ctx it' = Some p /\ pos it' = Z.of_nat i /\ (length (fds c) = 1%nat -> wait_item c = Some a)) /\
    (tab (pfd f) <> Some a -> in_range X p i)) ->
  tables X' tab (<[a := it']> Is) Cs int'.
Proof.
  intros [H1 H2 H3 H4 H5 H6] Ha Hw Hm Hint HX Hp Hc. split.
  - intros i b Hb. destruct (H1 _ _ Hb) as (jt & Hjt & <-). destruct (decide (b = a)) as [->|Hne].
    + exists it'. rewrite lookup_insert_eq. split; [done|]. congruence.
    + exists jt. by rewrite lookup_insert_ne.
  - intros b jt [[<- <-]|[Hne Hb]]%lookup_insert_Some; [rewrite Hw|]; by apply H2.
  - intros b jt [[<- <-]|[Hne Hb]]%lookup_insert_Some; [done|by eapply H3].
  - intros i. rewrite Hint. case_decide as Hi; [subst i; rewrite (H2 _ _ Ha); cbn; by rewrite lookup_insert_eq|].
    rewrite H4. destruct (tab i) as [b|] eqn:Eb; [|done]. cbn. rewrite lookup_insert_ne; [done|]. intros <-.
    destruct (H1 _ _ Eb) as (jt & Hjt & Hj). congruence.
  - intros b jt p [[<- <-]|[Hne Hb]]%lookup_insert_Some Hpj; [rewrite Hw; by apply Hp|].
    destruct (H5 b jt p Hb Hpj) as (c & f & Hc' & Hp0 & Hr & Hf). exists c, f. split; [done|]. split; [done|]. split; [by eapply (HX b)|done].
  - intros p c i f Hcp Hf Hr. destruct (Hc p c i f Hcp Hf Hr) as [Hca Hcn]. destruct (decide (tab (pfd f) = Some a)) as [E|E].
    + exists a, it'. rewrite lookup_insert_eq. split; [done|]. split; [done|]. by apply Hca.
    + destruct (H6 p c i f Hcp Hf (Hcn E)) as (b & jt & Hat & Hb & Hrest). exists b, jt. rewrite lookup_insert_ne by congruence. done.
Qed.

(** A change of a poll_ctx that its items do not see. *)
Definition asked (l : list pollfd) : list (Z * Z) := (fun f => (pfd f, pevents f)) <$> l.

Lemma asked_lookup l l' i f : asked l' = asked l -> l !! i = Some f -> exists f', l' !! i = Some f' /\ pfd f' = pfd f /\ pevents f' = pevents f.
Proof.
  intros E Hf. assert (Hi : asked l' !! i = Some (pfd f, pevents f)) by (rewrite E; unfold asked; by rewrite list_lookup_fmap, Hf).
  unfold asked in Hi. rewrite list_lookup_fmap in Hi. destruct (l' !! i) as [f'|]; [|done]. injection Hi as <- <-. by exists f'.
Qed.

Lemma tables_ctx X tab Is Cs int p c c' :
  tables X tab Is Cs int -> Cs !! p = Some c -> asked (fds c') = asked (fds c) ->
  (wait_item c' = wait_item c \/ forall i, ~ in_range X p i) -> tables X tab Is (<[p := c']> Cs) int.
Proof.
  intros [H1 H2 H3 H4 H5 H6] Hc Hl Hw. split; try done.
  - intros a it p' Ha Hp. destruct (H5 a it p' Ha Hp) as (d & f & Hd & H0p & Hr & Hf & Hfd & He). destruct (decide (p' = p)) as [->|Hne].
    + rewrite Hc in Hd. injection Hd as <-. destruct (asked_lookup _ (fds c') _ _ Hl Hf) as (f' & Hf' & E1 & E2). exists c', f'.
      rewrite lookup_insert_eq, E1, E2. by split_and!.
    + exists d, f. rewrite lookup_insert_ne by done. by split_and!.
  - intros p' d i f [[<- <-]|[Hne Hd]]%lookup_insert_Some Hf Hr; [|by eapply H6].
    destruct (asked_lookup (fds c') _ _ _ (eq_sym Hl) Hf) as (f' & Hf' & E1 & E2).
    destruct (H6 p c i f' Hc Hf' Hr) as (a & it & Hat & Ha & Hp & Hpos & Hone). exists a, it. rewrite <-E1. split_and!; try done.
    apply (f_equal length) in Hl. unfold asked in Hl. rewrite !length_fmap in Hl. rewrite Hl. intros Hlen. destruct Hw as [->|Hw]; [by apply Hone|by destruct (Hw i)].
Qed.

Lemma tables_begin tab Is Cs int p c :
  tables None tab Is Cs int -> Cs !! p = None -> tables (Some (p, O, O)) tab Is (<[p := c]> Cs) int.
Proof.
  intros [H1 H2 H3 H4 H5 H6] Hp. split; try done.
  - intros a it p' Ha Hpa. destruct (H5 a it p' Ha Hpa) as (d & f & Hd & Hrest). exists d, f.
    rewrite lookup_insert_ne by congruence. split; [done|]. destruct Hrest as (? & _ & ?). split; [done|]. split; [|done].
    cbn. intros ->. congruence.
  - intros p' d i f [[<- <-]|[Hne Hd]]%lookup_insert_Some Hf Hr; [cbn in Hr; specialize (Hr eq_refl); lia|]. by apply (H6 p' d i f).
Qed.

Lemma tables_full tab Is Cs int p c n :
  Cs !! p = Some c -> n = length (fds c) -> tables (Some (p, O, n)) tab Is Cs int <-> tables None tab Is Cs int.
Proof.
  intros Hc ->. split; intros [H1 H2 H3 H4 H5 H6]; split; try done.
  - intros a it p' Ha Hpa. destruct (H5 a it p' Ha Hpa) as (d & f & Hd & ? & _ & ?). by exists d, f.
  - intros p' d i f Hd Hf _. apply (H6 p' d i f Hd Hf). cbn. intros ->. rewrite Hc in Hd. injection Hd as <-. apply lookup_lt_Some in Hf. lia.
  - intros a it p' Ha Hpa. destruct (H5 a it p' Ha Hpa) as (d & f & Hd & ? & _ & Hf & ? & ?). exists d, f. split_and!; try done.
    cbn. intros ->. rewrite Hc in Hd. injection Hd as <-. apply lookup_lt_Some in Hf. lia.
  - intros p' d i f Hd Hf _. by apply (H6 p' d i f).
Qed.

Lemma tables_end tab Is Cs int p n :
  tables (Some (p, n, n)) tab Is Cs int -> tables None tab Is (delete p Cs) int.
Proof.
  intros [H1 H2 H3 H4 H5 H6]. split; try done.
  - intros a it p' Ha Hpa. destruct (H5 a it p' Ha Hpa) as (d & f & Hd & ? & Hr & ?). exists d, f. rewrite lookup_delete_ne; [done|].
    intros <-. cbn in Hr. specialize (Hr eq_refl). lia.
  - intros p' d i f [Hne Hd]%lookup_delete_Some Hf _. apply (H6 p' d i f Hd Hf). cbn. intros ->. done.
Qed.

(** The last moments of an item. *)
Lemma tables_delete tab Is Cs int a it :
  tables None tab Is Cs int -> Is !! a = Some it -> poll_ctx it = None -> wait_events it = 0 ->
  tables None (fun i => if decide (i = wfd it) then None else tab i) (delete a Is) Cs int.
Proof.
  intros [H1 H2 H3 H4 H5 H6] Ha Hp He. split.
  - intros i b. case_decide as Hi; [done|]. intros Hb. destruct (H1 _ _ Hb) as (jt & Hjt & <-). exists jt.
    rewrite lookup_delete_ne; [done|]. congruence.
  - intros b jt [Hne Hb]%lookup_delete_Some. rewrite decide_False; [by apply H2|]. intros E. apply H2 in Hb, Ha. congruence.
  - intros b jt [Hne Hb]%lookup_delete_Some. by eapply H3.
  - intros i. rewrite H4. case_decide as Hi.
    + subst i. rewrite (H2 _ _ Ha). cbn. rewrite Ha. cbn. by rewrite He.
    + destruct (tab i) as [b|] eqn:Eb; [|done]. cbn. rewrite lookup_delete_ne; [done|]. intros <-. destruct (H1 _ _ Eb) as (jt & Hjt & Hj). congruence.
  - intros b jt p [Hne Hb]%lookup_delete_Some. by apply (H5 b).
  - intros p c i f Hc Hf Hr. destruct (H6 p c i f Hc Hf Hr) as (b & jt & Hat & Hb & Hpb & Hrest). exists b, jt.
    assert (b <> a) by congruence. rewrite lookup_delete_ne by done. rewrite decide_False; [done|].
    intros E. rewrite E, (H2 _ _ Ha) in Hat. congruence.
Qed.

(** The kernel's side of a change of wait_events. *)
Lemma interest_of X tab Is Cs int a it :
  tables X tab Is Cs int -> Is !! a = Some it -> int (wfd it) = if wait_events it =? 0 then None else Some (Z.lor (wait_events it) EPOLLET, a).
Proof. intros HT Ha. rewrite (tb_kern _ _ _ _ _ HT), (tb_item _ _ _ _ _ HT _ _ Ha). cbn. by rewrite Ha. Qed.

Lemma interest_some X tab Is Cs k a it :
  tables X tab Is Cs (interest k) -> Is !! a = Some it -> wait_events it <> 0 -> is_Some (interest k (wfd it)).
Proof. intros HT Ha He. rewrite (interest_of _ _ _ _ _ _ _ HT Ha), (proj2 (Z.eqb_neq _ _) He). eauto. Qed.

Lemma do_del X tab Is Cs k a it ev :
  tables X tab Is Cs (interest k) -> Is !! a = Some it ->
  forall i, interest (epoll_ctl EPOLL_CTL_DEL (wfd it) ev a k).2 i = if decide (i = wfd it) then None else interest k i.
Proof.
  intros HT Ha i. destruct (interest k (wfd it)) as [x|] eqn:E.
  - destruct (ctl_del k (wfd it) ev a) as (k' & -> & Hk); [by eexists|]. apply Hk.
  - rewrite ctl_missing_del by done. cbn. by case_decide as Hi; [subst i|].
Qed.

Lemma do_mod X tab Is Cs k a it ev :
  tables X tab Is Cs (interest k) -> Is !! a = Some it -> wait_events it <> 0 ->
  forall i, interest (epoll_ctl EPOLL_CTL_MOD (wfd it) ev a k).2 i = if decide (i = wfd it) then Some (ev, a) else interest k i.
Proof.
  intros HT Ha He i. destruct (ctl_mod k (wfd it) ev a) as (k' & -> & Hk); [|apply Hk].
  by eapply interest_some.
Qed.

Lemma do_add X tab Is Cs k a it ev :
  tables X tab Is Cs (interest k) -> Is !! a = Some it -> wait_events it = 0 ->
  forall i, interest (epoll_ctl EPOLL_CTL_ADD (wfd it) ev a k).2 i = if decide (i = wfd it) then Some (ev, a) else interest k i.
Proof.
  intros HT Ha He i. destruct (ctl_add k (wfd it) ev a) as (k' & -> & Hk); [|apply Hk].
  by rewrite (interest_of _ _ _ _ _ _ _ HT Ha), He.
Qed.

(** ** The operations keep the tables *)

Definition inv X q : Prop := tables X (item_at q) (items q) (ctxs q) (interest (kern q)).

Lemma clear_ok X q a it events :
  inv X q -> items q !! a = Some it ->
  (forall p c f, poll_ctx it = Some p -> ctxs q !! p = Some c -> fds c !! Z.to_nat (pos it) = Some f ->
     Z.land (poll_event2epoll (pevents f)) events = 0) ->
  exists k, clear_invalid_event a events q = Done (set_kern k (put_item a (set_events (Z.land (wait_events it) (Z.lnot events)) it) q)) /\
    inv X (set_kern k (put_item a (set_events (Z.land (wait_events it) (Z.lnot events)) it) q)).
Proof.
  intros HT Ha Hasked. unfold clear_invalid_event, the_item. rewrite Ha. cbn [of_option]. rewrite outcome_bind_ret.
  set (n := Z.land (wait_events it) (Z.lnot events)).
  assert (Hput : forall k, (forall i, interest k i = if decide (i = wfd it) then if n =? 0 then None else Some (Z.lor n EPOLLET, a) else interest (kern q) i) ->
    inv X (set_kern k (put_item a (set_events n it) q))).
  { intros k Hk. unfold inv. apply (tables_put X X _ _ _ (interest (kern q)) _ a it); try done.
    - eapply subset_trans; [apply subset_land_l|by eapply tb_mask].
    - intros p Hp. destruct (tb_poll _ _ _ _ _ HT a it p Ha Hp) as (c & f & Hc & H0p & Hr & Hf & Hfd & He). exists c, f. split_and!; try done.
      apply subset_minus; [done|]. by eapply Hasked.
    - intros p c i f Hc Hf Hr. split; [|done]. intros Hat. destruct (tb_ctx _ _ _ _ _ HT p c i f Hc Hf Hr) as (b & jt & Hat' & Hb & Hp & Hpos & Hone).
      change (item_at q (pfd f) = Some a) in Hat. rewrite Hat in Hat'. injection Hat' as <-. rewrite Ha in Hb. injection Hb as <-. done. }
  destruct (n =? 0) eqn:En; cbn [negb].
  - apply Z.eqb_eq in En. replace (set_events 0 it) with (set_events n it) by by rewrite En. eexists. split; [reflexivity|]. apply Hput.
    intros i. by rewrite (do_del X (item_at q) (items q) (ctxs q) (kern q) a it _ HT Ha).
  - eexists. split; [reflexivity|]. apply Hput. intros i. apply (do_mod X (item_at q) (items q) (ctxs q) (kern q) a it _ HT Ha).
    intros E0. apply Z.eqb_neq in En. apply En. unfold n. by rewrite E0.
Qed.

Lemma at_table_app t n fd : at_table (t ++ replicate n None) fd = at_table t fd.
Proof.
  unfold at_table. destruct (fd <? 0); [done|]. destruct (decide (Z.to_nat fd < length t)%nat).
  - by rewrite lookup_app_l.
  - rewrite lookup_app_r, (lookup_ge_None_2 t) by lia. destruct (replicate n None !! _) as [x|] eqn:E; [|done].
    apply lookup_replicate in E as [-> _]. done.
Qed.

Lemma at_table_insert t fd i x : 0 <= fd -> (Z.to_nat fd < length t)%nat ->
  at_table (<[Z.to_nat fd := x]> t) i = if decide (i = fd) then x else at_table t i.
Proof.
  intros Hfd Hl. unfold at_table. case_decide as Hi.
  - subst i. rewrite (proj2 (Z.ltb_ge _ _)) by done. rewrite list_lookup_insert_eq by done. by destruct x.
  - destruct (Z.ltb_spec i 0); [done|]. rewrite list_lookup_insert_ne; [done|]. lia.
Qed.

(** get_wait_item: the table is large enough afterwards and has the item. *)
Definition fits (fuel : nat) fd : Prop := 0 <= fd /\ fd + 10001 < 2 ^ 31 /\ (fuel_for fd <= fuel)%nat.

Hypothesis malloc_fresh : forall m, m !! malloc m = None.

Lemma reserve_slot fuel fd t : fits fuel fd ->
  exists t', (if Z.of_nat (length t) <=? fd then expand fuel (fd + 1) t else Done t) = Done t' /\
    (Z.to_nat fd < length t')%nat /\ forall i, at_table t' i = at_table t i.
Proof.
  intros (H0' & Hb & Hf). destruct (Z.leb_spec (Z.of_nat (length t)) fd); [|exists t; split_and!; done || lia].
  assert (Hfu : fd + 1 < Z.of_nat (length t) + Z.of_nat fuel * 10000).
  { pose proof (Z.div_mod (fd + 1) 10000 ltac:(lia)). pose proof (Z.mod_pos_bound (fd + 1) 10000 ltac:(lia)).
    assert (0 <= (fd + 1) / 10000) by (apply Z.div_pos; lia). unfold fuel_for in Hf. lia. }
  destruct (grow_ok (fd + 1) fuel (Z.of_nat (length t))) as (n & E & Hn); [lia|lia|lia|].
  unfold expand. rewrite E, outcome_bind_ret. eexists. split; [done|]. split; [|apply at_table_app].
  rewrite length_app, length_replicate. lia.
Qed.

Lemma get_wait_item_ok X fuel fd q : inv X q -> fits fuel fd ->
  exists a it t m, let q' := set_mgr t (set_items m q) in
    get_wait_item fuel fd q = Done (a, q') /\ inv X q' /\ (Z.to_nat fd < length t)%nat /\ t !! Z.to_nat fd = Some (Some a) /\
    items q' !! a = Some it /\ wfd it = fd /\ (items q !! a = Some it \/ items q !! a = None /\ it = WaitItem None 0 fd 0) /\
    (forall b jt, items q !! b = Some jt -> items q' !! b = Some jt) /\
    (forall i, item_at q' i = if decide (i = fd) then Some a else item_at q i).
Proof.
  intros HT Hfits. destruct (reserve_slot fuel fd (TLS_GET q) Hfits) as (t & E & Hl & Hat). destruct Hfits as (Hfd & _ & _).
  unfold get_wait_item. rewrite (proj2 (Z.ltb_ge _ _)) by done. rewrite E, outcome_bind_ret.
  destruct (lookup_lt_is_Some_2 _ _ Hl) as [s Hs]. rewrite Hs. cbn [of_option]. rewrite outcome_bind_ret.
  assert (Hfds : item_at q fd = s).
  { unfold item_at. rewrite <-Hat. unfold at_table. rewrite (proj2 (Z.ltb_ge _ _)) by done. rewrite Hs. by destruct s. }
  destruct s as [a|].
  - destruct (tb_slot _ _ _ _ _ HT _ _ Hfds) as (it & Hit & Hw). exists a, it, t, (items q). cbn. split; [by destruct q|].
    split; [|split_and!; auto]. { unfold inv. eapply tables_ext; [|reflexivity|exact HT]. exact Hat. }
    intros i. unfold item_at at 1. cbn. rewrite Hat. case_decide; [by subst i|done].
  - set (a := malloc (items q)). exists a, (WaitItem None 0 fd 0), (<[Z.to_nat fd := Some a]> t), (<[a := WaitItem None 0 fd 0]> (items q)). cbn.
    assert (Hat' : forall i, item_at (set_mgr (<[Z.to_nat fd := Some a]> t) (set_items (<[a := WaitItem None 0 fd 0]> (items q)) q)) i =
      if decide (i = fd) then Some a else item_at q i).
    { intros i. unfold item_at at 1. cbn. rewrite at_table_insert by done. by rewrite Hat. }
    split; [done|]. split_and!; try done.
    + unfold inv. cbn [items ctxs kern set_mgr set_items]. eapply tables_ext; [exact Hat'|reflexivity|]. apply tables_new; [done|done|apply malloc_fresh].
    + by rewrite length_insert.
    + by rewrite list_lookup_insert_eq.
    + by rewrite lookup_insert_eq.
    + right. split; [apply malloc_fresh|done].
    + intros b jt Hb. rewrite lookup_insert_ne; [done|]. intros <-. unfold a in Hb. by rewrite malloc_fresh in Hb.
Qed.

Lemma poll_link q p c k f a it kk :
  inv (Some (p, O, k)) q -> ctxs q !! p = Some c -> fds c !! k = Some f -> items q !! a = Some it -> poll_ctx it = None -> wfd it = pfd f ->
  poll_event2epoll (pevents f) <> 0 -> (length (fds c) = 1%nat -> wait_item c = Some a) ->
  let n := Z.lor (poll_event2epoll (pevents f)) (wait_events it) in
  (forall i, interest kk i = if decide (i = wfd it) then Some (Z.lor n EPOLLET, a) else interest (kern q) i) ->
  inv (Some (p, O, S k)) (set_kern kk (put_item a (WaitItem (Some p) (Z.of_nat k) (wfd it) n) q)).
Proof.
  intros HT Hc Hf Ha Hp Hw He Hone n Hk. pose proof (tb_item _ _ _ _ _ HT a it Ha) as Hat.
  assert (Hn0 : n <> 0) by (eapply subset_not0; [apply subset_lor_l|exact He]).
  assert (Hold : forall p' d i f', ctxs q !! p' = Some d -> fds d !! i = Some f' -> in_range (Some (p, O, k)) p' i -> item_at q (pfd f') <> Some a).
  { intros p' d i f' Hd Hf' Hr E. destruct (tb_ctx _ _ _ _ _ HT p' d i f' Hd Hf' Hr) as (b & jt & Hb & Hjt & Hpj & _). congruence. }
  unfold inv. apply (tables_put (Some (p, O, k)) _ _ _ _ (interest (kern q)) _ a it); try done.
  - apply subset_lor; [apply subset_land_r|by eapply tb_mask].
  - intros i. cbn [wait_events]. rewrite (proj2 (Z.eqb_neq n 0) Hn0). apply Hk.
  - intros b jt p' Hb Hjt Hpj Hr. cbn in Hr |- *. intros ->. specialize (Hr eq_refl). lia.
  - intros p' [= <-]. exists c, f. cbn. rewrite Nat2Z.id. split_and!; [done|lia|lia|done|done|apply subset_lor_l].
  - intros p' d i f' Hd Hf' Hr. change (ctxs q !! p' = Some d) in Hd. change (item_at (set_kern kk (put_item a ?x q))) with (item_at q). split.
    + intros E. destruct (decide (p' = p)) as [->|Hne].
      * rewrite Hc in Hd. injection Hd as <-. cbn in Hr. specialize (Hr eq_refl). destruct (decide (i = k)) as [->|Hik]; [done|].
        destruct (Hold p c i f' Hc Hf'); [cbn; lia|done].
      * by destruct (Hold p' d i f' Hd Hf').
    + intros E. cbn in Hr |- *. intros ->. specialize (Hr eq_refl). rewrite Hc in Hd. injection Hd as <-. split; [lia|].
      destruct (decide (i = k)) as [->|]; [|lia]. exfalso. apply E. rewrite Hf in Hf'. injection Hf' as <-. rewrite <-Hw. exact Hat.
Qed.

(** A descriptor that nobody polls. *)
Definition free_fd q fd : Prop := forall a it, item_at q fd = Some a -> items q !! a = Some it -> poll_ctx it = None.

(** What is not about the tables: links, counters. *)
Definition same_rest q q' : Prop := ncells q' = ncells q /\ nwait_num q' = nwait_num q /\ last_event_cnt q' = last_event_cnt q.

Definition clear_revents (f : pollfd) : pollfd := Pollfd (pfd f) (pevents f) 0.

Lemma asked_insert l i f f' : l !! i = Some f -> pfd f' = pfd f -> pevents f' = pevents f -> asked (<[i := f']> l) = asked l.
Proof.
  intros Hf E1 E2. unfold asked. rewrite list_fmap_insert, E1, E2. apply list_insert_id. by rewrite list_lookup_fmap, Hf.
Qed.

Lemma poll_one_ok fuel p c k f q :
  inv (Some (p, O, k)) q -> ctxs q !! p = Some c -> fds c !! k = Some f -> fits fuel (pfd f) -> free_fd q (pfd f) ->
  poll_event2epoll (pevents f) <> 0 ->
  exists q' o, poll_one fuel p k q = Done q' /\ inv (Some (p, O, S k)) q' /\ same_rest q q' /\
    ctxs q' = <[p := set_wait_item o (set_fds (<[k := clear_revents f]> (fds c)) c)]> (ctxs q) /\
    forall fd, fd <> pfd f -> free_fd q fd -> free_fd q' fd.
Proof.
  intros HT Hc Hf Hfits Hfree He. unfold poll_one, the_ctx. rewrite Hc. cbn [of_option]. rewrite outcome_bind_ret, Hf. cbn [of_option].
  rewrite outcome_bind_ret, (proj2 (Z.ltb_ge (pfd f) 0)) by apply Hfits. fold (clear_revents f).
  set (c1 := set_fds _ c). assert (HT1 : inv (Some (p, O, k)) (put_ctx p c1 q)).
  { unfold inv. eapply tables_ctx; [exact HT|exact Hc| |by left]. by eapply asked_insert. }
  destruct (get_wait_item_ok _ _ _ _ HT1 Hfits) as (a & it & t & m & E & HT2 & _ & _ & Ha & Hw & Hor & Hkeep & Hat). rewrite E, outcome_bind_ret.
  set (q2 := set_mgr t (set_items m (put_ctx p c1 q))) in *. unfold the_item. rewrite Ha. cbn [of_option]. rewrite outcome_bind_ret.
  assert (Hp : poll_ctx it = None).
  { destruct Hor as [Hit|[_ ->]]; [|done]. apply (Hfree a); [|exact Hit]. rewrite <-Hw. apply (tb_item _ _ _ _ _ HT1 a it Hit). }
  rewrite Hp. change (ctxs q2) with (<[p := c1]> (ctxs q)). rewrite lookup_insert_eq. cbn [of_option]. rewrite outcome_bind_ret.
  set (o := if bool_decide (k = O) then Some a else wait_item c1).
  set (q3 := if bool_decide (k = O) then put_ctx p (set_wait_item (Some a) c1) q2 else q2).
  assert (Hq3 : q3 = put_ctx p (set_wait_item o c1) q2).
  { unfold q3, o. case_bool_decide; [done|]. unfold q2, put_ctx, set_ctxs, set_mgr, set_items. cbn. by rewrite insert_insert_eq. }
  clearbody q3. subst q3.
  assert (HT3 : inv (Some (p, O, k)) (put_ctx p (set_wait_item o c1) q2)).
  { unfold inv. apply (tables_ctx _ _ _ _ _ p c1); [exact HT2|apply lookup_insert_eq|done|].
    unfold o. case_bool_decide as Hk0; [right|by left]. intros i Hi. subst k. cbn in Hi. specialize (Hi eq_refl). lia. }
  set (c3 := set_wait_item o c1). set (q3 := put_ctx p c3 q2). set (ev := poll_event2epoll (pevents f)) in *. set (n := Z.lor ev (wait_events it)).
  assert (Hlink : forall kk, (forall i, interest kk i = if decide (i = wfd it) then Some (Z.lor n EPOLLET, a) else interest (kern q) i) ->
    inv (Some (p, O, S k)) (set_kern kk (put_item a (WaitItem (Some p) (Z.of_nat k) (wfd it) n) q3))).
  { intros kk Hk. apply (poll_link q3 p c3 k (clear_revents f) a it kk HT3); try done.
    - apply lookup_insert_eq.
    - apply list_lookup_insert_eq. by eapply lookup_lt_Some.
    - cbn. rewrite length_insert. intros Hl. unfold o. rewrite bool_decide_true; [done|]. apply lookup_lt_Some in Hf. lia. }
  assert (Hend : forall kk, exists q' o', Done (set_kern kk (put_item a (WaitItem (Some p) (Z.of_nat k) (wfd it) n) q3)) = Done q' /\
    ((forall i, interest kk i = if decide (i = wfd it) then Some (Z.lor n EPOLLET, a) else interest (kern q) i) -> inv (Some (p, O, S k)) q') /\ same_rest q q' /\
    ctxs q' = <[p := set_wait_item o' c1]> (ctxs q) /\ forall fd, fd <> pfd f -> free_fd q fd -> free_fd q' fd).
  { intros kk. eexists _, o. split; [done|]. split; [apply Hlink|]. split; [done|]. split; [apply insert_insert_eq|].
    intros fd Hne Hfd b jt Hb Hjt. change (item_at q2 fd = Some b) in Hb. rewrite Hat, decide_False in Hb by done.
    change (<[a := WaitItem (Some p) (Z.of_nat k) (wfd it) n]> m !! b = Some jt) in Hjt.
    destruct (tb_slot _ _ _ _ _ HT fd b Hb) as (jt' & Hjt' & Hwj).
    apply Hkeep in Hjt' as Hm. change (m !! b = Some jt') in Hm. apply lookup_insert_Some in Hjt as [[<- _]|[_ Hjt]].
    - change (m !! a = Some it) in Ha. rewrite Ha in Hm. injection Hm as ->. congruence.
    - rewrite Hm in Hjt. injection Hjt as <-. by apply (Hfd b). }
  assert (Hput : forall x y, put_item a x (put_item a y q3) = put_item a x q3).
  { intros x y. unfold put_item, set_items. cbn. by rewrite insert_insert_eq. }
  unfold set_events, do_ctl. cbn [poll_ctx pos wfd wait_events]. rewrite !Hput.
  destruct (Z.eqb_spec (wait_events it) 0) as [Ez|Ez]; cbn [negb].
  - replace ev with n by (unfold n; rewrite Ez; apply Z.lor_0_r).
    change (kern (put_item a ?x q3)) with (kern q).
    destruct (Hend (epoll_ctl EPOLL_CTL_ADD (pfd f) (Z.lor n EPOLLET) a (kern q)).2) as (q' & o' & E' & HI & Hrest). exists q', o'. split; [exact E'|].
    split; [apply HI|exact Hrest]. intros i. rewrite <-Hw. apply (do_add _ _ _ _ (kern q) a it _ HT2 Ha Ez).
  - fold n. destruct (Z.eqb_spec n (wait_events it)) as [En|En]; cbn [negb].
    + destruct (Hend (kern q)) as (q' & o' & E' & HI & Hrest). exists q', o'. rewrite <-E', En. split; [done|]. split; [|exact Hrest]. apply HI.
      intros i. case_decide as Hi; [|done]. subst i. rewrite En. change (kern q) with (kern q2). rewrite (interest_of _ _ _ _ _ a it HT2 Ha).
      by rewrite (proj2 (Z.eqb_neq _ _) Ez).
    + change (kern (put_item a ?x q3)) with (kern q).
      destruct (Hend (epoll_ctl EPOLL_CTL_MOD (pfd f) (Z.lor n EPOLLET) a (kern q)).2) as (q' & o' & E' & HI & Hrest). exists q', o'. split; [exact E'|].
      split; [apply HI|exact Hrest]. intros i. rewrite <-Hw. apply (do_mod _ _ _ _ (kern q) a it _ HT2 Ha Ez).
Qed.

Lemma same_rest_trans q1 q2 q3 : same_rest q1 q2 -> same_rest q2 q3 -> same_rest q1 q3.
Proof. unfold same_rest. intuition congruence. Qed.

Lemma poll_all_ok fuel p : forall m k q c,
  inv (Some (p, O, k)) q -> ctxs q !! p = Some c -> length (fds c) = (k + m)%nat -> NoDup (pfd <$> fds c) ->
  (forall i f, (k <= i)%nat -> fds c !! i = Some f -> fits fuel (pfd f) /\ free_fd q (pfd f) /\ poll_event2epoll (pevents f) <> 0) ->
  exists q' o, run_all (poll_one fuel p) (seq k m) q = Done q' /\ inv (Some (p, O, (k + m)%nat)) q' /\ same_rest q q' /\
    ctxs q' = <[p := set_wait_item o (set_fds (take k (fds c) ++ (clear_revents <$> drop k (fds c))) c)]> (ctxs q).
Proof.
  induction m as [|m IH]; intros k q c HT Hc Hl Hnd Hall.
  - exists q, (wait_item c). rewrite Nat.add_0_r in *. rewrite drop_ge, app_nil_r, firstn_all2 by lia. split_and!; try done.
    rewrite insert_id; [done|]. rewrite Hc. by destruct c.
  - destruct (lookup_lt_is_Some_2 (fds c) k) as [f Hf]; [lia|]. destruct (Hall k f) as (Hfits & Hfree & He); [lia|done|].
    destruct (poll_one_ok fuel p c k f q HT Hc Hf Hfits Hfree He) as (q1 & o1 & E1 & HT1 & HR1 & Hc1 & Hf1).
    set (c1 := set_wait_item o1 (set_fds (<[k := clear_revents f]> (fds c)) c)) in *.
    assert (Hp1 : pfd <$> fds c1 = pfd <$> fds c).
    { cbn. rewrite list_fmap_insert. cbn. apply list_insert_id. by rewrite list_lookup_fmap, Hf. }
    destruct (IH (S k) q1 c1) as (q' & o & E & HT' & HR' & Hc').
    + exact HT1.
    + rewrite Hc1. apply lookup_insert_eq.
    + cbn. rewrite length_insert. lia.
    + by rewrite Hp1.
    + intros i f' Hi Hf'. cbn in Hf'. rewrite list_lookup_insert_ne in Hf' by lia. destruct (Hall i f') as (? & Hfr & ?); [lia|done|].
      split; [done|]. split; [|done]. apply Hf1; [|done]. intros Eq. assert (i = k); [|lia].
      eapply NoDup_lookup; [exact Hnd|rewrite list_lookup_fmap, Hf'; cbn; by rewrite Eq|by rewrite list_lookup_fmap, Hf].
    + exists q', o. cbn [seq run_all]. rewrite E1, outcome_bind_ret. split; [exact E|]. rewrite <-Nat.add_succ_comm. split; [exact HT'|].
      split; [by eapply same_rest_trans|]. rewrite Hc', Hc1, insert_insert_eq. f_equal. cbn. unfold set_fds, set_wait_item. cbn. f_equal.
      assert (Hlk : (k < length (fds c))%nat) by lia.
      rewrite (drop_S _ _ _ Hf), fmap_cons, (take_S_r _ k (clear_revents f)) by by apply list_lookup_insert_eq.
      rewrite take_insert_ge, drop_insert_lt by lia. by rewrite <-app_assoc.
Qed.

(** ** Links, counters and timers *)

Variable Inv : W -> Prop.
Hypothesis Inv_nt : forall q w, Inv w -> Inv (put q w).
Hypothesis set_timer_ok : forall p ms w, Inv w -> exists w', set_timer p ms w = Done w' /\ nt w' = nt w /\ Inv w'.
Hypothesis cancel_timer_ok : forall p w, Inv w -> exists w', cancel_timer p w = Done w' /\ nt w' = nt w /\ Inv w'.

Lemma nt_put q w : nt (put q w) = q.
Proof. apply get_put. Qed.

(** The poll_ctxs and their links: [Ls] are the lists of them, [free] those in
    no list. *)
Definition linked q (Ls : list (cell unit P * list P)) (free : list P) : Prop :=
  rings (ncells q) (lists_of Ls free) /\ (forall p, p ∈ members Ls free <-> is_Some (ctxs q !! p)) /\
  forall p c, ctxs q !! p = Some c -> Z.of_nat (length (fds c)) < 2 ^ 31.

Definition net_ok w Ls free : Prop := inv None (nt w) /\ linked (nt w) Ls free /\ Inv w.

(** A poll that can be made: the descriptors differ, are not negative and are
    polled by nobody, and each asks for one of epoll's events. *)
Definition pollable (fuel : nat) w (l : list pollfd) : Prop :=
  Z.of_nat (length l) < 2 ^ 31 /\ NoDup (pfd <$> l) /\ forall f, f ∈ l -> fits fuel (pfd f) /\ free_fd (nt w) (pfd f) /\ poll_event2epoll (pevents f) <> 0.

Lemma timer_ok (b : bool) (f : W -> outcome W) w :
  (Inv w -> exists w', f w = Done w' /\ nt w' = nt w /\ Inv w') -> Inv w ->
  exists w', (if b then f w else Done w) = Done w' /\ nt w' = nt w /\ Inv w'.
Proof. intros Hf HI. destruct b; [by apply Hf|by exists w]. Qed.

Lemma linked_new q p Ls free :
  linked q Ls free -> ncells q !! Member p = None ->
  exists h, INIT_LIST_HEAD (Member p) (<[Member p := Link None None]> (ncells q)) = Done h /\
    forall q' c, ncells q' = h -> ctxs q' = <[p := c]> (ctxs q) -> Z.of_nat (length (fds c)) < 2 ^ 31 -> linked q' Ls (p :: free).
Proof.
  intros (HR & Hm & Hs) Hf.
  assert (HR0 : rings (<[Member p := Link None None]> (ncells q)) (lists_of Ls free)) by by apply rings_insert_fresh.
  destruct (rings_init _ _ (Member p) HR0) as (h & E & HR1 & _).
  { apply alloc_Some. by rewrite lookup_insert_eq. }
  { intros Hin%(rings_alloc _ _ _ HR)%alloc_Some. rewrite Hf in Hin. by destruct Hin. }
  exists h. split; [done|]. intros q' c <- Hc Hlen. split; [by rewrite lists_of_free|]. rewrite Hc. split.
  - intros p'. rewrite lookup_insert_is_Some', <-Hm. unfold members. rewrite <-Permutation_middle, elem_of_cons. clear. naive_solver.
  - intros p' c' [[<- <-]|[_ Hc']]%lookup_insert_Some; [done|by eapply Hs].
Qed.

Lemma init_poll_ctx_ok fuel p l ms w Ls free :
  net_ok w Ls free -> ctxs (nt w) !! p = None -> ncells (nt w) !! Member p = None -> pollable fuel w l ->
  exists w' o, init_poll_ctx fuel p l ms w = Done w' /\ net_ok w' Ls (p :: free) /\
    ctxs (nt w') = <[p := PollCtx (clear_revents <$> l) 0 0 None o ms]> (ctxs (nt w)) /\ nwait_num (nt w') = nwait_num (nt w).
Proof.
  intros (HT & HL & HI) Hp Hcell (Hlen & Hnd & Hpoll). unfold init_poll_ctx, hoist. fold (nt w). cbn [mbind outcome_bind].
  set (q := nt w) in *. set (c0 := PollCtx l 0 0 None None ms). set (q1 := put_ctx p c0 (set_ncells _ q)).
  destruct (timer_ok (0 <=? ms) (set_timer p ms) (put q1 w)) as (w1 & -> & Hw1 & HI1); [apply set_timer_ok|by apply Inv_nt|].
  rewrite nt_put in Hw1. cbn [mbind outcome_bind]. fold (nt w1). rewrite Hw1.
  destruct (linked_new q p Ls free HL Hcell) as (h & E & Hlinked). change (ncells q1) with (<[Member p := Link None None]> (ncells q)).
  rewrite E. cbn [mbind outcome_bind]. fold (nt (put (set_ncells h q1) w1)). rewrite nt_put. set (q2 := set_ncells h q1).
  destruct (poll_all_ok fuel p (length l) 0 q2 c0) as (q' & o & Er & HT' & (Hn' & Hw' & _) & Hc').
  - unfold inv. by apply tables_begin.
  - apply lookup_insert_eq.
  - done.
  - done.
  - intros i f _ Hf. apply list_elem_of_lookup_2 in Hf. by destruct (Hpoll f Hf).
  - rewrite Er. cbn [mbind outcome_bind]. eexists _, o. split; [reflexivity|].
    assert (Hcs : ctxs q' = <[p := PollCtx (clear_revents <$> l) 0 0 None o ms]> (ctxs q)).
    { rewrite Hc'. change (ctxs q2) with (<[p := c0]> (ctxs q)). rewrite insert_insert_eq. done. }
    unfold net_ok. rewrite nt_put. split; [split; [|split; [|by do 2 apply Inv_nt]]|by split].
    + unfold inv. eapply tables_full; [rewrite Hcs; apply lookup_insert_eq| |exact HT']. cbn. by rewrite length_fmap.
    + eapply Hlinked; [done..|]. cbn. by rewrite length_fmap.
Qed.

(** The fields of a poll_ctx that the links do not see. *)
Lemma linked_ctx q q' p c c' Ls free :
  linked q Ls free -> ctxs q !! p = Some c -> length (fds c') = length (fds c) -> ncells q' = ncells q -> ctxs q' = <[p := c']> (ctxs q) ->
  linked q' Ls free.
Proof.
  intros (HR & Hm & Hs) Hc Hl Hn Hcs. split; [by rewrite Hn|]. rewrite Hcs. split.
  - intros p'. rewrite lookup_insert_is_Some', Hm. split; [by right|]. intros [<-|?]; [by eexists|done].
  - intros p' d [[<- <-]|[_ Hd]]%lookup_insert_Some; [rewrite Hl|]; by eapply Hs.
Qed.

Lemma co_poll_begin_ok fuel p co l ms w Ls free :
  net_ok w Ls free -> ctxs (nt w) !! p = None -> ncells (nt w) !! Member p = None -> pollable fuel w l ->
  exists w' o, co_poll_begin fuel p co l ms w = Done w' /\ net_ok w' Ls (p :: free) /\
    ctxs (nt w') = <[p := PollCtx (clear_revents <$> l) 0 0 (Some co) o ms]> (ctxs (nt w)) /\
    nwait_num (nt w') = wrap_s 32 (nwait_num (nt w) + 1).
Proof.
  intros HN Hp Hcell Hpoll. destruct (init_poll_ctx_ok fuel p l ms w Ls free HN Hp Hcell Hpoll) as (w1 & o & E & (HT & HL & HI) & Hc & Hn).
  unfold co_poll_begin, hoist. rewrite E. cbn [mbind outcome_bind]. fold (nt w1). unfold the_ctx.
  assert (Hcp : ctxs (nt w1) !! p = Some (PollCtx (clear_revents <$> l) 0 0 None o ms)) by (rewrite Hc; apply lookup_insert_eq).
  rewrite Hcp. cbn [of_option mbind outcome_bind]. eexists _, o. split; [reflexivity|]. unfold net_ok. rewrite nt_put. split; [|split].
  - split; [|split; [|by apply Inv_nt]].
    + unfold inv. by eapply tables_ctx; [exact HT|exact Hcp| |left].
    + by eapply linked_ctx; [exact HL|exact Hcp| | |reflexivity].
  - cbn. rewrite Hc. apply insert_insert_eq.
  - cbn. by rewrite Hn.
Qed.

(** What an event does to the poll that waits for it, if any. *)
Definition raised (f : pollfd) events : Z := Z.land (poll_event2epoll (pevents f)) events.
Definition raise_fd (i : nat) f events c : poll_ctx_t A C :=
  set_num (wrap_s 32 (num_raise c + 1)) (set_fds (<[i := Pollfd (pfd f) (pevents f) (epoll_event2poll (raised f events))]> (fds c)) c).

Definition waiting_entry w a p c (i : nat) f : Prop :=
  exists it, items (nt w) !! a = Some it /\ poll_ctx it = Some p /\ pos it = Z.of_nat i /\ ctxs (nt w) !! p = Some c /\ fds c !! i = Some f.

Lemma wrap_small x : 0 <= x < 2 ^ 31 -> wrap_s 32 x = x.
Proof. intros Hx. unfold wrap_s. change (32 - 1) with 31. rewrite Z.mod_small; lia. Qed.

(** What the notifications keep: who polls for what. *)
Definition same_polls q q' : Prop :=
  (forall a it, items q !! a = Some it -> exists it', items q' !! a = Some it' /\ poll_ctx it' = poll_ctx it /\ pos it' = pos it) /\
  (forall p c, ctxs q !! p = Some c -> exists c', ctxs q' !! p = Some c' /\ asked (fds c') = asked (fds c)).

Lemma same_polls_trans q1 q2 q3 : same_polls q1 q2 -> same_polls q2 q3 -> same_polls q1 q3.
Proof.
  intros [H1 H2] [H3 H4]. split.
  - intros a it Ha. destruct (H1 _ _ Ha) as (it2 & Ha2 & E1 & E2). destruct (H3 _ _ Ha2) as (it3 & Ha3 & E3 & E4). exists it3. split; [done|]. by rewrite E3, E4.
  - intros p c Hc. destruct (H2 _ _ Hc) as (c2 & Hc2 & E1). destruct (H4 _ _ Hc2) as (c3 & Hc3 & E3). exists c3. split; [done|]. by rewrite E3.
Qed.

Lemma notify_clear_ok n a events w Ls free it :
  net_ok w Ls free -> items (nt w) !! a = Some it ->
  (forall p c i f, waiting_entry w a p c i f -> raised f events = 0) ->
  exists w', fd_notify_events_to_poll n a events w = Done w' /\ net_ok w' Ls free /\ ctxs (nt w') = ctxs (nt w) /\ same_polls (nt w) (nt w').
Proof.
  intros (HT & HL & HI) Ha Hno. unfold fd_notify_events_to_poll, the_item. rewrite Ha. cbn [of_option mbind outcome_bind].
  destruct (clear_ok None (nt w) a it events HT Ha) as (k & E & HT').
  { intros p c f Hp Hc Hf. apply (Hno p c (Z.to_nat (pos it)) f). exists it. destruct (tb_poll _ _ _ _ _ HT a it p Ha Hp) as (_ & _ & _ & ? & _).
    rewrite Z2Nat.id by done. done. }
  assert (Hclear : exists w', hoist (clear_invalid_event a events) w = Done w' /\ net_ok w' Ls free /\ ctxs (nt w') = ctxs (nt w) /\
    same_polls (nt w) (nt w')).
  { unfold hoist. fold (nt w). rewrite E. cbn [mbind outcome_bind]. eexists. split; [reflexivity|]. unfold net_ok. rewrite nt_put.
    split; [split; [exact HT'|split; [exact HL|by apply Inv_nt]]|]. split; [done|]. split.
    - intros b jt Hb. destruct (decide (b = a)) as [->|Hne]; cbn; [rewrite lookup_insert_eq|rewrite lookup_insert_ne by done; by exists jt].
      rewrite Ha in Hb. injection Hb as <-. by eexists.
    - intros p c Hc. by exists c. }
  destruct (poll_ctx it) as [p|] eqn:Hp; [|exact Hclear].
  destruct (tb_poll _ _ _ _ _ HT a it p Ha Hp) as (c & f & Hc & H0p & _ & Hf & _). unfold the_ctx. rewrite Hc. cbn [of_option mbind outcome_bind].
  pose proof (lookup_lt_Some _ _ _ Hf) as Hlt. destruct HL as (HR & Hm & Hs). pose proof (Hs p c Hc).
  rewrite wrap_small by lia. rewrite (proj2 (Z.ltb_ge (pos it) 0)), (proj2 (Z.leb_gt _ (pos it))) by lia. cbn [orb]. rewrite Hf. cbn [of_option mbind outcome_bind].
  fold (raised f events). rewrite (Hno p c (Z.to_nat (pos it)) f); [exact Hclear|]. exists it. by rewrite Z2Nat.id.
Qed.

Lemma notify_raise_ok n a events w l free p c i f :
  net_ok w [(Local n, l)] free -> waiting_entry w a p c i f -> raised f events <> 0 ->
  exists w', fd_notify_events_to_poll n a events w = Done w' /\ ctxs (nt w') = <[p := raise_fd i f events c]> (ctxs (nt w)) /\
    same_polls (nt w) (nt w') /\
    (p ∈ l /\ net_ok w' [(Local n, l)] free \/
     exists free', (p ∉ l) /\ free ≡ₚ p :: free' /\ net_ok w' [(Local n, l ++ [p])] free').
Proof.
  intros (HT & (HR & Hm & Hs) & HI) (it & Ha & Hp & Hpos & Hc & Hf) Hr. unfold fd_notify_events_to_poll, the_item, the_ctx.
  rewrite Ha. cbn [of_option mbind outcome_bind]. rewrite Hp, Hc. cbn [of_option mbind outcome_bind].
  pose proof (lookup_lt_Some _ _ _ Hf) as Hlt. pose proof (Hs p c Hc). rewrite Hpos, wrap_small by lia.
  rewrite (proj2 (Z.ltb_ge (Z.of_nat i) 0)), (proj2 (Z.leb_gt _ (Z.of_nat i))) by lia. cbn [orb]. rewrite Nat2Z.id, Hf. cbn [of_option mbind outcome_bind].
  fold (raised f events). rewrite (proj2 (Z.eqb_neq _ _) Hr). cbn [negb]. unfold hoist. fold (nt w). cbn [mbind outcome_bind].
  set (c1 := set_fds _ c). set (q1 := put_ctx p c1 (nt w)).
  destruct (timer_ok (0 <=? timeout c) (cancel_timer p) (put q1 w)) as (w2 & -> & Hw2 & HI2); [apply cancel_timer_ok|by apply Inv_nt|].
  rewrite nt_put in Hw2. cbn [mbind outcome_bind]. fold (nt w2). rewrite Hw2. change (ncells q1) with (ncells (nt w)).
  change (ctxs q1 !! p) with (<[p := c1]> (ctxs (nt w)) !! p). rewrite lookup_insert_eq. cbn [of_option mbind outcome_bind].
  set (c2 := set_num _ c1). assert (Hc2 : c2 = raise_fd i f events c) by done.
  assert (Hlen : length (fds c2) = length (fds c)) by (cbn; apply length_insert).
  assert (HT2 : forall h, inv None (put_ctx p c2 (set_ncells h q1))).
  { intros h. unfold inv. cbn. rewrite insert_insert_eq. eapply tables_ctx; [exact HT|exact Hc| |by left]. by eapply asked_insert. }
  assert (Hput : forall h Ls fr, rings h (lists_of Ls fr) -> members Ls fr ≡ₚ members [(Local n : cell unit P, l)] free ->
    net_ok (put (put_ctx p c2 (set_ncells h q1)) w2) Ls fr /\
    ctxs (nt (put (put_ctx p c2 (set_ncells h q1)) w2)) = <[p := c2]> (ctxs (nt w)) /\
    same_polls (nt w) (nt (put (put_ctx p c2 (set_ncells h q1)) w2))).
  { intros h Ls fr Hrh Hmem. unfold net_ok. rewrite nt_put. split; [|split; [cbn; apply insert_insert_eq|]].
    2: { split; [intros b jt Hb; by exists jt|]. intros p' d Hd. cbn. rewrite insert_insert_eq. destruct (decide (p' = p)) as [->|Hne].
         - rewrite lookup_insert_eq. exists c2. split; [done|]. rewrite Hc in Hd. injection Hd as <-. by eapply asked_insert.
         - rewrite lookup_insert_ne by done. by exists d. }
    split; [apply HT2|]. split; [|by apply Inv_nt].
    split; [exact Hrh|]. cbn. rewrite insert_insert_eq. split.
    - intros p'. rewrite Hmem, Hm, lookup_insert_is_Some'. split; [by right|]. intros [<-|?]; [by eexists|done].
    - intros p' d [[<- <-]|[_ Hd]]%lookup_insert_Some; [rewrite Hlen|]; by eapply Hs. }
  pose proof (proj2 (Hm p) (mk_is_Some _ _ Hc)) as Hin. unfold members in Hin. cbn in Hin. rewrite app_nil_r in Hin.
  pose proof (members_nodup _ _ _ HR) as Hnd. unfold members in Hnd. cbn in Hnd. rewrite app_nil_r in Hnd.
  apply elem_of_app in Hin as [Hin|Hin].
  - apply list_elem_of_split in Hin as (l1 & l2 & ->). rewrite (cells_empty_member _ _ _ _ _ _ _ HR). cbn [mbind outcome_bind].
    destruct (Hput (ncells (nt w)) [(Local n, l1 ++ p :: l2)] free HR (reflexivity _)) as (HN & Hcs & HS). eexists. split; [reflexivity|].
    split; [by rewrite Hcs|]. split; [exact HS|]. left. split; [|exact HN]. rewrite elem_of_app. right. left.
  - apply elem_of_Permutation in Hin as [free' Hperm].
    rewrite (lists_of_perm _ _ _ _ (reflexivity _) Hperm) in HR. rewrite (cells_empty_detached _ _ _ _ HR). cbn [mbind outcome_bind].
    destruct (cells_add_tail _ _ _ _ _ _ HR) as (h & -> & HRh & _). cbn [mbind outcome_bind].
    destruct (Hput h _ _ HRh) as (HN & Hcs & HS).
    { unfold members. cbn. rewrite !app_nil_r, Hperm. by rewrite <-app_assoc. }
    eexists. split; [reflexivity|]. split; [by rewrite Hcs|]. split; [exact HS|]. right. exists free'. split; [|by split].
    rewrite Hperm in Hnd. apply NoDup_app in Hnd as (_ & Hd & _). intros Hl. apply (Hd p Hl). left.
Qed.

(** ** The end of a poll *)

Lemma unlink q p c k n f a it :
  inv (Some (p, k, n)) q -> ctxs q !! p = Some c -> fds c !! k = Some f -> item_at q (pfd f) = Some a -> items q !! a = Some it ->
  poll_ctx it = Some p -> pos it = Z.of_nat k ->
  inv (Some (p, S k, n)) (put_item a (set_poll None it) q).
Proof.
  intros HT Hc Hf Hat Ha Hp Hpos. pose proof (tb_item _ _ _ _ _ HT a it Ha) as Hat'.
  assert (Hw : wfd it = pfd f) by (destruct (tb_slot _ _ _ _ _ HT _ _ Hat) as (jt & Hjt & <-); congruence).
  unfold inv. apply (tables_put (Some (p, k, n)) _ _ _ _ (interest (kern q)) _ a it); try done.
  - apply (tb_mask _ _ _ _ _ HT a it Ha).
  - intros i. cbn. case_decide as Hi; [|done]. subst i. apply (interest_of _ _ _ _ _ a it HT Ha).
  - intros b jt p' Hb Hjt Hpj Hr. destruct (tb_poll _ _ _ _ _ HT b jt p' Hjt Hpj) as (d & f' & Hd & H0p & _ & Hf' & Hfd & _).
    cbn in Hr |- *. intros ->. specialize (Hr eq_refl). rewrite Hc in Hd. injection Hd as <-. split; [|lia].
    destruct (decide (Z.to_nat (pos jt) = k)) as [E|]; [|lia]. rewrite E, Hf in Hf'. injection Hf' as <-.
    pose proof (tb_item _ _ _ _ _ HT b jt Hjt) as Hbt. congruence.
  - intros p' d i f' Hd Hf' Hr. change (ctxs q !! p' = Some d) in Hd. change (item_at (put_item a ?x q)) with (item_at q). split.
    + intros E. assert (Hr' : in_range (Some (p, k, n)) p' i) by (cbn in Hr |- *; intros Ep; specialize (Hr Ep); lia).
      destruct (tb_ctx _ _ _ _ _ HT p' d i f' Hd Hf' Hr') as (b & jt & Hb & Hjt & Hpj & Hposj & _).
      rewrite E in Hb. injection Hb as <-. rewrite Ha in Hjt. injection Hjt as <-. rewrite Hp in Hpj. injection Hpj as <-.
      cbn in Hr. specialize (Hr eq_refl). lia.
    + intros _. cbn in Hr |- *. intros Ep. specialize (Hr Ep). lia.
Qed.

Lemma inv_mgr X t q : (forall i, at_table t i = item_at q i) -> inv X q -> inv X (set_mgr t q).
Proof. intros Ht HT. unfold inv. eapply tables_ext; [exact Ht|reflexivity|exact HT]. Qed.

Lemma unpoll_ok fuel q p c k n f :
  inv (Some (p, k, n)) q -> ctxs q !! p = Some c -> fds c !! k = Some f -> (k < n)%nat -> fits fuel (pfd f) ->
  exists q', unpoll fuel f q = Done q' /\ inv (Some (p, S k, n)) q' /\ same_rest q q' /\ ctxs q' = ctxs q.
Proof.
  intros HT Hc Hf Hk Hfits. unfold unpoll. destruct (get_wait_item_ok _ _ _ _ HT Hfits) as (a & it & t & m & E & HT2 & _ & _ & Ha & Hw & _ & Hkeep & Hat).
  rewrite E, outcome_bind_ret. unfold the_item. rewrite Ha. cbn [of_option mbind outcome_bind]. eexists. split; [reflexivity|].
  split; [|done]. destruct (tb_ctx _ _ _ _ _ HT2 p c k f Hc Hf) as (b & jt & Hb & Hjt & Hp & Hpos & _); [cbn; lia|].
  rewrite Hat, decide_True in Hb by done. injection Hb as <-. rewrite Ha in Hjt. injection Hjt as <-.
  eapply unlink; try done. rewrite Hat. by rewrite decide_True.
Qed.

Lemma unpoll_all_ok fuel p c : forall l k q,
  inv (Some (p, k, (k + length l)%nat)) q -> ctxs q !! p = Some c -> drop k (fds c) = l -> Forall (fun f => fits fuel (pfd f)) l ->
  exists q', run_all (unpoll fuel) l q = Done q' /\ inv (Some (p, (k + length l)%nat, (k + length l)%nat)) q' /\ same_rest q q' /\ ctxs q' = ctxs q.
Proof.
  induction l as [|f l IH]; intros k q HT Hc Hl Hfits.
  - exists q. by rewrite Nat.add_0_r in *.
  - assert (Hf : fds c !! k = Some f) by (rewrite <-(Nat.add_0_r k), <-lookup_drop, Hl; done).
    apply Forall_cons in Hfits as [Hf1 Hfits]. cbn [length] in *.
    destruct (unpoll_ok fuel q p c k (k + S (length l)) f HT Hc Hf) as (q1 & E1 & HT1 & HR1 & Hc1); [lia|done|].
    destruct (IH (S k) q1) as (q' & E & HT' & HR' & Hc').
    + by rewrite Nat.add_succ_comm.
    + by rewrite Hc1.
    + rewrite (drop_S _ _ _ Hf) in Hl. by injection Hl.
    + done.
    + exists q'. cbn [run_all]. rewrite E1, outcome_bind_ret. rewrite <-Nat.add_succ_comm. split; [exact E|]. split; [exact HT'|].
      split; [by eapply same_rest_trans|]. by rewrite Hc'.
Qed.

Lemma destruct_poll_ctx_ok fuel p c q :
  inv None q -> ctxs q !! p = Some c -> (forall f, f ∈ fds c -> fits fuel (pfd f)) ->
  exists q' n, destruct_poll_ctx fuel p q = Done q' /\ inv (Some (p, n, n)) q' /\ same_rest q q' /\ ctxs q' = ctxs q.
Proof.
  intros HT Hc Hfits. unfold destruct_poll_ctx, the_ctx. rewrite Hc. cbn [of_option mbind outcome_bind].
  assert (HT0 : inv (Some (p, O, length (fds c))) q) by by eapply tables_full.
  assert (Hall : exists q' n, run_all (unpoll fuel) (fds c) q = Done q' /\ inv (Some (p, n, n)) q' /\ same_rest q q' /\ ctxs q' = ctxs q).
  { destruct (unpoll_all_ok fuel p c (fds c) 0 q HT0 Hc (drop_0 _)) as (q' & E & Hrest); [by apply Forall_forall|].
    exists q', (length (fds c)). by split. }
  destruct (fds c) as [|f [|f2 l]] eqn:El; [exact Hall| |exact Hall].
  destruct (tb_ctx _ _ _ _ _ HT p c 0 f Hc) as (a & it & Hat & Ha & Hp & Hpos & Hone); [by rewrite El|done|].
  rewrite El in Hone. rewrite (Hone eq_refl). cbn [of_option mbind outcome_bind]. unfold the_item. rewrite Ha. cbn [of_option mbind outcome_bind].
  eexists _, 1%nat. split; [reflexivity|]. split; [|done]. eapply (unlink q p c 0 1 f a it); try done. by rewrite El.
Qed.

Lemma co_poll_end_ok fuel p c w Ls free :
  net_ok w Ls (p :: free) -> ctxs (nt w) !! p = Some c -> (forall f, f ∈ fds c -> fits fuel (pfd f)) ->
  exists w', co_poll_end fuel p w = Done (poll_result c, fds c, w') /\ net_ok w' Ls free /\ ctxs (nt w') = delete p (ctxs (nt w)) /\
    nwait_num (nt w') = wrap_s 32 (nwait_num (nt w) - 1).
Proof.
  intros (HT & (HR & Hm & Hs) & HI) Hc Hfits. unfold co_poll_end, hoist. fold (nt w).
  assert (Hctx : the_ctx p (nt w) = Done c) by (unfold the_ctx; by rewrite Hc). rewrite Hctx. cbn [mbind outcome_bind].
  set (c1 := set_coroutine None c). set (q1 := set_wait_num _ _).
  destruct (destruct_poll_ctx_ok fuel p c1 q1) as (q2 & n & E & HT2 & (Hn2 & Hw2 & _) & Hc2).
  - unfold inv. by eapply tables_ctx; [exact HT|exact Hc| |left].
  - apply lookup_insert_eq.
  - exact Hfits.
  - rewrite E. cbn [mbind outcome_bind]. fold (nt (put q2 w)). rewrite !nt_put. unfold the_ctx. rewrite Hc2. change (ctxs q1) with (<[p := c1]> (ctxs (nt w))).
    rewrite lookup_insert_eq. cbn [of_option mbind outcome_bind]. eexists. split; [reflexivity|].
    unfold net_ok. rewrite nt_put. cbn [ctxs nwait_num set_ctxs set_ncells].
    rewrite delete_insert_eq. split; [|by rewrite Hw2]. split; [|split; [|by do 2 apply Inv_nt]].
    + pose proof (tables_end _ _ _ _ _ _ HT2) as HTe. rewrite Hc2 in HTe. change (ctxs q1) with (<[p := c1]> (ctxs (nt w))) in HTe.
      rewrite delete_insert_eq in HTe. exact HTe.
    + pose proof (members_nodup _ _ _ HR) as Hnd. split; cbn [ncells set_ctxs set_ncells]; [|split].
      * rewrite Hn2. by apply cells_drop_member.
      * intros p'. cbn. unfold members in *. rewrite <-Permutation_middle in Hnd. apply NoDup_cons in Hnd as [Hnin _].
        specialize (Hm p'). rewrite <-Permutation_middle, elem_of_cons in Hm. destruct (decide (p' = p)) as [->|Hne].
        -- rewrite lookup_delete_eq. split; [done|by intros [? ?]].
        -- rewrite lookup_delete_ne by done. rewrite <-Hm. clear -Hne. naive_solver.
      * intros p' d. cbn. intros [_ Hd]%lookup_delete_Some. by eapply Hs.
Qed.

(** ** A close *)

Lemma at_table_new fd : at_table new_mgr fd = None.
Proof.
  unfold at_table, new_mgr. destruct (fd <? 0); [done|]. destruct (replicate _ None !! _) as [x|] eqn:E; [|done].
  apply lookup_replicate in E as [-> _]. done.
Qed.

Lemma no_item_no_interest X q fd : inv X q -> item_at q fd = None -> interest (kern q) fd = None.
Proof. intros HT E. by rewrite (tb_kern _ _ _ _ _ HT), E. Qed.

(** The interest set without an item that nobody polls. *)
Lemma stop_waiting q a it :
  inv None q -> items q !! a = Some it -> poll_ctx it = None ->
  exists q', (if wait_events it =? 0 then q else do_ctl EPOLL_CTL_DEL (wfd it) 0 a (put_item a (set_events 0 it) q)) = q' /\
    inv None q' /\ same_rest q q' /\ ctxs q' = ctxs q /\ mgr q' = mgr q /\ items q' !! a = Some (set_events 0 it).
Proof.
  intros HT Ha Hp. destruct (Z.eqb_spec (wait_events it) 0) as [E|E]; eexists; (split; [reflexivity|]).
  - split_and!; try done. rewrite Ha. f_equal. destruct it. cbn in *. by subst.
  - split_and!; try done; [|by apply lookup_insert_eq].
    unfold inv. apply (tables_put None None _ _ _ (interest (kern q)) _ a it); try done.
    + intros i. apply (do_del None _ _ _ (kern q) a it 0 HT Ha).
    + intros p. cbn. by rewrite Hp.
    + intros p c i f Hc Hf Hr. split; [|done]. intros Hat. change (item_at q (pfd f) = Some a) in Hat.
      destruct (tb_ctx _ _ _ _ _ HT p c i f Hc Hf Hr) as (b & jt & Hb & Hjt & Hpj & _). congruence.
Qed.

Lemma close_ok fuel fd q :
  inv None q -> fits fuel fd -> free_fd q fd ->
  exists q', close_fd_notify_poll fuel fd q = Done q' /\ inv None q' /\ same_rest q q' /\ ctxs q' = ctxs q /\
    item_at q' fd = None /\ interest (kern q') fd = None.
Proof.
  intros HT Hfits Hfree. unfold close_fd_notify_poll. destruct (mgr q) eqn:Em.
  - destruct (get_wait_item_ok _ _ _ _ HT Hfits) as (a & it & t & m & E & HT2 & Hl & Ht & Ha & Hw & Hor & Hkeep & Hat).
    set (q2 := set_mgr t (set_items m q)) in *. rewrite E, outcome_bind_ret. unfold the_item at 1. rewrite Ha. cbn [of_option mbind outcome_bind].
    assert (Hp : poll_ctx it = None).
    { destruct Hor as [Hit|[_ ->]]; [|done]. apply (Hfree a); [|exact Hit]. rewrite <-Hw. apply (tb_item _ _ _ _ _ HT a it Hit). }
    destruct (stop_waiting q2 a it HT2 Ha Hp) as (q3 & E3 & HT3 & HR3 & Hc3 & Hm3 & Ha3). rewrite Hw in E3. rewrite E3. destruct Hfits as (Hfd & _).
    unfold free_wait_item. rewrite (proj2 (Z.ltb_ge _ _)) by done. unfold TLS_GET. rewrite Hm3. change (mgr q2) with (Some t). cbn iota.
    rewrite Ht. cbn [of_option mbind outcome_bind]. unfold the_item. rewrite Ha3. cbn [of_option mbind outcome_bind]. eexists. split; [reflexivity|].
    assert (Hat3 : forall i, item_at q3 i = at_table t i) by (intros i; unfold item_at, TLS_GET; rewrite Hm3; done).
    set (q' := set_mgr _ _). assert (Hat' : forall i, item_at q' i = if decide (i = wfd (set_events 0 it)) then None else item_at q3 i).
    { intros i. unfold q', item_at at 1. cbn. rewrite at_table_insert by done. by rewrite Hw, <-Hat3. }
    assert (HT' : inv None q').
    { unfold inv. eapply tables_ext; [exact Hat'|reflexivity|]. by apply tables_delete. }
    split; [exact HT'|]. split; [exact HR3|]. split; [exact Hc3|]. assert (Hn : item_at q' fd = None) by (rewrite Hat'; cbn; by rewrite decide_True).
    split; [exact Hn|]. by eapply no_item_no_interest.
  - exists q. split; [done|]. split; [done|]. split; [done|]. split; [done|].
    assert (Hn : item_at q fd = None) by (unfold item_at, TLS_GET; rewrite Em; apply at_table_new). split; [done|]. by eapply no_item_no_interest.
Qed.

(** ** The event loop *)

(** conet::resume; epoll_wait's result, the entries of m_epoll_events it filled
    and the kernel after it; m_epoll_size; the frame slot of the list head. *)
Variables (resume : C -> W -> outcome W) (epoll_wait : Z -> Z -> K -> Z * list (Z * A) * K) (m_epoll_size : Z) (dispatch : nat).

(** poll_ctx_timeout_proc *)
Definition poll_ctx_timeout_proc p w : outcome W :=
  w ← hoist (fun q => c ← the_ctx p q; Done (put_ctx p (set_retcode 1 c) q)) w;
  c ← the_ctx p (nt w);
  match coroutine c with Some co => resume co w | None => Done w end.

(** The body of the second loop of proc_netevent: whether the poll counts. *)
Definition resume_poll p w : outcome (bool * W) :=
  w ← hoist (fun q => h ← list_del_init (Member p) (ncells q); Done (set_ncells h q)) w;
  c ← the_ctx p (nt w);
  match coroutine c with Some co => w ← resume co w; Done (true, w) | None => Done (false, w) end.

Definition dispatch_body (k : cell unit P) (s : W * Z) : outcome (bool * (W * Z)) :=
  match k with
  | Member p => r ← resume_poll p s.1; Done (false, (r.2, if (r.1 : bool) then wrap_s 32 (s.2 + 1) else s.2))
  | _ => Fault
  end.

Definition net_lists (s : W * Z) : heap (cell unit P) := ncells (nt s.1).

(** proc_netevent on an epoll_ctx *)
Definition proc_netevent (fuel : nat) (ms : Z) w : outcome (Z * W) :=
  let '(ret, evs, k) := epoll_wait m_epoll_size ms (kern (nt w)) in
  w ← hoist (fun q => Done (set_kern k q)) w;
  if ret =? 0 then Done (0, w)
  else if ret <? 0 then Done (ret, w)
  else
    let ev_num := Z.to_nat (Z.min ret m_epoll_size) in
    if (length evs <? ev_num)%nat then Fault
    else
      w ← hoist (fun q => h ← LIST_HEAD (Local dispatch) (ncells q); Done (set_ncells h q)) w;
      w ← run_all (fun e => fd_notify_events_to_poll dispatch e.2 e.1) (take ev_num evs) w;
      r ← list_for_each_safe net_lists (Local dispatch) dispatch_body fuel (w, 0);
      w ← hoist (fun q => Done (set_ncells (delete (Local dispatch) (ncells q)) q)) r.1;
      Done (r.2, w).

(** proc_netevent as the task of the epoll_ctx *)
Definition proc_netevent_task (fuel : nat) w : outcome (Z * W) :=
  r ← proc_netevent fuel (if 0 <? last_event_cnt (nt w) then 0 else -1) w;
  let '(cnt, w) := r in
  w ← hoist (fun q => Done (set_last cnt q)) w;
  Done (cnt, w).

(** ** A round of the event loop *)

(** The entry that an event concerns, if a coroutine polls for it. *)
Definition target q (e : Z * A) : option (P * nat * pollfd) :=
  it ← items q !! e.2; p ← poll_ctx it; c ← ctxs q !! p; f ← fds c !! Z.to_nat (pos it);
  if raised f e.1 =? 0 then None else Some (p, Z.to_nat (pos it), clear_revents f).

(** The polls that a list of events ends, in the order of their first event, and
    what the events write to them. *)
Definition first_time p l : list P := if decide (p ∈ l) then l else l ++ [p].
Definition ended q evs l : list P := foldl (fun l e => match target q e with Some (p, _, _) => first_time p l | None => l end) l evs.
Definition written q evs Cs : gmap P (poll_ctx_t A C) :=
  foldl (fun Cs e => match target q e with Some (p, i, f) => alter (raise_fd i f e.1) p Cs | None => Cs end) Cs evs.

(** Events that the kernel may report: their data are items. *)
Definition known q (e : Z * A) : Prop := is_Some (items q !! e.2).

Lemma asked_clear l l' i f f' : asked l' = asked l -> l !! i = Some f -> l' !! i = Some f' -> clear_revents f' = clear_revents f.
Proof.
  intros E Hf Hf'. destruct (asked_lookup _ _ _ _ E Hf) as (f2 & Hf2 & E1 & E2). rewrite Hf' in Hf2. injection Hf2 as <-.
  unfold clear_revents. by rewrite E1, E2.
Qed.

(** What an event concerns does not change while events are dealt with. *)
Lemma target_waiting w e X : inv X (nt w) ->
  match target (nt w) e with
  | Some (p, i, g) => exists c f, waiting_entry w e.2 p c i f /\ g = clear_revents f /\ raised f e.1 <> 0
  | None => forall p c i f, waiting_entry w e.2 p c i f -> raised f e.1 = 0
  end.
Proof.
  intros HT. unfold target. destruct (items (nt w) !! e.2) as [it|] eqn:Ha; cbn [mbind option_bind].
  2: { intros p c i f (it & Hit & _). congruence. }
  destruct (poll_ctx it) as [p|] eqn:Hp; cbn [mbind option_bind]; [|by intros p c i f (jt & Hjt & Hpj & _); congruence].
  destruct (tb_poll _ _ _ _ _ HT e.2 it p Ha Hp) as (c & f & Hc & H0p & _ & Hf & _). rewrite Hc. cbn [mbind option_bind]. rewrite Hf. cbn [mbind option_bind].
  destruct (Z.eqb_spec (raised f e.1) 0) as [E|E].
  - intros p' c' i' f' (jt & Hjt & Hpj & Hpos & Hc' & Hf'). assert (jt = it) as -> by congruence. assert (p' = p) as -> by congruence.
    assert (c' = c) as -> by congruence. rewrite Hpos, Nat2Z.id in Hf. by assert (f' = f) as -> by congruence.
  - exists c, f. split; [|done]. exists it. by rewrite Z2Nat.id.
Qed.

Lemma target_same q q' X e : inv X q -> same_polls q q' -> known q e -> target q' e = target q e.
Proof.
  intros HT [Hi Hc] [it Ha]. unfold target. destruct (Hi _ _ Ha) as (it' & Ha' & Ep & Epos). rewrite Ha, Ha'. cbn [mbind option_bind].
  rewrite Ep. destruct (poll_ctx it) as [p|] eqn:Hp; [|done]. cbn [mbind option_bind].
  destruct (tb_poll _ _ _ _ _ HT e.2 it p Ha Hp) as (c & f & Hcp & H0p & _ & Hf & _). destruct (Hc _ _ Hcp) as (c' & Hcp' & Eask).
  rewrite Hcp, Hcp'. cbn [mbind option_bind]. rewrite Epos, Hf. destruct (asked_lookup _ _ _ _ Eask Hf) as (f' & Hf' & E1 & E2).
  rewrite Hf'. cbn [mbind option_bind]. rewrite (asked_clear _ _ _ _ _ Eask Hf Hf'). unfold raised. by rewrite E2.
Qed.

Lemma alter_present (g : poll_ctx_t A C -> poll_ctx_t A C) p Cs c : Cs !! p = Some c -> alter g p Cs = <[p := g c]> Cs.
Proof.
  intros Hc. apply map_eq. intros i. destruct (decide (i = p)) as [->|Hne].
  - by rewrite lookup_alter_eq, Hc, lookup_insert_eq.
  - by rewrite lookup_alter_ne, lookup_insert_ne.
Qed.

Lemma notify_one_ok e w l free :
  net_ok w [(Local dispatch, l)] free -> known (nt w) e ->
  exists w' free', fd_notify_events_to_poll dispatch e.2 e.1 w = Done w' /\ same_polls (nt w) (nt w') /\
    net_ok w' [(Local dispatch, ended (nt w) [e] l)] free' /\ ctxs (nt w') = written (nt w) [e] (ctxs (nt w)).
Proof.
  intros HN [it Ha]. pose proof (target_waiting w e None (proj1 HN)) as Ht. cbn [ended written foldl].
  destruct (target (nt w) e) as [[[p i] g]|].
  - destruct Ht as (c & f & Hwait & -> & Hr). destruct (notify_raise_ok dispatch e.2 e.1 w l free p c i f HN Hwait Hr) as (w' & E & Hc & HS & Hor).
    assert (Hcs : ctxs (nt w') = alter (raise_fd i (clear_revents f) e.1) p (ctxs (nt w))).
    { destruct Hwait as (_ & _ & _ & _ & Hcp & _). by rewrite (alter_present _ _ _ _ Hcp). }
    unfold first_time. destruct Hor as [[Hin HN']|(free' & Hnin & _ & HN')].
    + exists w', free. by rewrite decide_True.
    + exists w', free'. by rewrite decide_False.
  - destruct (notify_clear_ok dispatch e.2 e.1 w _ free it HN Ha Ht) as (w' & E & HN' & Hc & HS). by exists w', free.
Qed.

Lemma notify_all_ok w0 : forall evs w l free,
  net_ok w [(Local dispatch, l)] free -> inv None (nt w0) -> same_polls (nt w0) (nt w) -> Forall (known (nt w0)) evs ->
  exists w' free', run_all (fun e => fd_notify_events_to_poll dispatch e.2 e.1) evs w = Done w' /\ same_polls (nt w0) (nt w') /\
    net_ok w' [(Local dispatch, ended (nt w0) evs l)] free' /\ ctxs (nt w') = written (nt w0) evs (ctxs (nt w)).
Proof.
  induction evs as [|e evs IH]; intros w l free HN HT0 HS Hk; [by exists w, free|]. apply Forall_cons in Hk as [Hke Hk].
  assert (Hkw : known (nt w) e).
  { destruct Hke as [it Ha]. destruct HS as [Hi _]. destruct (Hi _ _ Ha) as (it' & Ha' & _). by exists it'. }
  destruct (notify_one_ok e w l free HN Hkw) as (w1 & free1 & E1 & HS1 & HN1 & Hc1).
  pose proof (target_same _ _ _ e HT0 HS Hke) as Ht. unfold ended, written in HN1, Hc1. cbn [foldl] in HN1, Hc1. rewrite Ht in HN1, Hc1.
  destruct (IH w1 _ free1 HN1 HT0 (same_polls_trans _ _ _ HS HS1) Hk) as (w' & free' & E & HS' & HN' & Hc').
  exists w', free'. cbn [run_all]. rewrite E1, outcome_bind_ret. split; [exact E|]. split; [exact HS'|]. split; [exact HN'|]. by rewrite Hc', Hc1.
Qed.

(** ** The polls that a round resumes *)

(** What a resumed coroutine may do: return from co_poll, poll again and anything
    else but touch the polls that are to be resumed after it. *)
Hypothesis resume_ok : forall w l free co p,
  net_ok w [(Local dispatch, l)] free -> p ∈ free -> coroutine <$> (ctxs (nt w) !! p) = Some (Some co) ->
  exists w' free', resume co w = Done w' /\ net_ok w' [(Local dispatch, l)] free' /\ forall p', p' ∈ l -> ctxs (nt w') !! p' = ctxs (nt w) !! p'.

Definition resume_one p w : outcome W := r ← resume_poll p w; Done r.2.
Definition all_wait w (l : list P) : Prop := forall p, p ∈ l -> exists c co, ctxs (nt w) !! p = Some c /\ coroutine c = Some co.

Lemma resume_poll_ok p w l free :
  net_ok w [(Local dispatch, p :: l)] free -> all_wait w (p :: l) ->
  exists w' free', resume_poll p w = Done (true, w') /\ net_ok w' [(Local dispatch, l)] free' /\ all_wait w' l.
Proof.
  intros (HT & (HR & Hm & Hs) & HI) Hall. unfold resume_poll, hoist. fold (nt w).
  destruct (cells_del_init _ _ [] _ _ _ _ HR) as (h & -> & HR' & _). cbn [mbind outcome_bind app] in *. rewrite nt_put.
  destruct (Hall p) as (c & co & Hc & Hco); [left|]. unfold the_ctx. change (ctxs (set_ncells h (nt w))) with (ctxs (nt w)). rewrite Hc.
  cbn [of_option mbind outcome_bind]. rewrite Hco.
  destruct (resume_ok (put (set_ncells h (nt w)) w) l (p :: free) co p) as (w' & free' & -> & HN' & Hkeep).
  - unfold net_ok. rewrite nt_put. split; [exact HT|]. split; [|by apply Inv_nt]. split; [exact HR'|]. split; [|exact Hs].
    intros p'. specialize (Hm p'). cbn. rewrite <-Hm. unfold members. cbn. rewrite !app_nil_r. clear. set_solver.
  - left.
  - rewrite nt_put. cbn. rewrite Hc. cbn. by rewrite Hco.
  - rewrite outcome_bind_ret. exists w', free'. split; [done|]. split; [exact HN'|]. intros p' Hp'. rewrite nt_put in Hkeep.
    rewrite (Hkeep p' Hp'). apply Hall. by right.
Qed.

Lemma resume_all_ok l w free fuel :
  net_ok w [(Local dispatch, l)] free -> all_wait w l -> (length l <= fuel)%nat -> Z.of_nat (length l) < 2 ^ 31 ->
  exists w' free', list_for_each_safe net_lists (Local dispatch) dispatch_body fuel (w, 0) = Done (w', Z.of_nat (length l)) /\
    run_all resume_one l w = Done w' /\ net_ok w' [(Local dispatch, [])] free'.
Proof.
  intros HN Hall Hf Hlen. pose (Loop := fun (rem : list (cell unit P)) (s : W * Z) => exists done rem', l = done ++ rem' /\ rem = Member <$> rem' /\
    s.2 = Z.of_nat (length done) /\ run_all resume_one done w = Done s.1 /\ all_wait s.1 rem' /\ exists free', net_ok s.1 [(Local dispatch, rem')] free').
  assert (Hring : forall s rem' free', net_ok s [(Local dispatch, rem')] free' -> rings (ncells (nt s)) ((Local dispatch, Member <$> rem') :: lists_of [] free')).
  { intros s rem' free' (_ & (HR & _) & _). exact HR. }
  destruct (list_for_each_safe_rule net_lists (Local dispatch) (Member <$> l) (lists_of [] free) dispatch_body Loop
    (fun s => Loop [] s) (w, 0) fuel) as ([w' n] & E & d & rem' & El & Erem & Hn & Hrun & _ & free' & HN').
  - by apply Hring.
  - intros rem s (d & rem' & _ & -> & _ & _ & _ & free' & HN'). by eapply (rings_follows_next _ _ []), Hring.
  - done.
  - intros x rem [w1 n] (d & rem' & El & Erem & Hn & Hrun & Haw & free' & HN'). destruct rem' as [|p rem']; [done|].
    rewrite fmap_cons in Erem. injection Erem as -> ->. cbn [fst snd] in *.
    destruct (resume_poll_ok p w1 rem' free' HN' Haw) as (w2 & free2 & Er & HN2 & Haw2).
    unfold dispatch_body. cbn [fst snd]. rewrite Er, outcome_bind_ret. cbn [fst snd]. eexists _, _. split; [reflexivity|]. cbn iota.
    exists (d ++ [p]), rem'. rewrite <-app_assoc. split; [done|]. split; [done|]. cbn [fst snd]. split; [|split; [|split; [done|by exists free2]]].
    + rewrite Hn, wrap_small; rewrite ?length_app; cbn; rewrite ?El, ?length_app in Hlen; cbn in Hlen; lia.
    + rewrite run_all_app, Hrun, outcome_bind_ret. cbn [run_all]. unfold resume_one. by rewrite Er.
  - exists [], l. split_and!; try done. by exists free.
  - by rewrite length_fmap.
  - symmetry in Erem. apply fmap_nil_inv in Erem as ->. rewrite app_nil_r in El. subst d. cbn [fst snd] in *. subst n. by exists w', free'.
Qed.

Lemma written_coroutine q evs : forall Cs p c, written q evs Cs !! p = Some c -> exists c0, Cs !! p = Some c0 /\ coroutine c = coroutine c0.
Proof.
  induction evs as [|e evs IH]; intros Cs p c Hc; [by exists c|]. unfold written in Hc. cbn [foldl] in Hc. apply IH in Hc as (c1 & Hc1 & E).
  destruct (target q e) as [[[p' i] f]|]; [|by exists c1]. apply lookup_alter_Some in Hc1 as [(<- & c2 & Hc2 & ->)|[_ Hc1]]; [by exists c2|by exists c1].
Qed.

Lemma ended_length q evs : forall l, (length (ended q evs l) <= length l + length evs)%nat.
Proof.
  induction evs as [|e evs IH]; intros l; [cbn; lia|]. unfold ended. cbn [foldl length]. pose proof (IH (match target q e with Some (p, _, _) => first_time p l | None => l end)) as Hl.
  unfold ended in Hl. destruct (target q e) as [[[p i] f]|]; [|lia]. unfold first_time in *. case_decide; [lia|]. rewrite length_app in Hl. cbn in Hl. lia.
Qed.

Lemma linked_local q q' Ls free :
  linked q Ls free -> LIST_HEAD (Local dispatch) (ncells q) = Done (ncells q') -> ctxs q' = ctxs q -> ncells q !! Local dispatch = None ->
  linked q' ((Local dispatch, []) :: Ls) free.
Proof.
  intros (HR & Hm & Hs) E Hc Hn. destruct (cells_LIST_HEAD _ dispatch _ _ HR Hn) as (h & E' & HR'). rewrite E' in E. injection E as E.
  split; [by rewrite <-E|]. rewrite Hc. by split.
Qed.


Lemma net_ok_perm w Ls free free' : free ≡ₚ free' -> net_ok w Ls free -> net_ok w Ls free'.
Proof.
  intros Hp (HT & (HR & Hm & Hs) & HI). split; [done|]. split; [|done]. split; [by rewrite <-(lists_of_perm _ _ _ _ (reflexivity _) Hp)|].
  split; [|done]. intros p. rewrite <-Hm. unfold members. by rewrite Hp.
Qed.

(** While a poll lasts, the kernel waits for what it asks for. *)
Lemma polled_interest q p c f :
  inv None q -> ctxs q !! p = Some c -> f ∈ fds c -> poll_event2epoll (pevents f) <> 0 ->
  exists ev a, interest (kern q) (pfd f) = Some (ev, a) /\ item_at q (pfd f) = Some a /\ subset (poll_event2epoll (pevents f)) ev.
Proof.
  intros HT Hc [i Hf]%list_elem_of_lookup_1 He. destruct (tb_ctx _ _ _ _ _ HT p c i f Hc Hf I) as (a & it & Hat & Ha & Hp & Hpos & _).
  destruct (tb_poll _ _ _ _ _ HT a it p Ha Hp) as (c' & f' & Hc' & _ & _ & Hf' & Hw & Hsub). assert (c' = c) as -> by congruence.
  rewrite Hpos, Nat2Z.id in Hf'. assert (f' = f) as -> by congruence. exists (Z.lor (wait_events it) EPOLLET), a.
  rewrite Hw, (interest_of _ _ _ _ _ a it HT Ha), (proj2 (Z.eqb_neq _ _)) by by eapply subset_not0.
  split; [done|]. split; [by rewrite <-Hw|]. eapply subset_trans; [exact Hsub|apply subset_lor_l].
Qed.


(** What the events of a round write to an entry, and the number of entries with
    events. *)
Definition events_of q evs (f : pollfd) : Z :=
  foldl (fun r e => if decide (item_at q (pfd f) = Some e.2) then epoll_event2poll (raised f e.1) else r) 0 evs.
Definition answered q evs (f : pollfd) : pollfd := Pollfd (pfd f) (pevents f) (events_of q evs f).
Definition count_ready (l : list pollfd) : Z := Z.of_nat (length (filter (fun f => prevents f <> 0) l)).

Lemma events_of_snoc q evs e f :
  events_of q (evs ++ [e]) f = if decide (item_at q (pfd f) = Some e.2) then epoll_event2poll (raised f e.1) else events_of q evs f.
Proof. unfold events_of. by rewrite foldl_snoc. Qed.

Lemma events_of_none q evs f : (forall e, e ∈ evs -> item_at q (pfd f) <> Some e.2) -> events_of q evs f = 0.
Proof.
  induction evs as [|e evs IH] using rev_ind; intros Hn; [done|]. rewrite events_of_snoc, decide_False.
  - apply IH. intros e' He'. apply Hn, elem_of_app. by left.
  - apply Hn, elem_of_app. right. left.
Qed.

Lemma raised_mask f ev : epoll_event2poll (raised f ev) = raised f ev.
Proof.
  unfold epoll_event2poll, raised, poll_event2epoll. rewrite <-!Z.land_assoc. f_equal.
  rewrite (Z.land_comm ev), Z.land_assoc, Z.land_diag. done.
Qed.

Lemma count_ready_bound l : count_ready l <= Z.of_nat (length l).
Proof. clear epoll_wait m_epoll_size resume_ok. unfold count_ready. pose proof (length_filter (fun f => prevents f <> 0) l). lia. Qed.

Lemma count_ready_0 l : count_ready l = 0 -> Forall (fun f => prevents f = 0) l.
Proof.
  unfold count_ready. induction l as [|f l IH]; [done|]. rewrite filter_cons. case_decide as Hf; cbn [length]; [lia|].
  intros Hl. constructor; [lia|by apply IH].
Qed.

Lemma count_ready_insert l i f x :
  l !! i = Some f -> prevents f = 0 -> prevents x <> 0 -> count_ready (<[i := x]> l) = count_ready l + 1.
Proof.
  clear epoll_wait m_epoll_size resume_ok. intros Hf Hp0 Hx. unfold count_ready. rewrite <-(take_drop_middle l i f Hf) at 2.
  rewrite insert_take_drop by by eapply lookup_lt_Some.
  rewrite !filter_app, !filter_cons, decide_True, decide_False by (done || tauto). rewrite !length_app. cbn [length]. lia.
Qed.

(** The events of a round write to every entry of a poll what was reported for its
    descriptor, and count the entries. *)
Lemma written_poll q p c evs :
  inv None q -> ctxs q !! p = Some c -> Z.of_nat (length (fds c)) < 2 ^ 31 -> num_raise c = 0 -> NoDup evs.*2 ->
  Forall (fun f => prevents f = 0) (fds c) ->
  written q evs (ctxs q) !! p = Some (set_num (count_ready (answered q evs <$> fds c)) (set_fds (answered q evs <$> fds c) c)) /\
  (p ∈ ended q evs [] <-> count_ready (answered q evs <$> fds c) <> 0).
Proof.
  clear epoll_wait m_epoll_size resume_ok. intros HT Hc Hlen Hn Hnd H0'. induction evs as [|e evs IH] using rev_ind.
  - cbn [written ended foldl]. rewrite Hc. assert (E : answered q [] <$> fds c = fds c).
    { rewrite <-(list_fmap_id (fds c)) at 2. apply list_fmap_ext. intros i f Hf.
      pose proof (proj1 (Forall_lookup _ _) H0' _ _ Hf) as E. destruct f as [? ? r]. cbn in E. by subst r. }
    assert (E0 : count_ready (fds c) = 0).
    { unfold count_ready. clear -H0'. induction (fds c) as [|f l IHl]; [done|]. apply Forall_cons in H0' as [Hf Hl].
      rewrite filter_cons, decide_False by tauto. by apply IHl. }
    rewrite E, E0, <-Hn. split; [by destruct c|]. split; [by intros ?%elem_of_nil|done].
  - rewrite fmap_app in Hnd. apply NoDup_app in Hnd as (Hnd & Hdis & _). destruct (IH Hnd) as [IHw IHe]. clear IH.
    assert (Hnew : forall f, item_at q (pfd f) = Some e.2 -> events_of q evs f = 0).
    { intros f Hf. apply events_of_none. intros e' He' Hf'. rewrite Hf in Hf'. injection Hf' as Hf'.
      apply (Hdis e'.2); [by apply list_elem_of_fmap_2|]. rewrite <-Hf'. left. }
    unfold written, ended in *. rewrite !foldl_snoc.
    pose proof (fun i f Hf => tb_ctx _ _ _ _ _ HT p c i f Hc Hf I) as Hent.
    (* an entry whose item the event is for is the target of the event *)
    assert (Htarget : forall i f, fds c !! i = Some f -> item_at q (pfd f) = Some e.2 ->
      target q e = if raised f e.1 =? 0 then None else Some (p, i, clear_revents f)).
    { intros i f Hf Hat. destruct (Hent i f Hf) as (a & it & Hat' & Ha & Hp & Hpos & _). rewrite Hat in Hat'. injection Hat' as <-.
      unfold target. rewrite Ha. cbn [mbind option_bind]. rewrite Hp. cbn [mbind option_bind]. rewrite Hc. cbn [mbind option_bind].
      by rewrite Hpos, Nat2Z.id, Hf. }
    assert (Hback : forall i g, target q e = Some (p, i, g) ->
      exists f, fds c !! i = Some f /\ item_at q (pfd f) = Some e.2 /\ raised f e.1 <> 0 /\ g = clear_revents f).
    { intros i g Et'. unfold target in Et'.
      destruct (items q !! e.2) as [it|] eqn:Ha; [|done]. cbn [mbind option_bind] in Et'. destruct (poll_ctx it) as [p'|] eqn:Hp; [|done].
      cbn [mbind option_bind] in Et'. destruct (ctxs q !! p') as [c'|] eqn:Hc'; [|done]. cbn [mbind option_bind] in Et'.
      destruct (tb_poll _ _ _ _ _ HT e.2 it p' Ha Hp) as (c2 & f & Hc2 & _ & _ & Hf & Hw & _). assert (c2 = c') as -> by congruence.
      rewrite Hf in Et'. cbn [mbind option_bind] in Et'. destruct (Z.eqb_spec (raised f e.1) 0) as [|Hr]; [done|]. injection Et' as -> <- <-.
      assert (c' = c) as -> by congruence. exists f. split; [done|]. split; [|done]. rewrite Hw. by apply (tb_item _ _ _ _ _ HT). }
    assert (Hother : (forall i g, target q e <> Some (p, i, g)) -> answered q (evs ++ [e]) <$> fds c = answered q evs <$> fds c).
    { intros Hno. apply list_fmap_ext. intros i f Hf. unfold answered. rewrite events_of_snoc. case_decide as Hat; [|done].
      rewrite raised_mask. destruct (Z.eqb_spec (raised f e.1) 0) as [->|Hr]; [by rewrite Hnew|].
      destruct (Hno i (clear_revents f)). by rewrite (Htarget i f Hf Hat), (proj2 (Z.eqb_neq _ _) Hr). }
    destruct (target q e) as [[[p' i] g]|] eqn:Et; [|by rewrite Hother].
    assert (Hfirst : forall l', p ∈ first_time p' l' <-> p ∈ l' \/ p = p').
    { intros l'. unfold first_time. case_decide; [|by rewrite elem_of_app, list_elem_of_singleton]. split; [by left|by intros [?| ->]]. }
    rewrite Hfirst, IHe. destruct (decide (p' = p)) as [->|Hne]; [|rewrite lookup_alter_ne, Hother by congruence; split; [done|]; split; [by intros [?| ->]|by left]].
    destruct (Hback i g eq_refl) as (f & Hf & Hat & Hr & ->).
    rewrite lookup_alter_eq, IHw. cbn [fmap option_fmap option_map].
    assert (E : answered q (evs ++ [e]) <$> fds c =
      <[i := Pollfd (pfd f) (pevents f) (epoll_event2poll (raised f e.1))]> (answered q evs <$> fds c)).
    { apply list_eq. intros j. destruct (decide (j = i)) as [->|Hne].
      - rewrite list_lookup_insert_eq by (rewrite length_fmap; by eapply lookup_lt_Some). rewrite list_lookup_fmap, Hf. cbn.
        unfold answered. by rewrite events_of_snoc, decide_True.
      - rewrite list_lookup_insert_ne by done. rewrite !list_lookup_fmap. destruct (fds c !! j) as [g|] eqn:Eg; [|done]. cbn. f_equal.
        unfold answered. rewrite events_of_snoc, decide_False; [done|]. intros Hat'.
        destruct (Hent i f Hf) as (a1 & it1 & A1 & B1 & _ & P1 & _). destruct (Hent j g Eg) as (a2 & it2 & A2 & B2 & _ & P2 & _).
        apply Hne. apply Nat2Z.inj. congruence. }
    unfold raise_fd. cbn [clear_revents pfd pevents fds num_raise set_num set_fds]. rewrite E.
    assert (Ecount : count_ready (<[i := Pollfd (pfd f) (pevents f) (epoll_event2poll (raised f e.1))]> (answered q evs <$> fds c)) =
      count_ready (answered q evs <$> fds c) + 1).
    { eapply count_ready_insert; [by rewrite list_lookup_fmap, Hf|cbn; by apply Hnew|cbn; by rewrite raised_mask]. }
    rewrite Ecount. assert (0 <= count_ready (answered q evs <$> fds c)) by (unfold count_ready; lia).
    split; [|split; [lia|by right]]. f_equal. unfold set_num, set_fds. cbn. f_equal.
    apply wrap_small. pose proof (count_ready_bound (answered q (evs ++ [e]) <$> fds c)) as Hb. rewrite length_fmap, E, Ecount in Hb.
    unfold count_ready in *. lia.
Qed.

(** resume_poll up to its resume, for a poll that is anywhere in the dispatch list. *)
Lemma resume_poll_unlinks p c co w la lb free :
  net_ok w [(Local dispatch, la ++ p :: lb)] free -> ctxs (nt w) !! p = Some c -> coroutine c = Some co ->
  exists w', resume_poll p w = (w'' ← resume co w'; Done (true, w'')) /\ net_ok w' [(Local dispatch, la ++ lb)] (p :: free) /\
    ctxs (nt w') = ctxs (nt w) /\ nwait_num (nt w') = nwait_num (nt w).
Proof.
  intros (HT & (HR & Hm & Hs) & HI) Hc Hco. unfold resume_poll, hoist. fold (nt w).
  destruct (cells_del_init _ _ _ _ _ _ _ HR) as (h & -> & HR' & _). cbn [mbind outcome_bind]. rewrite nt_put.
  unfold the_ctx. change (ctxs (set_ncells h (nt w))) with (ctxs (nt w)). rewrite Hc. cbn [of_option mbind outcome_bind]. rewrite Hco.
  eexists. split; [reflexivity|]. unfold net_ok. rewrite nt_put. split; [|done]. split; [exact HT|]. split; [|by apply Inv_nt].
  split; [exact HR'|]. split; [|exact Hs]. intros p'. cbn. rewrite <-Hm. unfold members. cbn. rewrite !app_nil_r.
  by rewrite <-!app_assoc, <-(Permutation_middle lb free p).
Qed.

(** C36: the outcome of co_poll.  Of a poll that co_poll_begin has started, a round of
    the event loop with one event per descriptor writes to the revents of every entry
    the events it asks for that were reported for its descriptor.  When there is none the
    poll goes on as it was; when there are some it is on the round's list, the loop
    resumes its coroutine, and co_poll returns the number of the entries whose revents
    is not zero, and these entries.  The timer resumes the coroutine as well, and then
    co_poll returns 0 and entries without events. *)
Theorem co_poll_outcome fuel w p l ms o co free :
  ctxs (nt w) !! p = Some (PollCtx (clear_revents <$> l) 0 0 (Some co) o ms) -> (forall f, f ∈ l -> fits fuel (pfd f)) ->
  (forall evs, net_ok w [(Local dispatch, [])] (p :: free) -> NoDup evs.*2 -> Forall (known (nt w)) evs ->
     let l' := answered (nt w) evs <$> l in
     exists w1 free1, run_all (fun e => fd_notify_events_to_poll dispatch e.2 e.1) evs w = Done w1 /\
       net_ok w1 [(Local dispatch, ended (nt w) evs [])] free1 /\
       if count_ready l' =? 0
       then (p ∉ ended (nt w) evs []) /\ ctxs (nt w1) !! p = ctxs (nt w) !! p
       else p ∈ ended (nt w) evs [] /\
         forall w2 la lb free2, net_ok w2 [(Local dispatch, la ++ p :: lb)] free2 -> ctxs (nt w2) !! p = ctxs (nt w1) !! p ->
         exists w3 w4, resume_poll p w2 = (w' ← resume co w3; Done (true, w')) /\
           co_poll_end fuel p w3 = Done (count_ready l', l', w4) /\
           net_ok w4 [(Local dispatch, la ++ lb)] free2 /\ ctxs (nt w4) = delete p (ctxs (nt w2)) /\
           nwait_num (nt w4) = wrap_s 32 (nwait_num (nt w2) - 1)) /\
  (net_ok w [] (p :: free) ->
     exists w1 w2, poll_ctx_timeout_proc p w = resume co w1 /\ net_ok w1 [] (p :: free) /\
       co_poll_end fuel p w1 = Done (0, clear_revents <$> l, w2) /\ net_ok w2 [] free).
Proof.
  intros Hc Hfits. set (c := PollCtx _ _ _ _ _ _) in Hc.
  assert (Hfits' : forall g, pfd <$> g = pfd <$> l -> forall f, f ∈ g -> fits fuel (pfd f)).
  { intros g Hg f Hf. assert (Hin : pfd f ∈ pfd <$> l) by (rewrite <-Hg; by apply list_elem_of_fmap_2).
    apply list_elem_of_fmap_1 in Hin as (f' & -> & Hf'). by apply Hfits. }
  split.
  - intros evs HN Hnd Hk l'. pose proof (proj1 HN) as HT. pose proof HN as (_ & (_ & _ & Hs) & _).
    destruct (notify_all_ok w evs w [] (p :: free) HN HT) as (w1 & free1 & E1 & HS1 & HN1 & Hc1); [|done|].
    { split; [intros a it Ha; by exists it|intros p' c' Hc'; by exists c']. }
    pose proof (written_poll (nt w) p c evs HT Hc (Hs _ _ Hc) eq_refl Hnd) as Hw. cbn [c fds] in Hw.
    assert (El' : answered (nt w) evs <$> (clear_revents <$> l) = l') by (unfold l'; rewrite <-list_fmap_compose; done).
    rewrite El' in Hw. destruct (Hw ltac:(apply Forall_fmap, Forall_true; done)) as [Hw' He]. clear Hw. rename Hw' into Hw.
    rewrite <-Hc1 in Hw.
    exists w1, free1. split; [exact E1|]. split; [exact HN1|].
    destruct (Z.eqb_spec (count_ready l') 0) as [E0|E0].
    + split; [intros Hin; by apply He in Hin|]. rewrite Hw, Hc. f_equal. unfold set_num, set_fds, c. cbn. rewrite E0. f_equal.
      pose proof (count_ready_0 l' E0) as H0'. unfold l' in *. apply list_fmap_ext. intros i f Hf.
      assert (Ef : prevents (answered (nt w) evs f) = 0).
      { apply (proj1 (Forall_lookup _ _) H0' i). by rewrite list_lookup_fmap, Hf. }
      unfold answered, clear_revents in *. cbn in Ef. by rewrite Ef.
    + split; [by apply He|]. intros w2 la lb free2 HN2 Hc2. rewrite Hw in Hc2.
      destruct (resume_poll_unlinks p _ co w2 la lb free2 HN2 Hc2 eq_refl) as (w3 & E3 & HN3 & Hcs3 & Hn3).
      rewrite <-Hcs3 in Hc2. destruct (co_poll_end_ok fuel p _ w3 _ _ HN3 Hc2) as (w4 & E4 & HN4 & Hc4 & Hn4).
      { cbn. apply Hfits'. unfold l'. by rewrite <-list_fmap_compose. }
      exists w3, w4. split; [exact E3|]. split; [exact E4|]. split; [exact HN4|]. by rewrite Hc4, Hcs3, Hn4, Hn3.
  - intros (HT & HL & HI). unfold poll_ctx_timeout_proc, hoist, the_ctx. fold (nt w). rewrite Hc. cbn [of_option mbind outcome_bind].
    set (q1 := put_ctx p (set_retcode 1 c) (nt w)). rewrite nt_put. assert (Hc1 : ctxs q1 !! p = Some (set_retcode 1 c)) by apply lookup_insert_eq.
    rewrite Hc1. cbn [of_option mbind outcome_bind coroutine set_retcode c].
    assert (HN1 : net_ok (put q1 w) [] (p :: free)).
    { unfold net_ok. rewrite nt_put. split; [unfold inv; by eapply tables_ctx; [exact HT|exact Hc| |left]|]. split; [|by apply Inv_nt].
      by eapply linked_ctx; [exact HL|exact Hc| | |reflexivity]. }
    destruct (co_poll_end_ok fuel p (set_retcode 1 c) (put q1 w) [] free HN1) as (w2 & E & HN2 & _); [by rewrite nt_put| |].
    { cbn. apply Hfits'. by rewrite <-list_fmap_compose. }
    exists (put q1 w), w2. by split_and!.
Qed.
End network.

(** ** A kernel, and runs *)
Section example.

(** epoll as a finite map. *)
Definition map_ctl (op : ctl) (fd ev : Z) (a : nat) (k : gmap Z (Z * nat)) : Z * gmap Z (Z * nat) :=
  match op, k !! fd with
  | EPOLL_CTL_ADD, None | EPOLL_CTL_MOD, Some _ => (0, <[fd := (ev, a)]> k)
  | EPOLL_CTL_DEL, Some _ => (0, delete fd k)
  | _, _ => (-1, k)
  end.

#[local] Instance map_epoll : Epoll nat (gmap Z (Z * nat)).
Proof.
  refine {| epoll_ctl := map_ctl; interest k fd := k !! fd |}; unfold map_ctl; intros k fd ev a.
  - intros ->. eexists. split; [done|]. intros i. case_decide as Hi; [subst; apply lookup_insert_eq|by apply lookup_insert_ne].
  - intros [x ->]. eexists. split; [done|]. intros i. case_decide as Hi; [subst; apply lookup_insert_eq|by apply lookup_insert_ne].
  - intros [x ->]. eexists. split; [done|]. intros i. case_decide as Hi; [subst; apply lookup_delete_eq|by apply lookup_delete_ne].
  - by intros [x ->].
  - by intros ->.
  - by intros ->.
Defined.

Abbreviation world := (net nat nat nat (gmap Z (Z * nat))).
Definition new_item (m : gmap nat (poll_wait_item nat)) : nat := fresh (dom m : gset nat).
Definition no_set (p : nat) (ms : Z) (w : world) : outcome world := Done w.
Definition no_cancel (p : nat) (w : world) : outcome world := Done w.
Definition away (co : nat) (w : world) : outcome world := Done w.
Definition quiet_net : world := Net None ∅ ∅ ∅ ∅ 0 0.
Definition begin_ (p : nat) (l : list pollfd) : world -> outcome world := co_poll_begin 8 new_item no_set 3 p p l 100.

Lemma new_item_fresh m : m !! new_item m = None.
Proof. apply (not_elem_of_dom (D:=gset nat)). unfold new_item. apply is_fresh. Qed.

Lemma put_anything : forall (q w : world), True -> True.
Proof. done. Qed.
Lemma set_nothing_ok : forall p ms (w : world), True -> exists w', no_set p ms w = Done w' /\ nt w' = nt w /\ True.
Proof. intros p ms w _. by exists w. Qed.
Lemma cancel_nothing_ok : forall p (w : world), True -> exists w', no_cancel p w = Done w' /\ nt w' = nt w /\ True.
Proof. intros p w _. by exists w. Qed.

Lemma quiet_ok : net_ok 8 (fun _ => True) quiet_net [] [].
Proof.
  assert (Hno : forall fd, at_table (new_mgr (A:=nat) 8) fd = None) by apply at_table_new.
  split; [|split; [split; [|split]|done]].
  - split; try done; [by intros fd a; unfold item_at; cbn; rewrite Hno|]. intros fd. unfold item_at. cbn. by rewrite Hno.
  - split; [by apply NoDup_nil|]. by intros k l ?%not_elem_of_nil.
  - intros p. cbn. split; [by intros ?%not_elem_of_nil|by intros [? ?]].
  - done.
Qed.

Definition in_3 : list pollfd := [Pollfd 3 EPOLLIN 0].

Lemma in_3_pollable : pollable 8 3 quiet_net in_3.
Proof.
  split; [done|]. split; [apply NoDup_singleton|]. intros f ->%list_elem_of_singleton. split; [split; [cbn; lia|]; split; [cbn; lia|apply leb_complete; reflexivity]|].
  split; [|done]. intros a it. unfold item_at. change (TLS_GET 8 (nt quiet_net)) with (new_mgr (A:=nat) 8). by rewrite at_table_new.
Qed.

Lemma polling_3 : exists w o, begin_ 0 in_3 quiet_net = Done w /\ net_ok 8 (fun _ => True) w [] [0%nat] /\
  ctxs w = {[0%nat := PollCtx [Pollfd 3 EPOLLIN 0] 0 0 (Some 0%nat) o 100]} /\ interest (kern w) 3 = Some (Z.lor EPOLLIN EPOLLET, 0%nat) /\
  ended w [(EPOLLIN, 0%nat)] [] = [0%nat] /\ ncells w !! Local 7%nat = None.
Proof.
  destruct (co_poll_begin_ok 8 new_item no_set new_item_fresh (fun _ => True) put_anything set_nothing_ok 3 0%nat 0%nat in_3 100 quiet_net [] [] quiet_ok)
    as (w & o & E & HN & Hc & _); [done|done|exact in_3_pollable|].
  exists w, o. split; [exact E|]. split; [exact HN|]. split; [exact Hc|].
  assert (P : begin_ 0 in_3 quiet_net = Done w) by exact E. split_and!.
  - assert (R : (w ← begin_ 0 in_3 quiet_net; Done (kern w !! 3)) = Done (Some (Z.lor EPOLLIN EPOLLET, 0%nat))) by (vm_compute; reflexivity).
    rewrite P, outcome_bind_ret in R. by injection R.
  - assert (R : (w ← begin_ 0 in_3 quiet_net; Done (ended w [(EPOLLIN, 0%nat)] [])) = Done [0%nat]) by (vm_compute; reflexivity).
    rewrite P, outcome_bind_ret in R. by injection R.
  - assert (R : (w ← begin_ 0 in_3 quiet_net; Done (ncells w !! Local 7%nat)) = Done None) by (vm_compute; reflexivity).
    rewrite P, outcome_bind_ret in R. by injection R.
Qed.

(** epoll_wait reports that descriptor 3 can be read. *)
Definition one_event (maxevents ms : Z) (k : gmap Z (Z * nat)) : Z * list (Z * nat) * gmap Z (Z * nat) := (1, [(EPOLLIN, 0%nat)], k).
Definition round (w : world) : outcome (Z * world) := proc_netevent no_cancel away one_event 16 7 4 (-1) w.

Lemma away_ok : forall (w : world) l free co p,
  net_ok 8 (fun _ => True) w [(Local 7%nat, l)] free -> p ∈ free -> coroutine <$> (ctxs (nt w) !! p) = Some (Some co) ->
  exists w' free', away co w = Done w' /\ net_ok 8 (fun _ => True) w' [(Local 7%nat, l)] free' /\
    forall p', p' ∈ l -> ctxs (nt w') !! p' = ctxs (nt w) !! p'.
Proof. intros w l free co p HN _ _. by exists w, free. Qed.



(** The dispatch list of a round, the event of descriptor 3 and the resumption. *)
Definition with_list (w : world) : outcome world := h ← LIST_HEAD (Local 7%nat) (ncells w); Done (set_ncells h w).
Definition notify_3 (w : world) : outcome world := run_all (fun e => fd_notify_events_to_poll no_cancel 7 e.2 e.1) [(EPOLLIN, 0%nat)] w.

Lemma co_poll_outcome_witness : exists w w0 w1 w3 w4,
  begin_ 0 in_3 quiet_net = Done w /\ with_list w = Done w0 /\ notify_3 w0 = Done w1 /\
  resume_poll away 0%nat w1 = (w' ← away 0%nat w3; Done (true, w')) /\
  co_poll_end 8 new_item 3 0%nat w3 = Done (1, [Pollfd 3 EPOLLIN EPOLLIN], w4).
Proof.
  destruct polling_3 as (w & o & E & HN & Hc & _ & _ & Hloc).
  assert (El : exists w0, with_list w = Done w0) by (unfold with_list, LIST_HEAD; rewrite Hloc; by eexists). destruct El as [w0 El].
  pose proof El as El'. unfold with_list in El'. destruct (LIST_HEAD (Local 7%nat) (ncells w)) as [h| |] eqn:Eh; [|done..]. injection El' as El'.
  assert (R : (w ← begin_ 0 in_3 quiet_net; w0 ← with_list w;
     Done (answered 8 (nt w0) [(EPOLLIN, 0%nat)] <$> in_3, bool_decide (is_Some (items w0 !! 0%nat)), ended w0 [(EPOLLIN, 0%nat)] [])) =
    Done ([Pollfd 3 EPOLLIN EPOLLIN], true, [0%nat])) by (vm_compute; reflexivity).
  rewrite E, outcome_bind_ret, El, outcome_bind_ret in R.
  assert (Ra : answered 8 (nt w0) [(EPOLLIN, 0%nat)] <$> in_3 = [Pollfd 3 EPOLLIN EPOLLIN]) by congruence.
  assert (Re : ended w0 [(EPOLLIN, 0%nat)] [] = [0%nat]) by congruence.
  assert (Ri : is_Some (items w0 !! 0%nat)) by (apply (bool_decide_eq_true_1 (is_Some (items w0 !! 0%nat))); congruence). clear R.
  assert (HN0 : net_ok 8 (fun _ => True) w0 [(Local 7%nat, [])] [0%nat]).
  { destruct HN as (HT & HL & _). rewrite <-El'. split; [exact HT|]. split; [|done]. by eapply linked_local. }
  destruct (co_poll_outcome 8 new_item no_cancel new_item_fresh (fun _ => True) put_anything cancel_nothing_ok away 7 3 w0 0%nat in_3 100 o 0%nat [])
    as (Hev & _).
  - rewrite <-El'. change (nt (set_ncells h w)) with (set_ncells h w). cbn [ctxs set_ncells]. rewrite Hc. by vm_compute.
  - intros f ->%list_elem_of_singleton. split; [cbn; lia|]. split; [cbn; lia|apply leb_complete; reflexivity].
  - destruct (Hev [(EPOLLIN, 0%nat)] HN0) as (w1 & free1 & E1 & HN1 & Hrest); [apply NoDup_singleton|by apply Forall_singleton|].
    rewrite Ra in Hrest. change (count_ready [Pollfd 3 EPOLLIN EPOLLIN]) with 1 in Hrest. cbn [Z.eqb] in Hrest. destruct Hrest as [_ Hrest].
    change (ended (nt w0) [(EPOLLIN, 0%nat)] []) with (ended w0 [(EPOLLIN, 0%nat)] []) in HN1. rewrite Re in HN1.
    destruct (Hrest w1 [] [] free1 HN1 eq_refl) as (w3 & w4 & E3 & E4 & _). exists w, w0, w1, w3, w4.
    split; [exact E|]. split; [exact El|]. split; [exact E1|]. split; [exact E3|exact E4].
Defined.

Definition POLLPRI : Z := 2.

(** A poll for none of the four events (POLLPRI alone, say) registers the
    descriptor with no events and leaves wait_events zero, so that the next poll
    registers it again: epoll_ctl fails, wait_events says EPOLLIN, and the kernel
    still waits for nothing. *)
Theorem poll_nothing_loses_events :
  (w ← begin_ 0 [Pollfd 3 POLLPRI 0] quiet_net;
   w ← poll_ctx_timeout_proc away 0%nat w;
   r ← co_poll_end 8 new_item 3 0%nat w;
   w ← begin_ 1 in_3 r.2;
   Done (r.1.1, interest (kern w) 3, wait_events <$> (items w !! 0%nat))) =
  Done (0, Some (EPOLLET, 0%nat), Some EPOLLIN).
Proof. vm_compute. reflexivity. Qed.

(** A close of a descriptor while a coroutine polls it alone deletes the item
    that the end of that poll writes to. *)
Theorem close_under_poll :
  (w ← begin_ 0 in_3 quiet_net; w ← close_fd_notify_poll 8 new_item 3 3 w; poll_ctx_timeout_proc away 0%nat w) <> Fault /\
  (w ← begin_ 0 in_3 quiet_net; w ← close_fd_notify_poll 8 new_item 3 3 w; w ← poll_ctx_timeout_proc away 0%nat w;
   r ← co_poll_end 8 new_item 3 0%nat w; Done r.1) = Fault.
Proof. split; [vm_compute; discriminate|vm_compute; reflexivity]. Qed.
End example.
