(* ===== verification/NetHook.v ===== *)
(** * core/src/network_hook.cpp: system calls that suspend the coroutine

    The library defines the blocking system calls anew: a descriptor is
    non-blocking for the kernel, its fd_ctx_t records whether its user wants it
    so, and a call that would block polls instead (Net) and tries again.  A hook is
    a program of the state monad [M]; the kernel, co_poll and the disk operations
    are parameters.  A pointer to an fd_ctx_t is the slot of its descriptor. *)
From S2P Require Import Prelude Words FdCtx Net.

Definition EINTR : Z := 4.
Definition EBADF : Z := 9.
Definition EAGAIN : Z := 11.
Definition EINVAL : Z := 22.
Definition ETIMEDOUT : Z := 110.
Definition EINPROGRESS : Z := 115.
Definition POLLIN : Z := 1.
Definition POLLOUT : Z := 4.
Definition POLLERR : Z := 8.
Definition POLLHUP : Z := 16.
Definition MSG_DONTWAIT : Z := 64.
Definition MSG_NOSIGNAL : Z := 16384.
Definition F_DUPFD : Z := 0.
Definition SOL_SOCKET : Z := 1.
Definition SO_RCVTIMEO : Z := 20.
Definition SO_SNDTIMEO : Z := 21.

Definition has (bit x : Z) : bool := negb (Z.land x bit =? 0).

(** The system calls that the hooks make.  Pointers and lengths are numbers; the
    memory that they point to is the kernel's. *)
Inductive call :=
| Csocket (domain type protocol : Z)
| Caccept (fd addr len : Z)
| Caccept4 (fd addr len flags : Z)
| Cconnect (fd address address_len : Z)
| Cclose (fd : Z)
| Cread (fd buf nbyte : Z)
| Cwrite (fd buf nbyte : Z)
| Creadv (fd iov iovcnt : Z)
| Cwritev (fd iov iovcnt : Z)
| Csendto (fd message length flags dest_addr dest_len : Z)
| Crecvfrom (fd buffer length flags address address_len : Z)
| Csend (fd buffer length flags : Z)
| Crecv (fd buffer length flags : Z)
| Cepoll_wait (epfd events maxevents timeout : Z)
| Cepoll_pwait (epfd events maxevents timeout sigmask : Z)
| Csetsockopt (fd level option_name option_value option_len : Z)
| Cfcntl (fd cmd arg : Z)
| Ceventfd (initval flags : Z)
| Cdup (old : Z)
| Cdup2 (old newfd : Z)
| Cdup3 (old newfd flags : Z)
| Cnanosleep (sec nsec : Z)
| Csleep (s : Z)
| Cusleep (us : Z).

(** The three descriptor sets of select; [None] is NULL. *)
Record fd_sets := FdSets { readfds : option (gset Z); writefds : option (gset Z); exceptfds : option (gset Z) }.

(** The fd_ctx table, errno, is_enable_sys_hook() of the current coroutine and
    the kernel. *)
Record hst (K : Type) := Hst { tab : fd_ctx_mgr_t; errno : Z; enabled : bool; kst : K }.
Arguments Hst {K} _ _ _ _.
Arguments tab {K} _.
Arguments errno {K} _.
Arguments enabled {K} _.
Arguments kst {K} _.

Definition M (K A : Type) : Type := hst K -> outcome (A * hst K).
#[export] Instance M_ret K : MRet (M K) := fun A a s => Done (a, s).
#[export] Instance M_bind K : MBind (M K) := fun A B f m s => r ← m s; f r.1 r.2.

Definition fault {K A} : M K A := fun _ => Fault.
Definition out_of_fuel {K A} : M K A := fun _ => NoFuel.

Section hooks.
Context {K : Type}.
Implicit Types (s : hst K) (fd : Z) (l : fd_ctx_t).

(** A system call: its result, errno if it fails, and the kernel after it. *)
Variable kernel : call -> K -> Z * Z * K.
(** The kernel's poll, ppoll, select and pselect, which write to their arguments. *)
Variables (raw_poll : list pollfd -> Z -> M K (Z * list pollfd)) (raw_ppoll : list pollfd -> option (Z * Z) -> Z -> M K (Z * list pollfd)).
Variables (raw_select : Z -> fd_sets -> option (Z * Z) -> M K (Z * fd_sets)) (raw_pselect : Z -> fd_sets -> option (Z * Z) -> Z -> M K (Z * fd_sets)).
(** Net's co_poll; the disk hooks, which are weak symbols; conet::delay_back. *)
Variables (co_poll : list pollfd -> Z -> M K (Z * list pollfd)) (disk : call -> option (M K Z)) (delay_back : M K unit).
(** Net's close_fd_notify_poll, and the fuel of the table. *)
Variables (close_fd_notify_poll : Z -> M K unit) (fuel : nat).

Definition sys (c : call) : M K Z := fun s =>
  let '(r, e, k) := kernel c (kst s) in Done (r, Hst (tab s) (if r <? 0 then e else errno s) (enabled s) k).
Definition is_enable_sys_hook : M K bool := fun s => Done (enabled s, s).
Definition get_errno : M K Z := fun s => Done (errno s, s).
Definition set_errno (e : Z) : M K unit := fun s => Done (tt, Hst (tab s) e (enabled s) (kst s)).

(** The table's accessors; alloc_fd_ctx2 calls the kernel's fcntl. *)
Definition lp_of fd (type : Z) : M K (option fd_ctx_t) := fun s =>
  r ← get_fd_ctx fuel fd type (tab s); Done (r.1, Hst r.2 (errno s) (enabled s) (kst s)).
Definition kernel_fcntl (fd cmd arg : Z) (k : K * Z) : Z * (K * Z) :=
  let '(r, e, k') := kernel (Cfcntl fd cmd arg) k.1 in (r, (k', if r <? 0 then e else k.2)).
Definition alloc_lp fd (type : Z) (nonblocked : bool) : M K unit := fun s =>
  r ← alloc_fd_ctx2 kernel_fcntl fuel fd type nonblocked (tab s, (kst s, errno s));
  let '(_, (m, (k, e))) := r in Done (tt, Hst m e (enabled s) k).
Definition free_lp fd : M K unit := fun s => r ← free_fd_ctx fd (tab s); Done (tt, Hst r.2 (errno s) (enabled s) (kst s)).
(** *lp of a pointer that is not null *)
Definition lp_now fd : M K fd_ctx_t := fun s => c ← slot fd (tab s); l ← of_option c; Done (l, s).
(** lp->field = ... *)
Definition set_lp fd (f : fd_ctx_t -> fd_ctx_t) : M K unit := fun s =>
  c ← slot fd (tab s); l ← of_option c; m ← set_slot fd (Some (f l)) (tab s); Done (tt, Hst m (errno s) (enabled s) (kst s)).

Definition with_domain (x : Z) l := FdCtx (type_ l) (fd_ l) (user_flag l) (closed l) (rcv_timeout l) (snd_timeout l) x.
Definition with_closed (x : Z) l := FdCtx (type_ l) (fd_ l) (user_flag l) x (rcv_timeout l) (snd_timeout l) (domain l).
Definition with_user_flag (x : Z) l := FdCtx (type_ l) (fd_ l) x (closed l) (rcv_timeout l) (snd_timeout l) (domain l).
Definition with_rcv_timeout (x : Z) l := FdCtx (type_ l) (fd_ l) (user_flag l) (closed l) x (snd_timeout l) (domain l).
Definition with_snd_timeout (x : Z) l := FdCtx (type_ l) (fd_ l) (user_flag l) (closed l) (rcv_timeout l) x (domain l).

(** !lp || (O_NONBLOCK & lp->user_flag), else lp *)
Definition blocking (lp : option fd_ctx_t) : option fd_ctx_t :=
  match lp with Some l => if has O_NONBLOCK (user_flag l) then None else Some l | None => None end.

(** co_poll of one entry: the result and revents. *)
Definition poll1 fd (events timeout : Z) : M K (Z * Z) :=
  r ← co_poll [Pollfd fd events 0] timeout;
  match r.2 with [f] => mret (r.1, prevents f) | _ => fault end.

(** What follows the poll of the calls that only check for errors: [timed] sets
    ETIMEDOUT, [hup] is the result on a hang-up. *)
Definition wait_then (timed : bool) (hup : Z) fd (events timeout : Z) (again : M K Z) : M K Z :=
  r ← poll1 fd events timeout;
  if r.1 =? 0 then (if timed then _ ← set_errno ETIMEDOUT; mret (-1) else mret (-1))
  else if r.1 <? 0 then mret (-1)
  else if has POLLERR r.2 then mret (-1)
  else if has POLLHUP r.2 then mret hup
  else again.

(** The same for the calls that receive what there is first. *)
Definition wait_recv fd (timeout : Z) (again : M K Z) : M K Z :=
  r ← poll1 fd (Z.lor (Z.lor POLLIN POLLERR) POLLHUP) timeout;
  if r.1 =? 0 then _ ← set_errno ETIMEDOUT; mret (-1)
  else if r.1 <? 0 then mret (-1)
  else if has POLLIN r.2 then
    _ ← (if has POLLERR r.2 && has POLLHUP r.2 then set_lp fd (with_closed 1) else mret tt);
    again
  else if has POLLERR r.2 then mret (-1)
  else if has POLLHUP r.2 then mret 0
  else mret 0.

Definition in_events : Z := Z.lor (Z.lor POLLIN POLLERR) POLLHUP.
Definition out_events : Z := Z.lor (Z.lor POLLOUT POLLERR) POLLHUP.

Definition disk_or (c : call) : M K Z := match disk c with Some m => m | None => sys c end.

Definition socket (domain type protocol : Z) : M K Z :=
  en ← is_enable_sys_hook;
  if negb en then sys (Csocket domain type protocol)
  else
    fd ← sys (Csocket domain type protocol);
    if fd <? 0 then mret fd
    else _ ← alloc_lp fd 1 false; _ ← set_lp fd (with_domain domain); mret fd.

(** ctx->domain = lp->domain for the new descriptor, after the poll: lp is read
    again, and faults if it was freed meanwhile. *)
Definition inherit_domain fd (lp : option fd_ctx_t) (client_fd : Z) : M K unit :=
  match lp with
  | Some _ => l ← lp_now fd; set_lp client_fd (with_domain (domain l))
  | None => mret tt
  end.

Definition accept fd (addr len : Z) : M K Z :=
  en ← is_enable_sys_hook;
  if negb en then sys (Caccept fd addr len)
  else
    lp ← lp_of fd 1;
    let tail : M K Z :=
      client_fd ← sys (Caccept fd addr len);
      _ ← (if 0 <=? client_fd then _ ← alloc_lp client_fd 1 false; inherit_domain fd lp client_fd else mret tt);
      mret client_fd in
    match blocking lp with
    | None => tail
    | Some _ => wait_then true (-1) fd in_events (-1) tail
    end.

(** accept4 and my_accept4, which leaves user_flag alone. *)
Definition accept4_with (mark : bool) fd (addr len flags : Z) : M K Z :=
  en ← is_enable_sys_hook;
  if negb en then sys (Caccept4 fd addr len flags)
  else
    lp ← lp_of fd 1;
    let tail : M K Z :=
      client_fd ← sys (Caccept4 fd addr len flags);
      _ ← (if 0 <=? client_fd then
             _ ← (if has O_NONBLOCK flags then
                    _ ← alloc_lp client_fd 1 true;
                    if mark then set_lp client_fd (with_user_flag O_NONBLOCK) else mret tt
                  else alloc_lp client_fd 1 false);
             inherit_domain fd lp client_fd
           else mret tt);
      mret client_fd in
    match blocking lp with
    | None => tail
    | Some _ => wait_then true (-1) fd in_events (-1) tail
    end.
Definition accept4 := accept4_with true.
Definition my_accept4 := accept4_with false.

Definition read fd (buf nbyte : Z) : M K Z :=
  en ← is_enable_sys_hook;
  if negb en then sys (Cread fd buf nbyte)
  else
    lp ← lp_of fd 0;
    match blocking lp with
    | None => sys (Cread fd buf nbyte)
    | Some l =>
        if type_ l =? 2 then disk_or (Cread fd buf nbyte)
        else
          ret ← sys (Cread fd buf nbyte);
          e ← get_errno;
          if 0 <=? ret then mret ret
          else if negb (e =? EAGAIN) || negb (e =? EINTR) then mret ret
          else wait_then true 0 fd in_events (rcv_timeout l) (sys (Cread fd buf nbyte))
    end.

Definition write fd (buf nbyte : Z) : M K Z :=
  en ← is_enable_sys_hook;
  if negb en then sys (Cwrite fd buf nbyte)
  else
    lp ← lp_of fd 0;
    match blocking lp with
    | None => sys (Cwrite fd buf nbyte)
    | Some l =>
        if type_ l =? 2 then disk_or (Cwrite fd buf nbyte)
        else
          ret ← sys (Cwrite fd buf nbyte);
          e ← get_errno;
          if 0 <=? ret then mret ret
          else if negb (e =? EAGAIN) then mret ret
          else wait_then true 0 fd out_events (snd_timeout l) (sys (Cwrite fd buf nbyte))
    end.

Definition writev fd (iov iovcnt : Z) : M K Z :=
  en ← is_enable_sys_hook;
  if negb en then sys (Cwritev fd iov iovcnt)
  else
    ctx ← lp_of fd 0;
    match blocking ctx with
    | None => sys (Cwritev fd iov iovcnt)
    | Some l =>
        if type_ l =? 2 then disk_or (Cwritev fd iov iovcnt)
        else
          ret ← sys (Cwritev fd iov iovcnt);
          e ← get_errno;
          if 0 <=? ret then mret ret
          else if negb (e =? EAGAIN) then mret ret
          else wait_then false 0 fd out_events (snd_timeout l) (sys (Cwritev fd iov iovcnt))
    end.

(** readv keeps the result in an int. *)
Definition readv fd (iov iovcnt : Z) : M K Z :=
  en ← is_enable_sys_hook;
  if negb en then sys (Creadv fd iov iovcnt)
  else
    ctx ← lp_of fd 0;
    match blocking ctx with
    | None => sys (Creadv fd iov iovcnt)
    | Some l =>
        if type_ l =? 2 then disk_or (Creadv fd iov iovcnt)
        else wait_then false 0 fd in_events (rcv_timeout l) (ret ← sys (Creadv fd iov iovcnt); mret (wrap_s 32 ret))
    end.

Definition sendto fd (message length flags dest_addr dest_len : Z) : M K Z :=
  let flags := Z.lor flags MSG_NOSIGNAL in
  let c := Csendto fd message length flags dest_addr dest_len in
  en ← is_enable_sys_hook;
  if negb en then sys c
  else
    lp ← lp_of fd 1;
    match (if has MSG_DONTWAIT flags then None else blocking lp) with
    | None => sys c
    | Some l =>
        ret ← sys c;
        e ← get_errno;
        if (ret <? 0) && (e =? EAGAIN) then wait_then true 0 fd out_events (snd_timeout l) (sys c)
        else mret ret
    end.

Definition recvfrom fd (buffer length flags address address_len : Z) : M K Z :=
  let c := Crecvfrom fd buffer length flags address address_len in
  en ← is_enable_sys_hook;
  if negb en then sys c
  else
    lp ← lp_of fd 1;
    match (if has MSG_DONTWAIT flags then None else blocking lp) with
    | None => sys c
    | Some l => wait_recv fd (rcv_timeout l) (sys c)
    end.

(** The result of the second send goes to an inner variable [ret]; the function
    returns the outer one. *)
Definition send fd (buffer length flags : Z) : M K Z :=
  let flags := Z.lor flags MSG_NOSIGNAL in
  let c := Csend fd buffer length flags in
  en ← is_enable_sys_hook;
  if negb en then sys c
  else
    lp ← lp_of fd 1;
    match (if has MSG_DONTWAIT flags then None else blocking lp) with
    | None => sys c
    | Some l =>
        ret ← sys c;
        e ← get_errno;
        if (ret =? -1) && (e =? EAGAIN) then
          wait_then true 0 fd out_events (snd_timeout l) (_ ← sys c; mret ret)
        else mret ret
    end.

Definition recv fd (buffer length flags : Z) : M K Z :=
  let c := Crecv fd buffer length flags in
  en ← is_enable_sys_hook;
  if negb en then sys c
  else
    lp ← lp_of fd 1;
    match (if has MSG_DONTWAIT flags then None else blocking lp) with
    | None => sys c
    | Some l =>
        ret ← sys c;
        e ← get_errno;
        if 0 <=? ret then mret ret
        else if negb (e =? EAGAIN) then mret ret
        else wait_recv fd (rcv_timeout l) (sys c)
    end.

(** poll_recv; a null lp faults, and the result is kept in an int. *)
Definition poll_recv fd (buffer length timeout : Z) : M K Z :=
  lp ← lp_of fd 1;
  match lp with
  | None => fault
  | Some l => if negb (closed l =? 0) then mret 0 else wait_recv fd timeout (ret ← sys (Crecv fd buffer length O_NONBLOCK); mret (wrap_s 32 ret))
  end.

(** ** Waiting *)

(** usleep: useconds_t is an unsigned int, ms an int. *)
Definition usleep_ms (us : Z) : Z := wrap_s 32 (u32 (us + 999) / 1000).
Definition usleep (us : Z) : M K Z :=
  en ← is_enable_sys_hook;
  if negb en then sys (Cusleep us)
  else if us =? 0 then _ ← delay_back; mret 0
  else r ← co_poll [] (usleep_ms us); mret r.1.

(** sleep: [s * 1000] is an unsigned int, and the argument of co_poll an int. *)
Definition sleep_ms (s : Z) : Z := wrap_s 32 (u32 (s * 1000)).
Definition sleep (s : Z) : M K Z :=
  en ← is_enable_sys_hook;
  if negb en then sys (Csleep s)
  else if s =? 0 then _ ← delay_back; mret 0
  else r ← co_poll [] (sleep_ms s); mret (u32 r.1).

(** nanosleep of [req] = (tv_sec, tv_nsec); [rem] is zeroed, which nobody reads here. *)
Definition nanosleep_ms (sec nsec : Z) : Z := wrap_s 32 (sec * 1000 + Z.quot (nsec + 999999) 1000000).
Definition nanosleep (req : option (Z * Z)) : M K Z :=
  en ← is_enable_sys_hook;
  match req with
  | None => if negb en then sys (Cnanosleep 0 0) else _ ← set_errno EINVAL; mret (-1)
  | Some (sec, nsec) =>
      if negb en then sys (Cnanosleep sec nsec)
      else
        let ms := nanosleep_ms sec nsec in
        if ms =? 0 then _ ← delay_back; mret 0
        else _ ← co_poll [] ms; mret 0
  end.

Definition poll (fds : list pollfd) (timeout : Z) : M K (Z * list pollfd) :=
  en ← is_enable_sys_hook;
  if negb en then raw_poll fds timeout
  else if 0 =? timeout then
    if (length fds <=? 0)%nat then _ ← usleep 0; mret (0, fds)
    else raw_poll fds 0
  else co_poll fds timeout.

(** ppoll of a timespec (tv_sec, tv_nsec) or NULL *)
Definition ppoll (fds : list pollfd) (timeout_ts : option (Z * Z)) (sigmask : Z) : M K (Z * list pollfd) :=
  en ← is_enable_sys_hook;
  if negb en then raw_ppoll fds timeout_ts sigmask
  else
    let now : M K (Z * list pollfd) :=
      if (length fds <=? 0)%nat then _ ← usleep 0; mret (0, fds) else raw_ppoll fds timeout_ts sigmask in
    match timeout_ts with
    | None => now
    | Some (sec, nsec) =>
        if (sec =? 0) && (nsec =? 0) then now
        else co_poll fds (wrap_s 32 (sec * 1000 + Z.quot nsec 1000000))
    end.

(** connect; lp->dest is not modelled.  A null lp faults if the call failed. *)
Definition connect fd (address address_len : Z) : M K Z :=
  let c := Cconnect fd address address_len in
  en ← is_enable_sys_hook;
  if negb en then sys c
  else
    lp ← lp_of fd 1;
    ret ← sys c;
    if 0 <=? ret then mret ret
    else
      match lp with
      | None => fault
      | Some l =>
          e ← get_errno;
          if has O_NONBLOCK (user_flag l) then mret ret
          else if negb (e =? EINPROGRESS) then mret ret
          else
            r ← poll [Pollfd fd (Z.lor POLLIN out_events) 0] (snd_timeout l);
            match r.2 with
            | [f] =>
                if 0 =? r.1 then _ ← set_errno ETIMEDOUT; mret (-1)
                else if r.1 <? 0 then mret (-1)
                else if has POLLERR (prevents f) then mret (-1)
                else if has POLLHUP (prevents f) then mret (-1)
                else
                  ret ← sys c;
                  e ← get_errno;
                  _ ← (if (ret =? -1) && (e =? EINPROGRESS) then set_errno ETIMEDOUT else mret tt);
                  mret ret
            | _ => fault
            end
      end.

(** epoll_wait and epoll_pwait: a look [c] without waiting every millisecond. *)
Fixpoint epoll_loop (rounds : nat) (c : call) (timeout rest : Z) : M K Z :=
  match rounds with
  | O => out_of_fuel
  | S rounds =>
      ret ← sys c;
      if negb (ret =? 0) then mret ret
      else if timeout <? 0 then _ ← co_poll [] 1; epoll_loop rounds c timeout rest
      else if 0 <? rest then _ ← co_poll [] 1; epoll_loop rounds c timeout (rest - 1)
      else mret 0
  end.
Definition epoll_wait (rounds : nat) (epfd events maxevents timeout : Z) : M K Z :=
  en ← is_enable_sys_hook;
  if negb en then sys (Cepoll_wait epfd events maxevents timeout)
  else if timeout =? 0 then
    if maxevents <=? 0 then _ ← usleep 0; mret 0
    else sys (Cepoll_wait epfd events maxevents timeout)
  else epoll_loop rounds (Cepoll_wait epfd events maxevents 0) timeout timeout.
Definition epoll_pwait (rounds : nat) (epfd events maxevents timeout sigmask : Z) : M K Z :=
  en ← is_enable_sys_hook;
  if negb en then sys (Cepoll_pwait epfd events maxevents timeout sigmask)
  else if timeout =? 0 then sys (Cepoll_pwait epfd events maxevents timeout sigmask)
  else epoll_loop rounds (Cepoll_pwait epfd events maxevents 0 sigmask) timeout timeout.

(** ** Descriptors *)

(** close, which returns EBADF itself. *)
Definition close fd : M K Z :=
  _ ← close_fd_notify_poll fd;
  en ← is_enable_sys_hook;
  if negb en then sys (Cclose fd)
  else if fd <? 0 then mret EBADF
  else
    lp ← lp_of fd 1;
    _ ← (match lp with Some _ => free_lp fd | None => mret tt end);
    sys (Cclose fd).

(** The struct timeval that option_value points to. *)
Definition setsockopt fd (level option_name option_value : Z) (tv : Z * Z) (option_len : Z) : M K Z :=
  let c := Csetsockopt fd level option_name option_value option_len in
  let ms := wrap_s 32 (tv.1 * 1000 + Z.quot tv.2 1000) in
  en ← is_enable_sys_hook;
  if negb en then sys c
  else
    lp ← lp_of fd 1;
    _ ← (match lp with
         | Some _ =>
             if SOL_SOCKET =? level then
               if (SO_RCVTIMEO =? option_name) && (option_len =? 16) then set_lp fd (with_rcv_timeout ms)
               else if (SO_SNDTIMEO =? option_name) && (option_len =? 16) then set_lp fd (with_snd_timeout ms)
               else mret tt
             else mret tt
         | None => mret tt
         end);
    sys c.

(** The fields that a duplicate takes over. *)
Definition copy_lp l (ret : Z) : M K unit :=
  set_lp ret (fun l0 => with_user_flag (user_flag l) (with_snd_timeout (snd_timeout l) (with_rcv_timeout (rcv_timeout l) (with_domain (domain l) l0)))).

(** fcntl: F_DUPFD calls fcntl, that is, this function; the commands in between
    only pass their argument on. *)
Fixpoint fcntl (depth : nat) fd (cmd arg : Z) : M K Z :=
  if fd <? 0 then mret (-1)
  else
    lp ← lp_of fd 1;
    if cmd =? F_DUPFD then
      match depth with
      | O => out_of_fuel
      | S depth =>
          ret ← fcntl depth fd cmd arg;
          en ← is_enable_sys_hook;
          _ ← (match lp with
               | Some l => if (0 <=? ret) && en then _ ← alloc_lp ret 1 false; copy_lp l ret else mret tt
               | None => mret tt
               end);
          mret ret
      end
    else if cmd =? F_GETFL then
      ret ← sys (Cfcntl fd cmd 0);
      match lp with
      | Some l => if negb (has O_NONBLOCK (user_flag l)) && has O_NONBLOCK ret then mret (Z.land ret (Z.lnot O_NONBLOCK)) else mret ret
      | None => mret ret
      end
    else if cmd =? F_SETFL then
      en ← is_enable_sys_hook;
      let flag := match lp with Some _ => if (en : bool) then Z.lor arg O_NONBLOCK else arg | None => arg end in
      ret ← sys (Cfcntl fd cmd flag);
      _ ← (match lp with Some _ => if 0 =? ret then set_lp fd (with_user_flag arg) else mret tt | None => mret tt end);
      mret ret
    else if (1 <=? cmd) && (cmd <=? 9) then sys (Cfcntl fd cmd arg)
    else mret (-1).

(** eventfd; its fcntl calls are the hook's for F_SETFL and the kernel's for F_GETFL. *)
Definition eventfd (initval flags : Z) : M K Z :=
  en ← is_enable_sys_hook;
  if negb en then sys (Ceventfd initval flags)
  else
    fd ← sys (Ceventfd initval flags);
    if fd <? 0 then mret fd
    else
      _ ← alloc_lp fd 1 false;
      _ ← set_lp fd (with_domain 0);
      _ ← (if has O_NONBLOCK flags then
             _ ← set_lp fd (fun l => with_user_flag (Z.lor (user_flag l) O_NONBLOCK) l);
             g ← sys (Cfcntl fd F_GETFL 0);
             fcntl O fd F_SETFL g
           else
             g ← sys (Cfcntl fd F_GETFL 0);
             fcntl O fd F_SETFL (Z.land g (Z.lnot O_NONBLOCK)));
      mret fd.

(** The end of dup, dup2 and dup3. *)
Definition dup_ctx (old fd : Z) : M K Z :=
  lp0 ← lp_of old 1;
  match lp0 with
  | None => mret fd
  | Some l => _ ← alloc_lp fd 1 false; _ ← copy_lp l fd; mret fd
  end.
Definition dup (old : Z) : M K Z :=
  en ← is_enable_sys_hook;
  if negb en then sys (Cdup old)
  else fd ← sys (Cdup old); if fd <? 0 then mret fd else dup_ctx old fd.

(** dup2 and dup3 *)
Definition dup_onto (c : call) (old newfd : Z) : M K Z :=
  en ← is_enable_sys_hook;
  if negb en then sys c
  else
    fd ← sys c;
    if fd <? 0 then mret fd
    else
      new_lp ← lp_of newfd 1;
      _ ← (match new_lp with Some _ => free_lp newfd | None => mret tt end);
      dup_ctx old fd.
Definition dup2 (old newfd : Z) := dup_onto (Cdup2 old newfd) old newfd.
Definition dup3 (old newfd flags : Z) := dup_onto (Cdup3 old newfd flags) old newfd.

(** ** select *)

Definition isset (o : option (gset Z)) (i : Z) : bool := match o with Some X => bool_decide (i ∈ X) | None => false end.
Definition select_events (F : fd_sets) (i : Z) : Z :=
  Z.lor (Z.lor (if isset (readfds F) i then POLLIN else 0) (if isset (writefds F) i then POLLOUT else 0))
    (if isset (exceptfds F) i then POLLERR else 0).
(** The pollfds of the descriptors below nfds that are in a set. *)
Definition select_pfs (nfds : Z) (F : fd_sets) : list pollfd :=
  omap (fun i => if isset (readfds F) i || isset (writefds F) i || isset (exceptfds F) i then Some (Pollfd i (select_events F i) 0) else None) (seqZ 0 nfds).
Definition select_to (timeout : option (Z * Z)) : Z :=
  match timeout with Some (sec, usec) => wrap_s 32 (sec * 1000 + Z.quot usec 1000) | None => 0 end.

(** The loop over the results: the sets and the count. *)
Definition set_bit (bit : Z) (f : pollfd) (o : option (gset Z)) : option (gset Z) :=
  match o with Some X => Some (if has bit (prevents f) then {[pfd f]} ∪ X else X) | None => None end.
Definition hit (bit : Z) (f : pollfd) (o : option (gset Z)) : bool := match o with Some _ => has bit (prevents f) | None => false end.
Definition select_step (r : Z * fd_sets) (f : pollfd) : Z * fd_sets :=
  let F := r.2 in
  (if hit POLLIN f (readfds F) || hit POLLOUT f (writefds F) || hit POLLERR f (exceptfds F) then r.1 + 1 else r.1,
   FdSets (set_bit POLLIN f (readfds F)) (set_bit POLLOUT f (writefds F)) (set_bit POLLERR f (exceptfds F))).
Definition fd_zero (o : option (gset Z)) : option (gset Z) := match o with Some _ => Some ∅ | None => None end.

Definition select (nfds : Z) (F : fd_sets) (timeout : option (Z * Z)) : M K (Z * fd_sets) :=
  en ← is_enable_sys_hook;
  if negb en then raw_select nfds F timeout
  else
    let pfs := select_pfs nfds F in
    if (length pfs =? 0)%nat then r ← co_poll [] (select_to timeout); mret (r.1, F)
    else
      r ← co_poll pfs (select_to timeout);
      if r.1 =? 0 then mret (0, F)
      else if r.1 <? 0 then mret (r.1, F)
      else mret (foldl select_step (0, FdSets (fd_zero (readfds F)) (fd_zero (writefds F)) (fd_zero (exceptfds F))) r.2).

Definition pselect (nfds : Z) (F : fd_sets) (timeout : option (Z * Z)) (sigmask : Z) : M K (Z * fd_sets) :=
  en ← is_enable_sys_hook;
  if negb en then raw_pselect nfds F timeout sigmask
  else
    match timeout with
    | Some (sec, nsec) => select nfds F (Some (sec, wrap_s 64 (Z.quot nsec 1000)))
    | None => select nfds F None
    end.
End hooks.
