(* ===== verification/HookIo.v ===== *)
(** * The calls that wait for a descriptor (core/src/network_hook.cpp)

    What a coroutine gets from the hooked reads and writes of a descriptor that
    its user takes for a blocking one: the result of the system call, other than
    EAGAIN, the result of the call that is made after a poll has announced it, or the
    reason why the poll gave up.  The call after the poll is made once: readiness may be
    spurious, and then EAGAIN reaches the user ([spurious_readiness]).  The kernel and
    co_poll are parameters with the laws of the interface [Poller].  read and send
    are exceptions: the one never polls, the other loses the result. *)
From S2P Require Import Prelude Words FdCtx Net NetHook.

(** The descriptor and the poll bit of a call that may have to wait. *)
Definition waits_for (c : call) : option (Z * Z) :=
  match c with
  | Cread fd _ _ | Creadv fd _ _ | Crecvfrom fd _ _ _ _ _ | Crecv fd _ _ _ | Caccept fd _ _ | Caccept4 fd _ _ _ => Some (fd, POLLIN)
  | Cwrite fd _ _ | Cwritev fd _ _ | Csendto fd _ _ _ _ _ | Csend fd _ _ _ => Some (fd, POLLOUT)
  | _ => None
  end.

(** What read(2) and co_poll promise: a transfer has at most 0x7ffff000 bytes; co_poll of
    one entry returns, reports only what was asked for, errors and hang-ups, and
    leaves the context of the polled descriptor in place.  Nothing is promised about the
    call after the poll. *)
Class Poller {K} (kernel : call -> K -> Z * Z * K) (co_poll : list pollfd -> Z -> M K (Z * list pollfd)) := {
  kernel_count c k : waits_for c <> None -> -1 <= (kernel c k).1.1 <= 2147479552;
  co_poll_returns fd ev t s : mgr_ok (tab s) -> ctx_of (tab s) fd <> None ->
    exists n rev s', co_poll [Pollfd fd ev 0] t s = Done ((n, [Pollfd fd ev rev]), s') /\
      mgr_ok (tab s') /\ ctx_of (tab s') fd <> None /\
      (0 < n -> rev <> 0 /\ Z.land rev (Z.lor (Z.lor ev POLLERR) POLLHUP) = rev) }.

(** The bits of what a poll reports. *)
Lemma has_lor x y r : has (Z.lor x y) r = has x r || has y r.
Proof.
  unfold has. rewrite Z.land_lor_distr_r. destruct (Z.eqb_spec (Z.land r x) 0) as [E|E].
  - by rewrite E, Z.lor_0_l.
  - cbn. rewrite (proj2 (Z.eqb_neq _ _)); [done|]. intros [E' _]%Z.lor_eq_0_iff. done.
Qed.

Lemma reported bit rev : rev <> 0 -> Z.land rev (Z.lor (Z.lor (Z.lor (Z.lor bit POLLERR) POLLHUP) POLLERR) POLLHUP) = rev ->
  has POLLERR rev = false -> has POLLHUP rev = false -> has bit rev = true.
Proof.
  intros Hne Hsub He Hh. assert (H : has (Z.lor (Z.lor (Z.lor (Z.lor bit POLLERR) POLLHUP) POLLERR) POLLHUP) rev = true).
  { unfold has. rewrite Hsub. by rewrite (proj2 (Z.eqb_neq _ _)). }
  rewrite !has_lor, He, Hh, !orb_false_r in H. done.
Qed.

Section io.
Context {K : Type} (kernel : call -> K -> Z * Z * K) (co_poll : list pollfd -> Z -> M K (Z * list pollfd)).
Context (disk : call -> option (M K Z)) (fuel : nat) `{!Poller kernel co_poll}.
Implicit Types (s : hst K) (fd : Z) (l : fd_ctx_t).

Lemma bind_done {A B} (m : M K A) (f : A -> M K B) s a s' : m s = Done (a, s') -> (m ≫= f) s = f a s'.
Proof. intros E. unfold mbind, M_bind. by rewrite E. Qed.

Lemma sys_done c s : sys kernel c s = Done ((kernel c (kst s)).1.1,
  Hst (tab s) (if (kernel c (kst s)).1.1 <? 0 then (kernel c (kst s)).1.2 else errno s) (enabled s) (kernel c (kst s)).2).
Proof. unfold sys. by destruct (kernel c (kst s)) as [[r e] k]. Qed.

Lemma lp_of_found fd type l s : mgr_ok (tab s) -> ctx_of (tab s) fd = Some l ->
  lp_of fuel fd type s = Done (FdCtx.select type (Some l), s).
Proof.
  intros Hm Hc. assert (Hfd : 0 <= fd < size (tab s)).
  { unfold ctx_of in Hc. destruct (Z.leb_spec 0 fd); [|done]. destruct (Z.ltb_spec fd (size (tab s))); done. }
  unfold lp_of, get_fd_ctx, reserve. rewrite (proj2 (Z.ltb_ge _ _)), (proj2 (Z.leb_gt _ _)) by lia.
  rewrite outcome_bind_ret, slot_ok, Hc, outcome_bind_ret by done. destruct s as [m e en k]. unfold FdCtx.select.
  destruct (type =? 0); [done|]. by destruct (type_ l =? type).
Qed.

Lemma set_lp_done fd f s : mgr_ok (tab s) -> ctx_of (tab s) fd <> None ->
  exists m, set_lp fd f s = Done (tt, Hst m (errno s) (enabled s) (kst s)).
Proof.
  intros Hm Hc. destruct (ctx_of (tab s) fd) as [l|] eqn:E; [|done].
  assert (Hfd : 0 <= fd < size (tab s)).
  { unfold ctx_of in E. destruct (Z.leb_spec 0 fd); [|done]. destruct (Z.ltb_spec fd (size (tab s))); done. }
  destruct (set_slot_ok (tab s) fd (Some (f l)) Hm Hfd) as (m & Em & _). exists m.
  unfold set_lp. rewrite slot_ok, outcome_bind_ret, E by done. cbn [of_option]. by rewrite outcome_bind_ret, Em.
Qed.

(** Before the poll: a call that failed with EAGAIN, for a hook that tries first, and
    none for the others. *)
Definition unserved (tries : bool) (c : call) s s1 : Prop :=
  if tries then sys kernel c s = Done (-1, s1) /\ errno s1 = EAGAIN else s1 = s.

(** The answers of a call that waits: the system call's own at once, if it is not
    EAGAIN; after a poll has announced it, the system call's own whatever it is; or what
    the poll said. *)
Definition served (tries : bool) (c : call) fd (ev t : Z) (timed : bool) s (r : Z) s' : Prop :=
  (tries = true /\ sys kernel c s = Done (r, s') /\ (r < 0 -> errno s' <> EAGAIN)) \/
  exists s1 n rev s2, unserved tries c s s1 /\ co_poll [Pollfd fd ev 0] t s1 = Done ((n, [Pollfd fd ev rev]), s2) /\
    ((0 < n /\ has (Z.land ev (Z.lor POLLIN POLLOUT)) rev = true /\
        exists s3, kst s3 = kst s2 /\ sys kernel c s3 = Done (r, s')) \/
     (kst s' = kst s2 /\
      ((n = 0 /\ r = -1 /\ (timed = true -> errno s' = ETIMEDOUT)) \/ (n < 0 /\ r = -1) \/
       (0 < n /\ has POLLERR rev = true /\ r = -1) \/ (0 < n /\ has POLLHUP rev = true /\ r = 0)))).

(** The call after the poll. *)
Lemma announced c s (again : M K Z) :
  (forall s r s', sys kernel c s = Done (r, s') -> again s = Done (r, s')) ->
  exists r s', again s = Done (r, s') /\ sys kernel c s = Done (r, s').
Proof. intros Ha. rewrite (sys_done c s). eexists _, _. split; [apply Ha; apply sys_done|done]. Qed.

(** What the poll said. *)
Lemma gave_up tries c fd ev t timed s s1 n rev s2 r s' :
  unserved tries c s s1 -> co_poll [Pollfd fd ev 0] t s1 = Done ((n, [Pollfd fd ev rev]), s2) -> kst s' = kst s2 ->
  (n = 0 /\ r = -1 /\ (timed = true -> errno s' = ETIMEDOUT)) \/ (n < 0 /\ r = -1) \/
    (0 < n /\ has POLLERR rev = true /\ r = -1) \/ (0 < n /\ has POLLHUP rev = true /\ r = 0) ->
  served tries c fd ev t timed s r s'.
Proof. intros Hu E Hk H. right. exists s1, n, rev, s2. split_and!; [done|done|by right]. Qed.

Ltac gave_up E := eexists _, _; split; [reflexivity|]; eapply gave_up; [eassumption|exact E|done|]; naive_solver lia.

(** The two tails, after a poll of the direction [bit]. *)
Lemma wait_then_served tries c fd bit (timed : bool) t (again : M K Z) s s1 :
  waits_for c = Some (fd, bit) -> bit = POLLIN \/ bit = POLLOUT ->
  (forall s r s', sys kernel c s = Done (r, s') -> again s = Done (r, s')) ->
  unserved tries c s s1 -> mgr_ok (tab s1) -> ctx_of (tab s1) fd <> None ->
  exists r s', wait_then co_poll timed 0 fd (Z.lor (Z.lor bit POLLERR) POLLHUP) t again s1 = Done (r, s') /\
    served tries c fd (Z.lor (Z.lor bit POLLERR) POLLHUP) t timed s r s'.
Proof.
  intros Hw Hb Ha Hu Hm Hc. set (ev := Z.lor _ POLLHUP).
  destruct (co_poll_returns fd ev t s1 Hm Hc) as (n & rev & s2 & E & _ & _ & Hrev).
  unfold wait_then, poll1. rewrite (bind_done _ _ _ (n, rev) s2) by (by rewrite (bind_done _ _ _ _ _ E)). cbn [fst snd].
  destruct (Z.eqb_spec n 0) as [->|Hn0].
  { destruct timed; gave_up E. }
  destruct (Z.ltb_spec n 0) as [Hn|Hn].
  { gave_up E. }
  destruct Hrev as (Hne & Hsub); [lia|]. destruct (has POLLERR rev) eqn:Herr.
  { gave_up E. }
  destruct (has POLLHUP rev) eqn:Hhup.
  { gave_up E. }
  pose proof (reported bit rev Hne Hsub Herr Hhup) as Hbit.
  destruct (announced c s2 again Ha) as (r & s' & Eg & Es).
  exists r, s'. split; [exact Eg|]. right. exists s1, n, rev, s2. split_and!; [done|done|].
  left. split_and!; [lia| |by exists s2]. by destruct Hb as [->| ->].
Qed.

Lemma wait_recv_served tries c fd t (again : M K Z) s s1 :
  waits_for c = Some (fd, POLLIN) ->
  (forall s r s', sys kernel c s = Done (r, s') -> again s = Done (r, s')) ->
  unserved tries c s s1 -> mgr_ok (tab s1) -> ctx_of (tab s1) fd <> None ->
  exists r s', wait_recv co_poll fd t again s1 = Done (r, s') /\ served tries c fd in_events t true s r s'.
Proof.
  intros Hw Ha Hu Hm Hc.
  destruct (co_poll_returns fd in_events t s1 Hm Hc) as (n & rev & s2 & E & Hm2 & Hc2 & Hrev).
  unfold wait_recv, poll1. fold in_events. rewrite (bind_done _ _ _ (n, rev) s2) by (by rewrite (bind_done _ _ _ _ _ E)). cbn [fst snd].
  destruct (Z.eqb_spec n 0) as [->|Hn0].
  { gave_up E. }
  destruct (Z.ltb_spec n 0) as [Hn|Hn].
  { gave_up E. }
  destruct Hrev as (Hne & Hsub); [lia|]. destruct (has POLLIN rev) eqn:Hin.
  - assert (Hset : exists s3, (if has POLLERR rev && has POLLHUP rev then set_lp fd (with_closed 1) else mret tt) s2 = Done (tt, s3) /\ kst s3 = kst s2).
    { destruct (_ && _); [|by exists s2]. destruct (set_lp_done fd (with_closed 1) s2 Hm2 Hc2) as (m & ->). by eexists. }
    destruct Hset as (s3 & E3 & Hk). rewrite (bind_done _ _ _ _ _ E3).
    destruct (announced c s3 again Ha) as (r & s' & Eg & Es).
    exists r, s'. split; [exact Eg|]. right. exists s1, n, rev, s2. split_and!; [done|done|].
    left. split_and!; [lia|done|by exists s3].
  - destruct (has POLLERR rev) eqn:Herr.
    { gave_up E. }
    destruct (has POLLHUP rev) eqn:Hhup.
    { gave_up E. }
    pose proof (reported POLLIN rev Hne Hsub Herr Hhup). congruence.
Qed.
(** The calls that wait as they should, with the system call that they make, its
    poll, and whether a timeout sets errno. *)
Record io_hook := IoHook { run : M K Z; tried_first : bool; made : call; events : Z; timeout : Z; timed : bool }.
Definition io_hooks fd l (b n flags a al : Z) : list io_hook :=
  [ IoHook (write kernel co_poll disk fuel fd b n) true (Cwrite fd b n) out_events (snd_timeout l) true;
    IoHook (writev kernel co_poll disk fuel fd b n) true (Cwritev fd b n) out_events (snd_timeout l) false;
    IoHook (readv kernel co_poll disk fuel fd b n) false (Creadv fd b n) in_events (rcv_timeout l) false;
    IoHook (sendto kernel co_poll fuel fd b n flags a al) true (Csendto fd b n (Z.lor flags MSG_NOSIGNAL) a al) out_events (snd_timeout l) true;
    IoHook (recvfrom kernel co_poll fuel fd b n flags a al) false (Crecvfrom fd b n flags a al) in_events (rcv_timeout l) true;
    IoHook (recv kernel co_poll fuel fd b n flags) true (Crecv fd b n flags) in_events (rcv_timeout l) true ].

Lemma sys_count c s r s' : waits_for c <> None -> sys kernel c s = Done (r, s') -> -1 <= r <= 2147479552.
Proof. intros Hw. rewrite sys_done. intros [= <- _]. by apply (kernel_count c). Qed.

Lemma tab_sys c s r s' : sys kernel c s = Done (r, s') -> tab s' = tab s.
Proof. rewrite sys_done. by intros [= _ <-]. Qed.

(** A call that is tried first: it answers, or has failed with EAGAIN. *)
Lemma first_try c s : waits_for c <> None ->
  exists r s1, sys kernel c s = Done (r, s1) /\ tab s1 = tab s /\
    (if (0 <=? r) || negb (errno s1 =? EAGAIN) then forall fd ev t timed, served true c fd ev t timed s r s1 else r = -1 /\ unserved true c s s1).
Proof.
  intros Hw. destruct (sys kernel c s) as [[r s1]| |] eqn:E; try (by rewrite sys_done in E). exists r, s1. split; [done|].
  split; [by eapply tab_sys|]. pose proof (sys_count c s r s1 Hw E). destruct (Z.leb_spec 0 r); cbn [orb].
  - intros. left. split_and!; [done|done|lia].
  - destruct (Z.eqb_spec (errno s1) EAGAIN); cbn [negb].
    + assert (r = -1) as -> by lia. split; [done|]. by split.
    + intros. by left.
Qed.

Lemma dontwait flags : has MSG_DONTWAIT (Z.lor flags MSG_NOSIGNAL) = has MSG_DONTWAIT flags.
Proof. unfold has. by rewrite Z.land_lor_distr_l, Z.lor_0_r. Qed.

(** A socket that its user takes for a blocking one. *)
Definition blocking_socket fd l s : Prop :=
  mgr_ok (tab s) /\ enabled s = true /\ ctx_of (tab s) fd = Some l /\ type_ l = 1 /\ has O_NONBLOCK (user_flag l) = false.

Lemma blocking_found fd l type s : blocking_socket fd l s -> type = 0 \/ type = 1 -> lp_of fuel fd type s = Done (Some l, s).
Proof.
  intros (Hm & _ & Hc & Ht & _) Htype. rewrite (lp_of_found fd type l) by done. unfold FdCtx.select. rewrite Ht.
  by destruct Htype as [->| ->].
Qed.

(** The hooks are on, and the context is found. *)
Ltac start_hook Hb :=
  match type of Hb with blocking_socket ?fd ?l ?s =>
    rewrite (bind_done is_enable_sys_hook _ s true s) by (unfold is_enable_sys_hook; by destruct Hb as (_ & -> & _));
    cbv zeta; cbn [negb];
    first [ rewrite (bind_done _ _ _ _ _ (blocking_found fd l 0 s Hb (or_introl eq_refl)))
          | rewrite (bind_done _ _ _ _ _ (blocking_found fd l 1 s Hb (or_intror eq_refl))) ];
    unfold blocking; rewrite (proj2 (proj2 (proj2 (proj2 Hb))))
  end.

(** After the first try: the answer, or the poll [w]. *)
Lemma tried c fd ev t timed s (w : M K Z) (k : Z -> Z -> M K Z) :
  waits_for c <> None ->
  (forall ret e, k ret e = if 0 <=? ret then mret ret else if negb (e =? EAGAIN) then mret ret else w) ->
  (forall s1, unserved true c s s1 -> tab s1 = tab s -> exists r s', w s1 = Done (r, s') /\ served true c fd ev t timed s r s') ->
  exists r s', (ret ← sys kernel c; e ← get_errno; k ret e) s = Done (r, s') /\ served true c fd ev t timed s r s'.
Proof.
  intros Hw Hk Hcont. destruct (first_try c s Hw) as (r & s1 & E & Ht & H). rewrite (bind_done _ _ _ _ _ E).
  rewrite (bind_done get_errno _ s1 (errno s1) s1) by done. rewrite Hk.
  destruct (0 <=? r); cbn [orb] in H; [by exists r, s1|]. destruct (negb (errno s1 =? EAGAIN)); [by exists r, s1|].
  destruct H as [-> Hu]. by apply Hcont.
Qed.


(** read's test for EAGAIN is true of every error. *)
Lemma read_is_sys fd l b n s : blocking_socket fd l s -> read kernel co_poll disk fuel fd b n s = sys kernel (Cread fd b n) s.
Proof.
  intros Hb. pose proof Hb as (_ & _ & _ & Hty & _). unfold read. start_hook Hb. rewrite Hty. change (1 =? 2) with false. cbv iota.
  destruct (sys kernel (Cread fd b n) s) as [[r s1]| |] eqn:E; try (by rewrite sys_done in E). rewrite (bind_done _ _ _ _ _ E).
  rewrite (bind_done get_errno _ s1 (errno s1) s1) by done. destruct (0 <=? r); [done|].
  destruct (Z.eqb_spec (errno s1) EAGAIN) as [->|]; done.
Qed.

(** Read and send are exceptions.  read of a blocking socket is the system
    call: its test for EAGAIN is true of every error, so it never polls, and the
    caller gets the EAGAIN.  send polls after an EAGAIN and sends again, but then
    returns the result of the first call: -1 with errno EAGAIN, although the
    second call may have sent the data. *)
Theorem read_and_send_exceptions fd l b n flags s :
  blocking_socket fd l s -> has MSG_DONTWAIT flags = false ->
  read kernel co_poll disk fuel fd b n s = sys kernel (Cread fd b n) s /\
  let c := Csend fd b n (Z.lor flags MSG_NOSIGNAL) in
  forall s1 r1 rev s2 sent s3,
    sys kernel c s = Done (-1, s1) -> errno s1 = EAGAIN ->
    co_poll [Pollfd fd out_events 0] (snd_timeout l) s1 = Done ((r1, [Pollfd fd out_events rev]), s2) -> 0 < r1 ->
    has POLLERR rev = false -> has POLLHUP rev = false -> sys kernel c s2 = Done (sent, s3) ->
    send kernel co_poll fuel fd b n flags s = Done (-1, s3).
Proof.
  intros Hb Hd. pose proof Hb as (Hm & _ & Hc & Hty & _). split; [by apply (read_is_sys fd l)|].
  intros c s1 r1 rev s2 sent s3 E1 He Ep Hpos Herr Hhup E2. unfold send. start_hook Hb. rewrite dontwait, Hd. fold c.
  rewrite (bind_done _ _ _ _ _ E1), (bind_done get_errno _ s1 (errno s1) s1) by done. rewrite He. change ((-1 =? -1) && (EAGAIN =? EAGAIN)) with true. cbv iota.
  unfold wait_then, poll1. rewrite (bind_done _ _ _ (r1, rev) s2) by (by rewrite (bind_done _ _ _ _ _ Ep)). cbn [fst snd].
  rewrite (proj2 (Z.eqb_neq _ _)), (proj2 (Z.ltb_ge _ _)), Herr, Hhup by lia. by rewrite (bind_done _ _ _ _ _ E2).
Qed.

(** The hook of a system call for a descriptor that must not wait. *)
Definition pass_hooks fd (b n flags a al : Z) : list (M K Z * call) :=
  [ (read kernel co_poll disk fuel fd b n, Cread fd b n);
    (write kernel co_poll disk fuel fd b n, Cwrite fd b n);
    (writev kernel co_poll disk fuel fd b n, Cwritev fd b n);
    (readv kernel co_poll disk fuel fd b n, Creadv fd b n);
    (send kernel co_poll fuel fd b n flags, Csend fd b n (Z.lor flags MSG_NOSIGNAL));
    (sendto kernel co_poll fuel fd b n flags a al, Csendto fd b n (Z.lor flags MSG_NOSIGNAL) a al);
    (recvfrom kernel co_poll fuel fd b n flags a al, Crecvfrom fd b n flags a al);
    (recv kernel co_poll fuel fd b n flags, Crecv fd b n flags) ].

(** The states of a caller that differ in the allocation of the table alone. *)
Definition same_ctxs s s' : Prop :=
  (forall i, ctx_of (tab s') i = ctx_of (tab s) i) /\ errno s' = errno s /\ enabled s' = enabled s /\ kst s' = kst s.

(** The context of a descriptor whose calls pass through. *)
Definition passes (o : option fd_ctx_t) : Prop := match o with Some l => has O_NONBLOCK (user_flag l) = true | None => True end.

Lemma pass_found fd type s : mgr_ok (tab s) -> 0 <= fd -> fd + 10001 < 2 ^ 31 -> (fuel_for fd <= fuel)%nat -> passes (ctx_of (tab s) fd) ->
  exists o s1, lp_of fuel fd type s = Done (o, s1) /\ blocking o = None /\ same_ctxs s s1.
Proof.
  intros Hm Hfd Hb Hf Hp. destruct (get_fd_ctx_ok fuel fd type (tab s) Hm Hfd Hb Hf) as (m' & E & _ & Hctx).
  unfold lp_of. rewrite E, outcome_bind_ret. eexists _, _. split; [done|]. split; [|done].
  unfold FdCtx.select. destruct (ctx_of (tab s) fd) as [l|]; [|done]. destruct (_ || _); [|done]. cbn. by rewrite Hp.
Qed.

(** C14: where a call must not wait, its hook is a system call: with the hooks
    off, the hooks of read, write, readv, writev, recv and recvfrom equal the system
    calls, and those of send and sendto the calls with MSG_NOSIGNAL added to the flags,
    so that a broken pipe gives EPIPE without the signal; on a descriptor without
    context, or which its user made non-blocking, they give the same result and errno
    as these, and leave the same kernel and the same contexts (the table may grow). *)
Theorem hooks_transparent fd b n flags a al s :
  (enabled s = false ->
    Forall (fun h => h.1 s = sys kernel h.2 s) (pass_hooks fd b n flags a al)) /\
  (mgr_ok (tab s) -> 0 <= fd -> fd + 10001 < 2 ^ 31 -> (fuel_for fd <= fuel)%nat -> enabled s = true -> passes (ctx_of (tab s) fd) ->
    Forall (fun h => exists s1, same_ctxs s s1 /\ h.1 s = sys kernel h.2 s1) (pass_hooks fd b n flags a al)).
Proof.
  assert (Hen : forall {B} (k : bool -> M K B), (en ← is_enable_sys_hook; k en) s = k (enabled s) s) by done. split.
  - intros He. repeat (apply List.Forall_cons; [|]); [..|apply List.Forall_nil]; cbn [fst snd];
      unfold read, write, writev, readv, send, sendto, recvfrom, recv; cbv zeta; by rewrite Hen, He.
  - intros Hm Hfd Hb Hf He Hp.
    destruct (pass_found fd 0 s Hm Hfd Hb Hf Hp) as (o0 & s0 & E0 & Hb0 & Hs0).
    destruct (pass_found fd 1 s Hm Hfd Hb Hf Hp) as (o1 & s1 & E1 & Hb1 & Hs1).
    repeat (apply List.Forall_cons; [|]); [..|apply List.Forall_nil]; cbn [fst snd];
      unfold read, write, writev, readv, send, sendto, recvfrom, recv; cbv zeta; rewrite Hen, He; cbn [negb];
      first [ exists s0; rewrite (bind_done _ _ _ _ _ E0), Hb0; done
            | exists s1; rewrite (bind_done _ _ _ _ _ E1), Hb1; destruct (has MSG_DONTWAIT _); done ].
Qed.
End io.

(** ** A kernel with one byte stream that becomes ready when it is polled *)
Definition toy_kernel (c : call) (k : bool) : Z * Z * bool := if k then (5, 0, k) else (-1, EAGAIN, k).
Definition toy_poll (fds : list pollfd) (_ : Z) : M bool (Z * list pollfd) := fun s =>
  match fds with
  | [f] => let rev := Z.land (pevents f) (Z.lor POLLIN POLLOUT) in
           Done ((if rev =? 0 then 0 else 1, [Pollfd (pfd f) (pevents f) rev]), Hst (tab s) (errno s) (enabled s) true)
  | _ => Fault
  end.

#[export] Instance toy_poller : Poller toy_kernel toy_poll.
Proof.
  split.
  - intros c k _. destruct k; cbn; lia.
  - intros fd ev t s Hm Hc. unfold toy_poll. cbn [pfd pevents]. set (rev := Z.land ev (Z.lor POLLIN POLLOUT)).
    eexists _, rev, _. split; [reflexivity|]. cbn [tab kst]. split_and!; [done|done|]. intros Hn. split.
    + intros E. by rewrite E in Hn.
    + subst rev. apply Z.bits_inj'. intros i Hi. rewrite !Z.land_spec, !Z.lor_spec. by destruct (Z.testbit ev i), (Z.testbit POLLIN i), (Z.testbit POLLOUT i).
Defined.

Definition toy_ctx : fd_ctx_t := FdCtx 1 3 0 0 1000 1000 2.
Definition toy_state (fl : Z) (ready : bool) : hst bool :=
  Hst (Mgr [None; None; None; Some (FdCtx 1 3 fl 0 1000 1000 2); None] 4) 0 true ready.

Lemma toy_blocking : blocking_socket 3 toy_ctx (toy_state 0 false).
Proof. split_and!; try done. Qed.


(** A poll may announce what another process has read meanwhile, or a datagram with a
    wrong checksum.  The call after the poll fails with EAGAIN, and so does the hooked
    recv of a socket that its user takes for a blocking one. *)
Theorem spurious_readiness :
  recv (fun _ k => (-1, EAGAIN, k)) toy_poll 5 3 64 10 0 (toy_state 0 false) = Done (-1, Hst (tab (toy_state 0 false)) EAGAIN true true).
Proof. vm_compute. reflexivity. Qed.

Lemma read_and_send_exceptions_witness :
  send toy_kernel toy_poll 5 3 64 10 0 (toy_state 0 false) = Done (-1, Hst (tab (toy_state 0 false)) EAGAIN true true).
Proof.
  destruct (read_and_send_exceptions toy_kernel toy_poll (fun _ => None) 5 3 toy_ctx 64 10 0 (toy_state 0 false) toy_blocking) as [_ H]; [done|].
  by eapply H.
Defined.

Lemma hooks_transparent_witness :
  Forall (fun h => exists s1, same_ctxs (toy_state O_NONBLOCK false) s1 /\ h.1 (toy_state O_NONBLOCK false) = sys toy_kernel h.2 s1)
    (pass_hooks toy_kernel toy_poll (fun _ => None) 5 3 64 10 0 0 0).
Proof.
  apply (hooks_transparent toy_kernel toy_poll (fun _ => None) 5 3 64 10 0 0 0 (toy_state O_NONBLOCK false)); try done.
  vm_compute. lia.
Defined.
