(* ===== verification/HookFd.v ===== *)
(** * The calls that make, duplicate, set and close descriptors (core/src/network_hook.cpp)

    While the hooks are on, every descriptor with a socket context is non-blocking
    for the kernel, and every descriptor of the same open file has a context too;
    yet fcntl shows the user the flags that an unhooked kernel would keep.  The
    kernel is a parameter with the behaviour of the interface [Descriptors]; what
    runs while a call waits keeps the invariant by hypothesis. *)
From stdpp Require Import functions.
From S2P Require Import Prelude Words FdCtx Net NetHook HookIo.

(** ** The kernel's descriptors *)

(** A descriptor refers to an open file, whose status flags all its descriptors
    share; F_SETFL changes the settable ones. *)
Definition merge (settable old a : Z) : Z := Z.lor (Z.land old (Z.lnot settable)) (Z.land a settable).

Section effect.
Context {K : Type} (file : K -> Z -> option Z) (status : K -> Z -> Z) (settable limit : Z).

Definition same_files (k k' : K) : Prop := (forall i, file k' i = file k i) /\ forall o, status k' o = status k o.
Definition made_file (r : Z) (k k' : K) (P : Z -> Prop) : Prop := 0 <= r < limit /\ file k r = None /\
  exists o, (forall i, file k i <> Some o) /\ (forall i, file k' i = if bool_decide (i = r) then Some o else file k i) /\
    (forall o', o' <> o -> status k' o' = status k o') /\ P (status k' o).
Definition shared_file (old r : Z) (k k' : K) : Prop := 0 <= r < limit /\ file k old <> None /\
  (forall i, file k' i = if bool_decide (i = r) then file k old else file k i) /\ forall o, status k' o = status k o.

(** What a system call does to the descriptors and flags. *)
Definition effect (c : call) (k : K) (r : Z) (k' : K) : Prop :=
  match c with
  | Csocket _ _ _ | Caccept _ _ _ | Ceventfd _ _ => (r < 0 /\ same_files k k') \/ made_file r k k' (fun _ => True)
  | Caccept4 _ _ _ flags => (r < 0 /\ same_files k k') \/ made_file r k k' (fun f => has O_NONBLOCK flags = true -> has O_NONBLOCK f = true)
  | Cdup old => (r < 0 /\ same_files k k') \/ (file k r = None /\ shared_file old r k k')
  | Cdup2 old newfd | Cdup3 old newfd _ => (r < 0 /\ same_files k k') \/ (r = newfd /\ shared_file old r k k')
  | Cclose fd => (forall i, file k' i = if bool_decide (i = fd) then None else file k i) /\ forall o, status k' o = status k o
  | Cfcntl fd cmd a =>
      if cmd =? F_SETFL then
        match file k fd with
        | None => r < 0 /\ same_files k k'
        | Some o => r = 0 /\ (forall i, file k' i = file k i) /\
            forall o', status k' o' = if bool_decide (o' = o) then merge settable (status k o) a else status k o'
        end
      else same_files k k' /\ (cmd = F_GETFL -> match file k fd with Some o => r = status k o | None => r < 0 end)
  | _ => same_files k k'
  end.
End effect.

(** A kernel whose descriptors are below [limit]. *)
Class Descriptors {K} (kernel : call -> K -> Z * Z * K) (limit : Z) := {
  file : K -> Z -> option Z;
  status : K -> Z -> Z;
  settable : Z;
  nonblock_settable : Z.land settable O_NONBLOCK = O_NONBLOCK;
  kernel_effect c k : effect file status settable limit c k (kernel c k).1.1 (kernel c k).2 }.

(** A run that returns, with a postcondition. *)
Definition yields {K A} (m : M K A) (s : hst K) (Q : A -> hst K -> Prop) : Prop := exists a s', m s = Done (a, s') /\ Q a s'.

Lemma yields_bind {K A B} (m : M K A) (f : A -> M K B) s Q R :
  yields m s Q -> (forall a s', Q a s' -> yields (f a) s' R) -> yields (m ≫= f) s R.
Proof. intros (a & s' & E & HQ) Hf. destruct (Hf a s' HQ) as (b & s2 & E2 & HR). exists b, s2. by rewrite (bind_done _ _ _ _ _ E). Qed.

Lemma yields_ret {K A} (a : A) (s : hst K) (Q : A -> hst K -> Prop) : Q a s -> yields (mret a) s Q.
Proof. intros H. by exists a, s. Qed.

Lemma yields_weaken {K A} (m : M K A) s (Q R : A -> hst K -> Prop) : yields m s Q -> (forall a s', Q a s' -> R a s') -> yields m s R.
Proof. intros (a & s' & E & H) HR. exists a, s'. auto. Qed.

Lemma has_merge S old a : Z.land S O_NONBLOCK = O_NONBLOCK -> has O_NONBLOCK (merge S old a) = has O_NONBLOCK a.
Proof.
  intros HS. unfold has, merge. rewrite Z.land_lor_distr_l, <-!Z.land_assoc, HS.
  replace (Z.land (Z.lnot S) O_NONBLOCK) with 0; [by rewrite Z.land_0_r, Z.lor_0_l|].
  rewrite <-HS at 1. rewrite Z.land_assoc, (Z.land_comm _ S), Z.land_lnot_diag, Z.land_0_l. done.
Qed.

Lemma has_or x : has O_NONBLOCK (Z.lor x O_NONBLOCK) = true.
Proof. rewrite Z.lor_comm. unfold has. rewrite Z.land_lor_distr_l. change (Z.land O_NONBLOCK O_NONBLOCK) with O_NONBLOCK.
  rewrite (proj2 (Z.eqb_neq _ _)); [done|]. by intros [E _]%Z.lor_eq_0_iff. Qed.

(** ** The invariant *)
Section fds.
Context {K : Type} (kernel : call -> K -> Z * Z * K) (co_poll : list pollfd -> Z -> M K (Z * list pollfd)).
Context (close_fd_notify_poll : Z -> M K unit) (fuel : nat) (limit : Z) `{D : !Descriptors kernel limit}.
Implicit Types (s : hst K) (fd : Z).

(** A descriptor with a socket context. *)
Definition managed s fd : Prop := exists l, ctx_of (tab s) fd = Some l /\ type_ l = 1.

(** The invariant, but for the descriptors [X]. *)
Definition inv_but (X : Z -> Prop) s : Prop := mgr_ok (tab s) /\ enabled s = true /\
  forall fd, managed s fd -> X fd \/ exists o, file (kst s) fd = Some o /\ has O_NONBLOCK (status (kst s) o) = true /\
    forall j, file (kst s) j = Some o -> X j \/ managed s j.
Definition inv : hst K -> Prop := inv_but (fun _ => False).

(** The same contexts, as far as the invariant goes. *)
Definition alike s s' : Prop := mgr_ok (tab s') /\ enabled s' = enabled s /\ kst s' = kst s /\ forall i, managed s' i <-> managed s i.

Lemma inv_alike X s s' : alike s s' -> inv_but X s -> inv_but X s'.
Proof.
  intros (Hm' & He & Hk & Hi) (_ & Hen & H). split_and!; [done|congruence|]. intros fd Hfd. rewrite Hk.
  destruct (H fd (proj1 (Hi fd) Hfd)) as [?|(o & Ho & Hn & Hj)]; [by left|]. right. exists o. split_and!; [done|done|].
  intros j Hjo. destruct (Hj j Hjo) as [?|?]; [by left|right; by apply Hi].
Qed.

Lemma managed_ctxs s s' : (forall i, ctx_of (tab s') i = ctx_of (tab s) i) -> forall i, managed s' i <-> managed s i.
Proof. intros H i. unfold managed. by rewrite H. Qed.

Lemma alike_trans s1 s2 s3 : alike s1 s2 -> alike s2 s3 -> alike s1 s3.
Proof.
  intros (_ & He & Hk & Hi) (Hm' & He' & Hk' & Hi'). split_and!; [done|congruence|congruence|]. intros i. by rewrite Hi', Hi.
Qed.

Section room.
Hypotheses (Hlimit : limit + 10001 < 2 ^ 31) (Hfuel : (fuel_for limit <= fuel)%nat).

Lemma fuel_below fd : fd < limit -> (fuel_for fd <= fuel)%nat.
Proof.
  intros H. etrans; [|exact Hfuel]. unfold fuel_for. pose proof (Z.div_le_mono (fd + 1) (limit + 1) 10000). lia.
Qed.

Lemma lp_of_yields fd s : mgr_ok (tab s) -> fd < limit ->
  yields (lp_of fuel fd 1) s (fun o s' => alike s s' /\ (forall i, ctx_of (tab s') i = ctx_of (tab s) i) /\
    match o with Some l => ctx_of (tab s) fd = Some l /\ type_ l = 1 | None => ~ managed s fd end).
Proof.
  intros Hm Hfd. unfold yields, lp_of. destruct (Z.ltb_spec fd 0) as [Hneg|Hpos].
  - unfold get_fd_ctx. rewrite (proj2 (Z.ltb_lt fd 0)), outcome_bind_ret by done. eexists _, _. split; [done|]. split_and!; try done.
    intros (l & Hl & _). unfold ctx_of in Hl. by rewrite (proj2 (Z.leb_gt 0 fd)) in Hl.
  - destruct (get_fd_ctx_ok fuel fd 1 (tab s) Hm Hpos ltac:(lia) (fuel_below fd Hfd)) as (m' & -> & Hm' & Hctx).
    rewrite outcome_bind_ret. eexists _, _. split; [done|]. split; [|split; [done|]].
    + split_and!; [done..|]. by apply managed_ctxs.
    + unfold managed. destruct (ctx_of (tab s) fd) as [l|]; cbn; [|naive_solver].
      destruct (Z.eqb_spec (type_ l) 1); naive_solver.
Qed.

Lemma set_lp_yields fd f s : mgr_ok (tab s) -> managed s fd -> (forall l, type_ (f l) = type_ l) ->
  yields (set_lp fd f) s (fun _ s' => alike s s').
Proof.
  intros Hm (l & Hl & Ht) Hf.
  assert (Hfd : 0 <= fd < size (tab s)).
  { unfold ctx_of in Hl. destruct (Z.leb_spec 0 fd); [|done]. destruct (Z.ltb_spec fd (size (tab s))); done. }
  destruct (set_slot_ok (tab s) fd (Some (f l)) Hm Hfd) as (m & Em & Hm' & _ & _ & Hctx).
  unfold yields, set_lp. rewrite slot_ok, outcome_bind_ret, Hl by done. cbn [of_option]. rewrite outcome_bind_ret, Em.
  eexists _, _. split; [done|]. split_and!; [done..|]. intros i. unfold managed. cbn [tab]. rewrite Hctx.
  case_bool_decide as Hi; [|done]. subst i. rewrite Hl. split; intros _; eexists; (split; [done|]); by rewrite ?Hf.
Qed.

(** alloc_fd_ctx2 of a descriptor whose open file has no unmanaged descriptors. *)
Lemma alloc_yields fd nb s o : inv_but (eq fd) s -> 0 <= fd < limit -> file (kst s) fd = Some o ->
  (nb = true -> has O_NONBLOCK (status (kst s) o) = true) -> (forall j, file (kst s) j = Some o -> j = fd \/ managed s j) ->
  yields (alloc_lp kernel fuel fd 1 nb) s (fun _ s' => inv s' /\ (forall i, file (kst s') i = file (kst s) i) /\
    forall i, managed s' i <-> i = fd \/ managed s i).
Proof.
  intros (Hm & Hen & Hinv) Hfd Ho Hnb Hsh. destruct s as [m e en k]. cbn [tab errno enabled kst] in *.
  destruct (alloc_fd_ctx2_ok (kernel_fcntl kernel) fuel fd 1 nb m (k, e) Hm ltac:(lia) ltac:(lia) (fuel_below fd ltac:(lia)))
    as (m' & k' & E & Hm' & Hk' & Hctx).
  destruct k' as [k' e'].
  assert (Hk2 : (forall i, file k' i = file k i) /\ (forall o', o' <> o -> has O_NONBLOCK (status k' o') = has O_NONBLOCK (status k o')) /\
      has O_NONBLOCK (status k' o) = true).
  { destruct nb; [by injection Hk' as -> ->; auto|]. unfold kernel_fcntl in Hk'. cbn [fst snd] in Hk'.
    pose proof (kernel_effect (Cfcntl fd F_GETFL 0) k) as H1. destruct (kernel (Cfcntl fd F_GETFL 0) k) as [[r1 e1] k1]. cbn in H1, Hk'.
    destruct H1 as [[Hf1 Hs1] _].
    pose proof (kernel_effect (Cfcntl fd F_SETFL (Z.lor r1 O_NONBLOCK)) k1) as H2.
    destruct (kernel (Cfcntl fd F_SETFL (Z.lor r1 O_NONBLOCK)) k1) as [[r2 e2] k2]. cbn in H2, Hk'. injection Hk' as -> _.
    rewrite Hf1, Ho in H2. destruct H2 as (_ & Hf2 & Hs2). split_and!.
    - intros i. by rewrite Hf2.
    - intros o' Hne. by rewrite Hs2, bool_decide_false, Hs1.
    - rewrite Hs2, bool_decide_true by done. rewrite has_merge by apply nonblock_settable. apply has_or. }
  unfold yields, alloc_lp. cbn [tab kst errno enabled]. rewrite E, outcome_bind_ret. eexists _, _. split; [done|].
  destruct Hk2 as (Hf & Hs & Hn).
  assert (Hman : forall i, managed (Hst m' e' en k') i <-> i = fd \/ managed (Hst m e en k) i).
  { intros i. unfold managed. cbn [tab]. rewrite Hctx. case_bool_decide; subst; [|naive_solver].
    split; [by left|]. intros _. by eexists. }
  split_and!; [|done|done]. split_and!; [done|done|]. intros i Hi. right. cbn [kst].
  apply Hman in Hi. destruct (decide (i = fd)) as [->|Hne].
  - exists o. rewrite Hf. split_and!; [done|done|]. intros j Hj. rewrite Hf in Hj. right. apply Hman. by apply Hsh.
  - destruct (Hinv i ltac:(naive_solver)) as [Hx|(o1 & Ho1 & Hn1 & Hj1)]; [congruence|]. exists o1. rewrite Hf.
    split_and!; [done| |].
    + destruct (decide (o1 = o)) as [->|]; [done|]. by rewrite Hs.
    + intros j Hj. rewrite Hf in Hj. right. apply Hman. destruct (Hj1 j Hj) as [?|?]; [left; congruence|by right].
Qed.

(** ** The operations *)

Lemma inv_weaken X s : inv s -> inv_but X s.
Proof.
  intros (Hm & He & H). split_and!; [done|done|]. intros fd Hfd. destruct (H fd Hfd) as [[]|(o & Ho & Hn & Hj)]. right. exists o.
  split_and!; [done|done|]. intros j Hjo. destruct (Hj j Hjo) as [[]|?]. by right.
Qed.

Lemma inv_same s e k : same_files file status (kst s) k -> inv s -> inv (Hst (tab s) e (enabled s) k).
Proof.
  intros [Hf Hs] (Hm & He & H). split_and!; [done|done|]. cbn [kst]. intros fd Hfd. destruct (H fd Hfd) as [[]|(o & Ho & Hn & Hj)].
  right. exists o. rewrite Hf, Hs. split_and!; [done|done|]. intros j. rewrite Hf. apply Hj.
Qed.

Lemma sys_yields c s : yields (sys kernel c) s (fun r s' => tab s' = tab s /\ enabled s' = enabled s /\
  effect file status settable limit c (kst s) r (kst s')).
Proof. unfold yields. rewrite sys_done. eexists _, _. split; [done|]. split_and!; [done|done|]. cbn [kst]. apply kernel_effect. Qed.

(** A call that leaves the descriptors alone. *)
Lemma sys_plain c s : (forall k r k', effect file status settable limit c k r k' -> same_files file status k k') -> inv s ->
  yields (sys kernel c) s (fun _ s' => inv s' /\ tab s' = tab s).
Proof.
  intros Hc Hi. apply (yields_weaken _ _ _ _ (sys_yields c s)). intros r [m e en k] (Ht & He & Heff). cbn [tab enabled kst] in *. subst m en.
  split; [|done]. eapply inv_same; [by eapply Hc|done].
Qed.

(** A call that makes a descriptor; the file of the descriptor has no other. *)
Lemma sys_made c s (P : Z -> Prop) : inv s ->
  (forall k r k', effect file status settable limit c k r k' -> (r < 0 /\ same_files file status k k') \/ made_file file status limit r k k' P) ->
  yields (sys kernel c) s (fun r s' => inv s' /\ tab s' = tab s /\ (0 <= r -> exists o, r < limit /\ file (kst s') r = Some o /\ P (status (kst s') o) /\
    forall j, file (kst s') j = Some o -> j = r)).
Proof.
  intros Hi Hc. apply (yields_weaken _ _ _ _ (sys_yields c s)). intros r [m e en k] (Ht & He & Heff). cbn [tab enabled kst] in *. subst m en.
  destruct (Hc _ _ _ Heff) as [[Hr Hs]|(Hr & Hnone & o & Hfresh & Hf & Hs & HP)].
  { split_and!; [by apply inv_same|done|lia]. }
  split_and!; [|done|].
  - destruct Hi as (Hm & He & H). split_and!; [done|done|]. intros fd Hfd. destruct (H fd Hfd) as [[]|(o1 & Ho & Hn & Hj)].
    assert (fd <> r) by congruence. assert (o1 <> o) by naive_solver. right. exists o1. cbn [kst]. rewrite Hf, bool_decide_false, Hs by done.
    split_and!; [done|done|]. intros j. rewrite Hf. case_bool_decide; [naive_solver|]. apply Hj.
  - intros _. exists o. rewrite Hf, bool_decide_true by done. split_and!; [lia|done|done|]. intros j. rewrite Hf. case_bool_decide; [done|].
    by intros E%Hfresh.
Qed.

(** Contexts for a descriptor that was just made: alloc_fd_ctx2, then an assignment. *)
Lemma made_yields r nb s o : inv s -> 0 <= r < limit -> file (kst s) r = Some o -> (nb = true -> has O_NONBLOCK (status (kst s) o) = true) ->
  (forall j, file (kst s) j = Some o -> j = r) ->
  yields (alloc_lp kernel fuel r 1 nb) s (fun _ s' => inv s' /\ (forall i, file (kst s') i = file (kst s) i) /\
    forall i, managed s' i <-> i = r \/ managed s i).
Proof. intros Hi Hr Ho Hnb Hj. apply (alloc_yields r nb s o); auto. by apply inv_weaken. Qed.

Lemma set_lp_inv fd f s : inv s -> managed s fd -> (forall l, type_ (f l) = type_ l) ->
  yields (set_lp fd f) s (fun _ s' => inv s' /\ alike s s').
Proof.
  intros Hi Hfd Hf. apply (yields_weaken _ _ _ _ (set_lp_yields fd f s (proj1 Hi) Hfd Hf)). intros _ s' Ha. split; [|done]. by eapply inv_alike.
Qed.

Lemma enabled_yields {A} (k : bool -> M K A) s Q : inv s -> yields (k true) s Q -> yields (en ← is_enable_sys_hook; k en) s Q.
Proof. intros (_ & He & _) H. unfold yields in *. rewrite (bind_done is_enable_sys_hook _ s true s); [done|]. unfold is_enable_sys_hook. by rewrite He. Qed.

Lemma managed_below fd s : inv s -> managed s fd -> 0 <= fd.
Proof. intros _ (l & Hl & _). unfold ctx_of in Hl. by destruct (Z.leb_spec 0 fd). Qed.

Lemma socket_keeps d t p s : inv s -> yields (socket kernel fuel d t p) s (fun _ s' => inv s').
Proof.
  intros Hi. unfold socket. apply enabled_yields; [done|]. cbn [negb].
  eapply yields_bind; [apply (sys_made _ _ (fun _ => True) Hi); intros k r k' H; exact H|]. intros r s1 (Hi1 & _ & Hr).
  destruct (Z.ltb_spec r 0); [by apply yields_ret|]. destruct Hr as (o & Hlt & Ho & _ & Hj); [done|].
  eapply yields_bind; [by apply (made_yields r false s1 o)|]. intros _ s2 (Hi2 & _ & Hm2).
  eapply yields_bind; [apply set_lp_inv; [done|apply Hm2; by left|done]|]. intros _ s3 [Hi3 _]. by apply yields_ret.
Qed.

(** While a call waits the other coroutines run; they keep the invariant and the
    polled descriptor, and so does what close_fd_notify_poll wakes. *)
Hypothesis poll_keeps : forall fd ev t s, inv s -> managed s fd ->
  yields (co_poll [Pollfd fd ev 0] t) s (fun r s' => (exists f, r.2 = [f]) /\ inv s' /\ managed s' fd).
Hypothesis notify_keeps : forall fd s, inv s -> yields (close_fd_notify_poll fd) s (fun _ s' => inv s').

Lemma set_errno_inv e s : inv s -> inv (Hst (tab s) e (enabled s) (kst s)).
Proof. intros H. eapply inv_alike; [|exact H]. split_and!; [by destruct H|done..]. Qed.

Lemma wait_then_keeps timed hup fd ev t again s : inv s -> managed s fd ->
  (forall s, inv s -> managed s fd -> yields again s (fun _ s' => inv s')) ->
  yields (wait_then co_poll timed hup fd ev t again) s (fun _ s' => inv s').
Proof.
  intros Hi Hm Ha. unfold wait_then, poll1.
  eapply (yields_bind _ _ _ (fun _ s' => inv s' /\ managed s' fd)).
  - eapply yields_bind; [by apply poll_keeps|]. intros r s1 ((f & ->) & H). by apply yields_ret.
  - intros r s1 [Hi1 Hm1]. destruct (r.1 =? 0).
    { destruct timed; [|by apply yields_ret]. exists (-1), (Hst (tab s1) ETIMEDOUT (enabled s1) (kst s1)). split; [done|by apply set_errno_inv]. }
    destruct (r.1 <? 0); [by apply yields_ret|]. destruct (has POLLERR r.2); [by apply yields_ret|].
    destruct (has POLLHUP r.2); [by apply yields_ret|]. by apply Ha.
Qed.

Lemma inherit_keeps fd (lp : option fd_ctx_t) r s : inv s -> (lp <> None -> managed s fd) -> managed s r ->
  yields (inherit_domain fd lp r) s (fun _ s' => inv s').
Proof.
  intros Hi Hfd Hr. unfold inherit_domain. destruct lp as [l|]; [|by apply yields_ret].
  destruct (Hfd ltac:(done)) as (l' & Hl & _).
  assert (Hb : 0 <= fd < size (tab s)).
  { unfold ctx_of in Hl. destruct (Z.leb_spec 0 fd); [|done]. destruct (Z.ltb_spec fd (size (tab s))); done. }
  eapply (yields_bind _ _ _ (fun _ s' => s' = s)).
  - exists l', s. split; [|done]. unfold lp_now. rewrite slot_ok, outcome_bind_ret, Hl by (done || by destruct Hi). done.
  - intros l2 _ ->. eapply yields_weaken; [by apply set_lp_inv|]. by intros _ s' [H _].
Qed.

(** The common start of accept and accept4, and their common end. *)
Lemma accepting_keeps fd (tail : option fd_ctx_t -> M K Z) s : fd < limit -> inv s ->
  (forall lp s, inv s -> (is_Some lp -> managed s fd) -> yields (tail lp) s (fun _ s' => inv s')) ->
  yields (lp ← lp_of fuel fd 1; match blocking lp with None => tail lp | Some _ => wait_then co_poll true (-1) fd in_events (-1) (tail lp) end)
    s (fun _ s' => inv s').
Proof.
  intros Hfd Hi Htail. eapply yields_bind; [apply lp_of_yields; [by destruct Hi|done]|]. intros lp s1 (Ha & _ & Hlp).
  assert (Hi1 : inv s1) by (by eapply inv_alike).
  assert (Hm1 : is_Some lp -> managed s1 fd) by (intros [l ->]; apply Ha; by exists l).
  destruct (blocking lp) as [l|] eqn:Eb; [|by apply Htail].
  apply wait_then_keeps; [done| |].
  - apply Hm1. by destruct lp.
  - intros s2 Hi2 Hm2. by apply Htail.
Qed.

Lemma accepted_keeps c (P : Z -> Prop) (body : Z -> M K unit) s : inv s ->
  (forall k r k', effect file status settable limit c k r k' -> (r < 0 /\ same_files file status k k') \/ made_file file status limit r k k' P) ->
  (forall r s1 o, inv s1 -> 0 <= r < limit -> file (kst s1) r = Some o -> P (status (kst s1) o) -> (forall j, file (kst s1) j = Some o -> j = r) ->
    (forall i, managed s i -> managed s1 i) -> yields (body r) s1 (fun _ s' => inv s')) ->
  yields (client_fd ← sys kernel c; _ ← (if 0 <=? client_fd then body client_fd else mret tt); mret client_fd) s (fun _ s' => inv s').
Proof.
  intros Hi Hc Hbody. eapply yields_bind; [apply (sys_made _ _ _ Hi Hc)|]. intros r s1 (Hi1 & Ht & Hr).
  eapply (yields_bind _ _ _ (fun _ s' => inv s')); [|by intros _ s' H; apply yields_ret].
  destruct (Z.leb_spec 0 r); [|by apply yields_ret]. destruct Hr as (o & Hlt & Ho & HP & Hj); [done|].
  apply (Hbody r s1 o); auto. intros i (l & Hl). exists l. by rewrite Ht.
Qed.

(** A context for the accepted descriptor, with the domain of the listening one. *)
Lemma adopt_keeps nb fd (lp : option fd_ctx_t) r s o : inv s -> 0 <= r < limit -> file (kst s) r = Some o -> (nb = true -> has O_NONBLOCK (status (kst s) o) = true) ->
  (forall j, file (kst s) j = Some o -> j = r) -> (is_Some lp -> managed s fd) ->
  yields (alloc_lp kernel fuel r 1 nb) s (fun _ s' => inv s' /\ managed s' r /\ (is_Some lp -> managed s' fd)).
Proof.
  intros Hi Hr Ho Hn Hj Hlp. eapply yields_weaken; [by apply (made_yields r nb s o)|]. intros _ s' (Hi' & _ & Hm').
  split_and!; [done|apply Hm'; by left|]. intros H. apply Hm'. right. auto.
Qed.

Lemma accept_keeps fd a n s : fd < limit -> inv s -> yields (accept kernel co_poll fuel fd a n) s (fun _ s' => inv s').
Proof.
  intros Hfd Hi. unfold accept. apply enabled_yields; [done|]. cbn [negb].
  apply (accepting_keeps fd (fun lp => client_fd ← sys kernel (Caccept fd a n);
    _ ← (if 0 <=? client_fd then _ ← alloc_lp kernel fuel client_fd 1 false; inherit_domain fd lp client_fd else mret tt); mret client_fd)); [done|done|].
  intros lp s2 Hi2 Hm2. apply (accepted_keeps _ (fun _ => True)); [done|by intros k r k' H|].
  intros r s3 o Hi3 Hr Ho _ Hj Hsub. eapply yields_bind; [apply (adopt_keeps false fd lp r s3 o); auto; done|].
  intros _ s4 (Hi4 & Hr4 & Hf4). apply inherit_keeps; [done| |done]. by destruct lp; [intros _; apply Hf4; eauto|].
Qed.

Lemma accept4_keeps mark fd a n flags s : fd < limit -> inv s -> yields (accept4_with kernel co_poll fuel mark fd a n flags) s (fun _ s' => inv s').
Proof.
  intros Hfd Hi. unfold accept4_with. apply enabled_yields; [done|]. cbn [negb].
  apply (accepting_keeps fd (fun lp => client_fd ← sys kernel (Caccept4 fd a n flags);
    _ ← (if 0 <=? client_fd then
           _ ← (if has O_NONBLOCK flags then
                  _ ← alloc_lp kernel fuel client_fd 1 true; if mark then set_lp client_fd (with_user_flag O_NONBLOCK) else mret tt
                else alloc_lp kernel fuel client_fd 1 false);
           inherit_domain fd lp client_fd
         else mret tt); mret client_fd)); [done|done|].
  intros lp s2 Hi2 Hm2. apply (accepted_keeps _ (fun f => has O_NONBLOCK flags = true -> has O_NONBLOCK f = true)); [done|by intros k r k' H|].
  intros r s3 o Hi3 Hr Ho HP Hj Hsub.
  eapply (yields_bind _ _ _ (fun _ s' => inv s' /\ managed s' r /\ (is_Some lp -> managed s' fd))).
  - destruct (has O_NONBLOCK flags); [|apply (adopt_keeps false fd lp r s3 o); auto; done].
    eapply yields_bind; [apply (adopt_keeps true fd lp r s3 o); auto|]. intros _ s4 (Hi4 & Hr4 & Hf4).
    destruct mark; [|by apply yields_ret]. eapply yields_weaken; [by apply set_lp_inv|]. intros _ s5 (Hi5 & _ & _ & _ & Ha).
    split_and!; [done|by apply Ha|]. intros H. apply Ha. auto.
  - intros _ s4 (Hi4 & Hr4 & Hf4). apply inherit_keeps; [done| |done]. by destruct lp; [intros _; apply Hf4; eauto|].
Qed.

Lemma setfl_yields fd flag s : inv s -> (managed s fd -> has O_NONBLOCK flag = true) ->
  yields (sys kernel (Cfcntl fd F_SETFL flag)) s (fun _ s' => inv s' /\ tab s' = tab s).
Proof.
  intros Hi Hflag. apply (yields_weaken _ _ _ _ (sys_yields _ s)). intros r [m e en k] (Ht & He & Heff). cbn in *. subst m en.
  split; [|done]. destruct (file (kst s) fd) as [o|] eqn:Eo; [|by destruct Heff; apply inv_same]. destruct Heff as (_ & Hf & Hs).
  destruct Hi as (Hm & Hen & H). split_and!; [done|done|]. cbn [kst]. intros i Hi. change (managed s i) in Hi.
  destruct (H i Hi) as [[]|(o1 & Ho & Hn & Hj)]. right. exists o1. rewrite Hf, Hs. split_and!; [done| |intros j; rewrite Hf; apply Hj].
  case_bool_decide; [subst o1|done]. rewrite has_merge by apply nonblock_settable. destruct (Hj fd Eo) as [[]|?]. auto.
Qed.

Lemma fcntl_depth depth fd cmd arg : cmd <> F_DUPFD -> fcntl kernel fuel depth fd cmd arg = fcntl kernel fuel O fd cmd arg.
Proof. intros H. destruct depth; [done|]. cbn [fcntl]. by rewrite (proj2 (Z.eqb_neq _ _) H). Qed.

Lemma fcntl_keeps depth fd cmd arg s : fd < limit -> cmd <> F_DUPFD -> inv s ->
  yields (fcntl kernel fuel depth fd cmd arg) s (fun _ s' => inv s').
Proof.
  intros Hfd Hcmd Hi. rewrite fcntl_depth by done. cbn [fcntl]. rewrite (proj2 (Z.eqb_neq _ _) Hcmd).
  destruct (fd <? 0); [by apply yields_ret|].
  eapply yields_bind; [apply lp_of_yields; [by destruct Hi|done]|]. intros lp s1 (Ha & _ & Hlp).
  assert (Hi1 : inv s1) by (by eapply inv_alike).
  destruct (Z.eqb_spec cmd F_GETFL) as [->|Hget]; [|destruct (Z.eqb_spec cmd F_SETFL) as [->|Hset]].
  - eapply yields_bind; [apply sys_plain; [by intros k r k' [? _]|done]|]. intros r s2 [Hi2 _].
    destruct lp as [l|]; [destruct (_ && _)|]; by apply yields_ret.
  - apply enabled_yields; [done|]. cbv zeta. eapply yields_bind.
    { apply setfl_yields; [done|]. intros Hm. destruct lp as [l|]; [apply has_or|]. by destruct Hlp; apply Ha. }
    intros r s2 [Hi2 Ht2]. eapply (yields_bind _ _ _ (fun _ s' => inv s')); [|by intros _ s' H; apply yields_ret].
    destruct lp as [l|]; [|by apply yields_ret]. destruct (0 =? r); [|by apply yields_ret].
    assert (managed s1 fd) as (l' & Hl) by (apply Ha; by exists l).
    eapply yields_weaken; [apply set_lp_inv; [done| |done]|by intros _ s' [H _]]. exists l'. by rewrite Ht2.
  - destruct (_ && _); [|by apply yields_ret].
    eapply yields_weaken; [apply sys_plain; [|done]|by intros _ s' [H _]].
    intros k r k'. cbn. rewrite (proj2 (Z.eqb_neq _ _) Hset). by intros [? _].
Qed.

Lemma eventfd_keeps i flags s : inv s -> yields (eventfd kernel fuel i flags) s (fun _ s' => inv s').
Proof.
  intros Hi. unfold eventfd. apply enabled_yields; [done|]. cbn [negb].
  eapply yields_bind; [apply (sys_made _ _ (fun _ => True) Hi); intros k r k' H; exact H|]. intros r s1 (Hi1 & _ & Hr).
  destruct (Z.ltb_spec r 0); [by apply yields_ret|]. destruct Hr as (o & Hlt & Ho & _ & Hj); [done|].
  eapply yields_bind; [by apply (made_yields r false s1 o)|]. intros _ s2 (Hi2 & _ & Hm2).
  eapply yields_bind; [apply set_lp_inv; [done|apply Hm2; by left|done]|]. intros _ s3 (Hi3 & _ & _ & _ & Hm3).
  assert (Hget : forall s, inv s -> yields (sys kernel (Cfcntl r F_GETFL 0)) s (fun _ s' => inv s')).
  { intros s' Hi'. eapply yields_weaken; [apply sys_plain; [by intros k r' k' [? _]|done]|by intros _ s'' [H' _]]. }
  eapply (yields_bind _ _ _ (fun _ s' => inv s')); [|by intros _ s' H'; apply yields_ret].
  destruct (has O_NONBLOCK flags).
  - eapply yields_bind; [apply set_lp_inv; [done|apply Hm3, Hm2; by left|done]|]. intros _ s4 [Hi4 _].
    eapply yields_bind; [by apply Hget|]. intros g s5 Hi5. by apply fcntl_keeps.
  - eapply yields_bind; [by apply Hget|]. intros g s5 Hi5. by apply fcntl_keeps.
Qed.

Lemma setsockopt_keeps fd level name v tv n s : fd < limit -> inv s -> yields (setsockopt kernel fuel fd level name v tv n) s (fun _ s' => inv s').
Proof.
  intros Hfd Hi. unfold setsockopt. cbv zeta. apply enabled_yields; [done|]. cbn [negb].
  eapply yields_bind; [apply lp_of_yields; [by destruct Hi|done]|]. intros lp s1 (Ha & _ & Hlp).
  assert (Hi1 : inv s1) by (by eapply inv_alike).
  eapply (yields_bind _ _ _ (fun _ s' => inv s')).
  - destruct lp as [l|]; [|by apply yields_ret]. assert (managed s1 fd) by (apply Ha; by exists l).
    destruct (SOL_SOCKET =? level); [|by apply yields_ret].
    destruct (_ && _); [|destruct (_ && _); [|by apply yields_ret]];
      (eapply yields_weaken; [by apply set_lp_inv|by intros _ s' [H' _]]).
  - intros _ s2 Hi2. eapply yields_weaken; [apply sys_plain; [by intros k r k' H'|done]|by intros _ s' [H' _]].
Qed.

(** free_fd_ctx of a descriptor with a context. *)
Lemma free_yields fd s X : (forall i, X i -> i = fd) -> inv_but X s -> managed s fd ->
  yields (free_lp fd) s (fun _ s' => inv_but (eq fd) s' /\ ~ managed s' fd /\ kst s' = kst s /\ forall i, i <> fd -> managed s' i <-> managed s i).
Proof.
  intros HX (Hm & He & H) (l & Hl & Ht).
  assert (Hb : 0 <= fd < size (tab s)).
  { unfold ctx_of in Hl. destruct (Z.leb_spec 0 fd); [|done]. destruct (Z.ltb_spec fd (size (tab s))); done. }
  destruct (free_fd_ctx_ok fd (tab s) Hm ltac:(lia) ltac:(lia)) as (m' & E & Hm' & Hctx).
  unfold yields, free_lp. rewrite E, outcome_bind_ret. eexists _, _. split; [done|]. cbn [snd].
  assert (Hman : forall i, managed (Hst m' (errno s) (enabled s) (kst s)) i <-> i <> fd /\ managed s i).
  { intros i. unfold managed. cbn [tab]. rewrite Hctx. case_bool_decide; [subst; split; [by intros (? & ? & _)|by intros [? _]]|]. naive_solver. }
  split_and!; [|by rewrite Hman; intros [? _]|done|intros i Hi; rewrite Hman; naive_solver].
  split_and!; [done|done|]. intros i [Hne Hi]%Hman. right. destruct (H i Hi) as [Hx|(o & Ho & Hn & Hj)]; [by apply HX in Hx|].
  exists o. split_and!; [done|done|]. intros j Hjo. destruct (decide (j = fd)); [by left|]. right. apply Hman. split; [done|].
  destruct (Hj j Hjo) as [?%HX|?]; done.
Qed.

Lemma close_keeps fd s : fd < limit -> inv s -> yields (close kernel close_fd_notify_poll fuel fd) s (fun _ s' => inv s').
Proof.
  intros Hfd Hi. unfold close. eapply yields_bind; [by apply notify_keeps|]. intros [] s0 Hi0. cbn beta in Hi0.
  apply enabled_yields; [done|]. cbn [negb]. destruct (fd <? 0); [by apply yields_ret|].
  eapply yields_bind; [apply lp_of_yields; [by destruct Hi0|done]|]. intros lp s1 (Ha & _ & Hlp).
  assert (Hi1 : inv s1) by (by eapply inv_alike).
  eapply (yields_bind _ _ _ (fun _ s' => inv_but (eq fd) s' /\ ~ managed s' fd)).
  - destruct lp as [l|]; [|apply yields_ret; split; [by apply inv_weaken|by rewrite (proj2 (proj2 (proj2 Ha)))]].
    eapply yields_weaken; [apply (free_yields fd s1 (fun _ => False)); [done|done|apply Ha; by exists l]|]. by intros _ s' (H1 & H2 & _).
  - intros _ s2 [(Hm & He & H) Hnm]. apply (yields_weaken _ _ _ _ (sys_yields _ s2)). intros r [m e en k] (Ht & Hen & Hf & Hs). cbn in *. subst m en.
    split_and!; [done|done|]. cbn [kst]. intros i Hmi. change (managed s2 i) in Hmi. destruct (H i Hmi) as [<-|(o & Ho & Hn & Hj)]; [done|].
    right. exists o. rewrite Hf, Hs. case_bool_decide; [by subst|]. split_and!; [done|done|]. intros j. rewrite Hf. case_bool_decide; [done|].
    intros Hjo. destruct (Hj j Hjo) as [<-|?]; [done|by right].
Qed.

(** After the kernel has duplicated [old] to [r]: the state but for [r]. *)
Definition duplicated (old r : Z) s : Prop := inv_but (eq r) s /\ old <> r /\ 0 <= r < limit /\
  file (kst s) old <> None /\ file (kst s) r = file (kst s) old.

Lemma shared_ok old r m e k k' : inv (Hst m e true k) -> old <> r -> shared_file file status limit old r k k' -> duplicated old r (Hst m e true k').
Proof.
  intros (Hm & _ & H) Hne (Hr & Ho & Hf & Hs). split_and!; [|done|lia|lia| |]; cbn [kst]; rewrite ?Hf.
  - split_and!; [done|done|]. intros i Hi. destruct (H i Hi) as [[]|(o & Hi' & Hn & Hj)]. cbn [kst] in *.
    destruct (decide (i = r)) as [->|Hne']; [by left|]. right. exists o. rewrite Hf, Hs, bool_decide_false by done. split_and!; [done|done|].
    intros j. rewrite Hf. case_bool_decide; [by left|]. intros Hjo. destruct (Hj j Hjo) as [[]|?]. by right.
  - by rewrite bool_decide_false.
  - by rewrite (bool_decide_true (r = r)), (bool_decide_false (old = r)).
Qed.

Lemma duplicated_ctxs old r s s' : duplicated old r s -> kst s' = kst s -> inv_but (eq r) s' -> duplicated old r s'.
Proof. intros (_ & Hne & Hr & Ho & Hf) Hk Hi. unfold duplicated. by rewrite Hk. Qed.

Lemma dup_ctx_keeps old r s : old < limit -> duplicated old r s -> ~ managed s r -> yields (dup_ctx kernel fuel old r) s (fun _ s' => inv s').
Proof.
  intros Hold Hd Hr. unfold dup_ctx. eapply yields_bind; [apply lp_of_yields; [by destruct Hd as [[]]|done]|].
  intros lp s1 (Ha & _ & Hlp). assert (Hd1 : duplicated old r s1).
  { eapply duplicated_ctxs; [done|by destruct Ha as (_ & _ & ? & _)|]. eapply inv_alike; [done|by destruct Hd]. }
  assert (Hr1 : ~ managed s1 r) by (by rewrite (proj2 (proj2 (proj2 Ha)))).
  destruct Hd1 as ((Hm & He & H) & Hne & Hrl & Ho & Hf). destruct (file (kst s1) old) as [o|] eqn:Eo; [|done].
  destruct lp as [l|].
  - assert (Hmo : managed s1 old) by (apply Ha; by exists l).
    eapply yields_bind; [apply (alloc_yields r false s1 o); [done|done|done|done|]|].
    + intros j Hj. destruct (H old Hmo) as [?|(o' & Ho' & _ & Hj')]; [done|]. assert (o' = o) as -> by congruence.
      destruct (Hj' j Hj); [by left|by right].
    + intros _ s2 (Hi2 & _ & Hm2). eapply yields_bind; [apply set_lp_inv; [done|apply Hm2; by left|done]|]. intros _ s3 [Hi3 _]. by apply yields_ret.
  - apply yields_ret. split_and!; [done|done|]. intros i Hi. destruct (H i Hi) as [<-|(o1 & Ho1 & Hn & Hj)]; [done|].
    right. exists o1. split_and!; [done|done|]. intros j Hjo. right. destruct (Hj j Hjo) as [<-|?]; [|done].
    assert (o1 = o) as -> by congruence. destruct (Hj old Eo) as [?|Hmo]; [done|]. destruct Hlp. by apply Ha.
Qed.

Lemma dup_keeps old s : old < limit -> inv s -> yields (dup kernel fuel old) s (fun _ s' => inv s').
Proof.
  intros Hold Hi. unfold dup. apply enabled_yields; [done|]. cbn [negb]. eapply yields_bind; [apply sys_yields|].
  intros r [m e en k] (Ht & He & Heff). cbn [tab enabled kst] in *. subst m en.
  destruct Heff as [[Hr Hs]|(Hnone & Hsh)].
  - rewrite (proj2 (Z.ltb_lt r 0)) by done. apply yields_ret. by apply inv_same.
  - destruct Hsh as (Hr & Hsh). rewrite (proj2 (Z.ltb_ge r 0)) by lia. destruct s as [m e' en k0]. cbn [tab enabled kst errno] in *.
    assert (en = true) as -> by (by destruct Hi as (_ & ? & _)). assert (Hne : old <> r) by (destruct Hsh; congruence).
    apply dup_ctx_keeps; [done|by apply (shared_ok old r m e k0 k)|].
    intros Hm. destruct Hi as (_ & _ & H). destruct (H r Hm) as [[]|(o & Ho & _)]. cbn [kst] in Ho. congruence.
Qed.

Lemma dup_onto_keeps c old newfd s : old < limit -> newfd < limit -> old <> newfd -> inv s ->
  (forall k r k', effect file status settable limit c k r k' -> (r < 0 /\ same_files file status k k') \/ (r = newfd /\ shared_file file status limit old r k k')) ->
  yields (dup_onto kernel fuel c old newfd) s (fun _ s' => inv s').
Proof.
  intros Hold Hnew Hne Hi Hc. unfold dup_onto. apply enabled_yields; [done|]. cbn [negb]. eapply yields_bind; [apply sys_yields|].
  intros r [m e en k] (Ht & He & Heff%Hc). cbn [tab enabled kst] in *. subst m en.
  destruct Heff as [[Hr Hs]|(-> & Hsh)].
  - rewrite (proj2 (Z.ltb_lt r 0)) by done. apply yields_ret. by apply inv_same.
  - rewrite (proj2 (Z.ltb_ge newfd 0)) by (destruct Hsh; lia). destruct s as [m e' en k0]. cbn [tab enabled kst errno] in *.
    assert (en = true) as -> by (by destruct Hi as (_ & ? & _)).
    pose proof (shared_ok old newfd m e k0 k Hi Hne Hsh) as Hd.
    eapply yields_bind; [apply lp_of_yields; [by destruct Hd as [[]]|done]|]. intros lp s1 (Ha & _ & Hlp).
    assert (Hi1 : inv_but (eq newfd) s1) by (eapply inv_alike; [done|by destruct Hd]).
    eapply (yields_bind _ _ _ (fun _ s' => inv_but (eq newfd) s' /\ ~ managed s' newfd /\ kst s' = k)).
    + destruct lp as [l|]; [|apply yields_ret; split_and!; [done|by rewrite (proj2 (proj2 (proj2 Ha)))|by destruct Ha as (_ & _ & -> & _)]].
      eapply yields_weaken; [apply (free_yields newfd s1 (eq newfd)); [done|done|apply Ha; by exists l]|].
      intros _ s' (H1 & H2 & H3 & _). split_and!; [done|done|]. rewrite H3. by destruct Ha as (_ & _ & -> & _).
    + intros _ s2 (Hi2 & Hm2 & Hk2). apply dup_ctx_keeps; [done| |done]. by eapply duplicated_ctxs.
Qed.

Inductive fd_op :=
| Osocket (domain type protocol : Z)
| Oaccept (fd addr len : Z)
| Oaccept4 (mark : bool) (fd addr len flags : Z)
| Oeventfd (initval flags : Z)
| Odup (old : Z)
| Odup2 (old newfd : Z)
| Odup3 (old newfd flags : Z)
| Oclose (fd : Z)
| Ofcntl (fd cmd arg : Z)
| Osetsockopt (fd level name value : Z) (tv : Z * Z) (len : Z).

Definition exec (op : fd_op) : M K Z :=
  match op with
  | Osocket d t p => socket kernel fuel d t p
  | Oaccept fd a n => accept kernel co_poll fuel fd a n
  | Oaccept4 mark fd a n flags => accept4_with kernel co_poll fuel mark fd a n flags
  | Oeventfd i flags => eventfd kernel fuel i flags
  | Odup old => dup kernel fuel old
  | Odup2 old newfd => dup2 kernel fuel old newfd
  | Odup3 old newfd flags => dup3 kernel fuel old newfd flags
  | Oclose fd => close kernel close_fd_notify_poll fuel fd
  | Ofcntl fd cmd arg => fcntl kernel fuel O fd cmd arg
  | Osetsockopt fd level name v tv n => setsockopt kernel fuel fd level name v tv n
  end.

(** Descriptors below the limit; not dup2 of a descriptor onto itself, which drops
    its context, nor F_DUPFD, which never returns. *)
Definition allowed (op : fd_op) : Prop :=
  match op with
  | Osocket _ _ _ | Oeventfd _ _ => True
  | Oaccept fd _ _ | Oaccept4 _ fd _ _ _ | Oclose fd | Osetsockopt fd _ _ _ _ _ => fd < limit
  | Odup old => old < limit
  | Odup2 old newfd | Odup3 old newfd _ => old < limit /\ newfd < limit /\ old <> newfd
  | Ofcntl fd cmd _ => fd < limit /\ cmd <> F_DUPFD
  end.

Fixpoint exec_all (ops : list fd_op) : M K (list Z) :=
  match ops with
  | [] => mret []
  | op :: ops => r ← exec op; rs ← exec_all ops; mret (r :: rs)
  end.

Lemma exec_keeps op s : allowed op -> inv s -> yields (exec op) s (fun _ s' => inv s').
Proof.
  intros Ha Hi. destruct op; cbn [allowed exec] in *.
  - by apply socket_keeps.
  - by apply accept_keeps.
  - by apply accept4_keeps.
  - by apply eventfd_keeps.
  - by apply dup_keeps.
  - destruct Ha as (? & ? & ?). by apply dup_onto_keeps.
  - destruct Ha as (? & ? & ?). by apply dup_onto_keeps.
  - by apply close_keeps.
  - destruct Ha as [? ?]. by apply fcntl_keeps.
  - by apply setsockopt_keeps.
Qed.

End room.

(** ** The flags that the user sees *)

Lemma has_testbit x : has O_NONBLOCK x = Z.testbit x 11.
Proof.
  unfold has. replace (Z.land x O_NONBLOCK) with (if Z.testbit x 11 then O_NONBLOCK else 0); [by destruct (Z.testbit x 11)|].
  apply Z.bits_inj'. intros i Hi. rewrite Z.land_spec. change O_NONBLOCK with (2 ^ 11). rewrite Z.pow2_bits_eqb by done.
  destruct (Z.eqb_spec 11 i) as [<-|Hne]; [rewrite andb_true_r|rewrite andb_false_r].
  - by destruct (Z.testbit x 11).
  - destruct (Z.testbit x 11); [|by rewrite Z.bits_0]. rewrite Z.pow2_bits_eqb by done. by apply Z.eqb_neq.
Qed.

Lemma nonblock_bits i : Z.testbit O_NONBLOCK i = (i =? 11).
Proof. change O_NONBLOCK with (2 ^ 11). rewrite Z.pow2_bits_eqb by done. apply Z.eqb_sym. Qed.

(** The kernel's flags are the user's with O_NONBLOCK. *)
Lemma shown_set f : has O_NONBLOCK f = true -> Z.lor f O_NONBLOCK = f.
Proof.
  rewrite has_testbit. intros H. apply Z.bits_inj'. intros i _. rewrite Z.lor_spec, nonblock_bits.
  destruct (Z.eqb_spec i 11) as [->|]; by rewrite ?H, ?orb_false_r.
Qed.

Lemma shown_clear f : has O_NONBLOCK f = false -> Z.land (Z.lor f O_NONBLOCK) (Z.lnot O_NONBLOCK) = f.
Proof.
  rewrite has_testbit. intros H. apply Z.bits_inj'. intros i Hi. rewrite Z.land_spec, Z.lor_spec, Z.lnot_spec, nonblock_bits by done.
  destruct (Z.eqb_spec i 11) as [->|]; by rewrite ?H, ?orb_false_r, ?andb_true_r, ?andb_false_r.
Qed.

Lemma merge_nonblock f a : merge settable (Z.lor f O_NONBLOCK) (Z.lor a O_NONBLOCK) = Z.lor (merge settable f a) O_NONBLOCK.
Proof.
  pose proof nonblock_settable as HS. apply Z.bits_inj'. intros i Hi. apply (f_equal (fun x => Z.testbit x i)) in HS.
  unfold merge. rewrite !Z.lor_spec, !Z.land_spec, !Z.lor_spec, Z.lnot_spec by done. rewrite Z.land_spec in HS.
  destruct (Z.testbit settable i), (Z.testbit f i), (Z.testbit a i), (Z.testbit O_NONBLOCK i); done.
Qed.

(** The state of [fd] as its user should see it: flags [f]. *)
Definition shows s fd (f : Z) : Prop := mgr_ok (tab s) /\ enabled s = true /\ exists l o,
  ctx_of (tab s) fd = Some l /\ type_ l = 1 /\ file (kst s) fd = Some o /\
  status (kst s) o = Z.lor f O_NONBLOCK /\ has O_NONBLOCK (user_flag l) = has O_NONBLOCK f.

(** F_GETFL and F_SETFL calls, hooked, and on a kernel without hooks. *)
Fixpoint hooked_flags fd (ops : list (option Z)) : M K (list Z) :=
  match ops with
  | [] => mret []
  | op :: ops =>
      r ← (match op with None => fcntl kernel fuel O fd F_GETFL 0 | Some a => fcntl kernel fuel O fd F_SETFL a end);
      rs ← hooked_flags fd ops; mret (r :: rs)
  end.
Fixpoint plain_flags (f : Z) (ops : list (option Z)) : list Z :=
  match ops with
  | [] => []
  | None :: ops => f :: plain_flags f ops
  | Some a :: ops => 0 :: plain_flags (merge settable f a) ops
  end.

Lemma fcntl_found fd l s cmd arg : mgr_ok (tab s) -> ctx_of (tab s) fd = Some l -> type_ l = 1 -> cmd = F_GETFL \/ cmd = F_SETFL ->
  fcntl kernel fuel O fd cmd arg s = (if cmd =? F_GETFL then
      ret ← sys kernel (Cfcntl fd cmd 0);
      if negb (has O_NONBLOCK (user_flag l)) && has O_NONBLOCK ret then mret (Z.land ret (Z.lnot O_NONBLOCK)) else mret ret
    else
      en ← is_enable_sys_hook;
      ret ← sys kernel (Cfcntl fd cmd (if (en : bool) then Z.lor arg O_NONBLOCK else arg));
      _ ← (if 0 =? ret then set_lp fd (with_user_flag arg) else mret tt);
      mret ret) s.
Proof.
  intros Hm Hl Ht Hcmd. assert (0 <= fd) by (unfold ctx_of in Hl; by destruct (Z.leb_spec 0 fd)).
  cbn [fcntl]. rewrite (proj2 (Z.ltb_ge fd 0)) by done. rewrite (bind_done _ _ _ _ _ (lp_of_found fuel fd 1 l s Hm Hl)).
  unfold FdCtx.select. rewrite Ht. by destruct Hcmd as [->| ->].
Qed.

Lemma getfl_shows s fd f : shows s fd f -> yields (fcntl kernel fuel O fd F_GETFL 0) s (fun r s' => r = f /\ shows s' fd f).
Proof.
  intros (Hm & He & l & o & Hl & Ht & Ho & Hs & Hu). unfold yields. rewrite (fcntl_found fd l) by auto. cbn [Z.eqb].
  eapply yields_bind; [apply sys_yields|]. intros r s1 (Ht1 & He1 & (Hf1 & Hs1) & Hr). specialize (Hr eq_refl). rewrite Ho in Hr. subst r.
  assert (Hsh : shows s1 fd f).
  { split; [by rewrite Ht1|]. split; [congruence|]. exists l, o. by rewrite Ht1, Hf1, Hs1. }
  rewrite Hs, Hu, has_or, andb_true_r. destruct (has O_NONBLOCK f) eqn:Ef; cbn [negb]; apply yields_ret; (split; [|done]).
  - by apply shown_set.
  - by apply shown_clear.
Qed.

Lemma setfl_shows s fd f a : shows s fd f ->
  yields (fcntl kernel fuel O fd F_SETFL a) s (fun r s' => r = 0 /\ shows s' fd (merge settable f a)).
Proof.
  intros (Hm & He & l & o & Hl & Ht & Ho & Hs & Hu). unfold yields. rewrite (fcntl_found fd l) by auto.
  change (F_SETFL =? F_GETFL) with false. cbv iota.
  rewrite (bind_done is_enable_sys_hook _ s true s) by (unfold is_enable_sys_hook; by rewrite He).
  eapply yields_bind; [apply sys_yields|]. intros r s1 (Ht1 & He1 & Heff). cbn in Heff. rewrite Ho in Heff. destruct Heff as (-> & Hf1 & Hs1).
  cbn [Z.eqb]. destruct s1 as [m e en k]. cbn [tab enabled kst] in *. subst m en.
  assert (Hfd : 0 <= fd < size (tab s)).
  { unfold ctx_of in Hl. destruct (Z.leb_spec 0 fd); [|done]. destruct (Z.ltb_spec fd (size (tab s))); done. }
  destruct (set_slot_ok (tab s) fd (Some (with_user_flag a l)) Hm Hfd) as (m & Em & Hm' & _ & _ & Hctx).
  eapply (yields_bind _ _ _ (fun _ s' => s' = Hst m e (enabled s) k)).
  { eexists _, _. split; [|done]. unfold set_lp. cbn [tab]. rewrite slot_ok, outcome_bind_ret, Hl by done. cbn [of_option].
    by rewrite outcome_bind_ret, Em. }
  intros _ s' ->. apply yields_ret. split; [done|]. split_and!; [done|done|]. exists (with_user_flag a l), o. cbn [tab kst].
  rewrite Hctx, bool_decide_true, Hf1, Hs1, (bool_decide_true (o = o)) by done. split_and!; [done|done|done| |].
  - by rewrite Hs, merge_nonblock.
  - cbn. symmetry. apply has_merge, nonblock_settable.
Qed.

(** F_GETFL and F_SETFL on a descriptor with a context behave, call for call, as
    on a kernel without hooks, while the kernel's descriptor stays non-blocking
    throughout. *)
Theorem fcntl_transparent fd f ops s : shows s fd f ->
  exists s', hooked_flags fd ops s = Done (plain_flags f ops, s') /\
    exists o, file (kst s') fd = Some o /\ has O_NONBLOCK (status (kst s') o) = true.
Proof.
  revert f s. induction ops as [|[a|] ops IH]; intros f s H.
  - exists s. split; [done|]. destruct H as (_ & _ & l & o & _ & _ & Ho & Hs & _). exists o. by rewrite Hs, has_or.
  - destruct (setfl_shows s fd f a H) as (r & s1 & E & -> & H1). destruct (IH _ _ H1) as (s' & E' & Hk). exists s'. split; [|done].
    cbn [hooked_flags plain_flags]. by rewrite (bind_done _ _ _ _ _ E), (bind_done _ _ _ _ _ E').
  - destruct (getfl_shows s fd f H) as (r & s1 & E & -> & H1). destruct (IH _ _ H1) as (s' & E' & Hk). exists s'. split; [|done].
    cbn [hooked_flags plain_flags]. by rewrite (bind_done _ _ _ _ _ E), (bind_done _ _ _ _ _ E').
Qed.

(** ** Two calls that fail *)

(** F_DUPFD calls fcntl itself: however many calls are made, it has not returned. *)
Theorem fcntl_dupfd_recurses depth fd arg s : mgr_ok (tab s) -> 0 <= fd < size (tab s) -> fcntl kernel fuel depth fd F_DUPFD arg s = NoFuel.
Proof.
  intros Hm Hfd.
  assert (Hlp : exists o, lp_of fuel fd 1 s = Done (o, s)).
  { unfold lp_of, get_fd_ctx, reserve. rewrite (proj2 (Z.ltb_ge _ _)), (proj2 (Z.leb_gt _ _)) by lia.
    rewrite outcome_bind_ret, slot_ok, outcome_bind_ret by done. destruct s, (ctx_of _ fd) as [c|]; [|by eexists]. by destruct (_ =? 1); eexists. }
  destruct Hlp as (o & E). induction depth as [|depth IH]; cbn [fcntl]; rewrite (proj2 (Z.ltb_ge fd 0)), (bind_done _ _ _ _ _ E) by lia; [done|].
  change (F_DUPFD =? F_DUPFD) with true. cbv iota. unfold mbind, M_bind at 1. by rewrite IH.
Qed.

(** dup2 of a descriptor onto itself, which the kernel leaves alone, frees its
    context: its calls no longer wait, though it stays non-blocking. *)
Theorem dup2_self_loses_context fd s : limit + 10001 < 2 ^ 31 -> (fuel_for limit <= fuel)%nat -> fd < limit -> inv s -> managed s fd -> (kernel (Cdup2 fd fd) (kst s)).1.1 = fd ->
  exists s', dup2 kernel fuel fd fd s = Done (fd, s') /\ ctx_of (tab s') fd = None.
Proof.
  intros Hlimit Hfuel Hlt (Hm & He & _) (l & Hl & Ht) Hr.
  assert (Hfd : 0 <= fd < size (tab s)).
  { unfold ctx_of in Hl. destruct (Z.leb_spec 0 fd); [|done]. destruct (Z.ltb_spec fd (size (tab s))); done. }
  unfold dup2, dup_onto. rewrite (bind_done is_enable_sys_hook _ s true s) by (unfold is_enable_sys_hook; by rewrite He). cbn [negb].
  rewrite (bind_done _ _ _ _ _ (sys_done kernel _ s)), Hr, (proj2 (Z.ltb_ge fd 0)) by lia.
  set (s1 := Hst _ _ _ _). rewrite (bind_done _ _ _ _ _ (lp_of_found fuel fd 1 l s1 Hm Hl)). unfold FdCtx.select. rewrite Ht. cbn [Z.eqb orb].
  destruct (free_fd_ctx_ok fd (tab s) Hm ltac:(lia) ltac:(lia)) as (m' & E & Hm' & Hctx).
  assert (Ef : free_lp fd s1 = Done (tt, Hst m' (errno s1) (enabled s1) (kst s1))) by (unfold free_lp; cbn [tab s1]; by rewrite E).
  rewrite (bind_done _ _ _ _ _ Ef). unfold dup_ctx.
  assert (Hn : ctx_of m' fd = None) by (by rewrite Hctx, bool_decide_true).
  destruct (lp_of_yields Hlimit Hfuel fd (Hst m' (errno s1) (enabled s1) (kst s1)) Hm' Hlt) as (o & s2 & E2 & _ & Hctx2 & Ho).
  rewrite (bind_done _ _ _ _ _ E2). destruct o as [l2|]; [destruct Ho as [Ho _]; cbn [tab] in Ho; congruence|].
  exists s2. split; [done|]. by rewrite Hctx2.
Qed.
End fds.

(** ** A kernel with one descriptor

    socket opens descriptor 3, fcntl and close act on it, every other call fails.
    The state says whether it is open, and holds its flags. *)
Definition one_kernel (c : call) (k : bool * Z) : Z * Z * (bool * Z) :=
  match c with
  | Csocket _ _ _ => if k.1 then (-1, EBADF, k) else (3, 0, (true, 2))
  | Cclose fd => if fd =? 3 then (0, 0, (false, k.2)) else (-1, EBADF, k)
  | Cfcntl fd cmd a =>
      if k.1 && (fd =? 3) then
        if cmd =? F_SETFL then (0, 0, (true, merge 11264 k.2 a)) else if cmd =? F_GETFL then (k.2, 0, k) else (0, 0, k)
      else (-1, EBADF, k)
  | _ => (-1, EBADF, k)
  end.
Definition one_file (k : bool * Z) (i : Z) : option Z := if k.1 && (i =? 3) then Some 0 else None.

Definition one_status (k : bool * Z) (o : Z) : Z := if o =? 0 then k.2 else 0.

Lemma one_close fd b f : effect one_file one_status 11264 16 (Cclose fd) (b, f) (one_kernel (Cclose fd) (b, f)).1.1 (one_kernel (Cclose fd) (b, f)).2.
Proof.
  cbn. destruct (Z.eqb_spec fd 3) as [->|Hne]; cbn; (split; [|done]); intros i; unfold one_file; cbn; case_bool_decide as Hi; try done.
  - by rewrite (proj2 (Z.eqb_neq i 3)), andb_false_r.
  - by rewrite Hi, (proj2 (Z.eqb_neq fd 3)), andb_false_r.
Qed.

Lemma one_fcntl fd cmd a b f : effect one_file one_status 11264 16 (Cfcntl fd cmd a) (b, f) (one_kernel (Cfcntl fd cmd a) (b, f)).1.1 (one_kernel (Cfcntl fd cmd a) (b, f)).2.
Proof.
  assert (Hf : one_file (b, f) fd = if b && (fd =? 3) then Some 0 else None) by done.
  cbn -[same_files one_file]. rewrite Hf. destruct (b && (fd =? 3)) eqn:E.
  - apply andb_true_iff in E as [-> _]. destruct (cmd =? F_SETFL) eqn:Es; cbn -[same_files one_file].
    + split_and!; [done|done|]. intros o. unfold one_status. cbn. by destruct (Z.eqb_spec o 0), (bool_decide_reflect (o = 0)).
    + destruct (Z.eqb_spec cmd F_GETFL); cbn -[same_files one_file]; (split; [by split|]); intros ?; [done|congruence].
  - cbn -[same_files one_file]. destruct (cmd =? F_SETFL); [split; [lia|by split]|]. split; [by split|]. intros _. lia.
Qed.

#[export] Instance one_descriptors : Descriptors one_kernel 16.
Proof.
  refine {| file := one_file; status := one_status; settable := 11264 |}; [done|].
  intros c [b f]. destruct c; try apply one_close; try apply one_fcntl; cbn -[same_files made_file]; try (by split); try (left; split; [lia|by split]).
  destruct b; cbn -[same_files made_file]; [left; split; [lia|by split]|]. right. split_and!; [lia|lia|done|]. exists 0. split_and!.
  - done.
  - intros i. unfold one_file. cbn. by destruct (Z.eqb_spec i 3), (bool_decide_reflect (i = 3)).
  - intros o Ho. unfold one_status. by rewrite (proj2 (Z.eqb_neq o 0)).
  - done.
Defined.

(** A poll that times out, and no one to notify. *)
Definition no_poll (fds : list pollfd) (_ : Z) : M (bool * Z) (Z * list pollfd) := mret (0, fds).
Definition no_notify (_ : Z) : M (bool * Z) unit := mret tt.

Definition empty_state : hst (bool * Z) := Hst (Mgr (replicate 5 None) 4) 0 true (false, 0).


Definition socket_state : hst (bool * Z) := Hst (Mgr [None; None; None; Some (FdCtx 1 3 0 0 1000 1000 2)] 4) 0 true (true, 2050).

Lemma fcntl_transparent_witness :
  exists s', hooked_flags one_kernel 3 3 [None; Some 1024; None; Some 2048; None] socket_state = Done ([2; 0; 1026; 0; 2050], s').
Proof.
  destruct (fcntl_transparent one_kernel 3 16 3 2 [None; Some 1024; None; Some 2048; None] socket_state) as (s' & E & _).
  - split_and!; [done|done|]. exists (FdCtx 1 3 0 0 1000 1000 2), 0. by split_and!.
  - exists s'. exact E.
Defined.
