(* ===== verification/HookTime.v ===== *)
(** * The calls that wait for time or for sets of descriptors (core/src/network_hook.cpp)

    sleep, usleep and nanosleep turn their argument into the milliseconds of a
    poll of nothing: for how long, and where the conversion to int fails.
    epoll_wait looks once a millisecond and so terminates.  select polls the
    descriptors of its sets and returns those that are ready. *)
From S2P Require Import Prelude Words FdCtx Net NetHook HookIo.

(** ** Sleeping *)

(** Usleep and nanosleep wait for the time asked for, rounded up to a
    millisecond, and sleep for as many milliseconds as it should, but only as long
    as the number fits: usleep of the last 999 values of useconds_t waits for
    nothing, and sleep of more than 2147483 seconds polls with another timeout, a
    negative one (for ever) for the first two million of them. *)
Theorem hooked_sleep_bounds us sec nsec :
  (0 <= us < 2 ^ 32 - 999 -> us <= 1000 * usleep_ms us < us + 1000) /\
  (2 ^ 32 - 999 <= us < 2 ^ 32 -> usleep_ms us = 0) /\
  (0 <= sec < 2 ^ 32 -> (sleep_ms sec = 1000 * sec <-> sec <= 2147483)) /\
  (2147484 <= sec <= 4294967 -> sleep_ms sec < 0) /\
  (0 <= sec <= 2147482 -> 0 <= nsec < 1000000000 ->
    1000000000 * sec + nsec <= 1000000 * nanosleep_ms sec nsec < 1000000000 * sec + nsec + 1000000).
Proof.
  unfold usleep_ms, sleep_ms, nanosleep_ms. split_and!.
  - intros H. rewrite wrap_u_id by (unfold in_u; lia). pose proof (Z.div_mod (us + 999) 1000 ltac:(lia)).
    pose proof (Z.mod_pos_bound (us + 999) 1000 ltac:(lia)). rewrite wrap_s_id; unfold in_s; lia.
  - intros H. unfold wrap_u. replace (us + 999) with (us + 999 - 2 ^ 32 + 1 * 2 ^ 32) by lia. rewrite Z.mod_add, Z.mod_small by lia.
    rewrite Z.div_small by lia. done.
  - intros H. rewrite wrap_s_u by lia. split.
    + intros E. pose proof (wrap_s_range 32 (sec * 1000) ltac:(lia)) as Hr. rewrite E in Hr. unfold in_s in Hr. lia.
    + intros Hle. rewrite wrap_s_id; unfold in_s; lia.
  - intros H. rewrite wrap_s_u by lia. unfold wrap_s.
    replace (sec * 1000 + 2 ^ (32 - 1)) with (sec * 1000 + 2 ^ 31 - 2 ^ 32 + 1 * 2 ^ 32) by lia.
    rewrite Z.mod_add, Z.mod_small by lia. lia.
  - intros Hs Hn. rewrite Z.quot_div_nonneg by lia. pose proof (Z.div_mod (nsec + 999999) 1000000 ltac:(lia)).
    pose proof (Z.mod_pos_bound (nsec + 999999) 1000000 ltac:(lia)). rewrite wrap_s_id; unfold in_s; lia.
Qed.

Lemma hooked_sleep_bounds_witness : 1 <= 1000 * usleep_ms 1 < 1 + 1000 /\ sleep_ms 2147484 < 0.
Proof.
  split; [by apply (hooked_sleep_bounds 1 0 0)|].
  destruct (hooked_sleep_bounds 0 2147484 0) as (_ & _ & _ & H & _). apply H. lia.
Defined.

Section looks.
Context {K : Type} (kernel : call -> K -> Z * Z * K) (co_poll : list pollfd -> Z -> M K (Z * list pollfd)).
Implicit Types (s : hst K).

(** The state after [n] rounds of a look that finds nothing and a millisecond. *)
Inductive idle_rounds (c : call) : nat -> hst K -> hst K -> Prop :=
| idle_none s : idle_rounds c O s s
| idle_round n s s1 r s2 s3 : sys kernel c s = Done (0, s1) -> co_poll [] 1 s1 = Done (r, s2) -> idle_rounds c n s2 s3 -> idle_rounds c (S n) s s3.

(** Epoll_wait and epoll_pwait with a positive timeout return, whatever happens:
    with the result of the first look that finds something, or with 0 after
    [timeout] milliseconds and one look more. *)
Theorem epoll_loop_terminates c timeout rounds s : 0 < timeout -> timeout < Z.of_nat rounds ->
  (forall s, exists r s', co_poll [] 1 s = Done (r, s')) ->
  exists n s1 r s2, idle_rounds c n s s1 /\ Z.of_nat n <= timeout /\ sys kernel c s1 = Done (r, s2) /\
    (r = 0 -> Z.of_nat n = timeout) /\ epoll_loop kernel co_poll rounds c timeout timeout s = Done (r, s2).
Proof.
  intros Ht Hr Hp. assert (H : forall rest rounds s, 0 <= rest -> rest < Z.of_nat rounds ->
    exists n s1 r s2, idle_rounds c n s s1 /\ Z.of_nat n <= rest /\ sys kernel c s1 = Done (r, s2) /\
      (r = 0 -> Z.of_nat n = rest) /\ epoll_loop kernel co_poll rounds c timeout rest s = Done (r, s2)); [|by apply H; lia].
  clear rounds s Hr. intros rest rounds. revert rest.
  induction rounds as [|rounds IH]; intros rest s H0 Hr; [lia|]. cbn [epoll_loop]. rewrite (bind_done _ _ _ _ _ (sys_done kernel c s)).
  pose proof (sys_done kernel c s) as E. set (r := (kernel c (kst s)).1.1) in *. set (s1 := Hst _ _ _ _) in *.
  destruct (Z.eqb_spec r 0) as [Hz|Hz]; cbn [negb].
  - rewrite Hz in E. rewrite (proj2 (Z.ltb_ge timeout 0)) by lia. destruct (Z.ltb_spec 0 rest).
    + destruct (Hp s1) as (x & s2 & Ep). rewrite (bind_done _ _ _ _ _ Ep).
      destruct (IH (rest - 1) s2 ltac:(lia) ltac:(lia)) as (n & s3 & r' & s4 & Hi & Hn & E' & Hz' & El).
      exists (S n), s3, r', s4. split_and!; [by econstructor|lia|done|lia|done].
    + exists O, s, 0, s1. split_and!; [constructor|lia|done|lia|done].
  - exists O, s, r, s1. split_and!; [constructor|lia|done|lia|done].
Qed.

(** With a negative timeout the loop ends only when a look finds something. *)
Theorem epoll_loop_forever c timeout rest rounds s : timeout < 0 ->
  (forall s, (kernel c (kst s)).1.1 = 0) -> (forall s, exists r s', co_poll [] 1 s = Done (r, s')) ->
  epoll_loop kernel co_poll rounds c timeout rest s = NoFuel.
Proof.
  intros Ht Hk Hp. revert s. induction rounds as [|rounds IH]; intros s; [done|]. cbn [epoll_loop].
  rewrite (bind_done _ _ _ _ _ (sys_done kernel c s)), Hk. cbn [Z.eqb negb]. rewrite (proj2 (Z.ltb_lt timeout 0)) by done.
  set (s1 := Hst _ _ _ _). destruct (Hp s1) as (x & s2 & Ep). by rewrite (bind_done _ _ _ _ _ Ep).
Qed.
End looks.

(** A kernel in which an event comes with the third look. *)
Definition third_look (c : call) (k : Z) : Z * Z * Z := (if k =? 2 then 1 else 0, 0, k + 1).
Definition a_millisecond (fds : list pollfd) (_ : Z) : M Z (Z * list pollfd) := mret (0, fds).

Lemma epoll_loop_terminates_witness :
  epoll_loop third_look a_millisecond 11 (Cepoll_wait 5 0 1 0) 10 10 (Hst (Mgr [] 0) 0 true 0) = Done (1, Hst (Mgr [] 0) 0 true 3).
Proof.
  destruct (epoll_loop_terminates third_look a_millisecond (Cepoll_wait 5 0 1 0) 10 11 (Hst (Mgr [] 0) 0 true 0))
    as (n & s1 & r & s2 & _ & _ & _ & _ & E); [lia|lia|by intros s; eexists _, _|]. rewrite E. vm_compute in E. by injection E as <- <-.
Defined.

(** ** select *)
Section select.
Context {K : Type} (raw_select : Z -> fd_sets -> option (Z * Z) -> M K (Z * fd_sets)).
Context (co_poll : list pollfd -> Z -> M K (Z * list pollfd)).
Implicit Types (s : hst K) (F : fd_sets).

(** The descriptors that are polled, and what a poll with the answers [rev] returns. *)
Definition selected F (i : Z) : bool := isset (readfds F) i || isset (writefds F) i || isset (exceptfds F) i.
Definition answered (rev : Z -> Z) (f : pollfd) : pollfd := Pollfd (pfd f) (pevents f) (rev (pfd f)).

(** A descriptor that counts. *)
Definition counted (rev : Z -> Z) F (i : Z) : bool :=
  let f := Pollfd i 0 (rev i) in hit POLLIN f (readfds F) || hit POLLOUT f (writefds F) || hit POLLERR f (exceptfds F).

Lemma select_pfs_fds nfds F : pfd <$> select_pfs nfds F = List.filter (selected F) (seqZ 0 nfds).
Proof.
  unfold select_pfs, selected. induction (seqZ 0 nfds) as [|i l IH]; [done|]. cbn [omap list_omap List.filter].
  destruct (_ || _); cbn [fmap list_fmap]; by rewrite <-IH.
Qed.

Lemma isset_set_bit bit f o i : isset (set_bit bit f o) i = isset o i || bool_decide (i = pfd f) && hit bit f o.
Proof.
  destruct o as [X|]; cbn; [|by rewrite andb_false_r]. destruct (has bit (prevents f)).
  - rewrite andb_true_r. clear. apply eq_iff_eq_true. rewrite orb_true_iff, !bool_decide_eq_true. set_solver.
  - by rewrite andb_false_r, orb_false_r.
Qed.

Lemma hit_set_bit bit b f g o : hit bit g (set_bit b f o) = hit bit g o.
Proof. by destruct o. Qed.

(** What the loop over the results does to one set, and to the count. *)
Lemma set_bits bit rev (L : list pollfd) o i :
  isset (foldl (fun o f => set_bit bit f o) o (answered rev <$> L)) i =
    isset o i || bool_decide (i ∈ pfd <$> L) && hit bit (Pollfd i 0 (rev i)) o.
Proof.
  revert o. induction L as [|f L IH]; intros o; [by cbn; rewrite orb_false_r|].
  cbn [foldl fmap list_fmap]. rewrite IH, isset_set_bit, hit_set_bit, <-orb_assoc. f_equal. cbn [pfd answered].
  apply eq_iff_eq_true. rewrite orb_true_iff, !andb_true_iff, !bool_decide_eq_true, elem_of_cons. clear.
  split; [|by intros [[->|?] ?]; [left|right]]. intros [[-> H]|[H1 H2]]; split; auto.
Qed.

Lemma select_loop rev (L : list pollfd) c F : foldl select_step (c, F) (answered rev <$> L) =
  (c + Z.of_nat (length (List.filter (counted rev F) (pfd <$> L))),
   FdSets (foldl (fun o f => set_bit POLLIN f o) (readfds F) (answered rev <$> L)) (foldl (fun o f => set_bit POLLOUT f o) (writefds F) (answered rev <$> L))
     (foldl (fun o f => set_bit POLLERR f o) (exceptfds F) (answered rev <$> L))).
Proof.
  revert c F. induction L as [|f L IH]; intros c F; [cbn; rewrite Z.add_0_r; by destruct F|].
  cbn [foldl fmap list_fmap List.filter]. rewrite (surjective_pairing (select_step (c, F) (answered rev f))), IH.
  f_equal. rewrite (List.filter_ext (counted rev (select_step (c, F) (answered rev f)).2) (counted rev F)).
  2: { intros i. unfold counted. cbn [select_step snd readfds writefds exceptfds]. by rewrite !hit_set_bit. }
  cbn [select_step fst snd]. unfold counted at 2.
  change (hit POLLIN (Pollfd (pfd f) 0 (rev (pfd f)))) with (hit POLLIN (answered rev f)).
  change (hit POLLOUT (Pollfd (pfd f) 0 (rev (pfd f)))) with (hit POLLOUT (answered rev f)).
  change (hit POLLERR (Pollfd (pfd f) 0 (rev (pfd f)))) with (hit POLLERR (answered rev f)).
  destruct (_ || _); cbn [length]; lia.
Qed.

Lemma isset_zero o i : isset (fd_zero o) i = false.
Proof. by destruct o. Qed.

Definition zeroed F : fd_sets := FdSets (fd_zero (readfds F)) (fd_zero (writefds F)) (fd_zero (exceptfds F)).

Lemma select_polls nfds F timeout n L s s' : enabled s = true -> select_pfs nfds F <> [] ->
  co_poll (select_pfs nfds F) (select_to timeout) s = Done ((n, L), s') ->
  select raw_select co_poll nfds F timeout s = Done (if n <=? 0 then (n, F) else foldl select_step (0, zeroed F) L, s').
Proof.
  intros He Hne Ep. unfold select. rewrite (bind_done is_enable_sys_hook _ s true s) by (unfold is_enable_sys_hook; by rewrite He).
  cbn [negb]. destruct (select_pfs nfds F) as [|f l] eqn:El; [done|]. cbn [length Nat.eqb].
  rewrite (bind_done _ _ _ _ _ Ep). cbn [fst snd]. destruct (Z.leb_spec n 0).
  - destruct (Z.eqb_spec n 0) as [->|]; [done|]. by rewrite (proj2 (Z.ltb_lt n 0)) by lia.
  - by rewrite (proj2 (Z.eqb_neq n 0)), (proj2 (Z.ltb_ge n 0)) by lia.
Qed.

Lemma counted_zeroed rev F i : counted rev (zeroed F) i = counted rev F i.
Proof. unfold counted. by destruct F as [[] [] []]. Qed.

Lemma set_reported bit rev (L : list pollfd) (o : option (gset Z)) i :
  isset (foldl (fun o f => set_bit bit f o) (fd_zero o) (answered rev <$> L)) i =
    bool_decide (i ∈ pfd <$> L /\ o <> None /\ has bit (rev i) = true).
Proof.
  rewrite set_bits, isset_zero. cbn [orb]. apply eq_iff_eq_true. rewrite andb_true_iff, !bool_decide_eq_true.
  by destruct o; cbn; naive_solver.
Qed.

(** Select with the hooks on polls the descriptors below [nfds] that are in one
    of its sets, without waiting where the timeout is NULL.  If the poll reports
    none or fails, its result is returned and the sets stay; else each set that was
    given holds those polled descriptors that the poll reported as readable,
    writable or in error, whichever set they were in before, and the result is the
    number of descriptors that are in a set, not of their bits. *)
Theorem select_reports nfds F timeout rev n s s' : enabled s = true -> select_pfs nfds F <> [] ->
  co_poll (select_pfs nfds F) (select_to timeout) s = Done ((n, answered rev <$> select_pfs nfds F), s') ->
  let polled := List.filter (selected F) (seqZ 0 nfds) in
  if n <=? 0 then select raw_select co_poll nfds F timeout s = Done ((n, F), s')
  else exists F', select raw_select co_poll nfds F timeout s = Done ((Z.of_nat (length (List.filter (counted rev F) polled)), F'), s') /\
    (forall i, isset (readfds F') i = bool_decide (i ∈ polled /\ readfds F <> None /\ has POLLIN (rev i) = true)) /\
    (forall i, isset (writefds F') i = bool_decide (i ∈ polled /\ writefds F <> None /\ has POLLOUT (rev i) = true)) /\
    (forall i, isset (exceptfds F') i = bool_decide (i ∈ polled /\ exceptfds F <> None /\ has POLLERR (rev i) = true)).
Proof.
  intros He Hne Ep polled. rewrite (select_polls nfds F timeout n _ s s' He Hne Ep). destruct (n <=? 0); [done|].
  rewrite select_loop. eexists. split.
  - rewrite Z.add_0_l, select_pfs_fds, (List.filter_ext _ _ (counted_zeroed rev F)). reflexivity.
  - cbn [readfds writefds exceptfds zeroed]. unfold polled. rewrite <-select_pfs_fds. split_and!; intros i; apply set_reported.
Qed.
End select.

(** A poll that finds descriptor 4 readable and writable, and 5 in error. *)
Definition found (i : Z) : Z := if i =? 4 then 5 else if i =? 5 then POLLERR else 0.
Definition find_poll (fds : list pollfd) (_ : Z) : M unit (Z * list pollfd) := mret (2, answered found <$> fds).

Lemma select_reports_witness : exists F',
  select (fun _ F _ => mret (0, F)) find_poll 8 (FdSets (Some {[4; 6]}) (Some {[4; 5]}) (Some ∅)) None (Hst (Mgr [] 0) 0 true tt) =
    Done ((2, F'), Hst (Mgr [] 0) 0 true tt) /\ isset (exceptfds F') 5 = true /\ isset (readfds F') 6 = false.
Proof.
  destruct (select_reports (fun _ F _ => mret (0, F)) find_poll 8 (FdSets (Some {[4; 6]}) (Some {[4; 5]}) (Some ∅)) None found 2
    (Hst (Mgr [] 0) 0 true tt) (Hst (Mgr [] 0) 0 true tt)) as (F' & E & Hr & _ & Hx); [done|by vm_compute|done|].
  exists F'. split; [exact E|]. rewrite Hr, Hx. split; by vm_compute.
Defined.
