(* ===== verification/Pcond.v ===== *)
(** * core/src/pthread_hook.cpp: condition variables between coroutines

    The hooked pthread_cond_wait puts a pcond_ctx_t on the stack of the coroutine
    into the list of its condition variable and yields; a signal moves it to the
    lock-less schedule queue of its thread, whose event callback resumes it.  A
    function that yields is two ([_begin], [_end]).  The calls of different threads
    are atomic here; the timers, the event descriptor, the coroutine switches and
    the C library's calls are operations of the world. *)
From S2P Require Import Prelude CList CListStore CListIter Words Component Cells LList.

Definition EINVAL : Z := 22.
Definition ETIMEDOUT : Z := 110.

(** pcond_ctx_t, but for its links and its timer; NULL is [None]. *)
Record pcond_ctx_t (C M P : Type) := PcondCtx { co : option C; ret_timeout : Z; mgr : option M; pmgr : option P }.
Arguments PcondCtx {C M P} _ _ _ _.
Arguments co {C M P} _.
Arguments ret_timeout {C M P} _.
Arguments mgr {C M P} _.
Arguments pmgr {C M P} _.

(** The memory: the list cells ([Head m] is wait_list of the pcond_mgr_t [m],
    [Member x] wait_item of the pcond_ctx_t [x], [Local 0] notify_queue), the
    contexts, g_cond_map, the link_to_schedule of the contexts, and the head of
    pcond_schedule_queue of each pthread_mgr_t. *)
Record pcond (C M P X : Type) `{Countable M, Countable P, Countable X} := Pcond {
  pcells : heap (cell M X);
  ctxs : gmap X (pcond_ctx_t C M P);
  cond_map : gmap Z M;
  links : gmap X (option X);
  firsts : gmap P (option X) }.
Arguments Pcond {C M P X _ _ _ _ _ _} _ _ _ _ _.
Arguments pcells {C M P X _ _ _ _ _ _} _.
Arguments ctxs {C M P X _ _ _ _ _ _} _.
Arguments cond_map {C M P X _ _ _ _ _ _} _.
Arguments links {C M P X _ _ _ _ _ _} _.
Arguments firsts {C M P X _ _ _ _ _ _} _.

Section pcond.
Context {C M P X W : Type} `{Countable M, Countable P, Countable X} `{!Has (pcond C M P X) W}.
Implicit Types (x : X) (m : M) (p : P) (c : C) (q : pcond C M P X) (w : W) (cond : Z).

(** The event descriptor of a thread, the timer of a context, the mutex that the
    caller passed, conet::resume, and pthread_cond_signal, _broadcast and _destroy
    of the C library. *)
Variables (notify : P -> W -> outcome W) (set_timeout : X -> Z -> W -> outcome W) (cancel_timeout : X -> W -> outcome W).
Variables (unlock lock : Z -> W -> outcome W) (resume : C -> W -> outcome W).
Variables (sys_signal sys_broadcast sys_destroy : Z -> W -> outcome (Z * W)).

Definition pc w : pcond C M P X := get w.
Definition set_cells h q := Pcond h (ctxs q) (cond_map q) (links q) (firsts q).
Definition set_ctx x (r : pcond_ctx_t C M P) q := Pcond (pcells q) (<[x := r]> (ctxs q)) (cond_map q) (links q) (firsts q).
Definition set_map cm q := Pcond (pcells q) (ctxs q) cm (links q) (firsts q).

(** The schedule queue of a thread, and llist_add on it, which by the theorem of
    LList happens at one point. *)
Definition schedule_queue p q : outcome llist := f ← of_option (firsts q !! p); Done (LList (links q) f).
Definition set_schedule p (s : llist) q := Pcond (pcells q) (ctxs q) (cond_map q) (nodes s) (<[p := first s]> (firsts q)).
Definition llist_add x (s : llist) : outcome llist :=
  s ← LList.set_next x (first s) s; Done (LList (nodes s) (Some x)).

(** pcond_ctx_t::pcond_ctx_t; the timer and the link are not initialised. *)
Definition pcond_ctx_create x q : outcome (pcond C M P X) :=
  h ← INIT_LIST_HEAD (Member x) (<[Member x := Link None None]> (pcells q));
  Done (Pcond h (<[x := PcondCtx None 0 None None]> (ctxs q)) (cond_map q) (<[x := None]> (links q)) (firsts q)).

(** pcond_mgr_t::pcond_mgr_t at [m], and dtor with the deletion. *)
Definition pcond_mgr_create m q : outcome (pcond C M P X) :=
  h ← INIT_LIST_HEAD (Head m) (<[Head m := Link None None]> (pcells q)); Done (set_cells h q).
Definition pcond_mgr_delete m q : outcome (pcond C M P X) :=
  h ← list_del_init (Head m) (pcells q); Done (set_cells (delete (Head m) h) q).

(** add_to_pcond_schedule *)
Definition add_to_pcond_schedule p x w : outcome W :=
  e ← list_empty (Member x) (pcells (pc w));
  w ← (if negb e then
         r ← of_option (ctxs (pc w) !! x);
         _ ← of_option (mgr r);
         hoist (fun q => h ← list_del_init (Member x) (pcells q); Done (set_cells h q)) w
       else Done w);
  w ← hoist (fun q => s ← schedule_queue p q; s ← llist_add x s; Done (set_schedule p s q)) w;
  notify p w.

(** find_cond_map_can_null *)
Definition find_cond_map_can_null cond q : option M := cond_map q !! cond.

(** find_cond_map; a new pcond_mgr_t goes to [m].  No other thread runs between its
    two searches here. *)
Definition find_cond_map m cond q : outcome (M * pcond C M P X) :=
  match cond_map q !! cond with
  | Some m => Done (m, q)
  | None =>
      q ← pcond_mgr_create m q;
      match cond_map q !! cond with
      | Some old => q ← pcond_mgr_delete m q; Done (old, q)
      | None => Done (m, set_map (<[cond := m]> (cond_map q)) q)
      end
  end.

(** The common part of the two waits: [x] is the context on the stack of [c]. *)
Definition enqueue x m cond p c q : outcome (pcond C M P X) :=
  r ← of_option (ctxs q !! x);
  fq ← find_cond_map m cond q;
  let q := set_ctx x (PcondCtx (Some c) (ret_timeout r) (Some fq.1) (pmgr r)) fq.2 in
  h ← list_add_tail (Member x) (Head fq.1) (pcells q);
  let q := set_cells h q in
  r ← of_option (ctxs q !! x);
  Done (set_ctx x (PcondCtx (co r) (ret_timeout r) (mgr r) (Some p)) q).

(** if (mutex) *)
Definition with_mutex (f : Z -> W -> outcome W) (mutex : option Z) w : outcome W :=
  match mutex with Some a => f a w | None => Done w end.

(** The context goes when the function returns. *)
Definition ctx_gone x q := Pcond (delete (Member x) (pcells q)) (delete x (ctxs q)) (cond_map q) (delete x (links q)) (firsts q).

(** pthread_cond_wait of a coroutine with the hook enabled *)
Definition pthread_cond_wait_begin x m cond (mutex : option Z) p c w : outcome W :=
  w ← hoist (pcond_ctx_create x) w;
  w ← hoist (enqueue x m cond p c) w;
  with_mutex unlock mutex w.
Definition pthread_cond_wait_end x (mutex : option Z) w : outcome (Z * W) :=
  w ← with_mutex lock mutex w;
  w ← hoist (fun q => Done (ctx_gone x q)) w;
  Done (0, w).

(** proc_pthread_cond_timeout *)
Definition proc_pthread_cond_timeout x w : outcome W :=
  w ← hoist (fun q => r ← of_option (ctxs q !! x); Done (set_ctx x (PcondCtx (co r) 1 (mgr r) (pmgr r)) q)) w;
  r ← of_option (ctxs (pc w) !! x);
  p ← of_option (pmgr r);
  add_to_pcond_schedule p x w.

(** The int that set_timeout gets, for the deadline (tv_sec, tv_nsec) at the time
    [now]: the uint64_t is reset when it is less than now, and then subtracted from. *)
Definition timed_ms (sec nsec now : Z) : Z :=
  let timeout := wrap_u 64 (sec * 1000 + Z.quot nsec 1000000) in
  let timeout := if timeout <? now then 0 else timeout in
  wrap_s 32 (wrap_u 64 (timeout - now)).

(** pthread_cond_timedwait: [inr ret] if it returns before its yield. *)
Definition pthread_cond_timedwait_begin x m cond (mutex : option Z) (abstime : option (Z * Z)) (now : Z) p c w : outcome (W + Z * W) :=
  w ← hoist (pcond_ctx_create x) w;
  let wait w : outcome (W + Z * W) :=
    w ← hoist (fun q => h ← INIT_LIST_HEAD (Member x) (pcells q); Done (set_cells h q)) w;
    w ← hoist (enqueue x m cond p c) w;
    w ← with_mutex unlock mutex w;
    Done (inl w) in
  match abstime with
  | Some (sec, nsec) =>
      if (sec <=? 0) || (1000000000 <=? nsec) then w ← hoist (fun q => Done (ctx_gone x q)) w; Done (inr (EINVAL, w))
      else w ← set_timeout x (timed_ms sec nsec now) w; wait w
  | None => wait w
  end.
Definition pthread_cond_timedwait_end x (mutex : option Z) w : outcome (Z * W) :=
  w ← with_mutex lock mutex w;
  r ← of_option (ctxs (pc w) !! x);
  w ← hoist (fun q => Done (ctx_gone x q)) w;
  Done (if negb (ret_timeout r =? 0) then ETIMEDOUT else 0, w).

(** The pcond_ctx_t of a wait_item. *)
Definition ctx_of_cell (k : cell M X) : outcome X := match k with Member x => Done x | _ => Fault end.

(** pthread_cond_signal_help *)
Definition notify_body (k : cell M X) (s : W * Z) : outcome (bool * (W * Z)) :=
  x ← ctx_of_cell k;
  r ← of_option (ctxs (pc s.1) !! x);
  p ← of_option (pmgr r);
  w ← add_to_pcond_schedule p x s.1;
  Done (false, (w, s.2 + 1)).
Definition cells_of (s : W * Z) : heap (cell M X) := pcells (pc s.1).

Definition pthread_cond_signal_help (fuel : nat) cond (only_one : bool) w : outcome (Z * W) :=
  match find_cond_map_can_null cond (pc w) with
  | None => Done (0, w)
  | Some m =>
      e ← list_empty (Head m) (pcells (pc w));
      if (e : bool) then Done (0, w)
      else
        w ← hoist (fun q => h ← LIST_HEAD (Local 0) (pcells q); Done (set_cells h q)) w;
        w ← hoist (fun q =>
              h ← (if only_one then
                     r ← list_pop_head (Head m) (pcells q); k ← of_option r.1; list_add_tail k (Local 0) r.2
                   else
                     h ← list_add_tail (Head m) (Local 0) (pcells q); list_del_init (Head m) h);
              Done (set_cells h q)) w;
        s ← list_for_each_safe cells_of (Local 0) notify_body fuel (w, 0);
        w ← hoist (fun q => Done (set_cells (delete (Local 0) (pcells q)) q)) s.1;
        Done (s.2, w)
  end.

Definition pthread_cond_signal (fuel : nat) cond w : outcome (Z * W) :=
  r ← pthread_cond_signal_help fuel cond true w;
  if r.1 =? 0 then sys_signal cond r.2 else Done (0, r.2).
Definition pthread_cond_broadcast (fuel : nat) cond w : outcome (Z * W) :=
  r ← pthread_cond_signal_help fuel cond false w; sys_broadcast cond r.2.

Definition pthread_cond_destroy cond w : outcome (Z * W) :=
  w ← match find_cond_map_can_null cond (pc w) with
      | Some m => w ← hoist (fun q => Done (set_map (delete cond (cond_map q)) q)) w; hoist (pcond_mgr_delete m) w
      | None => Done w
      end;
  sys_destroy cond w.

(** What the loop of pcond_event_cb starts from: the address of a context's link,
    or of the local variable [queue], which holds the first link. *)
Inductive node_ptr := LinkOf (x : X) | AddrOfQueue.

(** llist_for_each_entry_safe with the body of pcond_event_cb; an entry at an
    address that is no context's is a fault. *)
Fixpoint resume_from (fuel : nat) (pos : option node_ptr) w : outcome W :=
  match pos with
  | None => Done w
  | Some AddrOfQueue => Fault
  | Some (LinkOf x) =>
      match fuel with
      | O => NoFuel
      | S fuel =>
          next ← of_option (links (pc w) !! x);
          w ← hoist (fun q => Done (Pcond (pcells q) (ctxs q) (cond_map q) (<[x := None]> (links q)) (firsts q))) w;
          w ← cancel_timeout x w;
          r ← of_option (ctxs (pc w) !! x);
          c ← of_option (co r);
          w ← resume c w;
          resume_from fuel (LinkOf <$> next) w
      end
  end.

(** pcond_event_cb of the thread [p]: the loop is given the address of [queue]. *)
Definition pcond_event_cb (fuel : nat) p (num : Z) w : outcome W :=
  if 0 <? num then
    s ← schedule_queue p (pc w);
    if llist_empty s then Done w
    else
      let '(queue, s) := llist_del_all s in
      r ← llist_reverse_order fuel queue s;
      w ← hoist (fun q => Done (set_schedule p r.2 q)) w;
      resume_from fuel (Some AddrOfQueue) w
  else Done w.

(** ** Who waits and who is scheduled *)

(** The waiters of each pcond_mgr_t in order, the manager of each condition
    variable, the schedule queue of each thread (the newest first), the thread of
    each context, and the contexts that are in no list. *)
Record pstate := PState {
  waiting : gmap M (list X); conds : gmap Z M; scheduled : gmap P (list X); owner : gmap X P; out : list X }.
Implicit Types a : pstate.

(** A NULL-terminated chain of links. *)
Fixpoint chained (ls : gmap X (option X)) (o : option X) (l : list X) : Prop :=
  match l with
  | [] => o = None
  | x :: l => o = Some x /\ exists o', ls !! x = Some o' /\ chained ls o' l
  end.

Definition waits (w : gmap M (list X)) : list (cell M X * list X) := (fun ml => (Head ml.1, ml.2)) <$> map_to_list w.

Record pcond_ok q a : Prop := {
  po_rings : rings (pcells q) (lists_of (waits (waiting a)) (out a));
  po_local : pcells q !! Local 0 = None;
  po_map : cond_map q = conds a;
  po_conds : forall cond m, conds a !! cond = Some m -> is_Some (waiting a !! m);
  po_ctx : forall m l x, waiting a !! m = Some l -> x ∈ l -> exists c r p,
    ctxs q !! x = Some (PcondCtx (Some c) r (Some m) (Some p)) /\ owner a !! x = Some p /\ is_Some (scheduled a !! p) /\ is_Some (links q !! x);
  po_sched : forall p l, scheduled a !! p = Some l ->
    (exists f, firsts q !! p = Some f /\ chained (links q) f l) /\ forall x, x ∈ l -> x ∈ out a }.

Lemma waits_insert m l (w : gmap M (list X)) : w !! m = Some l -> waits w ≡ₚ (Head m, l) :: waits (delete m w).
Proof. intros Hm. unfold waits. by rewrite <-(map_to_list_delete w m l Hm), fmap_cons. Qed.

Lemma waits_new m l (w : gmap M (list X)) : waits (<[m := l]> w) ≡ₚ (Head m, l) :: waits (delete m w).
Proof. rewrite (waits_insert m l) by apply lookup_insert_eq. by rewrite delete_insert_eq. Qed.

Lemma sched_chain_frame ls x o f l : x ∉ l -> chained ls f l -> chained (<[x := o]> ls) f l.
Proof.
  revert f. induction l as [|y l IH]; intros f Hx; [done|]. apply not_elem_of_cons in Hx as [Hne Hx].
  intros (-> & o' & Ho & Hl). split; [done|]. exists o'. rewrite lookup_insert_ne by done. auto.
Qed.

Lemma members_perm (Ls Ls' : list (cell M X * list X)) free : Ls ≡ₚ Ls' -> members Ls free ≡ₚ members Ls' free.
Proof. intros Hp. unfold members. by rewrite Hp. Qed.

(** A waiter is in one list, and not out. *)
Lemma waiter_place q a m l1 x l2 : pcond_ok q a -> waiting a !! m = Some (l1 ++ x :: l2) ->
  (x ∉ l1 ++ l2) /\ (x ∉ out a) /\ forall m' l', waiting a !! m' = Some l' -> x ∈ l' -> m' = m.
Proof.
  clear - Has0. intros Hok Hm. pose proof (members_nodup _ _ _ (po_rings _ _ Hok)) as Hnd.
  rewrite (members_perm _ _ (out a) (waits_insert m _ _ Hm)) in Hnd. unfold members in Hnd. rewrite bind_cons in Hnd. cbn [snd] in Hnd.
  assert (Hp : l1 ++ x :: l2 ≡ₚ x :: (l1 ++ l2)) by (by rewrite Permutation_middle).
  rewrite Hp in Hnd. cbn in Hnd. apply NoDup_cons in Hnd as [Hx _]. rewrite !elem_of_app in Hx. rewrite elem_of_app. split_and!; [tauto|tauto|].
  intros m' l' Hm' Hx'. destruct (decide (m' = m)) as [|Hne]; [done|]. exfalso. apply Hx. left. right.
  apply list_elem_of_bind. exists (Head m', l'). split; [done|]. unfold waits. apply list_elem_of_fmap. exists (m', l'). split; [done|].
  apply elem_of_map_to_list. by rewrite lookup_delete_ne.
Qed.

Lemma pc_put q w : pc (put q w) = q.
Proof. apply get_put. Qed.

Lemma hoist_pc f w q : f (pc w) = Done q -> exists w', hoist f w = Done w' /\ pc w' = q.
Proof. intros E. unfold hoist. fold (pc w). rewrite E, outcome_bind_ret. eexists. split; [done|]. apply pc_put. Qed.

(** The operations of the world leave the contexts and lists alone. *)
Hypothesis notify_ok : forall p w, exists w', notify p w = Done w' /\ pc w' = pc w.
Hypothesis set_timeout_ok : forall x ms w, exists w', set_timeout x ms w = Done w' /\ pc w' = pc w.
Hypothesis unlock_ok : forall (b : Z) w, exists w', unlock b w = Done w' /\ pc w' = pc w.
Hypothesis sys_signal_ok : forall cond w, exists r w', sys_signal cond w = Done (r, w') /\ pc w' = pc w.

(** add_to_pcond_schedule of a context in the list of [k]. *)
Lemma schedule_step p x (r : pcond_ctx_t C M P) m (f : option X) w (k : cell M X) l1 l2 Ls free :
  rings (pcells (pc w)) (lists_of ((k, l1 ++ x :: l2) :: Ls) free) ->
  ctxs (pc w) !! x = Some r -> mgr r = Some m -> is_Some (links (pc w) !! x) -> firsts (pc w) !! p = Some f ->
  exists h w', add_to_pcond_schedule p x w = Done w' /\
    pc w' = Pcond h (ctxs (pc w)) (cond_map (pc w)) (<[x := f]> (links (pc w))) (<[p := Some x]> (firsts (pc w))) /\
    rings h (lists_of ((k, l1 ++ l2) :: Ls) (x :: free)) /\ same_cells (pcells (pc w)) h.
Proof.
  intros HR Hr Hm [o Ho] Hf. unfold add_to_pcond_schedule. rewrite (cells_empty_member _ _ _ _ _ _ _ HR), outcome_bind_ret.
  cbn [negb]. rewrite Hr. cbn [of_option]. rewrite outcome_bind_ret, Hm. cbn [of_option]. rewrite outcome_bind_ret.
  destruct (cells_del_init _ _ _ _ _ _ _ HR) as (h & Eh & HR' & Hs).
  destruct (hoist_pc (fun q => h ← list_del_init (Member x) (pcells q); Done (set_cells h q)) w (set_cells h (pc w))) as (w1 & E1 & Hw1);
    [by rewrite Eh|]. rewrite E1, outcome_bind_ret.
  edestruct (hoist_pc (fun q => s ← schedule_queue p q; s ← llist_add x s; Done (set_schedule p s q)) w1) as (w2 & E2 & Hw2).
  { unfold schedule_queue. rewrite Hw1. cbn [firsts set_cells]. rewrite Hf. cbn [of_option]. rewrite !outcome_bind_ret. unfold llist_add, LList.set_next.
    cbn [nodes first]. cbn [links set_cells]. rewrite Ho. cbn [of_option]. rewrite !outcome_bind_ret. reflexivity. }
  rewrite E2, outcome_bind_ret. destruct (notify_ok p w2) as (w3 & E3 & Hw3). exists h, w3. split_and!; [done| |done|done].
  rewrite Hw3, Hw2. reflexivity.
Qed.

(** [x] leaves the waiters [l1 ++ x :: l2] of [m] for the schedule queue of [p]. *)
Definition moved a m l1 x l2 p : pstate :=
  PState (<[m := l1 ++ l2]> (waiting a)) (conds a) (alter (cons x) p (scheduled a)) (owner a) (x :: out a).

Lemma moved_ok q a m l1 x l2 p f h cs :
  pcond_ok q a -> waiting a !! m = Some (l1 ++ x :: l2) -> is_Some (scheduled a !! p) -> firsts q !! p = Some f ->
  (forall y, y <> x -> cs !! y = ctxs q !! y) -> h !! Local 0 = None ->
  rings h (lists_of ((Head m, l1 ++ l2) :: waits (delete m (waiting a))) (x :: out a)) ->
  pcond_ok (Pcond h cs (cond_map q) (<[x := f]> (links q)) (<[p := Some x]> (firsts q))) (moved a m l1 x l2 p).
Proof.
  intros Hok Hm [sl Hp] Hf Hcs Hl HR. destruct (waiter_place q a m l1 x l2 Hok Hm) as (Hx & Hxo & Hxm). split; cbn [pcells cond_map ctxs links firsts].
  - cbn [moved waiting out]. by rewrite waits_new.
  - done.
  - apply (po_map _ _ Hok).
  - intros cond m' Hc. cbn. apply lookup_insert_is_Some'. right. by apply (po_conds _ _ Hok) in Hc.
  - intros m' l' y Hm' Hy. cbn in *. assert (Hold : exists l0, waiting a !! m' = Some l0 /\ y ∈ l0 /\ y <> x).
    { destruct (decide (m' = m)) as [->|Hne].
      - rewrite lookup_insert_eq in Hm'. injection Hm' as <-. exists (l1 ++ x :: l2). split_and!; [done| |by intros ->].
        apply elem_of_app. apply elem_of_app in Hy as [?|?]; [by left|right; by right].
      - rewrite lookup_insert_ne in Hm' by done. exists l'. split_and!; [done|done|]. intros ->. by destruct (Hxm m' l' Hm' Hy). }
    destruct Hold as (l0 & Hl0 & Hy0 & Hne). destruct (po_ctx _ _ Hok m' l0 y Hl0 Hy0) as (c & r & p' & Hc & Ho & Hs & Hk).
    exists c, r, p'. rewrite Hcs by done. split_and!; [done|done| |by rewrite lookup_insert_ne].
    destruct (decide (p' = p)) as [->|]; [by rewrite lookup_alter_eq, Hp|by rewrite lookup_alter_ne].
  - intros p' l' Hl'. cbn in Hl'. destruct (decide (p' = p)) as [->|Hne].
    + rewrite lookup_alter_eq, Hp in Hl'. injection Hl' as <-. destruct (po_sched _ _ Hok p sl Hp) as [(f' & Hf' & Hch) Hout].
      assert (f' = f) as -> by congruence. split.
      * exists (Some x). rewrite lookup_insert_eq. split; [done|]. split; [done|]. exists f. rewrite lookup_insert_eq. split; [done|].
        apply sched_chain_frame; [|done]. by intros ?%Hout.
      * intros y [->|Hy]%elem_of_cons; [left|right; auto].
    + rewrite lookup_alter_ne in Hl' by done. destruct (po_sched _ _ Hok p' l' Hl') as [(f' & Hf' & Hch) Hout]. split.
      * exists f'. rewrite lookup_insert_ne by done. split; [done|]. apply sched_chain_frame; [|done]. by intros ?%Hout.
      * intros y Hy. right. auto.
Qed.

Lemma signal_help_ok fuel cond w a m x l :
  pcond_ok (pc w) a -> conds a !! cond = Some m -> waiting a !! m = Some (x :: l) -> (1 <= fuel)%nat ->
  exists p w', owner a !! x = Some p /\ pthread_cond_signal_help fuel cond true w = Done (1, w') /\ pcond_ok (pc w') (moved a m [] x l p).
Proof.
  intros Hok Hc Hm Hfuel. destruct (po_ctx _ _ Hok m (x :: l) x Hm ltac:(left)) as (c & r & p & Hx & Ho & Hp & Hlk).
  pose proof Hp as [sl Hsl]. destruct (po_sched _ _ Hok p sl Hsl) as [(f & Hf & _) _]. exists p.
  pose proof (po_rings _ _ Hok) as HR. rewrite (waits_insert m _ _ Hm) in HR.
  unfold pthread_cond_signal_help, find_cond_map_can_null. rewrite (po_map _ _ Hok), Hc, (cells_empty _ _ _ _ _ HR), outcome_bind_ret.
  rewrite bool_decide_false by done.
  destruct (cells_LIST_HEAD _ 0 _ _ HR (po_local _ _ Hok)) as (h1 & E1 & HR1).
  destruct (hoist_pc (fun q => h ← LIST_HEAD (Local 0) (pcells q); Done (set_cells h q)) w (set_cells h1 (pc w))) as (w1 & -> & Hw1); [by rewrite E1|].
  rewrite outcome_bind_ret.
  assert (HR1' : rings h1 ((Head m, Member <$> x :: l) :: (Local 0, []) :: lists_of (waits (delete m (waiting a))) (out a))).
  { eapply rings_perm; [|exact HR1]. apply perm_swap. }
  pose proof (rings_list_pop_head _ (Head m) (Member <$> (x :: l)) _ HR1') as (h2 & E2 & HR2 & Hs2).
  assert (HR2' : rings h2 (lists_of ((Local 0, []) :: (Head m, l) :: waits (delete m (waiting a))) (x :: out a))).
  { rewrite lists_of_free, !lists_of_cons. eapply rings_perm; [|exact HR2]. apply perm_skip, perm_swap. }
  destruct (cells_add_tail _ _ _ _ _ _ HR2') as (h3 & E3 & HR3 & Hs3).
  edestruct (hoist_pc (fun q => h ← (r ← list_pop_head (Head m) (pcells q); k ← of_option r.1; list_add_tail k (Local 0) r.2); Done (set_cells h q)) w1)
    as (w2 & -> & Hw2).
  { rewrite Hw1. cbn [pcells set_cells]. rewrite E2, outcome_bind_ret. cbn [fst snd of_option]. rewrite outcome_bind_ret, E3, outcome_bind_ret. reflexivity. }
  rewrite outcome_bind_ret.
  set (Post := fun s : W * Z => exists h, s.2 = 1 /\
    pc s.1 = Pcond h (ctxs (pc w)) (cond_map (pc w)) (<[x := f]> (links (pc w))) (<[p := Some x]> (firsts (pc w))) /\
    rings h (lists_of ((Local 0, []) :: (Head m, l) :: waits (delete m (waiting a))) (x :: out a))).
  destruct (list_for_each_safe_rule cells_of (Local 0) [Member x] (lists_of ((Head m, l) :: waits (delete m (waiting a))) (out a)) notify_body
    (fun rem s => (rem = [Member x] /\ s = (w2, 0)) \/ (rem = [] /\ Post s)) Post (w2, 0) fuel) as ([w3 n] & -> & h4 & Hn & Hw3 & HR4).
  - unfold cells_of. cbn [fst]. rewrite Hw2. exact HR3.
  - intros rem s [[-> ->]|[-> (h & _ & Hs & HR')]]; unfold cells_of; cbn [fst].
    + rewrite Hw2. by apply (rings_follows_next _ _ [] [Member x] _ HR3).
    + rewrite Hs. by apply (rings_follows_next _ _ [] [] _ HR').
  - intros s [[? _]|[_ ?]]; done.
  - intros y rem s [[[= -> ->] ->]|[? _]]; [|done]. unfold notify_body. cbn [ctx_of_cell fst snd]. rewrite outcome_bind_ret, Hw2.
    cbn [ctxs set_cells]. rewrite Hx. cbn [of_option]. rewrite outcome_bind_ret. cbn [pmgr of_option]. rewrite outcome_bind_ret.
    destruct (schedule_step p x (PcondCtx (Some c) r (Some m) (Some p)) m f w2 (Local 0) [] [] ((Head m, l) :: waits (delete m (waiting a))) (out a))
      as (h & w3 & -> & Hw3 & HR' & _); rewrite ?Hw2; cbn [pcells set_cells ctxs links firsts]; try done.
    rewrite outcome_bind_ret. eexists _, _. split; [done|]. right. split; [done|]. exists h. split; [done|]. split; [|done].
    cbn [fst]. rewrite Hw3, Hw2. done.
  - by left.
  - cbn. lia.
  - rewrite outcome_bind_ret. cbn [fst snd]. cbn [fst snd] in Hw3, Hn. subst n.
    edestruct (hoist_pc (fun q => Done (set_cells (delete (Local 0) (pcells q)) q)) w3) as (w4 & -> & Hw4); [reflexivity|].
    rewrite outcome_bind_ret. exists w4. split; [done|]. split; [done|]. rewrite Hw4, Hw3. unfold set_cells. cbn [pcells ctxs cond_map links firsts].
    apply moved_ok; [done|done|done|done|done|by rewrite lookup_delete_eq|]. by apply (cells_drop _ _ [] _ _ HR4).
Qed.

Lemma timeout_ok w a m l1 x l2 : pcond_ok (pc w) a -> waiting a !! m = Some (l1 ++ x :: l2) ->
  exists p w', owner a !! x = Some p /\ proc_pthread_cond_timeout x w = Done w' /\ pcond_ok (pc w') (moved a m l1 x l2 p) /\
    ret_timeout <$> ctxs (pc w') !! x = Some 1.
Proof.
  intros Hok Hm. destruct (po_ctx _ _ Hok m (l1 ++ x :: l2) x Hm ltac:(apply elem_of_app; right; left)) as (c & r & p & Hx & Ho & Hp & Hlk).
  pose proof Hp as [sl Hsl]. destruct (po_sched _ _ Hok p sl Hsl) as [(f & Hf & _) _]. exists p.
  pose proof (po_rings _ _ Hok) as HR. rewrite (waits_insert m _ _ Hm) in HR. unfold proc_pthread_cond_timeout.
  edestruct (hoist_pc (fun q => r ← of_option (ctxs q !! x); Done (set_ctx x (PcondCtx (co r) 1 (mgr r) (pmgr r)) q)) w) as (w1 & -> & Hw1).
  { rewrite Hx. cbn [of_option]. rewrite outcome_bind_ret. reflexivity. }
  rewrite outcome_bind_ret, Hw1. cbn [ctxs set_ctx]. rewrite lookup_insert_eq. cbn [of_option]. rewrite outcome_bind_ret. cbn [pmgr of_option]. rewrite outcome_bind_ret.
  destruct (schedule_step p x (PcondCtx (Some c) 1 (Some m) (Some p)) m f w1 (Head m) l1 l2 (waits (delete m (waiting a))) (out a))
    as (h & w2 & E & Hw2 & HR2 & Hs); rewrite ?Hw1; cbn [set_ctx pcells ctxs links firsts]; try done; [by rewrite lookup_insert_eq|].
  rewrite Hw1 in Hw2, Hs. cbn [set_ctx pcells ctxs links firsts cond_map] in Hw2, Hs.
  exists w2. split_and!; [done|exact E| |].
  - rewrite Hw2. apply moved_ok; [done|done|done|done| |by eapply same_cells_None, (po_local _ _ Hok)|done]. intros y Hne. by rewrite lookup_insert_ne.
  - rewrite Hw2. cbn [ctxs]. by rewrite lookup_insert_eq.
Qed.

(** [x], on the stack of a coroutine of thread [p], waits for [cond]; a new
    pcond_mgr_t would be at [m]. *)
Definition manager a m cond : M := default m (conds a !! cond).
Definition started a x m cond p : pstate :=
  let m := manager a m cond in
  PState (<[m := default [] (waiting a !! m) ++ [x]]> (waiting a)) (<[cond := m]> (conds a)) (scheduled a) (<[x := p]> (owner a)) (out a).

Lemma fresh_block (h : heap (cell M X)) F k : rings h F -> h !! k = None -> k ∉ blocks F.
Proof. intros HR Hk Hin%(rings_alloc _ _ _ HR)%alloc_Some. rewrite Hk in Hin. by destruct Hin. Qed.

(** INIT_LIST_HEAD of a cell that is new in memory. *)
Lemma new_cell (h : heap (cell M X)) F k : rings h F -> h !! k = None ->
  exists h', INIT_LIST_HEAD k (<[k := Link None None]> h) = Done h' /\ rings h' ((k, []) :: F) /\ forall j, j <> k -> h !! j = None -> h' !! j = None.
Proof.
  intros HR Hk. pose proof (fresh_block h F k HR Hk) as Hni.
  destruct (rings_init _ _ k (rings_insert_fresh _ _ _ (Link None None) Hk HR)) as (h' & E & HR' & Hs);
    [apply alloc_Some; by rewrite lookup_insert_eq|done|].
  exists h'. split_and!; [done|done|]. intros j Hne Hj. eapply same_cells_None; [exact Hs|]. by rewrite lookup_insert_ne.
Qed.

(** A context that is new in memory is in no list. *)
Lemma fresh_place q a x : pcond_ok q a -> pcells q !! Member x = None -> (x ∉ out a) /\ forall m l, waiting a !! m = Some l -> x ∉ l.
Proof.
  clear - Has0. intros Hok Hx. pose proof (fresh_block _ _ _ (po_rings _ _ Hok) Hx) as Hb. rewrite blocks_lists_of in Hb.
  assert (Hm : x ∉ members (waits (waiting a)) (out a)).
  { intros Hin. apply Hb, elem_of_app. right. apply list_elem_of_fmap. by exists x. }
  unfold members in Hm. rewrite elem_of_app in Hm. split; [tauto|]. intros m l Hl Hin. apply Hm. left. apply list_elem_of_bind.
  exists (Head m, l). split; [done|]. apply list_elem_of_fmap. exists (m, l). split; [done|]. by apply elem_of_map_to_list.
Qed.

Lemma started_ok q a x m cond p c r h cs :
  pcond_ok q a -> pcells q !! Member x = None -> is_Some (scheduled a !! p) -> let m' := manager a m cond in
  (conds a !! cond = None -> waiting a !! m = None) ->
  (forall y, y <> x -> cs !! y = ctxs q !! y) -> cs !! x = Some (PcondCtx (Some c) r (Some m') (Some p)) -> h !! Local 0 = None ->
  rings h (lists_of ((Head m', default [] (waiting a !! m') ++ [x]) :: waits (delete m' (waiting a))) (out a)) ->
  pcond_ok (Pcond h cs (<[cond := m']> (cond_map q)) (<[x := None]> (links q)) (firsts q)) (started a x m cond p).
Proof.
  clear - Has0. intros Hok Hfx Hp m' Hnew Hcs Hx Hl HR. destruct (fresh_place q a x Hok Hfx) as (Hxo & Hxw).
  split; cbn [pcells cond_map ctxs links firsts started waiting conds scheduled owner out]; fold m'.
  - by rewrite waits_new.
  - done.
  - by rewrite (po_map _ _ Hok).
  - intros cond' m0. destruct (decide (cond' = cond)) as [->|]; [rewrite lookup_insert_eq; intros [= <-]; by rewrite lookup_insert_eq|].
    rewrite lookup_insert_ne by done. intros Hc. apply lookup_insert_is_Some'. right. by apply (po_conds _ _ Hok) in Hc.
  - intros m0 l0 y Hm0 Hy. destruct (decide (y = x)) as [->|Hne].
    + assert (m0 = m') as ->.
      { destruct (decide (m0 = m')); [done|]. rewrite lookup_insert_ne in Hm0 by done. by destruct (Hxw m0 l0 Hm0). }
      exists c, r, p. rewrite Hx, !lookup_insert_eq. by split_and!.
    + assert (Hold : exists l1, waiting a !! m0 = Some l1 /\ y ∈ l1).
      { destruct (decide (m0 = m')) as [->|]; [|rewrite lookup_insert_ne in Hm0 by done; by exists l0].
        rewrite lookup_insert_eq in Hm0. injection Hm0 as <-. apply elem_of_app in Hy as [Hy|Hy%list_elem_of_singleton]; [|done].
        destruct (waiting a !! m') as [l1|]; [by exists l1|by apply not_elem_of_nil in Hy]. }
      destruct Hold as (l1 & Hl1 & Hy1). destruct (po_ctx _ _ Hok m0 l1 y Hl1 Hy1) as (c0 & r0 & p0 & ? & ? & ? & ?).
      exists c0, r0, p0. rewrite Hcs, !lookup_insert_ne by done. by split_and!.
  - intros p0 l0 Hl0. destruct (po_sched _ _ Hok p0 l0 Hl0) as [(f & Hf & Hch) Hout]. split; [|done].
    exists f. split; [done|]. apply sched_chain_frame; [|done]. by intros ?%Hout.
Qed.

(** The wait of a context that is in no list yet. *)
Lemma enqueue_ok w w1 h1 a x m cond mutex p c :
  pcond_ok (pc w) a -> pcells (pc w) !! Member x = None -> is_Some (scheduled a !! p) ->
  (conds a !! cond = None -> pcells (pc w) !! Head m = None) ->
  pc w1 = Pcond h1 (<[x := PcondCtx None 0 None None]> (ctxs (pc w))) (cond_map (pc w)) (<[x := None]> (links (pc w))) (firsts (pc w)) ->
  rings h1 (detached [x] ++ lists_of (waits (waiting a)) (out a)) ->
  (forall j, j <> Member x -> pcells (pc w) !! j = None -> h1 !! j = None) ->
  exists w', (w ← hoist (enqueue x m cond p c) w1; with_mutex unlock mutex w) = Done w' /\ pcond_ok (pc w') (started a x m cond p).
Proof.
  clear set_timeout_ok set_timeout cancel_timeout. intros Hok Hfx Hp Hfm Hw1 HR1 Hn1. pose proof (po_rings _ _ Hok) as HR.
  set (q1 := Pcond h1 (<[x := PcondCtx None 0 None None]> (ctxs (pc w))) (cond_map (pc w)) (<[x := None]> (links (pc w))) (firsts (pc w))) in *.
  set (m' := manager a m cond).
  assert (Hf : exists h2, find_cond_map m cond q1 = Done (m', Pcond h2 (ctxs q1) (<[cond := m']> (cond_map q1)) (links q1) (firsts q1)) /\
    rings h2 (lists_of ((Head m', default [] (waiting a !! m')) :: waits (delete m' (waiting a))) (x :: out a)) /\ h2 !! Local 0 = None).
  { assert (HR1' : rings h1 (lists_of (waits (waiting a)) (x :: out a))) by (by rewrite lists_of_free).
    assert (Hl1 : h1 !! Local 0 = None) by (apply Hn1; [done|apply (po_local _ _ Hok)]).
    unfold find_cond_map, m', manager. change (cond_map q1) with (cond_map (pc w)). rewrite (po_map _ _ Hok).
    destruct (conds a !! cond) as [m0|] eqn:Ec.
    - exists h1. change (default m (Some m0)) with m0. destruct (po_conds _ _ Hok cond m0 Ec) as [l Hl]. rewrite Hl. split_and!; [|by rewrite <-waits_insert|done].
      rewrite insert_id by done. unfold q1. by rewrite (po_map _ _ Hok).
    - change (default m (@None M)) with m. assert (Hm1 : h1 !! Head m = None) by (apply Hn1; [done|by apply Hfm]).
      assert (Hnw : waiting a !! m = None).
      { apply eq_None_not_Some. intros [l Hl]. apply (fresh_block _ _ _ HR1' Hm1). rewrite waits_insert by done. rewrite lists_of_cons, blocks_cons. left. }
      destruct (new_cell _ _ _ HR1' Hm1) as (h2 & E2 & HR2 & Hn2). unfold pcond_mgr_create. change (pcells q1) with h1. rewrite E2, !outcome_bind_ret.
      change (cond_map (set_cells h2 q1)) with (cond_map (pc w)). rewrite (po_map _ _ Hok), Ec.
      exists h2. split_and!; [unfold q1; cbn; by rewrite (po_map _ _ Hok)| |by apply Hn2].
      rewrite Hnw, delete_id by done. exact HR2. }
  destruct Hf as (h2 & E2 & HR2 & Hl2). destruct (cells_add_tail _ _ _ _ _ _ HR2) as (h3 & E3 & HR3 & Hs3).
  edestruct (hoist_pc (enqueue x m cond p c) w1) as (w2 & -> & Hw2).
  { rewrite Hw1. unfold enqueue. cbn [ctxs q1]. rewrite lookup_insert_eq. cbn [of_option]. rewrite outcome_bind_ret, E2, outcome_bind_ret.
    cbn [fst snd set_ctx pcells]. rewrite E3, outcome_bind_ret. cbn [set_cells set_ctx ctxs]. rewrite lookup_insert_eq. cbn [of_option].
    rewrite outcome_bind_ret. reflexivity. }
  rewrite outcome_bind_ret.
  assert (Hw2' : pcond_ok (pc w2) (started a x m cond p)).
  { rewrite Hw2. unfold set_ctx, set_cells. cbn [pcells ctxs cond_map links firsts co ret_timeout mgr pmgr q1].
    apply (started_ok (pc w) a x m cond p c 0); [done|done|done| | | |by eapply same_cells_None|done].
    - intros Hn. apply eq_None_not_Some. intros [l Hlm]. apply (fresh_block _ _ _ HR (Hfm Hn)). rewrite (waits_insert m l) by done.
      rewrite lists_of_cons, blocks_cons. left.
    - intros y Hne. by rewrite !lookup_insert_ne.
    - by rewrite lookup_insert_eq. }
  destruct mutex as [b|]; [|by exists w2]. destruct (unlock_ok b w2) as (w3 & E4 & Hw3). exists w3. by rewrite Hw3.
Qed.

Lemma wait_ok w a x m cond mutex p c :
  pcond_ok (pc w) a -> pcells (pc w) !! Member x = None -> is_Some (scheduled a !! p) ->
  (conds a !! cond = None -> pcells (pc w) !! Head m = None) ->
  exists w', pthread_cond_wait_begin x m cond mutex p c w = Done w' /\ pcond_ok (pc w') (started a x m cond p).
Proof.
  clear set_timeout_ok set_timeout cancel_timeout. intros Hok Hfx Hp Hfm. unfold pthread_cond_wait_begin.
  destruct (new_cell _ _ _ (po_rings _ _ Hok) Hfx) as (h1 & E1 & HR1 & Hn1).
  edestruct (hoist_pc (pcond_ctx_create x) w) as (w1 & -> & Hw1); [unfold pcond_ctx_create; by rewrite E1, outcome_bind_ret|].
  rewrite outcome_bind_ret. by apply (enqueue_ok w w1 h1).
Qed.

(** pthread_cond_timedwait refuses a deadline that is none; otherwise it waits as
    pthread_cond_wait does. *)
Definition deadline_ok (abstime : option (Z * Z)) : bool :=
  match abstime with Some (sec, nsec) => (0 <? sec) && (nsec <? 1000000000) | None => true end.

Lemma ctx_gone_ok q a x h1 : pcond_ok q a -> pcells q !! Member x = None -> rings h1 (detached [x] ++ lists_of (waits (waiting a)) (out a)) ->
  h1 !! Local 0 = None ->
  pcond_ok (ctx_gone x (Pcond h1 (<[x := PcondCtx None 0 None None]> (ctxs q)) (cond_map q) (<[x := None]> (links q)) (firsts q))) a.
Proof.
  clear - Has0. intros Hok Hfx HR1 Hl. destruct (fresh_place q a x Hok Hfx) as (Hxo & Hxw). unfold ctx_gone. cbn [pcells ctxs cond_map links firsts].
  split; cbn [pcells ctxs cond_map links firsts].
  - apply cells_drop_member. rewrite lists_of_free. exact HR1.
  - by rewrite lookup_delete_ne.
  - apply (po_map _ _ Hok).
  - apply (po_conds _ _ Hok).
  - intros m l y Hm Hy. assert (Hne : x <> y) by (intros ->; by apply (Hxw m l)).
    destruct (po_ctx _ _ Hok m l y Hm Hy) as (c & r & p & ? & ? & ? & ?). exists c, r, p.
    rewrite !delete_insert_eq, !lookup_delete_ne by done. by split_and!.
  - intros p l Hp. destruct (po_sched _ _ Hok p l Hp) as [(f & Hf & Hch) Hout]. split; [|done]. exists f. split; [done|].
    rewrite delete_insert_eq. assert (Hx : x ∉ l) by (by intros ?%Hout). clear -Hch Hx. revert f Hch.
    induction l as [|y l IH]; intros f; [done|]. apply not_elem_of_cons in Hx as [Hne Hx]. intros (-> & o & Ho & Hl). split; [done|].
    exists o. rewrite lookup_delete_ne by done. auto.
Qed.

Lemma timedwait_ok w a x m cond mutex abstime now p c :
  pcond_ok (pc w) a -> pcells (pc w) !! Member x = None -> is_Some (scheduled a !! p) ->
  (conds a !! cond = None -> pcells (pc w) !! Head m = None) ->
  if deadline_ok abstime
  then exists w', pthread_cond_timedwait_begin x m cond mutex abstime now p c w = Done (inl w') /\ pcond_ok (pc w') (started a x m cond p)
  else exists w', pthread_cond_timedwait_begin x m cond mutex abstime now p c w = Done (inr (EINVAL, w')) /\ pcond_ok (pc w') a.
Proof.
  clear cancel_timeout. intros Hok Hfx Hp Hfm. unfold pthread_cond_timedwait_begin.
  destruct (new_cell _ _ _ (po_rings _ _ Hok) Hfx) as (h1 & E1 & HR1 & Hn1).
  edestruct (hoist_pc (pcond_ctx_create x) w) as (w1 & -> & Hw1); [unfold pcond_ctx_create; by rewrite E1, outcome_bind_ret|].
  rewrite outcome_bind_ret. cbv zeta.
  assert (Hwait : forall w2, pc w2 = pc w1 -> exists w',
    (w ← hoist (fun q => h ← INIT_LIST_HEAD (Member x) (pcells q); Done (set_cells h q)) w2;
     w ← hoist (enqueue x m cond p c) w; w ← with_mutex unlock mutex w; Done (@inl W (Z * W) w)) = Done (inl w') /\
    pcond_ok (pc w') (started a x m cond p)).
  { intros w2 Hw2.
    pose proof HR1 as HRx. apply rings_cons in HRx as (Hrx & _ & Hnix & HRx).
    destruct (rings_init _ _ _ HRx (proj2 Hrx _ ltac:(left))) as (h2 & E2 & HR2 & Hs2); [apply Hnix; left|].
    edestruct (hoist_pc (fun q => h ← INIT_LIST_HEAD (Member x) (pcells q); Done (set_cells h q)) w2) as (w3 & -> & Hw3).
    { rewrite Hw2, Hw1. cbn [pcells]. by rewrite E2, outcome_bind_ret. }
    rewrite outcome_bind_ret. destruct (enqueue_ok w w3 h2 a x m cond mutex p c Hok Hfx Hp Hfm) as (w4 & E4 & Hok4).
    - by rewrite Hw3.
    - exact HR2.
    - intros j Hj Hn. eapply same_cells_None; [exact Hs2|]. by apply Hn1.
    - exists w4. destruct (hoist (enqueue x m cond p c) w3) as [w5| |]; [|done..]. cbn [mbind outcome_bind] in E4 |- *. by rewrite E4. }
  destruct abstime as [[sec nsec]|]; cbn [deadline_ok]; [|by apply Hwait].
  destruct (Z.leb_spec sec 0); [rewrite (proj2 (Z.ltb_ge 0 sec)) by done|rewrite (proj2 (Z.ltb_lt 0 sec)) by done].
  2: destruct (Z.leb_spec 1000000000 nsec); [rewrite (proj2 (Z.ltb_ge nsec _)) by done|rewrite (proj2 (Z.ltb_lt nsec _)) by done].
  3: { cbn [orb andb]. destruct (set_timeout_ok x (timed_ms sec nsec now) w1) as (w2 & -> & Hw2). rewrite outcome_bind_ret. by apply Hwait. }
  all: cbn [orb andb]; edestruct (hoist_pc (fun q => Done (ctx_gone x q)) w1) as (w2 & -> & Hw2); [reflexivity|];
    rewrite outcome_bind_ret; exists w2; split; [done|]; rewrite Hw2, Hw1; apply ctx_gone_ok; try done;
    apply Hn1; [done|apply (po_local _ _ Hok)].
Qed.

(** The calls, and what each does to the waiters. *)
Inductive op :=
| Wait (x : X) (m : M) (cond : Z) (mutex : option Z) (p : P) (c : C)
| TimedWait (x : X) (m : M) (cond : Z) (mutex : option Z) (abstime : option (Z * Z)) (now : Z) (p : P) (c : C)
| Signal (cond : Z)
| Timeout (x : X).

(** What a call returns, [None] when it has yielded, and the state. *)
Definition exec (fuel : nat) (o : op) w : outcome (option Z * W) :=
  match o with
  | Wait x m cond mutex p c => w ← pthread_cond_wait_begin x m cond mutex p c w; Done (None, w)
  | TimedWait x m cond mutex abstime now p c =>
      r ← pthread_cond_timedwait_begin x m cond mutex abstime now p c w;
      match r with inl w => Done (None, w) | inr (ret, w) => Done (Some ret, w) end
  | Signal cond => r ← pthread_cond_signal fuel cond w; Done (Some r.1, r.2)
  | Timeout x => w ← proc_pthread_cond_timeout x w; Done (None, w)
  end.

Definition no_waiter a cond : Prop := forall m, conds a !! cond = Some m -> waiting a !! m = Some [].

(** Each call with its result. *)
Inductive pstep : op -> pstate -> option Z -> pstate -> Prop :=
| step_wait a x m cond mutex p c : pstep (Wait x m cond mutex p c) a None (started a x m cond p)
| step_timedwait a x m cond mutex abstime now p c : deadline_ok abstime = true ->
    pstep (TimedWait x m cond mutex abstime now p c) a None (started a x m cond p)
| step_timedwait_invalid a x m cond mutex abstime now p c : deadline_ok abstime = false ->
    pstep (TimedWait x m cond mutex abstime now p c) a (Some EINVAL) a
| step_signal a cond m x l p : conds a !! cond = Some m -> waiting a !! m = Some (x :: l) -> owner a !! x = Some p ->
    pstep (Signal cond) a (Some 0) (moved a m [] x l p)
| step_signal_none a cond r : no_waiter a cond -> pstep (Signal cond) a r a
| step_timeout a x m l1 l2 p : waiting a !! m = Some (l1 ++ x :: l2) -> owner a !! x = Some p -> pstep (Timeout x) a None (moved a m l1 x l2 p).

(** A wait has a context that is new in memory, on a thread with a pthread_mgr_t,
    and room for a pcond_mgr_t; a timer fires only for a waiter. *)
Definition allowed (o : op) w a : Prop :=
  match o with
  | Wait x m cond _ p _ | TimedWait x m cond _ _ _ p _ =>
      pcells (pc w) !! Member x = None /\ is_Some (scheduled a !! p) /\ (conds a !! cond = None -> pcells (pc w) !! Head m = None)
  | Signal _ => True
  | Timeout x => exists m l, waiting a !! m = Some l /\ x ∈ l
  end.

Lemma signal_none fuel cond w a b : pcond_ok (pc w) a -> no_waiter a cond -> pthread_cond_signal_help fuel cond b w = Done (0, w).
Proof.
  intros Hok Hn. unfold pthread_cond_signal_help, find_cond_map_can_null. rewrite (po_map _ _ Hok).
  destruct (conds a !! cond) as [m|] eqn:Ec; [|done]. pose proof (po_rings _ _ Hok) as HR. rewrite (waits_insert m [] _ (Hn m Ec)) in HR.
  by rewrite (cells_empty _ _ _ _ _ HR), outcome_bind_ret.
Qed.

(** C35: pthread_cond_wait, and pthread_cond_timedwait with a deadline that is one,
    put their caller at the end of the waiters of its condition variable;
    pthread_cond_signal moves the first of them to the schedule queue of its thread,
    once, and returns 0, and leaves them alone if there is none; a timer that fires while
    its context still waits moves it there, from whatever place; the other waiters and
    queues stay.  A timer that fires after a signal has taken its waiter is not in it:
    [pcond_lost_wakeups]. *)
Theorem pcond_refines fuel o w a : (1 <= fuel)%nat -> pcond_ok (pc w) a -> allowed o w a ->
  exists r w' a', exec fuel o w = Done (r, w') /\ pstep o a r a' /\ pcond_ok (pc w') a'.
Proof.
  intros Hf Hok Ha. destruct o as [x m cond mutex p c|x m cond mutex abstime now p c|cond|x]; cbn [exec allowed] in *.
  - destruct Ha as (Hx & Hp & Hm). destruct (wait_ok w a x m cond mutex p c) as (w' & E & Hok'); [done..|].
    rewrite E, outcome_bind_ret. exists None, w', (started a x m cond p). split_and!; [done|constructor|done].
  - destruct Ha as (Hx & Hp & Hm). pose proof (timedwait_ok w a x m cond mutex abstime now p c Hok Hx Hp Hm) as HT.
    destruct (deadline_ok abstime) eqn:Ed; destruct HT as (w' & E & Hok'); rewrite E, outcome_bind_ret.
    + exists None, w', (started a x m cond p). split_and!; [done|by constructor|done].
    + exists (Some EINVAL), w', a. split_and!; [done|by constructor|done].
  - unfold pthread_cond_signal. destruct (conds a !! cond) as [m|] eqn:Ec; [destruct (po_conds _ _ Hok cond m Ec) as [[|x l] Hl]|].
    + rewrite (signal_none fuel cond w a) by (done || by intros m' [= <-]%(eq_trans (eq_sym Ec))).
      destruct (sys_signal_ok cond w) as (r & w' & E & Hw'). rewrite outcome_bind_ret. cbn [fst snd Z.eqb]. rewrite E, outcome_bind_ret.
      exists (Some r), w', a. rewrite Hw'. split_and!; [done| |done]. constructor. intros m' Hm'. congruence.
    + destruct (signal_help_ok fuel cond w a m x l Hok Ec Hl Hf) as (p & w' & Hp & -> & Hok'). rewrite outcome_bind_ret. cbn [fst snd Z.eqb].
      exists (Some 0), w', (moved a m [] x l p). split_and!; [done|by constructor|done].
    + rewrite (signal_none fuel cond w a) by (done || by intros m'; rewrite Ec).
      destruct (sys_signal_ok cond w) as (r & w' & E & Hw'). rewrite outcome_bind_ret. cbn [fst snd Z.eqb]. rewrite E, outcome_bind_ret.
      exists (Some r), w', a. rewrite Hw'. split_and!; [done| |done]. constructor. intros m' Hm'. congruence.
  - destruct Ha as (m & l & Hl & Hx). apply list_elem_of_split in Hx as (l1 & l2 & ->).
    destruct (timeout_ok w a m l1 x l2 Hok Hl) as (p & w' & Hp & E & Hok' & _). rewrite E, outcome_bind_ret.
    exists None, w', (moved a m l1 x l2 p). split_and!; [done|by constructor|done].
Qed.

(** ** Wake-ups that are lost *)

Lemma broadcast_detaches (h : heap (cell M X)) m Ls free l : rings h (lists_of ((Head m, l) :: Ls) free) -> h !! Local 0 = None ->
  exists h1 h2 h3, LIST_HEAD (Local 0) h = Done h1 /\ list_add_tail (Head m) (Local 0) h1 = Done h2 /\ list_del_init (Head m) h2 = Done h3 /\
    rings h3 [(Local 0, []); (Head m, [])].
Proof.
  intros HR Hl. destruct (cells_LIST_HEAD h 0 _ _ HR Hl) as (h1 & E1 & HR1).
  assert (Hal : alloc h1 (Head m)) by (eapply rings_alloc; [exact HR1|]; rewrite !lists_of_cons, !blocks_cons; right; left).
  assert (HR1' : rings h1 [(Local 0, [])]).
  { rewrite lists_of_cons in HR1. apply rings_cons in HR1 as (Hr & Hnd & _ & _). apply rings_cons. split_and!; [done|done|by intros x _ ?%elem_of_nil|].
    split; [constructor|]. by intros ?? ?%elem_of_nil. }
  destruct (rings_list_add_tail h1 (Local 0) [] [] (Head m) HR1' Hal) as (h2 & E2 & HR2 & _); [by rewrite blocks_cons; cbn; intros ?%list_elem_of_singleton|].
  destruct (rings_list_del_init h2 (Local 0) [] (Head m) [] [] HR2) as (h3 & E3 & HR3 & _).
  exists h1, h2, h3. split_and!; [done|done|done|]. eapply rings_perm; [|exact HR3]. apply perm_swap.
Qed.

Lemma broadcast_ok fuel w a cond m l : pcond_ok (pc w) a -> conds a !! cond = Some m -> waiting a !! m = Some l -> l <> [] ->
  exists w', pthread_cond_signal_help fuel cond false w = Done (0, w') /\
    links (pc w') = links (pc w) /\ firsts (pc w') = firsts (pc w) /\ pthread_cond_signal_help fuel cond true w' = Done (0, w').
Proof.
  intros Hok Hc Hm Hne. pose proof (po_rings _ _ Hok) as HR. rewrite (waits_insert m _ _ Hm) in HR.
  destruct (broadcast_detaches _ _ _ _ _ HR (po_local _ _ Hok)) as (h1 & h2 & h3 & E1 & E2 & E3 & HR3).
  assert (Hhelp : forall b w, cond_map (pc w) = conds a -> pthread_cond_signal_help fuel cond b w = (e ← list_empty (Head m) (pcells (pc w));
    if (e : bool) then Done (0, w) else _)) by (intros b w0 Hw0; unfold pthread_cond_signal_help, find_cond_map_can_null; rewrite Hw0, Hc; reflexivity).
  rewrite Hhelp by apply (po_map _ _ Hok). rewrite (cells_empty _ _ _ _ _ HR), outcome_bind_ret, bool_decide_false by done.
  destruct (hoist_pc (fun q => h ← LIST_HEAD (Local 0) (pcells q); Done (set_cells h q)) w (set_cells h1 (pc w))) as (w1 & -> & Hw1); [by rewrite E1|].
  rewrite outcome_bind_ret.
  edestruct (hoist_pc (fun q => h ← (h ← list_add_tail (Head m) (Local 0) (pcells q); list_del_init (Head m) h); Done (set_cells h q)) w1) as (w2 & -> & Hw2).
  { rewrite Hw1. cbn [pcells set_cells]. rewrite E2, outcome_bind_ret, E3, outcome_bind_ret. reflexivity. }
  rewrite outcome_bind_ret.
  assert (El : list_for_each_safe cells_of (Local 0) notify_body fuel (w2, 0) = Done (w2, 0)).
  { destruct (list_for_each_safe_rule cells_of (Local 0) [] [(Head m, [])] notify_body (fun rem s => rem = [] /\ s = (w2, 0)) (fun s => s = (w2, 0)) (w2, 0) fuel)
      as (s & E & Hs).
    - unfold cells_of. cbn [fst]. rewrite Hw2. exact HR3.
    - intros rem s [-> ->]. unfold cells_of. cbn [fst]. rewrite Hw2. by apply (rings_follows_next _ _ [] [] _ HR3).
    - by intros s [_ ->].
    - by intros x rem s [? _].
    - done.
    - cbn. lia.
    - by rewrite E, Hs. }
  rewrite El, outcome_bind_ret. cbn [fst snd].
  edestruct (hoist_pc (fun q => Done (set_cells (delete (Local 0) (pcells q)) q)) w2) as (w3 & -> & Hw3); [reflexivity|].
  rewrite outcome_bind_ret. exists w3. rewrite Hw2 in Hw3. split_and!; [done|by rewrite Hw3|by rewrite Hw3|].
  rewrite Hhelp by (rewrite Hw3; apply (po_map _ _ Hok)). rewrite Hw3. cbn [pcells set_cells].
  assert (HR4 : rings (delete (Local 0) h3) [(Head m, [])]).
  { apply rings_cons in HR3 as (_ & _ & Hni & HR3). apply rings_delete_unused; [|done]. apply Hni. left. }
  by rewrite (rings_empty _ _ _ _ HR4), outcome_bind_ret.
Qed.

Lemma timeout_twice w a p x sl r : pcond_ok (pc w) a -> scheduled a !! p = Some (x :: sl) -> ctxs (pc w) !! x = Some r -> pmgr r = Some p ->
  exists w', proc_pthread_cond_timeout x w = Done w' /\ firsts (pc w') !! p = Some (Some x) /\ links (pc w') !! x = Some (Some x).
Proof.
  intros Hok Hp Hx Hr. destruct (po_sched _ _ Hok p _ Hp) as [(f & Hf & -> & o & Ho & _) Hout].
  destruct (list_elem_of_split (out a) x (Hout x ltac:(left))) as (o1 & o2 & Eo).
  pose proof (po_rings _ _ Hok) as HR. rewrite Eo, <-Permutation_middle in HR. unfold proc_pthread_cond_timeout.
  edestruct (hoist_pc (fun q => r ← of_option (ctxs q !! x); Done (set_ctx x (PcondCtx (co r) 1 (mgr r) (pmgr r)) q)) w) as (w1 & -> & Hw1).
  { rewrite Hx. cbn [of_option]. rewrite outcome_bind_ret. reflexivity. }
  rewrite outcome_bind_ret, Hw1. cbn [ctxs set_ctx]. rewrite lookup_insert_eq. cbn [of_option]. rewrite outcome_bind_ret. cbn [pmgr]. rewrite Hr. cbn [of_option].
  rewrite outcome_bind_ret. unfold add_to_pcond_schedule. rewrite Hw1. cbn [pcells set_ctx].
  rewrite (cells_empty_detached _ _ _ _ HR), outcome_bind_ret. cbn [negb]. rewrite outcome_bind_ret.
  edestruct (hoist_pc (fun q => s ← schedule_queue p q; s ← llist_add x s; Done (set_schedule p s q)) w1) as (w2 & -> & Hw2).
  { unfold schedule_queue. rewrite Hw1. cbn [firsts set_ctx]. rewrite Hf. cbn [of_option]. rewrite !outcome_bind_ret. unfold llist_add, LList.set_next.
    cbn [nodes first links set_ctx]. rewrite Ho. cbn [of_option]. rewrite !outcome_bind_ret. reflexivity. }
  rewrite outcome_bind_ret. destruct (notify_ok p w2) as (w3 & E3 & Hw3). exists w3. rewrite Hw3, Hw2. unfold set_schedule. cbn [firsts links nodes first].
  by rewrite !lookup_insert_eq.
Qed.

Lemma event_cb_stuck fuel p num w x : firsts (pc w) !! p = Some (Some x) -> 0 < num -> forall w', pcond_event_cb fuel p num w <> Done w'.
Proof.
  intros Hf Hn w'. unfold pcond_event_cb, schedule_queue. rewrite (proj2 (Z.ltb_lt 0 num)), Hf by done. cbn [of_option]. rewrite !outcome_bind_ret.
  unfold llist_empty. cbn [first]. rewrite bool_decide_false by done. unfold llist_del_all. cbn [first].
  destruct (llist_reverse_order _ _ _) as [[o s]| |]; [|done..]. rewrite outcome_bind_ret.
  destruct (hoist _ w) as [w1| |]; [|done..]. rewrite outcome_bind_ret. by destruct fuel.
Qed.

(** Three ways to lose wake-ups.  A broadcast adds the head of the waiters to the
    local queue instead of the waiters, and empties it: it wakes none of them, and
    the next signal finds no waiter.  A timer that fires for a waiter that was
    signalled but not resumed yet adds its link to the schedule queue a second time:
    the link points to itself, and what was queued behind it is lost.  And
    pcond_event_cb, whose loop is given the address of a local variable, does not
    return once its queue is not empty. *)
Theorem pcond_lost_wakeups fuel w a cond m l : pcond_ok (pc w) a -> conds a !! cond = Some m -> waiting a !! m = Some l ->
  (l <> [] -> exists w', pthread_cond_signal_help fuel cond false w = Done (0, w') /\
    links (pc w') = links (pc w) /\ firsts (pc w') = firsts (pc w) /\ pthread_cond_signal_help fuel cond true w' = Done (0, w')) /\
  (forall p x sl r, scheduled a !! p = Some (x :: sl) -> ctxs (pc w) !! x = Some r -> pmgr r = Some p -> exists w',
    proc_pthread_cond_timeout x w = Done w' /\ firsts (pc w') !! p = Some (Some x) /\ links (pc w') !! x = Some (Some x)) /\
  (forall p x sl num, scheduled a !! p = Some (x :: sl) -> 0 < num -> forall w', pcond_event_cb fuel p num w <> Done w').
Proof.
  intros Hok Hc Hm. split_and!.
  - intros Hne. by apply (broadcast_ok fuel w a cond m l).
  - intros p x sl r Hp Hx Hr. by apply (timeout_twice w a p x sl r).
  - intros p x sl num Hp Hn. destruct (po_sched _ _ Hok p _ Hp) as [(f & Hf & -> & _) _]. by apply (event_cb_stuck _ _ _ _ x).
Qed.

(** The milliseconds that a timed wait waits: the time left up to the deadline,
    if it fits into an int; for a deadline that has passed the time is subtracted
    from 0, so that the wait is not over at once: its length is minus the time of
    day in milliseconds, taken modulo 2^32 as an int. *)
Theorem timed_wait_ms sec nsec now : 0 < sec -> 0 <= nsec < 1000000000 -> 0 <= now < 2 ^ 63 -> sec < 2 ^ 53 ->
  let deadline := sec * 1000 + nsec / 1000000 in
  (now <= deadline < now + 2 ^ 31 -> timed_ms sec nsec now = deadline - now) /\
  (deadline < now -> timed_ms sec nsec now = wrap_s 32 (- now)).
Proof.
  intros Hs Hn Hnow Hs' deadline. unfold timed_ms. rewrite Z.quot_div_nonneg by lia. fold deadline.
  assert (0 <= deadline < 2 ^ 64). { unfold deadline. pose proof (Z.div_pos nsec 1000000 ltac:(lia) ltac:(lia)). pose proof (Z.div_lt_upper_bound nsec 1000000 1000 ltac:(lia) ltac:(lia)). lia. }
  rewrite (wrap_u_id 64 deadline) by (unfold in_u; lia). split.
  - intros Hd. rewrite (proj2 (Z.ltb_ge _ _)) by lia. rewrite wrap_u_id by (unfold in_u; lia). apply wrap_s_id; unfold in_s; lia.
  - intros Hd. rewrite (proj2 (Z.ltb_lt _ _)) by lia. rewrite Z.sub_0_l. unfold wrap_s, wrap_u. f_equal.
    rewrite <-Zplus_mod_idemp_l. rewrite (Z.mod_mod_divide (0 - now)) by (by exists (2 ^ 32)). by rewrite Zplus_mod_idemp_l.
Qed.
End pcond.

(** ** Joins *)
Section join.
Context {W : Type}.
Implicit Types (w : W) (tid : Z).

(** pthread_tryjoin_np, conet::delay_back and get_sys_ms *)
Variables (tryjoin : Z -> W -> outcome (Z * W)) (delay_back : W -> outcome W) (get_sys_ms : W -> Z).

(** pthread_join of a coroutine with the hook enabled *)
Fixpoint pthread_join (fuel : nat) tid w : outcome (Z * W) :=
  match fuel with
  | O => NoFuel
  | S fuel =>
      r ← tryjoin tid w;
      if r.1 =? 0 then Done (r.1, r.2) else w ← delay_back r.2; pthread_join fuel tid w
  end.

(** pthread_timedjoin_np: its loop, up to [timeout] milliseconds *)
Fixpoint timedjoin_loop (fuel : nat) tid (timeout : Z) w : outcome (Z * W) :=
  match fuel with
  | O => NoFuel
  | S fuel =>
      r ← tryjoin tid w;
      if r.1 =? 0 then Done (r.1, r.2)
      else
        w ← delay_back r.2;
        if timeout <? get_sys_ms w then Done (ETIMEDOUT, w) else timedjoin_loop fuel tid timeout w
  end.
Definition pthread_timedjoin_np (fuel : nat) tid (abstime : Z * Z) w : outcome (Z * W) :=
  let '(sec, nsec) := abstime in
  if (sec <=? 0) || (1000000000 <=? nsec) then Done (EINVAL, w)
  else timedjoin_loop fuel tid (wrap_u 64 (sec * 1000 + Z.quot nsec 1000000)) w.

(** Every join attempt returns, and the clock goes on while the caller is queued. *)
Hypothesis tryjoin_total : forall tid w, exists r w', tryjoin tid w = Done (r, w') /\ get_sys_ms w' = get_sys_ms w.
Hypothesis delay_back_later : forall w, exists w', delay_back w = Done w' /\ get_sys_ms w < get_sys_ms w'.

(** A timed join returns once its time is over, with 0 or ETIMEDOUT. *)
Theorem timedjoin_returns fuel tid timeout w : timeout - get_sys_ms w < Z.of_nat fuel -> (1 <= fuel)%nat ->
  exists r w', timedjoin_loop fuel tid timeout w = Done (r, w') /\ (r = 0 \/ r = ETIMEDOUT /\ timeout < get_sys_ms w').
Proof.
  revert w. induction fuel as [|fuel IH]; intros w Hf H1; [lia|]. cbn [timedjoin_loop].
  destruct (tryjoin_total tid w) as (r & w1 & -> & Hw1). rewrite outcome_bind_ret. cbn [fst snd].
  destruct (Z.eqb_spec r 0) as [->|]; [exists 0, w1; split; [done|by left]|].
  destruct (delay_back_later w1) as (w2 & -> & Hw2). rewrite outcome_bind_ret. destruct (Z.ltb_spec timeout (get_sys_ms w2)).
  - exists ETIMEDOUT, w2. split; [done|by right].
  - apply IH; lia.
Qed.
End join.

(** ** One thread, with its pthread_mgr_t at 7 *)
Definition pworld : Type := pcond Z Z Z Z.
Definition no_effect {A} (_ : A) (w : pworld) : outcome pworld := Done w.
Definition no_result {A} (_ : A) (w : pworld) : outcome (Z * pworld) := Done (0, w).
Definition no_timer (_ _ : Z) (w : pworld) : outcome pworld := Done w.
Definition pworld0 : pworld := Pcond ∅ ∅ ∅ ∅ {[7 := None]}.
Definition pstate0 : pstate (M := Z) (P := Z) (X := Z) := PState ∅ ∅ {[7 := []]} ∅ [].

Lemma pworld0_ok : pcond_ok pworld0 pstate0.
Proof.
  split; cbn.
  - apply (rings_detached _ []); [constructor|]. by intros t ?%elem_of_nil.
  - done.
  - done.
  - by intros cond m ?%lookup_empty_Some.
  - by intros m l x ?%lookup_empty_Some.
  - intros p l [<- <-]%lookup_singleton_Some. split; [|by intros x ?%elem_of_nil]. by exists None.
Qed.

(** A wait until 5 s, and its timer. *)
Lemma pcond_refines_witness : exists w1 w2 a,
  exec no_effect no_timer no_effect no_result 1 (TimedWait 1 100 5 None (Some (5, 0)) 1000 7 3) pworld0 = Done (None, w1) /\
  exec no_effect no_timer no_effect no_result 1 (Timeout 1) w1 = Done (None, w2) /\ pcond_ok w2 a /\ scheduled a !! 7 = Some [1].
Proof.
  destruct (pcond_refines (C := Z) no_effect no_timer no_effect no_result ltac:(by eauto) ltac:(by eauto) ltac:(by eauto) ltac:(by eauto) 1
    (TimedWait 1 100 5 None (Some (5, 0)) 1000 7 3) pworld0 pstate0) as (r & w1 & a1 & E1 & Hs & Hok1).
  - lia.
  - exact pworld0_ok.
  - split_and!; [done|by eexists|done].
  - inversion Hs as [|? ? ? ? ? ? ? ? ? Hd| | | |]; subst; [|done].
    destruct (pcond_refines (C := Z) no_effect no_timer no_effect no_result ltac:(by eauto) ltac:(by eauto) ltac:(by eauto) ltac:(by eauto) 1
      (Timeout 1) w1 (started pstate0 1 100 5 7)) as (r & w2 & a2 & E2 & Hs2 & Hok2).
    + lia.
    + exact Hok1.
    + exists 100, [1]. split; [by vm_compute|left].
    + inversion Hs2 as [| | | | |? ? m l1 l2 p Hw Ho]; subst. exists w1, w2, (moved (started pstate0 1 100 5 7) m l1 1 l2 p).
      split; [exact E1|]. split; [exact E2|]. split; [exact Hok2|]. vm_compute in Ho. injection Ho as <-. by vm_compute.
Defined.

Lemma pcond_lost_wakeups_witness : exists w w',
  pthread_cond_signal_help (M := Z) (P := Z) no_effect 2 5 false w = Done (0, w') /\ pthread_cond_signal_help no_effect 2 5 true w' = Done (0, w') /\ w <> pworld0.
Proof.
  destruct (wait_ok (C := Z) no_effect ltac:(by eauto) pworld0 pstate0 1 100 5 None 7 3) as (w1 & E1 & H1).
  - exact pworld0_ok.
  - done.
  - by eexists.
  - done.
  - destruct (pcond_lost_wakeups (C := Z) no_effect no_effect no_effect ltac:(by eauto) 2 w1 (started pstate0 1 100 5 7) 5 100 [1] H1)
      as (Hb & _); [by vm_compute|by vm_compute|]. destruct (Hb ltac:(done)) as (w' & E & _ & _ & E'). exists w1, w'. split_and!; [exact E|exact E'|].
    intros ->. vm_compute in E. done.
Defined.

Lemma timed_wait_ms_witness : timed_ms 5 0 1700000000000 = wrap_s 32 (- 1700000000000).
Proof. by apply (timed_wait_ms 5 0 1700000000000). Defined.

Lemma timedjoin_returns_witness : exists r w', timedjoin_loop (fun _ w => Done (16, w)) (fun w => Done (w + 1)) (fun w => w) 10 1 5 0 = Done (r, w').
Proof.
  destruct (timedjoin_returns (fun _ w => Done (16, w)) (fun w => Done (w + 1)) (fun w => w)) with (fuel := 10%nat) (tid := 1) (timeout := 5) (w := 0) as (r & w' & E & _).
  - intros _ w. by exists 16, w.
  - intros w. exists (w + 1). split; [done|lia].
  - lia.
  - lia.
  - by exists r, w'.
Defined.
