(* ===== verification/EventNotify.v ===== *)
(** * core/event_notify.h: a coroutine that waits for an event descriptor

    [proc] is the body of the coroutine; it reads the descriptor through the hook
    and calls back with the count that it read.  The structure is a part of the
    state [K] of the hooks' world.  The theorem: the hooked read of an event
    descriptor without events returns instead of waiting, so that the coroutine
    runs for ever without a switch; neither does [init] return, which resumes it. *)
From S2P Require Import Prelude Words Component FdCtx Net NetHook HookIo.

(** event_notify_t, but for its callback. *)
Record event_notify_t (C : Type) := EventNotify { fd : Z; event_num : Z; stop_flag : Z; work_co : option C }.
Arguments EventNotify {C} _ _ _ _.
Arguments fd {C} _.
Arguments event_num {C} _.
Arguments stop_flag {C} _.
Arguments work_co {C} _.

Definition EFD_NONBLOCK : Z := 2048.
Definition EFD_CLOEXEC : Z := 524288.

Section event_notify.
Context {K C : Type} `{!Has (event_notify_t C) K}.
Implicit Types (s : hst K) (self : event_notify_t C).

(** The kernel and the parameters of the hooks; the count that the last read left
    in its buffer; the callback; the coroutine operations. *)
Variables (kernel : call -> K -> Z * Z * K) (co_poll : list pollfd -> Z -> M K (Z * list pollfd)) (disk : call -> option (M K Z)).
Variables (close_fd_notify_poll : Z -> M K unit) (fuel : nat) (buf : Z) (ready_value : K -> Z).
Variables (cb : option (Z -> M K unit)) (alloc_coroutine : M K (option C)) (resume : C -> M K unit) (wait : C -> M K Z) (free_coroutine : C -> M K unit).

Definition this : M K (event_notify_t C) := fun s => Done (get (kst s), s).
Definition set_this (f : event_notify_t C -> event_notify_t C) : M K unit := fun s =>
  Done (tt, Hst (tab s) (errno s) (enabled s) (put (f (get (kst s))) (kst s))).
Definition enable_sys_hook : M K unit := fun s => Done (tt, Hst (tab s) (errno s) true (kst s)).
Definition buffer : M K Z := fun s => Done (ready_value (kst s), s).

Definition set_fd (x : Z) self := EventNotify x (event_num self) (stop_flag self) (work_co self).
Definition set_event_num (x : Z) self := EventNotify (fd self) x (stop_flag self) (work_co self).
Definition set_stop_flag (x : Z) self := EventNotify (fd self) (event_num self) x (work_co self).
Definition set_work_co (x : option C) self := EventNotify (fd self) (event_num self) (stop_flag self) x.

(** The do loop of proc. *)
Fixpoint proc_loop (rounds : nat) : M K unit :=
  match rounds with
  | O => out_of_fuel
  | S rounds =>
      self ← this;
      r ← read kernel co_poll disk fuel (fd self) buf 8;
      ready ← buffer;
      _ ← (if (wrap_s 32 r =? 8) && (0 <? ready) then
             _ ← set_this (set_event_num ready);
             match cb with Some f => f ready | None => mret tt end
           else mret tt);
      self ← this;
      if stop_flag self =? 0 then proc_loop rounds else mret tt
  end.
Definition proc (rounds : nat) : M K Z :=
  _ ← enable_sys_hook;
  _ ← proc_loop rounds;
  self ← this;
  _ ← close kernel close_fd_notify_poll fuel (fd self);
  _ ← set_this (set_fd (-1));
  mret 0.

Definition init : M K Z :=
  evfd ← eventfd kernel fuel 0 (Z.lor EFD_NONBLOCK EFD_CLOEXEC);
  if evfd <? 0 then mret (-1)
  else
    _ ← alloc_lp kernel fuel evfd 1 false;
    _ ← set_lp evfd (fun l => with_user_flag (Z.land (user_flag l) (Z.lnot O_NONBLOCK)) l);
    _ ← set_this (fun self => set_event_num 0 (set_fd evfd self));
    co ← alloc_coroutine;
    _ ← set_this (set_work_co co);
    match co with
    | None =>
        _ ← close kernel close_fd_notify_poll fuel evfd;
        _ ← set_this (set_fd (-1));
        mret (-2)
    | Some co =>
        _ ← set_this (set_stop_flag 0);
        _ ← resume co;
        mret 0
    end.

(** notify; the number is in the buffer at [buf]. *)
Definition notify : M K Z := self ← this; sys kernel (Cwrite (fd self) buf 8).

Definition stop : M K Z :=
  _ ← set_this (set_stop_flag 1);
  self ← this;
  match work_co self with
  | None => fault
  | Some co =>
      _ ← resume co;
      ret ← wait co;
      _ ← free_coroutine co;
      _ ← set_this (set_work_co None);
      mret ret
  end.

Lemma bind_assoc {A B D} (m : M K A) (f : A -> M K B) (g : B -> M K D) s : ((m ≫= f) ≫= g) s = (m ≫= (fun a => f a ≫= g)) s.
Proof. unfold mbind, M_bind. by destruct (m s) as [[a s']| |]. Qed.

(** The coroutine of an event_notify_t passes a count that is there on to its
    callback; while there is none, it never returns from its loop and never polls,
    and so never yields: its read, which the hook should make wait, returns EAGAIN
    each time. *)
Theorem event_notify_spins l s : blocking_socket (fd (get (kst s))) l s ->
  (forall f rounds k1, cb = Some f ->
    kernel (Cread (fd (get (kst s))) buf 8) (kst s) = (8, 0, k1) -> 0 < ready_value k1 ->
    proc_loop (S rounds) s = (_ ← set_this (set_event_num (ready_value k1)); _ ← f (ready_value k1);
      self ← this; if stop_flag self =? 0 then proc_loop rounds else mret tt) (Hst (tab s) (errno s) true k1)) /\
  (kernel (Cread (fd (get (kst s))) buf 8) (kst s) = (-1, EAGAIN, kst s) -> stop_flag (get (kst s)) = 0 ->
    forall rounds, proc_loop rounds s = NoFuel).
Proof.
  intros Hb. split.
  - intros f rounds k1 Hcb Hk Hr. cbn [proc_loop]. rewrite (bind_done this _ s (get (kst s)) s) by done.
    assert (E : read kernel co_poll disk fuel (fd (get (kst s))) buf 8 s = Done (8, Hst (tab s) (errno s) true k1)).
    { rewrite (read_is_sys _ _ _ _ _ l) by done. rewrite sys_done, Hk. cbn. by destruct Hb as (_ & -> & _). }
    rewrite (bind_done _ _ _ _ _ E). set (s1 := Hst _ _ _ k1). rewrite (bind_done buffer _ s1 (ready_value k1) s1) by done.
    rewrite (proj2 (Z.ltb_lt 0 (ready_value k1)) Hr), Hcb. change (wrap_s 32 8 =? 8) with true. cbn [andb]. apply bind_assoc.
  - intros Hk Hs rounds.
    assert (H : forall e rounds, proc_loop rounds (Hst (tab s) e true (kst s)) = NoFuel).
    { clear rounds. intros e rounds. revert e. induction rounds as [|rounds IH]; intros e; [done|]. cbn [proc_loop].
      set (s0 := Hst (tab s) e true (kst s)). rewrite (bind_done this _ s0 (get (kst s)) s0) by done.
      assert (E : read kernel co_poll disk fuel (fd (get (kst s))) buf 8 s0 = Done (-1, Hst (tab s) EAGAIN true (kst s))).
      { rewrite (read_is_sys _ _ _ _ _ l) by (destruct Hb as (H1 & _ & H2); split; [exact H1|]; split; [done|exact H2]). rewrite sys_done. unfold s0. cbn [kst tab errno enabled]. by rewrite Hk. }
      rewrite (bind_done _ _ _ _ _ E). set (s1 := Hst (tab s) EAGAIN true (kst s)). rewrite (bind_done buffer _ s1 (ready_value (kst s)) s1) by done.
      change ((wrap_s 32 (-1) =? 8) && (0 <? ready_value (kst s))) with false. cbv iota.
      rewrite (bind_done _ _ s1 tt s1) by done. rewrite (bind_done this _ s1 (get (kst s)) s1) by done. rewrite Hs. cbn [Z.eqb]. apply IH. }
    destruct s as [m e en k]. destruct Hb as (_ & He & _). cbn in He. rewrite He. apply H.
Qed.
End event_notify.

(** An event descriptor 3 without events, and its context as init leaves it. *)
Definition no_events (c : call) (k : event_notify_t unit) : Z * Z * event_notify_t unit := (-1, EAGAIN, k).
Definition notify_state : hst (event_notify_t unit) :=
  Hst (Mgr [None; None; None; Some (FdCtx 1 3 0 0 1000 1000 0)] 4) 0 true (EventNotify 3 0 0 (Some tt)).

Lemma event_notify_spins_witness :
  proc_loop no_events (fun _ _ => fault) (fun _ => None) 3 0 (fun _ => 0) None 40 notify_state = NoFuel.
Proof.
  destruct (event_notify_spins no_events (fun _ _ => fault) (fun _ => None) 3 0 (fun _ => 0) None (FdCtx 1 3 0 0 1000 1000 0) notify_state) as [_ H].
  - by split_and!.
  - by apply H.
Defined.
