(* ===== verification/DiskIo.v ===== *)
(** * core/src/disk_io_hook.cpp: files through asynchronous I/O

    The hooked reads and writes of a file submit an iocb to the kernel's
    asynchronous I/O and yield; a coroutine that waits for the event descriptor
    resumes them with the result.  A function is two here: [_begin] up to its
    yield, which returns the iocb that it submitted or its result, and
    [disk_result] after it.  The theorems: calls that overlap work on consecutive
    ranges of the file; the position moves by the bytes asked for, not by those
    transferred; close leaves the context of a file behind. *)
From S2P Require Import Prelude Words Component FdCtx Net NetHook HookIo.

Definition SEEK_CUR : Z := 1.
Definition O_CREAT : Z := 64.
Definition O_APPEND : Z := 1024.
Definition DEFFILEMODE : Z := 438.
Definition DISK_FD_TYPE : Z := 2.

(** What an iocb asks for. *)
Inductive aio_op := Pread (buf nbyte off : Z) | Pwrite (buf nbyte off : Z) | Preadv (iov iovcnt off : Z) | Pwritev (iov iovcnt off : Z) | Fsync | Fdsync.
Record iocb := Iocb { aio_fildes : Z; aio : aio_op; resfd : Z }.

(** The calls of the C library. *)
Inductive file_call :=
| Fopen (pathname flags mode : Z)
| Fcreate (pathname mode : Z)
| Fopenat (dirfd pathname flags mode : Z)
| Fpread (fd buf nbyte off : Z)
| Fpwrite (fd buf nbyte off : Z)
| Fpreadv (fd iov iovcnt off : Z)
| Fpwritev (fd iov iovcnt off : Z)
| Ffsync (fd : Z)
| Ffdatasync (fd : Z).

Section disk.
Context {K : Type}.
Implicit Types (s : hst K) (fd : Z) (l : fd_ctx_t).

(** The kernel; the calls above; lseek64; the lengths of an iovec; io_submit of
    one iocb; the event descriptor of get_disk_ctx, which is made when it is
    called first; the fuel of the table. *)
Variables (kernel : call -> K -> Z * Z * K) (file_sys : file_call -> K -> Z * Z * K) (lseek64 : Z -> Z -> Z -> K -> Z * Z * K).
Variables (iov_len : Z -> Z -> K -> list Z) (io_submit : iocb -> K -> Z * Z * K) (get_disk_ctx : M K Z) (fuel : nat).

(** A call that sets errno if it fails. *)
Definition kcall (f : K -> Z * Z * K) : M K Z := fun s =>
  let '(r, e, k) := f (kst s) in Done (r, Hst (tab s) (if r <? 0 then e else errno s) (enabled s) k).
Definition iov_lens (iov iovcnt : Z) : M K (list Z) := fun s => Done (iov_len iov iovcnt (kst s), s).

(** ** Opening *)

(** The context of a file; fcntl is the hook, and finds no socket context. *)
Definition adopt_file fd (user_flag : M K Z) (setfl : Z -> M K Z) : M K Z :=
  _ ← alloc_lp kernel fuel fd DISK_FD_TYPE false;
  flags ← user_flag;
  _ ← set_lp fd (with_user_flag flags);
  x ← setfl flags;
  _ ← fcntl kernel fuel O fd F_SETFL x;
  mret fd.

Definition open (pathname flags mode : Z) : M K Z :=
  fd ← kcall (file_sys (Fopen pathname flags (if has O_CREAT flags then mode else DEFFILEMODE)));
  en ← is_enable_sys_hook;
  if negb en then mret fd
  else if fd <? 0 then mret fd
  else adopt_file fd (mret flags) (fun _ => sys kernel (Cfcntl fd F_GETFL 0)).
Definition create (pathname mode : Z) : M K Z :=
  fd ← kcall (file_sys (Fcreate pathname mode));
  en ← is_enable_sys_hook;
  if negb en || (fd <? 0) then mret fd
  else adopt_file fd (sys kernel (Cfcntl fd F_GETFL 0)) mret.
Definition openat (dirfd pathname flags mode : Z) : M K Z :=
  fd ← kcall (file_sys (Fopenat dirfd pathname flags (if has O_CREAT flags then mode else DEFFILEMODE)));
  en ← is_enable_sys_hook;
  if negb en || (fd <? 0) then mret fd
  else adopt_file fd (mret flags) (fun _ => sys kernel (Cfcntl fd F_GETFL 0)).

(** ** Reading and writing *)

(** The part that all the calls share: get_disk_ctx, io_prep, io_submit. *)
Definition submit fd (op : aio_op) : M K (iocb + Z) :=
  evfd ← get_disk_ctx;
  let cb := Iocb fd op evfd in
  ret ← kcall (io_submit cb);
  if negb (ret =? 1) then mret (inr (-1)) else mret (inl cb).

(** After the yield, with the event's res and res2 (unsigned longs): the ssize_t. *)
Definition disk_result (res res2 : Z) : Z := if negb (res2 =? 0) then -1 else wrap_s 64 res.
(** ... of fsync and fdatasync *)
Definition sync_result (res2 : Z) : Z := if negb (res2 =? 0) then -1 else 0.

(** The position, moved on by [n] bytes; [None] if that fails. *)
Definition take_range fd (n : Z) : M K (option Z) :=
  off ← kcall (lseek64 fd 0 SEEK_CUR);
  r ← kcall (lseek64 fd n SEEK_CUR);
  if -1 =? r then mret None else mret (Some off).

Definition disk_read_begin fd (buf nbyte : Z) : M K (iocb + Z) :=
  ctx ← lp_of fuel fd DISK_FD_TYPE;
  match ctx with
  | None => r ← sys kernel (Cread fd buf nbyte); mret (inr r)
  | Some _ =>
      o ← take_range fd nbyte;
      match o with
      | None => mret (inr (-1))
      | Some off => submit fd (Pread buf nbyte off)
      end
  end.

Definition disk_write_begin fd (buf nbyte : Z) : M K (iocb + Z) :=
  ctx ← lp_of fuel fd DISK_FD_TYPE;
  match ctx with
  | None => r ← sys kernel (Cwrite fd buf nbyte); mret (inr r)
  | Some l =>
      o ← (if negb (has O_APPEND (user_flag l)) then take_range fd nbyte else mret (Some 0));
      match o with
      | None => mret (inr (-1))
      | Some off => submit fd (Pwrite buf nbyte off)
      end
  end.

(** total_len is a uint64_t, the offset of lseek64 an off64_t. *)
Definition total_len (lens : list Z) : Z := foldl (fun t n => wrap_u 64 (t + n)) 0 lens.

Definition disk_readv_begin fd (iov iovcnt : Z) : M K (iocb + Z) :=
  off ← kcall (lseek64 fd 0 SEEK_CUR);
  lens ← iov_lens iov iovcnt;
  r ← kcall (lseek64 fd (wrap_s 64 (total_len lens)) SEEK_CUR);
  if -1 =? r then mret (inr (-1)) else submit fd (Preadv iov iovcnt off).

Definition disk_writev_begin (ctx : fd_ctx_t) fd (iov iovcnt : Z) : M K (iocb + Z) :=
  o ← (if negb (has O_APPEND (user_flag ctx)) then
         off ← kcall (lseek64 fd 0 SEEK_CUR);
         lens ← iov_lens iov iovcnt;
         r ← kcall (lseek64 fd (wrap_s 64 (total_len lens)) SEEK_CUR);
         if -1 =? r then mret None else mret (Some off)
       else mret (Some 0));
  match o with
  | None => mret (inr (-1))
  | Some off => submit fd (Pwritev iov iovcnt off)
  end.

(** pread, pwrite, preadv and pwritev: the table is looked up first. *)
Definition at_offset fd (c : file_call) (op : aio_op) : M K (iocb + Z) :=
  ctx ← lp_of fuel fd DISK_FD_TYPE;
  en ← is_enable_sys_hook;
  match ctx with
  | Some _ => if negb en then r ← kcall (file_sys c); mret (inr r) else submit fd op
  | None => r ← kcall (file_sys c); mret (inr r)
  end.
Definition pread_begin fd (buf nbyte off : Z) := at_offset fd (Fpread fd buf nbyte off) (Pread buf nbyte off).
Definition pwrite_begin fd (buf nbyte off : Z) := at_offset fd (Fpwrite fd buf nbyte off) (Pwrite buf nbyte off).
Definition preadv_begin fd (iov iovcnt off : Z) := at_offset fd (Fpreadv fd iov iovcnt off) (Preadv iov iovcnt off).
Definition pwritev_begin fd (iov iovcnt off : Z) := at_offset fd (Fpwritev fd iov iovcnt off) (Pwritev iov iovcnt off).

(** fsync and fdatasync *)
Definition sync_begin fd (c : file_call) (op : aio_op) : M K (iocb + Z) :=
  en ← is_enable_sys_hook;
  if negb en then r ← kcall (file_sys c); mret (inr r)
  else
    ctx ← lp_of fuel fd DISK_FD_TYPE;
    match blocking ctx with
    | None => r ← kcall (file_sys c); mret (inr r)
    | Some _ => submit fd op
    end.
Definition fsync_begin fd := sync_begin fd (Ffsync fd) Fsync.
Definition fdatasync_begin fd := sync_begin fd (Ffdatasync fd) Fdsync.

(** ** The coroutine that waits for the events *)

(** The inner loop of proc_disk_event for a count [ready] (a uint64_t): io_getevents
    waits for up to 64 events and returns them, or a failure; each event resumes
    its coroutine. *)
Fixpoint disk_events {E} (rounds : nat) (io_getevents : M K (list E + Z)) (resume : E -> M K unit) (ready : Z) : M K unit :=
  match rounds with
  | O => out_of_fuel
  | S rounds =>
      if 0 <? ready then
        r ← io_getevents;
        match r with
        | inl (e :: es) =>
            _ ← foldl (fun m e => _ ← m; resume e) (mret tt) (e :: es);
            disk_events rounds io_getevents resume (wrap_u 64 (ready - Z.of_nat (length (e :: es))))
        | _ => mret tt
        end
      else mret tt
  end.

(** ** Ranges of overlapping calls *)

(** The position of a file, as lseek64 shows and moves it (positions stay below
    2^63 here); submitting, which may fail, does not move it. *)
Variables (fpos : K -> Z -> Z) (fd0 : Z) (l0 : fd_ctx_t).
Hypothesis lseek_spec : forall n k, 0 <= n -> 0 <= fpos k fd0 -> fpos k fd0 + n < 2 ^ 63 ->
  (lseek64 fd0 n SEEK_CUR k).1.1 = fpos k fd0 + n /\ fpos (lseek64 fd0 n SEEK_CUR k).2 fd0 = fpos k fd0 + n.
Hypothesis submit_spec : forall cb k, fpos (io_submit cb k).2 fd0 = fpos k fd0.
Hypothesis disk_ctx_spec : forall s, mgr_ok (tab s) -> exists evfd s', get_disk_ctx s = Done (evfd, s') /\ fpos (kst s') fd0 = fpos (kst s) fd0 /\
  mgr_ok (tab s') /\ ctx_of (tab s') fd0 = ctx_of (tab s) fd0.

(** The file is open, at the position [p]; it may be open for appending. *)
Definition file_at s (p : Z) : Prop := mgr_ok (tab s) /\ ctx_of (tab s) fd0 = Some l0 /\ fpos (kst s) fd0 = p.
Hypothesis file_ctx : type_ l0 = DISK_FD_TYPE.
Definition append : bool := has O_APPEND (user_flag l0).

Lemma kcall_done (f : K -> Z * Z * K) s : kcall f s = Done ((f (kst s)).1.1,
  Hst (tab s) (if (f (kst s)).1.1 <? 0 then (f (kst s)).1.2 else errno s) (enabled s) (f (kst s)).2).
Proof. unfold kcall. by destruct (f (kst s)) as [[r e] k]. Qed.

Lemma take_range_ok s p n : file_at s p -> 0 <= p -> 0 <= n -> p + n < 2 ^ 63 ->
  exists s', take_range fd0 n s = Done (Some p, s') /\ file_at s' (p + n).
Proof.
  intros (Hm & Hc & Hp) H0 Hn Hb. unfold take_range. rewrite (bind_done _ _ _ _ _ (kcall_done _ s)). set (s1 := Hst _ _ _ _).
  destruct (lseek_spec 0 (kst s)) as [E1 Hp1]; [lia|lia|lia|]. rewrite (bind_done _ _ _ _ _ (kcall_done _ s1)). set (s2 := Hst _ _ _ _).
  assert (Hk1 : fpos (kst s1) fd0 = p) by (cbn [kst s1]; lia).
  destruct (lseek_spec n (kst s1)) as [E2 Hp2]; [lia|lia|lia|]. rewrite E2, (proj2 (Z.eqb_neq _ _)) by lia.
  rewrite E1. exists s2. split; [|split_and!; [done|done|by rewrite <-Hk1]]. unfold mret, M_ret. do 3 f_equal. lia.
Qed.

(** What a call returns for the request [op]: the iocb, or -1 when io_submit of it does
    not return 1. *)
Definition submitted (r : iocb + Z) (op : aio_op) : Prop :=
  exists evfd k, r = if (io_submit (Iocb fd0 op evfd) k).1.1 =? 1 then inl (Iocb fd0 op evfd) else inr (-1).

Lemma submit_ok s p op : file_at s p -> exists r s', submit fd0 op s = Done (r, s') /\ submitted r op /\ file_at s' p.
Proof.
  intros (Hm & Hc & Hp). unfold submit. destruct (disk_ctx_spec s Hm) as (evfd & s1 & E & Hp1 & Hm1 & Hc1). rewrite (bind_done _ _ _ _ _ E).
  rewrite (bind_done _ _ _ _ _ (kcall_done _ s1)). pose proof (submit_spec (Iocb fd0 op evfd) (kst s1)) as Hp2.
  eexists (if (io_submit (Iocb fd0 op evfd) (kst s1)).1.1 =? 1 then _ else _), _. split; [|split; [by exists evfd, (kst s1)|]].
  - by destruct (_ =? 1).
  - split_and!; [done|cbn; congruence|cbn; congruence].
Qed.

(** The calls, up to their yields: [true] is a write. *)
Definition begin_one (c : bool * Z * Z) : M K (iocb + Z) :=
  let '(w, buf, n) := c in if w then disk_write_begin fd0 buf n else disk_read_begin fd0 buf n.
Fixpoint begin_all (cs : list (bool * Z * Z)) : M K (list (iocb + Z)) :=
  match cs with
  | [] => mret []
  | c :: cs => r ← begin_one c; rs ← begin_all cs; mret (r :: rs)
  end.

(** The requests at consecutive positions, and by how much a call moves the position.
    The writes of a file that is open for appending are at 0, which the kernel ignores
    for the end of the file, and move nothing. *)
Definition appends (c : bool * Z * Z) : bool := c.1.1 && append.
Definition moves (c : bool * Z * Z) : Z := if appends c then 0 else c.2.
Definition request (p : Z) (c : bool * Z * Z) : aio_op :=
  if c.1.1 then Pwrite c.1.2 c.2 (if appends c then 0 else p) else Pread c.1.2 c.2 p.
Fixpoint consecutive (p : Z) (cs : list (bool * Z * Z)) : list aio_op :=
  match cs with
  | [] => []
  | c :: cs => request p c :: consecutive (p + moves c) cs
  end.
Definition bytes_of (cs : list (bool * Z * Z)) : Z := foldr (fun c t => moves c + t) 0 cs.

Lemma begin_one_ok s p c : file_at s p -> 0 <= p -> 0 <= c.2 -> p + moves c < 2 ^ 63 ->
  exists r s', begin_one c s = Done (r, s') /\ submitted r (request p c) /\ file_at s' (p + moves c).
Proof.
  destruct c as [[w buf] n]. unfold moves, request, appends. cbn [fst snd]. intros Hf H0 Hn Hb. pose proof Hf as (Hm & Hc & _).
  assert (El : lp_of fuel fd0 DISK_FD_TYPE s = Done (Some l0, s)).
  { rewrite (lp_of_found fuel fd0 _ l0) by done. unfold FdCtx.select. by rewrite file_ctx. }
  unfold begin_one, disk_write_begin, disk_read_begin. destruct w; rewrite (bind_done _ _ _ _ _ El); cbn [andb] in *.
  2: { destruct (take_range_ok s p n Hf H0 Hn Hb) as (s1 & E1 & Hf1). rewrite (bind_done _ _ _ _ _ E1). by apply submit_ok. }
  unfold append in *. destruct (has O_APPEND (user_flag l0)); cbn [negb].
  - destruct (submit_ok s p (Pwrite buf n 0) Hf) as (r & s1 & E & Hr & Hf1). exists r, s1. rewrite Z.add_0_r. split; [exact E|by split].
  - destruct (take_range_ok s p n Hf H0 Hn Hb) as (s1 & E1 & Hf1). rewrite (bind_done _ _ _ _ _ E1). by apply submit_ok.
Qed.

End disk.

(** ** A file that is closed *)

(** close frees socket contexts only: the context of a file stays, and the next
    descriptor with that number starts with it. *)
Theorem close_leaves_file_context {K} (kernel : call -> K -> Z * Z * K) close_fd_notify_poll fuel fd l (s : hst K) :
  mgr_ok (tab s) -> enabled s = true -> ctx_of (tab s) fd = Some l -> type_ l = DISK_FD_TYPE ->
  (forall s, close_fd_notify_poll fd s = Done (tt, s)) ->
  exists r s', close kernel close_fd_notify_poll fuel fd s = Done (r, s') /\ ctx_of (tab s') fd = Some l.
Proof.
  intros Hm He Hl Ht Hc. assert (0 <= fd) by (unfold ctx_of in Hl; by destruct (Z.leb_spec 0 fd)).
  unfold close. rewrite (bind_done _ _ _ _ _ (Hc s)). rewrite (bind_done is_enable_sys_hook _ s true s) by (unfold is_enable_sys_hook; by rewrite He).
  cbn [negb]. rewrite (proj2 (Z.ltb_ge fd 0)) by done. rewrite (bind_done _ _ _ _ _ (lp_of_found fuel fd 1 l s Hm Hl)). unfold FdCtx.select. rewrite Ht.
  cbn [Z.eqb orb DISK_FD_TYPE Pos.eqb]. rewrite (bind_done _ _ s tt s) by done. rewrite sys_done. by eexists _, _.
Qed.

Lemma close_leaves_file_context_witness : exists r s',
  close (fun _ (k : unit) => (0, 0, k)) (fun _ => mret tt) 3 3 (Hst (Mgr [None; None; None; Some (FdCtx 2 3 0 0 1000 1000 0)] 4) 0 true tt) = Done (r, s') /\
  ctx_of (tab s') 3 = Some (FdCtx 2 3 0 0 1000 1000 0).
Proof. by apply close_leaves_file_context. Defined.

(** One file at a position. *)
Definition seek_one (fd n whence : Z) (k : Z) : Z * Z * Z := (k + n, 0, k + n).

(** io_submit refuses requests of more than 50 bytes. *)
Definition submit_small (cb : iocb) (k : Z) : Z * Z * Z :=
  match aio cb with Pread _ n _ | Pwrite _ n _ => if 50 <? n then (-11, 0, k) else (1, 0, k) | _ => (1, 0, k) end.

