(* ===== verification/Module.v ===== *)
(** * base/module.h, base/src/module.cpp: modules initialised in the order of their dependencies

    A module registers itself under a level and a name, lists the names that it
    depends on and its functions; [init_all_modules] resolves the names and walks
    the graph depth first, [fin_all_modules] walks the queue that this leaves,
    backwards.  A module's functions are a parameter that acts on a world of its
    own: they do not call the manager. *)
From stdpp Require Import strings relations.
From S2P Require Import Prelude.

Section module.
Context {N F W : Type} `{Countable N}.
Implicit Types (n d : N) (q l : list N) (w : W).

(** An init or fin function, called with the module's node; and what
    init_all_modules and fin_all_modules do to the flags and the log. *)
Context (func : F -> N -> W -> Z * W) (log_start log_stop : W -> W).

Record module_node_t := ModuleNode {
  module_name : string; init_called : Z; fin_called : Z;
  depend_names : list string; depend_list : list N;
  init_list : list F; fin_list : list F }.
Implicit Types nd : module_node_t.

Record module_mgr_t := ModuleMgr {
  nodes : gmap N module_node_t;
  m_module_maps : gmap string N; m_fin_queue : list N; m_level : list (list N);
  m_calc_called : Z; m_init_called : Z; m_fin_called : Z;
  m_module_num : Z; m_init_succ_num : Z; m_fin_succ_num : Z }.
Implicit Types m : module_mgr_t.

Definition MODULE_LEVEL_NUM : Z := 20.

(** module_mgr_t::module_mgr_t over the nodes of the program, and module_node_t's
    constructor with the name that DEFINE_MODULE_HELP stores. *)
Definition new_mgr (ns : gmap N module_node_t) : module_mgr_t :=
  ModuleMgr ns ∅ [] (replicate (Z.to_nat MODULE_LEVEL_NUM) []) 0 0 0 0 0 0.
Definition new_node (name : string) : module_node_t := ModuleNode name 0 0 [] [] [] [].

Definition set_nodes (ns : gmap N module_node_t) m : module_mgr_t :=
  ModuleMgr ns (m_module_maps m) (m_fin_queue m) (m_level m) (m_calc_called m) (m_init_called m) (m_fin_called m)
    (m_module_num m) (m_init_succ_num m) (m_fin_succ_num m).
Definition set_calc_called m : module_mgr_t :=
  ModuleMgr (nodes m) (m_module_maps m) (m_fin_queue m) (m_level m) 1 (m_init_called m) (m_fin_called m)
    (m_module_num m) (m_init_succ_num m) (m_fin_succ_num m).
Definition set_m_init_called m : module_mgr_t :=
  ModuleMgr (nodes m) (m_module_maps m) (m_fin_queue m) (m_level m) (m_calc_called m) 1 (m_fin_called m)
    (m_module_num m) (m_init_succ_num m) (m_fin_succ_num m).
Definition set_m_fin_called m : module_mgr_t :=
  ModuleMgr (nodes m) (m_module_maps m) (m_fin_queue m) (m_level m) (m_calc_called m) (m_init_called m) 1
    (m_module_num m) (m_init_succ_num m) (m_fin_succ_num m).
Definition count_fin m : module_mgr_t :=
  ModuleMgr (nodes m) (m_module_maps m) (m_fin_queue m) (m_level m) (m_calc_called m) (m_init_called m) (m_fin_called m)
    (m_module_num m) (m_init_succ_num m) (m_fin_succ_num m + 1).

Definition update_node n (f : module_node_t -> module_node_t) m : outcome module_mgr_t :=
  nd ← of_option (nodes m !! n); Done (set_nodes (<[n := f nd]> (nodes m)) m).

Definition push_name (name : string) nd : module_node_t :=
  ModuleNode (module_name nd) (init_called nd) (fin_called nd) (depend_names nd ++ [name]) (depend_list nd) (init_list nd) (fin_list nd).
Definition push_depend d nd : module_node_t :=
  ModuleNode (module_name nd) (init_called nd) (fin_called nd) (depend_names nd) (depend_list nd ++ [d]) (init_list nd) (fin_list nd).
Definition push_init (f : F) nd : module_node_t :=
  ModuleNode (module_name nd) (init_called nd) (fin_called nd) (depend_names nd) (depend_list nd) (init_list nd ++ [f]) (fin_list nd).
Definition push_fin (f : F) nd : module_node_t :=
  ModuleNode (module_name nd) (init_called nd) (fin_called nd) (depend_names nd) (depend_list nd) (init_list nd) (fin_list nd ++ [f]).
Definition set_init_called nd : module_node_t :=
  ModuleNode (module_name nd) 1 (fin_called nd) (depend_names nd) (depend_list nd) (init_list nd) (fin_list nd).
Definition set_fin_called nd : module_node_t :=
  ModuleNode (module_name nd) (init_called nd) 1 (depend_names nd) (depend_list nd) (init_list nd) (fin_list nd).

(** The macros USING_MODULE, MODULE_INIT and MODULE_FIN. *)
Definition USING_MODULE n (name : string) m : outcome module_mgr_t := update_node n (push_name name) m.
Definition MODULE_INIT n (f : F) m : outcome module_mgr_t := update_node n (push_init f) m.
Definition MODULE_FIN n (f : F) m : outcome module_mgr_t := update_node n (push_fin f) m.

(** reg_module.  A negative level is out of m_level; a node that is in a level
    already would break that level's list. *)
Definition reg_module n (level : Z) m : outcome (Z * module_mgr_t) :=
  nd ← of_option (nodes m !! n);
  if MODULE_LEVEL_NUM <=? level then Done (-1, m)
  else
    if bool_decide (module_name nd <> ""%string /\ is_Some (m_module_maps m !! module_name nd)) then Done (-2, m)
    else
      let maps := if bool_decide (module_name nd = ""%string) then m_module_maps m else <[module_name nd := n]> (m_module_maps m) in
      if level <? 0 then Fault
      else if bool_decide (n ∈ mjoin (m_level m)) then Fault
      else
        lv ← of_option (m_level m !! Z.to_nat level);
        Done (0, ModuleMgr (nodes m) maps (m_fin_queue m) (<[Z.to_nat level := lv ++ [n]]> (m_level m))
          (m_calc_called m) (m_init_called m) (m_fin_called m) (m_module_num m + 1) (m_init_succ_num m) (m_fin_succ_num m)).

(** The loops of the file: the body is called on each element, and the first
    result other than 0 ends the function with -1. *)
Fixpoint for_each {A S} (body : A -> S -> outcome (Z * S)) (xs : list A) (s : S) : outcome (Z * S) :=
  match xs with
  | [] => Done (0, s)
  | x :: xs => r ← body x s; if r.1 =? 0 then for_each body xs r.2 else Done (-1, r.2)
  end.

(** calc_all_deps *)
Definition calc_dep n (dep_name : string) m : outcome (Z * module_mgr_t) :=
  match m_module_maps m !! dep_name with
  | None => Done (-1, m)
  | Some dep_m => m ← update_node n (push_depend dep_m) m; Done (0, m)
  end.
Definition calc_deps n m : outcome (Z * module_mgr_t) :=
  nd ← of_option (nodes m !! n); for_each (calc_dep n) (depend_names nd) m.
Definition calc_all_deps m : outcome (Z * module_mgr_t) := for_each (for_each calc_deps) (m_level m) m.

Definition state : Type := module_mgr_t * W.

(** The loop over init_list. *)
Definition call_init_func n (item : F) (s : state) : outcome (Z * state) :=
  let '(ret, w) := func item n s.2 in Done (ret, (s.1, w)).

(** The three statements at the end of call_module_init. *)
Definition finish_init n (s : state) : outcome state :=
  let m := s.1 in
  m ← update_node n set_init_called (ModuleMgr (nodes m) (m_module_maps m) (m_fin_queue m ++ [n]) (m_level m)
    (m_calc_called m) (m_init_called m) (m_fin_called m) (m_module_num m) (m_init_succ_num m + 1) (m_fin_succ_num m));
  Done (m, s.2).

(** call_module_init; the fuel bounds the depth of the recursion. *)
Fixpoint call_module_init (fuel : nat) n (s : state) : outcome (Z * state) :=
  match fuel with
  | O => NoFuel
  | S fuel =>
      nd ← of_option (nodes s.1 !! n);
      if negb (init_called nd =? 0) then Done (0, s)
      else
        r ← for_each (call_module_init fuel) (depend_list nd) s;
        if negb (r.1 =? 0) then Done (-1, r.2)
        else
          r ← for_each (call_init_func n) (init_list nd) r.2;
          if negb (r.1 =? 0) then Done (-1, r.2)
          else s ← finish_init n r.2; Done (0, s)
  end.

Definition call_all_init (fuel : nat) (s : state) : outcome (Z * state) :=
  for_each (for_each (call_module_init fuel)) (m_level s.1) s.

Definition init_all_modules (fuel : nat) (s : state) : outcome (Z * state) :=
  if negb (m_init_called s.1 =? 0) || negb (m_fin_called s.1 =? 0) then Done (0, s)
  else
    let w := log_start s.2 in
    c ← (if m_calc_called s.1 =? 0 then calc_all_deps (set_calc_called s.1) else Done (0, s.1));
    if negb (c.1 =? 0) then Done (-1, (c.2, w))
    else
      if m_init_called c.2 =? 0 then
        r ← call_all_init fuel (set_m_init_called c.2, w);
        if negb (r.1 =? 0) then Done (-2, r.2) else Done (0, r.2)
      else Done (0, (c.2, w)).

(** The loop over fin_list: a failure is kept and the loop goes on. *)
Fixpoint call_fin_funcs n (items : list F) (ret1 : Z) w : Z * W :=
  match items with
  | [] => (ret1, w)
  | item :: items => let '(ret, w) := func item n w in call_fin_funcs n items (if ret =? 0 then ret1 else ret) w
  end.

Definition call_module_fin n (s : state) : outcome (Z * state) :=
  nd ← of_option (nodes s.1 !! n);
  if negb (fin_called nd =? 0) then Done (0, s)
  else
    m ← update_node n set_fin_called s.1;
    let '(ret1, w) := call_fin_funcs n (reverse (fin_list nd)) 0 s.2 in Done (ret1, (m, w)).

Fixpoint fin_queue (l : list N) (s : state) : outcome state :=
  match l with
  | [] => Done s
  | n :: l => r ← call_module_fin n s; fin_queue l (if r.1 =? 0 then (count_fin r.2.1, r.2.2) else r.2)
  end.

Definition fin_all_modules (s : state) : outcome (Z * state) :=
  if m_init_called s.1 =? 0 then Done (-1, s)
  else if negb (m_fin_called s.1 =? 0) then Done (0, s)
  else s ← fin_queue (reverse (m_fin_queue s.1)) (set_m_fin_called s.1, s.2); Done (0, (s.1, log_stop s.2)).

(** ~module_mgr_t *)
Definition delete_module_mgr (s : state) : outcome state := r ← fin_all_modules s; Done r.2.

(** ** The walk over a graph *)

(** The modules that are registered. *)
Definition modules m : list N := mjoin (m_level m).

(** The edges of the graph, and the calls that initialise modules. *)
Definition deps m n : list N := default [] (depend_list <$> nodes m !! n).
Definition inits m n : list F := default [] (init_list <$> nodes m !! n).
Definition fins m n : list F := default [] (fin_list <$> nodes m !! n).
Definition calls_of n (fs : list F) : list (F * N) := (fun f => (f, n)) <$> fs.
Definition init_calls m q : list (F * N) := q ≫= fun n => calls_of n (inits m n).
Definition fin_calls m q : list (F * N) := q ≫= fun n => calls_of n (reverse (fins m n)).

(** The world after some calls, and that they all returned 0. *)
Definition after (calls : list (F * N)) w : W := foldl (fun w c => (func c.1 c.2 w).2) w calls.
Fixpoint all_ok (calls : list (F * N)) w : Prop :=
  match calls with
  | [] => True
  | c :: calls => (func c.1 c.2 w).1 = 0 /\ all_ok calls (func c.1 c.2 w).2
  end.

(** An order in which no module stands before one that it depends on, or twice. *)
Inductive ordered m : list N -> Prop :=
| ordered_nil : ordered m []
| ordered_snoc q n : ordered m q -> n ∉ q -> (forall d, d ∈ deps m n -> d ∈ q) -> ordered m (q ++ [n]).

(** [k] edges in a row. *)
Inductive path m : nat -> N -> Prop :=
| path_0 n : path m 0 n
| path_S k n d : d ∈ deps m n -> path m k d -> path m (S k) n.

Lemma after_app c1 c2 w : after (c1 ++ c2) w = after c2 (after c1 w).
Proof. apply foldl_app. Qed.

Lemma all_ok_app c1 c2 w : all_ok (c1 ++ c2) w <-> all_ok c1 w /\ all_ok c2 (after c1 w).
Proof. clear log_start log_stop. revert w. induction c1 as [|c c1 IH]; intros w; cbn; [tauto|]. rewrite IH. tauto. Qed.

(** A result that is good when it is 0. *)
Definition result {S} (Good Bad : S -> Prop) (stuck : Prop) (o : outcome (Z * S)) : Prop :=
  match o with
  | Done (r, s) => (r = 0 /\ Good s) \/ (r <> 0 /\ Bad s)
  | Fault => False
  | NoFuel => stuck
  end.

Lemma for_each_rule {A S} (body : A -> S -> outcome (Z * S)) (I : S -> Prop) (G : A -> S -> Prop) (Bad : S -> Prop)
    (stuck : A -> Prop) xs s :
  (forall x s, x ∈ xs -> I s -> result (fun s' => I s' /\ G x s' /\ forall y, G y s -> G y s') Bad (stuck x) (body x s)) ->
  I s -> result (fun s' => I s' /\ (forall x, x ∈ xs -> G x s') /\ forall y, G y s -> G y s') Bad (exists x, x ∈ xs /\ stuck x) (for_each body xs s).
Proof.
  revert s. induction xs as [|x xs IH]; intros s Hb HI; [left; split_and!; try done; by intros x ?%elem_of_nil|].
  cbn [for_each]. pose proof (Hb x s ltac:(left) HI) as Hx. destruct (body x s) as [[r s1]| |]; cbn in Hx |- *; [|done|exists x; split; [left|done]].
  destruct Hx as [(-> & HI1 & HG & HM)|[Hr HB]].
  - cbn. assert (Hs := IH s1 (fun x s Hx => Hb x s (list_elem_of_further _ _ _ Hx)) HI1).
    destruct (for_each body xs s1) as [[r s2]| |]; cbn in Hs |- *; [|done|].
    + destruct Hs as [(-> & HI2 & HG2 & HM2)|?]; [|by right]. left. split; [done|]. split; [done|]. split; [|by auto].
      intros y [->|Hy]%elem_of_cons; auto.
    + destruct Hs as (y & Hy & ?). exists y. split; [by right|done].
  - rewrite (proj2 (Z.eqb_neq _ _) Hr). by right.
Qed.

Lemma for_each_join {A S} (body : A -> S -> outcome (Z * S)) xss s : for_each (for_each body) xss s = for_each body (mjoin xss) s.
Proof.
  revert s. induction xss as [|xs xss IH]; intros s; [done|]. cbn [mjoin list_join]. change (for_each (for_each body) (xs :: xss) s)
    with (r ← for_each body xs s; if r.1 =? 0 then for_each (for_each body) xss r.2 else Done (-1, r.2)).
  clear -IH. revert s. induction xs as [|x xs IHx]; intros s; [apply IH|]. cbn [for_each app].
  destruct (body x s) as [[r s1]| |]; [|done..]. rewrite !outcome_bind_ret. cbn. by destruct (r =? 0).
Qed.

Definition edge m : relation N := fun n d => d ∈ deps m n.

Lemma ordered_closed m q n d : ordered m q -> n ∈ q -> edge m n d -> d ∈ q.
Proof.
  induction 1 as [|q n' Hq IH Hn Hd]; [by intros ?%elem_of_nil|]. rewrite !elem_of_app, !list_elem_of_singleton.
  intros [Hin| ->] He; left; auto.
Qed.

Lemma ordered_reach m q n d : ordered m q -> n ∈ q -> rtc (edge m) n d -> d ∈ q.
Proof. intros Hq Hn Hr. revert Hn. induction Hr; eauto using ordered_closed. Qed.

Lemma ordered_acyclic m q n : ordered m q -> n ∈ q -> ~ tc (edge m) n n.
Proof.
  induction 1 as [|q n' Hq IH Hn Hd]; [by intros ?%elem_of_nil|]. rewrite elem_of_app, list_elem_of_singleton.
  intros [Hin| ->]; [by apply IH|]; intros Htc.
  assert (exists d, edge m n' d /\ rtc (edge m) d n') as (d & He & Hr) by (inversion Htc as [|? y ? He Hr]; subst; [by exists n'|exists y; split; [done|by apply tc_rtc]]).
  apply Hn. by apply (ordered_reach m q d); [|apply Hd|].
Qed.

Lemma ordered_NoDup m q : ordered m q -> NoDup q.
Proof. induction 1 as [|q n Hq IH Hn Hd]; [constructor|]. apply NoDup_app. split_and!; [done| |apply NoDup_singleton]. by intros x Hx ->%list_elem_of_singleton. Qed.

(** A path longer than the graph goes through a node twice. *)
Lemma path_nodes m k n : path m k n -> exists l, List.length l = k /\ forall i j x y, (i < j)%nat -> (n :: l) !! i = Some x -> (n :: l) !! j = Some y -> tc (edge m) x y.
Proof.
  induction 1 as [n|k n d Hd Hp (l & Hl & Ht)].
  - exists []. split; [done|]. intros [|i] [|j] x y; try lia; by destruct i || done.
  - exists (d :: l). split; [cbn; lia|]. intros i [|j] x y Hij Hx Hy; [lia|]. destruct i as [|i].
    + injection Hx as <-. destruct j as [|j]; [injection Hy as <-; by apply tc_once|]. apply (tc_l _ _ d); [done|]. by apply (Ht 0%nat (S j)); [lia| |].
    + by apply (Ht i j); [lia| |].
Qed.

Lemma path_bounded m n (V : list N) :
  (forall x, x ∈ V -> ~ tc (edge m) x x) -> n ∈ V -> (forall x d, x ∈ V -> edge m x d -> d ∈ V) -> ~ path m (List.length V) n.
Proof.
  intros Hac Hn HV Hp. destruct (path_nodes _ _ _ Hp) as (l & Hl & Ht).
  assert (Hsub : forall x, x ∈ n :: l -> x ∈ V).
  { intros x [[|i] Hx]%list_elem_of_lookup; [by injection Hx as <-|]. assert (Htc : tc (edge m) n x) by (by apply (Ht 0%nat (S i)); [lia| |]).
    clear -HV Hn Htc. induction Htc as [x y He|x y z He Htc IH]; [by apply (HV x)|]. apply IH. by apply (HV x). }
  assert (Hnd : NoDup (n :: l)).
  { apply NoDup_alt. intros i j x Hi Hj. destruct (Nat.lt_trichotomy i j) as [Hlt|[->|Hlt]]; [|done|].
    - exfalso. apply (Hac x); [by apply Hsub, (list_elem_of_lookup_2 _ i)|by apply (Ht i j)].
    - exfalso. apply (Hac x); [by apply Hsub, (list_elem_of_lookup_2 _ i)|by apply (Ht j i)]. }
  pose proof (submseteq_length _ _ (NoDup_submseteq _ V Hnd Hsub)) as Hlen. cbn in Hlen. lia.
Qed.

(** ** Initialisation *)

(** When the walk starts. *)
Record ready m : Prop := {
  y_nodes n : n ∈ modules m -> exists nd, nodes m !! n = Some nd /\ init_called nd = 0;
  y_closed n d : n ∈ modules m -> edge m n d -> d ∈ modules m;
  y_queue : m_fin_queue m = [];
  y_succ : m_init_succ_num m = 0 }.

(** The manager that has initialised the modules of its queue. *)
Record reached m0 m : Prop := {
  r_nodes n : nodes m !! n = (fun nd => if bool_decide (n ∈ m_fin_queue m) then set_init_called nd else nd) <$> nodes m0 !! n;
  r_rest : m = ModuleMgr (nodes m) (m_module_maps m0) (m_fin_queue m) (m_level m0) (m_calc_called m0) (m_init_called m0)
    (m_fin_called m0) (m_module_num m0) (Z.of_nat (List.length (m_fin_queue m))) (m_fin_succ_num m0);
  r_order : ordered m0 (m_fin_queue m);
  r_sub n : n ∈ m_fin_queue m -> n ∈ modules m0 }.

Definition progress m0 w0 (s : state) : Prop :=
  reached m0 s.1 /\ s.2 = after (init_calls m0 (m_fin_queue s.1)) w0 /\ all_ok (init_calls m0 (m_fin_queue s.1)) w0.

(** A function failed: its module's dependencies are initialised, the module is not. *)
Definition stopped m0 w0 (s : state) : Prop :=
  reached m0 s.1 /\ exists n fs f rest,
    let calls := init_calls m0 (m_fin_queue s.1) ++ calls_of n fs in
    (n ∈ modules m0 /\ (n ∉ m_fin_queue s.1) /\ forall d, edge m0 n d -> d ∈ m_fin_queue s.1) /\
    inits m0 n = fs ++ f :: rest /\ all_ok calls w0 /\ (func f n (after calls w0)).1 <> 0 /\ s.2 = (func f n (after calls w0)).2.

Lemma init_funcs n fs m w :
  (exists w', for_each (call_init_func n) fs (m, w) = Done (0, (m, w')) /\ all_ok (calls_of n fs) w /\ w' = after (calls_of n fs) w) \/
  (exists fs1 f rest, for_each (call_init_func n) fs (m, w) = Done (-1, (m, (func f n (after (calls_of n fs1) w)).2)) /\
     fs = fs1 ++ f :: rest /\ all_ok (calls_of n fs1) w /\ (func f n (after (calls_of n fs1) w)).1 <> 0).
Proof.
  revert w. induction fs as [|f fs IH]; intros w; [left; by exists w|]. cbn [for_each].
  assert (E : call_init_func n f (m, w) = Done ((func f n w).1, (m, (func f n w).2)))
    by (unfold call_init_func; cbn; by destruct (func f n w)).
  rewrite E, !outcome_bind_ret. cbn [fst snd]. destruct (Z.eqb_spec (func f n w).1 0) as [Hr|Hr].
  - destruct (IH (func f n w).2) as [(w' & E' & Hok & ->)|(fs1 & f' & rest & E' & -> & Hok & Hf)].
    + left. eexists. split; [exact E'|]. by split.
    + right. by exists (f :: fs1), f', rest.
  - right. by exists [], f, fs.
Qed.

Lemma finish_reached m0 n m w :
  ready m0 -> reached m0 m -> n ∈ modules m0 -> n ∉ m_fin_queue m -> (forall d, edge m0 n d -> d ∈ m_fin_queue m) ->
  exists m', finish_init n (m, w) = Done (m', w) /\ reached m0 m' /\ m_fin_queue m' = m_fin_queue m ++ [n].
Proof.
  clear func log_start log_stop. intros Hy [Hns Hrest Ho Hsub] Hn Hq Hd. destruct (y_nodes _ Hy _ Hn) as (nd & Hnd & _).
  pose proof (Hns n) as Hmn. rewrite Hnd, bool_decide_eq_false_2 in Hmn by done. cbn in Hmn.
  unfold finish_init, update_node. cbn [fst snd nodes]. rewrite Hmn. cbn [of_option]. rewrite !outcome_bind_ret.
  eexists. split; [done|]. split; [|done]. split; cbn.
  - intros x. destruct (decide (x = n)) as [->|Hx].
    + rewrite lookup_insert_eq, Hnd. cbn. rewrite bool_decide_eq_true_2; [done|]. rewrite elem_of_app, list_elem_of_singleton. by right.
    + rewrite lookup_insert_ne, Hns by done. rewrite (bool_decide_ext (x ∈ m_fin_queue m ++ [n]) (x ∈ m_fin_queue m)); [done|].
      rewrite elem_of_app, list_elem_of_singleton. tauto.
  - rewrite Hrest. unfold set_nodes. cbn. f_equal. rewrite length_app, Nat2Z.inj_add. done.
  - by apply ordered_snoc.
  - intros x [Hx|Hx]%elem_of_app; [auto|]. apply list_elem_of_singleton in Hx. by subst.
Qed.

Definition initialised m0 w0 (s : state) n (s' : state) : Prop :=
  progress m0 w0 s' /\ n ∈ m_fin_queue s'.1 /\ (forall y, y ∈ m_fin_queue s.1 -> y ∈ m_fin_queue s'.1) /\
  (forall y, y ∈ m_fin_queue s'.1 -> y ∈ m_fin_queue s.1 \/ rtc (edge m0) n y).

Lemma reached_node m0 m n :
  ready m0 -> reached m0 m -> n ∈ modules m0 ->
  exists nd, nodes m !! n = Some nd /\ depend_list nd = deps m0 n /\ init_list nd = inits m0 n /\
    init_called nd = if bool_decide (n ∈ m_fin_queue m) then 1 else 0.
Proof.
  intros Hy Hr Hn. destruct (y_nodes _ Hy _ Hn) as (nd & Hnd & Hi). unfold deps, inits.
  rewrite (r_nodes _ _ Hr n), Hnd. cbn. eexists. split; [done|]. by case_bool_decide.
Qed.

(** The end of call_module_init, once the dependencies are initialised. *)
Lemma run_init_funcs m0 w0 n (s : state) :
  ready m0 -> n ∈ modules m0 -> progress m0 w0 s -> n ∉ m_fin_queue s.1 -> (forall d, edge m0 n d -> d ∈ m_fin_queue s.1) ->
  result (fun s' => progress m0 w0 s' /\ m_fin_queue s'.1 = m_fin_queue s.1 ++ [n]) (stopped m0 w0) False
    (r ← for_each (call_init_func n) (inits m0 n) s;
     if negb (r.1 =? 0) then Done (-1, r.2) else s ← finish_init n r.2; Done (0, s)).
Proof.
  destruct s as [m w]. cbn [fst snd]. intros Hy Hn (Hr & Hw & Hok) Hq Hd. cbn [fst snd] in *.
  destruct (init_funcs n (inits m0 n) m w) as [(w' & E & Hok' & Hw')|(fs1 & f & rest & E & Ei & Hok' & Hf)];
    rewrite E, outcome_bind_ret; cbn [fst snd negb Z.eqb].
  - destruct (finish_reached _ _ _ w' Hy Hr Hn Hq Hd) as (m' & E' & Hr' & Hq'). rewrite E', outcome_bind_ret. left. split; [done|].
    split; [|done]. split; [done|]. cbn [fst snd]. rewrite Hq'. unfold init_calls. rewrite bind_app, bind_singleton.
    rewrite after_app, all_ok_app. fold (init_calls m0 (m_fin_queue m)). by rewrite <-Hw, Hw'.
  - right. split; [done|]. split; [done|]. exists n, fs1, f, rest. cbn [fst snd]. fold (calls_of n fs1).
    rewrite after_app, all_ok_app, <-Hw. by split_and!.
Qed.

Lemma call_module_init_spec m0 w0 fuel n (s : state) :
  ready m0 -> n ∈ modules m0 -> progress m0 w0 s ->
  result (initialised m0 w0 s n) (stopped m0 w0) (path m0 fuel n) (call_module_init fuel n s).
Proof.
  intros Hy. revert n s. induction fuel as [|fuel IH]; intros n s Hn Hp; [by apply path_0|]. cbn [call_module_init].
  destruct (reached_node m0 s.1 n Hy (proj1 Hp) Hn) as (nd & Hnd & Hdeps & Hinit & Hcalled).
  rewrite Hnd. cbn [of_option]. rewrite outcome_bind_ret, Hcalled, Hdeps, Hinit. case_bool_decide as Hq; cbn [negb Z.eqb].
  { left. split; [done|]. split; [done|]. split; [done|]. split; [done|]. by left. }
  pose proof (for_each_rule (call_module_init fuel)
    (fun s' => progress m0 w0 s' /\ forall y, y ∈ m_fin_queue s'.1 -> y ∈ m_fin_queue s.1 \/ exists d, edge m0 n d /\ rtc (edge m0) d y)
    (fun x s' => x ∈ m_fin_queue s'.1) (stopped m0 w0) (path m0 fuel) (deps m0 n) s) as HL.
  match type of HL with ?P -> ?Q -> _ => assert (H1 : P); [|assert (H2 : Q); [|specialize (HL H1 H2); clear H1 H2]] end.
  - intros d s' Hd [Hp' Hy']. specialize (IH d s' (y_closed _ Hy _ _ Hn Hd) Hp').
    destruct (call_module_init fuel d s') as [[r s1]| |]; cbn in IH |- *; [|done..].
    destruct IH as [(-> & Hp1 & Hd1 & Hmon & Hnew)|?]; [|by right]. left. split_and!; [done|done| |done|done].
    intros y Hy1. destruct (Hnew _ Hy1) as [?%Hy'|Hreach]; [done|]. right. eauto.
  - split; [done|]. by left.
  - destruct (for_each (call_module_init fuel) (deps m0 n) s) as [[r s1]| |]; cbn in HL; [|done|].
    2:{ destruct HL as (d & Hd & Hpath). cbn. by apply (path_S _ _ _ d). }
    rewrite outcome_bind_ret. cbn [fst snd]. destruct HL as [(-> & (Hp1 & Hnew) & Hdone & Hmon)|[Hr Hst]]; cbn [negb Z.eqb].
    2:{ rewrite (proj2 (Z.eqb_neq _ _) Hr). by right. }
    assert (Hq1 : n ∉ m_fin_queue s1.1).
    { intros Hin. destruct (Hnew _ Hin) as [?|(d & Hd & Hreach)]; [done|].
      apply (ordered_acyclic m0 (m_fin_queue s1.1) n); [apply (proj1 Hp1)|done|]. eapply tc_rtc_r; [apply tc_once; exact Hd|exact Hreach]. }
    pose proof (run_init_funcs m0 w0 n s1 Hy Hn Hp1 Hq1 Hdone) as HR. unfold result in HR.
    destruct (_ ≫= _) as [[r s2]| |]; [|done|done]. destruct HR as [(-> & Hp2 & Hq2)|?]; [left; split; [done|]|by right].
    split; [done|]. rewrite Hq2. split; [apply elem_of_app; right; left|]. split; [intros y ?; apply elem_of_app; auto|].
    intros y [Hin|Hin]%elem_of_app; [|apply list_elem_of_singleton in Hin as ->; by right; apply rtc_refl].
    destruct (Hnew _ Hin) as [?|(d & Hd & Hreach)]; [by left|right]. by apply (rtc_l _ _ d).
Qed.

Lemma call_all_init_spec fuel m w :
  ready m ->
  result (fun s' => progress m w s' /\ forall n, n ∈ modules m -> n ∈ m_fin_queue s'.1) (stopped m w)
    (exists n, n ∈ modules m /\ path m fuel n) (call_all_init fuel (m, w)).
Proof.
  intros Hy. unfold call_all_init. rewrite for_each_join. cbn [fst].
  assert (H0 : progress m w (m, w)).
  { clear -Hy. pose proof (y_queue _ Hy) as Hq. pose proof (y_succ _ Hy) as Hs. unfold progress. cbn [fst snd]. rewrite Hq.
    split; [|done]. split; rewrite Hq.
    - intros n. by destruct (nodes m !! n).
    - destruct m. cbn in *. by subst.
    - constructor.
    - by intros n ?%elem_of_nil. }
  pose proof (for_each_rule (call_module_init fuel) (progress m w) (fun x s' => x ∈ m_fin_queue s'.1) (stopped m w) (path m fuel)
    (mjoin (m_level m)) (m, w)) as HL. match type of HL with ?P -> _ => assert (H1 : P) end.
  { intros n s' Hn Hp. pose proof (call_module_init_spec m w fuel n s' Hy Hn Hp) as HC. unfold result in *.
    destruct (call_module_init fuel n s') as [[r s1]| |]; [|done..].
    destruct HC as [(-> & Hp1 & Hd1 & Hmon & _)|?]; [by left|by right]. }
  specialize (HL H1 H0). unfold result in *. destruct (for_each _ _ _) as [[r s1]| |]; [|done..].
  destruct HL as [(-> & Hp1 & Hall & _)|?]; [by left|by right].
Qed.

(** ** The registry *)

(** Before init_all_modules. *)
Definition fresh_node nd : Prop := init_called nd = 0 /\ fin_called nd = 0 /\ depend_list nd = [].

Record wf m : Prop := {
  w_levels : List.length (m_level m) = Z.to_nat MODULE_LEVEL_NUM;
  w_nodup : NoDup (modules m);
  w_nodes n : n ∈ modules m -> is_Some (nodes m !! n);
  w_maps name n : m_module_maps m !! name = Some n ->
    n ∈ modules m /\ exists nd, nodes m !! n = Some nd /\ module_name nd = name /\ name <> ""%string;
  w_named n nd : n ∈ modules m -> nodes m !! n = Some nd -> module_name nd <> ""%string -> m_module_maps m !! module_name nd = Some n;
  w_fresh n nd : nodes m !! n = Some nd -> fresh_node nd;
  w_num : m_module_num m = Z.of_nat (List.length (modules m)) }.

Definition unstarted m : Prop :=
  m_fin_queue m = [] /\ (m_calc_called m = 0 /\ m_init_called m = 0 /\ m_fin_called m = 0) /\ m_init_succ_num m = 0 /\ m_fin_succ_num m = 0.

(** The dependencies that the modules declare by name. *)
Definition declared m : relation N := fun n d =>
  exists nd name, nodes m !! n = Some nd /\ name ∈ depend_names nd /\ m_module_maps m !! name = Some d.

Definition resolves m : Prop := forall n nd name,
  n ∈ modules m -> nodes m !! n = Some nd -> name ∈ depend_names nd -> is_Some (m_module_maps m !! name).

Definition acyclic m : Prop := forall n, ~ tc (declared m) n n.

(** The manager in which some names are resolved. *)
Definition push_depends ds nd : module_node_t :=
  ModuleNode (module_name nd) (init_called nd) (fin_called nd) (depend_names nd) (depend_list nd ++ ds) (init_list nd) (fin_list nd).
Definition linked m0 m : Prop :=
  m = set_nodes (nodes m) m0 /\
  forall n, exists ds, nodes m !! n = push_depends ds <$> nodes m0 !! n /\ forall d, d ∈ ds -> declared m0 n d.

Lemma new_mgr_wf ns : (forall n nd, ns !! n = Some nd -> fresh_node nd) -> wf (new_mgr ns).
Proof.
  intros Hns. assert (E : modules (new_mgr ns) = []) by done.
  split; rewrite ?E; try done; [constructor|by intros n ?%elem_of_nil|by intros n nd ?%elem_of_nil].
Qed.

(** A node's lists of names and functions grow before the modules start. *)
Lemma update_node_wf n f m nd :
  wf m -> nodes m !! n = Some nd -> (forall nd, fresh_node nd -> fresh_node (f nd)) -> (forall nd, module_name (f nd) = module_name nd) ->
  exists m', update_node n f m = Done m' /\ wf m' /\ modules m' = modules m /\ nodes m' = <[n := f nd]> (nodes m).
Proof.
  intros [Hl Hnd Hn Hmp Hnm Hf Hnum] E Hff Hfn. unfold update_node. rewrite E. cbn [of_option]. rewrite outcome_bind_ret.
  eexists. split; [done|]. split; [|done]. split; try done.
  - intros x Hx. cbn. apply lookup_insert_is_Some'. right. by apply Hn.
  - intros name x Hx. destruct (Hmp _ _ Hx) as (Hin & nd' & E' & Hname & Hne). split; [done|].
    destruct (decide (x = n)) as [->|Hxn]; [|exists nd'; cbn; by rewrite lookup_insert_ne].
    exists (f nd). cbn. rewrite lookup_insert_eq, Hfn. rewrite E in E'. by injection E' as ->.
  - intros x nd' Hx. cbn. destruct (decide (x = n)) as [->|Hxn].
    + rewrite lookup_insert_eq. intros [= <-]. rewrite Hfn. by apply Hnm.
    + rewrite lookup_insert_ne by done. by apply Hnm.
  - intros x nd'. cbn. destruct (decide (x = n)) as [->|Hxn].
    + rewrite lookup_insert_eq. intros [= <-]. apply Hff. by apply (Hf n).
    + rewrite lookup_insert_ne by done. by apply Hf.
Qed.

Lemma modules_insert m k lv n :
  m_level m !! k = Some lv -> mjoin (<[k := lv ++ [n]]> (m_level m)) ≡ₚ n :: modules m.
Proof.
  intros Hk. unfold modules. rewrite insert_take_drop by by apply lookup_lt_Some in Hk.
  rewrite <-(take_drop_middle (m_level m) k lv Hk) at 3. rewrite !join_app. cbn. rewrite <-app_assoc. cbn.
  by rewrite !app_assoc, Permutation_middle, <-!app_assoc.
Qed.

Lemma reg_module_wf n level m nd :
  wf m -> nodes m !! n = Some nd -> n ∉ modules m -> 0 <= level < MODULE_LEVEL_NUM ->
  (module_name nd <> ""%string -> m_module_maps m !! module_name nd = None) ->
  exists m', reg_module n level m = Done (0, m') /\ wf m' /\ modules m' ≡ₚ n :: modules m /\ nodes m' = nodes m /\
    m_module_maps m' = (if bool_decide (module_name nd = ""%string) then m_module_maps m else <[module_name nd := n]> (m_module_maps m)).
Proof.
  intros [Hl Hnd Hn Hmp Hnm Hf Hnum] E Hnin Hlev Hname. unfold reg_module. rewrite E. cbn [of_option]. rewrite outcome_bind_ret.
  rewrite (proj2 (Z.leb_gt _ _)), (proj2 (Z.ltb_ge _ _)) by lia. rewrite (bool_decide_eq_false_2 (n ∈ _)) by done.
  rewrite (bool_decide_eq_false_2 (_ /\ _)) by (intros [Hne [x Hx]]; by rewrite Hname in Hx).
  destruct (lookup_lt_is_Some_2 (m_level m) (Z.to_nat level)) as [lv Hlv]; [rewrite Hl; lia|].
  rewrite Hlv. cbn [of_option]. rewrite outcome_bind_ret. eexists. split; [done|].
  pose proof (modules_insert m _ _ n Hlv) as HP. set (m' := ModuleMgr _ _ _ _ _ _ _ _ _ _).
  assert (HP' : modules m' ≡ₚ n :: modules m) by exact HP.
  assert (Hin : forall x, x ∈ modules m' <-> x = n \/ x ∈ modules m) by (intros x; by rewrite HP', elem_of_cons).
  assert (Hmaps : forall name x, m_module_maps m' !! name = Some x <->
    (name = module_name nd /\ name <> ""%string /\ x = n) \/ m_module_maps m !! name = Some x).
  { clear -Hname. intros name x. cbn. case_bool_decide as Hnn.
    - split; [by right|]. intros [(-> & ? & _)|?]; done.
    - destruct (decide (name = module_name nd)) as [->|Hd].
      + rewrite lookup_insert_eq, Hname by done. split; [intros [= <-]; by left|]. by intros [(_ & _ & ->)|?].
      + rewrite lookup_insert_ne by done. split; [by right|]. by intros [(? & _)|?]. }
  split; [|done]. split; [by cbn; rewrite length_insert|rewrite HP'; by constructor| | | |done|].
  - intros x [->|Hx]%Hin; [by exists nd|by apply Hn].
  - intros name x [(-> & Hne & ->)|Hx]%Hmaps.
    + split; [apply Hin; by left|]. by exists nd.
    + destruct (Hmp _ _ Hx) as [Hm He]. split; [apply Hin; by right|done].
  - intros x nd' [->|Hx]%Hin E' Hne; apply Hmaps.
    + cbn in E'. rewrite E in E'. injection E' as <-. by left.
    + right. by apply (Hnm x).
  - cbn [m_module_num m']. rewrite HP', Hnum. cbn [List.length]. lia.
Qed.

(** calc_all_deps finds each name, or stops with -1. *)
Lemma linked_refl m : linked m m.
Proof. split; [by destruct m|]. intros n. exists []. split; [|by intros d ?%elem_of_nil]. destruct (nodes m !! n) as [nd|]; [|done]. cbn. f_equal. destruct nd. unfold push_depends. cbn. by rewrite app_nil_r. Qed.

Lemma calc_dep_ok m0 m n nd name :
  linked m0 m -> nodes m0 !! n = Some nd -> name ∈ depend_names nd ->
  result (fun m' => linked m0 m' /\ (exists d, m_module_maps m0 !! name = Some d /\ edge m' n d) /\ forall x d, edge m x d -> edge m' x d)
    (fun m' => linked m0 m' /\ m_module_maps m0 !! name = None) False (calc_dep n name m).
Proof.
  intros [Hm Hns] E Hin. unfold calc_dep. assert (Hmaps : m_module_maps m = m_module_maps m0) by by rewrite Hm.
  rewrite Hmaps. destruct (m_module_maps m0 !! name) as [d|] eqn:Ed; [|by right].
  destruct (Hns n) as (ds & En & Hds). rewrite E in En. cbn in En. unfold update_node. rewrite En. cbn [of_option]. rewrite !outcome_bind_ret.
  left. split; [done|]. split; [|split].
  - split; [by rewrite Hm|]. intros x. cbn. destruct (decide (x = n)) as [->|Hx]; [|rewrite lookup_insert_ne by done; apply Hns].
    exists (ds ++ [d]). rewrite lookup_insert_eq, E. cbn. split; [unfold push_depend, push_depends; cbn; by rewrite app_assoc|].
    intros d' [?|Hd']%elem_of_app; [auto|]. apply list_elem_of_singleton in Hd' as ->. by exists nd, name.
  - exists d. split; [done|]. unfold edge, deps. cbn. rewrite lookup_insert_eq. cbn. apply elem_of_app. right. left.
  - intros x d'. unfold edge, deps. cbn. destruct (decide (x = n)) as [->|Hx]; [|by rewrite lookup_insert_ne].
    rewrite lookup_insert_eq, En. cbn. intros ?. apply elem_of_app. by left.
Qed.


(** What the declarations of a module have been resolved to. *)
Definition resolved m0 n m : Prop :=
  forall nd name, nodes m0 !! n = Some nd -> name ∈ depend_names nd -> exists d, m_module_maps m0 !! name = Some d /\ edge m n d.

Lemma linked_node m0 m n nd : linked m0 m -> nodes m0 !! n = Some nd -> exists nd', nodes m !! n = Some nd' /\ depend_names nd' = depend_names nd.
Proof. intros [_ Hns] E. destruct (Hns n) as (ds & En & _). rewrite E in En. by exists (push_depends ds nd). Qed.

Lemma calc_deps_ok m0 m n :
  linked m0 m -> is_Some (nodes m0 !! n) ->
  result (fun m' => linked m0 m' /\ resolved m0 n m' /\ forall x d, edge m x d -> edge m' x d)
    (fun m' => linked m0 m' /\ exists nd name, nodes m0 !! n = Some nd /\ name ∈ depend_names nd /\ m_module_maps m0 !! name = None)
    False (calc_deps n m).
Proof.
  intros Hm [nd E]. destruct (linked_node _ _ _ _ Hm E) as (nd' & E' & Hnames). unfold calc_deps. rewrite E'. cbn [of_option].
  rewrite outcome_bind_ret, Hnames.
  pose proof (for_each_rule (calc_dep n) (fun m1 => linked m0 m1 /\ forall x d, edge m x d -> edge m1 x d)
    (fun name m1 => exists d, m_module_maps m0 !! name = Some d /\ edge m1 n d)
    (fun m' => linked m0 m' /\ exists nd name, nodes m0 !! n = Some nd /\ name ∈ depend_names nd /\ m_module_maps m0 !! name = None)
    (fun _ => False) (depend_names nd) m) as HL. match type of HL with ?P -> _ => assert (H1 : P) end.
  { intros name m1 Hname [Hm1 Hmon]. pose proof (calc_dep_ok m0 m1 n nd name Hm1 E Hname) as HC. unfold result in *.
    destruct (calc_dep n name m1) as [[r m2]| |]; [|done..]. destruct HC as [(-> & Hm2 & Hd & Hmon2)|(Hr & Hm2 & Hnone)].
    - left. split_and!; [done|done|by auto|done|]. intros y (d & ? & ?). eauto.
    - right. split; [done|]. split; [done|]. by exists nd, name. }
  specialize (HL H1 (conj Hm (fun _ _ Hx => Hx))). unfold result in *. destruct (for_each _ _ _) as [[r m1]| |]; [|done|by destruct HL as (? & ? & [])].
  destruct HL as [(-> & [Hm1 Hmon] & Hall & _)|?]; [left|by right]. split_and!; [done..| |done].
  intros nd0 name E0 Hname. rewrite E in E0. injection E0 as <-. by apply Hall.
Qed.

Lemma calc_all_deps_ok m :
  (forall n, n ∈ modules m -> is_Some (nodes m !! n)) ->
  result (fun m' => linked m m' /\ forall n, n ∈ modules m -> resolved m n m') (fun m' => linked m m' /\ ~ resolves m) False (calc_all_deps m).
Proof.
  intros Hns. unfold calc_all_deps. rewrite for_each_join. fold (modules m).
  pose proof (for_each_rule calc_deps (linked m) (fun n m' => resolved m n m') (fun m' => linked m m' /\ ~ resolves m)
    (fun _ => False) (modules m) m) as HL. match type of HL with ?P -> _ => assert (H1 : P) end.
  { intros n m1 Hn Hm1. pose proof (calc_deps_ok m m1 n Hm1 (Hns _ Hn)) as HC. unfold result in *.
    destruct (calc_deps n m1) as [[r m2]| |]; [|done..]. destruct HC as [(-> & Hm2 & Hd & Hmon)|(Hr & Hm2 & nd & name & E & Hname & Hnone)].
    - left. split_and!; [done..|]. intros y Hy nd name E Hname. destruct (Hy nd name E Hname) as (d & ? & ?). eauto.
    - right. split; [done|]. split; [done|]. intros Hres. destruct (Hres n nd name Hn E Hname) as [d Hd]. congruence. }
  specialize (HL H1 (linked_refl m)). unfold result in *. destruct (for_each _ _ _) as [[r m1]| |]; [|done|by destruct HL as (? & ? & [])].
  destruct HL as [(-> & Hm1 & Hall & _)|?]; [by left|by right].
Qed.

Lemma linked_edge m0 m n d : (forall n nd, nodes m0 !! n = Some nd -> fresh_node nd) -> linked m0 m -> edge m n d -> declared m0 n d.
Proof.
  intros Hf [_ Hns]. unfold edge, deps. destruct (Hns n) as (ds & -> & Hds). destruct (nodes m0 !! n) as [nd|] eqn:E; cbn; [|by intros ?%elem_of_nil].
  destruct (Hf _ _ E) as (_ & _ & ->). cbn. apply Hds.
Qed.

Lemma linked_calls m0 m : linked m0 m -> (forall q, init_calls m q = init_calls m0 q) /\ (forall q, fin_calls m q = fin_calls m0 q).
Proof.
  intros [_ Hns]. assert (E : forall n, inits m n = inits m0 n /\ fins m n = fins m0 n).
  { intros n. unfold inits, fins. destruct (Hns n) as (ds & -> & _). by destruct (nodes m0 !! n). }
  split; intros q; apply list_bind_ext_in; intros n _; [by rewrite (proj1 (E n))|by rewrite (proj2 (E n))].
Qed.

(** The manager at the first call of call_all_init. *)
Lemma linked_ready m m1 :
  wf m -> unstarted m -> linked (set_calc_called m) m1 ->
  ready (set_m_init_called m1) /\ modules (set_m_init_called m1) = modules m /\
  forall n d, edge (set_m_init_called m1) n d -> declared m n d.
Proof.
  intros Hw (Hq & _ & Hs & _) HL. pose proof HL as [E Hns].
  assert (HE : forall n d, edge (set_m_init_called m1) n d -> declared m n d) by (intros n d; by apply (linked_edge (set_calc_called m) m1 n d (w_fresh _ Hw))).
  assert (HM : modules (set_m_init_called m1) = modules m) by by rewrite E.
  split; [|done]. split; rewrite ?HM.
  - intros n Hn. destruct (w_nodes _ Hw n Hn) as [nd En]. destruct (Hns n) as (ds & E' & _). cbn in E'. rewrite En in E'.
    exists (push_depends ds nd). split; [done|]. apply (w_fresh _ Hw n nd En).
  - intros n d Hn (nd & name & _ & _ & Hd)%HE. by destruct (w_maps _ Hw _ _ Hd).
  - by rewrite E.
  - by rewrite E.
Qed.

(** ** Starting and stopping the program *)

(** The order of a queue: each module once, after what it depends on. *)
Definition dependency_order m q : Prop :=
  NoDup q /\ (forall n, n ∈ q -> n ∈ modules m) /\ forall q1 n q2 d, q = q1 ++ n :: q2 -> declared m n d -> d ∈ q1.

(** Every function of the queue's modules returned 0. *)
Definition all_started m q w w' : Prop := all_ok (init_calls m q) w /\ w' = after (init_calls m q) w.

(** The functions of the queue's modules returned 0, and then those of [n] up to one that did not. *)
Definition failed_at m q w w' : Prop := exists n fs f rest,
  let calls := init_calls m q ++ calls_of n fs in
  (n ∈ modules m /\ (n ∉ q) /\ forall d, declared m n d -> d ∈ q) /\
  inits m n = fs ++ f :: rest /\ all_ok calls w /\ (func f n (after calls w)).1 <> 0 /\ w' = (func f n (after calls w)).2.

Lemma ordered_split m q q1 n q2 : ordered m q -> q = q1 ++ n :: q2 -> forall d, edge m n d -> d ∈ q1.
Proof.
  intros Ho. revert q2. induction Ho as [|q n' Hq IH Hn Hd]; intros q2 E d He; [by destruct q1|].
  destruct (last_snoc_cases q2) as [->|(q2' & x & ->)].
  - apply app_inj_tail in E as [-> ->]. by apply Hd.
  - rewrite app_comm_cons, app_assoc in E. apply app_inj_tail in E as [-> _]. by apply (IH q2').
Qed.

Lemma path_le m k k' n : (k <= k')%nat -> path m k' n -> path m k n.
Proof.
  intros Hle Hp. revert k Hle. induction Hp as [n|k' n d Hd Hp IH]; intros k Hle.
  - replace k with 0%nat by lia. apply path_0.
  - destruct k as [|k]; [apply path_0|]. apply (path_S _ _ _ d); [done|]. apply IH. lia.
Qed.

(** Nothing has been finalised, and the same functions are to be called. *)
Definition unfinished m m' : Prop :=
  m_init_called m' = 1 /\ m_fin_called m' = 0 /\ (forall n, fins m' n = fins m n) /\ forall n nd, nodes m' !! n = Some nd -> fin_called nd = 0.

Lemma linked_unfinished m m1 :
  wf m -> unstarted m -> linked (set_calc_called m) m1 -> unfinished m (set_m_init_called m1).
Proof.
  intros Hw (_ & (_ & _ & Hf) & _) [E Hns]. split; [done|]. split; [by rewrite E|]. split.
  - intros n. unfold fins. cbn. destruct (Hns n) as (ds & -> & _). cbn. by destruct (nodes m !! n).
  - intros n nd. cbn. destruct (Hns n) as (ds & -> & _). cbn. destruct (nodes m !! n) as [nd0|] eqn:E0; [|done]. cbn. intros [= <-].
    apply (w_fresh _ Hw n nd0 E0).
Qed.

Lemma reached_unfinished m M m' : unfinished m M -> reached M m' -> unfinished m m'.
Proof.
  intros (Hi & Hf & Hfs & Hfc) [Hns Hr _ _]. split; [by rewrite Hr|]. split; [by rewrite Hr|]. split.
  - intros n. rewrite <-Hfs. unfold fins. rewrite Hns. destruct (nodes M !! n); [|done]. cbn. by case_bool_decide.
  - intros n nd. rewrite Hns. destruct (nodes M !! n) as [nd0|] eqn:E; [|done]. cbn. intros [= <-]. pose proof (Hfc _ _ E). by case_bool_decide.
Qed.

(** All that init_all_modules can do on a graph without missing names. *)
Lemma init_all_outcome fuel m w :
  wf m -> unstarted m -> resolves m ->
  exists M, ready M /\ modules M = modules m /\ (forall n d, n ∈ modules m -> edge M n d <-> declared m n d) /\ unfinished m M /\
  match init_all_modules fuel (m, w) with
  | Done (r, (m', w')) =>
      m' = set_m_init_called m' /\ reached M m' /\ dependency_order m (m_fin_queue m') /\
      ((r = 0 /\ all_started m (m_fin_queue m') (log_start w) w' /\ forall n, n ∈ modules m -> n ∈ m_fin_queue m') \/
       (r = -2 /\ failed_at m (m_fin_queue m') (log_start w) w'))
  | Fault => False
  | NoFuel => exists n, n ∈ modules m /\ path M fuel n
  end.
Proof.
  intros Hw Hu Hres. pose proof (calc_all_deps_ok (set_calc_called m) (w_nodes _ Hw)) as HC.
  destruct Hu as (Hq & (Hc & Hi & Hf) & Hs & Hfs) eqn:EHu. clear EHu. unfold init_all_modules. cbn [fst snd]. rewrite Hi, Hf, Hc. cbn [negb orb Z.eqb].
  destruct (calc_all_deps (set_calc_called m)) as [[r m1]| |]; cbn in HC; [|done..]. destruct HC as [(-> & HL & Hall)|(_ & _ & Hno)]; [|by destruct Hno].
  rewrite outcome_bind_ret. cbn [fst snd negb Z.eqb]. destruct (linked_ready m m1 Hw (conj Hq (conj (conj Hc (conj Hi Hf)) (conj Hs Hfs))) HL) as (Hy & HM & HE).
  exists (set_m_init_called m1). split; [done|]. split; [done|].
  assert (HE' : forall n d, n ∈ modules m -> edge (set_m_init_called m1) n d <-> declared m n d).
  { intros n d Hn. split; [apply HE|]. intros (nd & name & E & Hname & Hd). destruct (Hall n Hn nd name E Hname) as (d' & Hd' & Hed). cbn in Hd'. by simplify_eq. }
  split; [done|]. split; [by apply (linked_unfinished m m1 Hw (conj Hq (conj (conj Hc (conj Hi Hf)) (conj Hs Hfs))) HL)|].
  replace (m_init_called m1) with 0 by by rewrite (proj1 HL). cbn [Z.eqb].
  pose proof (call_all_init_spec fuel (set_m_init_called m1) (log_start w) Hy) as HA. unfold result in HA. rewrite HM in HA.
  assert (HO : forall m', reached (set_m_init_called m1) m' -> m' = set_m_init_called m' /\ dependency_order m (m_fin_queue m')).
  { intros m' [Hn Hr Ho Hsub]. split; [rewrite Hr at 2; by rewrite Hr at 1|]. split; [by apply (ordered_NoDup _ _ Ho)|]. split; [by rewrite <-HM|].
    intros q1 n q2 d Eq Hd. apply (ordered_split _ _ _ _ _ Ho Eq), HE'; [|done]. rewrite <-HM. apply Hsub. rewrite Eq. apply elem_of_app. right. left. }
  assert (HI : forall q, init_calls (set_m_init_called m1) q = init_calls m q) by (intros q; apply (proj1 (linked_calls _ _ HL))).
  destruct (call_all_init _ _) as [[r [m' w']]| |]; [|done|done]. rewrite outcome_bind_ret. cbn [fst snd].
  destruct HA as [(-> & (Hr & Hw' & Hok) & Hin)|(Hr & Hre & n & fs & f & rest & Hst)]; cbn [fst snd] in *.
  - cbn [negb Z.eqb]. destruct (HO _ Hr) as [? ?]. split_and!; [done..|]. left. rewrite HI in Hw', Hok. by split_and!.
  - rewrite (proj2 (Z.eqb_neq _ _) Hr). cbn [negb]. destruct (HO _ Hre) as [? Hdep]. split_and!; [done..|]. right. split; [done|].
    rewrite HI in Hst. exists n, fs, f, rest. cbv zeta in *. destruct Hst as ((Hn & Hnq & Hd) & Hin & Hok & Hf' & Hw').
    assert (Hn' : n ∈ modules m) by by rewrite <-HM. split_and!; try done.
    + intros d Hdn. by apply Hd, HE'.
    + rewrite <-Hin. unfold inits. destruct (proj2 HL n) as (ds & E & _). cbn [set_m_init_called nodes]. rewrite E. cbn. by destruct (nodes m !! n).
Qed.

Lemma acyclic_path fuel m M n :
  wf m -> modules M = modules m -> (forall n d, n ∈ modules m -> edge M n d -> declared m n d) ->
  acyclic m -> n ∈ modules m -> (List.length (modules m) <= fuel)%nat -> ~ path M fuel n.
Proof.
  intros Hw HM HE Hac Hn Hlen Hp. apply (path_le _ (List.length (modules m))) in Hp; [|done].
  assert (HT : forall x y, x ∈ modules m -> tc (edge M) x y -> tc (declared m) x y).
  { intros x y Hx Ht. induction Ht as [x y He|x y z He Ht IH]; [by apply tc_once, HE|]. apply HE in He; [|done].
    apply (tc_l _ _ y); [done|]. apply IH. destruct He as (nd & name & _ & _ & Hd). by destruct (w_maps _ Hw _ _ Hd). }
  assert (HV : forall x d, x ∈ modules m -> edge M x d -> d ∈ modules m).
  { intros x d Hx (nd & name & _ & _ & Hd)%HE; [|done]. by destruct (w_maps _ Hw _ _ Hd). }
  revert Hp. apply path_bounded; [|done|done]. intros x Hx Ht. by apply (Hac x), HT.
Qed.

Lemma cycle_registered m n : wf m -> tc (declared m) n n -> n ∈ modules m.
Proof.
  intros Hw Ht. assert (HD : forall x y, tc (declared m) x y -> y ∈ modules m); [|by apply (HD n)].
  clear n Ht. induction 1 as [x y (nd & name & _ & _ & Hd)|]; [by destruct (w_maps _ Hw _ _ Hd)|done].
Qed.

(** ** The end of the program *)

Lemma call_fin_funcs_after n items r w : (call_fin_funcs n items r w).2 = after (calls_of n items) w.
Proof.
  revert r w. induction items as [|f items IH]; intros r w; [done|]. cbn. destruct (func f n w) as [r' w'] eqn:E. by rewrite IH.
Qed.

Lemma fin_queue_after l m w :
  NoDup l -> (forall n, n ∈ l -> exists nd, nodes m !! n = Some nd /\ fin_called nd = 0) ->
  exists m', fin_queue l (m, w) = Done (m', after (fin_calls m l) w) /\ m_init_called m' = m_init_called m /\ m_fin_called m' = m_fin_called m.
Proof.
  revert m w. induction l as [|n l IH]; intros m w Hnd Hl; [by exists m|]. apply NoDup_cons in Hnd as [Hn Hnd].
  destruct (Hl n) as (nd & E & Hf); [left|]. cbn [fin_queue]. unfold call_module_fin at 1, update_node. cbn [fst snd].
  rewrite E. cbn [of_option]. rewrite !outcome_bind_ret, Hf. cbn [negb Z.eqb].
  pose proof (call_fin_funcs_after n (reverse (fin_list nd)) 0 w) as Hw. destruct (call_fin_funcs n (reverse (fin_list nd)) 0 w) as [r w1]. cbn in Hw. subst w1.
  rewrite outcome_bind_ret. cbn [fst snd]. set (m1 := set_nodes _ m).
  set (m2 := if r =? 0 then count_fin m1 else m1).
  replace (if r =? 0 then _ else _) with (m2, after (calls_of n (reverse (fin_list nd))) w) by (unfold m2; by destruct (r =? 0)).
  assert (Hns : nodes m2 = <[n := set_fin_called nd]> (nodes m)) by (unfold m2; by destruct (r =? 0)).
  destruct (IH m2 (after (calls_of n (reverse (fin_list nd))) w) Hnd) as (m' & E' & Hi' & Hf').
  { intros x Hx. rewrite Hns, lookup_insert_ne by (by intros <-). apply Hl. by right. }
  exists m'. split; [|unfold m2 in Hi', Hf'; by destruct (r =? 0)]. rewrite E'. f_equal. f_equal. unfold fin_calls.
  rewrite bind_cons, after_app. replace (fins m n) with (fin_list nd) by (unfold fins; by rewrite E). f_equal. apply list_bind_ext_in. intros x Hx.
  unfold fins. by rewrite Hns, lookup_insert_ne by (by intros <-).
Qed.

(** C32: the registry stays well formed as static initialisers register modules.  A
    level of 20 or more is refused with -1 and a name that is taken with -2, and nothing
    changes; otherwise the module goes to the end of its own level, no other level
    changes, its name, if it has one, enters the map, and it is counted. *)
Theorem reg_module_registers n level m nd :
  wf m -> nodes m !! n = Some nd -> n ∉ modules m -> 0 <= level ->
  exists r m', reg_module n level m = Done (r, m') /\ wf m' /\
    if MODULE_LEVEL_NUM <=? level then r = -1 /\ m' = m
    else if bool_decide (module_name nd <> ""%string /\ is_Some (m_module_maps m !! module_name nd)) then r = -2 /\ m' = m
    else r = 0 /\ nodes m' = nodes m /\ m_module_num m' = m_module_num m + 1 /\
      (forall i, m_level m' !! i = if decide (i = Z.to_nat level) then (fun lv => lv ++ [n]) <$> m_level m !! i else m_level m !! i) /\
      (forall name, m_module_maps m' !! name = if decide (name = module_name nd /\ name <> ""%string) then Some n else m_module_maps m !! name).
Proof.
  intros Hw E Hn Hl. unfold reg_module at 1. rewrite E. cbn [of_option]. rewrite outcome_bind_ret.
  destruct (Z.leb_spec MODULE_LEVEL_NUM level) as [Hlev|Hlev]; [by exists (-1), m|].
  case_bool_decide as Hdup; [by exists (-2), m|].
  destruct (reg_module_wf n level m nd Hw E Hn) as (m' & E' & Hw' & _); [lia| |].
  { intros Hne. destruct (m_module_maps m !! module_name nd) as [x|] eqn:Ex; [|done]. destruct Hdup. split; [done|]. by exists x. }
  unfold reg_module in E'. rewrite E in E'. cbn [of_option] in E'. rewrite outcome_bind_ret, (proj2 (Z.leb_gt _ _)) in E' by done.
  rewrite bool_decide_eq_false_2 in E' by done. exists 0, m'. split; [exact E'|]. split; [done|]. split; [done|].
  destruct (level <? 0); [done|]. case_bool_decide; [done|].
  destruct (m_level m !! Z.to_nat level) as [lv|] eqn:Elv; [|done]. cbn [of_option mbind outcome_bind] in E'. injection E' as <-.
  cbn [nodes m_module_num m_level m_module_maps]. split; [done|]. split; [done|]. split.
  - intros i. destruct (decide (i = Z.to_nat level)) as [->|Hi]; [|rewrite list_lookup_insert_ne; done].
    rewrite list_lookup_insert_eq by (by eapply lookup_lt_Some). by rewrite Elv.
  - intros name. case_bool_decide as Hname.
    + case_decide as Hd; [|done]. destruct Hd as [-> ?]. done.
    + case_decide as Hd; [destruct Hd as [-> _]; apply lookup_insert_eq|]. apply lookup_insert_ne. intros <-. apply Hd. by split.
Qed.

(** C23: when every name is registered and no module depends on itself,
    init_all_modules returns: either it is 0 and every registered module was
    initialised once, after all that it depends on, or it is -2 and the walk
    stopped at the first function that did not return 0. *)
Theorem init_order fuel m w :
  wf m -> unstarted m -> resolves m -> acyclic m -> (List.length (modules m) <= fuel)%nat ->
  exists r m' w', init_all_modules fuel (m, w) = Done (r, (m', w')) /\ dependency_order m (m_fin_queue m') /\
    ((r = 0 /\ m_fin_queue m' ≡ₚ modules m /\ all_started m (m_fin_queue m') (log_start w) w') \/
     (r = -2 /\ failed_at m (m_fin_queue m') (log_start w) w')).
Proof.
  intros Hw Hu Hres Hac Hfuel. destruct (init_all_outcome fuel m w Hw Hu Hres) as (M & Hy & HM & HE & Hfin & HO).
  destruct (init_all_modules fuel (m, w)) as [[r [m' w']]| |]; [|done|].
  - destruct HO as (_ & _ & Hdep & HO). exists r, m', w'. split; [done|]. split; [done|]. destruct HO as [(-> & Hst & Hall)|?]; [left|by right].
    split_and!; [done| |done]. destruct Hdep as (Hnd & Hsub & _). apply NoDup_Permutation; [done|apply (w_nodup _ Hw)|]. by split; auto.
  - destruct HO as (n & Hn & Hp). by destruct (acyclic_path fuel m M n Hw HM (fun n d Hn => proj1 (HE n d Hn)) Hac Hn Hfuel).
Qed.

(** C24: with functions that return 0 and dependencies that are all registered,
    init_all_modules returns exactly when no module depends on itself; a cycle makes it
    call itself for ever. *)
Theorem init_returns_iff_acyclic m w :
  wf m -> unstarted m -> resolves m -> (forall f n w, (func f n w).1 = 0) ->
  (exists fuel, init_all_modules fuel (m, w) <> NoFuel) <-> acyclic m.
Proof.
  intros Hw Hu Hres Hok. split.
  - intros [fuel Hne] n Ht. destruct (init_all_outcome fuel m w Hw Hu Hres) as (M & Hy & HM & HE & Hfin & HO).
    destruct (init_all_modules fuel (m, w)) as [[r [m' w']]| |]; [|done..].
    destruct HO as (_ & Hre & Hdep & [(_ & _ & Hall)|(_ & x & fs & f & rest & Hfail)]); [|by destruct Hfail as (_ & _ & _ & [] & _)].
    apply (ordered_acyclic M (m_fin_queue m') n); [apply (r_order _ _ Hre)|by apply Hall, cycle_registered|].
    assert (HT : forall x y, x ∈ modules m -> tc (declared m) x y -> tc (edge M) x y); [|by apply HT; [apply cycle_registered|]].
    intros x y Hx Hxy. induction Hxy as [x y He|x y z He _ IH]; [by apply tc_once, HE|]. apply (tc_l _ _ y); [by apply HE|].
    apply IH. destruct He as (nd & name & _ & _ & Hd). by destruct (w_maps _ Hw _ _ Hd).
  - intros Hac. exists (List.length (modules m)). intros E. destruct (init_all_outcome (List.length (modules m)) m w Hw Hu Hres) as (M & Hy & HM & HE & Hfin & HO).
    rewrite E in HO. destruct HO as (n & Hn & Hp). by destruct (acyclic_path _ m M n Hw HM (fun n d Hn => proj1 (HE n d Hn)) Hac Hn (le_n _)).
Qed.

(** Fin_all_modules calls the fin functions in the reverse of the order of the
    initialisation, module by module and function by function, of the modules that were
    initialised and no others; from then on both calls do nothing. *)
Theorem fin_reverses_init fuel m w r m' w' :
  wf m -> unstarted m -> resolves m -> init_all_modules fuel (m, w) = Done (r, (m', w')) ->
  exists m2, fin_all_modules (m', w') = Done (0, (m2, log_stop (after (reverse (m_fin_queue m') ≫= fun n => calls_of n (reverse (fins m n))) w'))) /\
    forall w2, fin_all_modules (m2, w2) = Done (0, (m2, w2)) /\ init_all_modules fuel (m2, w2) = Done (0, (m2, w2)).
Proof.
  intros Hw Hu Hres E. destruct (init_all_outcome fuel m w Hw Hu Hres) as (M & Hy & HM & HE & Hfin & HO). rewrite E in HO.
  destruct HO as (_ & Hre & (Hnd & Hsub & _) & _). destruct (reached_unfinished _ _ _ Hfin Hre) as (Hi & Hf & Hfs & Hfc).
  unfold fin_all_modules at 1. cbn [fst snd]. rewrite Hi, Hf. cbn [negb Z.eqb].
  destruct (fin_queue_after (reverse (m_fin_queue m')) (set_m_fin_called m') w') as (m2 & E2 & Hi2 & Hf2).
  - by rewrite reverse_Permutation.
  - intros n Hn. rewrite elem_of_reverse in Hn. specialize (Hsub _ Hn). rewrite <-HM in Hsub.
    destruct (reached_node M m' n Hy Hre Hsub) as (nd & En & _). exists nd. split; [done|]. by apply (Hfc n).
  - rewrite E2, outcome_bind_ret. cbn [fst snd]. exists m2. split.
    + unfold fin_calls. f_equal. f_equal. f_equal. f_equal. f_equal. apply list_bind_ext_in. intros n _. by rewrite <-Hfs.
    + intros w2. cbn in Hi2, Hf2. rewrite Hi in Hi2. unfold fin_all_modules, init_all_modules. cbn [fst snd]. by rewrite Hi2, Hf2.
Qed.

Lemma missing_first fuel m w :
  wf m -> unstarted m -> ~ resolves m ->
  exists m1, init_all_modules fuel (m, w) = Done (-1, (m1, log_start w)) /\ linked (set_calc_called m) m1.
Proof.
  intros Hw (Hq & (Hc & Hi & Hf) & Hs & Hfs) Hno. pose proof (calc_all_deps_ok (set_calc_called m) (w_nodes _ Hw)) as HC. unfold result in HC.
  unfold init_all_modules. cbn [fst snd]. rewrite Hi, Hf, Hc. cbn [negb orb Z.eqb].
  destruct (calc_all_deps (set_calc_called m)) as [[r m1]| |]; [|done..]. rewrite outcome_bind_ret. cbn [fst snd].
  destruct HC as [(-> & HL & Hall)|(Hr & HL & _)].
  - destruct Hno. intros n nd name Hn E Hname. destruct (Hall n Hn nd name E Hname) as (d & Hd & _). by exists d.
  - rewrite (proj2 (Z.eqb_neq _ _) Hr). cbn [negb]. by exists m1.
Qed.

(** A failure is reported once.  When a name is missing the first call returns
    -1 before it initialises anything, and a second call initialises every module
    in spite of it; when a function fails the first call returns -2 and a second
    call returns 0 and initialises nothing. *)
Theorem init_failure_forgotten fuel m w :
  wf m -> unstarted m ->
  (~ resolves m -> acyclic m -> (forall f n w, (func f n w).1 = 0) -> (List.length (modules m) <= fuel)%nat ->
     exists m1, init_all_modules fuel (m, w) = Done (-1, (m1, log_start w)) /\ m_fin_queue m1 = [] /\
       forall w1, exists m2 w2, init_all_modules fuel (m1, w1) = Done (0, (m2, w2)) /\ m_fin_queue m2 ≡ₚ modules m /\
         w2 = after (init_calls m (m_fin_queue m2)) (log_start w1)) /\
  (forall m1 w1, resolves m -> init_all_modules fuel (m, w) = Done (-2, (m1, w1)) ->
     forall w2, init_all_modules fuel (m1, w2) = Done (0, (m1, w2))).
Proof.
  intros Hw Hu. split.
  - intros Hno Hac Hok Hfuel. destruct (missing_first fuel m w Hw Hu Hno) as (m1 & E & HL). exists m1. split; [done|].
    pose proof Hu as (Hq & (Hc & Hi & Hf) & Hs & Hfs). split; [by rewrite (proj1 HL)|]. intros w1.
    destruct (linked_ready m m1 Hw Hu HL) as (Hy & HM & HE). unfold init_all_modules. cbn [fst snd].
    replace (m_init_called m1) with 0 by by rewrite (proj1 HL). replace (m_fin_called m1) with 0 by by rewrite (proj1 HL).
    replace (m_calc_called m1) with 1 by by rewrite (proj1 HL). cbn [negb orb Z.eqb]. rewrite outcome_bind_ret. cbn [fst snd negb Z.eqb].
    replace (m_init_called m1) with 0 by by rewrite (proj1 HL). cbn [Z.eqb].
    pose proof (call_all_init_spec fuel _ (log_start w1) Hy) as HA. unfold result in HA. rewrite HM in HA.
    destruct (call_all_init _ _) as [[r [m2 w2]]| |]; [|done|].
    + destruct HA as [(-> & (Hr & Hw2 & _) & Hin)|(_ & _ & n & fs & f & rest & _ & _ & _ & [] & _)]; [|done]. rewrite outcome_bind_ret.
      cbn [fst snd negb Z.eqb] in *. exists m2, w2. split; [done|]. 
      replace (init_calls (set_m_init_called m1) (m_fin_queue m2)) with (init_calls m (m_fin_queue m2)) in Hw2
        by (symmetry; apply (proj1 (linked_calls _ _ HL))).
      destruct Hr as [_ _ Ho Hsub]. split; [|done].
      apply NoDup_Permutation; [apply (ordered_NoDup _ _ Ho)|apply (w_nodup _ Hw)|]. intros n. rewrite <-HM at 1. split; [by intros ?%Hsub|]. rewrite HM. auto.
    + destruct HA as (n & Hn & Hp). by destruct (acyclic_path fuel m _ n Hw HM (fun n d _ => HE n d) Hac Hn Hfuel).
  - intros m1 w1 Hres E w2. destruct (init_all_outcome fuel m w Hw Hu Hres) as (M & _ & _ & _ & Hfin & HO). rewrite E in HO.
    destruct HO as (_ & Hre & _). destruct (reached_unfinished _ _ _ Hfin Hre) as (Hi & _). unfold init_all_modules. cbn [fst snd]. by rewrite Hi.
Qed.

End module.

(** ** A program of three modules *)

(** conf (1), log (2), which needs conf, and net (3), which needs [names]; each has
    one function to initialise it and one to finalise it. *)
Definition conf_node : @module_node_t positive Z := ModuleNode "conf" 0 0 [] [] [10] [11].
Definition log_node : @module_node_t positive Z := ModuleNode "log" 0 0 ["conf"%string] [] [20] [21].
Definition net_node (names : list string) : @module_node_t positive Z := ModuleNode "net" 0 0 names [] [30] [31].

Definition program_nodes (names : list string) : gmap positive (@module_node_t positive Z) :=
  <[1%positive := conf_node]> (<[2%positive := log_node]> {[3%positive := net_node names]}).

(** net registers first, then log and conf. *)
Definition program (names : list string) : @module_mgr_t positive Z _ _ :=
  ModuleMgr (program_nodes names) (<["conf"%string := 1%positive]> (<["log"%string := 2%positive]> {["net"%string := 3%positive]})) []
    (<[10%nat := [3%positive; 2%positive; 1%positive]]> (replicate 20 [])) 0 0 0 3 0 0.

(** A function writes its number to the world and succeeds. *)
Definition trace_func (f : Z) (n : positive) (w : list Z) : Z * list Z := (0, w ++ [f]).

Lemma program_node names n nd :
  nodes (program names) !! n = Some nd -> (n = 1%positive /\ nd = conf_node) \/ (n = 2%positive /\ nd = log_node) \/ (n = 3%positive /\ nd = net_node names).
Proof. cbn. unfold program_nodes. rewrite !lookup_insert_Some, lookup_singleton_Some. naive_solver. Qed.

Lemma program_name names name n :
  m_module_maps (program names) !! name = Some n ->
  (name = "conf"%string /\ n = 1%positive) \/ (name = "log"%string /\ n = 2%positive) \/ (name = "net"%string /\ n = 3%positive).
Proof. cbn. rewrite !lookup_insert_Some, lookup_singleton_Some. naive_solver. Qed.

Lemma program_wf names : wf (program names).
Proof.
  assert (E : modules (program names) = [3%positive; 2%positive; 1%positive]) by reflexivity. split; rewrite ?E; try done.
  - by apply (bool_decide_unpack _).
  - intros n Hn. rewrite !elem_of_cons in Hn. destruct Hn as [->|[->|[->|[]%elem_of_nil]]]; by eexists.
  - intros name n [[-> ->]|[[-> ->]|[-> ->]]]%program_name; split; try (apply (bool_decide_unpack _); reflexivity); by eexists.
  - by intros n nd _ [[-> ->]|[[-> ->]|[-> ->]]]%program_node _.
  - by intros n nd [[-> ->]|[[-> ->]|[-> ->]]]%program_node.
Qed.

Lemma program_unstarted names : unstarted (program names).
Proof. by split_and!. Qed.

Lemma program_acyclic names : (forall name, name ∈ names -> name <> "net"%string) -> acyclic (program names).
Proof.
  intros Hnames n Ht. assert (HR : forall x y, tc (declared (program names)) x y -> (Pos.to_nat y < Pos.to_nat x)%nat); [|specialize (HR _ _ Ht); lia].
  clear n Ht. intros x y Ht. assert (HS : forall x y, declared (program names) x y -> (Pos.to_nat y < Pos.to_nat x)%nat).
  { clear x y Ht. intros x y (nd & name & [[-> ->]|[[-> ->]|[-> ->]]]%program_node & Hname & Hd%program_name); cbn in Hname.
    - by apply elem_of_nil in Hname.
    - apply list_elem_of_singleton in Hname as ->. destruct Hd as [[_ ->]|[[? _]|[? _]]]; try done. cbn. lia.
    - apply Hnames in Hname. destruct Hd as [[_ ->]|[[_ ->]|[? _]]]; try done; cbn; lia. }
  induction Ht as [x y He|x y z He _ IH]; [by apply HS|]. apply HS in He. lia.
Qed.

Lemma program_resolves : resolves (program ["log"; "conf"]%string).
Proof.
  intros n nd name _ [[-> ->]|[[-> ->]|[-> ->]]]%program_node Hname; cbn in Hname; rewrite ?elem_of_cons, ?elem_of_nil in Hname;
    repeat destruct Hname as [Hname|Hname]; try done; subst; by eexists.
Qed.


Lemma reg_module_registers_witness :
  exists m', reg_module 3%positive 10 (new_mgr (program_nodes [])) = Done (0, m') /\
    m_level m' !! 10%nat = Some [3%positive] /\ m_level m' !! 9%nat = Some [] /\ m_module_maps m' !! "net"%string = Some 3%positive.
Proof.
  destruct (reg_module_registers 3%positive 10 (new_mgr (program_nodes [])) (net_node [])) as (r & m' & E & _ & H).
  - apply new_mgr_wf. by intros n nd [[-> ->]|[[-> ->]|[-> ->]]]%(program_node []).
  - reflexivity.
  - by apply not_elem_of_nil.
  - done.
  - rewrite bool_decide_eq_false_2 in H by (by intros [_ [x ?]]). cbn [Z.leb MODULE_LEVEL_NUM Z.compare Pos.compare Pos.compare_cont] in H.
    destruct H as (-> & _ & _ & Hlev & Hmap). exists m'. split; [exact E|]. rewrite !Hlev, Hmap. by split_and!.
Defined.

Lemma init_order_witness :
  exists m' w', init_all_modules trace_func id 3 (program ["log"; "conf"]%string, []) = Done (0, (m', w')) /\
    m_fin_queue m' ≡ₚ [3; 2; 1]%positive /\ w' = [10; 20; 30].
Proof.
  destruct (init_order trace_func id 3 (program ["log"; "conf"]%string) []) as (r & m' & w' & E & _ & H).
  - apply program_wf.
  - apply program_unstarted.
  - apply program_resolves.
  - apply program_acyclic. intros name. rewrite !elem_of_cons, elem_of_nil. by intros [->|[->|[]]].
  - done.
  - destruct H as [(-> & HP & _)|(-> & n & fs & f & rest & _ & _ & _ & [] & _)]; [|done]. exists m', w'. split; [done|]. split; [exact HP|].
    vm_compute in E. by injection E as <- <-.
Defined.

Lemma init_returns_iff_acyclic_witness : exists fuel, init_all_modules trace_func id fuel (program ["log"; "conf"]%string, []) <> NoFuel.
Proof.
  apply (init_returns_iff_acyclic trace_func id (program ["log"; "conf"]%string) []).
  - apply program_wf.
  - apply program_unstarted.
  - apply program_resolves.
  - done.
  - apply program_acyclic. intros name. rewrite !elem_of_cons, elem_of_nil. by intros [->|[->|[]]].
Defined.

(** The manager once the program has started. *)
Definition started : @module_mgr_t positive Z _ _ :=
  match init_all_modules trace_func id 3 (program ["log"; "conf"]%string, []) with Done (_, (m', _)) => m' | _ => program [] end.

Lemma fin_reverses_init_witness :
  exists m2, fin_all_modules trace_func id (started, [10; 20; 30]) = Done (0, (m2, [10; 20; 30; 31; 21; 11])).
Proof.
  destruct (fin_reverses_init trace_func id id 3 (program ["log"; "conf"]%string) [] 0 started [10; 20; 30]) as (m2 & E2 & _).
  - apply program_wf.
  - apply program_unstarted.
  - apply program_resolves.
  - by vm_compute.
  - exists m2. etrans; [exact E2|]. by vm_compute.
Defined.

Lemma init_failure_forgotten_witness :
  exists m1, init_all_modules trace_func id 3 (program ["log"; "db"]%string, []) = Done (-1, (m1, [])) /\
    exists m2 w2, init_all_modules trace_func id 3 (m1, []) = Done (0, (m2, w2)) /\ m_fin_queue m2 ≡ₚ [3; 2; 1]%positive.
Proof.
  destruct (init_failure_forgotten trace_func id 3 (program ["log"; "db"]%string) []) as [H _].
  - apply program_wf.
  - apply program_unstarted.
  - destruct H as (m1 & E & _ & H).
    + intros Hr. destruct (Hr 3%positive (net_node ["log"; "db"]%string) "db"%string) as [x Hx]; [by apply (bool_decide_unpack _)|done|by right; left|].
      by vm_compute in Hx.
    + apply program_acyclic. intros name. rewrite !elem_of_cons, elem_of_nil. by intros [->|[->|[]]].
    + done.
    + done.
    + exists m1. split; [exact E|]. destruct (H []) as (m2 & w2 & E2 & HP & _). by exists m2, w2.
Defined.
