(* ===== verification/Pbc.v ===== *)
(** * base/pbc.h, base/src/pbc.cpp: the wire format of protocol buffers

    A reader [pb_field_t] walks over the fields of a message, a writer [pb_buff_t]
    appends fields to a buffer.  Pointers are offsets from the start of the buffer
    that they point into; an access outside of the buffer is a [Fault].  The value
    of a field is the C union, 16 bytes as two words, so that a member that is read
    after another was written is what the machine gives. *)
From Stdlib Require Import String.
From S2P Require Import Prelude Words Memory.

(** ** Buffers *)

Definition load (buf : list Z) (p : Z) : outcome Z :=
  if p <? 0 then Fault else of_option (buf !! Z.to_nat p).

Fixpoint load_bytes (buf : list Z) (p : Z) (n : nat) : outcome (list Z) :=
  match n with
  | O => Done []
  | S n => b ← load buf p; l ← load_bytes buf (p + 1) n; Done (b :: l)
  end.

(** memcpy to offset [p]. *)
Definition store_bytes (buf : list Z) (p : Z) (l : list Z) : outcome (list Z) :=
  if (0 <=? p) && (p + Z.of_nat (length l) <=? Z.of_nat (length buf))
  then Done (take (Z.to_nat p) buf ++ l ++ drop (Z.to_nat p + length l) buf) else Fault.

(** The bytes of a little-endian word. *)
Fixpoint le_bytes (n : nat) (v : Z) : list Z :=
  match n with O => [] | S n => Z.land v 0xff :: le_bytes n (Z.shiftr v 8) end.
Fixpoint le_word (l : list Z) : Z :=
  match l with [] => 0 | b :: l => b + 256 * le_word l end.

(** The bytes of htonl(x) in memory, and ntohl of four bytes. *)
Definition be32 (x : Z) : list Z := reverse (le_bytes 4 x).
Definition ntohl (l : list Z) : Z := le_word (reverse l).

(** ** Data *)

Definition PB_WT_VARINT : Z := 0.
Definition PB_WT_FIXED64 : Z := 1.
Definition PB_WT_STRING : Z := 2.
Definition PB_WT_FIXED32 : Z := 5.

(** pb_field_val_t: i32 and str.len are the low half of the first word, i64 is the
    first word, str.data the second. *)
Record pb_field_val_t := Val { lo : Z; hi : Z }.
Implicit Types v : pb_field_val_t.

Definition i32_of v : Z := u32 (lo v).
Definition i64_of v : Z := lo v.
Definition str_len v : Z := u32 (lo v).
Definition str_data v : Z := hi v.
Definition set_i32 (x : Z) v : pb_field_val_t := Val (Z.lor (Z.shiftl (Z.shiftr (lo v) 32) 32) (u32 x)) (hi v).
Definition set_i64 (x : Z) v : pb_field_val_t := Val (u64 x) (hi v).
Definition set_str (len data : Z) v : pb_field_val_t := Val (lo (set_i32 len v)) data.

Record pb_field_t := Field {
  tag : Z; eom : Z; type : Z; val : pb_field_val_t;
  size : Z; ptr : Z; left : Z; errmsg : option string }.
Implicit Types f : pb_field_t.

Definition set_val v f : pb_field_t := Field (tag f) (eom f) (type f) v (size f) (ptr f) (left f) (errmsg f).
Definition set_eom f : pb_field_t := Field (tag f) 1 (type f) (val f) (size f) (ptr f) (left f) (errmsg f).
Definition set_tag (t ty : Z) f : pb_field_t := Field t (eom f) ty (val f) (size f) (ptr f) (left f) (errmsg f).
Definition set_left (n : Z) f : pb_field_t := Field (tag f) (eom f) (type f) (val f) (size f) (ptr f) n (errmsg f).

(** f->ptr += n; f->left -= n *)
Definition advance (n : Z) f : pb_field_t := Field (tag f) (eom f) (type f) (val f) (size f) (ptr f + n) (i32 (left f - n)) (errmsg f).

(** PB_RETURN_ERROR *)
Definition set_err (msg : string) f : pb_field_t :=
  Field (tag f) (eom f) (type f) (val f) (size f) (ptr f) (left f) (match errmsg f with None => Some msg | e => e end).

(** ** The reader *)
Section reader.
Context (buf : list Z).

Definition pb_get (count : Z) f : outcome (Z * pb_field_t) :=
  if u64 (left f) <? count then Done (-1, set_err "end-of-buffer" f) else Done (0, advance count f).

Definition pb_get_byte f : outcome (Z * Z * pb_field_t) :=
  if left f <? 1 then Done (-1, 0, set_err "end-of-buffer" f)
  else b ← load buf (ptr f); Done (0, b, advance 1 f).

(** pb_get_dword with &f->val.i32, pb_get_ddword with &f->val.i64. *)
Definition pb_get_dword f : outcome (Z * pb_field_t) :=
  if left f <? 4 then Done (-1, set_err "end-of-buffer" f)
  else l ← load_bytes buf (ptr f) 4; Done (0, advance 4 (set_val (set_i32 (le_word l) (val f)) f)).

Definition pb_get_ddword f : outcome (Z * pb_field_t) :=
  if left f <? 8 then Done (-1, set_err "end-of-buffer" f)
  else l ← load_bytes buf (ptr f) 8; Done (0, advance 8 (set_val (set_i64 (le_word l) (val f)) f)).

(** The same with a null buffer, as the skipping functions call them. *)
Definition skip_word (n : Z) f : outcome (Z * pb_field_t) :=
  if left f <? n then Done (-1, set_err "end-of-buffer" f) else Done (0, advance n f).

(** The loop of pb_decode_varint: [bitpos] grows by 7, so that ten rounds are enough. *)
Fixpoint decode_varint (fuel : nat) (bitpos result : Z) f : outcome (Z * pb_field_t) :=
  match fuel with
  | O => NoFuel
  | S fuel =>
      if 64 <=? bitpos then Done (-1, set_err "varint overflow" f)
      else
        r ← pb_get_byte f;
        let '(ret, byte, f) := r in
        if negb (ret =? 0) then Done (-2, f)
        else
          let result := Z.lor result (u64 (Z.shiftl (Z.land byte 0x7f) bitpos)) in
          if negb (Z.land byte 0x80 =? 0) then decode_varint fuel (u8 (bitpos + 7)) result f
          else Done (0, set_val (set_i64 result (val f)) f)
  end.
Definition pb_decode_varint f : outcome (Z * pb_field_t) := decode_varint 11 0 0 f.

Definition pb_decode_fixed32 f : outcome (Z * pb_field_t) := pb_get_dword f.
Definition pb_decode_fixed64 f : outcome (Z * pb_field_t) := pb_get_ddword f.

Definition pb_decode_string f : outcome (Z * pb_field_t) :=
  r ← pb_decode_varint f;
  let '(ret, f) := r in
  if negb (ret =? 0) then Done (-1, f)
  else if u64 (left f) <? i64_of (val f) then Done (-2, set_err "string overflow" f)
  else
    let sz := u32 (i64_of (val f)) in
    Done (0, advance sz (set_val (set_str sz (ptr f) (val f)) f)).

(** pb_skip_varint gives up quietly at the end of the buffer. *)
Fixpoint skip_varint (fuel : nat) f : outcome (Z * pb_field_t) :=
  match fuel with
  | O => NoFuel
  | S fuel =>
      r ← pb_get_byte f;
      let '(ret, byte, f) := r in
      if negb (ret =? 0) then Done (0, f)
      else if negb (Z.land byte 0x80 =? 0) then skip_varint fuel f else Done (0, f)
  end.
Definition pb_skip_varint f : outcome (Z * pb_field_t) := skip_varint (S (length buf)) f.

Definition pb_skip_string f : outcome (Z * pb_field_t) :=
  r ← pb_decode_varint f;
  if negb (r.1 =? 0) then Done (-1, r.2) else pb_get (i32_of (val r.2)) r.2.

Definition pb_skip_field (wire_type : Z) f : outcome (Z * pb_field_t) :=
  if wire_type =? PB_WT_VARINT then pb_skip_varint f
  else if wire_type =? PB_WT_FIXED64 then skip_word 8 f
  else if wire_type =? PB_WT_STRING then pb_skip_string f
  else if wire_type =? PB_WT_FIXED32 then skip_word 4 f
  else Done (-1, set_err "invalid wire_type" f).

Definition pb_decode_tag f : outcome (Z * pb_field_t) :=
  r ← pb_decode_varint f;
  let '(ret, f) := r in
  if negb (ret =? 0) then Done (-1, if left f =? 0 then set_eom f else f)
  else if i64_of (val f) =? 0 then Done (-2, set_err "0-terminated msg" (set_eom f))
  else
    let f := set_tag (u32 (Z.shiftr (i64_of (val f)) 3)) (Z.land (i32_of (val f)) 7) f in
    if type f =? PB_WT_VARINT then pb_decode_varint f
    else if type f =? PB_WT_FIXED64 then pb_decode_fixed64 f
    else if type f =? PB_WT_STRING then pb_decode_string f
    else if type f =? PB_WT_FIXED32 then pb_decode_fixed32 f
    else Done (-3, set_err "invalid wire_type" f).

(** pb_begin, pb_begin_delimited and pb_next return [None] for NULL; [f] is what the
    structure held before. *)
Definition pb_begin f (dlen : Z) : outcome (option pb_field_t * pb_field_t) :=
  r ← pb_decode_tag (Field (tag f) 0 (type f) (val f) (u32 dlen) 0 dlen None);
  Done (if r.1 =? 0 then Some r.2 else None, r.2).

Definition pb_begin_delimited f (dlen : Z) : outcome (option pb_field_t * pb_field_t) :=
  r ← pb_decode_varint (Field (tag f) 0 (type f) (val f) (u32 dlen) 0 dlen (errmsg f));
  let '(ret, f) := r in
  if negb (ret =? 0) then Done (None, f)
  else if u64 (left f) <? i64_of (val f) then Done (None, set_err "delimited overflow" f)
  else
    r ← pb_decode_tag (set_left (i32 (i64_of (val f))) f);
    Done (if r.1 =? 0 then Some r.2 else None, r.2).

Definition pb_next f : outcome (option pb_field_t * pb_field_t) :=
  r ← pb_decode_tag f; Done (if r.1 =? 0 then Some r.2 else None, r.2).

(** The loop of the readers' clients: pb_begin, then pb_next until NULL. *)
Fixpoint pb_rest (fuel : nat) (o : option pb_field_t * pb_field_t) : outcome (list pb_field_t * pb_field_t) :=
  match o.1 with
  | None => Done ([], o.2)
  | Some f =>
      match fuel with
      | O => NoFuel
      | S fuel => o ← pb_next f; r ← pb_rest fuel o; Done (f :: r.1, r.2)
      end
  end.
Definition pb_fields (fuel : nat) f (dlen : Z) : outcome (list pb_field_t * pb_field_t) :=
  o ← pb_begin f dlen; pb_rest fuel o.

End reader.

(** ** The writer *)

Record pb_buff_t := Buff { out : list Z; bsize : Z; bptr : Z; bleft : Z; berr : option string }.
Implicit Types b : pb_buff_t.

(** pb_init_buff over a buffer of which the caller says that it has [sz] bytes. *)
Definition pb_init_buff (mem : list Z) (sz : Z) : pb_buff_t := Buff mem (u64 (i32 sz)) 0 (i32 sz) None.

Definition set_berr (msg : string) b : pb_buff_t :=
  Buff (out b) (bsize b) (bptr b) (bleft b) (match berr b with None => Some msg | e => e end).

Definition pb_write (l : list Z) b : outcome pb_buff_t :=
  o ← store_bytes (out b) (bptr b) l;
  Done (Buff o (bsize b) (bptr b + Z.of_nat (length l)) (i32 (bleft b - Z.of_nat (length l))) (berr b)).

Definition pb_add (l : list Z) b : outcome (Z * pb_buff_t) :=
  if u64 (bleft b) <? Z.of_nat (length l) then Done (-1, set_berr "buf overflow" b)
  else b ← pb_write l b; Done (0, b).

Definition pb_add_user (l : list Z) b : outcome (Z * pb_buff_t) := pb_add l b.

Definition pb_add_dword (x : Z) b : outcome (Z * pb_buff_t) :=
  if bleft b <? 4 then Done (-1, set_berr "buf overflow" b) else b ← pb_write (le_bytes 4 x) b; Done (0, b).

Definition pb_add_ddword (x : Z) b : outcome (Z * pb_buff_t) :=
  if bleft b <? 8 then Done (-1, set_berr "buf overflow" b) else b ← pb_write (le_bytes 8 x) b; Done (0, b).

(** The loop of pb_add_vint over buffer[10]; an eleventh byte would be out of it. *)
Fixpoint vint_groups (room : nat) (value : Z) : outcome (list Z) :=
  if value =? 0 then Done []
  else
    match room with
    | O => Fault
    | S room => l ← vint_groups room (Z.shiftr value 7); Done (Z.lor (Z.land value 0x7f) 0x80 :: l)
    end.

(** buffer[i-1] &= 0x7F *)
Fixpoint unset_top (l : list Z) : list Z :=
  match l with
  | [] => []
  | [x] => [Z.land x 0x7f]
  | x :: l => x :: unset_top l
  end.

Definition pb_add_vint (value : Z) b : outcome (Z * pb_buff_t) :=
  if value =? 0 then pb_add [0] b else l ← vint_groups 10 value; pb_add (unset_top l) b.

Definition make_tag (wiretype field_number : Z) : Z := u32 (Z.lor wiretype (u32 (Z.shiftl field_number 3))).
Definition pb_add_tag (wiretype field_number : Z) b : outcome (Z * pb_buff_t) := pb_add_vint (make_tag wiretype field_number) b.

Definition pb_add_string_head (t n : Z) b : outcome (Z * pb_buff_t) :=
  r ← pb_add_tag PB_WT_STRING t b;
  if negb (r.1 =? 0) then Done (-1, r.2) else pb_add_vint n r.2.

Definition pb_add_varint (t value : Z) b : outcome (Z * pb_buff_t) :=
  r ← pb_add_tag PB_WT_VARINT t b;
  if negb (r.1 =? 0) then Done (-1, r.2) else pb_add_vint value r.2.

Definition pb_add_string (t : Z) (l : list Z) b : outcome (Z * pb_buff_t) :=
  r ← pb_add_tag PB_WT_STRING t b;
  if negb (r.1 =? 0) then Done (-1, r.2)
  else
    r ← pb_add_vint (Z.of_nat (length l)) r.2;
    if negb (r.1 =? 0) then Done (-2, r.2) else pb_add l r.2.

Definition pb_add_fixed32 (t value : Z) b : outcome (Z * pb_buff_t) :=
  r ← pb_add_tag PB_WT_FIXED32 t b;
  if negb (r.1 =? 0) then Done (-1, r.2) else pb_add_dword value r.2.

Definition pb_add_fixed64 (t value : Z) b : outcome (Z * pb_buff_t) :=
  r ← pb_add_tag PB_WT_FIXED64 t b;
  if negb (r.1 =? 0) then Done (-1, r.2) else pb_add_ddword value r.2.

(** pb_add_field_val; [src] is the buffer that a string value points into. *)
Definition pb_add_field_val (src : list Z) (t ty : Z) v b : outcome (Z * pb_buff_t) :=
  r ← pb_add_tag ty t b;
  if negb (r.1 =? 0) then Done (-1, r.2)
  else if ty =? PB_WT_VARINT then pb_add_vint (i64_of v) r.2
  else if ty =? PB_WT_FIXED64 then pb_add_ddword (i64_of v) r.2
  else if ty =? PB_WT_STRING then
    r ← pb_add_vint (str_len v) r.2;
    if negb (r.1 =? 0) then Done (-2, r.2)
    else l ← load_bytes src (str_data v) (Z.to_nat (str_len v)); pb_add l r.2
  else if ty =? PB_WT_FIXED32 then pb_add_dword (i32_of v) r.2
  else Done (-2, set_berr "invalid wire_type" r.2).

Definition pb_add_field (src : list Z) f b : outcome (Z * pb_buff_t) := pb_add_field_val src (tag f) (type f) (val f) b.

Definition pb_get_encoded_length b : Z := i32 (bsize b - bleft b).

(** pb_eval_vint_length and its users. *)
Fixpoint vint_length (fuel : nat) (value : Z) : Z :=
  match fuel with O => 0 | S fuel => if value =? 0 then 0 else 1 + vint_length fuel (Z.shiftr value 7) end.
Definition pb_eval_vint_length (value : Z) : Z := if value =? 0 then 1 else vint_length 10 value.
Definition pb_eval_tag_length (wiretype field_number : Z) : Z := pb_eval_vint_length (make_tag wiretype field_number).
Definition pb_eval_field_length (t ty : Z) v : Z :=
  if ty =? PB_WT_VARINT then pb_eval_tag_length ty t + pb_eval_vint_length (i64_of v)
  else if ty =? PB_WT_FIXED64 then pb_eval_tag_length ty t + 8
  else if ty =? PB_WT_FIXED32 then pb_eval_tag_length ty t + 4
  else pb_eval_tag_length ty t + pb_eval_vint_length (str_len v) + str_len v.

(** pb_int2uint and pb_uint2int. *)
Definition pb_int2uint (s : Z) : Z := if s <? 0 then u64 (Z.lnot (i64 (Z.shiftl s 1))) else u64 (i64 (Z.shiftl s 1)).
Definition pb_uint2int (u : Z) : Z := if negb (Z.land u 1 =? 0) then i64 (u64 (Z.lnot (Z.shiftr u 1))) else i64 (Z.shiftr u 1).

(** ** The format *)

(** Seven bits to a byte, the least significant first. *)
Fixpoint varint (k : nat) (x : Z) : list Z :=
  match k with
  | O => []
  | S k => if x <? 128 then [x] else (x mod 128 + 128) :: varint k (x / 128)
  end.

(** What a field carries. *)
Inductive pb_value := PVarint (x : Z) | PFixed64 (x : Z) | PString (l : list Z) | PFixed32 (x : Z).

Definition wire_type (p : pb_value) : Z :=
  match p with PVarint _ => PB_WT_VARINT | PFixed64 _ => PB_WT_FIXED64 | PString _ => PB_WT_STRING | PFixed32 _ => PB_WT_FIXED32 end.

Definition encode_value (p : pb_value) : list Z :=
  match p with
  | PVarint x => varint 10 x
  | PFixed64 x => le_bytes 8 x
  | PString l => varint 10 (Z.of_nat (length l)) ++ l
  | PFixed32 x => le_bytes 4 x
  end.

Definition encode_field (t : Z) (p : pb_value) : list Z := varint 10 (8 * t + wire_type p) ++ encode_value p.
Definition encode (fs : list (Z * pb_value)) : list Z := fs ≫= fun tp => encode_field tp.1 tp.2.

(** The call that writes a field. *)
Definition pb_add_value (t : Z) (p : pb_value) b : outcome (Z * pb_buff_t) :=
  match p with
  | PVarint x => pb_add_varint t x b
  | PFixed64 x => pb_add_fixed64 t x b
  | PString l => pb_add_string t l b
  | PFixed32 x => pb_add_fixed32 t x b
  end.

Definition value_ok (p : pb_value) : Prop :=
  match p with
  | PVarint x | PFixed64 x => in_u 64 x
  | PString l => Z.of_nat (length l) < 2 ^ 31 /\ Forall (in_u 8) l
  | PFixed32 x => in_u 32 x
  end.

Definition field_ok (tp : Z * pb_value) : Prop := (1 <= tp.1 < 2 ^ 29) /\ value_ok tp.2.

(** ** Words and varints *)

Lemma le_bytes_length n x : length (le_bytes n x) = n.
Proof. revert x. induction n as [|n IH]; intros x; cbn; [done|by rewrite IH]. Qed.

Lemma le_word_bytes n x : 0 <= x < 2 ^ (8 * Z.of_nat n) -> le_word (le_bytes n x) = x.
Proof.
  revert x. induction n as [|n IH]; intros x Hx; [cbn in *; lia|]. cbn [le_bytes le_word].
  change 0xff with (Z.ones 8). rewrite Z.land_ones, Z.shiftr_div_pow2 by lia. rewrite IH.
  - pose proof (Z.div_mod x (2 ^ 8) ltac:(lia)). lia.
  - split; [apply Z.div_pos; lia|]. apply Z.div_lt_upper_bound; [lia|]. rewrite <-Z.pow_add_r by lia.
    replace (8 + 8 * Z.of_nat n) with (8 * Z.of_nat (S n)) by lia. lia.
Qed.

Lemma store_front (l x : list Z) n : length l = n -> (n <= length x)%nat -> store_bytes x 0 l = Done (l ++ drop n x).
Proof.
  intros <- Hn. unfold store_bytes. cbn [Z.leb Z.compare andb]. rewrite (proj2 (Z.leb_le _ _)) by lia. done.
Qed.

Lemma be32_length x : length (be32 x) = 4%nat.
Proof. unfold be32. by rewrite length_reverse, le_bytes_length. Qed.

Lemma ntohl_be32 x : in_u 32 x -> ntohl (be32 x) = x.
Proof. intros Hx. unfold ntohl, be32. rewrite reverse_involutive. by apply le_word_bytes. Qed.

Lemma varint_cons k x : (0 < k)%nat -> varint k x = if x <? 128 then [x] else (x mod 128 + 128) :: varint (pred k) (x / 128).
Proof. by destruct k; [lia|]. Qed.

Lemma varint_length k x : 0 <= x < 2 ^ (7 * Z.of_nat k) -> (0 < k)%nat -> (1 <= length (varint k x) <= k)%nat.
Proof.
  revert x. induction k as [|k IH]; intros x Hx Hk; [lia|]. cbn [varint]. destruct (Z.ltb_spec x 128); cbn [length]; [lia|].
  destruct k as [|k]; [cbn in *; lia|]. assert (0 <= x / 128 < 2 ^ (7 * Z.of_nat (S k))); [|specialize (IH (x / 128) H0 ltac:(lia)); lia].
  split; [apply Z.div_pos; lia|]. apply Z.div_lt_upper_bound; [lia|]. change 128 with (2 ^ 7). rewrite <-Z.pow_add_r by lia.
  replace (7 + 7 * Z.of_nat (S k)) with (7 * Z.of_nat (S (S k))) by lia. lia.
Qed.

Lemma low7 x : Z.land x 0x7f = x mod 128.
Proof. change 0x7f with (Z.ones 7). by rewrite Z.land_ones. Qed.

Lemma set_bit7 x : 0 <= x < 128 -> Z.lor x 0x80 = x + 128.
Proof. intros Hx. change 0x80 with (Z.shiftl 1 7). rewrite lor_shiftl_add; [done|lia|]. unfold in_u. lia. Qed.

Lemma test_bit7 x : 0 <= x < 128 -> Z.land x 0x80 = 0 /\ Z.land (x + 128) 0x80 = 0x80 /\ (x + 128) mod 128 = x.
Proof.
  intros Hx. split; [|split].
  - pose proof (upto_check 128 (fun x => Z.land x 0x80 =? 0) eq_refl x) as H. cbn in H. apply Z.eqb_eq, H. lia.
  - pose proof (upto_check 128 (fun x => Z.land (x + 128) 0x80 =? 0x80) eq_refl x) as H. apply Z.eqb_eq, H. cbn. lia.
  - rewrite <-(Z.mul_1_l 128) at 1. rewrite Z.mod_add by lia. apply Z.mod_small. lia.
Qed.

(** ** Writing *)

(** The writer has appended [w] to an empty buffer. *)
Record wrote b (w : list Z) : Prop := {
  wr_ptr : bptr b = Z.of_nat (length w);
  wr_out : take (length w) (out b) = w;
  wr_left : bleft b = bsize b - Z.of_nat (length w);
  wr_range : 0 <= bleft b < 2 ^ 31;
  wr_room : Z.of_nat (length w) + bleft b <= Z.of_nat (length (out b)) }.

(** The bytes from the size on are as they were. *)
Definition keeps_tail b b' : Prop :=
  bsize b' = bsize b /\ length (out b') = length (out b) /\ drop (Z.to_nat (bsize b)) (out b') = drop (Z.to_nat (bsize b)) (out b).

Lemma keeps_tail_refl b : keeps_tail b b.
Proof. done. Qed.

Lemma keeps_tail_trans b b1 b2 : keeps_tail b b1 -> keeps_tail b1 b2 -> keeps_tail b b2.
Proof. intros (Hs & Hl & Ht) (Hs' & Hl' & Ht'). rewrite Hs in Ht'. split_and!; congruence. Qed.

(** An append of [l]: all of it, or an error. *)
Definition appends b w l (r : outcome (Z * pb_buff_t)) : Prop :=
  (Z.of_nat (length l) <= bleft b /\ exists b', r = Done (0, b') /\ wrote b' (w ++ l) /\ keeps_tail b b') \/
  (bleft b < Z.of_nat (length l) /\ exists e b', e <> 0 /\ r = Done (e, b') /\ keeps_tail b b').

Lemma pb_init_buff_wrote mem sz : 0 <= sz < 2 ^ 31 -> sz <= Z.of_nat (length mem) -> wrote (pb_init_buff mem sz) [] /\ bsize (pb_init_buff mem sz) = sz.
Proof.
  intros Hsz Hmem. unfold pb_init_buff. rewrite wrap_s_id by (unfold in_s; lia). rewrite wrap_u_id by (unfold in_u; lia).
  split; [|done]. split; cbn; done || lia.
Qed.

Lemma pb_write_ok b w l :
  wrote b w -> Z.of_nat (length l) <= bleft b ->
  exists b', pb_write l b = Done b' /\ wrote b' (w ++ l) /\ keeps_tail b b'.
Proof.
  intros [Hp Ho Hl Hr Hm] Hfit. unfold pb_write, store_bytes. rewrite Hp.
  rewrite (proj2 (Z.leb_le 0 _)), (proj2 (Z.leb_le _ _)) by lia. cbn [andb]. rewrite outcome_bind_ret, Nat2Z.id.
  rewrite wrap_s_id by (unfold in_s; lia). eexists. split; [done|].
  assert (Hlen : length (take (length w) (out b) ++ l ++ drop (length w + length l) (out b)) = length (out b)).
  { rewrite !length_app, length_take, length_drop. lia. }
  split.
  - split; cbn [out bptr bleft bsize]; rewrite ?Hlen, ?length_app; try lia.
    rewrite app_assoc, take_app_le by (rewrite length_app, length_take; lia). rewrite Ho at 1. rewrite take_ge; [done|]. rewrite length_app. lia.
  - split; [done|]. split; [exact Hlen|]. cbn [out bsize]. rewrite app_assoc, drop_app_ge by (rewrite length_app, length_take; lia).
    rewrite drop_drop. f_equal. rewrite length_app, length_take. lia.
Qed.

Lemma pb_add_appends b w l : wrote b w -> Z.of_nat (length l) < 2 ^ 63 -> appends b w l (pb_add l b).
Proof.
  intros Hw Hl. unfold appends, pb_add. pose proof (wr_range _ _ Hw). rewrite wrap_u_id by (unfold in_u; lia).
  destruct (Z.ltb_spec (bleft b) (Z.of_nat (length l))) as [Hlt|Hge].
  - right. split; [done|]. by exists (-1), (set_berr "buf overflow" b).
  - left. split; [done|]. destruct (pb_write_ok b w l Hw Hge) as (b' & E & Hb'). exists b'. by rewrite E, outcome_bind_ret.
Qed.

(** The guard of the fixed-width words. *)
Lemma pb_add_word n x b w :
  wrote b w -> appends b w (le_bytes n x)
    (if bleft b <? Z.of_nat n then Done (-1, set_berr "buf overflow" b) else b ← pb_write (le_bytes n x) b; Done (0, b)).
Proof.
  intros Hw. unfold appends. rewrite le_bytes_length. destruct (Z.ltb_spec (bleft b) (Z.of_nat n)) as [Hlt|Hge].
  - right. split; [done|]. by exists (-1), (set_berr "buf overflow" b).
  - left. split; [done|]. destruct (pb_write_ok b w (le_bytes n x) Hw) as (b' & E & Hb'); [rewrite le_bytes_length; lia|].
    exists b'. by rewrite E, outcome_bind_ret.
Qed.

Lemma vint_groups_varint k x :
  (0 < k)%nat -> 0 < x < 2 ^ (7 * Z.of_nat k) -> exists l, vint_groups k x = Done l /\ l <> [] /\ unset_top l = varint k x.
Proof.
  revert x. induction k as [|k IH]; intros x Hk Hx; [lia|]. cbn [vint_groups varint].
  rewrite (proj2 (Z.eqb_neq x 0)) by lia. rewrite low7, Z.shiftr_div_pow2 by lia. change (2 ^ 7) with 128.
  pose proof (Z.mod_pos_bound x 128 ltac:(lia)) as Hm. rewrite set_bit7 by done.
  destruct (Z.ltb_spec x 128) as [Hs|Hs].
  - rewrite Z.div_small by lia. replace (vint_groups k 0) with (Done (A:=list Z) []) by by destruct k. rewrite outcome_bind_ret.
    exists [x mod 128 + 128]. split; [done|]. split; [done|]. cbn [unset_top]. rewrite low7. rewrite (Z.mod_small x 128) by lia.
    by rewrite (proj2 (proj2 (test_bit7 x ltac:(lia)))).
  - destruct k as [|k]; [cbn in Hx; lia|]. destruct (IH (x / 128)) as (l & E & Hne & Hl); [lia| |].
    + split; [apply Z.div_str_pos; lia|]. apply Z.div_lt_upper_bound; [lia|]. change 128 with (2 ^ 7). rewrite <-Z.pow_add_r by lia.
      replace (7 + 7 * Z.of_nat (S k)) with (7 * Z.of_nat (S (S k))) by lia. lia.
    + rewrite E, outcome_bind_ret. eexists. split; [done|]. split; [done|]. rewrite <-Hl. by destruct l.
Qed.

Lemma pb_add_vint_appends b w x : wrote b w -> in_u 64 x -> appends b w (varint 10 x) (pb_add_vint x b).
Proof.
  intros Hw Hx. unfold in_u in Hx. pose proof (varint_length 10 x ltac:(lia) ltac:(lia)) as Hlen. unfold pb_add_vint.
  destruct (Z.eqb_spec x 0) as [->|Hne]; [by apply (pb_add_appends b w [0])|].
  destruct (vint_groups_varint 10 x) as (l & E & _ & Hl); [lia|lia|]. rewrite E, outcome_bind_ret, Hl. apply pb_add_appends; [done|lia].
Qed.

Lemma make_tag_eq t ty : 0 <= ty < 8 -> 0 <= t < 2 ^ 29 -> make_tag ty t = 8 * t + ty.
Proof.
  intros Hty Ht. unfold make_tag. rewrite (wrap_u_id 32 (Z.shiftl t 3)) by (rewrite Z.shiftl_mul_pow2 by lia; unfold in_u; lia).
  rewrite lor_shiftl_add by (lia || done). rewrite wrap_u_id by (unfold in_u; lia). lia.
Qed.

Lemma wire_type_range p : 0 <= wire_type p < 8.
Proof. by destruct p. Qed.

(** One append after another. *)
Lemma appends_seq b w l1 l2 r1 (k : Z * pb_buff_t -> outcome (Z * pb_buff_t)) :
  appends b w l1 r1 ->
  (forall e b', e <> 0 -> exists e', e' <> 0 /\ k (e, b') = Done (e', b')) ->
  (forall b', wrote b' (w ++ l1) -> appends b' (w ++ l1) l2 (k (0, b'))) ->
  wrote b w ->
  appends b w (l1 ++ l2) (r1 ≫= k).
Proof.
  intros [(Hfit & b' & -> & Hw' & Hs)|(Hno & e & b' & He & -> & Hs)] Hbad Hk Hw; rewrite outcome_bind_ret.
  - pose proof (wr_left _ _ Hw) as H1. pose proof (wr_left _ _ Hw') as H2. rewrite (proj1 Hs), length_app in H2.
    destruct (Hk b' Hw') as [(Hfit2 & b'' & -> & Hw'' & Hs')|(Hno & e & b'' & He & -> & Hs')]; pose proof (keeps_tail_trans _ _ _ Hs Hs').
    + left. rewrite length_app. split; [lia|]. exists b''. rewrite <-app_assoc in Hw''. by split_and!.
    + right. rewrite length_app. split; [lia|]. by exists e, b''.
  - right. rewrite length_app. split; [lia|]. destruct (Hbad e b' He) as (e' & He' & ->). by exists e', b'.
Qed.

Lemma pb_add_value_appends t p b w : wrote b w -> field_ok (t, p) -> appends b w (encode_field t p) (pb_add_value t p b).
Proof.
  intros Hw [Ht Hp]. cbn [fst snd] in *. pose proof (wire_type_range p) as Hwt. unfold encode_field.
  assert (HT : appends b w (varint 10 (8 * t + wire_type p)) (pb_add_tag (wire_type p) t b)).
  { unfold pb_add_tag. rewrite make_tag_eq by lia. apply pb_add_vint_appends; [done|]. unfold in_u. lia. }
  assert (Hneg : forall e : Z, e <> 0 -> negb (e =? 0) = true) by (intros e He; by rewrite (proj2 (Z.eqb_neq e 0))).
  destruct p as [x|x|l|x]; cbn [pb_add_value wire_type encode_value] in *;
    unfold pb_add_varint, pb_add_fixed64, pb_add_string, pb_add_fixed32;
    (eapply appends_seq; [exact HT| | |exact Hw]; cbn [fst snd]; [intros e b' He; rewrite (Hneg e He); by exists (-1)|intros b' Hw'; cbn [negb Z.eqb]]).
  - by apply pb_add_vint_appends.
  - by apply (pb_add_word 8).
  - destruct Hp as [Hlen _]. eapply appends_seq; [apply pb_add_vint_appends; [exact Hw'|unfold in_u; lia]| | |exact Hw']; cbn [fst snd].
    + intros e b2 He. rewrite (Hneg e He). by exists (-2).
    + intros b2 Hw2. cbn [negb Z.eqb]. apply pb_add_appends; [done|lia].
  - by apply (pb_add_word 4).
Qed.

(** ** Reading *)
Section reading.
Context (buf : list Z).

(** The bytes [l] are still to be read, and lie in the buffer. *)
Record reads f (l : list Z) : Prop := {
  rd_ptr : 0 <= ptr f;
  rd_left : left f = Z.of_nat (length l);
  rd_small : Z.of_nat (length l) < 2 ^ 31;
  rd_mem : take (length l) (drop (Z.to_nat (ptr f)) buf) = l }.

(** [f'] has read [n] bytes more, to the value [v]. *)
Record moved f f' v (n : nat) : Prop := {
  mv_val : val f' = v;
  mv_ptr : ptr f' = ptr f + Z.of_nat n;
  mv_tag : tag f' = tag f;
  mv_eom : eom f' = eom f;
  mv_type : type f' = type f;
  mv_size : size f' = size f;
  mv_err : errmsg f' = errmsg f }.

Lemma moved_trans f f1 f2 v1 v2 n1 n2 : moved f f1 v1 n1 -> moved f1 f2 v2 n2 -> moved f f2 v2 (n1 + n2).
Proof. intros [? ? ? ? ? ? ?] [? ? ? ? ? ? ?]. split; try congruence. rewrite mv_ptr1, mv_ptr0. lia. Qed.

Lemma reads_advance f l1 l2 : reads f (l1 ++ l2) -> reads (advance (Z.of_nat (length l1)) f) l2.
Proof.
  intros [Hp Hl Hs Hm]. rewrite length_app in *. split; cbn [advance ptr left]; try lia.
  - rewrite wrap_s_id by (unfold in_s; lia). lia.
  - rewrite Z2Nat.inj_add by lia. rewrite Nat2Z.id, <-drop_drop.
    assert (Hd : drop (length l1) (take (length l1 + length l2) (drop (Z.to_nat (ptr f)) buf)) = l2) by by rewrite Hm, drop_app_length.
    by rewrite <-take_drop_commute in Hd.
Qed.

Lemma moved_advance f n : moved f (advance (Z.of_nat n) f) (val f) n.
Proof. by split. Qed.

Lemma load_reads f c l : reads f (c :: l) -> load buf (ptr f) = Done c.
Proof.
  intros [Hp Hl Hs Hm]. unfold load. rewrite (proj2 (Z.ltb_ge (ptr f) 0)) by done. rewrite <-(Nat.add_0_r (Z.to_nat (ptr f))), <-lookup_drop.
  rewrite <-(lookup_take_lt _ (length (c :: l))) by (cbn; lia). by rewrite Hm.
Qed.

Lemma load_bytes_reads p l : 0 <= p -> take (length l) (drop (Z.to_nat p) buf) = l -> load_bytes buf p (length l) = Done l.
Proof.
  revert p. induction l as [|c l IH]; intros p Hp Hl; [done|]. cbn [length load_bytes]. unfold load. rewrite (proj2 (Z.ltb_ge p 0)) by done.
  cbn [length] in Hl. destruct (drop (Z.to_nat p) buf) as [|c' d] eqn:Ed; [done|]. cbn in Hl. injection Hl as -> Hl.
  assert (Hb : buf !! Z.to_nat p = Some c) by (rewrite <-(Nat.add_0_r (Z.to_nat p)), <-lookup_drop; by rewrite Ed).
  rewrite Hb. cbn [of_option]. rewrite outcome_bind_ret, IH; [done|lia|]. replace (Z.to_nat (p + 1)) with (Z.to_nat p + 1)%nat by lia.
  by rewrite <-drop_drop, Ed.
Qed.

Lemma pb_get_byte_ok f c l : reads f (c :: l) -> pb_get_byte buf f = Done (0, c, advance 1 f).
Proof.
  intros Hr. unfold pb_get_byte. rewrite (proj2 (Z.ltb_ge (left f) 1)) by (rewrite (rd_left _ _ Hr); cbn [length]; lia).
  by rewrite (load_reads _ _ _ Hr).
Qed.

(** The words are read as they were written. *)
Lemma pb_get_word_ok f n x l :
  reads f (le_bytes n x ++ l) -> 0 <= x < 2 ^ (8 * Z.of_nat n) ->
  (left f <? Z.of_nat n) = false /\ load_bytes buf (ptr f) n = Done (le_bytes n x) /\ le_word (le_bytes n x) = x /\ reads (advance (Z.of_nat n) f) l.
Proof.
  intros Hr Hx. pose proof Hr as [Hp Hl Hs Hm]. rewrite length_app, le_bytes_length in *. split; [apply Z.ltb_ge; lia|]. split; [|split].
  - rewrite <-(le_bytes_length n x) at 1. apply load_bytes_reads; [done|]. rewrite le_bytes_length.
    assert (Ht : take n (take (n + length l) (drop (Z.to_nat (ptr f)) buf)) = le_bytes n x).
    { rewrite Hm. rewrite <-(le_bytes_length n x) at 1. apply take_app_length. }
    rewrite take_take in Ht. by replace (n `min` (n + length l))%nat with n in Ht by lia.
  - by apply le_word_bytes.
  - rewrite <-(le_bytes_length n x). by apply reads_advance.
Qed.

Lemma set_val_reads f v l : reads f l -> reads (set_val v f) l.
Proof. by intros [? ? ? ?]. Qed.

(** The loop of pb_decode_varint on the bytes of [x]. *)
Lemma decode_varint_ok k fuel i result x f l :
  (k <= fuel)%nat -> 0 <= i -> 7 * i + 7 * Z.of_nat k <= 70 -> (0 < k)%nat -> 0 <= x < 2 ^ (7 * Z.of_nat k) ->
  in_u (7 * i) result -> result + x * 2 ^ (7 * i) < 2 ^ 64 -> reads f (varint k x ++ l) ->
  exists f', decode_varint buf fuel (7 * i) result f = Done (0, f') /\ reads f' l /\
    moved f f' (set_i64 (result + x * 2 ^ (7 * i)) (val f)) (length (varint k x)).
Proof.
  revert fuel i result x f. induction k as [|k IH]; intros fuel i result x f Hf Hi Hik Hk Hx Hres Htot Hr; [lia|].
  destruct fuel as [|fuel]; [lia|]. cbn [decode_varint]. rewrite (proj2 (Z.leb_gt 64 (7 * i))) by lia.
  pose proof (Z.mod_pos_bound x 128 ltac:(lia)) as Hmod. pose proof (Z.div_mod x 128 ltac:(lia)) as Hdm.
  assert (Hpow : 0 < 2 ^ (7 * i)) by lia.
  assert (Hlow : forall g, 0 <= g -> g <= x -> Z.lor result (u64 (Z.shiftl g (7 * i))) = result + g * 2 ^ (7 * i)).
  { intros g Hg Hgx. rewrite wrap_u_id; [apply lor_shiftl_add; [lia|done]|]. rewrite Z.shiftl_mul_pow2 by lia. unfold in_u in *. nia. }
  cbn [varint] in Hr |- *. destruct (Z.ltb_spec x 128) as [Hs|Hs]; cbn [app] in Hr; rewrite (pb_get_byte_ok _ _ _ Hr), outcome_bind_ret;
    cbn [negb Z.eqb]; rewrite low7.
  - rewrite (proj1 (test_bit7 x ltac:(lia))). cbn [negb Z.eqb]. rewrite (Z.mod_small x 128) by lia. rewrite Hlow by lia.
    eexists. split; [done|]. split; [apply set_val_reads, (reads_advance f [x] l Hr)|]. by split.
  - destruct (test_bit7 (x mod 128) Hmod) as (_ & -> & ->). cbn [negb Z.eqb]. rewrite Hlow by lia.
    destruct k as [|k]; [cbn in Hx; lia|]. assert (Hx' : 0 <= x / 128 < 2 ^ (7 * Z.of_nat (S k))).
    { split; [apply Z.div_pos; lia|]. apply Z.div_lt_upper_bound; [lia|]. change 128 with (2 ^ 7). rewrite <-Z.pow_add_r by lia.
      replace (7 + 7 * Z.of_nat (S k)) with (7 * Z.of_nat (S (S k))) by lia. lia. }
    assert (Hp7 : 2 ^ (7 * (i + 1)) = 128 * 2 ^ (7 * i)) by (rewrite Z.mul_add_distr_l, Z.pow_add_r by lia; lia).
    assert (Hsum : result + x mod 128 * 2 ^ (7 * i) + x / 128 * 2 ^ (7 * (i + 1)) = result + x * 2 ^ (7 * i)) by (rewrite Hp7; nia).
    rewrite (wrap_u_id 8) by (unfold in_u; lia). replace (7 * i + 7) with (7 * (i + 1)) by lia.
    destruct (IH fuel (i + 1) (result + x mod 128 * 2 ^ (7 * i)) (x / 128) (advance 1 f)) as (f' & E & Hr' & Hm'); try lia.
    + unfold in_u in *. rewrite Hp7. nia.
    + exact (reads_advance f [x mod 128 + 128] _ Hr).
    + exists f'. split; [exact E|]. split; [done|]. rewrite Hsum in Hm'. cbn [length].
      exact (moved_trans _ _ _ _ _ 1 _ (moved_advance f 1) Hm').
Qed.

Lemma pb_decode_varint_ok f x l :
  in_u 64 x -> reads f (varint 10 x ++ l) ->
  exists f', pb_decode_varint buf f = Done (0, f') /\ reads f' l /\ moved f f' (Val x (hi (val f))) (length (varint 10 x)).
Proof.
  intros Hx Hr. pose proof Hx as Hx'. unfold in_u in Hx'. destruct (decode_varint_ok 10 11 0 0 x f l) as (f' & E & Hr' & Hm); try lia; [|done|].
  { unfold in_u. cbn. lia. }
  exists f'. split; [exact E|]. split; [done|]. unfold set_i64 in Hm. replace (0 + x * 2 ^ (7 * 0)) with x in Hm by (cbn; lia).
  by rewrite wrap_u_id in Hm.
Qed.

(** The reader stands on the field [t], [p]. *)
Definition value_is (p : pb_value) v : Prop :=
  match p with
  | PVarint x | PFixed64 x => i64_of v = x
  | PString l => str_len v = Z.of_nat (length l) /\ load_bytes buf (str_data v) (length l) = Done l
  | PFixed32 x => i32_of v = x
  end.

Definition field_is f (tp : Z * pb_value) : Prop := tag f = tp.1 /\ type f = wire_type tp.2 /\ value_is tp.2 (val f).

Definition same_mode f f' : Prop := eom f' = eom f /\ errmsg f' = errmsg f /\ size f' = size f.

Lemma set_i32_low x v : in_u 32 x -> i32_of (set_i32 x v) = x.
Proof.
  intros Hx. unfold i32_of, set_i32. cbn [lo]. rewrite (wrap_u_id 32 x) by done. rewrite Z.lor_comm, lor_shiftl_add by (done || lia).
  unfold wrap_u. rewrite Z.mod_add by lia. by apply Z.mod_small.
Qed.

Lemma pb_decode_string_ok f l1 l :
  Z.of_nat (length l1) < 2 ^ 31 -> reads f (varint 10 (Z.of_nat (length l1)) ++ l1 ++ l) ->
  exists f', pb_decode_string buf f = Done (0, f') /\ reads f' l /\ value_is (PString l1) (val f') /\ tag f' = tag f /\ type f' = type f /\ same_mode f f'.
Proof.
  intros Hlen Hr. destruct (pb_decode_varint_ok f (Z.of_nat (length l1)) (l1 ++ l)) as (f1 & E & Hr1 & Hm); [unfold in_u; lia|done|].
  unfold pb_decode_string. rewrite E, outcome_bind_ret. cbn [negb Z.eqb]. destruct Hm as [Hv Hp Ht He Hty Hsz Herr].
  unfold i64_of. rewrite Hv. cbn [lo]. pose proof Hr1 as [Hp1 Hl1 Hs1 Hm1]. rewrite length_app in Hl1, Hs1, Hm1.
  rewrite (wrap_u_id 64) by (unfold in_u; lia). rewrite (proj2 (Z.ltb_ge _ _)) by lia. rewrite wrap_u_id by (unfold in_u; lia).
  eexists. split; [done|]. split; [apply reads_advance; by apply set_val_reads|]. cbn [advance set_val val tag type value_is].
  split; [|by split_and!]. split.
  - change (i32_of (set_i32 (Z.of_nat (length l1)) (Val (Z.of_nat (length l1)) (hi (val f)))) = Z.of_nat (length l1)).
    apply set_i32_low. unfold in_u. lia.
  - apply load_bytes_reads; [done|]. cbn [str_data hi set_str].
    assert (Ht1 : take (length l1) (take (length l1 + length l) (drop (Z.to_nat (ptr f1)) buf)) = l1) by (rewrite Hm1; apply take_app_length).
    rewrite take_take in Ht1. by replace (length l1 `min` (length l1 + length l))%nat with (length l1) in Ht1 by lia.
Qed.

Lemma pb_decode_value_ok f p l :
  value_ok p -> type f = wire_type p -> reads f (encode_value p ++ l) ->
  exists f', (if type f =? PB_WT_VARINT then pb_decode_varint buf f
    else if type f =? PB_WT_FIXED64 then pb_decode_fixed64 buf f
    else if type f =? PB_WT_STRING then pb_decode_string buf f
    else if type f =? PB_WT_FIXED32 then pb_decode_fixed32 buf f
    else Done (-3, set_err "invalid wire_type" f)) = Done (0, f') /\ reads f' l /\ value_is p (val f') /\ tag f' = tag f /\ type f' = wire_type p /\ same_mode f f'.
Proof.
  intros Hp Hty Hr. rewrite Hty. destruct p as [x|x|l1|x]; cbn [wire_type encode_value value_ok] in *; unfold PB_WT_VARINT, PB_WT_FIXED64, PB_WT_STRING, PB_WT_FIXED32; cbn [Z.eqb Pos.eqb].
  - destruct (pb_decode_varint_ok f x l Hp Hr) as (f' & E & Hr' & [Hv Hptr Ht He Hty' Hsz Herr]). exists f'. split_and!; try done; [by rewrite Hv|by rewrite Hty', Hty].
  - destruct (pb_get_word_ok f 8 x l Hr) as (E1 & E2 & E3 & Hr'); [done|]. unfold pb_decode_fixed64, pb_get_ddword.
    change (Z.of_nat 8) with 8 in *. rewrite E1, E2, outcome_bind_ret, E3. eexists. split; [done|]. cbn [advance set_val val tag type value_is set_i64 i64_of lo].
    split; [by destruct Hr'|]. split; [by rewrite wrap_u_id|]. by rewrite Hty.
  - destruct Hp as [Hlen _]. rewrite <-app_assoc in Hr. destruct (pb_decode_string_ok f l1 l Hlen Hr) as (f' & E & Hr' & Hv & Ht & Hty' & Hs). exists f'.
    by rewrite Hty', Hty.
  - destruct (pb_get_word_ok f 4 x l Hr) as (E1 & E2 & E3 & Hr'); [done|]. unfold pb_decode_fixed32, pb_get_dword.
    change (Z.of_nat 4) with 4 in *. rewrite E1, E2, outcome_bind_ret, E3. eexists. split; [done|]. cbn [advance set_val val tag type value_is].
    split; [by destruct Hr'|]. split; [by apply set_i32_low|]. by rewrite Hty.
Qed.

Lemma pb_decode_tag_ok f t p l :
  field_ok (t, p) -> reads f (encode_field t p ++ l) ->
  exists f', pb_decode_tag buf f = Done (0, f') /\ reads f' l /\ field_is f' (t, p) /\ same_mode f f'.
Proof.
  intros [Ht Hp] Hr. cbn [fst snd] in *. unfold encode_field in Hr. rewrite <-app_assoc in Hr. pose proof (wire_type_range p) as Hwt.
  destruct (pb_decode_varint_ok f (8 * t + wire_type p) (encode_value p ++ l)) as (f1 & E & Hr1 & [Hv Hptr Ht1 He Hty Hsz Herr]); [unfold in_u; lia|done|].
  unfold pb_decode_tag. rewrite E, outcome_bind_ret. cbn [negb Z.eqb]. unfold i64_of, i32_of. rewrite Hv. cbn [lo].
  rewrite (proj2 (Z.eqb_neq _ 0)) by lia. set (f2 := set_tag _ _ f1).
  assert (Htag : tag f2 = t).
  { cbn. rewrite Z.shiftr_div_pow2 by lia. rewrite (Z.mul_comm 8 t), Z.div_add_l, (Z.div_small (wire_type p)) by (cbn; lia).
    rewrite Z.add_0_r. apply wrap_u_id. unfold in_u. lia. }
  assert (Hty2 : type f2 = wire_type p).
  { cbn. change 7 with (Z.ones 3). rewrite Z.land_ones, wrap_u_id by (unfold in_u; lia). cbn. rewrite Z.add_comm, Z.mul_comm, Z.mod_add by lia. apply Z.mod_small. lia. }
  assert (Hr2 : reads f2 (encode_value p ++ l)) by by destruct Hr1.
  destruct (pb_decode_value_ok f2 p l Hp Hty2 Hr2) as (f' & E' & Hr' & Hval & Htag' & Hty' & Hmode).
  exists f'. split; [exact E'|]. split; [done|]. split; [|unfold same_mode in *; cbn in Hmode; by destruct Hmode as (-> & -> & ->)]. cbn [tag type fst snd] in *. by split_and!; [rewrite Htag'|rewrite Hty'|].
Qed.

Lemma pb_decode_tag_end f : reads f [] -> exists f', pb_decode_tag buf f = Done (-1, f') /\ eom f' = 1.
Proof.
  intros [Hp Hl Hs Hm]. cbn [length] in Hl. unfold pb_decode_tag, pb_decode_varint. cbn [decode_varint Z.leb Z.compare]. unfold pb_get_byte.
  rewrite (proj2 (Z.ltb_lt _ _)) by lia. rewrite !outcome_bind_ret. cbn [negb Z.eqb]. rewrite outcome_bind_ret. cbn [negb Z.eqb].
  eexists. split; [done|]. cbn [set_err left]. by rewrite Hl.
Qed.

(** A message is read back field by field. *)
Lemma pb_rest_ok fs f fuel :
  Forall field_ok fs -> reads f (encode fs) -> (length fs <= fuel)%nat ->
  exists l f', (pb_next buf f ≫= pb_rest buf fuel) = Done (l, f') /\ Forall2 field_is l fs /\ eom f' = 1.
Proof.
  revert f fuel. induction fs as [|[t p] fs IH]; intros f fuel Hfs Hr Hfuel; unfold pb_next.
  - destruct (pb_decode_tag_end f Hr) as (f' & E & He). rewrite E, !outcome_bind_ret. cbn [fst snd Z.eqb]. exists [], f'. by destruct fuel.
  - apply Forall_cons in Hfs as [Hok Hfs]. unfold encode in Hr. rewrite bind_cons in Hr. cbn [fst snd] in Hr.
    destruct (pb_decode_tag_ok f t p _ Hok Hr) as (f1 & E & Hr1 & Hf1 & _). rewrite E, !outcome_bind_ret. cbn [fst snd Z.eqb].
    destruct fuel as [|fuel]; [cbn in Hfuel; lia|]. destruct (IH f1 fuel Hfs Hr1) as (l & f' & E' & Hl & He); [cbn in Hfuel; lia|].
    exists (f1 :: l), f'. cbn [pb_rest fst snd]. rewrite <-(outcome_bind_assoc (pb_next buf f1) (pb_rest buf fuel)).
    rewrite E', outcome_bind_ret. split; [done|]. split; [by constructor|done].
Qed.

(** ** Any bytes *)

(** The reader is inside of the buffer. *)
Record inside f : Prop := {
  in_ptr : 0 <= ptr f;
  in_left : 0 <= left f < 2 ^ 31;
  in_mem : ptr f + left f <= Z.of_nat (length buf) }.

(** A call that returns, and leaves the reader inside, [n] bytes further at least. *)
Definition stays f (n : Z) (r : outcome (Z * pb_field_t)) : Prop :=
  exists e f', r = Done (e, f') /\ inside f' /\ ptr f' + left f' = ptr f + left f /\ ptr f <= ptr f' /\ (e = 0 -> ptr f + n <= ptr f').

Lemma load_inside p : 0 <= p < Z.of_nat (length buf) -> exists c, load buf p = Done c.
Proof.
  intros Hp. unfold load. rewrite (proj2 (Z.ltb_ge p 0)) by lia. destruct (lookup_lt_is_Some_2 buf (Z.to_nat p)) as [c ->]; [lia|]. by exists c.
Qed.

Lemma load_bytes_inside p n : 0 <= p -> p + Z.of_nat n <= Z.of_nat (length buf) -> exists l, load_bytes buf p n = Done l.
Proof.
  revert p. induction n as [|n IH]; intros p Hp Hn; [by exists []|]. cbn [load_bytes]. destruct (load_inside p) as [c ->]; [lia|].
  rewrite outcome_bind_ret. destruct (IH (p + 1)) as [l ->]; [lia..|]. by exists (c :: l).
Qed.

Lemma inside_advance f n v : inside f -> 0 <= n <= left f ->
  inside (advance n (set_val v f)) /\ ptr (advance n (set_val v f)) + left (advance n (set_val v f)) = ptr f + left f /\ ptr (advance n (set_val v f)) = ptr f + n.
Proof.
  intros [Hp Hl Hm] Hn. cbn [advance set_val ptr left]. assert (E : i32 (left f - n) = left f - n) by (apply wrap_s_id; unfold in_s; lia).
  rewrite E. split; [split; cbn [advance set_val ptr left]; rewrite ?E; lia|split; lia].
Qed.

Lemma pb_get_byte_inside f : inside f ->
  (exists f', pb_get_byte buf f = Done (-1, 0, f') /\ f' = set_err "end-of-buffer" f) \/
  (exists c, pb_get_byte buf f = Done (0, c, advance 1 f) /\ 1 <= left f).
Proof.
  intros [Hp Hl Hm]. unfold pb_get_byte. destruct (Z.ltb_spec (left f) 1) as [Hs|Hs]; [left; by eexists|]. right.
  destruct (load_inside (ptr f)) as [c ->]; [lia|]. by exists c.
Qed.

Lemma decode_varint_stays fuel i result f :
  inside f -> 0 <= i <= 10 -> 11 - i <= Z.of_nat fuel -> stays f 1 (decode_varint buf fuel (7 * i) result f).
Proof.
  revert i result f. induction fuel as [|fuel IH]; intros i result f Hin Hi Hfuel; [lia|]. cbn [decode_varint].
  destruct (Z.leb_spec 64 (7 * i)) as [Hov|Hov].
  { eexists _, _. split; [done|]. split; [by destruct Hin|]. cbn. split_and!; done || lia. }
  destruct (pb_get_byte_inside f Hin) as [(f' & E & ->)|(c & E & Hl)]; rewrite E, outcome_bind_ret; cbn [negb Z.eqb].
  { eexists _, _. split; [done|]. split; [by destruct Hin|]. cbn. split_and!; done || lia. }
  destruct (inside_advance f 1 (val f) Hin ltac:(lia)) as (Hin1 & Hsum & Hp1). set (f1 := advance 1 f) in *.
  assert (Hf1 : advance 1 (set_val (val f) f) = f1) by by destruct f. rewrite Hf1 in Hin1, Hsum, Hp1.
  destruct (negb (Z.land c 0x80 =? 0)).
  - rewrite (wrap_u_id 8) by (unfold in_u; lia). replace (7 * i + 7) with (7 * (i + 1)) by lia.
    destruct (IH (i + 1) (Z.lor result (u64 (Z.shiftl (Z.land c 0x7f) (7 * i)))) f1 Hin1) as (e & f' & E' & Hin' & Hsum' & Hmon & Hadv); [lia..|].
    exists e, f'. split; [exact E'|]. split; [done|]. split_and!; [lia|lia|]. intros ->. specialize (Hadv eq_refl). lia.
  - eexists _, _. split; [done|]. split; [by destruct Hin1|]. cbn [set_val ptr left]. split_and!; [lia|lia|]. intros _. lia.
Qed.

Lemma pb_decode_varint_stays f : inside f -> stays f 1 (pb_decode_varint buf f).
Proof. intros Hin. apply (decode_varint_stays 11 0 0 f Hin); lia. Qed.

Lemma decode_varint_word fuel bitpos result f f' : decode_varint buf fuel bitpos result f = Done (0, f') -> in_u 64 (i64_of (val f')).
Proof.
  revert bitpos result f. induction fuel as [|fuel IH]; intros bitpos result f; [done|]. cbn [decode_varint]. destruct (64 <=? bitpos); [done|].
  destruct (pb_get_byte buf f) as [[[r c] f1]| |]; [|done..]. rewrite outcome_bind_ret. destruct (negb (r =? 0)); [done|].
  destruct (negb (Z.land c 0x80 =? 0)); [apply IH|]. intros [= <-]. cbn. by apply wrap_u_range.
Qed.

Lemma word_stays n (v : list Z -> pb_field_val_t) f : inside f -> 0 <= n ->
  stays f 0 (if left f <? n then Done (-1, set_err "end-of-buffer" f)
             else l ← load_bytes buf (ptr f) (Z.to_nat n); Done (0, advance n (set_val (v l) f))).
Proof.
  intros Hin Hn. destruct (Z.ltb_spec (left f) n) as [Hs|Hs].
  - eexists _, _. split; [done|]. split; [by destruct Hin|]. cbn. split_and!; done || lia.
  - destruct (load_bytes_inside (ptr f) (Z.to_nat n)) as [l El]; [apply (in_ptr _ Hin)|pose proof (in_mem _ Hin); lia|].
    rewrite El, outcome_bind_ret. destruct (inside_advance f n (v l) Hin ltac:(lia)) as (Hin1 & Hsum & Hp). eexists _, _. split; [done|]. split; [done|]. lia.
Qed.

Lemma stays_trans f f1 n m r : inside f1 -> ptr f1 + left f1 = ptr f + left f -> ptr f + n <= ptr f1 -> 0 <= n -> stays f1 m r -> 0 <= m -> stays f n r.
Proof.
  intros Hin1 Hs Hp Hn (e & f' & -> & Hin' & Hs' & Hp' & Hadv) Hm. exists e, f'. split_and!; try done; try lia.
Qed.

Lemma pb_decode_string_stays f : inside f -> stays f 0 (pb_decode_string buf f).
Proof.
  intros Hin. destruct (pb_decode_varint_stays f Hin) as (e & f1 & E & Hin1 & Hs1 & Hp1 & Hadv). unfold pb_decode_string. rewrite E, outcome_bind_ret.
  destruct (Z.eqb_spec e 0) as [->|He]; cbn [negb].
  2:{ exists (-1), f1. split_and!; done || lia. }
  destruct (Z.ltb_spec (u64 (left f1)) (i64_of (val f1))) as [Hov|Hfit].
  - eexists _, _. split; [done|]. split; [by destruct Hin1|]. cbn. split_and!; done || lia.
  - pose proof (in_left _ Hin1) as Hl1. rewrite wrap_u_id in Hfit by (unfold in_u; lia).
    assert (Hsz : 0 <= u32 (i64_of (val f1)) <= left f1).
    { pose proof (decode_varint_word 11 0 0 f f1 E) as H0. unfold in_u in H0. rewrite wrap_u_id; [lia|]. unfold in_u. lia. }
    destruct (inside_advance f1 (u32 (i64_of (val f1))) (set_str (u32 (i64_of (val f1))) (ptr f1) (val f1)) Hin1 Hsz) as (Hin2 & Hs2 & Hp2).
    eexists _, _. split; [done|]. split; [done|]. split_and!; lia.
Qed.

(** The value of a string lies before the reader. *)
Definition string_inside f : Prop := type f = PB_WT_STRING -> 0 <= str_data (val f) /\ str_data (val f) + str_len (val f) <= ptr f.

Lemma pb_decode_string_inside f f' : inside f -> pb_decode_string buf f = Done (0, f') -> 0 <= str_data (val f') /\ str_data (val f') + str_len (val f') <= ptr f'.
Proof.
  intros Hin. destruct (pb_decode_varint_stays f Hin) as (e & f1 & E & Hin1 & _). unfold pb_decode_string. rewrite E, outcome_bind_ret.
  destruct (negb (e =? 0)); [done|]. destruct (u64 (left f1) <? i64_of (val f1)); [done|]. intros [= <-].
  pose proof (in_ptr _ Hin1). change (0 <= ptr f1 /\ ptr f1 + i32_of (set_i32 (u32 (i64_of (val f1))) (val f1)) <= ptr f1 + u32 (i64_of (val f1))).
  rewrite set_i32_low by (apply wrap_u_range; lia). lia.
Qed.

Lemma decode_varint_type fuel bitpos result f e f' : decode_varint buf fuel bitpos result f = Done (e, f') -> type f' = type f.
Proof.
  revert bitpos result f. induction fuel as [|fuel IH]; intros bitpos result f; [done|]. cbn [decode_varint]. destruct (64 <=? bitpos); [by intros [= <- <-]|].
  destruct (pb_get_byte buf f) as [[[r c] f1]| |] eqn:E; [|done..]. assert (Hty : type f1 = type f).
  { unfold pb_get_byte in E. destruct (left f <? 1); [by injection E as <- <- <-|]. destruct (load buf (ptr f)); [|done..]. by injection E as <- <- <-. }
  rewrite outcome_bind_ret, <-Hty. destruct (negb (r =? 0)); [by intros [= <- <-]|]. destruct (negb (Z.land c 0x80 =? 0)); [apply IH|]. by intros [= <- <-].
Qed.

Lemma word_type n (v : list Z -> pb_field_val_t) f e f' :
  (if left f <? n then Done (-1, set_err "end-of-buffer" f) else l ← load_bytes buf (ptr f) (Z.to_nat n); Done (0, advance n (set_val (v l) f))) = Done (e, f') ->
  type f' = type f.
Proof. destruct (left f <? n); [by intros [= <- <-]|]. destruct (load_bytes buf (ptr f) (Z.to_nat n)); [|done..]. by intros [= <- <-]. Qed.

(** The bytes of the value. *)
Lemma pb_decode_value_stays f : inside f ->
  let r := if type f =? PB_WT_VARINT then pb_decode_varint buf f
    else if type f =? PB_WT_FIXED64 then pb_decode_fixed64 buf f
    else if type f =? PB_WT_STRING then pb_decode_string buf f
    else if type f =? PB_WT_FIXED32 then pb_decode_fixed32 buf f
    else Done (-3, set_err "invalid wire_type" f) in
  stays f 0 r /\ forall f', r = Done (0, f') -> string_inside f'.
Proof.
  intros Hin r. subst r.
  destruct (Z.eqb_spec (type f) PB_WT_VARINT) as [Hv|_]; [|destruct (Z.eqb_spec (type f) PB_WT_FIXED64) as [H6|_];
    [|destruct (Z.eqb_spec (type f) PB_WT_STRING) as [Hs|_]; [|destruct (Z.eqb_spec (type f) PB_WT_FIXED32) as [H3|_]]]].
  - split; [|intros f' E Hty; rewrite (decode_varint_type _ _ _ _ _ _ E), Hv in Hty; done].
    destruct (pb_decode_varint_stays f Hin) as (e & f' & E & Hin' & Hs & Hp & _). exists e, f'. by split_and!; try lia.
  - split; [apply (word_stays 8 (fun l => set_i64 (le_word l) (val f)) f Hin); lia|]. intros f' E Hty.
    rewrite (word_type 8 (fun l => set_i64 (le_word l) (val f)) f _ _ E), H6 in Hty. done.
  - split; [by apply pb_decode_string_stays|]. intros f' E _. by apply (pb_decode_string_inside f).
  - split; [apply (word_stays 4 (fun l => set_i32 (le_word l) (val f)) f Hin); lia|]. intros f' E Hty.
    rewrite (word_type 4 (fun l => set_i32 (le_word l) (val f)) f _ _ E), H3 in Hty. done.
  - split; [|done]. eexists _, _. split; [done|]. split; [by destruct Hin|]. cbn. split_and!; done || lia.
Qed.

Lemma pb_decode_tag_stays f : inside f ->
  stays f 1 (pb_decode_tag buf f) /\ forall f', pb_decode_tag buf f = Done (0, f') -> string_inside f'.
Proof.
  intros Hin. destruct (pb_decode_varint_stays f Hin) as (e & f1 & E & Hin1 & Hs1 & Hp1 & Hadv). unfold pb_decode_tag. rewrite E, outcome_bind_ret.
  destruct (Z.eqb_spec e 0) as [->|He]; cbn [negb].
  2:{ split; [|done]. exists (-1), (if left f1 =? 0 then set_eom f1 else f1). destruct (left f1 =? 0); split_and!; try done; by destruct Hin1. }
  specialize (Hadv eq_refl). destruct (i64_of (val f1) =? 0).
  { split; [|done]. eexists _, _. split; [done|]. split; [by destruct Hin1|]. cbn. split_and!; done || lia. }
  set (f2 := set_tag _ _ f1). assert (Hin2 : inside f2) by by destruct Hin1. destruct (pb_decode_value_stays f2 Hin2) as [Hst Hstr].
  split; [|exact Hstr]. apply (stays_trans f f2 1 0); try (cbn; lia); [done|exact Hst].
Qed.

(** Any buffer is read to an end. *)
Lemma pb_rest_total fuel f :
  inside f -> left f < Z.of_nat fuel ->
  exists l f', (pb_next buf f ≫= pb_rest buf fuel) = Done (l, f') /\ Z.of_nat (length l) <= left f /\
    Forall (fun f1 => string_inside f1 /\ ptr f1 <= ptr f + left f) l.
Proof.
  revert f. induction fuel as [|fuel IH]; intros f Hin Hfuel; [pose proof (in_left _ Hin); lia|].
  destruct (pb_decode_tag_stays f Hin) as [(e & f1 & E & Hin1 & Hs & Hp & Hadv) Hstr]. unfold pb_next at 1. rewrite E, !outcome_bind_ret. cbn [fst snd].
  pose proof (in_left _ Hin) as Hl. pose proof (in_left _ Hin1) as Hl1. destruct (Z.eqb_spec e 0) as [->|He].
  - specialize (Hadv eq_refl). destruct (IH f1 Hin1) as (l & f' & E' & Hlen & Hall); [lia|]. exists (f1 :: l), f'. cbn [pb_rest fst snd].
    rewrite <-(outcome_bind_assoc (pb_next buf f1) (pb_rest buf fuel)), E', outcome_bind_ret. split; [done|]. cbn [length]. split; [lia|].
    constructor; [split; [by apply Hstr|lia]|]. apply (Forall_impl _ _ _ Hall). intros f2 [? ?]. split; [done|lia].
  - exists [], f1. cbn [pb_rest fst snd length]. split_and!; done || lia.
Qed.
End reading.

(** ** The codec *)

(** Fields written one after another, up to the first error. *)
Fixpoint pb_add_all (fs : list (Z * pb_value)) b : outcome (Z * pb_buff_t) :=
  match fs with
  | [] => Done (0, b)
  | tp :: fs => r ← pb_add_value tp.1 tp.2 b; if r.1 =? 0 then pb_add_all fs r.2 else Done r
  end.

Lemma pb_add_all_appends fs b w : wrote b w -> Forall field_ok fs -> appends b w (encode fs) (pb_add_all fs b).
Proof.
  revert b w. induction fs as [|[t p] fs IH]; intros b w Hw Hfs.
  - left. pose proof (wr_range _ _ Hw). split; [cbn; lia|]. exists b. unfold encode. by rewrite app_nil_r.
  - apply Forall_cons in Hfs as [Hok Hfs]. unfold encode. rewrite bind_cons. cbn [pb_add_all fst snd].
    apply appends_seq; [by apply pb_add_value_appends| | |done]; cbn [fst snd].
    + intros e b' He. rewrite (proj2 (Z.eqb_neq e 0)) by done. by exists e.
    + intros b' Hw'. by apply IH.
Qed.

Lemma pb_encoded_length b w : wrote b w -> in_u 31 (bsize b) -> pb_get_encoded_length b = Z.of_nat (length w).
Proof.
  intros Hw Hb. unfold pb_get_encoded_length. pose proof (wr_left _ _ Hw). pose proof (wr_range _ _ Hw). unfold in_u in Hb.
  rewrite wrap_s_id by (unfold in_s; lia). lia.
Qed.

(** C26: fields that fit in the buffer are read back: the calls of pb_add_* return 0
    and write the encoding of the fields, and pb_begin and pb_next over the bytes
    written give each field with its number, type and value, and then NULL with
    [eom] set. *)
Theorem pb_roundtrip fs mem sz f :
  Forall field_ok fs -> sz < 2 ^ 31 -> sz <= Z.of_nat (length mem) -> Z.of_nat (length (encode fs)) <= sz ->
  exists b, pb_add_all fs (pb_init_buff mem sz) = Done (0, b) /\
    pb_get_encoded_length b = Z.of_nat (length (encode fs)) /\ take (length (encode fs)) (out b) = encode fs /\
    exists l f', pb_fields (out b) (length fs) f (pb_get_encoded_length b) = Done (l, f') /\ Forall2 (field_is (out b)) l fs /\ eom f' = 1.
Proof.
  intros Hfs Hsz Hmem Hfit. destruct (pb_init_buff_wrote mem sz) as [Hw Hb]; [lia|done|].
  destruct (pb_add_all_appends fs _ _ Hw Hfs) as [(_ & b & E & Hw' & Hk)|(Hno & _)]; [|rewrite (wr_left _ _ Hw), Hb in Hno; cbn in Hno; lia].
  cbn [app] in Hw'. assert (Hlen : pb_get_encoded_length b = Z.of_nat (length (encode fs))).
  { apply pb_encoded_length; [done|]. rewrite (proj1 Hk), Hb. unfold in_u. lia. }
  exists b. split; [done|]. split; [done|]. split; [apply (wr_out _ _ Hw')|]. rewrite Hlen. unfold pb_fields, pb_begin.
  set (f0 := Field _ _ _ _ _ _ _ _). assert (Hr : reads (out b) f0 (encode fs)).
  { split; cbn [f0 ptr left]; [done|done|lia|]. apply (wr_out _ _ Hw'). }
  destruct (pb_rest_ok (out b) fs f0 (length fs) Hfs Hr (le_n _)) as (l & f' & E' & Hl & He). exists l, f'. by split.
Qed.

(** C27: reading is safe on any bytes: pb_begin and pb_next never read outside of the
    [dlen] bytes that they are given, the loop over them ends after at most [dlen]
    fields, and the data of every string lies inside of the message. *)
Theorem pb_reader_total buf dlen f :
  0 <= dlen < 2 ^ 31 -> dlen <= Z.of_nat (length buf) ->
  exists l f', pb_fields buf (S (Z.to_nat dlen)) f dlen = Done (l, f') /\ Z.of_nat (length l) <= dlen /\
    Forall (fun f1 => type f1 = PB_WT_STRING -> 0 <= str_data (val f1) /\ str_data (val f1) + str_len (val f1) <= dlen) l.
Proof.
  intros Hd Hbuf. unfold pb_fields, pb_begin. set (f0 := Field _ _ _ _ _ _ _ _).
  destruct (pb_rest_total buf (S (Z.to_nat dlen)) f0) as (l & f' & E & Hlen & Hall); [split; cbn; lia|cbn [f0 left]; lia|].
  exists l, f'. split; [exact E|]. split; [done|]. apply (Forall_impl _ _ _ Hall). cbn [f0 left ptr]. intros f1 [Hs Hp] Hty. specialize (Hs Hty). lia.
Qed.

(** A field that does not fit is refused with an error, and whatever was written
    of it stays below the size that the writer was given. *)
Theorem pb_writer_bounded fs mem sz :
  Forall field_ok fs -> 0 <= sz < 2 ^ 31 -> sz <= Z.of_nat (length mem) ->
  exists r b, pb_add_all fs (pb_init_buff mem sz) = Done (r, b) /\
    (r = 0 <-> Z.of_nat (length (encode fs)) <= sz) /\
    length (out b) = length mem /\ drop (Z.to_nat sz) (out b) = drop (Z.to_nat sz) mem.
Proof.
  intros Hfs Hsz Hmem. destruct (pb_init_buff_wrote mem sz Hsz Hmem) as [Hw Hb]. pose proof (wr_left _ _ Hw) as Hl. rewrite Hb in Hl. cbn [length] in Hl.
  destruct (pb_add_all_appends fs _ _ Hw Hfs) as [(Hfit & b & E & _ & Hk)|(Hno & e & b & He & E & Hk)]; destruct Hk as (_ & Hlen & Htl); rewrite Hb in Htl;
    eexists _, b; (split; [exact E|]); (split; [|by split]); split; intros ?; (done || lia).
Qed.

(** The zigzag map. *)
Lemma pb_zigzag s : in_s 64 s -> pb_uint2int (pb_int2uint s) = s.
Proof.
  intros Hs. unfold in_s in Hs. unfold pb_int2uint, pb_uint2int.
  assert (Hodd : forall u, Z.land u 1 = u mod 2) by (intros u; change 1 with (Z.ones 1); by rewrite Z.land_ones).
  assert (E1 : u64 (i64 (Z.shiftl s 1)) = u64 (2 * s)) by (rewrite wrap_u_s by lia; f_equal; rewrite Z.shiftl_mul_pow2; lia).
  destruct (Z.ltb_spec s 0) as [Hneg|Hpos].
  - assert (E2 : u64 (Z.lnot (i64 (Z.shiftl s 1))) = - 2 * s - 1).
    { unfold Z.lnot. rewrite <-(wrap_u_s 64) by lia. rewrite <-Z.sub_1_r. rewrite wrap_u_s by lia.
      rewrite <-wrap_u_sub_l. replace (u64 (- i64 (Z.shiftl s 1))) with (u64 (- 2 * s)); [rewrite wrap_u_sub_l; apply wrap_u_id; unfold in_u; lia|].
      replace (- i64 (Z.shiftl s 1)) with (0 - i64 (Z.shiftl s 1)) by lia. rewrite <-wrap_u_sub_r, E1, wrap_u_sub_r. f_equal. lia. }
    rewrite E2, Hodd. replace (- 2 * s - 1) with (1 + (- s - 1) * 2) by lia. rewrite Z.mod_add by lia. cbn [Z.eqb negb Z.modulo Z.div_eucl Z.pos_div_eucl].
    change (1 mod 2 =? 0) with false. cbn [negb]. rewrite Z.shiftr_div_pow2, Z.div_add by lia. change (1 / 2 ^ 1) with 0. unfold Z.lnot.
    rewrite <-wrap_s_u by lia. rewrite wrap_u_idem, wrap_s_u by lia. rewrite wrap_s_id by (unfold in_s; lia). lia.
  - rewrite E1, wrap_u_id, Hodd by (unfold in_u; lia). rewrite Z.mul_comm, Z.mod_mul by lia. cbn [Z.eqb negb].
    rewrite Z.shiftr_div_pow2, Z.div_mul by lia. apply wrap_s_id; [lia|]. unfold in_s. lia.
Qed.

(** ** A message of four fields *)

Definition sample : list (Z * pb_value) := [(1, PVarint 300); (2, PString [104; 105]); (3, PFixed32 7); (4, PFixed64 (2 ^ 63))].
Definition empty_field : pb_field_t := Field 0 0 0 (Val 0 0) 0 0 0 None.

Lemma sample_ok : Forall field_ok sample.
Proof. by repeat constructor. Qed.

Lemma pb_roundtrip_witness :
  exists b, pb_add_all sample (pb_init_buff (replicate 24 0) 24) = Done (0, b) /\
    take 21 (out b) = [8; 172; 2; 18; 2; 104; 105; 29; 7; 0; 0; 0; 33; 0; 0; 0; 0; 0; 0; 0; 128].
Proof.
  destruct (pb_roundtrip sample (replicate 24 0) 24 empty_field) as (b & E & _ & Ht & _).
  - apply sample_ok.
  - done.
  - done.
  - done.
  - exists b. split; [exact E|]. exact Ht.
Defined.

Lemma pb_reader_total_witness : exists l f', pb_fields [8; 150; 1; 18; 200] 6 empty_field 5 = Done (l, f') /\ Z.of_nat (length l) <= 5.
Proof.
  destruct (pb_reader_total [8; 150; 1; 18; 200] 5 empty_field) as (l & f' & E & Hl & _); [done|done|]. exists l, f'. split; [exact E|exact Hl].
Defined.

Lemma pb_writer_bounded_witness :
  exists r b, pb_add_all sample (pb_init_buff (replicate 24 0) 10) = Done (r, b) /\ r <> 0 /\ drop 10 (out b) = replicate 14 0.
Proof.
  destruct (pb_writer_bounded sample (replicate 24 0) 10) as (r & b & E & Hr & _ & Ht); [apply sample_ok|done|done|].
  exists r, b. split; [exact E|]. split; [|exact Ht]. intros H0. by apply Hr in H0.
Defined.
