(* ===== verification/CmdBase.v ===== *)
(** * svrkit/cmd_base.h: the header of a request or response

    [cmd_base_t] is read from and written to the wire format of Pbc.v; the body
    may follow as a protocol buffer message, of which the code uses the size and
    the serialized bytes only.  A [char *] is an offset into the buffer that it
    points into, or NULL. *)
From S2P Require Import Prelude Words Memory Pbc.

(** ref_str_t *)
Record ref_str_t := RefStr { len : Z; data : option Z }.
Implicit Types s : ref_str_t.

Record cmd_base_t := CmdBase {
  type : Z; cmd_name : ref_str_t; cmd_id : Z; seq_id : Z; body : ref_str_t; ret : Z; errmsg : ref_str_t }.
Implicit Types (c : cmd_base_t) (b : pb_buff_t) (mem : list Z).

Definition init : cmd_base_t := CmdBase 0 (RefStr 0 None) 0 0 (RefStr 0 None) 0 (RefStr 0 None).

(** sizeof(cmd_base_t) on a 64-bit machine. *)
Definition sizeof_cmd_base : Z := 80.

Definition get_maybe_size c : Z := u32 (sizeof_cmd_base - 3 * 4 + len (body c) + len (cmd_name c) + len (errmsg c)).

(** ** parse *)

(** init_ref_str on the members of the union. *)
Definition field_str (v : pb_field_val_t) : ref_str_t := RefStr (str_len v) (Some (str_data v)).

(** The switch; the wire type of the field is not looked at. *)
Definition parse_field (f : pb_field_t) c : cmd_base_t :=
  let v := val f in
  match tag f with
  | 1 => CmdBase (i32_of v) (cmd_name c) (cmd_id c) (seq_id c) (body c) (ret c) (errmsg c)
  | 2 => CmdBase (type c) (field_str v) (cmd_id c) (seq_id c) (body c) (ret c) (errmsg c)
  | 3 => CmdBase (type c) (cmd_name c) (i64_of v) (seq_id c) (body c) (ret c) (errmsg c)
  | 4 => CmdBase (type c) (cmd_name c) (cmd_id c) (i64_of v) (body c) (ret c) (errmsg c)
  | 5 => CmdBase (type c) (cmd_name c) (cmd_id c) (seq_id c) (field_str v) (ret c) (errmsg c)
  | 6 => CmdBase (type c) (cmd_name c) (cmd_id c) (seq_id c) (body c) (i32_of v) (errmsg c)
  | 7 => CmdBase (type c) (cmd_name c) (cmd_id c) (seq_id c) (body c) (ret c) (field_str v)
  | _ => c
  end.

(** The loop ends when pb_next returns NULL, for whatever reason. *)
Fixpoint parse_loop (buf : list Z) (fuel : nat) (o : option pb_field_t * pb_field_t) c : outcome (Z * cmd_base_t) :=
  match o.1 with
  | None => Done (0, c)
  | Some f =>
      match fuel with
      | O => NoFuel
      | S fuel => o ← pb_next buf f; parse_loop buf fuel o (parse_field f c)
      end
  end.

(** [start] is the uninitialised local of that name. *)
Definition parse (start : pb_field_t) (buf : list Z) (n : Z) c : outcome (Z * cmd_base_t) :=
  o ← pb_begin buf start (i32 n); parse_loop buf (S (length buf)) o c.

(** ** serialize *)
Section serialize.
Variable mem : list Z.

(** The call of a pb_add function whose result is dropped. *)
Definition ignore (r : outcome (Z * pb_buff_t)) : outcome pb_buff_t := r ← r; Done r.2.

(** pb_add_string with a [char const *]. *)
Definition add_ref_str (t : Z) s b : outcome (Z * pb_buff_t) :=
  p ← of_option (data s); l ← load_bytes mem p (Z.to_nat (len s)); pb_add_string t l b.

(** The six tests of serialize_common, which always returns 0. *)
Definition serialize_tests c b : outcome pb_buff_t :=
  b ← (if 0 <? type c then ignore (pb_add_varint 1 (type c) b) else Done b);
  b ← (if (0 <? len (cmd_name c)) && bool_decide (is_Some (data (cmd_name c))) then ignore (add_ref_str 2 (cmd_name c) b) else Done b);
  b ← (if 0 <? cmd_id c then ignore (pb_add_varint 3 (cmd_id c) b) else Done b);
  b ← (if 0 <? seq_id c then ignore (pb_add_varint 4 (seq_id c) b) else Done b);
  b ← (if 0 <? ret c then ignore (pb_add_fixed32 6 (ret c) b) else Done b);
  if 0 <? len (errmsg c) then ignore (add_ref_str 7 (errmsg c) b) else Done b.
Definition serialize_common c b : outcome (Z * pb_buff_t) := b ← serialize_tests c b; Done (0, b).

Definition serialize_reset c b : outcome (Z * pb_buff_t) :=
  b ← (if 0 <? len (body c) then ignore (add_ref_str 5 (body c) b) else Done b);
  Done (0, b).

(** serialize_to: the result, *out_len and the buffer. *)
Definition serialize_to (buff : list Z) (n : Z) c : outcome (Z * Z * list Z) :=
  r ← serialize_common c (pb_init_buff buff n);
  r ← serialize_reset c r.2;
  Done (0, u32 (pb_get_encoded_length r.2), out r.2).

(** msg->SerializeWithCachedSizesToArray(pb_buff.ptr), ptr += n, left -= n. *)
Definition write_message (msg : list Z) b : outcome pb_buff_t :=
  o ← store_bytes (out b) (bptr b) msg;
  Done (Buff o (bsize b) (bptr b + Z.of_nat (length msg)) (i32 (u32 (bleft b) - Z.of_nat (length msg))) (berr b)).

(** The block [if (msg)] of send_cmd_base and serialize_cmd_base_impl: the result of
    the function, if it returns there, and the buffer.  [left - msg_len] is unsigned. *)
Definition add_message (msg_len : Z) (msg : list Z) b : outcome (option Z * pb_buff_t) :=
  r ← pb_add_string_head 5 msg_len b;
  if negb (r.1 =? 0) then Done (Some (-1), r.2)
  else if u32 (u32 (bleft r.2) - msg_len) <=? 0 then Done (Some (-2), r.2)
  else b ← write_message msg r.2; Done (None, b).

Definition byte_size (msg : option (list Z)) : Z := match msg with Some m => u32 (Z.of_nat (length m)) | None => 0 end.

(** serialize_cmd_base_impl: the result, *len and the buffer [out]. *)
Definition serialize_cmd_base_impl (out_ : list Z) (n : Z) c (msg : option (list Z)) (msg_len : Z) : outcome (Z * Z * list Z) :=
  let max_len := u32 n in
  if u32 (get_maybe_size c + msg_len) <? max_len then Done (-1, n, out_)
  else
    r ← serialize_common c (pb_init_buff out_ max_len);
    r ← match msg with Some m => add_message msg_len m r.2 | None => Done (None, r.2) end;
    match r.1 with
    | Some e => Done (e, n, out r.2)
    | None => Done (0, u64 (u32 (pb_get_encoded_length r.2)), out r.2)
    end.

(** serialize_cmd_base on a buffer of which the caller says that it has *len bytes. *)
Definition serialize_cmd_base (out_ : list Z) (n : Z) c (msg : option (list Z)) : outcome (Z * Z * list Z) :=
  if n <=? 4 then Done (-1, n, out_)
  else
    r ← serialize_cmd_base_impl (drop 4 out_) (n - 4) c msg (byte_size msg);
    let '(e, n', tail) := r in
    if negb (e =? 0) then Done (e, n', take 4 out_ ++ tail)
    else
      o ← store_bytes (take 4 out_ ++ tail) 0 (be32 (u32 n'));
      Done (0, u32 n' + 4, o).

(** serialize_cmd_base on a vector, which it resizes: the result and the vector. *)
Definition serialize_cmd_base_vec c (msg : option (list Z)) : outcome (Z * list Z) :=
  let max_len := u32 (get_maybe_size c + byte_size msg) in
  let out_ := replicate (Z.to_nat max_len) 0 in
  r ← serialize_cmd_base_impl (drop 4 out_) (u64 (max_len - 4)) c msg (byte_size msg);
  let '(e, n', tail) := r in
  if negb (e =? 0) then Done (e, take 4 out_ ++ tail)
  else
    o ← store_bytes (take 4 out_ ++ tail) 0 (be32 (u32 n'));
    Done (0, take (Z.to_nat (u32 n' + 4)) o ++ replicate (Z.to_nat (u32 n' + 4) - length o) 0).

(** send_cmd_base over the buffer [buff] of the stream, of max_size bytes. *)
Section send.
Context {W : Type}.
Variable send_data : list Z -> W -> outcome (Z * W).

Definition send_cmd_base (buff : list Z) (max_size : Z) c (msg : option (list Z)) (w : W) : outcome (Z * list Z * W) :=
  r ← serialize_common c (pb_init_buff (drop 4 buff) (max_size - 4));
  r ← match msg with Some m => add_message (byte_size msg) m r.2 | None => Done (None, r.2) end;
  match r.1 with
  | Some e => Done (e, take 4 buff ++ out r.2, w)
  | None =>
      let out_len := u32 (pb_get_encoded_length r.2) in
      o ← store_bytes (take 4 buff ++ out r.2) 0 (be32 out_len);
      l ← load_bytes o 0 (Z.to_nat (u32 (out_len + 4)));
      r ← send_data l w; Done (r.1, o, r.2)
  end.

(** The request of rpc_pb_call_udp_impl. *)
Definition send_udp_request (buff : list Z) (max_size : Z) c (msg : option (list Z)) (w : W) : outcome (Z * list Z * W) :=
  r ← serialize_cmd_base buff max_size c msg;
  let '(_, out_len, o) := r in
  l ← load_bytes o 4 (Z.to_nat (u64 (out_len - 4)));
  r ← send_data l w; Done (r.1, o, r.2).
End send.
End serialize.

(** ** Headers *)

Record header := Header {
  h_type : Z; h_name : list Z; h_cmd : Z; h_seq : Z; h_body : list Z; h_ret : Z; h_err : list Z }.
Implicit Types h : header.

(** The string [s] has the bytes [l], in the buffer [buf]. *)
Definition str_is (buf : list Z) s (l : list Z) : Prop :=
  len s = Z.of_nat (length l) /\ (l <> [] -> exists p, data s = Some p /\ load_bytes buf p (length l) = Done l).

Record shows (buf : list Z) c h : Prop := {
  sh_type : type c = h_type h; sh_name : str_is buf (cmd_name c) (h_name h);
  sh_cmd : cmd_id c = h_cmd h; sh_seq : seq_id c = h_seq h; sh_body : str_is buf (body c) (h_body h);
  sh_ret : ret c = h_ret h; sh_err : str_is buf (errmsg c) (h_err h) }.

Definition bytes (l : list Z) : Prop := Z.of_nat (length l) < 2 ^ 31 /\ Forall (in_u 8) l.

Definition header_ok h : Prop :=
  (in_u 32 (h_type h) /\ in_u 64 (h_cmd h) /\ in_u 64 (h_seq h) /\ in_u 32 (h_ret h)) /\
  bytes (h_name h) /\ bytes (h_body h) /\ bytes (h_err h).

(** The optional field of a number or a string: left out when it is 0 or empty. *)
Definition num_field (t x : Z) (p : pb_value) : list (Z * pb_value) := if 0 <? x then [(t, p)] else [].
Definition str_field (t : Z) (l : list Z) : list (Z * pb_value) := num_field t (Z.of_nat (length l)) (PString l).

Definition common_fields h : list (Z * pb_value) :=
  num_field 1 (h_type h) (PVarint (h_type h)) ++ str_field 2 (h_name h) ++ num_field 3 (h_cmd h) (PVarint (h_cmd h)) ++
  num_field 4 (h_seq h) (PVarint (h_seq h)) ++ num_field 6 (h_ret h) (PFixed32 (h_ret h)) ++ str_field 7 (h_err h).
Definition header_fields h : list (Z * pb_value) := common_fields h ++ str_field 5 (h_body h).

Lemma encode_app fs1 fs2 : encode (fs1 ++ fs2) = encode fs1 ++ encode fs2.
Proof. apply bind_app. Qed.

Lemma encode_one t p : encode [(t, p)] = encode_field t p.
Proof. unfold encode. by rewrite bind_singleton. Qed.

(** The call [r] appends the fields [fs], if there is room for them. *)
Definition adds b w fs (r : outcome pb_buff_t) : Prop :=
  wrote b w -> Z.of_nat (length (encode fs)) <= bleft b -> exists b', r = Done b' /\ wrote b' (w ++ encode fs) /\ keeps_tail b b'.

Lemma adds_bind b w fs1 fs2 r k :
  adds b w fs1 r -> (forall b', adds b' (w ++ encode fs1) fs2 (k b')) -> adds b w (fs1 ++ fs2) (r ≫= k).
Proof.
  intros H1 H2 Hw Hfit. rewrite encode_app, length_app in Hfit. destruct (H1 Hw) as (b1 & -> & Hw1 & Hk1); [lia|].
  rewrite outcome_bind_ret. destruct (H2 b1 Hw1) as (b2 & -> & Hw2 & Hk2).
  { rewrite (wr_left _ _ Hw1), (proj1 Hk1), length_app. rewrite (wr_left _ _ Hw) in Hfit. lia. }
  exists b2. rewrite encode_app, app_assoc. split_and!; [done..|]. by eapply keeps_tail_trans.
Qed.

Lemma adds_done b w : adds b w [] (Done b).
Proof. intros Hw _. exists b. unfold encode. cbn. rewrite app_nil_r. by split_and!. Qed.

(** One optional call of serialize_common. *)
Lemma adds_field b w t x p r :
  (0 < x -> field_ok (t, p) /\ r = pb_add_value t p b) -> adds b w (num_field t x p) (if 0 <? x then ignore r else Done b).
Proof.
  intros Hx. unfold num_field. destruct (Z.ltb_spec 0 x) as [Hp|Hp]; [|apply adds_done]. intros Hw Hfit. destruct (Hx Hp) as [Hok ->].
  unfold encode in *. rewrite bind_singleton in *. cbn [fst snd] in *.
  destruct (pb_add_value_appends t p b w Hw Hok) as [(_ & b' & E & Hw' & Hk)|(Hno & _)]; [|lia].
  exists b'. unfold ignore. rewrite E. by split.
Qed.

Lemma add_ref_str_is mem t s l b : str_is mem s l -> l <> [] -> add_ref_str mem t s b = pb_add_value t (PString l) b.
Proof.
  intros [Hlen Hl] Hne. destruct (Hl Hne) as (p & Hd & E). unfold add_ref_str. rewrite Hd. cbn [of_option]. by rewrite outcome_bind_ret, Hlen, Nat2Z.id, E.
Qed.

Lemma str_is_nonempty mem s l : str_is mem s l -> 0 < len s -> l <> [] /\ is_Some (data s).
Proof. intros [Hlen Hl] Hp. assert (Hne : l <> []) by (intros ->; cbn in Hlen; lia). split; [done|]. destruct (Hl Hne) as (p & -> & _). by exists p. Qed.

Lemma bytes_ok_field t l : 1 <= t < 2 ^ 29 -> bytes l -> field_ok (t, PString l).
Proof. intros Ht [Hl Hb]. by split. Qed.

Lemma adds_string mem b w t s l :
  1 <= t < 2 ^ 29 -> str_is mem s l -> bytes l -> adds b w (str_field t l) (if 0 <? len s then ignore (add_ref_str mem t s b) else Done b).
Proof.
  intros Ht Hs Hl. unfold str_field. rewrite (proj1 Hs). apply adds_field. intros Hp. split; [by apply bytes_ok_field|].
  apply add_ref_str_is; [done|]. by intros ->.
Qed.

(** serialize_common writes the fields of the header, if they fit. *)
Lemma serialize_common_ok mem c h b w :
  shows mem c h -> header_ok h -> wrote b w -> Z.of_nat (length (encode (common_fields h))) <= bleft b ->
  exists b', serialize_common mem c b = Done (0, b') /\ wrote b' (w ++ encode (common_fields h)) /\ keeps_tail b b'.
Proof.
  intros [Hty Hname Hcmd Hseq _ Hret Herr] ((H1 & H3 & H4 & H6) & H2 & _ & H7) Hw Hfit.
  assert (HA : adds b w (common_fields h) (serialize_tests mem c b)).
  { unfold serialize_tests, common_fields. rewrite Hty, Hcmd, Hseq, Hret.
    replace ((0 <? len (cmd_name c)) && bool_decide (is_Some (data (cmd_name c)))) with (0 <? len (cmd_name c)).
    2:{ destruct (Z.ltb_spec 0 (len (cmd_name c))) as [Hp|]; [|done]. by rewrite bool_decide_eq_true_2 by by apply (str_is_nonempty mem _ (h_name h)). }
    apply adds_bind; [apply adds_field; intros Hp; split; [split; [cbn; lia|cbn; unfold in_u in *; lia]|done]|intros b1].
    apply adds_bind; [by apply adds_string|intros b2]. apply adds_bind; [by apply adds_field|intros b3].
    apply adds_bind; [by apply adds_field|intros b4]. apply adds_bind; [by apply adds_field|intros b5]. by apply adds_string. }
  destruct (HA Hw Hfit) as (b' & E & Hw' & Hk). exists b'. unfold serialize_common. by rewrite E.
Qed.

(** ** Sizes *)

Lemma varint_le k x : (0 < k <= 10)%nat -> 0 <= x < 2 ^ (7 * Z.of_nat k) -> (length (varint 10 x) <= k)%nat.
Proof.
  intros Hk Hx. assert (E : forall j i y, (i <= j)%nat -> (0 < i)%nat -> 0 <= y < 2 ^ (7 * Z.of_nat i) -> varint j y = varint i y).
  { induction j as [|j IH]; intros i y Hij Hi Hy; [lia|]. destruct i as [|i]; [lia|]. cbn [varint]. destruct (Z.ltb_spec y 128); [done|].
    f_equal. destruct i as [|i]; [cbn in Hy; lia|]. apply IH; [lia..|]. split; [apply Z.div_pos; lia|]. apply Z.div_lt_upper_bound; [lia|].
    change 128 with (2 ^ 7). rewrite <-Z.pow_add_r by lia. replace (7 + 7 * Z.of_nat (S i)) with (7 * Z.of_nat (S (S i))) by lia. lia. }
  rewrite (E 10%nat k x) by lia. apply varint_length; lia.
Qed.

Lemma num_field_size t x p n : 1 <= t < 16 -> (length (encode_value p) <= n)%nat -> (length (encode (num_field t x p)) <= S n)%nat.
Proof.
  intros Ht Hp. unfold num_field. destruct (0 <? x); [|cbn; lia]. unfold encode. rewrite bind_singleton. cbn [fst snd]. unfold encode_field.
  pose proof (wire_type_range p). rewrite length_app. pose proof (varint_le 1 (8 * t + wire_type p) ltac:(lia) ltac:(cbn; lia)). lia.
Qed.

Lemma str_field_size t l : 1 <= t < 16 -> Z.of_nat (length l) < 2 ^ 31 -> (length (encode (str_field t l)) <= 6 + length l)%nat.
Proof.
  intros Ht Hl. apply (num_field_size t _ (PString l) (5 + length l)); [done|]. cbn [encode_value]. rewrite length_app.
  pose proof (varint_le 5 (Z.of_nat (length l)) ltac:(lia) ltac:(lia)). lia.
Qed.

Lemma common_size h : header_ok h -> (length (encode (common_fields h)) <= 45 + length (h_name h) + length (h_err h))%nat.
Proof.
  intros ((H1 & H3 & H4 & H6) & [H2 _] & _ & [H7 _]). unfold in_u in *. unfold common_fields. rewrite !encode_app, !length_app.
  pose proof (num_field_size 1 (h_type h) (PVarint (h_type h)) 5 ltac:(lia) (varint_le 5 (h_type h) ltac:(lia) ltac:(lia))).
  pose proof (num_field_size 3 (h_cmd h) (PVarint (h_cmd h)) 10 ltac:(lia) (varint_le 10 (h_cmd h) ltac:(lia) ltac:(lia))).
  pose proof (num_field_size 4 (h_seq h) (PVarint (h_seq h)) 10 ltac:(lia) (varint_le 10 (h_seq h) ltac:(lia) ltac:(lia))).
  pose proof (num_field_size 6 (h_ret h) (PFixed32 (h_ret h)) 4 ltac:(lia) (le_n _)).
  pose proof (str_field_size 2 (h_name h) ltac:(lia) H2). pose proof (str_field_size 7 (h_err h) ltac:(lia) H7). lia.
Qed.

(** ** serialize_cmd_base *)

(** The message of a request: the header's fields, and the body in one more field. *)
Definition message h (msg : option (list Z)) : list Z :=
  encode (common_fields h ++ match msg with Some m => [(5, PString m)] | None => [] end).

Lemma string_head_appends b w n :
  wrote b w -> in_u 64 n -> appends b w (varint 10 (8 * 5 + PB_WT_STRING) ++ varint 10 n) (pb_add_string_head 5 n b).
Proof.
  intros Hw Hn. unfold pb_add_string_head. eapply appends_seq; [apply (pb_add_vint_appends b w (make_tag PB_WT_STRING 5)); [done|by unfold in_u]| | |done]; cbn [fst snd].
  - intros e b' He. rewrite (proj2 (Z.eqb_neq e 0)) by done. by exists (-1).
  - intros b' Hw'. cbn [negb Z.eqb]. by apply pb_add_vint_appends.
Qed.

Lemma add_message_ok b w m :
  wrote b w -> Z.of_nat (length m) < 2 ^ 31 -> Z.of_nat (length (encode_field 5 (PString m))) < bleft b ->
  exists b', add_message (Z.of_nat (length m)) m b = Done (None, b') /\ wrote b' (w ++ encode_field 5 (PString m)) /\ keeps_tail b b'.
Proof.
  intros Hw Hm Hfit. unfold encode_field in *. cbn [encode_value wire_type] in *. rewrite !length_app in Hfit.
  pose proof (string_head_appends b w (Z.of_nat (length m)) Hw ltac:(unfold in_u; lia)) as HH.
  destruct HH as [(_ & b1 & E & Hw1 & Hk1)|(Hno & _)]; [|rewrite length_app in Hno; lia].
  unfold add_message. rewrite E, outcome_bind_ret. cbn [fst snd negb Z.eqb].
  assert (Hl1 : bleft b1 = bleft b - Z.of_nat (length (varint 10 (8 * 5 + PB_WT_STRING)) + length (varint 10 (Z.of_nat (length m))))).
  { rewrite (wr_left _ _ Hw1), (wr_left _ _ Hw), (proj1 Hk1), !length_app. lia. }
  pose proof (wr_range _ _ Hw1) as Hr1. rewrite (wrap_u_id 32 (bleft b1)), wrap_u_id by (unfold in_u; lia).
  rewrite (proj2 (Z.leb_gt _ 0)) by lia. destruct (pb_write_ok b1 _ m Hw1) as (b2 & E2 & Hw2 & Hk2); [lia|].
  exists b2. split; [|split; [by rewrite <-!app_assoc in *|by eapply keeps_tail_trans]].
  unfold write_message. unfold pb_write in E2. rewrite (wrap_u_id 32 (bleft b1)) by (unfold in_u; lia). by rewrite E2.
Qed.

(** The header and the body after it, as both serializers write them. *)
Lemma message_written mem c h b msg :
  shows mem c h -> header_ok h -> (forall m, msg = Some m -> Z.of_nat (length m) < 2 ^ 31) ->
  wrote b [] -> Z.of_nat (length (message h msg)) < bleft b ->
  exists b1 b2, serialize_common mem c b = Done (0, b1) /\
    match msg with Some m => add_message (match msg with Some m => Z.of_nat (length m) | None => 0 end) m b1 | None => Done (None, b1) end = Done (None, b2) /\
    wrote b2 (message h msg) /\ keeps_tail b b2.
Proof.
  intros Hs Hok Hm Hw Hfit. unfold message in *. rewrite encode_app, length_app in *.
  destruct (serialize_common_ok mem c h b [] Hs Hok Hw) as (b1 & E1 & Hw1 & Hk1); [lia|]. cbn [app] in *.
  pose proof (wr_left _ _ Hw) as Hl. pose proof (wr_left _ _ Hw1) as Hl1. rewrite (proj1 Hk1) in Hl1. cbn [length] in Hl. exists b1.
  destruct msg as [m|]; cbv beta iota in *.
  - rewrite encode_one in *. destruct (add_message_ok b1 _ m Hw1 (Hm m eq_refl)) as (b2 & E2 & Hw2 & Hk2); [lia|].
    exists b2. split_and!; try done; by eapply keeps_tail_trans.
  - exists b1. rewrite app_nil_r. by split_and!.
Qed.

Lemma impl_ok mem c h out_ n msg :
  shows mem c h -> header_ok h ->
  get_maybe_size c = 68 + Z.of_nat (length (h_body h) + length (h_name h) + length (h_err h)) ->
  (forall m, msg = Some m -> Z.of_nat (length m) < 2 ^ 31) ->
  let msg_len := match msg with Some m => Z.of_nat (length m) | None => 0 end in
  0 <= n <= get_maybe_size c + msg_len -> get_maybe_size c + msg_len < 2 ^ 31 -> n <= Z.of_nat (length out_) ->
  Z.of_nat (length (message h msg)) < n ->
  exists o, serialize_cmd_base_impl mem out_ n c msg msg_len = Done (0, Z.of_nat (length (message h msg)), o) /\
    take (length (message h msg)) o = message h msg /\ length o = length out_.
Proof.
  intros Hs Hok Hsz Hm msg_len Hn Hsmall Hout Hfit. unfold serialize_cmd_base_impl. rewrite (wrap_u_id 32 n) by (unfold in_u; lia).
  rewrite wrap_u_id by (unfold in_u; lia). rewrite (proj2 (Z.ltb_ge _ _)) by lia.
  destruct (pb_init_buff_wrote out_ n) as [Hw Hb]; [lia|done|]. pose proof (wr_left _ _ Hw) as Hl. rewrite Hb in Hl. cbn [length] in Hl.
  destruct (message_written mem c h _ msg Hs Hok Hm Hw) as (b1 & b2 & E1 & E2 & Hw2 & Hb2 & Hlen & _); [lia|].
  rewrite E1, outcome_bind_ret. cbn [fst snd]. unfold msg_len. rewrite E2, outcome_bind_ret. cbn [fst snd]. rewrite Hb in Hb2.
  rewrite (pb_encoded_length b2 _ Hw2) by (rewrite Hb2; unfold in_u; lia).
  rewrite (wrap_u_id 32), (wrap_u_id 64) by (unfold in_u; lia). exists (out b2). split; [done|]. split; [apply (wr_out _ _ Hw2)|done].
Qed.

(** ** parse *)

Definition with_body (m : list Z) h : header := Header (h_type h) (h_name h) (h_cmd h) (h_seq h) m (h_ret h) (h_err h).

(** A field of a header, and what it does to the header read so far. *)
Definition header_field (tp : Z * pb_value) : Prop :=
  match tp with
  | (1, PVarint x) => in_u 32 x
  | (2, PString _) | (3, PVarint _) | (4, PVarint _) | (5, PString _) | (6, PFixed32 _) | (7, PString _) => True
  | _ => False
  end.

Definition apply_field h (tp : Z * pb_value) : header :=
  match tp with
  | (1, PVarint x) => Header x (h_name h) (h_cmd h) (h_seq h) (h_body h) (h_ret h) (h_err h)
  | (2, PString l) => Header (h_type h) l (h_cmd h) (h_seq h) (h_body h) (h_ret h) (h_err h)
  | (3, PVarint x) => Header (h_type h) (h_name h) x (h_seq h) (h_body h) (h_ret h) (h_err h)
  | (4, PVarint x) => Header (h_type h) (h_name h) (h_cmd h) x (h_body h) (h_ret h) (h_err h)
  | (5, PString l) => with_body l h
  | (6, PFixed32 x) => Header (h_type h) (h_name h) (h_cmd h) (h_seq h) (h_body h) x (h_err h)
  | (7, PString l) => Header (h_type h) (h_name h) (h_cmd h) (h_seq h) (h_body h) (h_ret h) l
  | _ => h
  end.

Lemma field_str_is buf l v : value_is buf (PString l) v -> str_is buf (field_str v) l.
Proof. intros [Hl Hb]. split; [exact Hl|]. intros _. by exists (str_data v). Qed.

Lemma parse_field_shows buf f tp c h : field_is buf f tp -> header_field tp -> shows buf c h -> shows buf (parse_field f c) (apply_field h tp).
Proof.
  intros (Ht & _ & Hv) Hk [H1 H2 H3 H4 H5 H6 H7]. destruct tp as [t p]. cbn [fst snd] in *. unfold parse_field. rewrite Ht.
  destruct t as [|t|]; cbn in Hk; try done; do 3 (try (destruct t as [t|t|]; cbn in Hk; try done)); destruct p as [x|x|l|x]; try done; cbn [apply_field];
    split; cbn [type cmd_name cmd_id seq_id body ret errmsg h_type h_name h_cmd h_seq h_body h_ret h_err with_body]; try done; try by apply field_str_is.
  unfold i32_of. cbn in Hv. unfold i64_of in Hv. rewrite Hv. by apply wrap_u_id.
Qed.

Lemma parse_loop_fold buf fuel o c l f' : pb_rest buf fuel o = Done (l, f') -> parse_loop buf fuel o c = Done (0, foldl (fun c f => parse_field f c) c l).
Proof.
  revert o c l f'. induction fuel as [|fuel IH]; intros [[f|] f0] c l f'; cbn [pb_rest parse_loop fst snd]; try (by intros [= <- <-]).
  destruct (pb_next buf f) as [o| |]; [|done..]. rewrite !outcome_bind_ret. destruct (pb_rest buf fuel o) as [[l' f1]| |] eqn:E; [|done..].
  rewrite outcome_bind_ret. intros [= <- <-]. by rewrite (IH o _ _ _ E).
Qed.

Lemma parse_fold_shows buf l fs c h :
  Forall2 (field_is buf) l fs -> Forall header_field fs -> shows buf c h -> shows buf (foldl (fun c f => parse_field f c) c l) (foldl apply_field h fs).
Proof.
  intros Hl. revert c h. induction Hl as [|f tp l fs Hf Hl IH]; intros c h Hfs Hs; [done|]. apply Forall_cons in Hfs as [Hk Hfs].
  cbn [foldl]. apply IH; [done|]. by apply parse_field_shows.
Qed.

Definition header0 : header := Header 0 [] 0 0 [] 0 [].

Lemma init_shows buf : shows buf init header0.
Proof. by split. Qed.

Lemma foldl_num h t x p : foldl apply_field h (num_field t x p) = if 0 <? x then apply_field h (t, p) else h.
Proof. unfold num_field. by destruct (0 <? x). Qed.

Lemma foldl_common h : header_ok h -> foldl apply_field header0 (common_fields h) = with_body [] h.
Proof.
  destruct h as [ty name cmd seq bd rt err]. intros ((H1 & H3 & H4 & H6) & _). cbn [h_type h_name h_cmd h_seq h_ret] in *. unfold in_u in *.
  assert (Hl : forall l : list Z, Z.of_nat (length l) <= 0 -> [] = l) by (intros [|]; [done|cbn; lia]).
  unfold common_fields, str_field. rewrite !foldl_app, !foldl_num. cbn [h_type h_name h_cmd h_seq h_ret h_err header0 with_body].
  destruct (Z.ltb_spec 0 ty), (Z.ltb_spec 0 (Z.of_nat (length name))), (Z.ltb_spec 0 cmd), (Z.ltb_spec 0 seq), (Z.ltb_spec 0 rt),
    (Z.ltb_spec 0 (Z.of_nat (length err))); cbn [apply_field h_type h_name h_cmd h_seq h_body h_ret h_err with_body header0]; unfold with_body;
    cbn [h_type h_name h_cmd h_seq h_ret h_err]; f_equal; (done || lia || by apply Hl).
Qed.

Lemma common_fields_ok h : header_ok h -> Forall field_ok (common_fields h) /\ Forall header_field (common_fields h).
Proof.
  intros ((H1 & H3 & H4 & H6) & H2 & _ & H7).
  assert (HN : forall (P : Z * pb_value -> Prop) t x p, P (t, p) -> Forall P (num_field t x p)) by (intros P t x p HP; unfold num_field; destruct (0 <? x); by repeat constructor).
  unfold common_fields, str_field. rewrite !Forall_app. split; split_and!; apply HN; try done; try (by apply bytes_ok_field).
  split; [cbn; lia|]. cbn. unfold in_u in *. lia.
Qed.

Lemma encode_field_length t p : (1 <= length (encode_field t p))%nat.
Proof. unfold encode_field. rewrite length_app, (varint_cons 10) by lia. destruct (_ <? 128); cbn [length]; lia. Qed.

(** The tail of a message: the field of the body. *)
Lemma parse_message start buf h msg n :
  header_ok h -> (forall m, msg = Some m -> bytes m) -> Z.of_nat (length (message h msg)) < 2 ^ 31 ->
  take (length (message h msg)) buf = message h msg -> n = Z.of_nat (length (message h msg)) ->
  exists c', parse start buf n init = Done (0, c') /\ shows buf c' (with_body (default [] msg) h).
Proof.
  intros Hok Hm Hsmall Hbuf ->. set (fs := common_fields h ++ match msg with Some m => [(5, PString m)] | None => [] end).
  assert (Hfs : Forall field_ok fs /\ Forall header_field fs).
  { unfold fs. rewrite !Forall_app. destruct (common_fields_ok h Hok) as [Ho Hk]. destruct msg as [m|]; [|by split].
    split; (split; [done|]); [|by repeat constructor]. constructor; [|constructor]. apply bytes_ok_field; [lia|by apply Hm]. }
  destruct Hfs as [Ho Hk]. unfold parse, pb_begin. rewrite wrap_s_id by (unfold in_s; lia). set (f0 := Field _ _ _ _ _ _ _ _).
  assert (Hr : reads buf f0 (encode fs)) by (split; cbn [f0 ptr left]; done || lia).
  assert (Hlen : (length fs <= S (length buf))%nat).
  { assert (HE : forall fs, (length fs <= length (encode fs))%nat).
    { clear. induction fs as [|[t p] fs IH]; [done|]. unfold encode in *. rewrite bind_cons, length_app. cbn [fst snd length].
      pose proof (encode_field_length t p). lia. }
    specialize (HE fs). assert (Hb : (length (encode fs) <= length buf)%nat); [|lia].
    pose proof (f_equal length Hbuf) as HL. rewrite length_take in HL. unfold message in HL. fold fs in HL. lia. }
  destruct (pb_rest_ok buf fs f0 (S (length buf)) Ho Hr Hlen) as (l & f' & E & Hl & _). unfold pb_next in E.
  destruct (pb_decode_tag buf f0) as [r| |]; [|done..]. rewrite !outcome_bind_ret in *. rewrite (parse_loop_fold _ _ _ _ _ _ E).
  eexists. split; [done|]. pose proof (parse_fold_shows buf l fs init header0 Hl Hk (init_shows buf)) as HS.
  replace (with_body (default [] msg) h) with (foldl apply_field header0 fs); [done|]. unfold fs. rewrite foldl_app, foldl_common by done.
  by destruct msg.
Qed.

(** ** Requests and responses *)

Definition total h (msg : option (list Z)) : Z :=
  68 + Z.of_nat (length (h_body h) + length (h_name h) + length (h_err h)) + match msg with Some m => Z.of_nat (length m) | None => 0 end.

Lemma shows_size mem c h msg : shows mem c h -> total h msg < 2 ^ 31 ->
  get_maybe_size c = 68 + Z.of_nat (length (h_body h) + length (h_name h) + length (h_err h)).
Proof.
  intros [_ [Hn _] _ _ [Hb _] _ [He _]] Ht. unfold total in Ht. unfold get_maybe_size, sizeof_cmd_base. rewrite Hn, Hb, He.
  assert (0 <= match msg with Some m => Z.of_nat (length m) | None => 0 end) by (destruct msg; lia). rewrite wrap_u_id; [lia|]. unfold in_u. lia.
Qed.

Lemma message_size h msg : header_ok h -> (forall m, msg = Some m -> bytes m) ->
  Z.of_nat (length (message h msg)) <= 51 + Z.of_nat (length (h_name h) + length (h_err h)) + match msg with Some m => Z.of_nat (length m) | None => 0 end.
Proof.
  intros Hok Hm. unfold message. rewrite encode_app, length_app. pose proof (common_size h Hok). destruct msg as [m|]; [|cbn; lia].
  rewrite encode_one. unfold encode_field. cbn [encode_value wire_type]. rewrite !length_app. destruct (Hm m eq_refl) as [Hlen _].
  pose proof (varint_le 1 (8 * 5 + PB_WT_STRING) ltac:(lia) ltac:(unfold PB_WT_STRING; lia)). pose proof (varint_le 5 (Z.of_nat (length m)) ltac:(lia) ltac:(lia)). lia.
Qed.

(** The vector form writes a packet. *)
Lemma serialize_cmd_base_vec_ok mem c h msg :
  shows mem c h -> header_ok h -> (forall m, msg = Some m -> bytes m) -> total h msg < 2 ^ 31 ->
  serialize_cmd_base_vec mem c msg = Done (0, be32 (Z.of_nat (length (message h msg))) ++ message h msg).
Proof.
  intros Hs Hok Hm Ht. pose proof (shows_size mem c h msg Hs Ht) as Hsz. pose proof (message_size h msg Hok Hm) as Hms. unfold total in Ht.
  unfold serialize_cmd_base_vec, byte_size. set (ml := match msg with Some m => Z.of_nat (length m) | None => 0 end) in *.
  assert (Hml : match msg with Some m => u32 (Z.of_nat (length m)) | None => 0 end = ml).
  { subst ml. destruct msg as [m|]; [|done]. apply wrap_u_id. unfold in_u. lia. }
  assert (Hml0 : 0 <= ml) by (subst ml; destruct msg; lia). rewrite Hml.
  rewrite (wrap_u_id 32) by (unfold in_u; lia). set (n := get_maybe_size c + ml) in *. rewrite (wrap_u_id 64) by (unfold in_u; lia).
  destruct (impl_ok mem c h (drop 4 (replicate (Z.to_nat n) 0)) (n - 4) msg Hs Hok Hsz) as (o & E & Ho & Hlen); fold ml; try lia.
  { intros m Em. apply (Hm m Em). } { rewrite length_drop, length_replicate. lia. }
  fold ml in E. rewrite E, outcome_bind_ret. cbn [negb Z.eqb]. rewrite (wrap_u_id 32) by (unfold in_u; lia).
  rewrite length_drop, length_replicate in Hlen.
  rewrite (store_front (be32 _) (take 4 (replicate (Z.to_nat n) 0) ++ o) 4); [|apply be32_length|].
  2:{ rewrite length_app, length_take, length_replicate. lia. }
  rewrite outcome_bind_ret, drop_app_length' by (rewrite length_take, length_replicate; lia). f_equal. f_equal.
  assert (Hb4 : length (be32 (Z.of_nat (length (message h msg)))) = 4%nat) by (apply be32_length).
  replace (Z.to_nat (Z.of_nat (length (message h msg)) + 4)) with (4 + length (message h msg))%nat by lia.
  rewrite take_app_ge, Hb4 by lia. replace (4 + length (message h msg) - 4)%nat with (length (message h msg)) by lia. rewrite Ho.
  replace (4 + length (message h msg) - _)%nat with 0%nat by (rewrite length_app, Hb4; lia). by rewrite app_nil_r.
Qed.

(** C20: a request or response survives the wire: serialize_cmd_base writes its length
    in network order and its bytes into a vector of the right size, and parse of
    those bytes returns the same type, name, ids, result and error, and the body
    that was appended. *)
Theorem cmd_base_roundtrip mem c h msg start :
  shows mem c h -> header_ok h -> (forall m, msg = Some m -> bytes m) -> total h msg < 2 ^ 31 ->
  exists l, serialize_cmd_base_vec mem c msg = Done (0, be32 (Z.of_nat (length l)) ++ l) /\
    exists c', parse start l (Z.of_nat (length l)) init = Done (0, c') /\ shows l c' (with_body (default [] msg) h).
Proof.
  intros Hs Hok Hm Ht. exists (message h msg). split; [by apply serialize_cmd_base_vec_ok|].
  pose proof (message_size h msg Hok Hm) as Hms. unfold total in Ht. apply (parse_message start _ h msg); [done|done|lia| |done]. apply take_ge. lia.
Qed.

(** Parse accepts any bytes: it ends, reads nothing outside of them and returns 0,
    also for a message that is cut off or malformed. *)
Theorem parse_accepts_all start buf n c :
  0 <= n < 2 ^ 31 -> n <= Z.of_nat (length buf) -> exists c', parse start buf n c = Done (0, c').
Proof.
  intros Hn Hbuf. unfold parse, pb_begin. rewrite wrap_s_id by (unfold in_s; lia). set (f0 := Field _ _ _ _ _ _ _ _).
  destruct (pb_rest_total buf (S (length buf)) f0) as (l & f' & E & _); [split; cbn [f0 ptr left]; lia|cbn [f0 left]; lia|].
  unfold pb_next in E. destruct (pb_decode_tag buf f0) as [r| |]; [|done..]. rewrite !outcome_bind_ret in *.
  rewrite (parse_loop_fold _ _ _ _ _ _ E). by eexists.
Qed.

(** Parse does not look at the wire type: a number in the place of the name is
    taken for the length of a string whose pointer is what the local [start] held
    before, which nothing has initialised. *)
Theorem parse_confuses_types start n c :
  in_u 32 n ->
  parse start (varint 10 (8 * 2 + PB_WT_VARINT) ++ varint 10 n) (Z.of_nat (length (varint 10 (8 * 2 + PB_WT_VARINT) ++ varint 10 n))) c =
    Done (0, CmdBase (type c) (RefStr n (Some (hi (val start)))) (cmd_id c) (seq_id c) (body c) (ret c) (errmsg c)).
Proof.
  intros Hn. unfold in_u in Hn. set (buf := _ ++ _).
  assert (Hb : (length buf <= 11)%nat).
  { unfold buf. rewrite length_app. pose proof (varint_le 1 (8 * 2 + PB_WT_VARINT) ltac:(lia) ltac:(unfold PB_WT_VARINT; lia)). pose proof (varint_le 10 n ltac:(lia) ltac:(lia)). lia. }
  unfold parse, pb_begin. rewrite wrap_s_id by (unfold in_s; lia). set (f0 := Field _ _ _ _ _ _ _ _).
  assert (Hr : reads buf f0 (varint 10 (8 * 2 + PB_WT_VARINT) ++ varint 10 n ++ [])).
  { rewrite app_nil_r. split; cbn [f0 ptr left]; [done|done|fold buf; lia|]. fold buf. by apply take_ge. }
  destruct (pb_decode_varint_ok buf f0 (8 * 2 + PB_WT_VARINT) _ ltac:(by unfold in_u) Hr) as (f1 & E1 & Hr1 & [Hv1 _ _ _ _ _ _]).
  set (f2 := set_tag 2 0 f1). assert (Hr2 : reads buf f2 (varint 10 n ++ [])) by by destruct Hr1.
  destruct (pb_decode_varint_ok buf f2 n [] ltac:(unfold in_u; lia) Hr2) as (f3 & E3 & Hr3 & [Hv3 _ Ht3 _ _ _ _]).
  assert (ET : pb_decode_tag buf f0 = Done (0, f3)).
  { unfold pb_decode_tag. rewrite E1, outcome_bind_ret. unfold i64_of, i32_of. rewrite Hv1. exact E3. }
  rewrite ET, !outcome_bind_ret. cbn [fst snd Z.eqb parse_loop]. unfold pb_next.
  destruct (pb_decode_tag_end buf f3 Hr3) as (f4 & E4 & _). rewrite E4, !outcome_bind_ret. cbn [fst snd Z.eqb].
  replace (parse_loop buf (length buf) (None, f4) (parse_field f3 c)) with (Done (0, parse_field f3 c)) by by destruct (length buf).
  unfold parse_field. rewrite Ht3. cbn [f2 set_tag tag]. unfold field_str, str_len, str_data. rewrite Hv3. cbn [lo hi f2 set_tag val]. rewrite Hv1. cbn [hi].
  rewrite wrap_u_id by (unfold in_u; lia). done.
Qed.

Lemma shows_fits mem c h : shows mem c h -> total h None < 2 ^ 31 -> 68 <= get_maybe_size c < 2 ^ 31.
Proof. intros Hs Ht. rewrite (shows_size mem c h None Hs Ht). unfold total in Ht. lia. Qed.

Lemma serialize_cmd_base_refuses mem c h buff n msg :
  shows mem c h -> total h msg < 2 ^ 31 -> (forall m, msg = Some m -> bytes m) ->
  n = Z.of_nat (length buff) -> n < 2 ^ 31 -> total h msg < n - 4 -> serialize_cmd_base mem buff n c msg = Done (-1, n - 4, buff).
Proof.
  intros Hs Ht Hm Hn Hsmall Hroom. pose proof (shows_size mem c h msg Hs Ht) as Hsz.
  unfold serialize_cmd_base, serialize_cmd_base_impl. unfold total in *.
  assert (Hbs : byte_size msg = match msg with Some m => Z.of_nat (length m) | None => 0 end).
  { unfold byte_size. destruct msg as [m|]; [|done]. apply wrap_u_id. unfold in_u. destruct (Hm m eq_refl). lia. }
  assert (0 <= match msg with Some m => Z.of_nat (length m) | None => 0 end) by (destruct msg; lia).
  rewrite Hbs, (proj2 (Z.leb_gt n 4)) by lia. rewrite (wrap_u_id 32 (n - 4)), wrap_u_id by (unfold in_u; lia).
  rewrite (proj2 (Z.ltb_lt _ _)) by lia. rewrite outcome_bind_ret. cbn [negb Z.eqb]. by rewrite take_drop.
Qed.

(** The length check of the [char *] form is inverted: a buffer with more room
    than the message can need is refused with -1 and left as it was.  The caller
    for UDP ignores the result, and sends what the buffer held before, whatever
    the request is. *)
Theorem udp_request_not_serialized {W} (send_data : list Z -> W -> outcome (Z * W)) mem c h buff n msg w :
  shows mem c h -> total h msg < 2 ^ 31 -> (forall m, msg = Some m -> bytes m) ->
  n = Z.of_nat (length buff) -> n < 2 ^ 31 -> total h msg < n - 4 ->
  serialize_cmd_base mem buff n c msg = Done (-1, n - 4, buff) /\
  exists l, (length l = Z.to_nat (n - 8) /\ take (length l) (drop 4 buff) = l) /\
    send_udp_request mem send_data buff n c msg w = (r ← send_data l w; Done (r.1, buff, r.2)).
Proof.
  intros Hs Ht Hm Hn Hsmall Hroom. pose proof (serialize_cmd_base_refuses mem c h buff n msg Hs Ht Hm Hn Hsmall Hroom) as HS.
  split; [exact HS|]. set (l := take (Z.to_nat (n - 8)) (drop 4 buff)).
  assert (H68 : 68 <= total h msg) by (unfold total; destruct msg; lia).
  assert (Hl : length l = Z.to_nat (n - 8)) by (unfold l; rewrite length_take, length_drop; lia).
  exists l. split; [by rewrite Hl|]. unfold send_udp_request. rewrite HS, outcome_bind_ret.
  replace (u64 (n - 4 - 4)) with (n - 8) by (rewrite wrap_u_id; [lia|unfold in_u; lia]).
  replace (Z.to_nat (n - 8)) with (length l) by done. rewrite (load_bytes_reads buff 4 l); [|lia|by rewrite Hl].
  by rewrite outcome_bind_ret.
Qed.

(** A message that fits goes out as one packet. *)
Lemma send_cmd_base_ok {W} (send_data : list Z -> W -> outcome (Z * W)) mem c h buff max_size msg w :
  shows mem c h -> header_ok h -> (forall m, msg = Some m -> bytes m) -> max_size = Z.of_nat (length buff) -> max_size < 2 ^ 31 ->
  Z.of_nat (length (message h msg)) < max_size - 4 ->
  let r := send_data (be32 (Z.of_nat (length (message h msg))) ++ message h msg) w in
  exists o, length o = length buff /\ send_cmd_base mem send_data buff max_size c msg w = (r ← r; Done (r.1, o, r.2)).
Proof.
  intros Hs Hok Hm Hms Hmax Hfit r. unfold send_cmd_base.
  assert (Hd : length (drop 4 buff) = Z.to_nat (max_size - 4)) by (rewrite length_drop; lia).
  destruct (pb_init_buff_wrote (drop 4 buff) (max_size - 4)) as [Hw Hb]; [lia|lia|]. pose proof (wr_left _ _ Hw) as Hl. rewrite Hb in Hl. cbn [length] in Hl.
  assert (Hbs : byte_size msg = match msg with Some m => Z.of_nat (length m) | None => 0 end).
  { unfold byte_size. destruct msg as [m|]; [|done]. apply wrap_u_id. unfold in_u. destruct (Hm m eq_refl). lia. }
  destruct (message_written mem c h _ msg Hs Hok (fun m E => proj1 (Hm m E)) Hw) as (b1 & b2 & E1 & E2 & Hw2 & Hb2 & Hlen & _); [lia|].
  rewrite E1, outcome_bind_ret. cbn [snd]. rewrite Hbs, E2, outcome_bind_ret. cbn [fst snd]. rewrite Hb in Hb2.
  rewrite (pb_encoded_length b2 _ Hw2) by (rewrite Hb2; unfold in_u; lia). set (n := length (message h msg)) in *.
  rewrite (wrap_u_id 32 (Z.of_nat n)), (wrap_u_id 32 (_ + 4)) by (unfold in_u; lia). cbn [pb_init_buff out] in Hlen.
  rewrite (store_front (be32 _) (take 4 buff ++ out b2) 4); [|apply be32_length|rewrite length_app, length_take; lia].
  rewrite outcome_bind_ret, drop_app_length' by (rewrite length_take; lia).
  replace (Z.to_nat (Z.of_nat n + 4)) with (length (be32 (Z.of_nat n) ++ message h msg)) by (rewrite length_app, be32_length; fold n; lia).
  rewrite load_bytes_reads; [|done|].
  2:{ cbn [Z.to_nat]. rewrite drop_0, length_app. fold n.
      rewrite take_app_add. unfold n. by rewrite (wr_out _ _ Hw2). }
  rewrite outcome_bind_ret. exists (be32 (Z.of_nat n) ++ out b2). split; [rewrite length_app, be32_length; lia|].
  by fold r.
Qed.

(** A message that is longer than the room left in the stream's buffer is not
    refused: [left - msg_len] is unsigned, and the message is written past the end
    of the buffer. *)
Theorem send_cmd_base_overflows {W} (send_data : list Z -> W -> outcome (Z * W)) mem c h buff max_size m w :
  shows mem c h -> header_ok h -> max_size = Z.of_nat (length buff) -> 55 + Z.of_nat (length (h_name h) + length (h_err h)) <= max_size < 2 ^ 31 ->
  Z.of_nat (length m) < 2 ^ 31 -> max_size - 4 < Z.of_nat (length m) ->
  send_cmd_base mem send_data buff max_size c (Some m) w = Fault.
Proof.
  intros Hs Hok Hms Hmax Hm Hlong. unfold send_cmd_base. assert (Hd : length (drop 4 buff) = Z.to_nat (max_size - 4)) by (rewrite length_drop; lia).
  destruct (pb_init_buff_wrote (drop 4 buff) (max_size - 4)) as [Hw Hb]; [lia|lia|]. pose proof (common_size h Hok) as Hcs.
  pose proof (wr_left _ _ Hw) as Hl. rewrite Hb in Hl. cbn [length] in Hl.
  destruct (serialize_common_ok mem c h _ [] Hs Hok Hw) as (b1 & E1 & Hw1 & Hk1); [lia|]. rewrite E1, outcome_bind_ret. cbn [snd].
  pose proof (wr_left _ _ Hw1) as Hl1. rewrite (proj1 Hk1), Hb in Hl1. cbn [app] in *. unfold byte_size. rewrite (wrap_u_id 32) by (unfold in_u; lia).
  pose proof (string_head_appends b1 _ (Z.of_nat (length m)) Hw1 ltac:(unfold in_u; lia)) as HH.
  pose proof (varint_le 1 (8 * 5 + PB_WT_STRING) ltac:(lia) ltac:(unfold PB_WT_STRING; lia)). pose proof (varint_le 5 (Z.of_nat (length m)) ltac:(lia) ltac:(lia)).
  destruct HH as [(_ & b2 & E2 & Hw2 & Hk2)|(Hno & _)]; [|rewrite length_app in Hno; lia].
  unfold add_message. rewrite E2, outcome_bind_ret. cbn [fst snd negb Z.eqb]. pose proof (wr_range _ _ Hw2) as Hr2. pose proof (wr_left _ _ Hw2) as Hl2.
  rewrite (proj1 Hk2), (proj1 Hk1), Hb, length_app in Hl2. rewrite (wrap_u_id 32 (bleft b2)) by (unfold in_u; lia).
  assert (Hneg : u32 (bleft b2 - Z.of_nat (length m)) = bleft b2 - Z.of_nat (length m) + 2 ^ 32).
  { unfold wrap_u. rewrite <-(Z.mod_add _ 1) by lia. apply Z.mod_small. lia. }
  rewrite Hneg, (proj2 (Z.leb_gt _ _)) by lia. unfold write_message, store_bytes. rewrite (wr_ptr _ _ Hw2).
  pose proof (proj1 (proj2 Hk2)) as Hlen2. pose proof (proj1 (proj2 Hk1)) as Hlen1. cbn [pb_init_buff out] in Hlen1.
  rewrite (proj2 (Z.leb_gt (_ + _) _)) by (rewrite Hlen2, Hlen1, Hd; lia). rewrite andb_false_r. done.
Qed.

(** ** Concrete headers *)

(** A request for "abc" with number 1 and sequence number 2; the name lies at the
    start of the memory. *)
Definition abc : list Z := [97; 98; 99].
Definition request : cmd_base_t := CmdBase 1 (RefStr 3 (Some 0)) 1 2 (RefStr 0 None) 0 (RefStr 0 None).
Definition request_header : header := Header 1 abc 1 2 [] 0 [].

Lemma request_shows : shows abc request request_header.
Proof. split; try done. split; [done|]. intros _. by exists 0. Qed.

Lemma request_ok : header_ok request_header.
Proof. split; [by split_and!|]. split_and!; by repeat constructor. Qed.

Definition no_field : pb_field_t := Field 0 0 0 (Val 0 4096) 0 0 0 None.

Lemma cmd_base_roundtrip_witness :
  serialize_cmd_base_vec abc request (Some [1; 2]) = Done (0, [0; 0; 0; 15; 8; 1; 18; 3; 97; 98; 99; 24; 1; 32; 2; 42; 2; 1; 2]) /\
  exists c', parse no_field [8; 1; 18; 3; 97; 98; 99; 24; 1; 32; 2; 42; 2; 1; 2] 15 init = Done (0, c') /\ seq_id c' = 2.
Proof.
  destruct (cmd_base_roundtrip abc request request_header (Some [1; 2]) no_field) as (l & E & c' & E' & Hs).
  - apply request_shows.
  - apply request_ok.
  - intros m [= <-]. by repeat constructor.
  - done.
  - assert (El : l = [8; 1; 18; 3; 97; 98; 99; 24; 1; 32; 2; 42; 2; 1; 2]).
    { vm_compute in E. by injection E. }
    subst l. split; [exact E|]. exists c'. split; [exact E'|]. apply (sh_seq _ _ _ Hs).
Defined.

Lemma parse_accepts_all_witness : exists c', parse no_field [8; 0xff] 2 init = Done (0, c').
Proof. apply (parse_accepts_all no_field [8; 0xff] 2 init); done. Defined.

Lemma parse_confuses_types_witness :
  parse no_field [16; 100] 2 init = Done (0, CmdBase 0 (RefStr 100 (Some 4096)) 0 0 (RefStr 0 None) 0 (RefStr 0 None)).
Proof. apply (parse_confuses_types no_field 100 init). done. Defined.

(** A connection that takes everything, and says how much. *)
Definition count_bytes (l : list Z) (w : list Z) : outcome (Z * list Z) := Done (Z.of_nat (length l), w ++ l).

Lemma udp_request_not_serialized_witness :
  exists l, (length l = 92%nat /\ Forall (fun x => x = 7) l) /\
    send_udp_request abc count_bytes (replicate 100 7) 100 request (Some [1; 2]) [] = Done (92, replicate 100 7, l).
Proof.
  destruct (udp_request_not_serialized count_bytes abc request request_header (replicate 100 7) 100 (Some [1; 2]) []) as (_ & l & [Hl Ht] & E).
  - apply request_shows.
  - done.
  - intros m [= <-]. by repeat constructor.
  - done.
  - done.
  - done.
  - exists l. split; [split; [exact Hl|]|].
    + rewrite <-Ht. apply Forall_take, Forall_drop, Forall_replicate. done.
    + rewrite E. unfold count_bytes. rewrite outcome_bind_ret. cbn [fst snd app]. by rewrite Hl.
Defined.

Lemma send_cmd_base_overflows_witness :
  send_cmd_base abc count_bytes (replicate 100 0) 100 request (Some (replicate 97 0)) [] = Fault.
Proof.
  apply (send_cmd_base_overflows count_bytes abc request request_header).
  - apply request_shows.
  - apply request_ok.
  - done.
  - done.
  - done.
  - done.
Defined.
