(* ===== verification/PacketStream.v ===== *)
(** * base/net_tool.h, base/src/net_tool.cpp: packets on a stream of bytes

    A packet is its length in network order, four bytes, and its bytes.  A
    [PacketStream] reads from a socket into one buffer and hands out pointers into
    it; the bytes [prev_pos .. total_len) were read and not handed out yet.  The
    socket, the clock and the events are parameters; read and write loops retry in
    the way the code does.  Pointers are offsets into the buffer. *)
From S2P Require Import Prelude Words Memory Pbc.

Section packets.
Context {K : Type}.

(** recv and send with their flags, poll of one descriptor (the result and revents),
    errno, and get_tick_ms. *)
Context (recv : Z -> Z -> K -> Z * list Z * K) (send : Z -> list Z -> K -> Z * K) (poll : Z -> Z -> K -> Z * Z * K) (errno : K -> Z)
  (get_tick_ms : K -> Z * K).
Implicit Types (k : K) (p rest : list Z).

Definition EAGAIN : Z := 11.
Definition POLLIN : Z := 1.
Definition POLLOUT : Z := 4.
Definition POLLERR : Z := 8.
Definition POLLHUP : Z := 16.
Definition MSG_DONTWAIT : Z := 64.
Definition ERR_TIMEOUT_NET_HELPER : Z := -2.
Definition HTTP_PROTOCOL_DATA : Z := -10000.

(** ** Whole reads and writes *)

(** poll, and the tests on its result; [None] when the descriptor is ready. *)
Definition wait_ready (want timeout : Z) k : option Z * K :=
  let '(ret, revents, k) := poll (Z.lor want (Z.lor POLLERR POLLHUP)) timeout k in
  if ret =? 0 then (Some (-2), k)
  else if ret <? 0 then (Some (-1), k)
  else if negb (Z.land revents POLLERR =? 0) then (Some (-1), k)
  else if Z.land revents want =? 0 then (Some (-1), k)
  else (None, k).

Definition write_timeout (l : list Z) (timeout : Z) k : Z * K :=
  let '(ret, k) := send MSG_DONTWAIT l k in
  if 0 <=? ret then (ret, k)
  else if negb (errno k =? EAGAIN) then (ret, k)
  else match wait_ready POLLOUT timeout k with (Some e, k) => (e, k) | (None, k) => send MSG_DONTWAIT l k end.

Definition read_timeout (n timeout has_data : Z) k : Z * list Z * K :=
  let poll_recv k := match wait_ready POLLIN timeout k with (Some e, k) => (e, [], k) | (None, k) => recv MSG_DONTWAIT n k end in
  if negb (has_data =? 0) then
    let '(ret, l, k) := recv MSG_DONTWAIT n k in
    if 0 <=? ret then (ret, l, k) else if negb (errno k =? EAGAIN) then (ret, l, k) else poll_recv k
  else poll_recv k.

(** send_data without and with a timeout; [cur] bytes of [l] are sent. *)
Fixpoint send_data_loop (fuel : nat) (l : list Z) (cur : Z) k : outcome (Z * K) :=
  if Z.of_nat (length l) <=? cur then Done (Z.of_nat (length l), k)
  else
    match fuel with
    | O => NoFuel
    | S fuel =>
        let '(ret, k) := send 0 (drop (Z.to_nat cur) l) k in
        if ret <? 0 then Done (ret, k)
        else if ret =? 0 then Done (Z.of_nat (length l), k)
        else send_data_loop fuel l (cur + ret) k
    end.
Definition send_data (l : list Z) k : outcome (Z * K) := send_data_loop (length l) l 0 k.

Fixpoint send_data_timeout_loop (fuel : nat) (l : list Z) (cur start_ms rest_ms timeout : Z) k : outcome (Z * K) :=
  if Z.of_nat (length l) <=? cur then Done (Z.of_nat (length l), k)
  else
    match fuel with
    | O => NoFuel
    | S fuel =>
        let '(ret, k) := write_timeout (drop (Z.to_nat cur) l) rest_ms k in
        if ret <? 0 then Done (ret, k)
        else if ret =? 0 then Done (Z.of_nat (length l), k)
        else
          let '(now, k) := get_tick_ms k in
          let rest_ms := i32 (timeout - i32 (u64 (now - start_ms))) in
          if rest_ms <=? 0 then Done (ERR_TIMEOUT_NET_HELPER, k)
          else send_data_timeout_loop fuel l (cur + ret) start_ms rest_ms timeout k
    end.
Definition send_data_timeout (l : list Z) (timeout : Z) k : outcome (Z * K) :=
  let '(start_ms, k) := get_tick_ms k in send_data_timeout_loop (length l) l 0 start_ms timeout timeout k.

(** read_data without a timeout: the result and the bytes. *)
Fixpoint read_data_loop (fuel : nat) (n : Z) (got : list Z) k : outcome (Z * list Z * K) :=
  if n <=? Z.of_nat (length got) then Done (Z.of_nat (length got), got, k)
  else
    match fuel with
    | O => NoFuel
    | S fuel =>
        let '(ret, l, k) := recv 0 (n - Z.of_nat (length got)) k in
        if ret <=? 0 then Done (ret, got, k) else read_data_loop fuel n (got ++ l) k
    end.
Definition read_data (n : Z) k : outcome (Z * list Z * K) := read_data_loop (Z.to_nat n) n [] k.

Fixpoint read_data_timeout_loop (fuel : nat) (n : Z) (got : list Z) (start_ms rest_ms timeout : Z) k : outcome (Z * list Z * K) :=
  if n <=? Z.of_nat (length got) then Done (Z.of_nat (length got), got, k)
  else
    match fuel with
    | O => NoFuel
    | S fuel =>
        let '(ret, l, k) := read_timeout (n - Z.of_nat (length got)) rest_ms 0 k in
        if ret <=? 0 then Done (ret, got, k)
        else
          let '(now, k) := get_tick_ms k in
          let rest_ms := i32 (timeout - i32 (u64 (now - start_ms))) in
          if rest_ms <=? 0 then Done (ERR_TIMEOUT_NET_HELPER, got ++ l, k)
          else read_data_timeout_loop fuel n (got ++ l) start_ms rest_ms timeout k
    end.
Definition read_data_timeout (n timeout : Z) k : outcome (Z * list Z * K) :=
  let '(start_ms, k) := get_tick_ms k in read_data_timeout_loop (Z.to_nat n) n [] start_ms timeout timeout k.

(** ** PacketStream *)

Record packet_stream := PacketStream {
  max_size : Z; buff : list Z; prev_pos : Z; total_len : Z; is_http : bool }.
Implicit Types s : packet_stream.

(** The constructor; [mem] is what memalign returned. *)
Definition new_stream (size : Z) (mem : list Z) : packet_stream := PacketStream size mem 0 0 false.

(** PacketStream::init, which stores the descriptor too. *)
Definition init s : packet_stream := PacketStream (max_size s) (buff s) 0 0 (is_http s).

Definition set_buff (l : list Z) s : packet_stream := PacketStream (max_size s) l (prev_pos s) (total_len s) (is_http s).
Definition set_prev (n : Z) s : packet_stream := PacketStream (max_size s) (buff s) n (total_len s) (is_http s).
Definition set_packet (prev total : Z) s : packet_stream := PacketStream (max_size s) (buff s) prev total (is_http s).

Definition isalpha (c : Z) : bool := ((65 <=? c) && (c <=? 90)) || ((97 <=? c) && (c <=? 122)).

(** next_packet: the result, and *pack and *pack_len when it is 0. *)
Definition next_packet s : outcome (Z * option (Z * Z) * packet_stream) :=
  if total_len s <? 4 + prev_pos s then Done (-1, None, s)
  else
    let cur_len := u32 (total_len s - prev_pos s) in
    l ← load_bytes (buff s) (prev_pos s) 4;
    let len := ntohl l in
    if cur_len <? u32 (len + 4) then Done (-2, None, s)
    else Done (0, Some (prev_pos s + 4, i32 len), set_prev (i32 (prev_pos s + u32 (len + 4))) s).

(** The start of read_packet: cur_len, with the bytes that are left moved to the front. *)
Definition move_front s : outcome (Z * packet_stream) :=
  if 0 <? prev_pos s then
    let cur_len := i32 (total_len s - prev_pos s) in
    if cur_len <? 0 then Fault
    else
      l ← load_bytes (buff s) (prev_pos s) (Z.to_nat cur_len);
      o ← store_bytes (buff s) 0 l; Done (cur_len, set_buff o s)
  else Done (0, s).

(** One of the reading loops: until [cur_len] is [goal]; the reader [get] is recv, or
    read_timeout with its clock.  [inl] is a return from the function. *)
Fixpoint fill {A} (get : Z -> A -> K -> (Z * list Z * K) * (A + Z)) (fuel : nat) (goal cur_len : Z) (a : A) s k
    : outcome ((Z + Z * A) * packet_stream * K) :=
  if goal <=? cur_len then Done (inr (cur_len, a), s, k)
  else
    match fuel with
    | O => NoFuel
    | S fuel =>
        let '((ret, l, k), a) := get (max_size s - cur_len) a k in
        if ret <=? 0 then Done (inl ret, s, k)
        else
          o ← store_bytes (buff s) cur_len l;
          match a with
          | inr e => Done (inl e, set_buff o s, k)
          | inl a => fill get fuel goal (cur_len + ret) a (set_buff o s) k
          end
    end.

(** read_packet, which has the two loops around the checks of the length; [again] is
    what the second loop changes in the clock. *)
Definition read_packet_with {A} (get : Z -> A -> K -> (Z * list Z * K) * (A + Z)) (again : A -> A) (a : A) s k
    : outcome (Z * option (Z * Z) * packet_stream * K) :=
  r ← move_front s;
  r ← fill get 4 4 r.1 a r.2 k;
  match r with
  | (inl e, s, k) => Done (e, None, s, k)
  | (inr (cur_len, a), s, k) =>
      c ← load (buff s) 0;
      if is_http s && isalpha c then Done (HTTP_PROTOCOL_DATA, None, set_prev cur_len s, k)
      else
        l ← load_bytes (buff s) 0 4;
        let len := ntohl l in
        if i32 len <=? 0 then Done (-1, None, s, k)
        else if 2 ^ 31 <=? len + 4 then Fault
        else if max_size s <? len + 4 then Done (-4, None, s, k)
        else
          r ← fill get (Z.to_nat len) (len + 4) cur_len (again a) s k;
          match r with
          | (inl e, s, k) => Done (e, None, s, k)
          | (inr (cur_len, _), s, k) => Done (1, Some (4, len), set_packet (len + 4) cur_len s, k)
          end
  end.

(** read_packet(pack, pack_len) *)
Definition get_recv (n : Z) (a : unit) k : (Z * list Z * K) * (unit + Z) := (recv 0 n k, inl a).
Definition read_packet s k : outcome (Z * option (Z * Z) * packet_stream * K) := read_packet_with get_recv id () s k.

(** read_packet(pack, pack_len, timeout, has_data): the clock is rest_ms and the
    has_data of the next read_timeout. *)
Definition get_timeout (start_ms timeout n : Z) (a : Z * Z) k : (Z * list Z * K) * ((Z * Z) + Z) :=
  let '(ret, l, k) := read_timeout n a.1 a.2 k in
  if ret <=? 0 then ((ret, l, k), inl a)
  else
    let '(now, k) := get_tick_ms k in
    let rest_ms := i32 (timeout - i32 (u64 (now - start_ms))) in
    ((ret, l, k), if rest_ms <=? 0 then inr ERR_TIMEOUT_NET_HELPER else inl (rest_ms, 0)).
Definition read_packet_timeout (timeout has_data : Z) s k : outcome (Z * option (Z * Z) * packet_stream * K) :=
  let '(start_ms, k) := get_tick_ms k in
  read_packet_with (get_timeout start_ms timeout) (fun a => (a.1, 0)) (timeout, has_data) s k.

(** ** Streams of packets *)

(** What the socket will deliver, in pieces of any size. *)
Context (incoming : K -> list Z).

Definition packet p : list Z := be32 (Z.of_nat (length p)) ++ p.

Definition fits s p : Prop := 0 < Z.of_nat (length p) /\ Z.of_nat (length p) + 4 <= max_size s.

Definition unread s : list Z := take (Z.to_nat (total_len s - prev_pos s)) (drop (Z.to_nat (prev_pos s)) (buff s)).

Record sok s : Prop := {
  so_prev : 0 <= prev_pos s <= total_len s;
  so_total : total_len s <= max_size s;
  so_size : max_size s = Z.of_nat (length (buff s)) /\ max_size s < 2 ^ 31;
  so_start : prev_pos s = 0 -> total_len s = 0;
  so_http : is_http s = true -> max_size s < 2 ^ 24 }.

(** The contract of a reader: it takes a piece off the front, or fails. *)
Definition reader_ok {A} (get : Z -> A -> K -> (Z * list Z * K) * (A + Z)) : Prop := forall n a k, 0 < n ->
  let '((r, l, k'), a') := get n a k in
  (r <= 0 /\ incoming k' = incoming k \/ 0 < r <= n /\ Z.of_nat (length l) = r /\ incoming k = l ++ incoming k') /\
  forall e, a' = inr e -> e <= 0.

(** A reader that waits: it fails at the end of the stream only. *)
Definition reader_waits {A} (get : Z -> A -> K -> (Z * list Z * K) * (A + Z)) : Prop := forall n a k, 0 < n ->
  incoming k <> [] -> exists r l k' a', get n a k = ((r, l, k'), inl a') /\ 0 < r.

Lemma unread_length s : sok s -> Z.of_nat (length (unread s)) = total_len s - prev_pos s.
Proof. intros [Hp Ht [Hs _] _ _]. unfold unread. rewrite length_take, length_drop. lia. Qed.

Lemma unread_take s : sok s -> take (length (unread s)) (drop (Z.to_nat (prev_pos s)) (buff s)) = unread s.
Proof. intros Hs. pose proof (unread_length s Hs) as Hu. unfold unread at 2. f_equal. destruct Hs as [Hp _ _ _ _]. lia. Qed.

Lemma move_front_ok s :
  sok s -> exists s', move_front s = Done (Z.of_nat (length (unread s)), s') /\ s' = set_buff (buff s') s /\
    length (buff s') = length (buff s) /\ take (length (unread s)) (buff s') = unread s.
Proof.
  intros Hs. pose proof (unread_length s Hs) as Hu. pose proof Hs as [Hp Ht [Hsz Hsm] H0 _]. unfold move_front. destruct (Z.ltb_spec 0 (prev_pos s)) as [Hpos|Hz].
  - rewrite wrap_s_id, <-Hu by (unfold in_s; lia). rewrite (proj2 (Z.ltb_ge _ 0)) by lia. rewrite Nat2Z.id, (load_bytes_reads (buff s) _ (unread s)).
    2:{ lia. } 2:{ by apply unread_take. }
    rewrite outcome_bind_ret, (store_front _ (buff s) (length (unread s))), outcome_bind_ret by (done || lia).
    eexists. split; [done|]. cbn [buff set_buff]. split; [done|]. split; [rewrite length_app, length_drop; lia|]. apply take_app_length.
  - assert (Hnil : unread s = []) by (apply length_zero_iff_nil; lia). rewrite Hnil. exists s. split; [done|]. split; [by destruct s|done].
Qed.

(** The front of the buffer after a store behind it. *)
Lemma store_behind (b l got : list Z) :
  take (length got) b = got -> (length got + length l <= length b)%nat ->
  exists o, store_bytes b (Z.of_nat (length got)) l = Done o /\ length o = length b /\ take (length (got ++ l)) o = got ++ l.
Proof.
  intros Hg Hl. unfold store_bytes. rewrite (proj2 (Z.leb_le 0 _)), (proj2 (Z.leb_le _ _)) by lia. cbn [andb]. rewrite Nat2Z.id. eexists. split; [done|].
  split; [rewrite !length_app, length_take, length_drop; lia|]. rewrite Hg, app_assoc. apply take_app_length.
Qed.

Lemma fill_ok {A} (get : Z -> A -> K -> (Z * list Z * K) * (A + Z)) fuel goal a s k got :
  reader_ok get -> max_size s = Z.of_nat (length (buff s)) -> goal <= max_size s -> take (length got) (buff s) = got ->
  Z.of_nat (length got) <= max_size s -> goal - Z.of_nat (length got) <= Z.of_nat fuel ->
  exists r b k', fill get fuel goal (Z.of_nat (length got)) a s k = Done (r, set_buff b s, k') /\ length b = length (buff s) /\
    match r with
    | inl e => e <= 0 /\ (reader_waits get -> Z.of_nat (length got) + Z.of_nat (length (incoming k)) < goal)
    | inr (cur, _) => exists new, cur = Z.of_nat (length (got ++ new)) /\ goal <= cur <= max_size s /\
        incoming k = new ++ incoming k' /\ take (length (got ++ new)) b = got ++ new
    end.
Proof.
  intros Hget Hsz Hgoal. revert a s k got Hsz Hgoal. induction fuel as [|fuel IH]; intros a s k got Hsz Hgoal Hgot Hlen Hfuel; cbn [fill];
    (destruct (Z.leb_spec goal (Z.of_nat (length got))) as [Hdone|Hmore];
      [exists (inr (Z.of_nat (length got), a)), (buff s), k; split; [by destruct s|]; split; [done|]; exists []; rewrite app_nil_r; split_and!; (done || lia)|]); [lia|].
  pose proof (Hget (max_size s - Z.of_nat (length got)) a k ltac:(lia)) as Hlaw. destruct (get _ a k) as [[[r l] k1] a1] eqn:Eget.
  destruct Hlaw as [Hlaw Herr]. destruct (Z.leb_spec r 0) as [Hr|Hr].
  - exists (inl r), (buff s), k1. split; [by destruct s|]. split; [done|]. split; [done|]. intros Hwait.
    destruct (decide (incoming k = [])) as [->|Hne]; [cbn; lia|]. destruct (Hwait (max_size s - Z.of_nat (length got)) a k ltac:(lia) Hne) as (r' & l' & k' & a' & E' & Hr').
    rewrite Eget in E'. injection E' as -> _ _ _. lia.
  - destruct Hlaw as [[? _]|(Hr' & Hll & Hin)]; [lia|]. destruct (store_behind (buff s) l got Hgot) as (o & Eo & Hlo & Hto); [lia|].
    rewrite Eo, outcome_bind_ret. destruct a1 as [a1|e].
    + replace (Z.of_nat (length got) + r) with (Z.of_nat (length (got ++ l))) by (rewrite length_app; lia).
      destruct (IH a1 (set_buff o s) k1 (got ++ l)) as (r2 & b2 & k2 & E2 & Hl2 & H2); cbn [set_buff max_size buff]; try (rewrite length_app; lia); [by rewrite Hlo|done|done|].
      exists r2, b2, k2. split; [exact E2|]. split; [cbn in Hl2; by rewrite Hl2|]. destruct r2 as [e|[cur a2]].
      * destruct H2 as [He H2]. split; [done|]. intros Hwait. specialize (H2 Hwait). rewrite Hin. rewrite length_app in *. lia.
      * destruct H2 as (new & -> & Hb & Hin2 & Ht2). exists (l ++ new). rewrite app_assoc. split_and!; try done; [by destruct Hb|by destruct Hb|].
        by rewrite Hin, Hin2, app_assoc.
    + exists (inl e), o, k1. split; [done|]. split; [done|]. split; [by apply Herr|]. intros Hwait.
      destruct (decide (incoming k = [])) as [E0|Hne]; [|destruct (Hwait (max_size s - Z.of_nat (length got)) a k ltac:(lia) Hne) as (? & ? & ? & ? & E' & _); rewrite Eget in E'; discriminate].
      rewrite E0 in Hin. symmetry in Hin. apply app_eq_nil in Hin as [-> _]. cbn in Hll. lia.
Qed.

Lemma app_front {A} (l1 l2 m1 m2 : list A) : l1 ++ l2 = m1 ++ m2 -> (length m1 <= length l1)%nat -> take (length m1) l1 = m1 /\ drop (length m1) l1 ++ l2 = m2.
Proof.
  intros E Hl. split.
  - rewrite <-(take_app_le l1 l2) by done. rewrite E. apply take_app_length.
  - rewrite <-drop_app_le by done. rewrite E. apply drop_app_length.
Qed.

Lemma packet_length p : length (packet p) = (4 + length p)%nat.
Proof. unfold packet. by rewrite length_app, be32_length. Qed.

(** The state after a packet: [got] was read, [len + 4] bytes of it are handed out. *)
Lemma after_packet s b got (n : nat) :
  sok s -> length b = length (buff s) -> take (length got) b = got -> (0 < n <= length got)%nat -> Z.of_nat (length got) <= max_size s ->
  let s' := set_packet (Z.of_nat n) (Z.of_nat (length got)) (set_buff b s) in sok s' /\ unread s' = drop n got.
Proof.
  intros [Hp Ht [Hsz Hsm] H0 Hh] Hb Hg Hn Hl s'. split; [split; cbn; lia || done|].
  unfold unread. cbn [s' set_packet set_buff total_len prev_pos buff]. rewrite Nat2Z.id.
  replace (Z.to_nat (Z.of_nat (length got) - Z.of_nat n)) with (length got - n)%nat by lia. by rewrite <-skipn_firstn_comm, Hg.
Qed.

Lemma load_first buf (p : Z) n l c : load_bytes buf p (S n) = Done l -> load buf p = Done c -> c = default 0 (head l).
Proof. cbn [load_bytes]. intros E Ec. rewrite Ec, outcome_bind_ret in E. destruct (load_bytes buf (p + 1) n); [by injection E as <-|done..]. Qed.

(** The first byte of a small length is no letter. *)
Lemma not_alpha x c : 0 <= x < 2 ^ 24 -> c = default 0 (head (be32 x)) -> isalpha c = false.
Proof.
  intros Hx ->. replace (default 0 (head (be32 x))) with (Z.land (Z.shiftr (Z.shiftr (Z.shiftr x 8) 8) 8) 0xff) by done.
  rewrite !Z.shiftr_shiftr, Z.shiftr_div_pow2, Z.div_small by (lia || exact Hx). done.
Qed.

(** The first loop and the checks of the length of a packet that fits. *)
Lemma read_head {A} (get : Z -> A -> K -> (Z * list Z * K) * (A + Z)) again a s k p more rest :
  reader_ok get -> sok s -> fits s p -> unread s ++ incoming k ++ more = packet p ++ rest ->
  (exists e s' k', read_packet_with get again a s k = Done (e, None, s', k') /\ e <= 0 /\ (reader_waits get -> (length (unread s) + length (incoming k) < 4)%nat)) \/
  exists b k1 a1 got, read_packet_with get again a s k =
      (r ← fill get (length p) (Z.of_nat (length p) + 4) (Z.of_nat (length got)) (again a1) (set_buff b s) k1;
       match r with
       | (inl e, s, k) => Done (e, None, s, k)
       | (inr (cur_len, _), s, k) => Done (1, Some (4, Z.of_nat (length p)), set_packet (Z.of_nat (length p) + 4) cur_len s, k)
       end) /\
    (length b = length (buff s) /\ take (length got) b = got /\ 4 <= Z.of_nat (length got) <= max_size s) /\
    got ++ incoming k1 = unread s ++ incoming k.
Proof.
  intros Hget Hs [Hp0 Hp4] Hin. pose proof (unread_length s Hs) as Hu. pose proof Hs as [Hp Ht [Hsz Hsm] H0 Hhttp].
  unfold read_packet_with. destruct (move_front_ok s Hs) as (s0 & E0 & Es0 & Hb0 & Ht0). rewrite E0, outcome_bind_ret. cbn [fst snd].
  assert (Hsz0 : max_size s0 = Z.of_nat (length (buff s0)) /\ max_size s0 = max_size s) by (rewrite Hb0, Es0; done).
  destruct (fill_ok get 4 4 a s0 k (unread s) Hget) as (r1 & b1 & k1 & E1 & Hb1 & H1); try (done || lia). rewrite E1, outcome_bind_ret.
  destruct r1 as [e|[cur a1]]; [left; eexists e, _, k1; split; [done|]; destruct H1 as [He Hw]; split; [done|]; intros Hwait; specialize (Hw Hwait); lia|].
  destruct H1 as (new1 & Hcur & Hcb & Hin1 & Ht1). set (got := unread s ++ new1) in *. right.
  assert (Hst : got ++ incoming k1 ++ more = be32 (Z.of_nat (length p)) ++ p ++ rest).
  { unfold got, packet in *. by rewrite <-app_assoc, (app_assoc new1), <-Hin1, Hin, <-app_assoc. }
  destruct (app_front got _ _ _ Hst) as [Hlen1 _]; [rewrite be32_length; lia|]. rewrite be32_length in Hlen1.
  assert (Hl4 : load_bytes (buff (set_buff b1 s0)) 0 4 = Done (be32 (Z.of_nat (length p)))).
  { rewrite <-(be32_length (Z.of_nat (length p))) at 1. apply load_bytes_reads; [done|]. cbn [Z.to_nat drop buff set_buff]. rewrite be32_length, <-Hlen1.
    rewrite <-Ht1, take_take. f_equal. lia. }
  destruct (load (buff (set_buff b1 s0)) 0) as [c| |] eqn:Ec; [|cbn [load_bytes] in Hl4; rewrite Ec in Hl4; discriminate Hl4..].
  rewrite outcome_bind_ret. replace (is_http (set_buff b1 s0) && isalpha c) with false.
  2:{ replace (is_http (set_buff b1 s0)) with (is_http s) by by rewrite Es0. destruct (is_http s) eqn:Eh; [|done]. symmetry.
      apply (not_alpha (Z.of_nat (length p)) c). - specialize (Hhttp eq_refl). lia. - exact (load_first _ _ 3 _ _ Hl4 Ec). }
  rewrite Hl4, outcome_bind_ret, ntohl_be32 by (unfold in_u; lia). rewrite wrap_s_id by (unfold in_s; lia).
  rewrite (proj2 (Z.leb_gt _ 0)), (proj2 (Z.leb_gt (2 ^ 31) _)) by lia. replace (max_size (set_buff b1 s0)) with (max_size s) by by rewrite Es0.
  rewrite (proj2 (Z.ltb_ge _ _)) by lia. rewrite Hcur, Nat2Z.id. exists b1, k1, a1, got.
  split; [by replace (set_buff b1 s0) with (set_buff b1 s) by by rewrite Es0|]. split; [split_and!; [by rewrite Hb1|done|lia|lia]|].
  unfold got. by rewrite <-app_assoc, <-Hin1.
Qed.

Lemma read_packet_ok {A} (get : Z -> A -> K -> (Z * list Z * K) * (A + Z)) again a s k p rest :
  reader_ok get -> sok s -> fits s p -> unread s ++ incoming k = packet p ++ rest ->
  exists r pk s' k', read_packet_with get again a s k = Done (r, pk, s', k') /\
    ((r = 1 /\ pk = Some (4, Z.of_nat (length p)) /\ load_bytes (buff s') 4 (length p) = Done p /\
      (sok s' /\ max_size s' = max_size s) /\ unread s' ++ incoming k' = rest) \/
     (r <= 0 /\ pk = None /\ ~ reader_waits get)).
Proof.
  intros Hget Hs [Hp0 Hp4] Hin. pose proof Hs as [Hp Ht [Hsz Hsm] H0 Hhttp].
  pose proof (f_equal length Hin) as HL. rewrite !length_app, packet_length in HL.
  destruct (read_head get again a s k p [] rest Hget Hs) as [(e & s' & k' & E & He & Hw)|(b1 & k1 & a1 & got1 & E & (Hb1 & Ht1 & Hg1) & Hst)]; [by split|by rewrite app_nil_r| |].
  { exists e, None, s', k'. split; [exact E|]. right. split_and!; [done..|]. intros Hwait. specialize (Hw Hwait). lia. }
  rewrite E. assert (Hst1 : got1 ++ incoming k1 = packet p ++ rest) by (by rewrite Hst). pose proof (f_equal length Hst1) as HL1. rewrite !length_app, packet_length in HL1.
  destruct (fill_ok get (length p) (Z.of_nat (length p) + 4) (again a1) (set_buff b1 s) k1 got1 Hget) as (r2 & b2 & k2 & E2 & Hb2 & H2);
    cbn [set_buff max_size buff]; [by rewrite Hb1|lia|done|lia|lia|]. rewrite E2, outcome_bind_ret.
  destruct r2 as [e|[cur2 a2]].
  { destruct H2 as [He Hw]. eexists e, None, _, k2. split; [done|]. right. split_and!; [done..|]. intros Hwait. specialize (Hw Hwait). lia. }
  destruct H2 as (new2 & Hcur2 & Hcb2 & Hin2 & Ht2). cbn [set_buff max_size] in Hcb2. set (got2 := got1 ++ new2) in *.
  assert (Hst2 : got2 ++ incoming k2 = packet p ++ rest) by (unfold got2; rewrite <-app_assoc, <-Hin2; exact Hst1).
  destruct (app_front got2 (incoming k2) (packet p) rest Hst2) as [Hfront Hrest]; [rewrite packet_length; lia|].
  change (set_buff b2 (set_buff b1 s)) with (set_buff b2 s).
  destruct (after_packet s b2 got2 (4 + length p) Hs) as [Hs' Hun]; [cbn in Hb2; by rewrite Hb2|done|lia|lia|].
  eexists 1, _, _, k2. split; [done|]. left. split; [done|]. split; [done|]. rewrite Hcur2. cbn [buff set_packet set_buff max_size].
  replace (Z.of_nat (length p) + 4) with (Z.of_nat (4 + length p)) by lia. split; [|split; [by split|by rewrite Hun, <-packet_length]].
  apply load_bytes_reads; [done|]. change (Z.to_nat 4) with 4%nat.
  assert (Hb2p : take (4 + length p) b2 = packet p).
  { rewrite <-Hfront, packet_length, <-Ht2 at 1. rewrite take_take, Nat.min_l; [done|]. rewrite packet_length in *. lia. }
  replace (length p) with (4 + length p - 4)%nat by lia. rewrite <-skipn_firstn_comm, Hb2p. unfold packet. by rewrite drop_app_length' by by rewrite be32_length.
Qed.

(** A packet that is cut off is never handed out. *)
Lemma read_packet_cut {A} (get : Z -> A -> K -> (Z * list Z * K) * (A + Z)) again a s k p more :
  reader_ok get -> sok s -> fits s p -> more <> [] -> unread s ++ incoming k ++ more = packet p ->
  exists e s' k', read_packet_with get again a s k = Done (e, None, s', k') /\ e <= 0.
Proof.
  intros Hget Hs Hfit Hmore Hin. pose proof Hs as [Hp Ht [Hsz Hsm] H0 Hhttp]. pose proof Hfit as [Hp0 Hp4].
  pose proof (f_equal length Hin) as HL. rewrite !length_app, packet_length in HL. assert (0 < length more)%nat by (destruct more; [done|cbn; lia]).
  destruct (read_head get again a s k p more [] Hget Hs Hfit) as [(e & s' & k' & E & He & _)|(b1 & k1 & a1 & got1 & E & (Hb1 & Ht1 & Hg1) & Hst)];
    [by rewrite Hin, app_nil_r|by exists e, s', k'|]. rewrite E.
  destruct (fill_ok get (length p) (Z.of_nat (length p) + 4) (again a1) (set_buff b1 s) k1 got1 Hget) as (r2 & b2 & k2 & E2 & Hb2 & H2);
    cbn [set_buff max_size buff]; [by rewrite Hb1|lia|done|lia|lia|]. rewrite E2, outcome_bind_ret.
  destruct r2 as [e|[cur2 a2]]; [eexists e, _, k2; by destruct H2|]. destruct H2 as (new2 & Hcur2 & Hcb2 & Hin2 & _).
  pose proof (f_equal length Hst) as HL1. rewrite Hin2, !length_app in HL1. rewrite length_app in Hcur2. lia.
Qed.

(** What no read changes: the sizes of the stream, and whatever part of the world
    the reader leaves alone. *)
Definition same_shape s s' : Prop := max_size s' = max_size s /\ length (buff s') = length (buff s) /\ is_http s' = is_http s.

Lemma shape_trans s1 s2 s3 : same_shape s1 s2 -> same_shape s2 s3 -> same_shape s1 s3.
Proof. intros (E1 & E2 & E3) (E4 & E5 & E6). unfold same_shape. by rewrite E4, E5, E6, E1, E2, E3. Qed.

Lemma store_bytes_length (x : list Z) (p : Z) (l o : list Z) : store_bytes x p l = Done o -> length o = length x.
Proof.
  unfold store_bytes. destruct (0 <=? p) eqn:E1, (p + Z.of_nat (length l) <=? Z.of_nat (length x)) eqn:E2; cbn; try done. intros [= <-].
  apply Z.leb_le in E1, E2. rewrite !length_app, length_take, length_drop. lia.
Qed.

Definition gets_keep {A X} (f : K -> X) (get : Z -> A -> K -> (Z * list Z * K) * (A + Z)) : Prop := forall n a k, f (get n a k).1.2 = f k.

Lemma fill_keeps {A X} (f : K -> X) (get : Z -> A -> K -> (Z * list Z * K) * (A + Z)) fuel goal cur_len a s k r s' k' :
  gets_keep f get -> fill get fuel goal cur_len a s k = Done (r, s', k') -> f k' = f k /\ same_shape s s'.
Proof.
  intros Hget. revert cur_len a s k. induction fuel as [|fuel IH]; intros cur_len a s k; cbn [fill]; (destruct (goal <=? cur_len); [by intros [= _ <- <-]|]); [done|].
  pose proof (Hget (max_size s - cur_len) a k) as Hk. destruct (get _ a k) as [[[ret l] k1] a1]. cbn [fst snd] in Hk. destruct (ret <=? 0); [by intros [= _ <- <-]|].
  destruct (store_bytes (buff s) cur_len l) as [o| |] eqn:Eo; [|done..]. rewrite outcome_bind_ret. apply store_bytes_length in Eo. destruct a1 as [a1|e].
  - intros [Hf Hs']%IH. split; [by rewrite Hf|]. by apply (shape_trans _ (set_buff o s)).
  - by intros [= _ <- <-].
Qed.

Lemma read_packet_keeps {A X} (f : K -> X) (get : Z -> A -> K -> (Z * list Z * K) * (A + Z)) again a s k r pk s' k' :
  gets_keep f get -> read_packet_with get again a s k = Done (r, pk, s', k') -> f k' = f k /\ same_shape s s'.
Proof.
  intros Hget. unfold read_packet_with. destruct (move_front s) as [[c0 s0]| |] eqn:E0; [|done..]. rewrite outcome_bind_ret. cbn [fst snd].
  assert (H0 : same_shape s s0).
  { revert E0. unfold move_front. destruct (0 <? prev_pos s); [|by intros [= _ <-]]. destruct (_ <? 0); [done|].
    destruct (load_bytes _ _ _); [|done..]. rewrite outcome_bind_ret. destruct (store_bytes (buff s) 0 _) as [o| |] eqn:Eo; [|done..].
    rewrite outcome_bind_ret. intros [= _ <-]. split; [done|]. split; [by apply store_bytes_length in Eo|done]. }
  destruct (fill get 4 4 c0 a s0 k) as [[[r1 s1] k1]| |] eqn:E1; [|done..]. rewrite outcome_bind_ret.
  destruct (fill_keeps f get _ _ _ _ _ _ _ _ _ Hget E1) as [Hk1 H1]. apply (shape_trans _ _ _ H0) in H1. destruct r1 as [e|[cur a1]]; [by intros [= _ _ <- <-]|].
  destruct (load (buff s1) 0) as [c| |]; [|done..]. rewrite outcome_bind_ret. destruct (_ && _); [by intros [= _ _ <- <-]|].
  destruct (load_bytes (buff s1) 0 4) as [l4| |]; [|done..]. rewrite outcome_bind_ret. destruct (_ <=? 0); [by intros [= _ _ <- <-]|].
  destruct (2 ^ 31 <=? _); [done|]. destruct (max_size s1 <? _); [by intros [= _ _ <- <-]|].
  destruct (fill get _ _ cur (again a1) s1 k1) as [[[r2 s2] k2]| |] eqn:E2; [|done..]. rewrite outcome_bind_ret.
  destruct (fill_keeps f get _ _ _ _ _ _ _ _ _ Hget E2) as [Hk2 H2]. apply (shape_trans _ _ _ H1) in H2.
  destruct r2 as [e|[cur2 a2]]; intros [= _ _ <- <-]; (split; [by rewrite Hk2|done]).
Qed.

(** With nothing left to read, the reader reports it. *)
Lemma read_packet_end {A} (get : Z -> A -> K -> (Z * list Z * K) * (A + Z)) again a s k :
  reader_ok get -> sok s -> 4 <= max_size s -> (length (unread s) + length (incoming k) < 4)%nat ->
  exists e s' k', read_packet_with get again a s k = Done (e, None, s', k') /\ e <= 0.
Proof.
  intros Hget Hs H4 Hshort. pose proof (unread_length s Hs) as Hu. pose proof Hs as [Hp Ht [Hsz Hsm] H0 Hhttp]. unfold read_packet_with.
  destruct (move_front_ok s Hs) as (s0 & E0 & Es0 & Hb0 & Ht0). rewrite E0, outcome_bind_ret. cbn [fst snd].
  assert (Hsz0 : max_size s0 = Z.of_nat (length (buff s0)) /\ max_size s0 = max_size s) by (rewrite Hb0, Es0; done).
  destruct (fill_ok get 4 4 a s0 k (unread s) Hget) as (r1 & b1 & k1 & E1 & Hb1 & H1); try (done || lia). rewrite E1, outcome_bind_ret.
  destruct r1 as [e|[cur a1]]; [exists e, (set_buff b1 s0), k1; by destruct H1|]. destruct H1 as (new1 & Hcur & Hcb & Hin1 & _).
  rewrite Hin1, length_app in Hshort. rewrite length_app in Hcur. lia.
Qed.

(** next_packet hands out a packet that is in the buffer, and nothing else. *)
Lemma next_packet_full s p rest :
  sok s -> unread s = packet p ++ rest ->
  exists s', next_packet s = Done (0, Some (prev_pos s + 4, Z.of_nat (length p)), s') /\
    load_bytes (buff s') (prev_pos s + 4) (length p) = Done p /\ (sok s' /\ max_size s' = max_size s) /\ unread s' = rest.
Proof.
  intros Hs Hun. pose proof (unread_length s Hs) as Hu. pose proof (unread_take s Hs) as Hut. pose proof Hs as [Hp Ht [Hsz Hsm] H0 Hh].
  rewrite Hun, length_app, packet_length in Hu. unfold next_packet. rewrite (proj2 (Z.ltb_ge _ _)) by lia.
  assert (Hl4 : load_bytes (buff s) (prev_pos s) 4 = Done (be32 (Z.of_nat (length p)))).
  { rewrite <-(be32_length (Z.of_nat (length p))) at 1. apply load_bytes_reads; [lia|].
    rewrite Hun in Hut. rewrite be32_length. assert (HT : take 4 (take (length (packet p ++ rest)) (drop (Z.to_nat (prev_pos s)) (buff s))) = be32 (Z.of_nat (length p))).
    { rewrite Hut. unfold packet. rewrite <-app_assoc. rewrite take_app_le by by rewrite be32_length. apply take_ge. by rewrite be32_length. }
    rewrite take_take, Nat.min_l in HT; [done|]. rewrite length_app, packet_length. lia. }
  rewrite Hl4, outcome_bind_ret, ntohl_be32 by (unfold in_u; lia). rewrite (wrap_u_id 32 (total_len s - _)), (wrap_u_id 32 (Z.of_nat (length p) + 4)) by (unfold in_u; lia).
  rewrite (proj2 (Z.ltb_ge _ _)) by lia. rewrite !wrap_s_id by (unfold in_s; lia). eexists. split; [done|]. cbn [set_prev buff].
  assert (Hdrop : drop (4 + length p) (unread s) = rest) by (rewrite Hun; apply drop_app_length'; by rewrite packet_length).
  split; [|split].
  - apply load_bytes_reads; [lia|]. rewrite Z2Nat.inj_add by lia. change (Z.to_nat 4) with 4%nat. rewrite <-drop_drop.
    rewrite Hun in Hut. rewrite <-(drop_app_length' (be32 (Z.of_nat (length p))) p 4) at 2 by by rewrite be32_length.
    fold (packet p). assert (HP : packet p = take (4 + length p) (drop (Z.to_nat (prev_pos s)) (buff s))).
    { rewrite <-(take_app_length (packet p) rest), <-Hut at 1. rewrite take_take, Nat.min_l, packet_length; [done|]. rewrite length_app. lia. }
    rewrite HP, skipn_firstn_comm. f_equal; lia.
  - split; [|done]. split; cbn; try done; lia.
  - unfold unread at 1. cbn [set_prev total_len prev_pos buff]. rewrite <-Hdrop. unfold unread.
    rewrite skipn_firstn_comm, drop_drop. f_equal; [lia|]. f_equal. lia.
Qed.

Lemma next_packet_partial s p more :
  sok s -> (length (unread s) < 4 + length p)%nat -> unread s ++ more = packet p -> Z.of_nat (length p) < 2 ^ 31 ->
  exists e, next_packet s = Done (e, None, s) /\ e < 0.
Proof.
  intros Hs Hshort Hun Hlen. pose proof (unread_length s Hs) as Hu. pose proof (unread_take s Hs) as Hut. pose proof Hs as [Hp Ht [Hsz Hsm] H0 Hh].
  unfold next_packet. destruct (Z.ltb_spec (total_len s) (4 + prev_pos s)) as [Hs4|Hs4]; [by exists (-1)|].
  assert (Hl4 : load_bytes (buff s) (prev_pos s) 4 = Done (be32 (Z.of_nat (length p)))).
  { rewrite <-(be32_length (Z.of_nat (length p))) at 1. apply load_bytes_reads; [lia|]. rewrite be32_length.
    assert (HT : take 4 (take (length (unread s)) (drop (Z.to_nat (prev_pos s)) (buff s))) = be32 (Z.of_nat (length p))).
    { rewrite Hut. unfold packet in Hun. rewrite <-(take_app_le (unread s) more) by lia. rewrite Hun, take_app_le by by rewrite be32_length. apply take_ge. by rewrite be32_length. }
    rewrite take_take, Nat.min_l in HT; [done|lia]. }
  rewrite Hl4, outcome_bind_ret, ntohl_be32 by (unfold in_u; lia). rewrite (wrap_u_id 32 (total_len s - _)), (wrap_u_id 32 (Z.of_nat (length p) + 4)) by (unfold in_u; lia).
  rewrite (proj2 (Z.ltb_lt _ _)) by lia. by exists (-2).
Qed.

(** ** The reader of a connection *)

(** next_packet until it fails: the packets that it hands out. *)
Fixpoint drain (fuel : nat) s : outcome (list (list Z) * packet_stream) :=
  match fuel with
  | O => NoFuel
  | S fuel =>
      r ← next_packet s;
      match r with
      | (ret, Some (pack, pack_len), s) =>
          if negb (ret =? 0) then Done ([], s)
          else p ← load_bytes (buff s) pack (Z.to_nat pack_len); d ← drain fuel s; Done (p :: d.1, d.2)
      | (_, None, s) => Done ([], s)
      end
  end.

(** The loop of read_rsp's caller: read_packet, the packets that came with it, and
    again until read_packet fails. *)
Fixpoint read_all (fuel : nat) s k : outcome (list (list Z)) :=
  match fuel with
  | O => NoFuel
  | S fuel =>
      r ← read_packet s k;
      match r with
      | (ret, Some (pack, pack_len), s, k) =>
          if ret <=? 0 then Done []
          else
            p ← load_bytes (buff s) pack (Z.to_nat pack_len);
            d ← drain (S (length (buff s))) s; l ← read_all fuel d.2 k; Done (p :: d.1 ++ l)
      | (_, None, _, _) => Done []
      end
  end.

Lemma drain_ok fuel s ps more :
  sok s -> Forall (fits s) ps -> unread s ++ more = mjoin (packet <$> ps) -> Z.of_nat (length (unread s)) < Z.of_nat fuel ->
  exists ps1 ps2 s', drain fuel s = Done (ps1, s') /\ ps = ps1 ++ ps2 /\ (sok s' /\ max_size s' = max_size s) /\
    unread s' ++ more = mjoin (packet <$> ps2).
Proof.
  revert s ps. induction fuel as [|fuel IH]; intros s ps Hs Hps Hun Hfuel; [lia|]. cbn [drain]. destruct ps as [|p ps].
  - apply app_eq_nil in Hun as [Hu ->]. exists [], [], s. unfold next_packet. pose proof (unread_length s Hs) as Hul. rewrite Hu in Hul. cbn in Hul.
    rewrite (proj2 (Z.ltb_lt _ _)) by lia. rewrite outcome_bind_ret, Hu. by split_and!.
  - apply Forall_cons in Hps as [[Hp0 Hp4] Hps]. cbn [fmap list_fmap mjoin list_join] in Hun. fold (fmap packet ps) in Hun.
    pose proof (so_size _ Hs) as [_ Hsm].
    destruct (decide (length (unread s) < 4 + length p)%nat) as [Hshort|Hlong].
    + destruct (next_packet_partial s p (drop (length (unread s)) (packet p)) Hs Hshort) as (e & E & He); [|lia|].
      { destruct (app_front (packet p) (mjoin (packet <$> ps)) (unread s) more (eq_sym Hun)) as [Hf _]; [rewrite packet_length; lia|].
        by rewrite <-Hf at 1; rewrite take_drop. }
      rewrite E, outcome_bind_ret. exists [], (p :: ps), s. by split_and!.
    + destruct (app_front (unread s) more (packet p) (mjoin (packet <$> ps)) Hun) as [Hfront Hrest]; [rewrite packet_length; lia|].
      destruct (next_packet_full s p (drop (length (packet p)) (unread s)) Hs) as (s' & E & Hload & [Hs' Hms] & Hun'); [by rewrite <-Hfront at 1; rewrite take_drop|].
      rewrite E, outcome_bind_ret. cbn [negb Z.eqb]. rewrite Nat2Z.id, Hload, outcome_bind_ret.
      destruct (IH s' ps Hs') as (ps1 & ps2 & s2 & E2 & -> & [Hs2 Hms2] & Hun2).
      * apply (Forall_impl _ _ _ Hps). intros q [? ?]. split; [done|]. by rewrite Hms.
      * by rewrite Hun'.
      * rewrite Hun', length_drop, packet_length. lia.
      * rewrite E2, outcome_bind_ret. exists (p :: ps1), ps2, s2. split_and!; try done. by rewrite Hms2.
Qed.

(** C17: the packets of a stream are handed out one by one, complete and in order,
    however the socket cuts the stream into pieces, by read_packet for the first of
    a piece and next_packet for those that came with it. *)
Theorem packets_delivered s k ps :
  reader_ok get_recv -> reader_waits get_recv ->
  sok s -> 4 <= max_size s -> Forall (fits s) ps -> unread s ++ incoming k = mjoin (packet <$> ps) ->
  read_all (S (length ps)) s k = Done ps.
Proof.
  intros Hget Hwait. assert (HG : forall n s k ps, (length ps < n)%nat -> sok s -> 4 <= max_size s -> Forall (fits s) ps ->
    unread s ++ incoming k = mjoin (packet <$> ps) -> read_all n s k = Done ps); [|intros; apply HG; try done; lia].
  clear s k ps. induction n as [|n IH]; intros s k ps Hn Hs H4 Hps Hun; [lia|]. cbn [read_all]. unfold read_packet. destruct ps as [|p ps].
  - destruct (read_packet_end get_recv id () s k Hget Hs H4) as (e & s' & k' & E & He).
    { apply app_eq_nil in Hun as [-> ->]. cbn. lia. }
    by rewrite E, outcome_bind_ret.
  - apply Forall_cons in Hps as [Hp Hps]. cbn [fmap list_fmap mjoin list_join] in Hun. fold (fmap packet ps) in Hun.
    destruct (read_packet_ok get_recv id () s k p (mjoin (packet <$> ps)) Hget Hs Hp Hun) as (r & pk & s1 & k1 & E & [(-> & -> & Hload & [Hs1 Hms1] & Hun1)|(_ & _ & [])]); [|done].
    rewrite E, outcome_bind_ret. cbn [Z.leb Z.compare]. rewrite Nat2Z.id, Hload, outcome_bind_ret.
    destruct (drain_ok (S (length (buff s1))) s1 ps (incoming k1) Hs1) as (ps1 & ps2 & s2 & E2 & -> & [Hs2 Hms2] & Hun2).
    + apply (Forall_impl _ _ _ Hps). intros q [? ?]. split; [done|]. by rewrite Hms1.
    + done.
    + unfold unread. rewrite length_take, length_drop. lia.
    + rewrite E2, outcome_bind_ret. cbn [fst snd]. rewrite (IH s2 k1 ps2); try done.
      * cbn in Hn. rewrite length_app in Hn. lia.
      * by rewrite Hms2, Hms1.
      * apply Forall_app in Hps as [_ Hps]. apply (Forall_impl _ _ _ Hps). intros q [? ?]. split; [done|]. by rewrite Hms2, Hms1.
Qed.

(** ** The reader with a timeout *)

(** What recv, poll and the clock do to the stream. *)
Definition takes_front (k : K) (r : Z * list Z * K) (n : Z) : Prop := let '(r, l, k') := r in
  r <= 0 /\ incoming k' = incoming k \/ 0 < r <= n /\ Z.of_nat (length l) = r /\ incoming k = l ++ incoming k'.

Record socket_ok : Prop := {
  sk_recv flags n k : 0 < n -> takes_front k (recv flags n k) n;
  sk_poll ev t k : incoming (poll ev t k).2 = incoming k;
  sk_tick k : incoming (get_tick_ms k).2 = incoming k }.

Lemma wait_ready_ok want timeout k :
  (forall ev t k, incoming (poll ev t k).2 = incoming k) ->
  (forall e, (wait_ready want timeout k).1 = Some e -> e <= 0) /\ incoming (wait_ready want timeout k).2 = incoming k.
Proof.
  intros Hpoll. specialize (Hpoll (Z.lor want (Z.lor POLLERR POLLHUP)) timeout k). unfold wait_ready.
  destruct (poll _ timeout k) as [[ret rev] k1]. cbn [snd] in Hpoll.
  destruct (ret =? 0), (ret <? 0), (negb (Z.land rev POLLERR =? 0)), (Z.land rev want =? 0); cbn; (split; [by intros e [= <-]|done]).
Qed.

Lemma read_timeout_front n (rest has : Z) k : socket_ok -> 0 < n -> takes_front k (read_timeout n rest has k) n.
Proof.
  intros [Hrecv Hpoll _] Hn.
  assert (HP : forall k, takes_front k (match wait_ready POLLIN rest k with (Some e, k) => (e, [], k) | (None, k) => recv MSG_DONTWAIT n k end) n).
  { clear k. intros k. destruct (wait_ready_ok POLLIN rest k Hpoll) as [He Hin]. destruct (wait_ready POLLIN rest k) as [[e|] k1]; cbn [fst snd] in He, Hin.
    - left. split; [by apply He|done].
    - specialize (Hrecv MSG_DONTWAIT n k1 Hn). unfold takes_front in *. by rewrite Hin in Hrecv. }
  unfold read_timeout. destruct (negb (has =? 0)); [|apply HP]. pose proof (Hrecv MSG_DONTWAIT n k Hn) as H1. destruct (recv MSG_DONTWAIT n k) as [[r l] k1].
  destruct (Z.leb_spec 0 r); [done|]. destruct (negb (errno k1 =? EAGAIN)); [done|]. specialize (HP k1). unfold takes_front in *.
  destruct H1 as [[_ E]|[? _]]; [|lia]. by rewrite E in HP.
Qed.

Lemma get_timeout_ok start_ms timeout : socket_ok -> reader_ok (get_timeout start_ms timeout).
Proof.
  intros Hsk n [rest has] k Hn. pose proof (read_timeout_front n rest has k Hsk Hn) as HR.
  unfold get_timeout. cbn [fst snd]. destruct (read_timeout n rest has k) as [[r l] k1]. destruct (Z.leb_spec r 0) as [Hr|Hr]; [by split|].
  pose proof (sk_tick Hsk k1) as Htick. destruct (get_tick_ms k1) as [now k2]. cbn [snd] in Htick.
  destruct HR as [[? _]|HR]; [lia|]. split; [right; by rewrite Htick|].
  intros e. destruct (_ <=? 0); [|done]. by intros [= <-].
Qed.

(** With a timeout, whatever the clock and the events do, read_packet hands out
    the next packet of the stream, complete and with the rest of the stream intact, or
    it fails with a result of at most 0 and hands out nothing. *)
Theorem read_packet_timeout_sound timeout has_data s k p rest :
  socket_ok -> sok s -> fits s p -> unread s ++ incoming k = packet p ++ rest ->
  exists r pk s' k', read_packet_timeout timeout has_data s k = Done (r, pk, s', k') /\
    (r = 1 /\ pk = Some (4, Z.of_nat (length p)) /\ load_bytes (buff s') 4 (length p) = Done p /\
       sok s' /\ unread s' ++ incoming k' = rest \/
     r <= 0 /\ pk = None).
Proof.
  intros Hsk Hs Hp Hun. unfold read_packet_timeout. pose proof (sk_tick Hsk k) as Hk. destruct (get_tick_ms k) as [start k1]. cbn [snd] in Hk. rewrite <-Hk in Hun.
  destruct (read_packet_ok (get_timeout start timeout) (fun a => (a.1, 0)) (timeout, has_data) s k1 p rest (get_timeout_ok start timeout Hsk) Hs Hp Hun)
    as (r & pk & s' & k' & E & [(? & ? & ? & [? _] & ?)|(? & ? & _)]); exists r, pk, s', k'; (split; [exact E|]); [left; by split_and!|by right].
Qed.

Lemma get_timeout_keeps {X} (f : K -> X) start_ms timeout :
  (forall flags n k, f (recv flags n k).2 = f k) -> (forall ev t k, f (poll ev t k).2 = f k) -> (forall k, f (get_tick_ms k).2 = f k) ->
  gets_keep f (get_timeout start_ms timeout).
Proof.
  intros Hrecv Hpoll Htick.
  assert (HW : forall want t k, f (wait_ready want t k).2 = f k).
  { intros want t k. specialize (Hpoll (Z.lor want (Z.lor POLLERR POLLHUP)) t k). unfold wait_ready. destruct (poll _ t k) as [[ret rev] k1].
    by destruct (ret =? 0), (ret <? 0), (negb (Z.land rev POLLERR =? 0)), (Z.land rev want =? 0). }
  assert (HR : forall (n rest has : Z) k, f (read_timeout n rest has k).2 = f k).
  { intros n rest has k. assert (HP : forall k, f (match wait_ready POLLIN rest k with (Some e, k) => (e, [], k) | (None, k) => recv MSG_DONTWAIT n k end).2 = f k).
    { clear k. intros k. specialize (HW POLLIN rest k). destruct (wait_ready POLLIN rest k) as [[e|] k1]; cbn [snd] in *; [done|]. by rewrite Hrecv. }
    unfold read_timeout. destruct (negb (has =? 0)); [|apply HP]. specialize (Hrecv MSG_DONTWAIT n k). destruct (recv MSG_DONTWAIT n k) as [[r l] k1]. cbn [snd] in Hrecv.
    destruct (0 <=? r); [done|]. destruct (negb (errno k1 =? EAGAIN)); [done|]. by rewrite HP. }
  intros n [rest has] k. specialize (HR n rest has k). unfold get_timeout. cbn [fst snd]. destruct (read_timeout n rest has k) as [[r l] k1]. cbn [snd] in HR.
  destruct (r <=? 0); [done|]. specialize (Htick k1). destruct (get_tick_ms k1) as [now k2]. cbn [snd fst] in *. by rewrite Htick.
Qed.

(** ** Sending *)

(** What has gone out; send takes a piece off the front of its buffer, or fails. *)
Context (sent : K -> list Z).

Definition sends_front (k : K) (r : Z * K) (l : list Z) : Prop :=
  r.1 < 0 /\ sent r.2 = sent k \/ 0 < r.1 <= Z.of_nat (length l) /\ sent r.2 = sent k ++ take (Z.to_nat r.1) l.

Record sink_ok : Prop := {
  si_send flags l k : l <> [] -> sends_front k (send flags l k) l;
  si_poll ev t k : sent (poll ev t k).2 = sent k;
  si_tick k : sent (get_tick_ms k).2 = sent k }.

Lemma wait_ready_sent want timeout k :
  sink_ok -> (forall e, (wait_ready want timeout k).1 = Some e -> e < 0) /\ sent (wait_ready want timeout k).2 = sent k.
Proof.
  intros [_ Hpoll _]. specialize (Hpoll (Z.lor want (Z.lor POLLERR POLLHUP)) timeout k). unfold wait_ready.
  destruct (poll _ timeout k) as [[ret rev] k1]. cbn [snd] in Hpoll.
  destruct (ret =? 0), (ret <? 0), (negb (Z.land rev POLLERR =? 0)), (Z.land rev want =? 0); cbn; (split; [by intros e [= <-]|done]).
Qed.

Lemma write_timeout_sent l timeout k : sink_ok -> l <> [] -> sends_front k (write_timeout l timeout k) l.
Proof.
  intros Hsi Hl. unfold write_timeout. pose proof (si_send Hsi MSG_DONTWAIT l k Hl) as H1. destruct (send MSG_DONTWAIT l k) as [r k1].
  destruct (Z.leb_spec 0 r); [done|]. destruct (negb (errno k1 =? EAGAIN)); [done|]. destruct H1 as [[_ E1]|[? _]]; [cbn in E1|cbn in *; lia].
  destruct (wait_ready_sent POLLOUT timeout k1 Hsi) as [He Hw]. destruct (wait_ready POLLOUT timeout k1) as [[e|] k2]; cbn [fst snd] in *.
  - left. cbn. split; [by apply He|by rewrite Hw].
  - pose proof (si_send Hsi MSG_DONTWAIT l k2 Hl) as H2. unfold sends_front in *. by rewrite Hw, E1 in H2.
Qed.

(** One round of a sending loop that has sent [cur] bytes. *)
Lemma send_round base l (cur : nat) k r :
  sent k = base ++ take cur l -> (cur < length l)%nat -> sends_front k r (drop cur l) ->
  r.1 < 0 /\ sent r.2 = base ++ take cur l \/
  exists n, 0 < r.1 /\ Z.of_nat cur + r.1 = Z.of_nat n /\ (cur < n <= length l)%nat /\ sent r.2 = base ++ take n l.
Proof.
  intros Hk Hcur [[Hr E]|[Hr E]]; [left; by rewrite E|]. right. rewrite length_drop in Hr. exists (cur + Z.to_nat r.1)%nat.
  split_and!; try lia. rewrite E, Hk, <-app_assoc. f_equal. by rewrite take_take_drop.
Qed.

Definition delivered (base l : list Z) (o : outcome (Z * K)) : Prop :=
  exists r k', o = Done (r, k') /\
    (r = Z.of_nat (length l) /\ sent k' = base ++ l \/ r < 0 /\ exists n, (n <= length l)%nat /\ sent k' = base ++ take n l).

Lemma drop_cur (cur : nat) (l : list Z) : (cur < length l)%nat -> drop (Z.to_nat (Z.of_nat cur)) l = drop cur l /\ drop cur l <> [].
Proof. intros Hc. rewrite Nat2Z.id. split; [done|]. intros E%(f_equal length). rewrite length_drop in E. cbn in E. lia. Qed.

Lemma all_sent base (l : list Z) (cur : nat) k : (cur <= length l)%nat -> Z.of_nat (length l) <= Z.of_nat cur -> sent k = base ++ take cur l -> delivered base l (Done (Z.of_nat (length l), k)).
Proof. intros ? ? Hk. exists (Z.of_nat (length l)), k. split; [done|]. left. split; [done|]. by rewrite Hk, take_ge by lia. Qed.

Lemma send_data_loop_ok base l fuel (cur : nat) k :
  sink_ok -> (cur <= length l)%nat -> (length l - cur <= fuel)%nat -> sent k = base ++ take cur l ->
  delivered base l (send_data_loop fuel l (Z.of_nat cur) k).
Proof.
  intros Hsi. revert cur k. induction fuel as [|fuel IH]; intros cur k Hcur Hfuel Hk; cbn [send_data_loop];
    (destruct (Z.leb_spec (Z.of_nat (length l)) (Z.of_nat cur)); [by apply (all_sent base l cur)|]); [lia|].
  destruct (drop_cur cur l) as [-> Hne]; [lia|].
  destruct (send_round base l cur k _ Hk ltac:(lia) (si_send Hsi 0 _ k Hne)) as [[Hr E]|(n & Hr & Hn & Hcn & E)]; destruct (send 0 _ k) as [r k1]; cbn [fst snd] in *.
  - rewrite (proj2 (Z.ltb_lt r 0)) by done. exists r, k1. split; [done|]. right. split; [done|]. by exists cur.
  - rewrite (proj2 (Z.ltb_ge r 0)), (proj2 (Z.eqb_neq r 0)) by lia. rewrite Hn. apply IH; [lia|lia|done].
Qed.

Lemma send_data_timeout_loop_ok base l fuel (cur : nat) (start rest timeout : Z) k :
  sink_ok -> (cur <= length l)%nat -> (length l - cur <= fuel)%nat -> sent k = base ++ take cur l ->
  delivered base l (send_data_timeout_loop fuel l (Z.of_nat cur) start rest timeout k).
Proof.
  intros Hsi. revert cur rest k. induction fuel as [|fuel IH]; intros cur rest k Hcur Hfuel Hk; cbn [send_data_timeout_loop];
    (destruct (Z.leb_spec (Z.of_nat (length l)) (Z.of_nat cur)); [by apply (all_sent base l cur)|]); [lia|].
  destruct (drop_cur cur l) as [-> Hne]; [lia|].
  destruct (send_round base l cur k _ Hk ltac:(lia) (write_timeout_sent _ rest k Hsi Hne)) as [[Hr E]|(n & Hr & Hn & Hcn & E)];
    destruct (write_timeout _ rest k) as [r k1]; cbn [fst snd] in *.
  - rewrite (proj2 (Z.ltb_lt r 0)) by done. exists r, k1. split; [done|]. right. split; [done|]. by exists cur.
  - rewrite (proj2 (Z.ltb_ge r 0)), (proj2 (Z.eqb_neq r 0)) by lia. pose proof (si_tick Hsi k1) as Ht. destruct (get_tick_ms k1) as [now k2]. cbn [snd] in Ht.
    rewrite Hn. destruct (_ <=? 0); [|apply IH; [lia|lia|by rewrite Ht]].
    exists ERR_TIMEOUT_NET_HELPER, k2. split; [done|]. right. split; [done|]. exists n. split; [lia|by rewrite Ht].
Qed.

Lemma send_data_timeout_ok l timeout k : sink_ok -> delivered (sent k) l (send_data_timeout l timeout k).
Proof.
  intros Hsi. unfold send_data_timeout. pose proof (si_tick Hsi k) as Ht. destruct (get_tick_ms k) as [start k1]. cbn [snd] in Ht. rewrite <-Ht.
  apply (send_data_timeout_loop_ok _ l (length l) 0 start timeout timeout k1 Hsi); [lia|lia|]. by rewrite take_0, app_nil_r.
Qed.

(** Send_data ends, with and without a timeout: it returns the length and has sent
    every byte in order, or a negative error and has sent a part from the front. *)
Theorem send_data_delivers l timeout k :
  sink_ok -> delivered (sent k) l (send_data l k) /\ delivered (sent k) l (send_data_timeout l timeout k).
Proof.
  intros Hsi. split.
  - apply (send_data_loop_ok (sent k) l (length l) 0 k Hsi); [lia|lia|]. by rewrite take_0, app_nil_r.
  - by apply send_data_timeout_ok.
Qed.

(** What neither send nor poll nor the clock changes is as it was after the bytes are sent. *)
Lemma send_data_timeout_keeps {X} (f : K -> X) l timeout k r k' :
  (forall flags l k, f (send flags l k).2 = f k) -> (forall ev t k, f (poll ev t k).2 = f k) -> (forall k, f (get_tick_ms k).2 = f k) ->
  send_data_timeout l timeout k = Done (r, k') -> f k' = f k.
Proof.
  intros Hsend Hpoll Htick. assert (HW : forall l (rest : Z) k, f (write_timeout l rest k).2 = f k).
  { clear l k. intros l t k. unfold write_timeout. specialize (Hsend MSG_DONTWAIT l). pose proof (Hsend k) as H1. destruct (send MSG_DONTWAIT l k) as [r1 k1]. cbn [snd] in H1.
    destruct (0 <=? r1); [done|]. destruct (negb (errno k1 =? EAGAIN)); [done|]. specialize (Hpoll (Z.lor POLLOUT (Z.lor POLLERR POLLHUP)) t k1). unfold wait_ready.
    destruct (poll _ t k1) as [[ret rev] k2]. cbn [snd] in Hpoll.
    destruct (ret =? 0), (ret <? 0), (negb (Z.land rev POLLERR =? 0)), (Z.land rev POLLOUT =? 0); cbn [snd]; rewrite ?Hsend; by rewrite Hpoll. }
  unfold send_data_timeout. pose proof (Htick k) as Ht. destruct (get_tick_ms k) as [start k1]. cbn [snd] in Ht. rewrite <-Ht. clear Ht k.
  generalize timeout at 1. generalize 0 at 1. generalize (length l) at 1. intros fuel. revert k1. induction fuel as [|fuel IH]; intros k cur t; cbn [send_data_timeout_loop];
    (destruct (_ <=? cur); [by intros [= _ <-]|]); [done|].
  specialize (HW (drop (Z.to_nat cur) l) t k). destruct (write_timeout _ t k) as [r1 k1]. cbn [snd] in HW.
  destruct (r1 <? 0); [by intros [= _ <-]|]. destruct (r1 =? 0); [by intros [= _ <-]|]. specialize (Htick k1) as Ht. destruct (get_tick_ms k1) as [now k2]. cbn [snd] in Ht.
  destruct (_ <=? 0); [intros [= _ <-]|intros E%IH]; by rewrite <-HW, <-Ht.
Qed.

(** ** Connections that work *)

(** No operation fails: what the stream holds can be read, and poll says so; send takes a
    byte at least; and the clock moves by less than [limit] milliseconds. *)
Record reliable (limit : Z) : Prop := {
  rl_recv flags n k : 0 < n -> incoming k <> [] -> 0 < (recv flags n k).1.1;
  rl_poll t k : incoming k <> [] -> let '(ret, revents, _) := poll (Z.lor POLLIN (Z.lor POLLERR POLLHUP)) t k in
    0 < ret /\ Z.land revents POLLERR = 0 /\ Z.land revents POLLIN <> 0;
  rl_send flags l k : l <> [] -> 0 < (send flags l k).1;
  rl_tick k k' : (get_tick_ms k).1 - (get_tick_ms k').1 < limit }.

Lemma time_left limit timeout k k' : reliable limit -> limit <= timeout < 2 ^ 30 ->
  (i32 (timeout - i32 (u64 ((get_tick_ms k).1 - (get_tick_ms k').1))) <=? 0) = false.
Proof.
  intros Hr Hl. pose proof (rl_tick _ Hr k k') as H1. pose proof (rl_tick _ Hr k' k) as H2. apply Z.leb_gt.
  set (d := _ - _) in *. assert (Hd : - 2 ^ 30 < d < 2 ^ 30) by lia.
  assert (E : i32 (u64 d) = d).
  { destruct (Z.leb_spec 0 d) as [Hp|Hn]; [by rewrite (wrap_u_id 64), wrap_s_id by (unfold in_u, in_s; lia)|].
    assert (Eu : u64 d = d + 2 ^ 64) by (rewrite <-(wrap_u_id 64 (d + 2 ^ 64)) by (unfold in_u; lia); unfold wrap_u; rewrite <-(Z_mod_plus_full d 1); f_equal; lia).
    rewrite Eu. unfold wrap_s. replace (d + 2 ^ 64 + 2 ^ (32 - 1)) with (d + 2 ^ 31 + 2 ^ 32 * 2 ^ 32) by lia. rewrite Z_mod_plus_full, Z.mod_small by lia. lia. }
  rewrite E, wrap_s_id by (unfold in_s; lia). lia.
Qed.

Lemma wait_ready_reliable limit t k : reliable limit -> incoming k <> [] -> (wait_ready POLLIN t k).1 = None.
Proof.
  intros Hr Hin. pose proof (rl_poll _ Hr t k Hin) as Hp. unfold wait_ready. destruct (poll _ t k) as [[ret rev] k1]. destruct Hp as (H1 & H2 & H3).
  rewrite (proj2 (Z.eqb_neq ret 0)), (proj2 (Z.ltb_ge ret 0)), H2, (proj2 (Z.eqb_neq _ _) H3) by lia. done.
Qed.

Lemma get_timeout_waits limit timeout k0 : socket_ok -> reliable limit -> limit <= timeout < 2 ^ 30 -> reader_waits (get_timeout (get_tick_ms k0).1 timeout).
Proof.
  intros Hsk Hr Hl n [rest has] k Hn Hin. unfold get_timeout. cbn [fst snd].
  assert (HR : 0 < (read_timeout n rest has k).1.1).
  { assert (HP : forall k, incoming k <> [] -> 0 < (match wait_ready POLLIN rest k with (Some e, k) => (e, [], k) | (None, k) => recv MSG_DONTWAIT n k end).1.1).
    { clear k Hin. intros k Hin. pose proof (wait_ready_reliable _ rest k Hr Hin) as Hw. destruct (wait_ready_ok POLLIN rest k (sk_poll Hsk)) as [_ Hk].
      destruct (wait_ready POLLIN rest k) as [o k1]. cbn [fst snd] in Hw, Hk. subst o. apply (rl_recv _ Hr); [done|by rewrite Hk]. }
    unfold read_timeout. destruct (negb (has =? 0)); [|by apply HP]. pose proof (rl_recv _ Hr MSG_DONTWAIT n k Hn Hin) as H1.
    destruct (recv MSG_DONTWAIT n k) as [[r l] k1]. cbn [fst] in H1. by rewrite (proj2 (Z.leb_le 0 r)) by lia. }
  destruct (read_timeout n rest has k) as [[r l] k1]. cbn [fst] in HR. rewrite (proj2 (Z.leb_gt r 0)) by done.
  pose proof (time_left limit timeout k1 k0 Hr Hl) as Ht. destruct (get_tick_ms k1) as [now k2]. cbn [fst] in Ht. rewrite Ht. by eexists _, _, _, _.
Qed.

Lemma send_loop_all limit l (timeout : Z) k0 fuel : sink_ok -> reliable limit -> limit <= timeout < 2 ^ 30 -> forall (cur : nat) t k,
  (cur <= length l)%nat -> (length l - cur <= fuel)%nat ->
  exists k', send_data_timeout_loop fuel l (Z.of_nat cur) (get_tick_ms k0).1 t timeout k = Done (Z.of_nat (length l), k').
Proof.
  intros Hsi Hr Hl. induction fuel as [|fuel IH]; intros cur t k Hcur Hfuel; cbn [send_data_timeout_loop];
    (destruct (Z.leb_spec (Z.of_nat (length l)) (Z.of_nat cur)); [by eexists|]); [lia|].
  destruct (drop_cur cur l) as [-> Hne]; [lia|]. pose proof (rl_send _ Hr MSG_DONTWAIT _ k Hne) as Hs. pose proof (si_send Hsi MSG_DONTWAIT _ k Hne) as Hfront.
  unfold write_timeout. destruct (send MSG_DONTWAIT (drop cur l) k) as [r k2]. unfold sends_front in Hfront. cbn [fst snd] in Hs, Hfront. rewrite length_drop in Hfront.
  rewrite (proj2 (Z.leb_le 0 r)), (proj2 (Z.ltb_ge r 0)), (proj2 (Z.eqb_neq r 0)) by lia.
  pose proof (time_left limit timeout k2 k0 Hr Hl) as Ht. destruct (get_tick_ms k2) as [now k3]. cbn [fst] in Ht. rewrite Ht.
  replace (Z.of_nat cur + r) with (Z.of_nat (cur + Z.to_nat r)) by lia. apply IH; lia.
Qed.

Lemma send_data_timeout_all limit l timeout k : sink_ok -> reliable limit -> limit <= timeout < 2 ^ 30 ->
  exists k', send_data_timeout l timeout k = Done (Z.of_nat (length l), k').
Proof.
  intros Hsi Hr Hl. unfold send_data_timeout. destruct (send_loop_all limit l timeout k (length l) Hsi Hr Hl 0 timeout (get_tick_ms k).2) as [k' E]; [lia|lia|].
  destruct (get_tick_ms k) as [start k1]. by exists k'.
Qed.
End packets.

(** ** A socket that cuts the stream into pieces *)

(** The bytes to come and the sizes, less one, of the pieces that they come in. *)
Definition pieces : Type := list Z * list nat.
Definition piece (n : Z) (k : pieces) : nat := Nat.min (Z.to_nat n) (S (default 1000%nat (head k.2))).
Definition recv_piece (flags n : Z) (k : pieces) : Z * list Z * pieces :=
  let l := take (piece n k) k.1 in (Z.of_nat (length l), l, (drop (piece n k) k.1, tail k.2)).

Lemma recv_piece_ok : reader_ok fst (get_recv recv_piece).
Proof.
  intros n a k Hn. cbn -[take drop]. split; [|done]. destruct (decide (k.1 = [])) as [Hk|Hk]; [left; rewrite Hk, take_nil, drop_nil; done|right].
  assert (0 < length k.1)%nat by (destruct (k.1); [done|cbn; lia]).
  rewrite length_take, take_drop. unfold piece. split; [lia|done].
Qed.

Lemma recv_piece_waits : reader_waits fst (get_recv recv_piece).
Proof.
  intros n a k Hn Hk. eexists _, _, _, _. split; [done|]. rewrite length_take. unfold piece. destruct (k.1) eqn:E; [done|cbn; lia].
Qed.

(** Three packets in pieces of 1, 6, 4 and then more bytes. *)
Definition three : list (list Z) := [[10; 11]; [20; 21; 22]; [30]].
Definition empty_stream : packet_stream := new_stream 12 (replicate 12 0).

Lemma packets_delivered_witness : read_all recv_piece 4 empty_stream (mjoin (packet <$> three), [0; 5; 3]%nat) = Done three.
Proof.
  apply (packets_delivered recv_piece fst empty_stream (mjoin (packet <$> three), [0; 5; 3]%nat) three).
  - apply recv_piece_ok.
  - apply recv_piece_waits.
  - split; vm_compute; intuition congruence.
  - vm_compute. congruence.
  - repeat constructor; vm_compute; congruence.
  - vm_compute. reflexivity.
Defined.

(** A clock that goes on by [step] whenever it is read. *)
Definition timed : Type := pieces * Z.
Definition recv_timed (flags n : Z) (k : timed) : Z * list Z * timed := let '(r, l, c) := recv_piece flags n k.1 in (r, l, (c, k.2)).
Definition no_errno (k : timed) : Z := EAGAIN.
Definition tick (step : Z) (k : timed) : Z * timed := (k.2, (k.1, k.2 + step)).
Definition timed_in (k : timed) : list Z := k.1.1.
Definition poll_data (ev t : Z) (k : timed) : Z * Z * timed := (1, POLLIN, k).

Lemma timed_ok step : socket_ok recv_timed poll_data (tick step) timed_in.
Proof.
  split; [|done..]. intros flags n [c t] Hn. exact (proj1 (recv_piece_ok n tt c Hn)).
Qed.

Lemma read_packet_timeout_sound_witness : exists r pk s' k',
  read_packet_timeout recv_timed poll_data no_errno (tick 40) 100 1 empty_stream (packet [1; 2; 3] ++ [9; 9], [0; 2]%nat, 0) = Done (r, pk, s', k') /\
    (r = 1 /\ pk = Some (4, 3) /\ load_bytes (buff s') 4 3 = Done [1; 2; 3] /\ sok s' /\ unread s' ++ timed_in k' = [9; 9] \/ r <= 0 /\ pk = None).
Proof.
  apply (read_packet_timeout_sound recv_timed poll_data no_errno (tick 40) timed_in 100 1 empty_stream _ [1; 2; 3] [9; 9]).
  - apply timed_ok.
  - split; vm_compute; intuition congruence.
  - vm_compute. split; congruence.
  - vm_compute. reflexivity.
Defined.

(** A sink that takes at most three bytes at a time, full every other time. *)
Definition full_sink : Type := list Z * bool.
Definition send_three (flags : Z) (l : list Z) (k : full_sink) : Z * full_sink :=
  if k.2 && (flags =? MSG_DONTWAIT) then (-1, (k.1, false)) else (Z.of_nat (length (take 3 l)), (k.1 ++ take 3 l, true)).
Definition sink_errno (k : full_sink) : Z := EAGAIN.
Definition sink_poll (ev t : Z) (k : full_sink) : Z * Z * full_sink := (1, POLLOUT, k).
Definition sink_tick (k : full_sink) : Z * full_sink := (5, k).

Lemma send_three_ok : sink_ok send_three sink_poll sink_tick fst.
Proof.
  split; [|done..]. intros flags l k Hl. unfold send_three. destruct (_ && _); [by left|]. right. cbn [fst snd].
  assert (0 < length l)%nat by (destruct l; [done|cbn; lia]). rewrite Nat2Z.id, length_take. split; [lia|]. f_equal.
  destruct (decide (length l <= 3)%nat); [rewrite !take_ge by lia; done|by rewrite Nat.min_l by lia].
Qed.

Lemma send_data_delivers_witness :
  delivered fst [] [1; 2; 3; 4; 5; 6; 7] (send_data send_three [1; 2; 3; 4; 5; 6; 7] ([], true)) /\
  send_data_timeout send_three sink_poll sink_errno sink_tick [1; 2; 3; 4; 5; 6; 7] 100 ([], true) = Done (7, ([1; 2; 3; 4; 5; 6; 7], true)).
Proof.
  destruct (send_data_delivers send_three sink_poll sink_errno sink_tick fst [1; 2; 3; 4; 5; 6; 7] 100 ([], true)) as [H _].
  - apply send_three_ok.
  - split; [exact H|]. vm_compute. reflexivity.
Defined.

(** ** Where streams lose bytes *)

(** A reader that runs out of time after part of a packet forgets that part: the
    state says that nothing is left, and the next read takes the middle of the packet
    for its length. *)
Theorem timeout_loses_bytes : exists s k,
  read_packet_timeout recv_timed poll_data no_errno (tick 60) 100 1 empty_stream (packet [1; 0; 0; 0; 1; 7], [1; 1]%nat, 0) =
    Done (ERR_TIMEOUT_NET_HELPER, None, s, k) /\
  unread s = [] /\ timed_in k = [1; 0; 0; 0; 1; 7] /\
  exists s' k', read_packet_timeout recv_timed poll_data no_errno (tick 0) 100 1 s k = Done (-4, None, s', k').
Proof. eexists _, _. split; [vm_compute; reflexivity|]. split; [done|]. split; [done|]. eexists _, _. vm_compute. reflexivity. Qed.

(** The server initialises the stream before every request: of two requests that
    arrived together it answers one, and finds the connection at its end. *)
Theorem init_drops_pipelined : exists s1 k1 s2 k2,
  read_packet_timeout recv_timed poll_data no_errno (tick 0) 100 1 (init empty_stream) (packet [1] ++ packet [2], [], 0) = Done (1, Some (4, 1), s1, k1) /\
  unread s1 = packet [2] /\
  read_packet_timeout recv_timed poll_data no_errno (tick 0) 100 1 (init s1) k1 = Done (0, None, s2, k2).
Proof. eexists _, _, _, _. split; [vm_compute; reflexivity|]. split; vm_compute; reflexivity. Qed.

(** Next_packet takes any length whose sum with 4 wraps: 0xffffffff passes the
    check and gives a packet of -1 bytes, and the position moves on by 3, into the length
    itself. *)
Theorem next_packet_wraps :
  next_packet (PacketStream 12 [0; 0; 0; 1; 7; 255; 255; 255; 255; 0; 0; 0] 5 9 false) =
    Done (0, Some (9, -1), PacketStream 12 [0; 0; 0; 1; 7; 255; 255; 255; 255; 0; 0; 0] 8 9 false).
Proof. vm_compute. reflexivity. Qed.

(** A length of 2^31-4 and more overflows the sum that is compared with max_size. *)
Lemma read_packet_overflow : read_packet recv_piece empty_stream ([127; 255; 255; 255; 1; 2], []) = Fault.
Proof. vm_compute. reflexivity. Qed.
