(* ===== verification/RpcBase.v ===== *)
(** * svrkit/rpc_pb_server_base.h, rpc_pb_server_base.cpp: the commands of a server

    A command is a callback with the messages that it takes and returns.  Static
    initialisers register commands under a server name and a method name; a server
    clones the ones of its name into two hash tables, by name and by number, and
    rpc_pb_call_cb runs one.  Protobuf messages, the objects of command classes and
    the world that the callbacks act on are parameters. *)
From stdpp Require Import list gmap.
From S2P Require Import Prelude Words Memory Hashes HList HashTable HashKeys Pbc CmdBase.

(** ** The keys of the two tables *)

(** StrMap on the bytes of a method name. *)
Record name_key := NameKey { name_of : list Z }.

Definition bytes_at (l : list Z) : memory := fun p => u8 (nth (Z.to_nat p) l 0).

#[export] Instance CmdMap : HashKey name_key := {
  hash_code k := MurmurHash64A (bytes_at (name_of k)) 0 (Z.of_nat (length (name_of k))) 0;
  equal l r := bool_decide (name_of l = name_of r) }.

#[export] Instance CmdMap_laws : HashKeyLaws name_key.
Proof.
  split.
  - intros x y E%bool_decide_eq_true. cbn. by rewrite E.
  - intros x. apply murmur64a_range; [intros p; apply wrap_u_range; lia|lia|done].
Qed.

(** CmdIdMap, whose hash is the number itself. *)
Record id_key := IdKey { id_of : Z }.

#[export] Instance CmdIdMap : HashKey id_key := {
  hash_code k := u64 (id_of k);
  equal l r := id_of l =? id_of r }.

#[export] Instance CmdIdMap_laws : HashKeyLaws id_key.
Proof. split; [by intros x y E%Z.eqb_eq; cbn; rewrite E|intros x; apply wrap_u_range; lia]. Qed.

(** ** base/obj_pool.h *)

(** obj_pool_t::alloc and release on the stack of the objects in the pool; [new] is
    what the allocation function returns, if it is called. *)
Definition pool_alloc {A} (new : A) (pool : list A) : A * list A :=
  match pool with [] => (new, []) | obj :: pool => (obj, pool) end.
Definition pool_release {A} (obj : A) (pool : list A) : list A := obj :: pool.

Section rpc.
Context {D K Msg O : Type} `{Countable D}.
Implicit Types (k : K) (d : D) (name : list Z).

(** ParseFromArray of a message, and the New of a message. *)
Context (parse_msg : list Z -> option Msg) (msg_new : Msg -> Msg).

(** rpc_pb_ctx_t *)
Record rpc_pb_ctx_t := Ctx { to_close : Z; ctx_base : cmd_base_t }.
Implicit Types ctx : rpc_pb_ctx_t.

(** cmd_class_obj_mgr_base_t *)
Record cmd_class_obj_mgr := ObjMgr { obj_alloc : K -> O * K; obj_free : O -> K -> K }.

(** rpc_pb_callback: the result, the context, what the response holds, and errmsg. *)
Definition rpc_pb_callback : Type :=
  option O -> rpc_pb_ctx_t -> option Msg -> option Msg -> list Z -> K -> Z * rpc_pb_ctx_t * option Msg * list Z * K.

(** rpc_pb_cmd_t; the pools hold the messages that were released. *)
Record rpc_pb_cmd_t := Cmd {
  proc : rpc_pb_callback; arg : option O; method_name : list Z; cmd_id : Z;
  req_msg : option Msg; rsp_msg : option Msg; req_pool : list Msg; rsp_pool : list Msg;
  obj_mgr : option cmd_class_obj_mgr }.
Implicit Types c : rpc_pb_cmd_t.

Definition set_pools (req rsp : list Msg) c : rpc_pb_cmd_t :=
  Cmd (proc c) (arg c) (method_name c) (cmd_id c) (req_msg c) (rsp_msg c) req rsp (obj_mgr c).

(** clone; the new command's obj_mgr is NULL when it is tested. *)
Definition clone c : rpc_pb_cmd_t :=
  let n := Cmd (proc c) (arg c) (method_name c) (cmd_id c) (msg_new <$> req_msg c) (msg_new <$> rsp_msg c) [] [] None in
  if bool_decide (is_Some (obj_mgr n)) then
    Cmd (proc n) (arg n) (method_name n) (cmd_id n) (req_msg n) (rsp_msg n) (req_pool n) (rsp_pool n) (obj_mgr c)
  else n.

(** ** The registry of all servers *)

(** g_server_cmd_maps: NULL, or the commands by server name and method name. *)
Implicit Types (m : gmap (list Z) rpc_pb_cmd_t) (g : option (gmap (list Z) (gmap (list Z) rpc_pb_cmd_t))).

(** A name that is taken is logged as fatal, which aborts (plog.h). *)
Definition global_registry_cmd (server_name : list Z) c g : outcome (Z * option (gmap (list Z) (gmap (list Z) rpc_pb_cmd_t))) :=
  let maps := default ∅ g in
  let server_map := default ∅ (maps !! server_name) in
  if bool_decide (is_Some (server_map !! method_name c)) then Fault
  else Done (0, Some (<[server_name := <[method_name c := c]> server_map]> maps)).

(** registry_rpc_pb_cmd returns 1, which initialises a static variable. *)
Definition registry_rpc_pb_cmd (server_name : list Z) c g : outcome (Z * option (gmap (list Z) (gmap (list Z) rpc_pb_cmd_t))) :=
  r ← global_registry_cmd server_name c g; Done (1, r.2).

(** ** A server's commands *)

Record rpc_pb_server_base_t := ServerBase {
  cmds : gmap D rpc_pb_cmd_t; cmd_maps : table D name_key; cmd_id_maps : table D id_key }.
Implicit Types b : rpc_pb_server_base_t.

(** The constructor over the tables' memory. *)
Definition new_server_base (garbage : Z -> option D) b : outcome rpc_pb_server_base_t :=
  names ← HashTableBase (cmd_maps b); names ← HashTable.init 1000 garbage names;
  ids ← HashTableBase (cmd_id_maps b); ids ← HashTable.init 1000 garbage ids;
  Done (ServerBase (cmds b) names ids).

Definition get_cmd_at (n : option D) b : outcome (option (D * rpc_pb_cmd_t)) :=
  match n with None => Done None | Some d => c ← of_option (cmds b !! d); Done (Some (d, c)) end.

(** The two get_rpc_pb_cmd. *)
Definition get_rpc_pb_cmd_name name b : outcome (option (D * rpc_pb_cmd_t)) :=
  n ← find (NameKey name) (cmd_maps b); get_cmd_at n b.
Definition get_rpc_pb_cmd_id (id : Z) b : outcome (option (D * rpc_pb_cmd_t)) :=
  n ← find (IdKey id) (cmd_id_maps b); get_cmd_at n b.

(** One command of get_global_server_cmd, cloned to the address [d]. *)
Definition add_cmd d c b : outcome rpc_pb_server_base_t :=
  let cmd2 := clone c in
  names ← insert_node d (NameKey (method_name cmd2)) (cmd_maps b);
  ids ← (if 0 <? cmd_id cmd2 then insert_node d (IdKey (cmd_id cmd2)) (cmd_id_maps b) else Done (cmd_id_maps b));
  Done (ServerBase (<[d := cmd2]> (cmds b)) names ids).

(** The loop; [addrs] are the addresses that new returns. *)
Fixpoint add_cmds (cs : list rpc_pb_cmd_t) (addrs : list D) b : outcome rpc_pb_server_base_t :=
  match cs, addrs with
  | [], _ => Done b
  | c :: cs, d :: addrs => b ← add_cmd d c b; add_cmds cs addrs b
  | _ :: _, [] => Fault
  end.

(** get_global_server_cmd; [iter] is the order in which an unordered_map is walked.
    The lookup inserts a NULL for an unknown server. *)
Definition get_global_server_cmd (iter : gmap (list Z) rpc_pb_cmd_t -> list rpc_pb_cmd_t) (server_name : list Z) g (addrs : list D) b
    : outcome (Z * rpc_pb_server_base_t) :=
  match g with
  | None => Done (-1, b)
  | Some maps =>
      match maps !! server_name with
      | None => Done (-2, b)
      | Some server_map => b ← add_cmds (iter server_map) addrs b; Done (i32 (HashTable.size (cmd_maps b)), b)
      end
  end.

(** ** rpc_pb_call_cb *)

(** The bytes of a ref_str_t. *)
Definition ref_bytes (mem : list Z) (s : ref_str_t) : outcome (list Z) :=
  if len s =? 0 then Done [] else p ← of_option (data s); load_bytes mem p (Z.to_nat (len s)).

(** The call of the callback, on the object of the command or a new one. *)
Definition call_proc c ctx (req rsp : option Msg) (err : list Z) k : Z * rpc_pb_ctx_t * option Msg * list Z * K :=
  match obj_mgr c with
  | Some mgr =>
      let '(obj, k) := obj_alloc mgr k in
      let '(ret, ctx, rsp, err, k) := proc c (Some obj) ctx req rsp err k in (ret, ctx, rsp, err, obj_free mgr obj k)
  | None => proc c (arg c) ctx req rsp err k
  end.

(** The result: ret, *rsp, *errmsg, the context, the command with its pools, and the
    world.  [log] says that FLAGS_log_failed_rpc is set and errors are logged. *)
Definition rpc_pb_call_cb (log : bool) (mem : list Z) c ctx (req : ref_str_t) (err : list Z) k
    : outcome (Z * option Msg * list Z * rpc_pb_ctx_t * rpc_pb_cmd_t * K) :=
  r ← match req_msg c with
      | None => Done (inr (None, c))
      | Some proto =>
          let '(req1, pool) := pool_alloc (msg_new proto) (req_pool c) in
          l ← ref_bytes mem req;
          match parse_msg l with
          | None => Done (inl (set_pools (pool_release req1 pool) (rsp_pool c) c))
          | Some req1 => Done (inr (Some req1, set_pools pool (rsp_pool c) c))
          end
      end;
  match r with
  | inl c => Done (2, None, err, ctx, c, k)
  | inr (req1, c) =>
      let '(rsp1, pool) := match rsp_msg c with
        | None => (None, rsp_pool c)
        | Some proto => let '(rsp, pool) := pool_alloc (msg_new proto) (rsp_pool c) in (Some rsp, pool)
        end in
      let c := set_pools (req_pool c) pool c in
      let '(ret, ctx, rsp, err, k) := call_proc c ctx req1 rsp1 err k in
      let rsp1 := (fun old => default old rsp) <$> rsp1 in
      let c := match req1 with Some req1 => set_pools (pool_release req1 (req_pool c)) (rsp_pool c) c | None => c end in
      if negb (ret =? 0) && log && (bool_decide (req1 = None) || bool_decide (rsp1 = None)) then Fault
      else Done (ret, rsp1, err, ctx, c, k)
  end.
End rpc.

(** ** Which commands a server finds *)
Section loading.
Context {D K Msg O : Type} `{Countable D}.
Context (msg_new : Msg -> Msg).
Implicit Types (d : D) (name server : list Z) (c : @rpc_pb_cmd_t K Msg O) (L : list (D * @rpc_pb_cmd_t K Msg O)) (b : @rpc_pb_server_base_t D K Msg O _ _).

(** The entries of the two tables for the commands [L], newest first. *)
Definition name_entries L : list (D * name_key) := (fun p => (p.1, NameKey (method_name p.2))) <$> L.
Definition id_entries L : list (D * id_key) := (fun p => (p.1, IdKey (cmd_id p.2))) <$> filter (fun p => 0 < cmd_id p.2) L.

Record loaded b L (addrs : list D) : Prop := {
  ld_names : exists free, implements (cmd_maps b) (Multimap (name_entries L) free (Z.of_nat (length L))) /\ free.*1 = addrs;
  ld_ids : exists free num skipped, implements (cmd_id_maps b) (Multimap (id_entries L) free num) /\ free.*1 ≡ₚ skipped ++ addrs;
  ld_cmds d c : (d, c) ∈ L -> cmds b !! d = Some c }.

Lemma loaded_fresh b L d addrs : loaded b L (d :: addrs) -> forall c, (d, c) ∉ L.
Proof.
  intros [(free & (HR & _) & Hf) _ _] c Hin. apply table_repr_nodup in HR. cbn [entries spare] in HR. rewrite Hf in HR.
  apply NoDup_app in HR as (_ & HR & _). apply (HR d); [|left]. apply list_elem_of_fmap. exists (d, NameKey (method_name c)). split; [done|].
  apply list_elem_of_fmap. by exists (d, c).
Qed.

Lemma add_cmd_ok d c b L addrs :
  Z.of_nat (length L) + 1 < 2 ^ 64 -> loaded b L (d :: addrs) ->
  exists b', add_cmd msg_new d c b = Done b' /\ loaded b' ((d, clone msg_new c) :: L) addrs.
Proof.
  intros Hlen HL. pose proof (loaded_fresh _ _ _ _ HL) as Hd. destruct HL as [(free & HI & Hf) (free2 & num2 & sk & HI2 & Hf2) Hc].
  unfold add_cmd. set (c2 := clone msg_new c). destruct free as [|[d' v0] free]; [done|]. injection Hf as -> Hf.
  destruct (insert_node_ok d (NameKey (method_name c2)) v0 _ _ free _ _ (Permutation_refl _) HI) as (t1 & E1 & HI1). rewrite E1, outcome_bind_ret.
  assert (Hc' : forall e c', (e, c') ∈ (d, c2) :: L -> <[d := c2]> (cmds b) !! e = Some c').
  { intros e c' [[= -> ->]|Hin]%elem_of_cons; [by rewrite lookup_insert_eq|]. rewrite lookup_insert_ne; [by apply Hc|]. intros ->. by apply (Hd c'). }
  assert (Hn : exists free', implements t1 (Multimap (name_entries ((d, c2) :: L)) free' (Z.of_nat (length ((d, c2) :: L)))) /\ free'.*1 = addrs).
  { exists free. split; [|done]. rewrite wrap_u_id in HI1 by (unfold in_u; lia). cbn [length]. by replace (Z.of_nat (S (length L))) with (Z.of_nat (length L) + 1) by lia. }
  destruct (Z.ltb_spec 0 (cmd_id c2)) as [Hid|Hid].
  - assert (Hex : exists v, (d, v) ∈ free2).
    { assert (Hin : d ∈ free2.*1) by (rewrite Hf2; apply elem_of_app; right; left). apply list_elem_of_fmap in Hin as ([d' v] & -> & Hin). by exists v. }
    destruct Hex as (v & (free3 & Hp)%elem_of_Permutation).
    destruct (insert_node_ok d (IdKey (cmd_id c2)) v _ _ free3 _ _ Hp HI2) as (t2 & E2 & HI2'). rewrite E2, outcome_bind_ret.
    eexists. split; [done|]. split; cbn [cmds cmd_maps cmd_id_maps]; [done| |done].
    exists free3, (u64 (num2 + 1)), sk. split; [unfold id_entries; by rewrite filter_cons_True by done|].
    rewrite Hp in Hf2. cbn in Hf2. apply (Permutation_cons_inv (a := d)). rewrite Hf2. by rewrite Permutation_middle.
  - rewrite outcome_bind_ret. eexists. split; [done|]. split; cbn [cmds cmd_maps cmd_id_maps]; [done| |done].
    exists free2, num2, (sk ++ [d]). split; [unfold id_entries; by rewrite filter_cons_False by (change (~ 0 < cmd_id c2); lia)|]. by rewrite <-app_assoc.
Qed.

Lemma add_cmds_ok cs addrs b L :
  Z.of_nat (length L + length cs) < 2 ^ 64 -> (length cs <= length addrs)%nat -> loaded b L addrs ->
  exists b' L', add_cmds msg_new cs addrs b = Done b' /\ loaded b' (L' ++ L) (drop (length cs) addrs) /\ L'.*2 = reverse (clone msg_new <$> cs).
Proof.
  revert addrs b L. induction cs as [|c cs IH]; intros addrs b L Hlen Ha HL.
  - exists b, []. split; [by destruct addrs|]. by split.
  - destruct addrs as [|d addrs]; [cbn in Ha; lia|]. cbn [add_cmds length] in *.
    destruct (add_cmd_ok d c b L addrs) as (b1 & E1 & HL1); [lia|done|]. rewrite E1, outcome_bind_ret.
    destruct (IH addrs b1 ((d, clone msg_new c) :: L)) as (b2 & L2 & E2 & HL2 & Hr); [cbn [length]; lia|lia|done|].
    exists b2, (L2 ++ [(d, clone msg_new c)]). split; [done|]. split; [by rewrite <-app_assoc|].
    rewrite fmap_app, Hr. change (clone msg_new <$> c :: cs) with (clone msg_new c :: (clone msg_new <$> cs)). by rewrite reverse_cons.
Qed.

Lemma find_name_ok b L addrs name :
  loaded b L addrs -> exists o, get_rpc_pb_cmd_name name b = Done o /\
    match o with Some (d, c) => (d, c) ∈ L /\ method_name c = name | None => forall d c, (d, c) ∈ L -> method_name c <> name end.
Proof.
  intros [(free & HI & _) _ Hc]. unfold get_rpc_pb_cmd_name. rewrite (find_newest _ _ _ _ _ HI), outcome_bind_ret.
  pose proof (lookup_newest_spec (NameKey name) (name_entries L)) as HS. destruct (lookup_newest _ _) as [d|]; cbn [get_cmd_at].
  - destruct HS as (w & (p & [= -> ->] & Hin)%list_elem_of_fmap & Ew%bool_decide_eq_true). destruct p as [d c]. cbn in *.
    rewrite (Hc d c Hin). cbn. by exists (Some (d, c)).
  - exists None. split; [done|]. intros d c Hin E. cut (equal (NameKey (method_name c)) (NameKey name) = false).
    + cbn. rewrite E. by rewrite bool_decide_eq_true_2.
    + apply (HS d). apply list_elem_of_fmap. by exists (d, c).
Qed.

Lemma find_id_ok b L addrs id :
  0 < id -> loaded b L addrs -> exists o, get_rpc_pb_cmd_id id b = Done o /\
    match o with Some (d, c) => (d, c) ∈ L /\ cmd_id c = id | None => forall d c, (d, c) ∈ L -> cmd_id c <> id end.
Proof.
  intros Hid [_ (free & num & sk & HI & _) Hc]. unfold get_rpc_pb_cmd_id. rewrite (find_newest _ _ _ _ _ HI), outcome_bind_ret.
  pose proof (lookup_newest_spec (IdKey id) (id_entries L)) as HS. destruct (lookup_newest _ _) as [d|]; cbn [get_cmd_at].
  - destruct HS as (w & (p & [= -> ->] & [_ Hin]%list_elem_of_filter)%list_elem_of_fmap & Ew%Z.eqb_eq). destruct p as [d c]. cbn in *.
    rewrite (Hc d c Hin). cbn. by exists (Some (d, c)).
  - exists None. split; [done|]. intros d c Hin E. cut (equal (IdKey (cmd_id c)) (IdKey id) = false).
    + cbn. by rewrite E, Z.eqb_refl.
    + apply (HS d). apply list_elem_of_fmap. exists (d, c). split; [done|]. apply list_elem_of_filter. split; [cbn; lia|done].
Qed.

(** A call changes the pools of its command only. *)
Lemma loaded_update d c c' b L addrs :
  loaded b L addrs -> (d, c) ∈ L -> method_name c' = method_name c -> cmd_id c' = cmd_id c ->
  loaded (ServerBase (<[d := c']> (cmds b)) (cmd_maps b) (cmd_id_maps b)) ((fun p => if decide (p.1 = d) then (d, c') else p) <$> L) addrs.
Proof.
  intros [Hn Hi Hc] Hin Em Ei.
  assert (HL : Forall (fun p => p.1 = d -> method_name p.2 = method_name c' /\ cmd_id p.2 = cmd_id c') L).
  { apply Forall_forall. intros [e x] Hx E. cbn in E |- *. subst e. pose proof (Hc d x Hx) as E1. rewrite (Hc d c Hin) in E1. by injection E1 as <-. }
  assert (HE : name_entries ((fun p => if decide (p.1 = d) then (d, c') else p) <$> L) = name_entries L /\
    id_entries ((fun p => if decide (p.1 = d) then (d, c') else p) <$> L) = id_entries L).
  { clear Hn Hi Hc Hin. induction HL as [|[e x] L Hx HL [IH1 IH2]]; [done|]. unfold name_entries, id_entries in *. cbn [fst snd] in Hx. rewrite !fmap_cons, IH1.
    cbn [fst snd]. destruct (decide (e = d)) as [->|]; (split; [cbn; try done|]); [by destruct (Hx eq_refl) as [-> _]|..]; cbn [fst snd].
    - destruct (Hx eq_refl) as [_ E]. destruct (decide (0 < cmd_id c')).
      + rewrite !filter_cons_True by (cbn; by rewrite ?E). rewrite !fmap_cons, IH2. cbn. by rewrite E.
      + rewrite !filter_cons_False by (cbn; by rewrite ?E). done.
    - destruct (decide (0 < cmd_id x)); [rewrite !filter_cons_True by done; by rewrite !fmap_cons, IH2|by rewrite !filter_cons_False by done]. }
  destruct HE as [E1 E2]. split; cbn [cmds cmd_maps cmd_id_maps]; [by rewrite E1, length_fmap|by rewrite E2|].
  intros e x ([e' x'] & E & Hx)%list_elem_of_fmap. cbn [fst] in E. destruct (decide (e' = d)) as [->|Hne]; injection E as -> ->; [by rewrite lookup_insert_eq|].
  rewrite lookup_insert_ne by done. by apply Hc.
Qed.

Implicit Types (rs : list (list Z * @rpc_pb_cmd_t K Msg O)) (g : option (gmap (list Z) (gmap (list Z) (@rpc_pb_cmd_t K Msg O)))).

(** The registrations of a program, in the order of its static initialisers. *)
Fixpoint register_all rs g : outcome (option (gmap (list Z) (gmap (list Z) rpc_pb_cmd_t))) :=
  match rs with
  | [] => Done g
  | r :: rs => x ← registry_rpc_pb_cmd r.1 r.2 g; register_all rs x.2
  end.

Definition registered_as server name (r : list Z * @rpc_pb_cmd_t K Msg O) : Prop := r.1 = server /\ method_name r.2 = name.
#[local] Instance registered_as_dec server name r : Decision (registered_as server name r).
Proof. unfold registered_as. apply _. Defined.

(** The command that was registered under the two names, which are its key. *)
Definition first_registered server name rs : option (@rpc_pb_cmd_t K Msg O) := snd <$> head (filter (registered_as server name) rs).
Definition key (r : list Z * @rpc_pb_cmd_t K Msg O) : list Z * list Z := (r.1, method_name r.2).

Definition server_cmds server g : gmap (list Z) (@rpc_pb_cmd_t K Msg O) := default ∅ (default ∅ g !! server).

Lemma server_cmds_insert server s m maps :
  server_cmds server (Some (<[s := m]> maps)) = if decide (s = server) then m else server_cmds server (Some maps).
Proof.
  unfold server_cmds. change (default ∅ (Some (<[s := m]> maps))) with (<[s := m]> maps). change (default ∅ (Some maps)) with maps.
  destruct (decide (s = server)) as [->|]; [by rewrite lookup_insert_eq|by rewrite lookup_insert_ne].
Qed.

Lemma register_one r g :
  if decide (is_Some (server_cmds r.1 g !! method_name r.2)) then registry_rpc_pb_cmd r.1 r.2 g = Fault
  else exists maps, registry_rpc_pb_cmd r.1 r.2 g = Done (1, Some maps) /\ is_Some (maps !! r.1) /\
    (forall server, is_Some (default ∅ g !! server) -> is_Some (maps !! server)) /\
    forall server name, server_cmds server (Some maps) !! name = if decide (registered_as server name r) then Some r.2 else server_cmds server g !! name.
Proof.
  destruct r as [s c]. unfold registry_rpc_pb_cmd, global_registry_cmd, registered_as. cbn [fst snd].
  replace (server_cmds s g) with (server_cmds s (Some (default ∅ g))) by by destruct g.
  set (maps := default ∅ g). change (default ∅ (maps !! s)) with (server_cmds s (Some maps)).
  case_decide as Hd; [by rewrite bool_decide_eq_true_2|]. rewrite bool_decide_eq_false_2, outcome_bind_ret by done. cbn [snd].
  eexists. split; [done|]. split; [by rewrite lookup_insert_eq|]. split.
  - intros server Hs. rewrite lookup_insert_is_Some. destruct (decide (s = server)); [by left|by right].
  - intros server name. replace (server_cmds server g) with (server_cmds server (Some maps)) by (unfold maps; by destruct g).
    rewrite server_cmds_insert. destruct (decide (s = server)) as [->|Hs]; [|by rewrite decide_False by naive_solver].
    destruct (decide (method_name c = name)) as [<-|Hn]; [by rewrite lookup_insert_eq, decide_True|].
    rewrite lookup_insert_ne by done. by rewrite decide_False by naive_solver.
Qed.

(** Registration returns unless a name is taken, or comes twice, and aborts then. *)
Lemma register_all_ok rs : forall g,
  match register_all rs g with
  | Done g' => NoDup (key <$> rs) /\ (forall r, r ∈ rs -> server_cmds r.1 g !! method_name r.2 = None) /\
      (forall server, (server ∈ rs.*1) \/ is_Some (default ∅ g !! server) -> is_Some (default ∅ g' !! server)) /\
      forall server name, server_cmds server g' !! name =
        match first_registered server name rs with Some c => Some c | None => server_cmds server g !! name end
  | Fault => ~ (NoDup (key <$> rs) /\ forall r, r ∈ rs -> server_cmds r.1 g !! method_name r.2 = None)
  | NoFuel => False
  end.
Proof.
  induction rs as [|r rs IH]; intros g; cbn [register_all].
  { split; [constructor|]. split; [by intros r ?%elem_of_nil|]. split; [|done]. by intros server [?%elem_of_nil|]. }
  pose proof (register_one r g) as H1. case_decide as Hd.
  { rewrite H1. cbn [mbind outcome_bind]. intros [_ Hn]. destruct Hd as [c Hc]. by rewrite (Hn r ltac:(left)) in Hc. }
  destruct H1 as (maps & -> & Hr & Hk & Hl). rewrite outcome_bind_ret. cbn [snd]. specialize (IH (Some maps)).
  assert (Hkey : forall r', r' ∈ rs -> server_cmds r'.1 (Some maps) !! method_name r'.2 = None <->
    key r' <> key r /\ server_cmds r'.1 g !! method_name r'.2 = None).
  { intros r' _. rewrite Hl. unfold registered_as, key. case_decide as He; [|].
    - destruct He as [-> ->]. split; [done|]. by intros [? _].
    - split; [|by intros [_ ?]]. intros ->. split; [|done]. intros [= E1 E2]. by apply He. }
  assert (Hin : key r ∈ key <$> rs <-> exists r', r' ∈ rs /\ key r' = key r).
  { rewrite list_elem_of_fmap. split; intros (r' & ? & ?); by exists r'. }
  assert (Hnone : server_cmds r.1 g !! method_name r.2 = None) by by apply eq_None_not_Some.
  destruct (register_all rs (Some maps)) as [g'| |]; [| |done].
  - destruct IH as (Hnd & Hfree & Hs & Hlook). rewrite fmap_cons. split; [|split; [|split]].
    + constructor; [|done]. rewrite Hin. intros (r' & Hr' & Ek). by destruct (proj1 (Hkey r' Hr') (Hfree r' Hr')).
    + intros r' [->|Hr']%elem_of_cons; [done|]. by apply (Hkey r' Hr'), Hfree.
    + intros server [Hin'|Hin']; [|apply Hs; right; by apply Hk]. apply Hs. apply elem_of_cons in Hin' as [->|]; [by right|by left].
    + intros server name. rewrite Hlook, Hl. unfold first_registered. rewrite filter_cons.
      destruct (decide (registered_as server name r)) as [He|He]; [|done]. cbn [head fmap option_fmap option_map].
      destruct (filter (registered_as server name) rs) as [|r' l] eqn:Ef; [done|]. exfalso.
      assert (Hr' : r' ∈ filter (registered_as server name) rs) by (rewrite Ef; left). apply list_elem_of_filter in Hr' as [[E1 E2] Hr'].
      destruct (proj1 (Hkey r' Hr') (Hfree r' Hr')) as [Hne _]. apply Hne. destruct He as [E3 E4]. unfold key. congruence.
  - intros [Hnd Hfree]. apply IH. rewrite fmap_cons in Hnd. apply NoDup_cons in Hnd as [Hni Hnd]. split; [done|]. intros r' Hr'.
    apply (Hkey r' Hr'). split; [|by apply Hfree; right]. intros Ek. apply Hni, Hin. by exists r'.
Qed.

Lemma first_registered_name server name rs c : first_registered server name rs = Some c -> method_name c = name /\ server ∈ rs.*1.
Proof.
  unfold first_registered. destruct (filter _ rs) as [|r l] eqn:E; [done|]. intros [= <-].
  assert (Hr : r ∈ filter (registered_as server name) rs) by (rewrite E; left). apply list_elem_of_filter in Hr as [[Hs Hn] Hr].
  split; [done|]. rewrite <-Hs. by apply list_elem_of_fmap_2.
Qed.

(** C21: a program whose commands have different names, two of different servers
    apart, registers them all; get_global_server_cmd of a server then returns the
    number of its commands; a lookup by name gives the clone of the command that was
    registered under that name, a lookup by a number one of those with that number, and
    a lookup of anything else NULL.  A program that registers a name twice for a server
    aborts. *)
Theorem commands_found iter rs server addrs b :
  (forall m, iter m ≡ₚ (map_to_list m).*2) -> server ∈ rs.*1 -> (length rs <= length addrs)%nat -> Z.of_nat (length rs) < 2 ^ 31 ->
  loaded b [] addrs ->
  if decide (NoDup (key <$> rs)) then
    exists g n b', register_all rs None = Done g /\ get_global_server_cmd msg_new iter server g addrs b = Done (n, b') /\
      n = Z.of_nat (length (filter (fun r => r.1 = server) rs)) /\
      (forall name, exists o, get_rpc_pb_cmd_name name b' = Done o /\ snd <$> o = clone msg_new <$> first_registered server name rs) /\
      (forall id, 0 < id -> exists o, get_rpc_pb_cmd_id id b' = Done o /\
         match o with
         | Some (_, c) => exists name c0, first_registered server name rs = Some c0 /\ c = clone msg_new c0 /\ cmd_id c0 = id
         | None => forall name c0, first_registered server name rs = Some c0 -> cmd_id c0 <> id
         end)
  else register_all rs None = Fault.
Proof.
  intros Hiter Hserver Hlen Hsmall HL. pose proof (register_all_ok rs None) as HR.
  assert (Hempty : forall s name, server_cmds s None !! name = (None : option (@rpc_pb_cmd_t K Msg O))) by done.
  case_decide as Hnames.
  2: { destruct (register_all rs None) as [g| |]; [by destruct HR|done|done]. }
  destruct (register_all rs None) as [g| |]; [|by destruct HR|done].
  destruct HR as (_ & _ & Hmaps & Hlook). destruct (Hmaps server (or_introl Hserver)) as [m Em].
  destruct g as [maps|]; [|done]. change (default ∅ (Some maps)) with maps in Em. pose proof Hserver as Hserver0.
  assert (Hm : forall name, m !! name = first_registered server name rs).
  { intros name. specialize (Hlook server name). unfold server_cmds in Hlook at 1.
    change (default ∅ (Some maps)) with maps in Hlook. rewrite Em in Hlook. change (default ∅ (Some m)) with m in Hlook. rewrite Hlook.
    by destruct (first_registered server name rs). }
  assert (Hdom : dom m = list_to_set (method_name ∘ snd <$> filter (fun r => r.1 = server) rs)).
  { apply set_eq. intros name. rewrite elem_of_dom, Hm, elem_of_list_to_set, list_elem_of_fmap. unfold first_registered. split.
    - intros [c E]. destruct (filter _ rs) as [|r l] eqn:Ef; [done|]. assert (Hr : r ∈ filter (registered_as server name) rs) by (rewrite Ef; left).
      apply list_elem_of_filter in Hr as [[Hs Hn] Hr]. exists r. split; [done|]. by apply list_elem_of_filter.
    - intros (r & -> & [Hs Hr]%list_elem_of_filter). assert (Hin : r ∈ filter (registered_as server (method_name r.2)) rs) by by apply list_elem_of_filter.
      cbn in *. destruct (filter _ rs); [by apply elem_of_nil in Hin|by eexists]. }
  assert (Hsz : base.size m = length (filter (fun r => r.1 = server) rs)).
  { rewrite <-size_dom, Hdom, size_list_to_set, length_fmap; [done|]. clear -Hnames. induction rs as [|r rs IH]; [constructor|].
    rewrite fmap_cons in Hnames. apply NoDup_cons in Hnames as [Hni Hnd]. rewrite filter_cons. case_decide as Hr; [|by apply IH].
    rewrite fmap_cons. constructor; [|by apply IH]. intros (r' & E & [Hr' Hin]%list_elem_of_filter)%list_elem_of_fmap. apply Hni.
    apply list_elem_of_fmap. exists r'. split; [|done]. unfold key. cbn in E. congruence. }
  assert (Hszl : (base.size m <= length rs)%nat) by (rewrite Hsz; apply length_filter).
  assert (Hcl : length (iter m) = base.size m) by (rewrite (Hiter m), length_fmap; apply length_map_to_list).
  assert (Hcs : forall c, c ∈ iter m <-> exists name, first_registered server name rs = Some c).
  { intros c. rewrite (Hiter m), list_elem_of_fmap. setoid_rewrite <-Hm. split.
    - intros ([name c'] & -> & Hin%elem_of_map_to_list). by exists name.
    - intros [name E]. exists (name, c). split; [done|]. by apply elem_of_map_to_list. }
  destruct (add_cmds_ok (iter m) addrs b [] ltac:(cbn [length]; lia) ltac:(lia) HL) as (b' & L & E & HL' & HLc). rewrite app_nil_r in HL'.
  assert (HLin : forall d c, (d, c) ∈ L -> exists c0, c = clone msg_new c0 /\ c0 ∈ iter m).
  { intros d c Hin. assert (Hc : c ∈ L.*2) by (apply list_elem_of_fmap; by exists (d, c)). rewrite HLc, elem_of_reverse in Hc.
    apply list_elem_of_fmap in Hc as (c0 & -> & ?). by exists c0. }
  assert (HLall : forall c0, c0 ∈ iter m -> exists d, (d, clone msg_new c0) ∈ L).
  { intros c0 Hin. assert (Hc : clone msg_new c0 ∈ L.*2) by (rewrite HLc, elem_of_reverse; by apply list_elem_of_fmap_2).
    apply list_elem_of_fmap in Hc as ([d c] & Ec & ?). change (clone msg_new c0 = c) in Ec. exists d. by rewrite Ec. }
  assert (HLl : length L = base.size m) by (rewrite <-(length_fmap snd L), HLc, length_reverse, length_fmap; done).
  exists (Some maps), (Z.of_nat (base.size m)), b'. split; [done|]. split; [|split; [by rewrite Hsz|split]].
  - unfold get_global_server_cmd. rewrite Em, E, outcome_bind_ret. f_equal. f_equal. unfold HashTable.size.
    destruct (ld_names _ _ _ HL') as (free & (_ & _ & ->) & _). cbn [counter]. rewrite HLl. apply wrap_s_id; [lia|unfold in_s; lia].
  - intros name. destruct (find_name_ok b' L _ name HL') as (o & Eo & Ho). exists o. split; [done|]. destruct o as [[d c]|]; cbn [fmap option_fmap option_map snd].
    + destruct Ho as [Hin Hn]. destruct (HLin d c Hin) as (c0 & -> & [name' Hc]%Hcs). destruct (first_registered_name _ _ _ _ Hc) as [Hn' _].
      change (method_name c0 = name) in Hn. rewrite <-Hn, Hn', Hc. done.
    + destruct (first_registered server name rs) as [c0|] eqn:Ef; [|done]. destruct (HLall c0) as (d & Hin); [apply Hcs; by exists name|].
      by destruct (Ho d _ Hin); apply (first_registered_name _ _ _ _ Ef).
  - intros id Hid. destruct (find_id_ok b' L _ id Hid HL') as (o & Eo & Ho). exists o. split; [done|]. destruct o as [[d c]|].
    + destruct Ho as [Hin Hn]. destruct (HLin d c Hin) as (c0 & -> & [name' Hc]%Hcs). by exists name', c0.
    + intros name c0 Ef. destruct (HLall c0) as (d & Hin); [apply Hcs; by exists name|]. exact (Ho d _ Hin).
Qed.

End loading.

(** A new server over the memory of the nodes at [addrs]. *)
Lemma new_server_base_loaded {D K Msg O : Type} `{Countable D} (names : list (D * name_key)) (ids : list (D * id_key)) garbage :
  names.*1 = ids.*1 -> NoDup names.*1 ->
  exists b, new_server_base garbage (ServerBase ∅ (fresh_nodes names) (fresh_nodes ids)) = Done b /\ @loaded D K Msg O _ _ b [] names.*1.
Proof.
  intros E Hnd. destruct (fresh_table 1000 garbage names) as (t1 & E1 & HR1 & Hn1 & _ & Hv1); [lia|done|].
  destruct (fresh_table 1000 garbage ids) as (t2 & E2 & HR2 & Hn2 & _ & Hv2); [lia|by rewrite <-E|].
  apply outcome_bind_Done in E1 as (u1 & Eu1 & E1). apply outcome_bind_Done in E2 as (u2 & Eu2 & E2).
  unfold new_server_base. cbn [cmd_maps cmd_id_maps cmds]. rewrite Eu1, outcome_bind_ret, E1, outcome_bind_ret, Eu2, outcome_bind_ret, E2, outcome_bind_ret.
  clear E1 E2 Eu1 Eu2. eexists. split; [reflexivity|]. split; cbn [cmds cmd_maps cmd_id_maps].
  - exists names. split; [|done]. split_and!; [done| |done]. intros k v Hk. rewrite Hv1. by apply elem_of_list_to_map_1.
  - exists ids, 0, []. split; [|by rewrite E]. split_and!; [done| |done]. intros k v Hk. rewrite Hv2. apply elem_of_list_to_map_1; [by rewrite <-E|done].
  - intros d c Hin. by apply elem_of_nil in Hin.
Qed.

(** ** What callbacks see *)
Section calls.
Context {K Msg O : Type}.
Context (parse_msg : list Z -> option Msg) (msg_new : Msg -> Msg).
Implicit Types (c : @rpc_pb_cmd_t K Msg O) (k : K).

(** A command of a class has a manager that makes an object for each call, and
    registration leaves its [arg] NULL.  The server runs a clone, and clone does not
    copy the manager: the method is called on the NULL of [arg]. *)
Theorem clone_drops_obj_mgr c ctx req rsp err k :
  arg c = None -> call_proc (clone msg_new c) ctx req rsp err k = proc c None ctx req rsp err k.
Proof. intros Ha. unfold call_proc. cbn. by rewrite Ha. Qed.

(** The message that a response was sent from goes back to the pool as it is.  The
    next call of the command gives it to the callback, which sees what the previous
    call has put into it. *)
Theorem response_reused log mem c ctx req err k ret m err1 ctx1 c1 k1 :
  rpc_pb_call_cb parse_msg msg_new log mem c ctx req err k = Done (ret, Some m, err1, ctx1, c1, k1) ->
  forall mem2 ctx2 req2 err2 k2 l r,
    req_msg c1 <> None -> ref_bytes mem2 req2 = Done l -> parse_msg l = Some r ->
    rpc_pb_call_cb parse_msg msg_new false mem2 (set_pools (req_pool c1) (pool_release m (rsp_pool c1)) c1) ctx2 req2 err2 k2 =
      (let '(ret, ctx, rsp, err, k) := call_proc c1 ctx2 (Some r) (Some m) err2 k2 in
       Done (ret, Some (default m rsp), err, ctx,
         set_pools (pool_release r (pool_alloc (msg_new (default r (req_msg c1))) (req_pool c1)).2) (rsp_pool c1) c1, k)).
Proof.
  intros E mem2 ctx2 req2 err2 k2 l r Hreq Hl Hr.
  assert (Hc1 : is_Some (rsp_msg c1)).
  { revert E. unfold rpc_pb_call_cb. destruct (req_msg c) as [proto|] eqn:Eq.
    - destruct (pool_alloc (msg_new proto) (req_pool c)) as [q pool]. destruct (ref_bytes mem req) as [b| |]; [|done..]. rewrite outcome_bind_ret.
      destruct (parse_msg b) as [r1|]; rewrite outcome_bind_ret; [|done]. cbn [rsp_msg set_pools rsp_pool req_pool]. destruct (rsp_msg c) as [p|] eqn:Ep.
      + destruct (pool_alloc (msg_new p) _) as [r0 p0]. destruct (call_proc _ _ _ _ _ _) as [[[[? ?] ?] ?] ?]. destruct (_ && _); [done|].
        intros [= <- _ _ _ <- _]. cbn. by rewrite Ep.
      + destruct (call_proc _ _ _ _ _ _) as [[[[? ?] ?] ?] ?]. by destruct (_ && _).
    - rewrite outcome_bind_ret. destruct (rsp_msg c) as [p|] eqn:Ep.
      + destruct (pool_alloc (msg_new p) _) as [r0 p0]. destruct (call_proc _ _ _ _ _ _) as [[[[? ?] ?] ?] ?]. destruct (_ && _); [done|].
        intros [= <- _ _ _ <- _]. cbn. by rewrite Ep.
      + destruct (call_proc _ _ _ _ _ _) as [[[[? ?] ?] ?] ?]. by destruct (_ && _). }
  clear E. destruct Hc1 as [p Ep]. destruct c1 as [pr ar nm id rq rp rqp rpp om]. cbn in *. subst rp. destruct rq as [proto|]; [|done].
  unfold rpc_pb_call_cb. cbn. rewrite Hl. destruct rqp as [|q rqp]; cbn; rewrite Hr; cbn; unfold call_proc; cbn.
  - destruct om as [mgr|]; [destruct (obj_alloc mgr k2) as [o k3]; destruct (pr (Some o) _ _ _ _ _) as [[[[? ?] ?] ?] ?]|destruct (pr ar _ _ _ _ _) as [[[[? ?] ?] ?] ?]]; cbn; by rewrite !andb_false_r.
  - destruct om as [mgr|]; [destruct (obj_alloc mgr k2) as [o k3]; destruct (pr (Some o) _ _ _ _ _) as [[[[? ?] ?] ?] ?]|destruct (pr ar _ _ _ _ _) as [[[[? ?] ?] ?] ?]]; cbn; by rewrite !andb_false_r.
Qed.

(** A command without a request or a response message that fails dereferences
    NULL when its failure is logged, as it is by default. *)
Theorem failed_void_command_faults mem c ctx req err k :
  req_msg c = None -> (forall rsp, (call_proc c ctx None rsp err k).1.1.1.1 <> 0) ->
  rpc_pb_call_cb parse_msg msg_new true mem c ctx req err k = Fault.
Proof.
  intros Hq Hret.
  assert (Hpool : forall pool rsp, call_proc (set_pools (req_pool c) pool c) ctx None rsp err k = call_proc c ctx None rsp err k) by done.
  unfold rpc_pb_call_cb. rewrite Hq, outcome_bind_ret. destruct (rsp_msg c) as [p|].
  - destruct (pool_alloc (msg_new p) (rsp_pool c)) as [r pool]. rewrite Hpool. specialize (Hret (Some r)). destruct (call_proc _ _ _ _ _ _) as [[[[ret ?] ?] ?] ?].
    cbn in Hret. by rewrite (proj2 (Z.eqb_neq _ _) Hret).
  - rewrite Hpool. specialize (Hret None). destruct (call_proc _ _ _ _ _ _) as [[[[ret ?] ?] ?] ?]. cbn in Hret. by rewrite (proj2 (Z.eqb_neq _ _) Hret).
Qed.
End calls.

(** ** A server with two commands *)

(** A message is its bytes; [echo] returns what it is given, and nothing new for an
    empty request; [fail] has no messages and returns 7. *)
Definition echo_proc : @rpc_pb_callback unit (list Z) Z :=
  fun _ ctx req rsp err k => (0, ctx, match req with Some [] => rsp | _ => req end, err, k).
Definition fail_proc : @rpc_pb_callback unit (list Z) Z := fun _ ctx _ rsp err k => (7, ctx, rsp, err, k).
Definition echo_cmd (name : list Z) (id : Z) : rpc_pb_cmd_t := Cmd echo_proc None name id (Some []) (Some []) [] [] None.
Definition fail_cmd (name : list Z) : rpc_pb_cmd_t := Cmd fail_proc None name 0 None None [] [] None.

Definition main_server : list Z := [109].
Definition registrations : list (list Z * @rpc_pb_cmd_t unit (list Z) Z) :=
  [(main_server, echo_cmd [1] 5); (main_server, fail_cmd [2]); ([120], echo_cmd [1] 6); (main_server, echo_cmd [3] 9)].

Definition name_nodes : list (nat * name_key) := (fun d => (d, NameKey [])) <$> [1; 2; 3; 4; 5]%nat.
Definition id_nodes : list (nat * id_key) := (fun d => (d, IdKey 0)) <$> [1; 2; 3; 4; 5]%nat.

Definition walk (m : gmap (list Z) (@rpc_pb_cmd_t unit (list Z) Z)) : list rpc_pb_cmd_t := (map_to_list m).*2.

Lemma commands_found_witness :
  (exists b g b' c, new_server_base (fun _ => None) (ServerBase ∅ (fresh_nodes name_nodes) (fresh_nodes id_nodes)) = Done b /\
    register_all registrations None = Done g /\
    get_global_server_cmd (fun _ => []) walk main_server g [1; 2; 3; 4; 5]%nat b = Done (3, b') /\
    get_rpc_pb_cmd_name [3] b' = Done (Some c) /\ cmd_id c.2 = 9) /\
  register_all ((main_server, echo_cmd [2] 7) :: registrations) None = Fault.
Proof.
  destruct (new_server_base_loaded (K := unit) (Msg := list Z) (O := Z) name_nodes id_nodes (fun _ => None)) as (b & Eb & HL);
    [done|apply (bool_decide_unpack _); reflexivity|].
  split.
  - pose proof (commands_found (fun _ => []) walk registrations main_server [1; 2; 3; 4; 5]%nat b) as H.
    specialize (H ltac:(done) ltac:(by left) ltac:(cbn; lia) ltac:(done) HL).
    destruct (decide _) as [Hd|Hd] in H; [|destruct Hd; apply (bool_decide_eq_true_1 (NoDup (key <$> registrations))); reflexivity].
    destruct H as (g & n & b' & Eg & E & Hn & Hname & _).
    destruct (Hname [3]) as (o & Eo & Ho). destruct o as [c|]; [|discriminate Ho]. exists b, g, b', c. split; [exact Eb|]. split; [exact Eg|].
    assert (En : n = 3) by (rewrite Hn; reflexivity). rewrite En in E. split; [exact E|]. split; [exact Eo|].
    cbn in Ho. by injection Ho as ->.
  - pose proof (commands_found (fun _ => []) walk ((main_server, echo_cmd [2] 7) :: registrations) main_server [1; 2; 3; 4; 5]%nat b) as H.
    specialize (H ltac:(done) ltac:(by left) ltac:(cbn; lia) ltac:(done) HL).
    destruct (decide _) as [Hd|Hd] in H; [|exact H]. apply (bool_decide_eq_true_2 (NoDup (key <$> ((main_server, echo_cmd [2] 7) :: registrations)))) in Hd. discriminate Hd.
Defined.

Lemma clone_drops_obj_mgr_witness :
  let ctx := Ctx 0 CmdBase.init in
  call_proc (clone (fun _ => []) (Cmd echo_proc None [1] 5 (Some []) (Some []) [] [] (Some (ObjMgr (fun k => (3, k)) (fun _ k => k))))) ctx (Some [8]) None [] () =
    (0, ctx, Some [8], [], ()).
Proof. intros ctx. by rewrite (clone_drops_obj_mgr (fun _ => []) (Cmd echo_proc None [1] 5 (Some []) (Some []) [] [] (Some (ObjMgr (fun k => (3, k)) (fun _ k => k))))). Defined.

(** The answer to the empty request is the previous caller's. *)
Lemma response_reused_witness :
  let ctx := Ctx 0 CmdBase.init in
  exists c1, rpc_pb_call_cb Some (fun _ => []) true [42; 43] (echo_cmd [1] 5) ctx (CmdBase.RefStr 2 (Some 0)) [] () = Done (0, Some [42; 43], [], ctx, c1, ()) /\
    exists c2, rpc_pb_call_cb Some (fun _ => []) false [] (set_pools (req_pool c1) (pool_release [42; 43] (rsp_pool c1)) c1) ctx (CmdBase.RefStr 0 None) [] () =
      Done (0, Some [42; 43], [], ctx, c2, ()).
Proof.
  intros ctx. eexists. split; [reflexivity|]. eexists. etrans.
  - eapply (response_reused Some (fun _ => []) true [42; 43] (echo_cmd [1] 5) ctx (CmdBase.RefStr 2 (Some 0)) [] () 0 [42; 43] [] ctx _ ()); [reflexivity|discriminate|reflexivity|reflexivity].
  - reflexivity.
Defined.

Lemma failed_void_command_faults_witness :
  rpc_pb_call_cb Some (fun _ => []) true [] (fail_cmd [2]) (Ctx 0 CmdBase.init) (CmdBase.RefStr 0 None) [] () = Fault.
Proof. apply (failed_void_command_faults Some (fun _ => []) [] (fail_cmd [2])); done. Defined.
