(* ===== verification/RpcServer.v ===== *)
(** * svrkit/src/rpc_pb_server.cpp, rpc_pb_client.cpp: calls over a connection

    [proc_tcp_rpc_pb] serves a connection: it waits, reads a packet into a stream of
    the pool, looks the command up, runs it and sends the response.  A client's
    [rpc_pb_call] sends a request and reads the response.  The theorem is about both
    ends: the bytes that the client sends make the server run the named command on the
    client's body, and the bytes that the server sends give the client that command's
    result.  The sockets and the callbacks act on one world per end. *)
From Stdlib Require Import String Ascii.
From stdpp Require Import list gmap.
From S2P Require Import Prelude Words Memory StrNum HashTable Pbc RpcBase CmdBase PacketStream.

(** The bytes of a literal. *)
Fixpoint text (s : string) : list Z :=
  match s with EmptyString => [] | String a s => Z.of_nat (nat_of_ascii a) :: text s end.

Definition REQUEST_TYPE : Z := 1.
Definition RESPONSE_TYPE : Z := 2.
Definition ERR_UNSUPPORED_CMD : Z := 1.

Definition set_type (t : Z) (c : cmd_base_t) : cmd_base_t := CmdBase t (cmd_name c) (cmd_id c) (seq_id c) (body c) (ret c) (errmsg c).
Definition set_seq (n : Z) (c : cmd_base_t) : cmd_base_t := CmdBase (type c) (cmd_name c) (cmd_id c) n (body c) (ret c) (errmsg c).
Definition set_ret (n : Z) (c : cmd_base_t) : cmd_base_t := CmdBase (type c) (cmd_name c) (cmd_id c) (seq_id c) (body c) n (errmsg c).
Definition set_errmsg (s : ref_str_t) (c : cmd_base_t) : cmd_base_t := CmdBase (type c) (cmd_name c) (cmd_id c) (seq_id c) (body c) (ret c) s.

Section ends.
Context {K : Type}.
Context (recv : Z -> Z -> K -> Z * list Z * K) (send : Z -> list Z -> K -> Z * K) (poll : Z -> Z -> K -> Z * Z * K) (errno : K -> Z)
  (get_tick_ms : K -> Z * K).
Implicit Types (k : K) (s : packet_stream).

(** send_cmd_base with its timeout. *)
Definition send_packet (mem : list Z) s (timeout : Z) (c : cmd_base_t) (msg : option (list Z)) k : outcome (Z * packet_stream * K) :=
  let s := init s in
  r ← send_cmd_base mem (fun l k => send_data_timeout send poll errno get_tick_ms l timeout k) (buff s) (max_size s) c msg k;
  let '(ret, b, k) := r in Done (ret, set_buff b s, k).

(** ** The server *)
Section server.
Context {D Msg Obj : Type} `{Countable D}.
Context (parse_msg : list Z -> option Msg) (msg_new : Msg -> Msg) (msg_bytes : Msg -> list Z).

(** co_poll of the connection, the flag to_stop of the tcp_server, the http server's
    conn_proc, and what memalign returns. *)
Context (co_poll : Z -> Z -> K -> Z * Z * K) (to_stop : K -> bool) (http_conn_proc : option (packet_stream -> K -> packet_stream * K)) (fresh_buff : list Z).

(** rpc_pb_server_t; the parts that a connection uses. *)
Record rpc_pb_server_t := Server {
  max_packet_size : Z; stream_pool : list packet_stream; base_server : @rpc_pb_server_base_t D K Msg Obj _ _ }.
Implicit Types sv : rpc_pb_server_t.

Definition set_pool pool sv : rpc_pb_server_t := Server (max_packet_size sv) pool (base_server sv).
Definition set_cmd (d : D) c sv : rpc_pb_server_t :=
  let b := base_server sv in Server (max_packet_size sv) (stream_pool sv) (ServerBase (<[d := c]> (cmds b)) (cmd_maps b) (cmd_id_maps b)).

Definition alloc_stream sv : packet_stream * rpc_pb_server_t :=
  let '(s, pool) := pool_alloc (new_stream (max_packet_size sv) fresh_buff) (stream_pool sv) in (s, set_pool pool sv).
Definition release_stream s sv : rpc_pb_server_t := set_pool (pool_release s (stream_pool sv)) sv.

Definition send_pb (mem : list Z) (c : cmd_base_t) (rsp : option (list Z)) sv k : outcome (Z * rpc_pb_server_t * K) :=
  let '(ps, sv) := alloc_stream sv in
  r ← send_packet mem ps 1000 c rsp k;
  let '(ret, ps, k) := r in Done (ret, release_stream ps sv, k).

(** The answer to a command that is not there: the error text lies behind [mem]. *)
Definition send_unsuppored (mem : list Z) (c : cmd_base_t) (errmsg : list Z) sv k : outcome (Z * rpc_pb_server_t * K) :=
  let c := set_errmsg (RefStr (Z.of_nat (length errmsg)) (Some (Z.of_nat (length mem)))) (set_ret ERR_UNSUPPORED_CMD c) in
  send_pb (mem ++ errmsg) c None sv k.

(** The command that a request names: an error text when there is none, and NULL
    when the request has neither a number nor a name. *)
Definition find_cmd (mem : list Z) (c : cmd_base_t) sv : outcome (list Z + option (D * @rpc_pb_cmd_t K Msg Obj)) :=
  if 0 <? cmd_id c then
    o ← get_rpc_pb_cmd_id (cmd_id c) (base_server sv);
    Done (match o with None => inl (text "unsuppored cmd_id:" ++ fmt_u64 (cmd_id c)) | Some _ => inr o end)
  else if 0 <? len (cmd_name c) then
    name ← ref_bytes mem (cmd_name c);
    o ← get_rpc_pb_cmd_name name (base_server sv);
    Done (match o with None => inl (text "unsuppored cmd:" ++ name) | Some _ => inr o end)
  else Done (inr None).

(** A request that was read into [mem]; the result says whether the loop goes on. *)
Definition proc_request (log : bool) (start : pb_field_t) (mem : list Z) (n : Z) sv k : outcome (bool * rpc_pb_server_t * K) :=
  r ← parse start mem n CmdBase.init;
  let '(ret, c) := r in
  if negb (ret =? 0) then Done (false, sv, k)
  else if negb (type c =? REQUEST_TYPE) then Done (false, sv, k)
  else
    cmd ← find_cmd mem c sv;
    match cmd with
    | inl errmsg => r ← send_unsuppored mem c errmsg sv k; Done (false, r.1.2, r.2)
    | inr cmd =>
        dc ← of_option cmd;
        r ← rpc_pb_call_cb parse_msg msg_new log mem dc.2 (Ctx 0 c) (body c) [] k;
        let '(retcode, rsp, errmsg, ctx, cmd, k) := r in
        let sv := set_cmd dc.1 cmd sv in
        let c := set_ret (u32 retcode) (set_type RESPONSE_TYPE CmdBase.init) in
        r ← send_pb [] c (msg_bytes <$> rsp) sv k;
        let '(ret, sv, k) := r in
        let sv := match rsp with Some m => set_cmd dc.1 (set_pools (req_pool cmd) (pool_release m (rsp_pool cmd)) cmd) sv | None => sv end in
        if ret <=? 0 then Done (false, sv, k) else Done (to_close ctx =? 0, sv, k)
    end.

Definition set_http s : packet_stream := PacketStream (max_size s) (buff s) (prev_pos s) (total_len s) true.

(** The body of the loop after the event: a packet, from reading to the response. *)
Definition serve_packet (log : bool) (start : pb_field_t) sv k : outcome (bool * rpc_pb_server_t * K) :=
  let '(s, sv) := alloc_stream sv in
  r ← read_packet_timeout recv poll errno get_tick_ms 100 1 (set_http (init s)) k;
  match r with
  | (ret, pack, s, k) =>
      if ret =? 0 then Done (false, release_stream s sv, k)
      else if ret <? 0 then
        if ret =? HTTP_PROTOCOL_DATA then
          match http_conn_proc with
          | Some conn_proc => let '(s, k) := conn_proc s k in Done (false, release_stream s sv, k)
          | None => Done (false, release_stream s sv, k)
          end
        else Done (false, release_stream s sv, k)
      else
        p ← of_option pack;
        if p.2 <=? 0 then Done (false, release_stream s sv, k)
        else
          r ← proc_request log start (drop (Z.to_nat p.1) (buff s)) p.2 sv k;
          let '(go, sv, k) := r in Done (go, release_stream s sv, k)
  end.

(** The loop of proc_tcp_rpc_pb; [fuel] bounds the number of its rounds. *)
Fixpoint proc_tcp_rpc_pb (fuel : nat) (log : bool) (start : pb_field_t) sv k : outcome (rpc_pb_server_t * K) :=
  if to_stop k then Done (sv, k)
  else
    match fuel with
    | O => NoFuel
    | S fuel =>
        let '(ret, revents, k) := co_poll (Z.lor POLLIN (Z.lor POLLERR POLLHUP)) 10000 k in
        if ret =? 0 then proc_tcp_rpc_pb fuel log start sv k
        else if ret <? 0 then if errno k =? 4 then proc_tcp_rpc_pb fuel log start sv k else Done (sv, k)
        else if negb (Z.land revents POLLERR =? 0) || negb (Z.land revents POLLHUP =? 0) then Done (sv, k)
        else
          r ← serve_packet log start sv k;
          let '(go, sv, k) := r in if (go : bool) then proc_tcp_rpc_pb fuel log start sv k else Done (sv, k)
    end.
End server.

(** ** The client *)

(** The pool of streams and the sequence number of the thread. *)
Record client := Client { ps_pool : list packet_stream; g_rpc_client_seq_id : Z }.
Implicit Types cl : client.
Context (client_buff : list Z).

Definition client_stream : packet_stream := new_stream 4096 client_buff.

(** The first half of rpc_pb_call_impl: the request. *)
Definition rpc_call_send (mem : list Z) (req_base : cmd_base_t) (req : option (list Z)) (timeout : Z) cl k : outcome (Z * client * K) :=
  let seq := u64 (g_rpc_client_seq_id cl + 1) in
  let c := set_seq seq (set_type REQUEST_TYPE req_base) in
  let '(s, pool) := pool_alloc client_stream (ps_pool cl) in
  r ← send_packet mem s timeout c req k;
  let '(ret, s, k) := r in Done (ret, Client (pool_release s pool) seq, k).

(** The results of a call: ret, *retcode, *errmsg and the body, as far as they are
    written. *)
Record call_result := Result { r_ret : Z; r_code : option Z; r_err : option (list Z); r_body : option (list Z) }.
Definition failed (e : Z) : call_result := Result e None None None.

(** What is read from the response. *)
Definition read_response (start : pb_field_t) (mem : list Z) (n : Z) : outcome call_result :=
  r ← parse start mem n CmdBase.init;
  let '(ret, c) := r in
  if negb (ret =? 0) then Done (failed (-6))
  else
    let retcode := i32 (CmdBase.ret c) in
    if negb (retcode =? 0) then
      if 0 <? len (errmsg c) then e ← ref_bytes mem (errmsg c); Done (Result 0 (Some retcode) (Some e) None)
      else Done (Result 0 (Some retcode) None None)
    else b ← ref_bytes mem (body c); Done (Result 0 (Some retcode) None (Some b)).

(** The second half: poll, and the response; the stream goes back to the pool. *)
Definition rpc_call_recv (start : pb_field_t) (timeout : Z) cl k : outcome (call_result * client * K) :=
  match wait_ready poll POLLIN timeout k with
  | (Some e, k) => Done (failed e, cl, k)
  | (None, k) =>
      let '(s, pool) := pool_alloc client_stream (ps_pool cl) in
      r ← read_packet_timeout recv poll errno get_tick_ms timeout 1 (init s) k;
      let '(ret, pack, s, k) := r in
      let cl := Client (pool_release s pool) (g_rpc_client_seq_id cl) in
      if ret <=? 0 then Done (failed (-5), cl, k)
      else p ← of_option pack; r ← read_response start (drop (Z.to_nat p.1) (buff s)) p.2; Done (r, cl, k)
  end.

(** The call up to the response: rpc_pb_call_impl. *)
Definition rpc_pb_call_impl (start : pb_field_t) (mem : list Z) (req_base : cmd_base_t) (req : option (list Z)) (timeout : Z) cl k
    : outcome (call_result * client * K) :=
  r ← rpc_call_send mem req_base req timeout cl k;
  let '(ret, cl, k) := r in
  if ret <=? 0 then Done (failed (-4), cl, k) else rpc_call_recv start timeout cl k.

(** rpc_pb_call over a descriptor: the result of the function, the call's result and
    *a_rsp.  The local ref_str_t [rsp] is not initialised: [junk] are the bytes that
    it denotes, if rpc_pb_call_impl does not write it; [want] says that a_rsp is not
    NULL. *)
Definition rpc_pb_call {M} (parse_rsp : list Z -> option M) (want : bool) (junk : outcome (list Z)) (fd : Z) (start : pb_field_t) (mem : list Z)
    (req_base : cmd_base_t) (req : option (list Z)) (timeout : Z) cl k : outcome (Z * call_result * option M * client * K) :=
  if fd <? 0 then Done (-3, failed (-3), None, cl, k)
  else
    r ← rpc_pb_call_impl start mem req_base req timeout cl k;
    let '(res, cl, k) := r in
    if negb (r_ret res =? 0) then Done (r_ret res, res, None, cl, k)
    else if want then
      l ← match r_body res with Some l => Done l | None => junk end;
      match l with
      | [] => Done (0, res, None, cl, k)
      | _ => match parse_rsp l with None => Done (-7, res, None, cl, k) | Some m => Done (0, res, Some m, cl, k) end
      end
    else Done (0, res, None, cl, k).
End ends.

(** ** Bytes behind pointers *)

Lemma ref_bytes_is mem s l : str_is mem s l -> ref_bytes mem s = Done l.
Proof.
  intros [Hlen Hl]. unfold ref_bytes. destruct (Z.eqb_spec (len s) 0) as [E|E].
  - rewrite Hlen in E. by destruct l.
  - destruct (Hl) as (p & -> & Hp); [by intros ->|]. cbn [of_option]. by rewrite outcome_bind_ret, Hlen, Nat2Z.id.
Qed.

Lemma load_bytes_app (mem more : list Z) p n l : load_bytes mem p n = Done l -> load_bytes (mem ++ more) p n = Done l.
Proof.
  revert p l. induction n as [|n IH]; intros p l; [done|]. cbn [load_bytes]. unfold load at 1. destruct (p <? 0) eqn:Hp; [done|].
  destruct (mem !! Z.to_nat p) as [c|] eqn:E; [|done]. cbn [of_option]. rewrite outcome_bind_ret. destruct (load_bytes mem (p + 1) n) as [l1| |] eqn:E1; [|done..].
  unfold load. rewrite Hp, (lookup_app_l_Some _ _ _ _ E). cbn [of_option]. by rewrite outcome_bind_ret, (IH _ _ E1).
Qed.

Lemma load_bytes_take (mem : list Z) p n l : load_bytes mem p n = Done l -> 0 <= p -> n = length l -> take n (drop (Z.to_nat p) mem) = l.
Proof.
  revert p l. induction n as [|n IH]; intros p l; cbn [load_bytes]; [by intros [= <-]|]. unfold load. destruct (Z.ltb_spec p 0); [lia|].
  destruct (mem !! Z.to_nat p) as [c|] eqn:E; [|done]. cbn [of_option]. rewrite outcome_bind_ret. destruct (load_bytes mem (p + 1) n) as [l1| |] eqn:E1; [|done..].
  rewrite outcome_bind_ret. intros [= <-] Hp [= Hn]. rewrite (drop_S _ c) by done. cbn. f_equal.
  replace (S (Z.to_nat p)) with (Z.to_nat (p + 1)) by lia. apply IH; [done|lia|done].
Qed.

Lemma str_is_app mem more s l : str_is mem s l -> str_is (mem ++ more) s l.
Proof. intros [Hlen Hl]. split; [done|]. intros Hne. destruct (Hl Hne) as (p & Hd & Hp). exists p. split; [done|]. by apply load_bytes_app. Qed.

Lemma str_is_end mem l : str_is (mem ++ l) (RefStr (Z.of_nat (length l)) (Some (Z.of_nat (length mem)))) l.
Proof. split; [done|]. intros _. eexists. split; [done|]. apply load_bytes_reads; [lia|]. rewrite Nat2Z.id, drop_app_length. by apply take_ge. Qed.

Lemma text_bytes s : Forall (in_u 8) (text s).
Proof.
  induction s as [|a s IH]; [constructor|]. cbn [text]. constructor; [|done]. pose proof (nat_ascii_bounded a). unfold in_u. lia.
Qed.

Lemma fmt_u64_bytes n : in_u 64 n -> Forall (in_u 8) (fmt_u64 n) /\ (length (fmt_u64 n) <= 20)%nat.
Proof.
  intros Hn. unfold in_u in Hn. unfold fmt_u64. split; [|apply dec_20_length; lia]. destruct (dec_ok 20 n) as (Hd & _); [lia|lia|].
  revert Hd. generalize (dec 20 n). induction l as [|c l IH]; [constructor|]. cbn [forallb]. intros [Hc Hl]%andb_true_iff. constructor; [|by apply IH].
  unfold isdigit in Hc. unfold in_u. lia.
Qed.

(** ** One end of a connection *)

Record end_ok {K} (recv : Z -> Z -> K -> Z * list Z * K) (send : Z -> list Z -> K -> Z * K) (poll : Z -> Z -> K -> Z * Z * K) (get_tick_ms : K -> Z * K)
    (incoming sent : K -> list Z) : Prop := {
  end_sock : socket_ok recv poll get_tick_ms incoming;
  end_sink : sink_ok send poll get_tick_ms sent;
  end_recv flags n k : sent (recv flags n k).2 = sent k }.

(** The operations of a connection leave [f] alone. *)
Record keeps {K X} (f : K -> X) (recv : Z -> Z -> K -> Z * list Z * K) (send : Z -> list Z -> K -> Z * K) (poll : Z -> Z -> K -> Z * Z * K) (get_tick_ms : K -> Z * K) : Prop := {
  kp_recv flags n k : f (recv flags n k).2 = f k;
  kp_send flags l k : f (send flags l k).2 = f k;
  kp_poll ev t k : f (poll ev t k).2 = f k;
  kp_tick k : f (get_tick_ms k).2 = f k }.

(** What is sent of the packet [p]: all of it when the result is positive, and a part
    from the front otherwise. *)
Definition sends_packet {K} (sent : K -> list Z) (k : K) (p : list Z) (r : Z) (k' : K) : Prop :=
  exists w more, sent k' = sent k ++ w /\ packet p = w ++ more /\ (0 < r -> more = []).

Section sending.
Context {K : Type}.
Context (recv : Z -> Z -> K -> Z * list Z * K) (send : Z -> list Z -> K -> Z * K) (poll : Z -> Z -> K -> Z * Z * K) (errno : K -> Z)
  (get_tick_ms : K -> Z * K) (incoming sent : K -> list Z).
Implicit Types (k : K) (s : packet_stream).

Definition stream_of (n : Z) s : Prop := max_size s = n /\ Z.of_nat (length (buff s)) = n.

Lemma stream_sok n s s' : stream_of n s -> n < 2 ^ 31 -> (is_http s' = true -> n < 2 ^ 24) -> 0 <= n ->
  prev_pos s' = 0 -> total_len s' = 0 -> max_size s' = max_size s -> buff s' = buff s -> sok s' /\ unread s' = [].
Proof.
  intros [Hm Hb] Hn Hh H0 Hp Ht Hm' Hb'. split; [|unfold unread; by rewrite Hp, Ht]. split; rewrite ?Hp, ?Ht, ?Hm', ?Hb', ?Hm; try done; lia.
Qed.

Lemma send_packet_ok mem s timeout c h msg k n :
  sink_ok send poll get_tick_ms sent -> stream_of n s -> n < 2 ^ 31 -> shows mem c h -> header_ok h -> (forall m, msg = Some m -> bytes m) ->
  Z.of_nat (length (message h msg)) < n - 4 ->
  exists r s' k', send_packet send poll errno get_tick_ms mem s timeout c msg k = Done (r, s', k') /\ stream_of n s' /\
    sends_packet sent k (message h msg) r k' /\
    forall limit, reliable recv send poll get_tick_ms incoming limit -> limit <= timeout < 2 ^ 30 -> 0 < r.
Proof.
  intros Hsi [Hm Hb] Hn Hs Hok Hmsg Hfit. unfold send_packet.
  destruct (send_cmd_base_ok (fun l k => send_data_timeout send poll errno get_tick_ms l timeout k) mem c h (buff (init s)) (max_size (init s)) msg k Hs Hok Hmsg)
    as (o & Ho & E); cbn [init buff max_size] in *; [by rewrite Hm, Hb|by rewrite Hm|by rewrite Hm|].
  rewrite E. fold (packet (message h msg)).
  destruct (send_data_timeout_ok send poll errno get_tick_ms sent (packet (message h msg)) timeout k Hsi) as (r & k' & Er & Hr). rewrite Er, !outcome_bind_ret.
  cbn [fst snd]. eexists r, _, k'. split; [done|]. split; [split; cbn; [done|by rewrite Ho]|]. split.
  2:{ intros limit Hrel Hl. destruct (send_data_timeout_all recv send poll errno get_tick_ms incoming sent limit (packet (message h msg)) timeout k Hsi Hrel Hl) as [k2 E2]. rewrite Er in E2. injection E2 as -> _. pose proof (packet_length (message h msg)). lia. }
  destruct Hr as [[-> Hk]|(Hr & j & Hj & Hk)].
  - exists (packet (message h msg)), []. by rewrite app_nil_r.
  - exists (take j (packet (message h msg))), (drop j (packet (message h msg))). rewrite take_drop. split_and!; [done..|lia].
Qed.

Lemma send_packet_keeps {X} (f : K -> X) mem s timeout c msg k r s' k' : keeps f recv send poll get_tick_ms ->
  send_packet send poll errno get_tick_ms mem s timeout c msg k = Done (r, s', k') -> f k' = f k.
Proof.
  intros [_ H1 H2 H3]. unfold send_packet, send_cmd_base. destruct (serialize_common _ _ _) as [r1| |]; [|done..]. rewrite outcome_bind_ret.
  destruct (match msg with Some m => _ | None => _ end) as [[[e|] r2]| |]; [| |done..]; rewrite outcome_bind_ret; cbn [fst snd]; [by intros [= _ _ <-]|].
  destruct (store_bytes _ _ _) as [o| |]; [|done..]. rewrite outcome_bind_ret. destruct (load_bytes _ _ _) as [l| |]; [|done..]. rewrite outcome_bind_ret.
  destruct (send_data_timeout send poll errno get_tick_ms l timeout k) as [[r3 k3]| |] eqn:E; [|done..]. rewrite !outcome_bind_ret. intros [= _ _ <-].
  by eapply send_data_timeout_keeps in E.
Qed.

(** read_packet on what a [sends_packet] has put on the wire. *)
Lemma read_sent timeout has s k p w more rest n :
  socket_ok recv poll get_tick_ms incoming -> sok s -> unread s = [] -> max_size s = n -> 0 < Z.of_nat (length p) -> Z.of_nat (length p) + 4 <= n ->
  packet p = w ++ more -> incoming k = w ++ rest -> (more = [] \/ rest = []) ->
  exists r pk s' k', read_packet_timeout recv poll errno get_tick_ms timeout has s k = Done (r, pk, s', k') /\ same_shape s s' /\
    (r = 1 /\ pk = Some (4, Z.of_nat (length p)) /\ load_bytes (buff s') 4 (length p) = Done p /\ more = [] \/
     r <= 0 /\ pk = None /\ forall limit, more = [] -> reliable recv send poll get_tick_ms incoming limit -> ~ limit <= timeout < 2 ^ 30).
Proof.
  intros Hsk Hs Hu Hn Hp0 Hp4 Hw Hin Hcut.
  cut (exists r pk s' k', read_packet_timeout recv poll errno get_tick_ms timeout has s k = Done (r, pk, s', k') /\
    (r = 1 /\ pk = Some (4, Z.of_nat (length p)) /\ load_bytes (buff s') 4 (length p) = Done p /\ more = [] \/ r <= 0 /\ pk = None /\ forall limit, more = [] -> reliable recv send poll get_tick_ms incoming limit -> ~ limit <= timeout < 2 ^ 30)).
  { intros (r & pk & s' & k' & E & HR). exists r, pk, s', k'. split; [exact E|]. split; [|exact HR]. revert E. unfold read_packet_timeout. destruct (get_tick_ms k) as [t0 k0]. intros E.
    by destruct (read_packet_keeps (fun _ => tt) _ _ _ _ _ _ _ _ _ (fun _ _ _ => eq_refl) E). }
  unfold read_packet_timeout. pose proof (sk_tick _ _ _ _ Hsk k) as Hk.
  assert (Hwaits : forall limit, reliable recv send poll get_tick_ms incoming limit -> limit <= timeout < 2 ^ 30 -> reader_waits incoming (get_timeout recv poll errno get_tick_ms (get_tick_ms k).1 timeout)).
  { intros limit Hr Hl. by apply (get_timeout_waits recv send poll errno get_tick_ms incoming limit). }
  destruct (get_tick_ms k) as [start k1]. cbn [fst snd] in Hk, Hwaits.
  set (get := get_timeout recv poll errno get_tick_ms start timeout). assert (Hget : reader_ok incoming get) by (by apply get_timeout_ok).
  destruct more as [|x more].
  - rewrite app_nil_r in Hw. destruct (read_packet_ok incoming get (fun a => (a.1, 0)) (timeout, has) s k1 p rest Hget Hs) as (r & pk & s' & k' & E & HR);
      [by split; [|by rewrite Hn]|by rewrite Hu, Hk, Hin, Hw|]. exists r, pk, s', k'. split; [exact E|]. destruct HR as [(? & ? & ? & _)|(? & ? & Hno)]; [by left|right]. split; [done|]. split; [done|]. intros limit _ Hr Hl. by apply Hno, (Hwaits limit).
  - assert (Hr : rest = []) by (by destruct Hcut). subst rest. rewrite app_nil_r in Hin.
    destruct (read_packet_cut incoming get (fun a => (a.1, 0)) (timeout, has) s k1 p (x :: more) Hget Hs) as (e & s' & k' & E & He);
      [by split; [|by rewrite Hn]|done|by rewrite Hu, Hk, Hin, Hw|]. exists e, None, s', k'. split; [exact E|]. by right.
Qed.
End sending.

(** rpc_pb_call_cb for a command with both messages: the body is parsed, and the
    callback gets the request and a response from the pool. *)
Lemma call_cb_eq {K Msg Obj : Type} (parse_msg : list Z -> option Msg) msg_new log mem (c : @rpc_pb_cmd_t K Msg Obj) ctx req l err k :
  is_Some (req_msg c) -> is_Some (rsp_msg c) -> ref_bytes mem req = Done l -> exists rsp1 p1 p2,
    rpc_pb_call_cb parse_msg msg_new log mem c ctx req err k =
      match parse_msg l with
      | None => Done (2, None, err, ctx, set_pools p1 p2 c, k)
      | Some r => let '(ret, ctx', rsp', err', k') := call_proc c ctx (Some r) (Some rsp1) err k in
          Done (ret, Some (default rsp1 rsp'), err', ctx', set_pools p1 p2 c, k')
      end.
Proof.
  intros [pq Hq] [pr Hr] Hl. unfold rpc_pb_call_cb. rewrite Hq. destruct (pool_alloc (msg_new pq) (req_pool c)) as [q pool]. rewrite Hl, outcome_bind_ret.
  destruct (pool_alloc (msg_new pr) (rsp_pool c)) as [rsp1 pool2] eqn:Ep. destruct (parse_msg l) as [r|]; [|rewrite outcome_bind_ret; by eexists rsp1, _, _].
  rewrite outcome_bind_ret. cbn [rsp_msg rsp_pool req_pool set_pools]. rewrite Hr, Ep.
  set (c1 := set_pools pool pool2 _). assert (Hc1 : call_proc c1 ctx (Some r) (Some rsp1) err k = call_proc c ctx (Some r) (Some rsp1) err k) by done.
  fold c1. rewrite Hc1. exists rsp1, (pool_release r pool), pool2. destruct (call_proc c ctx (Some r) (Some rsp1) err k) as [[[[ret ctx'] rsp'] err'] k'].
  cbn [fmap option_fmap option_map]. rewrite (bool_decide_eq_false_2 (Some r = None)), (bool_decide_eq_false_2 (Some _ = None)) by done.
  by rewrite orb_false_l, andb_false_r.
Qed.

(** ** What a server answers *)
Section answers.
Context {K D Msg Obj : Type} `{Countable D}.
Context (recv : Z -> Z -> K -> Z * list Z * K) (send : Z -> list Z -> K -> Z * K) (poll : Z -> Z -> K -> Z * Z * K) (errno : K -> Z)
  (get_tick_ms : K -> Z * K) (incoming sent : K -> list Z).
Context (parse_msg : list Z -> option Msg) (msg_new : Msg -> Msg) (msg_bytes : Msg -> list Z)
  (http_conn_proc : option (packet_stream -> K -> packet_stream * K)) (fresh_buff : list Z).
Context (Hend : end_ok recv send poll get_tick_ms incoming sent).

(** The history of the commands that ran: the name of each and the message it was given. *)
Context (ran : K -> list (list Z * Msg)) (Hran : keeps ran recv send poll get_tick_ms).
Implicit Types (k : K) (h : header) (c : @rpc_pb_cmd_t K Msg Obj) (sv : @rpc_pb_server_t K D Msg Obj _ _) (L : list (D * @rpc_pb_cmd_t K Msg Obj)).

(** No operation of a connection changes max_packet_size. *)
Lemma send_pb_size mem (c : cmd_base_t) rsp sv k r sv' k' :
  send_pb send poll errno get_tick_ms fresh_buff mem c rsp sv k = Done (r, sv', k') -> max_packet_size sv' = max_packet_size sv.
Proof.
  unfold send_pb, alloc_stream. destruct (pool_alloc _ _) as [s pool]. destruct (send_packet _ _ _ _ _ _ _ _ _ _) as [[[r1 s1] k1]| |]; [|done..].
  rewrite outcome_bind_ret. by intros [= _ <- _].
Qed.

Lemma proc_request_size log start mem n sv k go sv' k' :
  proc_request send poll errno get_tick_ms parse_msg msg_new msg_bytes fresh_buff log start mem n sv k = Done (go, sv', k') -> max_packet_size sv' = max_packet_size sv.
Proof.
  unfold proc_request. destruct (parse start mem n CmdBase.init) as [[e c]| |]; [|done..]. rewrite outcome_bind_ret.
  destruct (negb (e =? 0)); [by intros [= _ <- _]|]. destruct (negb (type c =? REQUEST_TYPE)); [by intros [= _ <- _]|].
  destruct (find_cmd mem c sv) as [[err|[[d x]|]]| |]; [| |done..]; rewrite outcome_bind_ret.
  - unfold send_unsuppored. destruct (send_pb _ _ _ _ _ _ _ _ sv k) as [[[r sv1] k1]| |] eqn:E; [|done..]. rewrite outcome_bind_ret. intros [= _ <- _]. by apply send_pb_size in E.
  - cbn [of_option]. rewrite outcome_bind_ret. cbn [fst snd]. destruct (rpc_pb_call_cb _ _ _ _ _ _ _ _ _) as [[[[[[ret rsp] err] ctx] x'] k1]| |]; [|done..]. rewrite outcome_bind_ret.
    destruct (send_pb _ _ _ _ _ _ _ _ _ k1) as [[[r sv1] k2]| |] eqn:E; [|done..]. rewrite outcome_bind_ret. apply send_pb_size in E.
    destruct rsp, (r <=? 0); by intros [= _ <- _].
Qed.

(** What the method of a name may answer to a request: its result and the bytes of its
    response.  [room] bounds a whole packet. *)
Context (method : list Z -> Msg -> Z -> list Z -> Prop) (room : Z).

(** A request message that has come over the wire. *)
Definition received (r : Msg) : Prop := exists l, parse_msg l = Some r /\ bytes l /\ Z.of_nat (length l) + 68 < room.

(** The contract of a command: it answers any request, whatever the response from the
    pool holds, is noted in the history once for each time that it runs, and leaves the
    connection alone. *)
Record handler c : Prop := {
  ha_req : is_Some (req_msg c);
  ha_rsp : is_Some (rsp_msg c);
  ha_call ctx r rsp err k : received r -> let '(ret, _, rsp', _, k') := call_proc c ctx (Some r) (Some rsp) err k in
    in_s 32 ret /\ method (method_name c) r ret (msg_bytes (default rsp rsp')) /\ sent k' = sent k /\ ran k' = ran k ++ [(method_name c, r)];
  ha_room r ret b : received r -> method (method_name c) r ret b -> bytes b /\ Z.of_nat (length b) + 55 < room }.

Lemma handler_pools c req rsp : handler c -> handler (set_pools req rsp c).
Proof. by intros [? ? ? ?]. Qed.

(** The answer of the method to the body [l]; 2 when the body is no message. *)
Definition runs (name l : list Z) (ret : Z) (body : option (list Z)) : Prop :=
  match parse_msg l with None => ret = 2 /\ body = None | Some r => exists b, body = Some b /\ method name r ret b end.

Definition runs_of (name l : list Z) : list (list Z * Msg) := match parse_msg l with None => [] | Some r => [(name, r)] end.

Lemma call_cb_runs log mem c ctx req l err k :
  handler c -> ref_bytes mem req = Done l -> bytes l -> Z.of_nat (length l) + 68 < room -> exists ret rsp err' ctx' c' k',
    rpc_pb_call_cb parse_msg msg_new log mem c ctx req err k = Done (ret, rsp, err', ctx', c', k') /\
    (exists p1 p2, c' = set_pools p1 p2 c) /\ in_s 32 ret /\ runs (method_name c) l ret (msg_bytes <$> rsp) /\ sent k' = sent k /\ ran k' = ran k ++ runs_of (method_name c) l.
Proof.
  intros [Hq Hr Hcall _] Hl Hlb Hlr. destruct (call_cb_eq parse_msg msg_new log mem c ctx req l err k Hq Hr Hl) as (rsp1 & p1 & p2 & E). unfold runs, runs_of.
  destruct (parse_msg l) as [r|] eqn:El; [|eexists 2, None, err, ctx, _, k; rewrite app_nil_r; by split_and!; [exact E|by eexists _, _|..]].
  specialize (Hcall ctx r rsp1 err k ltac:(by exists l)). destruct (call_proc c ctx (Some r) (Some rsp1) err k) as [[[[ret ctx'] rsp'] err'] k'].
  destruct Hcall as (Hret & Hm & Hk & Hh). eexists ret, _, err', ctx', _, k'. split; [exact E|]. split; [by eexists _, _|]. split; [done|]. split; [by eexists|]. by split.
Qed.

(** The command that a request names. *)
Definition names h c : Prop := if 0 <? h_cmd h then RpcBase.cmd_id c = h_cmd h else method_name c = h_name h.

Definition unknown_text h : list Z :=
  if 0 <? h_cmd h then text "unsuppored cmd_id:" ++ fmt_u64 (h_cmd h) else text "unsuppored cmd:" ++ h_name h.

(** What a server does for the request [h] with the body [l]: the commands that it runs,
    the result, the bytes of the response and the error text.  The command that the
    request names runs once when the body is a message; when there is no such command,
    none runs and the answer is an error text. *)
Inductive did L h (l : list Z) : list (list Z * Msg) -> Z -> option (list Z) -> list Z -> Prop :=
| did_run d c ret body : (d, c) ∈ L -> names h c -> in_s 32 ret -> runs (method_name c) l ret body -> did L h l (runs_of (method_name c) l) ret body []
| did_nothing : (forall d c, (d, c) ∈ L -> ~ names h c) -> did L h l [] ERR_UNSUPPORED_CMD None (unknown_text h).

(** The header of the answer. *)
Definition answer h (l : list Z) (ret : Z) (err : list Z) : header :=
  match err with
  | [] => Header RESPONSE_TYPE [] 0 0 [] (u32 ret) []
  | _ => Header REQUEST_TYPE (h_name h) (h_cmd h) (h_seq h) l (u32 ret) err
  end.

Lemma answer_unknown h l : answer h l ERR_UNSUPPORED_CMD (unknown_text h) = Header REQUEST_TYPE (h_name h) (h_cmd h) (h_seq h) l ERR_UNSUPPORED_CMD (unknown_text h).
Proof. unfold unknown_text. by destruct (0 <? h_cmd h). Qed.

(** A request that the theorems are about. *)
Record request_ok h : Prop := {
  rq_ok : header_ok h; rq_type : h_type h = REQUEST_TYPE; rq_some : 0 < h_cmd h \/ h_name h <> [];
  rq_room : 2 * Z.of_nat (length (h_name h)) + 95 < room }.

Record server_ok L sv : Prop := {
  sv_size : max_packet_size sv = Z.of_nat (length fresh_buff) /\ max_packet_size sv < 2 ^ 24;
  sv_room : room <= max_packet_size sv;
  sv_pool : Forall (stream_of (max_packet_size sv)) (stream_pool sv);
  sv_cmds : exists addrs, loaded (base_server sv) L addrs;
  sv_handlers d c : (d, c) ∈ L -> handler c }.

Lemma alloc_stream_ok L sv : server_ok L sv ->
  exists s pool, alloc_stream fresh_buff sv = (s, set_pool pool sv) /\ stream_of (max_packet_size sv) s /\ Forall (stream_of (max_packet_size sv)) pool.
Proof.
  intros [[Hm Hn] _ Hp _ _]. unfold alloc_stream, pool_alloc. destruct (stream_pool sv) as [|s pool].
  - eexists _, _. split; [reflexivity|]. split; [by split|constructor].
  - apply Forall_cons in Hp as [Hs Hp]. by eexists _, _.
Qed.

Lemma server_ok_pool L sv pool : server_ok L sv -> Forall (stream_of (max_packet_size sv)) pool -> server_ok L (set_pool pool sv).
Proof. by intros [? ? ? ? ?] Hp. Qed.

Lemma server_ok_cmd L sv d c p1 p2 : server_ok L sv -> (d, c) ∈ L ->
  server_ok ((fun p => if decide (p.1 = d) then (d, set_pools p1 p2 c) else p) <$> L) (set_cmd d (set_pools p1 p2 c) sv).
Proof.
  intros [Hs Hr Hp [addrs Hc] Hh] Hin. split; cbn [set_cmd max_packet_size stream_pool base_server]; try done.
  - exists addrs. by apply (loaded_update d c).
  - intros e x ([e' x'] & E & Hx)%list_elem_of_fmap. cbn [fst] in E. destruct (decide (e' = d)); injection E as -> ->; [apply handler_pools|]; by eapply Hh.
Qed.

Lemma send_pb_ok L sv mem (c : cmd_base_t) h msg k :
  server_ok L sv -> shows mem c h -> header_ok h -> (forall m, msg = Some m -> bytes m) -> Z.of_nat (length (message h msg)) + 4 < room ->
  exists r pool k', send_pb send poll errno get_tick_ms fresh_buff mem c msg sv k = Done (r, set_pool pool sv, k') /\
    Forall (stream_of (max_packet_size sv)) pool /\ sends_packet sent k (message h msg) r k' /\ ran k' = ran k /\
    forall limit, reliable recv send poll get_tick_ms incoming limit -> limit <= 1000 -> 0 < r.
Proof.
  intros Hsv Hs Hok Hm Hfit. destruct (alloc_stream_ok L sv Hsv) as (s & pool & E & Hss & Hp). unfold send_pb. rewrite E.
  pose proof (sv_size _ _ Hsv) as [_ Hn]. pose proof (sv_room _ _ Hsv) as Hr.
  destruct (send_packet_ok recv send poll errno get_tick_ms incoming sent mem s 1000 c h msg k (max_packet_size sv) (end_sink _ _ _ _ _ _ Hend) Hss)
    as (r & s' & k' & E' & Hs' & Hk' & Hrel); [lia|done|done|done|lia|]. rewrite E', outcome_bind_ret.
  exists r, (s' :: pool), k'. split; [done|]. split; [by constructor|]. split; [done|]. split; [by eapply send_packet_keeps|]. intros limit Hl Hle. apply (Hrel limit Hl). lia.
Qed.

Lemma find_cmd_ok L sv mem (c : cmd_base_t) h l :
  (exists addrs, loaded (base_server sv) L addrs) -> shows mem c (with_body l h) -> 0 < h_cmd h \/ h_name h <> [] ->
  (exists d x, find_cmd mem c sv = Done (inr (Some (d, x))) /\ (d, x) ∈ L /\ names h x) \/
  find_cmd mem c sv = Done (inl (unknown_text h)) /\ forall d x, (d, x) ∈ L -> ~ names h x.
Proof.
  intros [addrs HL] [_ Hname Hcmd _ _ _ _] Hsome. cbn [with_body h_name h_cmd] in *.
  unfold find_cmd, names, unknown_text. rewrite Hcmd. destruct (Z.ltb_spec 0 (h_cmd h)) as [Hid|Hid].
  - destruct (find_id_ok (base_server sv) L addrs (h_cmd h) Hid HL) as (o & E & Ho). rewrite E, outcome_bind_ret. destruct o as [[d x]|]; [left|by right].
    exists d, x. by destruct Ho.
  - destruct Hsome as [?|Hne]; [lia|]. rewrite (proj1 Hname), (proj2 (Z.ltb_lt 0 _)) by (destruct (h_name h); [done|cbn; lia]).
    rewrite (ref_bytes_is _ _ _ Hname), outcome_bind_ret. destruct (find_name_ok (base_server sv) L addrs (h_name h) HL) as (o & E & Ho).
    rewrite E, outcome_bind_ret. destruct o as [[d x]|]; [left|by right]. exists d, x. by destruct Ho.
Qed.

(** A response without an error text. *)
Lemma response_ok ret : in_s 32 ret -> header_ok (Header RESPONSE_TYPE [] 0 0 [] (u32 ret) []) /\
  shows [] (set_ret (u32 ret) (set_type RESPONSE_TYPE CmdBase.init)) (Header RESPONSE_TYPE [] 0 0 [] (u32 ret) []).
Proof. intros Hret. split; [split; [split_and!; try done; apply wrap_u_range; lia|by split_and!]|by split]. Qed.

Lemma unknown_text_ok h : room < 2 ^ 24 -> request_ok h -> bytes (unknown_text h) /\ Z.of_nat (length (unknown_text h)) <= 40 + Z.of_nat (length (h_name h)).
Proof.
  intros Hsmall [((_ & Hc & _) & [Hn Hb] & _) _ _ Hr]. unfold unknown_text, bytes. destruct (fmt_u64_bytes (h_cmd h) Hc) as [Hf Hl].
  pose proof (text_bytes "unsuppored cmd_id:") as H1. pose proof (text_bytes "unsuppored cmd:") as H2.
  assert (E1 : length (text "unsuppored cmd_id:") = 18%nat) by done. assert (E2 : length (text "unsuppored cmd:") = 15%nat) by done.
  destruct (0 <? h_cmd h); rewrite length_app, Forall_app, ?E1, ?E2; split_and!; (done || lia).
Qed.

Lemma unknown_shows mem (c : cmd_base_t) h l :
  shows mem c (with_body l h) -> h_type h = REQUEST_TYPE ->
  let e := unknown_text h in
  shows (mem ++ e) (set_errmsg (RefStr (Z.of_nat (length e)) (Some (Z.of_nat (length mem)))) (set_ret ERR_UNSUPPORED_CMD c))
    (Header REQUEST_TYPE (h_name h) (h_cmd h) (h_seq h) l ERR_UNSUPPORED_CMD e).
Proof.
  intros [H1 H2 H3 H4 H5 H6 H7] Ht e. cbn [with_body h_type h_name h_cmd h_seq h_body h_ret h_err] in *.
  split; cbn [set_errmsg set_ret type cmd_name CmdBase.cmd_id seq_id body ret errmsg h_type h_name h_cmd h_seq h_body h_ret h_err];
    try done; try (by rewrite H1, Ht); try (by apply str_is_app); apply str_is_end.
Qed.

(** A request that was read: the loop answers it, and the server is as before but for
    its pools. *)
Lemma proc_request_ok log start L sv mem h req n k :
  server_ok L sv -> request_ok h -> (forall m, req = Some m -> bytes m) -> Z.of_nat (length (default [] req)) + 68 < room ->
  take (length (message h req)) mem = message h req -> n = Z.of_nat (length (message h req)) -> n < 2 ^ 31 ->
  exists go L' sv' k' rs ret body err r,
    proc_request send poll errno get_tick_ms parse_msg msg_new msg_bytes fresh_buff log start mem n sv k = Done (go, sv', k') /\
    server_ok L' sv' /\ did L h (default [] req) rs ret body err /\ ran k' = ran k ++ rs /\
    (let ah := answer h (default [] req) ret err in header_ok ah /\ (forall m, body = Some m -> bytes m) /\ Z.of_nat (length (message ah body)) + 4 < room) /\
    sends_packet sent k (message (answer h (default [] req) ret err) body) r k' /\ (go = true -> 0 < r) /\
    forall limit, reliable recv send poll get_tick_ms incoming limit -> limit <= 1000 -> 0 < r.
Proof.
  intros Hsv Hrq Hm Hlr Hmem -> Hn. pose proof Hrq as [Hok Hty Hsome Hroom].
  assert (Hbody : bytes (default [] req)) by (destruct req as [m|]; [by apply Hm|by split]).
  destruct (parse_message start mem h req _ Hok Hm Hn Hmem eq_refl) as (c & E & Hs). unfold proc_request. rewrite E, outcome_bind_ret. cbn [negb Z.eqb].
  rewrite (sh_type _ _ _ Hs). cbn [with_body h_type]. rewrite Hty. change (negb (REQUEST_TYPE =? REQUEST_TYPE)) with false. cbn match.
  destruct (find_cmd_ok L sv mem c h (default [] req) (sv_cmds _ _ Hsv) Hs Hsome) as [(d & x & -> & Hin & Hx)|[-> Hno]]; rewrite outcome_bind_ret.
  - cbn [of_option]. rewrite outcome_bind_ret. cbn [fst snd]. pose proof (sv_handlers _ _ Hsv _ _ Hin) as Hh.
    destruct (call_cb_runs log mem x (Ctx 0 c) (body c) (default [] req) [] k Hh) as (ret & rsp & err & ctx & x' & k1 & -> & (p1 & p2 & ->) & Hret & Hruns & Hk1 & Hran1);
      [apply ref_bytes_is; apply (sh_body _ _ _ Hs)|done|done|]. rewrite outcome_bind_ret.
    destruct (response_ok ret Hret) as [Hrok Hrs]. set (ah := Header RESPONSE_TYPE [] 0 0 [] (u32 ret) []) in *.
    assert (Hab : forall m, msg_bytes <$> rsp = Some m -> bytes m /\ Z.of_nat (length m) + 55 < room).
    { intros m Em. revert Hruns. unfold runs. rewrite Em. destruct (parse_msg _) as [r|] eqn:Er; [|by intros [_ ?]]. intros (b & [= <-] & Hb). apply (ha_room _ Hh r ret); [by exists (default [] req)|done]. }
    assert (Hfit : Z.of_nat (length (message ah (msg_bytes <$> rsp))) + 4 < room).
    { pose proof (message_size ah (msg_bytes <$> rsp) Hrok (fun m Em => proj1 (Hab m Em))) as Hms. cbn [ah h_name h_err length] in Hms.
      destruct (msg_bytes <$> rsp) as [m|]; [destruct (Hab m eq_refl)|]; lia. }
    set (sv1 := set_cmd d (set_pools p1 p2 x) sv). pose proof (server_ok_cmd L sv d x p1 p2 Hsv Hin) as Hsv1. fold sv1 in Hsv1.
    destruct (send_pb_ok _ sv1 [] _ ah (msg_bytes <$> rsp) k1 Hsv1 Hrs Hrok (fun m Em => proj1 (Hab m Em)) Hfit) as (r & pool & k2 & -> & Hpool & Hsent & Hran2 & Hrel).
    rewrite outcome_bind_ret. pose proof (server_ok_pool _ _ pool Hsv1 Hpool) as Hsv2.
    assert (Hsv3 : exists L', server_ok L' (match rsp with Some m => set_cmd d (set_pools (req_pool (set_pools p1 p2 x)) (pool_release m (rsp_pool (set_pools p1 p2 x))) (set_pools p1 p2 x)) (set_pool pool sv1) | None => set_pool pool sv1 end)).
    { destruct rsp as [m|]; [|by eexists]. eexists. apply (server_ok_cmd _ _ d (set_pools p1 p2 x) _ _ Hsv2).
      apply list_elem_of_fmap. exists (d, x). cbn [fst]. by rewrite decide_True. }
    destruct Hsv3 as [L' Hsv3]. destruct Hsent as (w & more & Hw & Hsent). rewrite Hk1 in Hw.
    assert (Ha : did L h (default [] req) (runs_of (method_name x) (default [] req)) ret (msg_bytes <$> rsp) []) by by apply (did_run L h _ d x).
    assert (Hall : (header_ok ah /\ (forall m, msg_bytes <$> rsp = Some m -> bytes m) /\ Z.of_nat (length (message ah (msg_bytes <$> rsp))) + 4 < room) /\
      sends_packet sent k (message ah (msg_bytes <$> rsp)) r k2) by (split; [split_and!; [exact Hrok|exact (fun m Em => proj1 (Hab m Em))|exact Hfit]|by exists w, more]).
    destruct Hall as [Hah Hsends]. assert (Hran3 : ran k2 = ran k ++ runs_of (method_name x) (default [] req)) by by rewrite Hran2.
    destruct (Z.leb_spec r 0); eexists _, L', _, k2, _, ret, (msg_bytes <$> rsp), [], r; (split; [reflexivity|]); (split; [exact Hsv3|]); (split; [exact Ha|]); (split; [exact Hran3|]);
      (split; [exact Hah|]); (split; [exact Hsends|]); (split; [done|exact Hrel]).
  - unfold send_unsuppored. pose proof (unknown_shows mem c h (default [] req) Hs Hty) as Hus. cbv zeta in Hus. destruct (unknown_text_ok h) as [Hub Hul]; [pose proof (sv_size _ _ Hsv); pose proof (sv_room _ _ Hsv); lia|done|].
    set (ah := Header REQUEST_TYPE (h_name h) (h_cmd h) (h_seq h) (default [] req) ERR_UNSUPPORED_CMD (unknown_text h)) in *.
    assert (Hahok : header_ok ah).
    { destruct Hok as ((? & ? & ? & ?) & ? & ? & ?). split; [by split_and!|]. by split_and!. }
    assert (Hfit : Z.of_nat (length (message ah None)) + 4 < room).
    { pose proof (message_size ah None Hahok ltac:(done)) as Hms. cbn [ah h_name h_err] in Hms. lia. }
    destruct (send_pb_ok L sv (mem ++ unknown_text h) _ ah None k Hsv Hus Hahok ltac:(done) Hfit) as (r & pool & k2 & -> & Hpool & Hsent & Hran2 & Hrel). rewrite outcome_bind_ret.
    eexists false, L, _, k2, [], ERR_UNSUPPORED_CMD, None, (unknown_text h), r. rewrite answer_unknown, app_nil_r. split; [reflexivity|]. split; [by apply server_ok_pool|]. split; [by apply did_nothing|]. by split_and!.
Qed.

(** A round of the loop, on a stream that starts with a request. *)
Lemma serve_packet_ok log start L sv h req rest k :
  http_conn_proc = None -> server_ok L sv -> request_ok h -> (forall m, req = Some m -> bytes m) -> Z.of_nat (length (default [] req)) + 68 < room ->
  0 < Z.of_nat (length (message h req)) -> Z.of_nat (length (message h req)) + 4 <= max_packet_size sv -> incoming k = packet (message h req) ++ rest ->
  exists go L' sv' k' w,
    serve_packet recv send poll errno get_tick_ms parse_msg msg_new msg_bytes http_conn_proc fresh_buff log start sv k = Done (go, sv', k') /\
    server_ok L' sv' /\ sent k' = sent k ++ w /\
    ((go = false /\ w = [] /\ ran k' = ran k /\ forall limit, reliable recv send poll get_tick_ms incoming limit -> ~ limit <= 100) \/
     exists rs ret body err more, did L h (default [] req) rs ret body err /\ ran k' = ran k ++ rs /\
       (let ah := answer h (default [] req) ret err in
        (header_ok ah /\ (forall m, body = Some m -> bytes m) /\ Z.of_nat (length (message ah body)) + 4 < room) /\ packet (message ah body) = w ++ more) /\
       (go = true -> more = []) /\ forall limit, reliable recv send poll get_tick_ms incoming limit -> limit <= 1000 -> more = []).
Proof.
  intros Hhttp Hsv Hrq Hm Hlr Hp0 Hp4 Hin. destruct (alloc_stream_ok L sv Hsv) as (s & pool & E & Hss & Hpool). unfold serve_packet. rewrite E, Hhttp.
  pose proof (server_ok_pool L sv pool Hsv Hpool) as Hsv1. pose proof (sv_size _ _ Hsv) as [_ Hmax].
  destruct (stream_sok _ s (set_http (init s)) Hss) as [Hsok Hun]; try (done || lia).
  destruct (read_sent recv send poll errno get_tick_ms incoming 100 1 (set_http (init s)) k (message h req) (packet (message h req)) [] rest (max_packet_size sv) (end_sock _ _ _ _ _ _ Hend) Hsok Hun)
    as (r & pk & s' & k1 & Er & Hsh & Hr); try done; [by apply Hss|by rewrite app_nil_r|by left|]. rewrite Er, outcome_bind_ret.
  assert (Hran1 : ran k1 = ran k).
  { revert Er. unfold read_packet_timeout. pose proof (kp_tick _ _ _ _ _ Hran k) as Ht. destruct (get_tick_ms k) as [t0 k0]. cbn [snd] in Ht. rewrite <-Ht. intros Er.
    destruct (read_packet_keeps ran _ _ _ _ _ _ _ _ _ (get_timeout_keeps recv poll errno get_tick_ms ran t0 100 (kp_recv _ _ _ _ _ Hran) (kp_poll _ _ _ _ _ Hran) (kp_tick _ _ _ _ _ Hran)) Er) as [-> _]. done. }
  assert (Hk1 : sent k1 = sent k /\ stream_of (max_packet_size sv) s').
  { revert Er. unfold read_packet_timeout. pose proof (si_tick _ _ _ _ (end_sink _ _ _ _ _ _ Hend) k) as Ht. destruct (get_tick_ms k) as [t0 k0]. cbn [snd] in Ht. intros Er.
    destruct (read_packet_keeps sent _ _ _ _ _ _ _ _ _ (get_timeout_keeps recv poll errno get_tick_ms sent t0 100 (end_recv _ _ _ _ _ _ Hend)
      (si_poll _ _ _ _ (end_sink _ _ _ _ _ _ Hend)) (si_tick _ _ _ _ (end_sink _ _ _ _ _ _ Hend))) Er) as [Hk1 _].
    split; [by rewrite Hk1|]. destruct Hss, Hsh as (Hm1 & Hb1 & _). split; [by rewrite Hm1|by rewrite Hb1]. }
  destruct Hk1 as [Hk1 Hs'].
  assert (Hrel : forall L sv', server_ok L sv' -> max_packet_size sv' = max_packet_size sv -> server_ok L (release_stream s' sv')).
  { intros L2 sv' Hsv' Em. apply server_ok_pool; [done|]. constructor; [by rewrite Em|]. apply (sv_pool _ _ Hsv'). }
  destruct Hr as [(-> & -> & Hload & _)|(Hr & -> & Hno)].
  2:{ exists false, L, (release_stream s' (set_pool pool sv)), k1, []. split; [|split_and!; [by apply Hrel|by rewrite Hk1, app_nil_r|left; split_and!; [done..|]; intros limit Hl Hle; by apply (Hno limit eq_refl Hl)]].
      destruct (Z.eqb_spec r 0); [done|]. rewrite (proj2 (Z.ltb_lt r 0)) by lia. by destruct (r =? HTTP_PROTOCOL_DATA). }
  cbn [Z.eqb Z.ltb Z.compare of_option]. rewrite outcome_bind_ret. cbn [fst snd]. rewrite (proj2 (Z.leb_gt _ 0)) by lia.
  destruct (proc_request_ok log start L (set_pool pool sv) (drop (Z.to_nat 4) (buff s')) h req (Z.of_nat (length (message h req))) k1 Hsv1 Hrq Hm Hlr) as (go & L' & sv' & k' & rs & ret & body & err & r & Ep & Hsv' & Ha & Hran2 & Hah & (w & more & Hw & Hpk & Hmore) & Hgo & Hreach);
    [by apply load_bytes_take|reflexivity|lia|]. rewrite Ep, outcome_bind_ret.
  exists go, L', (release_stream s' sv'), k', w. split; [reflexivity|]. split; [|split; [by rewrite Hw, Hk1|right; exists rs, ret, body, err, more]].
  2:{ split; [done|]. split; [by rewrite Hran2, Hran1|]. split; [by split|]. split; [intros Hg; by apply Hmore, Hgo|intros limit Hl Hle; by apply Hmore, (Hreach limit)]. }
  apply Hrel; [done|]. exact (proc_request_size _ _ _ _ _ _ _ _ _ Ep).
Qed.
End answers.

(** ** What a client makes of it *)
Section client_laws.
Context {K : Type}.
Context (recv : Z -> Z -> K -> Z * list Z * K) (send : Z -> list Z -> K -> Z * K) (poll : Z -> Z -> K -> Z * Z * K) (errno : K -> Z)
  (get_tick_ms : K -> Z * K) (incoming sent : K -> list Z) (client_buff : list Z).
Context (Hend : end_ok recv send poll get_tick_ms incoming sent) (Hbuff : Z.of_nat (length client_buff) = 4096).
Implicit Types (k : K) (h : header) (cl : client).

Definition client_ok cl : Prop := Forall (fun s => stream_of 4096 s /\ is_http s = false) (ps_pool cl).

(** The header of a request on the wire. *)
Definition sent_header (seq : Z) h : header := Header REQUEST_TYPE (h_name h) (h_cmd h) seq (h_body h) (h_ret h) (h_err h).

Lemma client_stream_ok cl : client_ok cl ->
  exists s pool, pool_alloc (client_stream client_buff) (ps_pool cl) = (s, pool) /\ (stream_of 4096 s /\ is_http s = false) /\
    Forall (fun s => stream_of 4096 s /\ is_http s = false) pool.
Proof.
  unfold client_ok, pool_alloc. destruct (ps_pool cl) as [|s pool].
  - intros _. eexists _, _. split; [reflexivity|]. split; [by repeat split|constructor].
  - intros [Hs Hp]%Forall_cons. by eexists _, _.
Qed.

Lemma send_packet_http mem s timeout c msg k r s' k' :
  send_packet send poll errno get_tick_ms mem s timeout c msg k = Done (r, s', k') -> is_http s' = is_http s.
Proof. unfold send_packet. destruct (send_cmd_base _ _ _ _ _ _ _) as [[[? ?] ?]| |]; [|done..]. rewrite outcome_bind_ret. by intros [= _ <- _]. Qed.

Lemma rpc_call_send_ok mem (req_base : cmd_base_t) h req timeout cl k :
  client_ok cl -> shows mem req_base h -> header_ok h -> (forall m, req = Some m -> bytes m) -> total h req < 4096 ->
  exists r cl' k', rpc_call_send send poll errno get_tick_ms client_buff mem req_base req timeout cl k = Done (r, cl', k') /\ client_ok cl' /\
    (header_ok (sent_header (g_rpc_client_seq_id cl') h) /\ g_rpc_client_seq_id cl' = u64 (g_rpc_client_seq_id cl + 1)) /\
    sends_packet sent k (message (sent_header (g_rpc_client_seq_id cl') h) req) r k'.
Proof.
  intros Hcl Hs Hok Hm Ht. destruct (client_stream_ok cl Hcl) as (s & pool & E & [Hss Hsh] & Hp). unfold rpc_call_send. rewrite E.
  set (seq := u64 _). assert (Hseq : in_u 64 seq) by (apply wrap_u_range; lia). set (h' := sent_header seq h).
  assert (Hok' : header_ok h') by (destruct Hok as ((? & ? & ? & ?) & ? & ? & ?); split; by split_and!).
  assert (Hs' : shows mem (set_seq seq (set_type REQUEST_TYPE req_base)) h') by (destruct Hs; by split).
  pose proof (message_size h' req Hok' Hm) as Hms. cbn [h' sent_header h_name h_err] in Hms. unfold total in Ht.
  destruct (send_packet_ok recv send poll errno get_tick_ms incoming sent mem s timeout _ h' req k 4096 (end_sink _ _ _ _ _ _ Hend) Hss ltac:(lia) Hs' Hok' Hm)
    as (r & s' & k' & Es & Hs2 & Hk' & _); [lia|]. pose proof (send_packet_http _ _ _ _ _ _ _ _ _ Es) as Hh. rewrite Es, outcome_bind_ret.
  exists r, (Client (s' :: pool) seq), k'. split; [done|]. split; [constructor; [by rewrite Hh|done]|]. by split.
Qed.

(** The call's result for a response on the wire. *)
Definition result_of h (body : option (list Z)) : call_result :=
  if i32 (h_ret h) =? 0 then Result 0 (Some 0) None (Some (default [] body))
  else Result 0 (Some (i32 (h_ret h))) (match h_err h with [] => None | e => Some e end) None.

Lemma read_response_ok start mem h body n :
  header_ok h -> (forall m, body = Some m -> bytes m) -> n = Z.of_nat (length (message h body)) -> n < 2 ^ 31 ->
  take (length (message h body)) mem = message h body -> read_response start mem n = Done (result_of h body).
Proof.
  intros Hok Hm -> Hn Hmem. unfold read_response, result_of. destruct (parse_message start mem h body _ Hok Hm Hn Hmem eq_refl) as (c & E & Hs).
  rewrite E, outcome_bind_ret. cbn [negb Z.eqb]. rewrite (sh_ret _ _ _ Hs). cbn [with_body h_ret]. destruct (Z.eqb_spec (i32 (h_ret h)) 0) as [E0|E0]; cbn [negb].
  - rewrite (ref_bytes_is _ _ _ (sh_body _ _ _ Hs)), outcome_bind_ret. by rewrite E0.
  - pose proof (sh_err _ _ _ Hs) as He. cbn [with_body h_err] in He. rewrite (proj1 He). destruct (h_err h) as [|x e]; [done|].
    rewrite (proj2 (Z.ltb_lt 0 _)) by (cbn; lia). by rewrite (ref_bytes_is _ _ _ He), outcome_bind_ret.
Qed.

Lemma rpc_call_recv_ok start timeout cl k h body w more :
  client_ok cl -> header_ok h -> (forall m, body = Some m -> bytes m) -> 0 < Z.of_nat (length (message h body)) -> Z.of_nat (length (message h body)) + 4 <= 4096 ->
  packet (message h body) = w ++ more -> incoming k = w ->
  exists res cl' k', rpc_call_recv recv poll errno get_tick_ms client_buff start timeout cl k = Done (res, cl', k') /\ client_ok cl' /\
    (more = [] /\ res = result_of h body \/
     exists e, e < 0 /\ res = failed e /\ forall limit, more = [] -> reliable recv send poll get_tick_ms incoming limit -> ~ limit <= timeout < 2 ^ 30).
Proof.
  intros Hcl Hok Hm Hp0 Hp4 Hpk Hin. unfold rpc_call_recv. destruct (wait_ready_ok poll incoming POLLIN timeout k (sk_poll _ _ _ _ (end_sock _ _ _ _ _ _ Hend))) as [_ Hw].
  destruct (wait_ready_sent send poll get_tick_ms sent POLLIN timeout k) as [He _]; [apply (end_sink _ _ _ _ _ _ Hend)|].
  assert (Hwr : more = [] -> forall limit, reliable recv send poll get_tick_ms incoming limit -> (wait_ready poll POLLIN timeout k).1 = None).
  { intros -> limit Hl. apply (wait_ready_reliable recv send poll get_tick_ms incoming limit timeout k Hl). rewrite Hin. intros ->. apply (f_equal length) in Hpk. rewrite packet_length in Hpk. by cbn in Hpk. }
  destruct (wait_ready poll POLLIN timeout k) as [[e|] k1]; cbn [fst snd] in *.
  { exists (failed e), cl, k1. split; [done|]. split; [done|]. right. exists e. split; [by apply He|]. split; [done|]. intros limit Hm0 Hl. by specialize (Hwr Hm0 limit Hl). }
  destruct (client_stream_ok cl Hcl) as (s & pool & E & [Hss Hsh] & Hpool). rewrite E. destruct (stream_sok 4096 s (init s) Hss) as [Hsok Hun]; try (done || lia).
  destruct (read_sent recv send poll errno get_tick_ms incoming timeout 1 (init s) k1 (message h body) w more [] 4096 (end_sock _ _ _ _ _ _ Hend) Hsok Hun)
    as (r & pk & s' & k2 & Er & Hsame & Hr); try done; [by apply Hss|by rewrite Hw, Hin, app_nil_r|by right|]. rewrite Er, outcome_bind_ret.
  assert (Hcl' : client_ok (Client (pool_release s' pool) (g_rpc_client_seq_id cl))).
  { constructor; [|done]. destruct Hsame as (Hm' & Hb' & Hh'), Hss as [Hm1 Hb1]. cbn [init max_size buff is_http] in *. split; [split; [by rewrite Hm'|by rewrite Hb']|by rewrite Hh']. }
  destruct Hr as [(-> & -> & Hload & ->)|(Hr & -> & Hno)].
  - cbn [Z.leb Z.compare of_option]. rewrite outcome_bind_ret. cbn [fst snd].
    rewrite (read_response_ok start _ h body _ Hok Hm eq_refl), outcome_bind_ret; [|lia|by apply load_bytes_take]. eexists _, _, _. split; [reflexivity|]. split; [done|by left].
  - rewrite (proj2 (Z.leb_le r 0)) by done. eexists _, _, _. split; [reflexivity|]. split; [done|]. right. exists (-5). split; [done|]. by split.
Qed.
End client_laws.

Lemma message_nonempty h body : 0 < h_type h -> 0 < Z.of_nat (length (message h body)).
Proof.
  intros Ht. unfold message, common_fields. rewrite !encode_app, !length_app. unfold num_field at 1. rewrite (proj2 (Z.ltb_lt 0 _)) by done.
  rewrite encode_one. pose proof (encode_field_length 1 (PVarint (h_type h))). lia.
Qed.

Lemma answer_nonempty h l ret err body : 0 < Z.of_nat (length (message (answer h l ret err) body)).
Proof. destruct err; by apply message_nonempty. Qed.

(** ** Both ends *)
Section both_ends.
Context {C K D Msg Obj : Type} `{Countable D}.
Context (crecv : Z -> Z -> C -> Z * list Z * C) (csend : Z -> list Z -> C -> Z * C) (cpoll : Z -> Z -> C -> Z * Z * C) (cerrno : C -> Z)
  (ctick : C -> Z * C) (cincoming csent : C -> list Z) (client_buff : list Z).
Context (recv : Z -> Z -> K -> Z * list Z * K) (send : Z -> list Z -> K -> Z * K) (poll : Z -> Z -> K -> Z * Z * K) (errno : K -> Z)
  (get_tick_ms : K -> Z * K) (incoming sent : K -> list Z).
Context (parse_msg : list Z -> option Msg) (msg_new : Msg -> Msg) (msg_bytes : Msg -> list Z) (fresh_buff : list Z).
Context (method : list Z -> Msg -> Z -> list Z -> Prop) (room : Z) (ran : K -> list (list Z * Msg)).
Implicit Types (h : header) (L : list (D * @rpc_pb_cmd_t K Msg Obj)) (sv : @rpc_pb_server_t K D Msg Obj _ _).

(** The result that a client gets for what the server did. *)
Definition call_result_of (ret : Z) (body : option (list Z)) (err : list Z) : call_result :=
  Result 0 (Some ret) (match err with [] => None | _ => Some err end) (if ret =? 0 then Some (default [] body) else None).

Lemma did_result L h l rs ret body err : did parse_msg method L h l rs ret body err -> result_of (answer h l ret err) body = call_result_of ret body err.
Proof.
  intros [d c ret1 body1 _ _ Hret _|_]; unfold result_of, call_result_of; cbn [answer].
  - cbn [h_ret h_err]. assert (Eret : i32 (u32 ret1) = ret1) by (rewrite wrap_s_u by lia; apply wrap_s_id; [lia|done]). rewrite Eret. by destruct (Z.eqb_spec ret1 0) as [->|].
  - rewrite answer_unknown. cbn [h_ret h_err]. unfold unknown_text. by destruct (0 <? h_cmd h).
Qed.

Lemma did_header L h h' l rs ret body err : h_cmd h' = h_cmd h -> h_name h' = h_name h ->
  did parse_msg method L h l rs ret body err -> did parse_msg method L h' l rs ret body err.
Proof.
  intros Ec En Ha. assert (HN : forall c : @rpc_pb_cmd_t K Msg Obj, names h' c <-> names h c) by (intros c; unfold names; by rewrite Ec, En).
  destruct Ha as [d c ret body Hin Hx Hret Hr|Hno]; [apply (did_run parse_msg method L h' l d c); [done|by apply HN|done|done]|].
  assert (Et : unknown_text h = unknown_text h') by (unfold unknown_text; by rewrite Ec, En). rewrite Et. apply did_nothing. intros d c Hin Hx. by apply (Hno d c Hin), HN.
Qed.

(** C3: remote calls do what local ones would.  On a request that the client has sent, a
    round of the server's loop runs the command that the request names, by its number or
    its name, once on the body, or no command when it has none of that name or the body
    is no message, and sends the answer, or a part of it, when the connection fails; the
    client then has that run's result and response, or the error text, or a negative
    error.  The server leaves the request unread, and the client gets an error, only when
    an operation of their connections fails or the clock runs past a timeout.  The
    packets fit in [room] bytes, the request gives a number or a name, the server has no
    HTTP handler, and its commands keep the contract [handler]. *)
Theorem call_answered log start cstart L sv cl mem (req_base : cmd_base_t) h req timeout kc n cl1 kc1 ks rest :
  end_ok crecv csend cpoll ctick cincoming csent -> end_ok recv send poll get_tick_ms incoming sent -> keeps ran recv send poll get_tick_ms ->
  Z.of_nat (length client_buff) = 4096 -> room <= 4096 ->
  client_ok cl -> server_ok sent parse_msg msg_bytes fresh_buff ran method room L sv ->
  shows mem req_base h -> header_ok h -> (forall m, req = Some m -> bytes m) -> 0 < h_cmd h \/ h_name h <> [] ->
  2 * Z.of_nat (length (h_name h)) + 95 < room -> total h req < room ->
  rpc_call_send csend cpoll cerrno ctick client_buff mem req_base req timeout cl kc = Done (n, cl1, kc1) -> 0 < n ->
  (forall w, csent kc1 = csent kc ++ w -> incoming ks = w ++ rest) ->
  exists go L' sv' ks' w,
    serve_packet recv send poll errno get_tick_ms parse_msg msg_new msg_bytes None fresh_buff log start sv ks = Done (go, sv', ks') /\
    server_ok sent parse_msg msg_bytes fresh_buff ran method room L' sv' /\ sent ks' = sent ks ++ w /\
    let client_gets (P : call_result -> Prop) := forall kc2, cincoming kc2 = w -> exists res cl2 kc3,
      rpc_call_recv crecv cpoll cerrno ctick client_buff cstart timeout cl1 kc2 = Done (res, cl2, kc3) /\ client_ok cl2 /\ P res in
    (* the request could not be read *)
    ((go = false /\ w = [] /\ ran ks' = ran ks /\ ~ reliable recv send poll get_tick_ms incoming 100 /\ client_gets (fun res => exists e, e < 0 /\ res = failed e)) \/
     (* it was served *)
     exists rs ret body err, did parse_msg method L h (default [] req) rs ret body err /\ ran ks' = ran ks ++ rs /\
       client_gets (fun res => res = call_result_of ret body err \/ exists e, e < 0 /\ res = failed e /\
         (go = true \/ reliable recv send poll get_tick_ms incoming 100 -> timeout < 2 ^ 30 -> ~ reliable crecv csend cpoll ctick cincoming timeout))).
Proof.
  intros Hcend Hend Hran Hbuff Hroom Hcl Hsv Hs Hok Hm Hsome Hname Ht Esend Hn Hwire.
  assert (Hmp : total h req < 4096) by lia.
  destruct (rpc_call_send_ok crecv csend cpoll cerrno ctick cincoming csent client_buff Hcend Hbuff mem req_base h req timeout cl kc Hcl Hs Hok Hm Hmp)
    as (n' & cl' & k' & E' & Hcl' & [Hok' _] & (w & more & Hw & Hpk & Hmore)).
  rewrite Esend in E'. injection E' as <- <- <-. rewrite (Hmore Hn), app_nil_r in Hpk. specialize (Hwire w Hw). rewrite <-Hpk in Hwire.
  set (h1 := sent_header (g_rpc_client_seq_id cl1) h) in *. pose proof (message_size h1 req Hok' Hm) as Hms. cbn [h1 sent_header h_name h_err] in Hms. unfold total in Ht.
  pose proof (sv_room _ _ _ _ _ _ _ _ _ Hsv) as Hsr.
  destruct (serve_packet_ok recv send poll errno get_tick_ms incoming sent parse_msg msg_new msg_bytes None fresh_buff Hend ran Hran method room log start L sv h1 req rest ks)
    as (go & L' & sv' & ks' & w2 & Es & Hsv' & Hw2 & Hans); try done; [clear -Ht; destruct req; cbn in Ht |- *; lia|lia|].
  exists go, L', sv', ks', w2. split; [exact Es|]. split; [done|]. split; [done|]. intros client_gets. destruct Hans as [(-> & -> & Hsame & Hrel)|(rs & ret & body & err & more2 & Hdid & Hrs & [(Hah & Hab & Hfit) Hpk2] & Hgo & Hrel)].
  - left. do 3 (split; [done|]). split; [intros Hl; by apply (Hrel 100 Hl)|]. intros kc2 Hin.
    destruct (rpc_call_recv_ok crecv csend cpoll cerrno ctick cincoming csent client_buff Hcend Hbuff cstart timeout cl1 kc2 h1 req [] (packet (message h1 req)))
      as (res & cl2 & kc3 & Er & Hcl2 & [[Hno _]|(e & He & -> & _)]); try done; [lia|].
    exists (failed e), cl2, kc3. split; [exact Er|]. split; [done|]. by exists e.
  - right. exists rs, ret, body, err. split; [by apply (did_header L h1)|]. split; [done|]. intros kc2 Hin.
    destruct (rpc_call_recv_ok crecv csend cpoll cerrno ctick cincoming csent client_buff Hcend Hbuff cstart timeout cl1 kc2 (answer h1 (default [] req) ret err) body w2 more2)
      as (res & cl2 & kc3 & Er & Hcl2 & Hres); try done; [by apply answer_nonempty|lia|].
    exists res, cl2, kc3. split; [exact Er|]. split; [done|]. destruct Hres as [[_ ->]|(e & He & -> & Hun)]; [left; by apply (did_result L h1 _ rs)|right].
    exists e. split; [done|]. split; [done|]. intros Hwhole Hl Hc. apply (Hun timeout); [|done|lia]. destruct Hwhole as [Hg|Hl2]; [by apply Hgo|by apply (Hrel 100)].
Qed.
End both_ends.

(** ** Where calls go wrong *)

(** A request with neither a number nor a name passes both tests of the server,
    which then runs the command NULL. *)
Theorem nameless_request_faults {K D Msg Obj : Type} `{Countable D} send poll errno get_tick_ms (parse_msg : list Z -> option Msg) msg_new msg_bytes fresh_buff
    log start (sv : @rpc_pb_server_t K D Msg Obj _ _) mem h req k :
  header_ok h -> (forall m, req = Some m -> bytes m) -> h_type h = REQUEST_TYPE -> h_cmd h = 0 -> h_name h = [] ->
  take (length (message h req)) mem = message h req -> Z.of_nat (length (message h req)) < 2 ^ 31 ->
  proc_request send poll errno get_tick_ms parse_msg msg_new msg_bytes fresh_buff log start mem (Z.of_nat (length (message h req))) sv k = Fault.
Proof.
  intros Hok Hm Hty Hcmd Hname Hmem Hn. destruct (parse_message start mem h req _ Hok Hm Hn Hmem eq_refl) as (c & E & Hs).
  unfold proc_request. rewrite E, outcome_bind_ret. cbn [negb Z.eqb]. rewrite (sh_type _ _ _ Hs). cbn [with_body h_type]. rewrite Hty.
  change (negb (REQUEST_TYPE =? REQUEST_TYPE)) with false. cbn match. unfold find_cmd. rewrite (sh_cmd _ _ _ Hs), (proj1 (sh_name _ _ _ Hs)).
  cbn [with_body h_cmd h_name]. by rewrite Hcmd, Hname.
Qed.

(** When the server answers with an error, rpc_pb_call_impl returns 0 and leaves the
    caller's reference to the response as it was, uninitialised: rpc_pb_call parses
    whatever it denotes, and reports success, the failure of that parse, or crashes. *)
Theorem failed_call_parses_junk {K M : Type} recv send poll errno get_tick_ms client_buff (parse_rsp : list Z -> option M) fd start mem req_base req timeout
    cl (k : K) code err cl' k' :
  0 <= fd ->
  rpc_pb_call_impl recv send poll errno get_tick_ms client_buff start mem req_base req timeout cl k = Done (Result 0 (Some code) err None, cl', k') ->
  let call junk := rpc_pb_call recv send poll errno get_tick_ms client_buff parse_rsp true junk fd start mem req_base req timeout cl k in
  call Fault = Fault /\
  (forall x l, parse_rsp (x :: l) = None -> call (Done (x :: l)) = Done (-7, Result 0 (Some code) err None, None, cl', k')) /\
  forall x l m, parse_rsp (x :: l) = Some m -> call (Done (x :: l)) = Done (0, Result 0 (Some code) err None, Some m, cl', k').
Proof.
  intros Hfd E call. unfold call, rpc_pb_call. rewrite (proj2 (Z.ltb_ge fd 0)) by done. rewrite E, !outcome_bind_ret. cbn [r_ret r_body negb Z.eqb].
  split_and!; [done|intros x l El|intros x l m El]; cbn; by rewrite El.
Qed.

(** ** A client and a server *)

(** A connection: what will arrive, in pieces of seven bytes, and what was sent, in
    pieces of five. *)
Definition wire : Type := list Z * list Z.
Definition wire_recv (flags n : Z) (k : wire) : Z * list Z * wire :=
  let l := take (Nat.min 7 (Z.to_nat n)) k.1 in (Z.of_nat (length l), l, (drop (length l) k.1, k.2)).
Definition wire_send (flags : Z) (l : list Z) (k : wire) : Z * wire := (Z.of_nat (length (take 5 l)), (k.1, k.2 ++ take 5 l)).
Definition wire_poll (ev t : Z) (k : wire) : Z * Z * wire := (1, Z.lor POLLIN POLLOUT, k).
Definition wire_errno (k : wire) : Z := EAGAIN.
Definition wire_tick (k : wire) : Z * wire := (5, k).

Lemma wire_ok : end_ok wire_recv wire_send wire_poll wire_tick fst snd.
Proof.
  split; [split|split|]; try done.
  - intros flags n k Hn. unfold takes_front, wire_recv. cbn [fst]. destruct (decide (k.1 = [])) as [->|Hk]; [left; by rewrite take_nil|right].
    assert (0 < length k.1)%nat by (destruct (k.1); [done|cbn; lia]). rewrite length_take. split; [lia|]. split; [done|].
    rewrite <-(take_drop (Nat.min 7 (Z.to_nat n)) k.1) at 1. f_equal.
    generalize (Nat.min 7 (Z.to_nat n)). intros m. destruct (decide (length k.1 <= m)%nat); [rewrite !drop_ge by lia; done|by rewrite Nat.min_l by lia].
  - intros flags l k Hl. right. unfold wire_send. cbn [fst snd]. assert (0 < length l)%nat by (destruct l; [done|cbn; lia]).
    rewrite Nat2Z.id, length_take. split; [lia|]. f_equal. destruct (decide (length l <= 5)%nat); [rewrite !take_ge by lia; done|by rewrite Nat.min_l by lia].
Qed.

Lemma wire_reliable : reliable wire_recv wire_send wire_poll wire_tick fst 1.
Proof.
  split; [| |by intros flags [|x l] k ?|done].
  - intros flags n k Hn Hk. unfold wire_recv. cbn [fst]. rewrite length_take. assert (0 < length k.1)%nat by (destruct k.1; [done|cbn; lia]). lia.
  - by intros t k _.
Qed.

(** The server's end has the history of the commands that ran besides. *)
Definition server_wire : Type := wire * list (list Z * list Z).
Definition sw_recv (flags n : Z) (k : server_wire) : Z * list Z * server_wire := let '(r, l, w) := wire_recv flags n k.1 in (r, l, (w, k.2)).
Definition sw_send (flags : Z) (l : list Z) (k : server_wire) : Z * server_wire := let '(r, w) := wire_send flags l k.1 in (r, (w, k.2)).
Definition sw_poll (ev t : Z) (k : server_wire) : Z * Z * server_wire := (1, Z.lor POLLIN POLLOUT, k).
Definition sw_errno (k : server_wire) : Z := EAGAIN.
Definition sw_tick (k : server_wire) : Z * server_wire := (5, k).
Definition sw_in (k : server_wire) : list Z := k.1.1.
Definition sw_out (k : server_wire) : list Z := k.1.2.

Lemma server_wire_ok : end_ok sw_recv sw_send sw_poll sw_tick sw_in sw_out.
Proof.
  destruct wire_ok as [[H1 _ _] [H2 _ _] _]. split; [split|split|]; try done.
  - intros flags n k Hn. exact (H1 flags n k.1 Hn).
  - intros flags l k Hl. exact (H2 flags l k.1 Hl).
Qed.

Lemma server_wire_keeps : keeps snd sw_recv sw_send sw_poll sw_tick.
Proof. by split. Qed.

Lemma server_wire_reliable : reliable sw_recv sw_send sw_poll sw_tick sw_in 100.
Proof.
  destruct wire_reliable as [H1 H2 H3 _]. split; [| | |done].
  - intros flags n k Hn Hk. exact (H1 flags n k.1 Hn Hk).
  - by intros t k _.
  - intros flags l k Hl. exact (H3 flags l k.1 Hl).
Qed.

(** The command [1], number 5, returns its request; a body that starts with 0 is no
    message. *)
Definition back_proc : @rpc_pb_callback server_wire (list Z) unit := fun _ ctx req _ err k => (0, ctx, req, err, (k.1, k.2 ++ [([1], default [] req)])).
Definition back : @rpc_pb_cmd_t server_wire (list Z) unit := Cmd back_proc None [1] 5 (Some []) (Some []) [] [] None.
Definition back_method (name r : list Z) (ret : Z) (b : list Z) : Prop := ret = 0 /\ b = r.
Definition parse_list (l : list Z) : option (list Z) := match l with 0 :: _ => None | _ => Some l end.

Lemma back_handler : handler sw_out parse_list id snd back_method 512 back.
Proof.
  split; [by eexists..| |].
  - intros ctx r rsp err k _. by split_and!.
  - intros r ret b (l & Hl & Hb & Hlen) [_ ->]. assert (r = l) by (destruct l as [|[| |]]; cbn in Hl; congruence). subst r. split; [done|lia].
Qed.

Definition back_server (b : @rpc_pb_server_base_t nat server_wire (list Z) unit _ _) : rpc_pb_server_t := Server 1024 [] b.
Definition server_buff : list Z := replicate (Z.to_nat 1024) 0.
Definition call_buff : list Z := replicate (Z.to_nat 4096) 0.

Definition fresh_base : @rpc_pb_server_base_t nat server_wire (list Z) unit _ _ := ServerBase ∅ (fresh_nodes name_nodes) (fresh_nodes id_nodes).
Definition loaded_base : outcome (@rpc_pb_server_base_t nat server_wire (list Z) unit _ _) := b ← new_server_base (fun _ => None) fresh_base; add_cmd (fun _ => []) 1%nat back b.

Lemma back_server_ok : exists b, loaded_base = Done b /\ server_ok sw_out parse_list id server_buff snd back_method 512 [(1%nat, back)] (back_server b).
Proof.
  destruct (new_server_base_loaded (K := server_wire) (Msg := list Z) (O := unit) name_nodes id_nodes (fun _ => None)) as (b & Eb & HL);
    [done|apply (bool_decide_unpack _); reflexivity|].
  destruct (add_cmd_ok (fun _ => []) 1%nat back b [] [2; 3; 4; 5]%nat) as (b' & E & HL'); [done|exact HL|]. exists b'.
  split; [unfold loaded_base, fresh_base; rewrite Eb, outcome_bind_ret; exact E|].
  split; [by split; vm_compute|done|constructor|by exists [2; 3; 4; 5]%nat|]. intros d c [= -> ->]%list_elem_of_singleton. apply back_handler.
Qed.

(** A call by name with the body 42 43, and one by a number that is not there. *)
Definition by_name : cmd_base_t := CmdBase 0 (RefStr 1 (Some 0)) 0 0 (RefStr 0 None) 0 (RefStr 0 None).
Definition by_name_header : header := Header 0 [1] 0 0 [] 0 [].

Definition the_server (b : outcome (@rpc_pb_server_base_t nat server_wire (list Z) unit _ _)) (l : list Z) : outcome (list Z) :=
  b ← b;
  r ← serve_packet sw_recv sw_send sw_poll sw_errno sw_tick parse_list (fun _ => []) id None server_buff true no_field (back_server b) (l, [], []);
  Done (sw_out r.2).

(** The whole call: what the client sends, what the server sends, and the result. *)
Definition whole_call (req_base : cmd_base_t) (req : list Z) : outcome (list Z * list Z * call_result) :=
  r ← rpc_call_send wire_send wire_poll wire_errno wire_tick call_buff [1] req_base (Some req) 100 (Client [] 0) ([], []);
  let '(_, cl, k) := r in
  answer ← the_server loaded_base k.2;
  r ← rpc_call_recv wire_recv wire_poll wire_errno wire_tick call_buff no_field 100 cl (answer, []);
  Done (k.2, answer, r.1.1).

Lemma whole_call_by_name :
  whole_call by_name [42; 43] =
    Done ([0; 0; 0; 11; 8; 1; 18; 1; 1; 32; 1; 42; 2; 42; 43], [0; 0; 0; 6; 8; 2; 42; 2; 42; 43], Result 0 (Some 0) None (Some [42; 43])).
Proof. vm_compute. reflexivity. Qed.

Lemma whole_call_unknown :
  exists w1 w2, whole_call (CmdBase 0 (RefStr 0 None) 7 0 (RefStr 0 None) 0 (RefStr 0 None)) [42] =
    Done (w1, w2, Result 0 (Some 1) (Some (text "unsuppored cmd_id:7")) None).
Proof. eexists _, _. vm_compute. reflexivity. Qed.

Definition by_name_sent : list Z := [0; 0; 0; 11; 8; 1; 18; 1; 1; 32; 1; 42; 2; 42; 43].

Lemma by_name_shows : shows [1] by_name by_name_header.
Proof. split; try done. split; [done|]. intros _. by exists 0. Qed.

Lemma by_name_ok : header_ok by_name_header.
Proof. split; [by split_and!|]. split_and!; by repeat constructor. Qed.

(** Both ends are reliable: the command has run once, on 42 43, and the client has its
    result and its response. *)
Lemma call_answered_witness : exists b go L' sv' ks',
  loaded_base = Done b /\
  serve_packet sw_recv sw_send sw_poll sw_errno sw_tick parse_list (fun _ => []) id None server_buff true no_field (back_server b) (by_name_sent, [], []) = Done (go, sv', ks') /\
  server_ok sw_out parse_list id server_buff snd back_method 512 L' sv' /\ ks'.2 = [([1], [42; 43])] /\
  exists cl1 cl2 kc3, rpc_call_recv wire_recv wire_poll wire_errno wire_tick call_buff no_field 100 cl1 (sw_out ks', []) = Done (Result 0 (Some 0) None (Some [42; 43]), cl2, kc3).
Proof.
  destruct back_server_ok as (b & Eb & Hsv).
  assert (Es : exists cl1, rpc_call_send wire_send wire_poll wire_errno wire_tick call_buff [1] by_name (Some [42; 43]) 100 (Client [] 0) ([], []) = Done (15, cl1, ([], by_name_sent))).
  { eexists. vm_compute. reflexivity. }
  destruct Es as (cl1 & Es).
  destruct (call_answered wire_recv wire_send wire_poll wire_errno wire_tick fst snd call_buff sw_recv sw_send sw_poll sw_errno sw_tick sw_in sw_out
    parse_list (fun _ => []) id server_buff back_method 512 snd true no_field no_field [(1%nat, back)] (back_server b) (Client [] 0) [1] by_name by_name_header (Some [42; 43]) 100
    ([], []) 15 cl1 ([], by_name_sent) (by_name_sent, [], []) []) as (go & L' & sv' & ks' & w & E & Hsv' & Hw & [(_ & _ & _ & Hno & _)|(rs & ret & body & err & Hdid & Hrs & Hc)]).
  - apply wire_ok.
  - apply server_wire_ok.
  - apply server_wire_keeps.
  - reflexivity.
  - done.
  - constructor.
  - exact Hsv.
  - apply by_name_shows.
  - apply by_name_ok.
  - intros m [= <-]. by repeat constructor.
  - by right.
  - done.
  - done.
  - exact Es.
  - done.
  - intros w Hw. cbn in Hw. unfold sw_in. by rewrite <-Hw, app_nil_r.
  - destruct (Hno server_wire_reliable).
  - cbn in Hw. exists b, go, L', sv', ks'. split; [exact Eb|]. split; [exact E|]. split; [exact Hsv'|].
    destruct Hdid as [d c ret body [= -> ->]%list_elem_of_singleton _ _ (bd & -> & -> & ->)|Hno]; [|by destruct (Hno 1%nat back (list_elem_of_here _ _))].
    split; [exact Hrs|]. destruct (Hc (w, []) eq_refl) as (res & cl2 & kc3 & Er & _ & Hres). exists cl1, cl2, kc3.
    destruct Hres as [->|(e & _ & _ & Hun)]; [by rewrite Hw|]. destruct (Hun (or_intror server_wire_reliable) ltac:(lia)).
    destruct wire_reliable as [R1 R2 R3 R4]. by split.
Defined.

Lemma nameless_request_faults_witness :
  proc_request sw_send sw_poll sw_errno sw_tick parse_list (fun _ => []) id server_buff true no_field [8; 1; 42; 1; 9] 5 (back_server fresh_base) ([], [], []) = Fault.
Proof.
  apply (nameless_request_faults sw_send sw_poll sw_errno sw_tick parse_list (fun _ => []) id server_buff true no_field (back_server fresh_base) [8; 1; 42; 1; 9]
    (Header 1 [] 0 0 [] 0 []) (Some [9])); try done.
  intros m [= <-]. by repeat constructor.
Defined.

(** The server has answered 7 without an error text. *)
Definition failed_answer : list Z := packet [8; 2; 53; 7; 0; 0; 0].

Lemma failed_call_parses_junk_witness : exists cl' k',
  rpc_pb_call wire_recv wire_send wire_poll wire_errno wire_tick call_buff parse_list true (Done [0]) 3 no_field [1] by_name None 100 (Client [] 0) (failed_answer, []) =
    Done (-7, Result 0 (Some 7) None None, None, cl', k').
Proof.
  assert (E : exists cl' k', rpc_pb_call_impl wire_recv wire_send wire_poll wire_errno wire_tick call_buff no_field [1] by_name None 100 (Client [] 0) (failed_answer, []) =
    Done (Result 0 (Some 7) None None, cl', k')).
  { eexists _, _. vm_compute. reflexivity. }
  destruct E as (cl' & k' & E). exists cl', k'.
  apply (failed_call_parses_junk wire_recv wire_send wire_poll wire_errno wire_tick call_buff parse_list 3 no_field [1] by_name None 100 (Client [] 0) (failed_answer, []) 7 None cl' k');
    [done|exact E|done].
Defined.
