(* ===== verification/UdpServer.v ===== *)
(** * svrkit/src/udp_server.cpp, and proc_udp_rpc_pb of rpc_pb_server.cpp

    main_proc2 receives each datagram into a buffer of the pool and hands it to a
    worker; the worker runs the callback into a second buffer and queues that for the
    sending coroutine, which gives it back.  The callback of the rpc server parses a
    request, runs the command and serializes the answer.  Main loop, workers and sender
    interleave; a callback runs to its end without a switch. *)
From stdpp Require Import list gmap.
From S2P Require Import Prelude CList CListStore CListIter Words Cells FixedMempool Memory HashTable Pbc RpcBase CmdBase PacketStream RpcServer.

(** ** proc_udp_rpc_pb *)
Section rpc.
Context {K D Msg Obj : Type} `{Countable D}.
Context (parse_msg : list Z -> option Msg) (msg_new : Msg -> Msg) (msg_bytes : Msg -> list Z).
Implicit Types (sv : @rpc_pb_server_t K D Msg Obj _ _) (k : K).

(** The request is the first [n] bytes of [mem], and [out] is the output buffer of which
    the caller says that it has [olen] bytes.  The results are *olen and the buffer; the
    function returns 0. *)
Definition proc_udp_rpc_pb (log : bool) (start : pb_field_t) (mem : list Z) (n : Z) (out : list Z) (olen : Z) sv k
    : outcome (Z * list Z * rpc_pb_server_t * K) :=
  r ← parse start mem (i32 n) CmdBase.init;
  let '(ret, c) := r in
  if negb (ret =? 0) then Done (0, out, sv, k)
  else if negb (type c =? REQUEST_TYPE) then Done (0, out, sv, k)
  else
    cmd ← find_cmd mem c sv;
    match cmd with
    | inl errmsg =>
        let c := set_errmsg (RefStr (Z.of_nat (length errmsg)) (Some (Z.of_nat (length mem)))) (set_ret ERR_UNSUPPORED_CMD c) in
        o ← serialize_cmd_base_impl (mem ++ errmsg) out olen c None 0;
        let '(_, olen, out) := o in Done (olen, out, sv, k)
    | inr cmd =>
        dc ← of_option cmd;
        r ← rpc_pb_call_cb parse_msg msg_new log mem dc.2 (Ctx 0 c) (body c) [] k;
        let '(retcode, rsp, _, _, cmd, k) := r in
        let c := set_ret (u32 retcode) (set_type RESPONSE_TYPE CmdBase.init) in
        m ← of_option rsp;
        o ← serialize_cmd_base_impl [] out olen c (Some (msg_bytes m)) (byte_size (Some (msg_bytes m)));
        let '(_, olen, out) := o in
        Done (olen, out, set_cmd dc.1 (set_pools (req_pool cmd) (pool_release m (rsp_pool cmd)) cmd) sv, k)
    end.
End rpc.

(** ** udp_server_t *)
Section udp.
Context {A B W : Type} `{Countable B}.

(** recvfrom and sendto on the world [W] of the callback, the callback itself with its
    result, *olen and the output buffer, the block that the system gives when it has
    given those of a map, and what lies in it, and the bytes that a list_head puts into
    the front of a block. *)
Context (recvfrom : Z -> W -> Z * list Z * A * W) (sendto : list Z -> A -> W -> Z * W).
Context (conn_proc : A -> list Z -> Z -> list Z -> Z -> W -> outcome (Z * Z * list Z * W)).
Context (os : gmap B (list Z) -> os_call -> option (B * link (cell unit B))) (fresh : B -> list Z) (link_bytes : B -> list Z).
Implicit Types (w : W) (a : A).

(** udp_req_ctx_t with the output buffer of its worker, and tx_data_t. *)
Record udp_req_ctx_t := UdpReq { data : option B; len : Z; addr : A; co : nat; obuffer : option B }.
Record tx_data_t := Tx { tx_data : option B; tx_len : Z; dst_addr : A }.
Implicit Types (r : udp_req_ctx_t) (tx : tx_data_t).

(** [contents] are the bytes of the blocks, [live] the requests whose callback runs and
    [sending] the local queue of the sending coroutine. *)
Record udp_server_t := Udp {
  to_stop : Z; cur_conn_num : Z; max_conn_num : Z; max_packet_size : Z; buffer_pool : fixed_mempool B; contents : gmap B (list Z);
  tx_queue : list tx_data_t; sending : list tx_data_t; live : list udp_req_ctx_t; co_pool : list nat; next_co : nat; world : W }.
Implicit Types s : udp_server_t.

Definition set_num (n : Z) s : udp_server_t :=
  Udp (to_stop s) n (max_conn_num s) (max_packet_size s) (buffer_pool s) (contents s) (tx_queue s) (sending s) (live s) (co_pool s) (next_co s) (world s).
Definition set_pool (p : fixed_mempool B) (m : gmap B (list Z)) s : udp_server_t :=
  Udp (to_stop s) (cur_conn_num s) (max_conn_num s) (max_packet_size s) p m (tx_queue s) (sending s) (live s) (co_pool s) (next_co s) (world s).
Definition set_queues (q l : list tx_data_t) s : udp_server_t :=
  Udp (to_stop s) (cur_conn_num s) (max_conn_num s) (max_packet_size s) (buffer_pool s) (contents s) q l (live s) (co_pool s) (next_co s) (world s).
Definition set_live (l : list udp_req_ctx_t) s : udp_server_t :=
  Udp (to_stop s) (cur_conn_num s) (max_conn_num s) (max_packet_size s) (buffer_pool s) (contents s) (tx_queue s) (sending s) l (co_pool s) (next_co s) (world s).
Definition set_co_pool (p : list nat) (n : nat) s : udp_server_t :=
  Udp (to_stop s) (cur_conn_num s) (max_conn_num s) (max_packet_size s) (buffer_pool s) (contents s) (tx_queue s) (sending s) (live s) p n (world s).
Definition set_world w s : udp_server_t :=
  Udp (to_stop s) (cur_conn_num s) (max_conn_num s) (max_packet_size s) (buffer_pool s) (contents s) (tx_queue s) (sending s) (live s) (co_pool s) (next_co s) w.
Definition set_stop s : udp_server_t :=
  Udp 1 (cur_conn_num s) (max_conn_num s) (max_packet_size s) (buffer_pool s) (contents s) (tx_queue s) (sending s) (live s) (co_pool s) (next_co s) (world s).

(** init, over the memory in which the constructor of the pool has made its list. *)
Definition init (page : Z) (p : fixed_mempool B) w : udp_server_t :=
  Udp 0 0 10000 1472 (FixedMempool.init page 1472 10000 0 p) ∅ [] [] [] [] 0 w.

(** ** Buffers *)

(** alloc: a block of the free list has kept its bytes behind the list_head.  The blocks
    are smaller than a page, so that mmap is not called. *)
Definition alloc_buffer s : outcome (option B * udp_server_t) :=
  r ← FixedMempool.alloc (os (contents s)) (buffer_pool s);
  match r.1 with
  | MAP_FAILED => Fault
  | NULL => Done (None, set_pool r.2 (contents s) s)
  | Block b =>
      let l := match contents s !! b with Some l => link_bytes b ++ drop 16 l | None => fresh b end in
      Done (Some b, set_pool r.2 (<[b := l]> (contents s)) s)
  end.

(** free: of a pool with enough blocks the block goes back to the system. *)
Definition free_buffer (b : option B) s : outcome udp_server_t :=
  b ← of_option b;
  p ← FixedMempool.free b (buffer_pool s);
  Done (set_pool p (if FixedMempool.max_num (buffer_pool s) <=? total_num (buffer_pool s) then delete b (contents s) else contents s) s).

Definition buffer_bytes (b : option B) s : list Z := match b with Some b => default [] (contents s !! b) | None => [] end.
Definition write_buffer (b : option B) (l : list Z) s : udp_server_t :=
  match b with Some b => set_pool (buffer_pool s) (<[b := l]> (contents s)) s | None => s end.

(** ** Workers *)

(** conn_proc_co up to the callback. *)
Definition begin_work r s : outcome udp_server_t :=
  o ← alloc_buffer s;
  Done (set_live (UdpReq (data r) (len r) (addr r) (co r) o.1 :: live o.2) o.2).

(** The lines behind its loop. *)
Definition drop_request r s : outcome udp_server_t :=
  s ← match data r with Some b => free_buffer (Some b) s | None => Done s end;
  Done (set_num (u32 (cur_conn_num s - 1)) s).

(** proc_pool: a new worker starts at once; one of the pool looks at to_stop first. *)
Definition proc_pool r s : outcome udp_server_t :=
  match co_pool s with
  | [] => begin_work (UdpReq (data r) (len r) (addr r) (next_co s) None) (set_co_pool [] (S (next_co s)) s)
  | c :: pool =>
      let s := set_co_pool pool (next_co s) s in
      if to_stop s =? 0 then begin_work (UdpReq (data r) (len r) (addr r) c None) s else drop_request r s
  end.

(** The body of main_proc2's loop behind co_poll.  The result of recvfrom becomes a
    size_t. *)
Definition recv_request s : outcome udp_server_t :=
  o ← alloc_buffer s;
  let '(b, s) := o in
  let '(ret, l, a, w) := recvfrom (max_packet_size s) (world s) in
  let s := set_world w (write_buffer b (l ++ drop (length l) (buffer_bytes b s)) s) in
  proc_pool (UdpReq b (u64 ret) a 0 None) (set_num (u32 (cur_conn_num s + 1)) s).

(** The callback of the request at position [i] of [live], and the rest of the loop of
    conn_proc_co: only an answer frees the output buffer, through the queue. *)
Definition finish (i : nat) s : outcome udp_server_t :=
  r ← of_option (live s !! i);
  c ← conn_proc (addr r) (buffer_bytes (data r) s) (len r) (buffer_bytes (obuffer r) s) (max_packet_size s) (world s);
  let '(ret, olen, out, w) := c in
  let s := set_live (delete i (live s)) (set_world w (write_buffer (obuffer r) out s)) in
  let s := if (ret =? 0) && (0 <? olen) then set_queues (tx_queue s ++ [Tx (obuffer r) (i32 olen) (addr r)]) (sending s) s else s in
  s ← free_buffer (data r) (set_num (u32 (cur_conn_num s - 1)) s);
  Done (if negb (ret =? 0) || negb (to_stop s =? 0) then s else set_co_pool (pool_release (co r) (co_pool s)) (next_co s) s).

(** ** do_send_data *)

(** The swap of the queues, ... *)
Definition take_queue s : udp_server_t := set_queues [] (tx_queue s) s.

(** ... and one datagram; a failure is only logged. *)
Definition send_next s : outcome udp_server_t :=
  match sending s with
  | [] => Done s
  | tx :: rest =>
      let '(_, w) := sendto (take (Z.to_nat (tx_len tx)) (buffer_bytes (tx_data tx) s)) (dst_addr tx) (world s) in
      free_buffer (tx_data tx) (set_queues (tx_queue s) rest (set_world w s))
  end.

(** ** Steps *)

(** Main loop, workers and sender between two switches.  main_proc2 receives while there
    are less than max_conn_num requests; the wait for it ends when the server stops.
    [n] is the number of datagrams received, [m] of those that got no answer. *)
Inductive reach s0 : nat -> nat -> udp_server_t -> Prop :=
| reach_init : reach s0 0 0 s0
| reach_recv n m s s' : reach s0 n m s -> cur_conn_num s < max_conn_num s \/ to_stop s <> 0 -> recv_request s = Done s' -> reach s0 (S n) m s'
| reach_finish n m s i s' : reach s0 n m s -> finish i s = Done s' ->
    reach s0 n (if bool_decide (length (tx_queue s') = length (tx_queue s)) then S m else m) s'
| reach_take n m s : reach s0 n m s -> to_stop s = 0 -> sending s = [] -> reach s0 n m (take_queue s)
| reach_send n m s s' : reach s0 n m s -> send_next s = Done s' -> reach s0 n m s'
| reach_stop n m s : reach s0 n m s -> reach s0 n m (set_stop s).

(** ** Who has which buffer *)
Context (call : os_call) (maxn : Z).

(** The pool with the free blocks [cached] and the blocks [held] of the server. *)
Definition pool_ok (cached held : list B) (p : fixed_mempool B) (m : gmap B (list Z)) : Prop :=
  FixedMempool.implements maxn call p (APool cached held 0) /\ forall b, is_Some (m !! b) <-> b ∈ cached ++ held.

(** The system gives memory that is not in use. *)
Definition os_ok : Prop := forall m, exists b junk, os m call = Some (b, junk) /\ m !! b = None.

Lemma pool_ok_perm cached held held' p m : held ≡ₚ held' -> pool_ok cached held p m -> pool_ok cached held' p m.
Proof.
  intros Hp [[[HR Hnd Hh Ht Hu] Hc] Hm]. cbn in HR, Hnd, Hh, Ht, Hu. split; [split; [split|exact Hc]|].
  - exact HR.
  - cbn. by rewrite <-Hp.
  - intros k Hk. apply Hh. cbn. by rewrite Hp.
  - cbn. by rewrite <-Hp.
  - cbn. by rewrite <-Hp.
  - intros b. by rewrite <-Hp.
Qed.

Lemma pool_ok_nodup cached held p m : pool_ok cached held p m -> NoDup held.
Proof. intros [[[_ Hnd _ _ _] _] _]. by apply NoDup_app in Hnd as (_ & _ & ?). Qed.

Lemma pool_ok_write cached held p m b l : b ∈ held -> pool_ok cached held p m -> pool_ok cached held p (<[b := l]> m).
Proof.
  intros Hb [HP Hm]. split; [done|]. intros b'. rewrite lookup_insert_is_Some, <-Hm. destruct (decide (b = b')) as [->|]; [|naive_solver].
  rewrite Hm. split; [intros _; apply elem_of_app; by right|by left].
Qed.

Lemma alloc_buffer_ok cached held s : os_ok -> pool_ok cached held (buffer_pool s) (contents s) ->
  exists b cached' p m, alloc_buffer s = Done (Some b, set_pool p m s) /\ (b ∉ held) /\ pool_ok cached' (b :: held) p m /\
    (length cached' + length (b :: held) <= S (length cached + length held))%nat.
Proof.
  intros Hos [HP Hm]. unfold alloc_buffer. destruct cached as [|b cached].
  - destruct (Hos (contents s)) as (b & junk & Eo & Eb). assert (Hb : b ∉ held) by (intros Hb; assert (Hx := proj2 (Hm b) Hb); rewrite Eb in Hx; by destruct Hx).
    destruct (exec_grow maxn call (os (contents s)) b junk held 0 (buffer_pool s) HP Eo Hb) as (p' & E & HP'). rewrite E, outcome_bind_ret. cbn [fst snd].
    exists b, [], p', (<[b := fresh b]> (contents s)). rewrite Eb. split; [done|]. split; [done|]. split; [|cbn; lia]. split; [done|].
    intros b'. rewrite lookup_insert_is_Some, Hm. cbn. rewrite elem_of_cons. destruct (decide (b = b')) as [->|]; naive_solver.
  - destruct (exec_recycle maxn call (os (contents s)) b cached held 0 (buffer_pool s) HP) as (p' & E & HP'). rewrite E, outcome_bind_ret. cbn [fst snd].
    eexists b, cached, p', _. split; [reflexivity|]. split; [|split; [|cbn; lia]].
    + destruct HP as [[_ Hnd _ _ _] _]. cbn in Hnd. apply NoDup_cons in Hnd as [Hnd _]. rewrite elem_of_app in Hnd. tauto.
    + split; [done|]. intros b'. rewrite lookup_insert_is_Some, Hm. cbn. rewrite !elem_of_app, !elem_of_cons, elem_of_app. destruct (decide (b = b')) as [->|]; naive_solver.
Qed.

Lemma free_buffer_ok cached held held' b s :
  pool_ok cached held (buffer_pool s) (contents s) -> held ≡ₚ b :: held' -> Z.of_nat (length cached + length held) < 2 ^ 64 - 1 ->
  exists cached' p m, free_buffer (Some b) s = Done (set_pool p m s) /\ pool_ok cached' held' p m /\ (length cached' + length held' <= length cached + length held)%nat.
Proof.
  intros HI Hp Ht. pose proof HI as [HP Hm]. assert (Ht' : Z.of_nat (FixedMempool.total (APool cached held 0)) < 2 ^ 64 - 1) by (unfold FixedMempool.total; cbn; lia).
  pose proof HP as ([_ Hnd _ Htot _] & Hmax & _). cbn in Htot. rewrite Nat.add_0_r in Htot. rewrite wrap_u_id in Htot by (unfold in_u; lia).
  assert (Hb : (b ∉ cached) /\ b ∉ held').
  { cbn in Hnd. rewrite Hp in Hnd. rewrite <-Permutation_middle in Hnd. apply NoDup_cons in Hnd as [Hnd _]. rewrite elem_of_app in Hnd. tauto. }
  pose proof (Permutation_length Hp) as Hl. cbn in Hl. unfold free_buffer. cbn [of_option]. rewrite outcome_bind_ret, Hmax, Htot.
  destruct (Z.leb_spec maxn (Z.of_nat (length cached + length held))) as [Hle|Hgt].
  - destruct (exec_release maxn call b cached held held' 0 _ HP Ht' Hp) as (p' & E & HP'); [unfold FixedMempool.total; cbn; lia|]. rewrite E, outcome_bind_ret.
    eexists cached, p', _. split; [reflexivity|]. split; [|lia]. split; [done|]. intros b'. rewrite lookup_delete_is_Some, Hm, !elem_of_app, Hp, elem_of_cons.
    destruct (decide (b = b')) as [->|]; naive_solver.
  - destruct (exec_cache maxn call b cached held held' 0 _ HP Ht' Hp) as (p' & E & HP'); [unfold FixedMempool.total; cbn; lia|]. rewrite E, outcome_bind_ret.
    eexists (b :: cached), p', _. split; [reflexivity|]. split; [|cbn; lia]. split; [done|]. intros b'. rewrite Hm. cbn. rewrite elem_of_cons, !elem_of_app, Hp, elem_of_cons.
    naive_solver.
Qed.

(** The buffers of the requests and of the answers that wait. *)
Definition req_buffers (l : list udp_req_ctx_t) : list B := omap data l ++ omap obuffer l.
Definition in_use s : list B := req_buffers (live s) ++ omap tx_data (tx_queue s) ++ omap tx_data (sending s).

Definition has_buffers r : Prop := is_Some (data r) /\ is_Some (obuffer r).

Record udp_ok (n m : nat) s : Prop := {
  uo_pool : exists cached leaked, pool_ok cached (in_use s ++ leaked) (buffer_pool s) (contents s) /\ length leaked = m /\
    (length cached + length (in_use s ++ leaked) <= 2 * n)%nat;
  uo_live : Forall has_buffers (live s);
  uo_queue : Forall (fun tx => is_Some (tx_data tx)) (tx_queue s ++ sending s);
  uo_num : cur_conn_num s = Z.of_nat (length (live s)) /\ (length (live s) <= n)%nat;
  uo_max : max_conn_num s = 10000 /\ (to_stop s = 0 -> cur_conn_num s <= max_conn_num s) }.

Lemma buffer_written cached held0 s b l : b ∈ held0 ->
  pool_ok cached held0 (buffer_pool s) (contents s) -> pool_ok cached held0 (buffer_pool (write_buffer (Some b) l s)) (contents (write_buffer (Some b) l s)).
Proof. apply pool_ok_write. Qed.

Lemma begin_work_ok cached held r s : os_ok -> pool_ok cached held (buffer_pool s) (contents s) ->
  exists b cached' p m, begin_work r s = Done (set_live (UdpReq (data r) (len r) (addr r) (co r) (Some b) :: live s) (set_pool p m s)) /\
    pool_ok cached' (b :: held) p m /\ (length cached' + length (b :: held) <= S (length cached + length held))%nat.
Proof.
  intros Hos HP. destruct (alloc_buffer_ok cached held s Hos HP) as (b & cached' & p & m & E & _ & HP' & Hl). unfold begin_work. rewrite E, outcome_bind_ret.
  exists b, cached', p, m. by split_and!.
Qed.

Lemma in_use_begin r s p m b d leaked : data r = Some d ->
  in_use (set_live (UdpReq (data r) (len r) (addr r) (co r) (Some b) :: live s) (set_pool p m s)) ++ leaked ≡ₚ b :: d :: in_use s ++ leaked.
Proof. intros ->. unfold in_use, req_buffers. cbn. rewrite <-!app_assoc. cbn. solve_Permutation. Qed.

Lemma recv_request_ok n m s : os_ok -> udp_ok n m s -> Z.of_nat n < 2 ^ 31 -> cur_conn_num s < max_conn_num s \/ to_stop s <> 0 ->
  exists s', recv_request s = Done s' /\ udp_ok (S n) m s'.
Proof.
  intros Hos [(cached & leaked & HP & Hl & Hn) Hlive Hq [Hnum Hln] [Hmax Hle]] Hbound Hguard. unfold recv_request.
  destruct (alloc_buffer_ok cached _ s Hos HP) as (b & c1 & p1 & m1 & E1 & _ & HP1 & Hn1). rewrite E1, outcome_bind_ret. set (s1 := set_pool p1 m1 s) in *.
  change (max_packet_size s1) with (max_packet_size s). change (world s1) with (world s). destruct (recvfrom _ _) as [[[ret l] a] w].
  set (s2 := set_num _ _). assert (HP2 : pool_ok c1 (b :: in_use s ++ leaked) (buffer_pool s2) (contents s2)) by (apply (pool_ok_write _ _ _ _ b); [left|exact HP1]).
  assert (Hw : u32 (cur_conn_num s + 1) = cur_conn_num s + 1) by (apply wrap_u_id; unfold in_u; lia).
  assert (Hnum2 : cur_conn_num s2 = cur_conn_num s + 1) by exact Hw. cbn [length] in Hn1.
  assert (Hbeg : forall r p0 i0, data r = Some b -> exists s', begin_work r (set_co_pool p0 i0 s2) = Done s' /\ udp_ok (S n) m s').
  { intros r p0 i0 Hd. set (s3 := set_co_pool p0 i0 s2). destruct (begin_work_ok c1 (b :: in_use s ++ leaked) r s3 Hos HP2) as (b2 & c2 & p2 & m2 & E2 & HP3 & Hn2). rewrite E2. eexists. split; [reflexivity|].
    cbn [length] in Hn2. pose proof (in_use_begin r s3 p2 m2 b2 b leaked Hd) as Hin. change (in_use s3) with (in_use s) in Hin. split.
    - exists c2, leaked. split; [by eapply pool_ok_perm; [symmetry; exact Hin|]|]. split; [done|]. rewrite Hin. cbn [length]. lia.
    - constructor; [|exact Hlive]. split; cbn; [by rewrite Hd|done].
    - exact Hq.
    - cbn [set_live set_pool cur_conn_num live length]. change (cur_conn_num s3) with (cur_conn_num s2). rewrite Hnum2, Hnum. change (live s3) with (live s). split; lia.
    - cbn [set_live set_pool cur_conn_num max_conn_num to_stop]. change (cur_conn_num s3) with (cur_conn_num s2). rewrite Hnum2. split; [done|]. intros Hs. destruct Hguard; [change (max_conn_num s3) with (max_conn_num s); lia|done]. }
  unfold proc_pool. change (co_pool s2) with (co_pool s). change (to_stop s2) with (to_stop s). destruct (co_pool s) as [|c pool]; [by apply Hbeg|].
  change (to_stop (set_co_pool pool (next_co s2) s2)) with (to_stop s). destruct (Z.eqb_spec (to_stop s) 0) as [Hs|Hs]; [by apply Hbeg|].
  unfold drop_request. cbn [data]. destruct (free_buffer_ok c1 (b :: in_use s ++ leaked) (in_use s ++ leaked) b (set_co_pool pool (next_co s2) s2) HP2) as (c2 & p2 & m2 & E2 & HP3 & Hn2); [done|cbn [length]; lia|].
  rewrite E2, outcome_bind_ret. eexists. split; [reflexivity|]. cbn [length] in Hn2. split.
  - exists c2, leaked. split; [exact HP3|]. split; [done|]. etransitivity; [exact Hn2|]. lia.
  - exact Hlive.
  - exact Hq.
  - cbn [set_num set_pool cur_conn_num live]. change (cur_conn_num (set_co_pool pool (next_co s2) s2)) with (cur_conn_num s2). rewrite Hnum2, Z.add_simpl_r, wrap_u_id by (unfold in_u; lia). split; [exact Hnum|]. etransitivity; [exact Hln|]. lia.
  - split; [exact Hmax|]. intros Hs'. by destruct Hs.
Qed.

Lemma req_buffers_delete (l : list udp_req_ctx_t) i r d o : l !! i = Some r -> data r = Some d -> obuffer r = Some o -> req_buffers l ≡ₚ d :: o :: req_buffers (delete i l).
Proof. intros Hi Hd Ho. unfold req_buffers. rewrite (delete_Permutation l i r Hi) at 1 2. cbn. rewrite Hd, Ho. cbn. solve_Permutation. Qed.

Lemma in_use_queue q1 q2 s : in_use (set_queues q1 q2 s) = req_buffers (live s) ++ omap tx_data q1 ++ omap tx_data q2.
Proof. done. Qed.

(** The end of a request: its output buffer goes into the queue, or nowhere. *)
Lemma finish_keeps n m i s s' : Z.of_nat n <= 2 ^ 31 -> udp_ok n m s -> finish i s = Done s' ->
  udp_ok n (if bool_decide (length (tx_queue s') = length (tx_queue s)) then S m else m) s'.
Proof.
  intros Hbound [(cached & leaked & HP & Hl & Hn) Hlive Hq [Hnum Hln] [Hmax Hle]] E. unfold finish in E. destruct (live s !! i) as [r|] eqn:Ei; [|done]. cbn [of_option] in E. rewrite outcome_bind_ret in E.
  assert (Hr : has_buffers r) by (by eapply Forall_lookup_1). destruct Hr as [[d Hd] [o Ho]]. apply outcome_bind_Done in E as ([[[ret olen] out] w] & _ & E).
  pose proof (req_buffers_delete _ _ _ _ _ Ei Hd Ho) as Hperm. rewrite Hd, Ho in E. apply outcome_bind_Done in E as (s2 & E2 & E).
  set (s1 := set_live _ _) in E2. assert (Hlen : length (live s) = S (length (delete i (live s)))) by (rewrite length_delete by (by eexists); apply lookup_lt_Some in Ei; lia).
  assert (Hu : u32 (cur_conn_num s - 1) = Z.of_nat (length (delete i (live s)))) by (rewrite Hnum, Hlen, wrap_u_id; unfold in_u; lia).
  assert (Ho1 : o ∈ in_use s ++ leaked) by (unfold in_use; rewrite Hperm; right; left).
  pose proof (pool_ok_write _ _ _ _ _ out Ho1 HP) as HP1. set (b := (ret =? 0) && (0 <? olen)) in *.
  set (s1' := if b then _ else _) in E2. set (leaked' := if b then leaked else o :: leaked).
  assert (Hin : in_use s ++ leaked ≡ₚ d :: in_use s1' ++ leaked').
  { unfold s1', leaked'. unfold in_use at 1. rewrite Hperm. destruct b; [rewrite in_use_queue, omap_app|]; unfold in_use; cbn; rewrite <-?app_assoc; cbn; solve_Permutation. }
  set (s3 := set_num _ s1') in E2. assert (HP3 : pool_ok cached (in_use s ++ leaked) (buffer_pool s3) (contents s3)) by (unfold s3, s1'; destruct b; exact HP1).
  destruct (free_buffer_ok _ _ _ d s3 HP3 Hin) as (c2 & p2 & m2 & Ef & HP4 & Hn2); [lia|]. rewrite Ef in E2. injection E2 as <-.
  assert (tx_queue s' = tx_queue s1' /\ udp_ok n (length leaked') s') as [Hq' Hok].
  { assert (Hs' : exists p0 i0, s' = set_co_pool p0 i0 (set_pool p2 m2 s3)) by (injection E as <-; destruct (_ || _); [by exists (co_pool s3), (next_co s3); destruct s3|by eexists _, _]).
    destruct Hs' as (p0 & i0 & ->). split; [done|]. split.
    - exists c2, leaked'. split; [exact HP4|]. split; [done|]. etransitivity; [exact Hn2|]. done.
    - unfold s3, s1'. destruct b; by apply Forall_delete.
    - unfold s3, s1'. destruct b; [|exact Hq]. cbn. apply Forall_app in Hq as [? ?]. rewrite !Forall_app. split_and!; [done|by constructor|done].
    - assert ((length (delete i (live s)) <= n)%nat) by lia. unfold s3, s1'. by destruct b.
    - split; [unfold s3, s1'; destruct b; exact Hmax|]. intros Hs. assert (Hs0 : to_stop s = 0) by (revert Hs; unfold s3, s1'; by destruct b). specialize (Hle Hs0).
      assert (Hc : cur_conn_num (set_co_pool p0 i0 (set_pool p2 m2 s3)) = Z.of_nat (length (delete i (live s)))) by (unfold s3, s1'; destruct b; exact Hu).
      assert (Hm : max_conn_num (set_co_pool p0 i0 (set_pool p2 m2 s3)) = max_conn_num s) by (unfold s3, s1'; by destruct b). rewrite Hc, Hm. lia. }
  rewrite Hq'. revert Hok. unfold s1', leaked'. destruct b.
  - rewrite bool_decide_eq_false_2; [by rewrite Hl|]. cbn [set_queues tx_queue s1 set_live set_world write_buffer set_pool]. rewrite length_app. cbn. lia.
  - rewrite bool_decide_eq_true_2 by done. cbn [length]. by rewrite Hl.
Qed.

Lemma take_queue_ok n m s : sending s = [] -> udp_ok n m s -> udp_ok n m (take_queue s).
Proof.
  intros Hs [(cached & leaked & HP & Hl & Hn) Hlive Hq Hnum Hmax]. assert (Hin : in_use (take_queue s) = in_use s) by (unfold take_queue; rewrite in_use_queue; unfold in_use; rewrite Hs; cbn; by rewrite app_nil_r).
  split; [exists cached, leaked; by rewrite Hin|done| |done..]. rewrite Hs, app_nil_r in Hq. exact Hq.
Qed.

Lemma send_next_ok n m s : Z.of_nat n <= 2 ^ 31 -> udp_ok n m s -> exists s', send_next s = Done s' /\ udp_ok n m s' /\ tx_queue s' = tx_queue s.
Proof.
  intros Hbound [(cached & leaked & HP & Hl & Hn) Hlive Hq Hnum Hmax]. unfold send_next. destruct (sending s) as [|tx rest] eqn:Es; [exists s; split; [done|]; split; [|done]; split; try done; [by exists cached, leaked|by rewrite Es]|].
  apply Forall_app in Hq as [Hq1 Hq2]. apply Forall_cons in Hq2 as [[b Hb] Hq2]. destruct (sendto _ _ _) as [e w]. rewrite Hb.
  set (s1 := set_queues (tx_queue s) rest (set_world w s)).
  assert (Hin : in_use s ++ leaked ≡ₚ b :: in_use s1 ++ leaked) by (unfold in_use; rewrite Es; cbn; rewrite Hb; cbn; solve_Permutation).
  destruct (free_buffer_ok _ _ _ b s1 HP Hin) as (c2 & p2 & m2 & Ef & HP2 & Hn2); [lia|]. rewrite Ef. eexists. split; [reflexivity|]. split; [|done]. split; try done.
  - exists c2, leaked. split; [exact HP2|]. split; [done|]. etransitivity; [exact Hn2|]. done.
  - by apply Forall_app.
Qed.

Lemma reach_ok n m s0 s : os_ok -> udp_ok 0 0 s0 -> reach s0 n m s -> Z.of_nat n <= 2 ^ 31 -> udp_ok n m s.
Proof.
  intros Hos H0. induction 1 as [|n m s s' _ IH Hg E|n m s i s' _ IH E|n m s _ IH Hs Hsend|n m s s' _ IH E|n m s _ IH]; intros Hb; [done| | | | |].
  - destruct (recv_request_ok n m s Hos (IH ltac:(lia))) as (s2 & E2 & Hok); [lia|done|]. rewrite E in E2. by injection E2 as ->.
  - by eapply finish_keeps; [|apply IH|].
  - by apply take_queue_ok; [|apply IH].
  - destruct (send_next_ok n m s Hb (IH Hb)) as (s2 & E2 & Hok & _). rewrite E in E2. by injection E2 as ->.
  - destruct (IH Hb) as [? ? ? ? [? _]]. by split; [..|split].
Qed.

Lemma in_use_length s : Forall has_buffers (live s) -> Forall (fun tx => is_Some (tx_data tx)) (tx_queue s ++ sending s) ->
  length (in_use s) = (2 * length (live s) + length (tx_queue s) + length (sending s))%nat.
Proof.
  intros Hl [Hq1 Hq2]%Forall_app. unfold in_use, req_buffers. rewrite !length_app.
  assert (Ho : forall q, Forall (fun tx => is_Some (tx_data tx)) q -> length (omap tx_data q) = length q) by (induction 1 as [|tx q [b E] _ IH]; [done|cbn; rewrite E; cbn; by rewrite IH]).
  rewrite !Ho by done. enough (length (omap data (live s)) = length (live s) /\ length (omap obuffer (live s)) = length (live s)) by lia. clear Ho.
  induction Hl as [|r l [[d Hd] [o Ho]] _ IH]; [done|]. cbn. rewrite Hd, Ho. cbn. lia.
Qed.
End udp.

(** ** What holds in every state *)
Section states.
Context {A B W : Type} `{Countable B}.
Context (recvfrom : Z -> W -> Z * list Z * A * W) (sendto : list Z -> A -> W -> Z * W).
Context (conn_proc : A -> list Z -> Z -> list Z -> Z -> W -> outcome (Z * Z * list Z * W)).
Context (os : gmap B (list Z) -> os_call -> option (B * link (cell unit B))) (fresh : B -> list Z) (link_bytes : B -> list Z).

(** A new server: [junk] is what the memory of its list_head holds. *)
Definition new_udp_server (page : Z) (junk : link (cell unit B)) (w : W) : outcome (@udp_server_t A B W _ _) :=
  p ← fixed_mempool_t (<[FixedMempool.free_list := junk]> ∅); Done (init page p w).

Lemma new_udp_server_ok page junk w : 1472 < page -> exists s, new_udp_server page junk w = Done s /\ udp_ok (os_memalign 0 1472) 10000 0 0 s.
Proof.
  intros Hp. set (h := <[FixedMempool.free_list := junk]> ∅ : heap (cell unit B)).
  assert (Ha : CList.alloc h FixedMempool.free_list) by (rewrite alloc_Some; unfold h; rewrite lookup_insert_eq; by eexists).
  destruct (rings_init h [] FixedMempool.free_list) as (h' & E & HR & _); [split; [apply NoDup_nil_2|by intros k l ?%elem_of_nil]|done|by apply not_elem_of_nil|].
  unfold new_udp_server, fixed_mempool_t. fold h. rewrite E, !outcome_bind_ret. eexists. split; [reflexivity|]. unfold init, FixedMempool.init. rewrite (proj2 (Z.leb_gt page 1472) Hp), andb_false_r. cbn [Z.ltb Z.compare].
  split; [|by constructor..]. exists [], []. split; [|by split]. split; [split; [|done]|].
  - split; cbn; [exact HR|constructor|by intros k Hk%elem_of_nil|done|done].
  - intros b. cbn. rewrite lookup_empty. split; [by intros [? ?]|by intros ?%elem_of_nil].
Qed.

(** C31: no buffer of the UDP server has two users.  In every state that receiving,
    workers, sender and stop can lead to, the buffers of the requests that run, of the
    answers that wait or are being sent, and of the requests that got no answer are all
    different, the next one that is allocated is none of them, and the pool's counter is
    exact: a request without an answer keeps a buffer for ever.  The counter of requests
    is exact too and within its limit. *)
Theorem udp_buffers_exclusive page junk w n m s0 s :
  1472 < page -> os_ok os (os_memalign 0 1472) -> new_udp_server page junk w = Done s0 ->
  reach recvfrom sendto conn_proc os fresh link_bytes s0 n m s -> Z.of_nat n <= 2 ^ 31 ->
  exists leaked, length leaked = m /\ NoDup (in_use s ++ leaked) /\
    used_num (buffer_pool s) = Z.of_nat (2 * length (live s) + length (tx_queue s) + length (sending s) + m) /\
    cur_conn_num s = Z.of_nat (length (live s)) /\ (to_stop s = 0 -> cur_conn_num s <= 10000) /\
    exists b s', alloc_buffer os fresh link_bytes s = Done (Some b, s') /\ b ∉ in_use s ++ leaked.
Proof.
  intros Hp Hos E Hr Hn. destruct (new_udp_server_ok page junk w Hp) as (s1 & E1 & H0). rewrite E in E1. injection E1 as <-.
  destruct (reach_ok recvfrom sendto conn_proc os fresh link_bytes _ _ n m s0 s Hos H0 Hr Hn) as [(cached & leaked & HP & Hl & Hb) Hlive Hq [Hnum Hln] [Hmax Hle]].
  exists leaked. split; [done|]. split; [by eapply pool_ok_nodup|]. split.
  - destruct HP as [[[_ _ _ _ Hu] _] _]. rewrite Hu. cbn. rewrite length_app, (in_use_length s Hlive Hq), Hl. rewrite wrap_u_id; [f_equal; lia|].
    rewrite length_app, (in_use_length s Hlive Hq) in Hb. unfold in_u. lia.
  - split; [done|]. split; [by rewrite <-Hmax|]. destruct (alloc_buffer_ok recvfrom sendto os fresh link_bytes _ _ cached _ s Hos HP) as (b & c & p & m' & Ea & Hb' & _). by exists b, (set_pool p m' s).
Qed.
End states.

(** ** What an answer holds *)

Lemma serialize_impl_refuses mem c h out n msg : shows mem c h -> (forall m, msg = Some m -> bytes m) -> total h msg < n -> n < 2 ^ 31 ->
  serialize_cmd_base_impl mem out n c msg (byte_size msg) = Done (-1, n, out).
Proof.
  intros Hs Hm Ht Hn. pose proof (shows_size mem c h msg Hs ltac:(lia)) as Hsz. unfold serialize_cmd_base_impl. unfold total in Ht.
  assert (Hbs : byte_size msg = match msg with Some m => Z.of_nat (length m) | None => 0 end).
  { unfold byte_size. destruct msg as [m|]; [|done]. apply wrap_u_id. unfold in_u. destruct (Hm m eq_refl). lia. }
  assert (0 <= match msg with Some m => Z.of_nat (length m) | None => 0 end) by (destruct msg; lia).
  rewrite Hbs, (wrap_u_id 32 n), wrap_u_id by (unfold in_u; lia). by rewrite (proj2 (Z.ltb_lt _ _)) by lia.
Qed.

Section stale.
Context {K D Msg Obj : Type} `{Countable D}.
Context (sent : K -> list Z) (ran : K -> list (list Z * Msg)) (parse_msg : list Z -> option Msg) (msg_new : Msg -> Msg) (msg_bytes : Msg -> list Z).
Context (method : list Z -> Msg -> Z -> list Z -> Prop) (room : Z).
Implicit Types (h : header) (L : list (D * @rpc_pb_cmd_t K Msg Obj)) (sv : @rpc_pb_server_t K D Msg Obj _ _).

(** An answer that leaves room in the output buffer is refused by
    serialize_cmd_base_impl, and proc_udp_rpc_pb ignores that: the command runs, and the
    client gets the whole buffer as it was, with whatever an earlier user of it has left.
    A request whose body does not parse has no response at all: the server follows a
    NULL. *)
Theorem udp_answer_stale log start L sv mem h req out olen k :
  (exists addrs, loaded (base_server sv) L addrs) -> (forall d c, (d, c) ∈ L -> handler sent parse_msg msg_bytes ran method room c) ->
  header_ok h -> (forall m, req = Some m -> bytes m) -> h_type h = REQUEST_TYPE -> 0 < h_cmd h \/ h_name h <> [] ->
  (exists d c, (d, c) ∈ L /\ names h c) -> Z.of_nat (length (message h req)) < 2 ^ 31 -> take (length (message h req)) mem = message h req ->
  Z.of_nat (length (default [] req)) + 68 < room -> room + 13 <= olen < 2 ^ 31 ->
  let run := proc_udp_rpc_pb parse_msg msg_new msg_bytes log start mem (Z.of_nat (length (message h req))) out olen sv k in
  match parse_msg (default [] req) with
  | Some r => exists d c ret b sv' k', (d, c) ∈ L /\ names h c /\ method (method_name c) r ret b /\ run = Done (olen, out, sv', k') /\ sent k' = sent k /\ ran k' = ran k ++ [(method_name c, r)]
  | None => run = Fault
  end.
Proof.
  intros HL Hh Hok Hm Hty Hsome Hknown Hn Hmem Hroom Holen run.
  assert (Hlb : bytes (default [] req)) by (destruct req as [m|]; [by apply Hm|by split; [|constructor]]).
  destruct (parse_message start mem h req _ Hok Hm Hn Hmem eq_refl) as (c & E & Hs). unfold run, proc_udp_rpc_pb. rewrite wrap_s_id; [|lia|unfold in_s; lia].
  rewrite E, outcome_bind_ret. cbn [negb Z.eqb]. rewrite (sh_type _ _ _ Hs). cbn [with_body h_type]. rewrite Hty. change (negb (REQUEST_TYPE =? REQUEST_TYPE)) with false. cbn match.
  destruct (find_cmd_ok L sv mem c h (default [] req) HL Hs Hsome) as [(d & x & Ef & Hin & Hx)|[_ Hno]]; [|destruct Hknown as (d & x & Hin & Hx); by destruct (Hno d x Hin)].
  rewrite Ef, !outcome_bind_ret. cbn [of_option]. rewrite outcome_bind_ret. cbn [fst snd]. pose proof (sh_body _ _ _ Hs) as Hb. cbn [with_body h_body] in Hb.
  destruct (call_cb_runs sent parse_msg msg_new msg_bytes ran method room log mem x (Ctx 0 c) (body c) (default [] req) [] k (Hh d x Hin) (ref_bytes_is _ _ _ Hb) Hlb Hroom)
    as (ret & rsp & err & ctx & x' & k' & Ec & _ & Hret & Hruns & Hk & Hran). rewrite Ec, outcome_bind_ret. unfold runs in Hruns. unfold runs_of in Hran.
  destruct (parse_msg (default [] req)) as [r|] eqn:Er.
  - destruct Hruns as (b & Eb & Hmeth). destruct rsp as [m|]; [|done]. injection Eb as <-. cbn [of_option]. rewrite outcome_bind_ret.
    destruct (ha_room _ _ _ _ _ _ _ (Hh d x Hin) r ret (msg_bytes m)) as [Hbb Hbl]; [exists (default [] req); by split_and!|done|]. destruct (response_ok ret Hret) as [_ Hrs].
    rewrite (serialize_impl_refuses [] _ _ out olen (Some (msg_bytes m)) Hrs); [|by intros ? [= <-]|unfold total; cbn; lia|lia]. rewrite outcome_bind_ret.
    eexists d, x, ret, (msg_bytes m), _, k'. by split_and!.
  - destruct Hruns as [_ Hnone]. destruct rsp; [done|]. reflexivity.
Qed.
End stale.

(** ** A server at work *)

(** The rpc server, the datagrams to come and those that were sent, with addresses. *)
Definition udp_world : Type := @rpc_pb_server_t server_wire nat (list Z) unit _ _ * list (list Z * Z) * list (list Z * Z).

Definition recv_datagram (n : Z) (w : udp_world) : Z * list Z * Z * udp_world :=
  match w.1.2 with
  | (l, a) :: rest => let l := take (Z.to_nat n) l in (Z.of_nat (length l), l, a, (w.1.1, rest, w.2))
  | [] => (-1, [], 0, w)
  end.
Definition send_datagram (l : list Z) (a : Z) (w : udp_world) : Z * udp_world := (Z.of_nat (length l), (w.1, w.2 ++ [(l, a)])).
Definition udp_callback (a : Z) (mem : list Z) (n : Z) (out : list Z) (olen : Z) (w : udp_world) : outcome (Z * Z * list Z * udp_world) :=
  r ← proc_udp_rpc_pb parse_list (fun _ => []) id true no_field mem n out olen w.1.1 ([], [], []);
  let '(olen, out, sv, _) := r in Done (0, olen, out, (sv, w.1.2, w.2)).

Definition some_link : link (cell unit nat) := Link None None.
Definition next_block (m : gmap nat (list Z)) (c : os_call) : option (nat * link (cell unit nat)) := Some (S (list_max (map_to_list m).*1), some_link).
Definition zeros (b : nat) : list Z := replicate 1472 0.
Definition pointers (b : nat) : list Z := replicate 16 238.

Lemma next_block_ok : os_ok next_block (os_memalign 0 1472).
Proof.
  intros m. eexists _, _. split; [reflexivity|]. apply eq_None_not_Some. intros [l Hl]. apply elem_of_map_to_list, (list_elem_of_fmap_2 fst) in Hl. cbn in Hl.
  pose proof (proj1 (list_max_le (map_to_list m).*1 _) (le_n _)) as Hm. rewrite Forall_forall in Hm. specialize (Hm _ Hl). lia.
Qed.

(** Client 1 sends a request with a long body, and client 2 a short one. *)
Definition private_body : list Z := seqZ 65 26.
Definition private_request : list Z := message (Header 1 [] 5 1 [] 0 []) (Some private_body).
Definition short_request : list Z := message (Header 1 [] 5 1 [] 0 []) (Some [1]).

Abbreviation udp_recv := (recv_request recv_datagram next_block zeros pointers).
Abbreviation udp_finish := (finish udp_callback).
Abbreviation udp_send := (send_next send_datagram).

Definition two_clients : outcome (list (list Z * Z)) :=
  b ← loaded_base;
  s ← new_udp_server 4096 some_link (back_server b, [(private_request, 1); (short_request, 2)], []);
  s ← udp_recv s; s ← udp_finish 0 s; s ← udp_send (take_queue s);
  s ← udp_recv s; s ← udp_finish 0 s; s ← udp_send (take_queue s);
  Done (world s).2.

(** The buffer of a request becomes the output buffer of the next one, so that with
    two small requests the second client receives what the first one has sent, but for
    its first bytes, in which the pool keeps its list. *)
Theorem udp_leaks_previous_request :
  two_clients = Done [(replicate 1472 0, 1); (replicate 16 238 ++ drop 8 private_body ++ replicate 1438 0, 2)] /\ drop 8 private_request = private_body.
Proof. split; vm_compute; reflexivity. Qed.

Lemma short_body : forall m, Some [1] = Some m -> bytes m.
Proof. intros m [= <-]. by repeat constructor. Qed.

Lemma short_header : header_ok (Header 1 [] 5 1 [] 0 []).
Proof. split; [split_and!; cbn; unfold in_u; lia|by split_and!; split; [|constructor..]]. Qed.

Lemma udp_answer_stale_witness : exists b sv' k', loaded_base = Done b /\
  proc_udp_rpc_pb parse_list (fun _ => []) id true no_field short_request (Z.of_nat (length short_request)) (zeros 0) 1472 (back_server b) ([], [], []) = Done (1472, zeros 0, sv', k').
Proof.
  destruct back_server_ok as (b & Eb & [_ _ _ Hl Hh]).
  destruct (udp_answer_stale sw_out snd parse_list (fun _ => []) id back_method 512 true no_field [(1%nat, back)] (back_server b) short_request (Header 1 [] 5 1 [] 0 []) (Some [1]) (zeros 0) 1472 ([], [], []) Hl Hh short_header short_body)
    as (d & c & ret & l & sv' & k' & _ & _ & _ & E & _).
  - reflexivity.
  - left. reflexivity.
  - exists 1%nat, back. split; [left|reflexivity].
  - vm_compute. reflexivity.
  - apply take_ge. reflexivity.
  - vm_compute. reflexivity.
  - split; [vm_compute; discriminate|reflexivity].
  - exists b, sv', k'. split; [exact Eb|exact E].
Defined.

Lemma udp_buffers_exclusive_witness : exists b s0 s1 leaked, loaded_base = Done b /\
  new_udp_server 4096 some_link (back_server b, [(short_request, 2)], []) = Done s0 /\ udp_recv s0 = Done s1 /\
  NoDup (in_use s1 ++ leaked) /\ used_num (buffer_pool s1) = Z.of_nat (2 * length (live s1) + length (tx_queue s1) + length (sending s1) + 0).
Proof.
  destruct back_server_ok as (b & Eb & _). set (w := (back_server b, [(short_request, 2)], []) : udp_world).
  destruct (new_udp_server_ok (A := Z) 4096 some_link w) as (s0 & E0 & H0); [done|].
  destruct (recv_request_ok recv_datagram send_datagram next_block zeros pointers (os_memalign 0 1472) 10000 0 0 s0 next_block_ok H0) as (s1 & E1 & _);
    [done|left; rewrite (proj1 (uo_max _ _ _ _ _ H0)), (proj1 (uo_num _ _ _ _ _ H0)); unfold new_udp_server, fixed_mempool_t in E0; by injection E0 as <-|].
  destruct (udp_buffers_exclusive recv_datagram send_datagram udp_callback next_block zeros pointers 4096 some_link w 1 0 s0 s1) as (leaked & _ & Hnd & Hu & _).
  - done.
  - apply next_block_ok.
  - exact E0.
  - apply (reach_recv _ _ _ _ _ _ _ 0 0 s0); [constructor| |exact E1].
    left. rewrite (proj1 (uo_max _ _ _ _ _ H0)), (proj1 (uo_num _ _ _ _ _ H0)). unfold new_udp_server, fixed_mempool_t in E0. by injection E0 as <-.
  - done.
  - exists b, s0, s1, leaked. exact (conj Eb (conj E0 (conj E1 (conj Hnd Hu)))).
Defined.
