(* ===== verification/RpcAsync.v ===== *)
(** * svrkit/src/rpc_pb_server.cpp, channel.cpp: many requests on a connection

    The server for duplex clients reads whatever arrives into a vector, cuts it into
    requests and resumes a worker for each; a worker runs the command and gives its
    answer to the channel, whose writing coroutine sends the messages in order.  The
    theorems: the requests run once each and in order, however the stream is cut; the
    channel writes its messages whole and in order; and the answers that do not fill
    their buffer never reach the channel.  A callback runs to its end without a switch. *)
From stdpp Require Import list gmap.
From S2P Require Import Prelude Words Memory HashTable Pbc RpcBase CmdBase PacketStream RpcServer.

(** ** channel_t *)

(** A message of the queue is its bytes. *)
Record channel_t := Channel {
  to_stop : Z; r_stop : Z; w_stop : Z; tx_queue : list (list Z); pending_tx_num : Z; max_pending : Z }.
Implicit Types ch : channel_t.

(** The constructor and init. *)
Definition new_channel : channel_t := Channel 0 0 0 [] 0 100.

Definition set_tx (q : list (list Z)) ch : channel_t := Channel (to_stop ch) (r_stop ch) (w_stop ch) q (pending_tx_num ch) (max_pending ch).
Definition set_pending (n : Z) ch : channel_t := Channel (to_stop ch) (r_stop ch) (w_stop ch) (tx_queue ch) n (max_pending ch).
Definition set_w_stop (n : Z) ch : channel_t := Channel (to_stop ch) (r_stop ch) n (tx_queue ch) (pending_tx_num ch) (max_pending ch).
Definition set_r_stop (n : Z) ch : channel_t := Channel (to_stop ch) n (w_stop ch) (tx_queue ch) (pending_tx_num ch) (max_pending ch).
Definition set_to_stop (n : Z) ch : channel_t := Channel n (r_stop ch) (w_stop ch) (tx_queue ch) (pending_tx_num ch) (max_pending ch).

(** send_msg, which wakes the writing coroutine too. *)
Definition send_msg (m : list Z) ch : channel_t := set_pending (i32 (pending_tx_num ch + 1)) (set_tx (tx_queue ch ++ [m]) ch).

Section channel.
Context {K : Type}.
Context (recv : Z -> Z -> K -> Z * list Z * K) (send : Z -> list Z -> K -> Z * K) (poll : Z -> Z -> K -> Z * Z * K) (errno : K -> Z).
Implicit Types (k : K) (queue : list (list Z)).

(** The writing coroutine: the test of its loop and list_swap, ... *)
Definition write_next ch : option (list (list Z) * channel_t) :=
  if (to_stop ch =? 0) && (r_stop ch =? 0) then Some (tx_queue ch, set_tx [] ch) else None.

(** ... a round of list_for_each_entry_safe, ... *)
Definition write_one (m : list Z) ch k : outcome (Z * channel_t * K) :=
  r ← send_data send m k; Done (r.1, set_pending (i32 (pending_tx_num ch - 1)) ch, r.2).

(** ... and the whole coroutine until it waits for a message ([true]) or ends; [queue]
    is its local list.  The [fuel] bounds the messages. *)
Fixpoint do_write_co (fuel : nat) queue ch k : outcome (bool * channel_t * K) :=
  match fuel with
  | O => NoFuel
  | S fuel =>
      match queue with
      | m :: queue =>
          r ← write_one m ch k;
          let '(ret, ch, k) := r in
          if ret <=? 0 then Done (false, set_w_stop 1 ch, k) else do_write_co fuel queue ch k
      | [] =>
          match write_next ch with
          | None => Done (false, set_w_stop 1 ch, k)
          | Some ([], ch) => Done (true, ch, k)
          | Some (queue, ch) => do_write_co fuel queue ch k
          end
      end
  end.

(** A round of the reading coroutine; [cb] is the callback for new data.  [true] when
    the loop goes on. *)
Definition read_round {W} (read_buff_len : Z) (cb : list Z -> channel_t * W -> outcome (Z * (channel_t * W))) ch (w : W) k : outcome (bool * channel_t * W * K) :=
  if negb ((to_stop ch =? 0) && (w_stop ch =? 0)) then Done (false, set_r_stop 1 ch, w, k)
  else if max_pending ch <=? pending_tx_num ch then Done (true, ch, w, k)
  else
    let '(ret, _, k) := poll (Z.lor POLLIN (Z.lor POLLERR POLLHUP)) 1000 k in
    if ret =? 0 then Done (true, ch, w, k)
    else if ret <? 0 then if errno k =? 4 then Done (true, ch, w, k) else Done (false, set_r_stop 1 ch, w, k)
    else
      let '(ret, l, k) := recv 0 read_buff_len k in
      if ret <=? 0 then Done (false, set_r_stop 1 ch, w, k)
      else
        r ← cb l (ch, w);
        let '(ret, (ch, w)) := r in
        if ret <=? 0 then Done (false, set_r_stop 1 (set_to_stop 1 ch), w, k) else Done (true, ch, w, k).
End channel.

(** ** What a channel writes *)
Section writing.
Context {K : Type}.
Context (send : Z -> list Z -> K -> Z * K) (poll : Z -> Z -> K -> Z * Z * K) (get_tick_ms : K -> Z * K) (sent : K -> list Z).
Implicit Types (k : K) (queue msgs : list (list Z)).

(** The steps of a channel whose coroutines interleave: calls of send_msg, the writing
    coroutine between two sends, and the stops that others ask for.  [msgs] are the
    messages so far, and [queue] is the local list of the writer. *)
Inductive channel_runs k0 : list (list Z) -> list (list Z) -> channel_t -> K -> Prop :=
| run_new : channel_runs k0 [] [] new_channel k0
| run_send msgs queue ch k m : channel_runs k0 msgs queue ch k -> m <> [] -> channel_runs k0 (msgs ++ [m]) queue (send_msg m ch) k
| run_next msgs queue ch ch' k : channel_runs k0 msgs [] ch k -> w_stop ch = 0 -> write_next ch = Some (queue, ch') -> channel_runs k0 msgs queue ch' k
| run_write msgs queue ch ch' k k' m ret : channel_runs k0 msgs (m :: queue) ch k -> w_stop ch = 0 ->
    write_one send m ch k = Done (ret, ch', k') ->
    channel_runs k0 msgs (if ret <=? 0 then [] else queue) (if ret <=? 0 then set_w_stop 1 ch' else ch') k'
| run_end msgs ch k : channel_runs k0 msgs [] ch k -> write_next ch = None -> channel_runs k0 msgs [] (set_w_stop 1 ch) k
| run_stop msgs queue ch k : channel_runs k0 msgs queue ch k -> channel_runs k0 msgs queue (set_to_stop 1 ch) k
| run_read_stop msgs queue ch k : channel_runs k0 msgs queue ch k -> channel_runs k0 msgs queue (set_r_stop 1 ch) k.

Record channel_inv k0 msgs queue ch k (fin pend : list (list Z)) : Prop := {
  ci_split : msgs = fin ++ pend;
  ci_sent : exists part more, sent k = sent k0 ++ mjoin fin ++ part /\ mjoin pend = part ++ more /\ (w_stop ch = 0 -> part = []);
  ci_live : w_stop ch = 0 -> pend = queue ++ tx_queue ch /\ pending_tx_num ch = i32 (Z.of_nat (length pend));
  ci_full : Forall (fun m => m <> []) msgs }.

Lemma wrap_s_add w x y : 0 < w -> wrap_s w (wrap_s w x + y) = wrap_s w (x + y).
Proof.
  intros Hw. unfold wrap_s. f_equal. replace ((x + 2 ^ (w - 1)) mod 2 ^ w - 2 ^ (w - 1) + y + 2 ^ (w - 1)) with ((x + 2 ^ (w - 1)) mod 2 ^ w + y) by lia.
  rewrite Zplus_mod_idemp_l. f_equal. lia.
Qed.

Context (Hsink : sink_ok send poll get_tick_ms sent).

Lemma write_one_ok m ch k : m <> [] -> exists ret k', write_one send m ch k = Done (ret, set_pending (i32 (pending_tx_num ch - 1)) ch, k') /\
  exists part more, sent k' = sent k ++ part /\ m = part ++ more /\ (0 < ret -> more = []) .
Proof.
  intros Hm. assert (Hd : delivered sent (sent k) m (send_data send m k)).
  { apply (send_data_loop_ok send poll get_tick_ms sent (sent k) m (length m) 0 k Hsink); [lia|lia|]. by rewrite take_0, app_nil_r. }
  destruct Hd as (r & k' & E & Hr). unfold write_one. rewrite E, outcome_bind_ret. exists r, k'. split; [done|]. destruct Hr as [[-> Hk]|(Hr & n & Hn & Hk)].
  - exists m, []. by rewrite app_nil_r.
  - exists (take n m), (drop n m). rewrite take_drop. split_and!; [done|done|lia].
Qed.

Lemma channel_runs_inv k0 msgs queue ch k : channel_runs k0 msgs queue ch k -> exists fin pend, channel_inv k0 msgs queue ch k fin pend.
Proof.
  induction 1 as [|msgs queue ch k m _ (fin & pend & [-> (part & more & Hk & Hp & Hw) Hl Hf]) Hm|msgs queue ch ch' k _ (fin & pend & [-> (part & more & Hk & Hp & Hw) Hl Hf]) Hw0 E
    |msgs queue ch ch' k k' m ret _ (fin & pend & [-> (part & more & Hk & Hp & Hw) Hl Hf]) Hw0 E|msgs ch k _ (fin & pend & [-> (part & more & Hk & Hp & Hw) Hl Hf]) E
    |msgs queue ch k _ (fin & pend & [-> (part & more & Hk & Hp & Hw) Hl Hf])|msgs queue ch k _ (fin & pend & [-> (part & more & Hk & Hp & Hw) Hl Hf])].
  - exists [], []. split; [done|exists [], []; by rewrite app_nil_r|by split|constructor].
  - exists fin, (pend ++ [m]). split; [by rewrite app_assoc| | |apply Forall_app; split; [done|by repeat constructor]].
    + exists part, (more ++ m). split; [done|]. split; [|done]. rewrite join_app, Hp, <-app_assoc. cbn. by rewrite app_nil_r.
    + intros Hws. destruct (Hl Hws) as [-> Hn]. cbn [send_msg set_pending pending_tx_num set_tx tx_queue]. split; [by rewrite <-app_assoc|]. rewrite Hn, wrap_s_add by lia. f_equal. rewrite !length_app. cbn [length]. lia.
  - unfold write_next in E. destruct (_ && _); [|done]. injection E as <- <-. exists fin, pend. split; [done|by exists part, more| |done].
    intros Hws. destruct (Hl Hws) as [-> Hn]. split; [|done]. cbn [set_tx tx_queue]. by rewrite app_nil_r.
  - destruct (Hl Hw0) as [-> Hn]. specialize (Hw Hw0). subst part. apply Forall_app in Hf as [Hf1 Hf2]. apply Forall_cons in Hf2 as [Hm Hf2].
    destruct (write_one_ok m ch k Hm) as (r' & k2 & E2 & p2 & m2 & Hk2 & Hp2 & Hr2). rewrite E in E2. injection E2 as <- -> <-.
    rewrite Hk, app_nil_r in Hk2. destruct (Z.leb_spec ret 0) as [Hr|Hr].
    + exists fin, ((m :: queue) ++ tx_queue ch). split; [done| |done|by apply Forall_app; split; [|by constructor]].
      exists p2, (m2 ++ mjoin (queue ++ tx_queue ch)). split; [by rewrite Hk2, <-app_assoc|]. split; [|done].
      change (mjoin ((m :: queue) ++ tx_queue ch)) with (m ++ mjoin (queue ++ tx_queue ch)). by rewrite Hp2 at 1; rewrite <-app_assoc.
    + specialize (Hr2 Hr). subst m2. rewrite app_nil_r in Hp2. subst p2. exists (fin ++ [m]), (queue ++ tx_queue ch). split.
      * by rewrite <-app_assoc.
      * exists [], (mjoin (queue ++ tx_queue ch)). split; [|done]. rewrite join_app, Hk2, app_nil_r. cbn. by rewrite app_nil_r, <-app_assoc.
      * intros _. split; [done|]. cbn [set_pending pending_tx_num]. rewrite Hn. replace (i32 _ - 1) with (i32 (Z.of_nat (length ((m :: queue) ++ tx_queue ch))) + -1) by lia.
        rewrite wrap_s_add by lia. f_equal. cbn [app length]. lia.
      * apply Forall_app. split; [done|by constructor].
  - exists fin, pend. split; [done|by exists part, more|done|done].
  - exists fin, pend. split; [done|by exists part, more|done|done].
  - exists fin, pend. split; [done|by exists part, more|done|done].
Qed.

(** C28: a channel writes its messages whole and in the order of the calls of send_msg,
    whatever other coroutines do between two sends: what is sent is the messages of a
    first part of that order, and, after the writer has ended, at most the front of the
    next one.  While it runs, pending_tx_num counts the messages that are left. *)
Theorem channel_in_order k0 msgs queue ch k :
  channel_runs k0 msgs queue ch k ->
  exists fin pend part more, msgs = fin ++ pend /\ sent k = sent k0 ++ mjoin fin ++ part /\ mjoin pend = part ++ more /\
    (w_stop ch = 0 -> part = [] /\ pend = queue ++ tx_queue ch /\ (Z.of_nat (length msgs) < 2 ^ 31 -> pending_tx_num ch = Z.of_nat (length pend))).
Proof.
  intros Hrun. destruct (channel_runs_inv _ _ _ _ _ Hrun) as (fin & pend & [E (part & more & Hk & Hp & Hw) Hl _]). exists fin, pend, part, more.
  split; [done|]. split; [done|]. split; [done|]. intros Hws. destruct (Hl Hws) as [Ep Hn]. split; [by apply Hw|]. split; [done|]. intros Hlen.
  rewrite Hn. apply wrap_s_id; [lia|]. rewrite E, length_app in Hlen. unfold in_s. lia.
Qed.

(** The writing coroutine runs until it has written everything or has to end. *)
Lemma do_write_co_runs fuel k0 msgs queue ch k :
  channel_runs k0 msgs queue ch k -> w_stop ch = 0 -> (length queue + 2 * length (tx_queue ch) + 1 < fuel)%nat ->
  exists go ch' k', do_write_co send fuel queue ch k = Done (go, ch', k') /\ channel_runs k0 msgs [] ch' k' /\
    (go = true -> w_stop ch' = 0 /\ tx_queue ch' = [] /\ sent k' = sent k0 ++ mjoin msgs) /\ (go = false -> w_stop ch' = 1).
Proof.
  revert queue ch k. induction fuel as [|fuel IH]; intros queue ch k Hrun Hw Hfuel; [lia|]. cbn [do_write_co]. destruct queue as [|m queue].
  - destruct (write_next ch) as [[queue ch1]|] eqn:E.
    + pose proof (run_next _ _ _ _ _ _ Hrun Hw E) as Hrun1. assert (E1 : ch1 = set_tx [] ch /\ queue = tx_queue ch) by (unfold write_next in E; destruct (_ && _); [by injection E as <- <-|done]).
      destruct E1 as [-> ->]. destruct (tx_queue ch) as [|m queue] eqn:Eq.
      * exists true, (set_tx [] ch), k. split; [done|]. split; [done|]. split; [intros _|done]. split; [done|]. split; [done|].
        destruct (channel_runs_inv _ _ _ _ _ Hrun1) as (fin & pend & [-> (part & more & Hk & Hp & Hw1) Hl _]). destruct (Hl Hw) as [Ep _]. cbn [set_tx tx_queue app] in Ep.
        subst pend. cbn in Hp. by rewrite Hk, (Hw1 Hw), !app_nil_r.
      * apply IH; [done|done|]. cbn [set_tx tx_queue length] in *. lia.
    + exists false, (set_w_stop 1 ch), k. split; [done|]. split; [by apply run_end|by split].
  - assert (Hm : m <> []).
    { destruct (channel_runs_inv _ _ _ _ _ Hrun) as (fin & pend & [-> _ Hl Hf]). destruct (Hl Hw) as [-> _]. apply Forall_app in Hf as [_ Hf]. by apply Forall_cons in Hf as [? _]. }
    destruct (write_one_ok m ch k Hm) as (ret & k1 & E & _). pose proof (run_write _ _ _ _ _ _ _ _ _ Hrun Hw E) as Hrun1. rewrite E, outcome_bind_ret.
    destruct (ret <=? 0).
    + exists false, (set_w_stop 1 (set_pending (i32 (pending_tx_num ch - 1)) ch)), k1. by split_and!.
    + apply IH; [done|done|]. cbn [set_pending tx_queue length] in *. lia.
Qed.
End writing.

(** ** async_rpc_channel_ctx_t *)

Record async_rpc_channel_ctx_t := AsyncCtx { read_data : list Z; pack_len : Z }.
Implicit Types a : async_rpc_channel_ctx_t.

Section reading.
Context {W : Type} (proc_data : list Z -> Z -> W -> outcome (Z * W)).

(** pack_len, once four bytes are there. *)
Definition next_pack_len a : outcome Z :=
  if (pack_len a =? 0) && (4 <=? Z.of_nat (length (read_data a))) then l ← load_bytes (read_data a) 0 4; Done (ntohl l) else Done (pack_len a).

(** The loop; every round takes a packet out of the vector. *)
Fixpoint read_loop (fuel : nat) a (w : W) : outcome (Z * async_rpc_channel_ctx_t * W) :=
  match fuel with
  | O => NoFuel
  | S fuel =>
      let r_len := Z.of_nat (length (read_data a)) in
      n ← next_pack_len a;
      if u32 (n + 4) <=? r_len then
        r ← proc_data (drop 4 (read_data a)) (i32 n) w;
        if r_len <? n + 4 then Fault
        else
          let a := AsyncCtx (drop (Z.to_nat (n + 4)) (read_data a)) 0 in
          if negb (r.1 =? 0) then Done (-1, a, r.2) else read_loop fuel a r.2
      else Done (1, AsyncCtx (read_data a) n, w)
  end.

Definition read_data_cb (data : list Z) a (w : W) : outcome (Z * async_rpc_channel_ctx_t * W) :=
  let a := AsyncCtx (read_data a ++ data) (if bool_decide (read_data a = []) then 0 else pack_len a) in
  read_loop (S (length (read_data a))) a w.

(** The pieces that arrive, one after the other. *)
Fixpoint read_chunks (chunks : list (list Z)) a (w : W) : outcome (Z * async_rpc_channel_ctx_t * W) :=
  match chunks with
  | [] => Done (1, a, w)
  | data :: chunks =>
      r ← read_data_cb data a w;
      let '(ret, a, w) := r in if ret <=? 0 then Done (ret, a, w) else read_chunks chunks a w
  end.
End reading.

(** ** The requests of a connection *)
Section async.
Context {K D Msg Obj : Type} `{Countable D}.
Context (parse_msg : list Z -> option Msg) (msg_new : Msg -> Msg) (msg_bytes : Msg -> list Z).

(** What new char[10240] returns, and the cmd_base of a worker's context, which
    nothing writes. *)
Context (out_data : list Z) (ctx_base : cmd_base_t).

Record async_server := Async { rpc_server : @rpc_pb_server_t K D Msg Obj _ _; async_req_num : Z; ch : channel_t; kern : K }.
Implicit Types s : async_server.

Definition set_ch (c : channel_t) s : async_server := Async (rpc_server s) (async_req_num s) c (kern s).

Definition send_rpc_rsp (c : cmd_base_t) (retcode : Z) (err : list Z) (msg : option (list Z)) s : outcome (Z * async_server) :=
  let c := set_ret (u32 retcode) (set_type RESPONSE_TYPE (set_seq (seq_id c) CmdBase.init)) in
  let c := if bool_decide (err = []) then c else set_errmsg (RefStr (Z.of_nat (length err)) (Some 0)) c in
  r ← serialize_cmd_base err out_data 10240 c msg;
  let '(ret, n, out) := r in
  if ret =? 0 then l ← load_bytes out 0 (Z.to_nat (i32 n)); Done (0, set_ch (send_msg l (ch s)) s) else Done (0, s).

(** async_proc_worker from its resumption with a request to its end. *)
Definition async_proc_worker (log : bool) (mem : list Z) (d : D) (cmd : @rpc_pb_cmd_t K Msg Obj) (c : cmd_base_t) s : outcome async_server :=
  r ← rpc_pb_call_cb parse_msg msg_new log mem cmd (Ctx 0 ctx_base) (body c) [] (kern s);
  let '(retcode, rsp, err, _, cmd, k) := r in
  r ← send_rpc_rsp c retcode err (msg_bytes <$> rsp) (Async (set_cmd d cmd (rpc_server s)) (async_req_num s) (ch s) k);
  let s := r.2 in
  let sv := match rsp with Some m => set_cmd d (set_pools (req_pool cmd) (pool_release m (rsp_pool cmd)) cmd) (rpc_server s) | None => rpc_server s end in
  Done (Async sv (async_req_num s + 1) (ch s) (kern s)).

Definition proc_data (log : bool) (start : pb_field_t) (mem : list Z) (n : Z) s : outcome (Z * async_server) :=
  r ← parse start mem n CmdBase.init;
  let '(ret, c) := r in
  if negb (ret =? 0) then Done (-1, s)
  else if negb (type c =? REQUEST_TYPE) then Done (-2, s)
  else
    cmd ← find_cmd mem c (rpc_server s);
    match cmd with
    | inl err => r ← send_rpc_rsp c (-2) err None s; Done (-3, r.2)
    | inr cmd => dc ← of_option cmd; s ← async_proc_worker log mem dc.1 dc.2 c s; Done (0, s)
    end.
End async.

(** ** A stream that comes in pieces *)
Section reassembly.
Context {W : Type} (proc_data : list Z -> Z -> W -> outcome (Z * W)).
Implicit Types (w : W) (ps : list (list Z)).

(** The packets are processed one after the other. *)
Inductive chain (run : list Z -> W -> W -> Prop) : list (list Z) -> W -> W -> Prop :=
| chain_nil w : chain run [] w w
| chain_cons p ps w1 w2 w3 : run p w1 w2 -> chain run ps w2 w3 -> chain run (p :: ps) w1 w3.

Lemma requests_join run ps1 ps2 w1 w2 w3 : chain run ps1 w1 w2 -> chain run ps2 w2 w3 -> chain run (ps1 ++ ps2) w1 w3.
Proof. induction 1; [done|]. intros H2. by eapply chain_cons; [|apply IHchain]. Qed.

Context (inv : W -> Prop) (run : list Z -> W -> W -> Prop) (good : list Z -> Prop).
Context (Hproc : forall p tail w, good p -> inv w -> exists w', proc_data (p ++ tail) (Z.of_nat (length p)) w = Done (0, w') /\ run p w w' /\ inv w').
Context (Hgood : forall p, good p -> 0 < Z.of_nat (length p) < 2 ^ 31).

(** pack_len is the length of the packet that the vector starts with, once it is known. *)
Definition len_ok a ps : Prop :=
  match ps with
  | [] => pack_len a = 0
  | p :: _ => pack_len a = 0 \/ 4 <= Z.of_nat (length (read_data a)) /\ pack_len a = Z.of_nat (length p)
  end.

Lemma read_data_head a p ps more : read_data a ++ more = mjoin (packet <$> p :: ps) -> (4 <= length (read_data a))%nat ->
  load_bytes (read_data a) 0 4 = Done (be32 (Z.of_nat (length p))).
Proof.
  intros E Hl. assert (E' : read_data a ++ more = be32 (Z.of_nat (length p)) ++ p ++ mjoin (packet <$> ps)) by (rewrite E, app_assoc; done).
  apply app_front in E' as [Hf _]; [|by rewrite be32_length].
  rewrite <-(be32_length (Z.of_nat (length p))) at 1. apply load_bytes_reads; [done|]. exact Hf.
Qed.

Lemma next_pack_len_ok a p ps more :
  good p -> read_data a ++ more = mjoin (packet <$> p :: ps) -> len_ok a (p :: ps) ->
  next_pack_len a = Done (if 4 <=? Z.of_nat (length (read_data a)) then Z.of_nat (length p) else 0).
Proof.
  intros Hp E Hlen. specialize (Hgood p Hp). unfold next_pack_len. destruct Hlen as [->|[H4 ->]].
  - cbn [Z.eqb andb]. destruct (Z.leb_spec 4 (Z.of_nat (length (read_data a)))); [|done].
    rewrite (read_data_head a p ps more) by (done || lia). rewrite outcome_bind_ret, ntohl_be32; [done|]. unfold in_u. lia.
  - rewrite (proj2 (Z.eqb_neq _ 0)) by lia. by rewrite (proj2 (Z.leb_le 4 _)) by done.
Qed.

Lemma read_loop_ok fuel a w ps more :
  (length (read_data a) < fuel)%nat -> Forall good ps -> inv w -> read_data a ++ more = mjoin (packet <$> ps) -> len_ok a ps ->
  exists ps1 ps2 a' w', read_loop proc_data fuel a w = Done (1, a', w') /\ ps = ps1 ++ ps2 /\ (chain run ps1 w w' /\ inv w') /\
    read_data a' ++ more = mjoin (packet <$> ps2) /\ len_ok a' ps2 /\
    (length (read_data a') <= length (read_data a))%nat /\ (forall p ps', ps2 = p :: ps' -> (length (read_data a') < 4 + length p)%nat).
Proof.
  revert a w ps. induction fuel as [|fuel IH]; intros a w ps Hfuel Hps Hw E Hlen; [lia|]. cbn [read_loop]. destruct ps as [|p ps].
  - apply app_eq_nil in E as [Ea ->]. unfold next_pack_len. rewrite Hlen, Ea. cbn. exists [], [], (AsyncCtx [] 0), w. cbn. split_and!; try done. constructor.
  - apply Forall_cons in Hps as [Hp Hps]. pose proof (Hgood p Hp) as Hlp. rewrite (next_pack_len_ok a p ps more Hp E Hlen), outcome_bind_ret.
    pose proof (f_equal length E) as HL. change (mjoin (packet <$> p :: ps)) with (packet p ++ mjoin (packet <$> ps)) in HL. rewrite !length_app, packet_length in HL.
    destruct (Z.leb_spec 4 (Z.of_nat (length (read_data a)))) as [H4|H4].
    + rewrite wrap_u_id by (unfold in_u; lia). destruct (Z.leb_spec (Z.of_nat (length p) + 4) (Z.of_nat (length (read_data a)))) as [Hfull|Hpart].
      * assert (E' : read_data a ++ more = packet p ++ mjoin (packet <$> ps)) by done.
        destruct (app_front _ _ _ _ E') as [Hf Hr]; [rewrite packet_length; lia|].
        assert (Hd : drop 4 (read_data a) = p ++ drop (4 + length p) (read_data a)).
        { rewrite <-(take_drop (length (packet p)) (read_data a)) at 1. rewrite Hf, packet_length. unfold packet.
          rewrite drop_app_le by (rewrite length_app, be32_length; lia). by rewrite drop_app_length' by by rewrite be32_length. }
        rewrite wrap_s_id by (unfold in_s; lia). rewrite Hd. destruct (Hproc p (drop (4 + length p) (read_data a)) w Hp Hw) as (w1 & Ep & Hrun & Hw1).
        rewrite Ep, outcome_bind_ret. rewrite (proj2 (Z.ltb_ge _ _)) by lia. cbn [fst snd negb Z.eqb].
        replace (Z.to_nat (Z.of_nat (length p) + 4)) with (length (packet p)) by (rewrite packet_length; lia).
        destruct (IH (AsyncCtx (drop (length (packet p)) (read_data a)) 0) w1 ps) as (ps1 & ps2 & a' & w' & E2 & -> & [Hch Hw'] & Hm & Hl & Hle & Hsh); cbn [read_data] in *.
        -- rewrite length_drop, packet_length. lia.
        -- done.
        -- done.
        -- exact Hr.
        -- destruct ps; [done|by left].
        -- exists (p :: ps1), ps2, a', w'. split; [exact E2|]. split; [done|]. split; [split; [by eapply chain_cons|done]|]. split; [done|]. split; [done|]. split; [|done].
           rewrite length_drop in Hle. lia.
      * exists [], (p :: ps), (AsyncCtx (read_data a) (Z.of_nat (length p))), w. cbn [read_data app]. split_and!; try done; [constructor|by right|]. intros q ps' [= <- <-]. lia.
    + rewrite (wrap_u_id 32 (0 + 4)) by done. rewrite (proj2 (Z.leb_gt _ _)) by lia.
      exists [], (p :: ps), (AsyncCtx (read_data a) 0), w. cbn [read_data app]. split_and!; try done; [constructor|by left|]. intros q ps' [= <- <-]. lia.
Qed.

Lemma read_chunks_ok chunks a w ps more :
  Forall good ps -> inv w -> read_data a ++ mjoin chunks ++ more = mjoin (packet <$> ps) -> len_ok a ps ->
  (forall p ps', ps = p :: ps' -> (length (read_data a) < 4 + length p)%nat) ->
  exists ps1 ps2 a' w', read_chunks proc_data chunks a w = Done (1, a', w') /\ ps = ps1 ++ ps2 /\ (chain run ps1 w w' /\ inv w') /\
    read_data a' ++ more = mjoin (packet <$> ps2) /\ (forall p ps', ps2 = p :: ps' -> (length (read_data a') < 4 + length p)%nat).
Proof.
  revert a w ps. induction chunks as [|data chunks IH]; intros a w ps Hps Hw E Hlen Hshort.
  - exists [], ps, a, w. split_and!; try done. constructor.
  - cbn [read_chunks]. unfold read_data_cb. set (a1 := AsyncCtx _ _).
    assert (Hlen1 : len_ok a1 ps).
    { unfold a1. destruct ps as [|p ps]; cbn [len_ok read_data pack_len] in *; [by destruct (bool_decide _)|].
      destruct (bool_decide (read_data a = [])); [by left|]. destruct Hlen as [?|[? ?]]; [by left|right]. split; [|done]. rewrite length_app. lia. }
    change (mjoin (data :: chunks)) with (data ++ mjoin chunks) in E. rewrite <-app_assoc in E.
    destruct (read_loop_ok (S (length (read_data a1))) a1 w ps (mjoin chunks ++ more)) as (ps1 & ps2 & a2 & w2 & E2 & -> & [Hch Hw2] & Hm & Hl & _ & Hsh); try done; [lia|by cbn [a1 read_data]; rewrite <-app_assoc|].
    change (read_data a1) with (read_data a ++ data) in E2 |- *. cbn [read_data] in *. rewrite E2, outcome_bind_ret. cbn [Z.leb Z.compare].
    apply Forall_app in Hps as [_ Hps2]. destruct (IH a2 w2 ps2 Hps2 Hw2 Hm Hl Hsh) as (ps3 & ps4 & a' & w' & E3 & -> & [Hch3 Hw'] & Hm' & Hsh').
    exists (ps1 ++ ps3), ps4, a', w'. split; [exact E3|]. split; [by rewrite app_assoc|]. split; [split; [by eapply requests_join|done]|]. by split.
Qed.

(** A stream that ends within a packet, from an empty vector on. *)
Lemma read_chunks_all chunks w ps cut q more :
  Forall good ps -> inv w -> mjoin chunks = mjoin (packet <$> ps) ++ cut -> good q -> more <> [] -> cut ++ more = packet q ->
  exists a' w', read_chunks proc_data chunks (AsyncCtx [] 0) w = Done (1, a', w') /\ chain run ps w w' /\ inv w' /\ read_data a' = cut.
Proof.
  intros Hps Hw E Hq Hmore Hcut.
  destruct (read_chunks_ok chunks (AsyncCtx [] 0) w (ps ++ [q]) more) as (ps1 & ps2 & a' & w' & E' & Hsplit & [Hch Hw'] & Hm & Hsh).
  - apply Forall_app. by repeat constructor.
  - done.
  - cbn [read_data app]. rewrite E, <-app_assoc, Hcut, fmap_app, join_app. f_equal. change (mjoin (packet <$> [q])) with (packet q ++ []). by rewrite app_nil_r.
  - by destruct ps; cbn; [left|left].
  - intros p ps' _. cbn. lia.
  - exists a', w'. destruct ps2 as [|p2 ps2 _] using rev_ind.
    { cbn in Hm. apply app_eq_nil in Hm as [_ ->]. done. }
    rewrite app_assoc in Hsplit. apply app_inj_2 in Hsplit as [-> [= <-]]; [|done].
    assert (ps2 = []).
    { destruct ps2 as [|p ps2]; [done|]. specialize (Hsh p (ps2 ++ [q]) eq_refl). apply (f_equal length) in Hm, Hcut.
      change (mjoin (packet <$> (p :: ps2) ++ [q])) with (packet p ++ mjoin (packet <$> ps2 ++ [q])) in Hm. rewrite fmap_app, join_app in Hm.
      change (mjoin (packet <$> [q])) with (packet q ++ []) in Hm. rewrite app_nil_r, !length_app, !packet_length in Hm. rewrite length_app, packet_length in Hcut. lia. }
    subst ps2. rewrite app_nil_r. split; [exact E'|]. split; [done|]. split; [done|]. change (mjoin (packet <$> [] ++ [q])) with (packet q ++ []) in Hm. rewrite app_nil_r, <-Hcut in Hm. by apply app_inv_tail in Hm.
Qed.
End reassembly.

(** ** The requests of a connection run, and nobody answers *)
Section silence.
Context {K D Msg Obj : Type} `{Countable D}.
Context (parse_msg : list Z -> option Msg) (msg_new : Msg -> Msg) (msg_bytes : Msg -> list Z) (out_data : list Z) (ctx_base : cmd_base_t).
Context (Hout : Z.of_nat (length out_data) = 10240).
Implicit Types (h : header) (s : @async_server K D Msg Obj _ _) (L : list (D * @rpc_pb_cmd_t K Msg Obj)).

(** What the method of a name does to the world; [room] bounds the bodies. *)
Context (effect : list Z -> Msg -> K -> K -> Prop) (room : Z).

(** An answer that leaves room in its buffer. *)
Definition small (err body : list Z) : Prop := bytes err /\ bytes body /\ Z.of_nat (length err + length body) + 68 < 10236.

Record worker_ok (c : @rpc_pb_cmd_t K Msg Obj) : Prop := {
  wk_req : is_Some (req_msg c);
  wk_rsp : is_Some (rsp_msg c);
  wk_call ctx r rsp k l : parse_msg l = Some r -> bytes l -> Z.of_nat (length l) < room -> let '(_, _, rsp', err, k') := call_proc c ctx (Some r) (Some rsp) [] k in
    effect (method_name c) r k k' /\ small err (msg_bytes (default rsp rsp')) }.

Definition signature L : list (D * (list Z * Z)) := (fun p => (p.1, (method_name p.2, RpcBase.cmd_id p.2))) <$> L.

(** The commands of the server, by what does not change. *)
Definition serves (sig : list (D * (list Z * Z))) s : Prop := exists L addrs,
  signature L = sig /\ loaded (base_server (rpc_server s)) L addrs /\ forall d c, (d, c) ∈ L -> worker_ok c.

Definition named h (e : D * (list Z * Z)) : Prop := if 0 <? h_cmd h then e.2.2 = h_cmd h else e.2.1 = h_name h.

(** A request for a command that is there, and its packet. *)
Record async_request (sig : list (D * (list Z * Z))) h (req : option (list Z)) (p : list Z) : Prop := {
  ar_packet : p = message h req;
  ar_header : header_ok h;
  ar_body m : req = Some m -> bytes m;
  ar_type : h_type h = REQUEST_TYPE;
  ar_some : 0 < h_cmd h \/ h_name h <> [];
  ar_known : exists e, e ∈ sig /\ named h e;
  ar_room : Z.of_nat (length (default [] req)) < room;
  ar_size : Z.of_nat (length p) < 2 ^ 31 }.

(** What the request does: a command with its name or number runs on its body. *)
Definition request_runs sig (p : list Z) s s' : Prop := exists h req d name id,
  async_request sig h req p /\ (d, (name, id)) ∈ sig /\ named h (d, (name, id)) /\
  match parse_msg (default [] req) with Some r => effect name r (kern s) (kern s') | None => kern s' = kern s end /\
  ch s' = ch s /\ async_req_num s' = async_req_num s + 1.

Lemma send_rpc_rsp_silent (c : cmd_base_t) ret err msg s :
  in_u 64 (seq_id c) -> small err (default [] msg) -> send_rpc_rsp out_data c ret err msg s = Done (0, s).
Proof.
  intros Hseq (He & Hb & Hroom). unfold send_rpc_rsp. set (h := Header RESPONSE_TYPE [] 0 (seq_id c) [] (u32 ret) err).
  set (c1 := set_ret (u32 ret) (set_type RESPONSE_TYPE (set_seq (seq_id c) CmdBase.init))).
  assert (Hs : shows err (if bool_decide (err = []) then c1 else set_errmsg (RefStr (Z.of_nat (length err)) (Some 0)) c1) h).
  { destruct (bool_decide_reflect (err = [])) as [->|Hne]; [by split|]. split; try done. apply (str_is_end [] err). }
  assert (Ht : total h msg < 10240 - 4).
  { unfold total. cbn [h h_body h_name h_err length]. clear -Hroom. destruct msg as [m|]; cbn in Hroom |- *; lia. }
  rewrite (serialize_cmd_base_refuses err _ h out_data 10240 msg Hs), outcome_bind_ret; [done|lia| |done|done|exact Ht].
  intros m ->. exact Hb.
Qed.

Lemma serves_update sig sv L addrs d (x : @rpc_pb_cmd_t K Msg Obj) q1 q2 :
  signature L = sig -> loaded (base_server sv) L addrs -> (forall d c, (d, c) ∈ L -> worker_ok c) -> (d, x) ∈ L ->
  exists L', signature L' = sig /\ loaded (base_server (set_cmd d (set_pools q1 q2 x) sv)) L' addrs /\ (forall d c, (d, c) ∈ L' -> worker_ok c) /\
    (d, set_pools q1 q2 x) ∈ L'.
Proof.
  intros <- HL Hwk Hin. exists ((fun p => if decide (p.1 = d) then (d, set_pools q1 q2 x) else p) <$> L). split_and!.
  - unfold signature. rewrite <-list_fmap_compose. apply list_fmap_ext. intros i [e y] Hy%list_elem_of_lookup_2. cbn. destruct (decide (e = d)) as [->|]; [|done].
    pose proof (ld_cmds _ _ _ HL d y Hy) as E1. rewrite (ld_cmds _ _ _ HL d x Hin) in E1. by injection E1 as <-.
  - by apply (loaded_update d x).
  - intros e y ([e' y'] & E & Hy)%list_elem_of_fmap. cbn [fst] in E. destruct (decide (e' = d)); injection E as -> ->; [by destruct (Hwk d x Hin)|by eapply Hwk].
  - apply list_elem_of_fmap. exists (d, x). cbn [fst]. by rewrite decide_True.
Qed.

Lemma proc_data_silent log start sig p tail s h req :
  serves sig s -> async_request sig h req p ->
  exists s', proc_data parse_msg msg_new msg_bytes out_data ctx_base log start (p ++ tail) (Z.of_nat (length p)) s = Done (0, s') /\
    request_runs sig p s s' /\ serves sig s'.
Proof.
  intros (L & addrs & Hsig & HL & Hwk) Har. pose proof Har as [-> Hok Hm Hty Hsome (e & He & Hn) Hroom Hsize]. unfold proc_data.
  destruct (parse_message start (message h req ++ tail) h req _ Hok Hm Hsize (take_app_length _ _) eq_refl) as (c & E & Hs). rewrite E, outcome_bind_ret. cbn [negb Z.eqb].
  rewrite (sh_type _ _ _ Hs). cbn [with_body h_type]. rewrite Hty. change (negb (REQUEST_TYPE =? REQUEST_TYPE)) with false. cbn match.
  destruct (find_cmd_ok L (rpc_server s) (message h req ++ tail) c h (default [] req)) as [(d & x & -> & Hin & Hx)|[_ Hno]]; [by exists addrs|done|done| |].
  2:{ rewrite <-Hsig in He. apply list_elem_of_fmap in He as ([d x] & -> & Hin). by destruct (Hno d x Hin). }
  rewrite outcome_bind_ret. cbn [of_option]. rewrite outcome_bind_ret. cbn [fst snd]. pose proof (Hwk d x Hin) as [Hq Hr Hcall].
  unfold async_proc_worker. destruct (call_cb_eq parse_msg msg_new log (message h req ++ tail) x (Ctx 0 ctx_base) (body c) (default [] req) [] (kern s) Hq Hr) as (rsp1 & p1 & p2 & Ecb);
    [apply ref_bytes_is; apply (sh_body _ _ _ Hs)|]. rewrite Ecb. clear Ecb.
  assert (Hseq : in_u 64 (seq_id c)) by (rewrite (sh_seq _ _ _ Hs); cbn; by destruct Hok as ((_ & _ & Hseq & _) & _)).
  destruct (serves_update sig (rpc_server s) L addrs d x p1 p2 Hsig HL Hwk Hin) as (L1 & Hsig1 & HL1 & Hwk1 & Hin1).
  destruct (parse_msg (default [] req)) as [r|] eqn:Er.
  - specialize (Hcall (Ctx 0 ctx_base) r rsp1 (kern s) (default [] req) Er ltac:(destruct req as [m|]; [by apply Hm|by split]) Hroom). destruct (call_proc x (Ctx 0 ctx_base) (Some r) (Some rsp1) [] (kern s)) as [[[[ret ctx'] rsp'] err'] k'].
    destruct Hcall as [Heff Hsm]. rewrite outcome_bind_ret. cbn [fmap option_fmap option_map]. rewrite send_rpc_rsp_silent by done. rewrite !outcome_bind_ret. cbn [fst snd rpc_server async_req_num ch kern].
    destruct (serves_update sig _ L1 addrs d _ (req_pool (set_pools p1 p2 x)) (pool_release (default rsp1 rsp') (rsp_pool (set_pools p1 p2 x))) Hsig1 HL1 Hwk1 Hin1) as (L2 & Hsig2 & HL2 & Hwk2 & _).
    eexists. split; [reflexivity|]. split; [|by exists L2, addrs]. exists h, req, d, (method_name x), (RpcBase.cmd_id x). split; [by split; try done; exists e|].
    split; [rewrite <-Hsig; apply list_elem_of_fmap; by exists (d, x)|]. split; [done|]. by rewrite Er.
  - rewrite outcome_bind_ret. cbn [fmap option_fmap option_map]. rewrite send_rpc_rsp_silent; [|done|by split_and!]. rewrite !outcome_bind_ret. cbn [fst snd rpc_server async_req_num ch kern].
    eexists. split; [reflexivity|]. split; [|by exists L1, addrs]. exists h, req, d, (method_name x), (RpcBase.cmd_id x). split; [by split; try done; exists e|].
    split; [rewrite <-Hsig; apply list_elem_of_fmap; by exists (d, x)|]. split; [done|]. by rewrite Er.
Qed.

(** C19: however the stream of a duplex connection is cut into pieces, every request
    that it completes runs once, in order, on its own body, and the bytes of the request
    that it breaks off are kept.  But none of them is answered: an answer that leaves
    room in its buffer is refused by serialize_cmd_base, whose result only decides
    whether to send, and the queue of the channel stays as it was. *)
Theorem async_requests_run log start chunks sig s ps cut q more h req :
  serves sig s -> Forall (fun p => exists h req, async_request sig h req p) ps -> mjoin chunks = mjoin (packet <$> ps) ++ cut ->
  async_request sig h req q -> more <> [] -> cut ++ more = packet q ->
  exists a s', read_chunks (proc_data parse_msg msg_new msg_bytes out_data ctx_base log start) chunks (AsyncCtx [] 0) s = Done (1, a, s') /\
    chain (request_runs sig) ps s s' /\ serves sig s' /\ read_data a = cut /\
    ch s' = ch s /\ async_req_num s' = async_req_num s + Z.of_nat (length ps).
Proof.
  intros Hs Hps E Hq Hmore Hcut.
  destruct (read_chunks_all (proc_data parse_msg msg_new msg_bytes out_data ctx_base log start) (serves sig) (request_runs sig) (fun p => exists h req, async_request sig h req p)) with (chunks := chunks) (w := s) (ps := ps) (cut := cut) (q := q) (more := more)
    as (a & s' & E' & Hch & Hs' & Ha); try done.
  - intros p tail w (h' & req' & Hp) Hw. by apply (proc_data_silent log start sig p tail w h' req').
  - intros p (h' & req' & Hp). split; [|apply (ar_size _ _ _ _ Hp)]. rewrite (ar_packet _ _ _ _ Hp). apply message_nonempty. by rewrite (ar_type _ _ _ _ Hp).
  - by exists h, req.
  - exists a, s'. split; [exact E'|]. split; [done|]. split; [done|]. split; [done|]. clear -Hch. induction Hch as [s|p ps s1 s2 s3 Hr _ [IH1 IH2]]; [cbn; split; [done|lia]|].
    destruct Hr as (? & ? & ? & ? & ? & _ & _ & _ & _ & E1 & E2). rewrite IH1, IH2, E1, E2. cbn [length]. split; [done|lia].
Qed.
End silence.

(** A length of 2^32-4 or more passes the check of the loop, since its sum with 4
    wraps: the vector is erased beyond its end, so that four bytes from a peer break the
    server, whatever proc_data does. *)
Theorem wrapped_length_erases {W : Type} (proc_data : list Z -> Z -> W -> outcome (Z * W)) n rest w r :
  2 ^ 32 - 4 <= n < 2 ^ 32 -> Z.of_nat (length rest) < n -> read_data_cb proc_data (be32 n ++ rest) (AsyncCtx [] 0) w <> Done r.
Proof.
  intros Hn Hrest. unfold read_data_cb. change (read_data (AsyncCtx [] 0) ++ be32 n ++ rest) with (be32 n ++ rest). set (a := AsyncCtx (be32 n ++ rest) _).
  assert (Hl : Z.of_nat (length (read_data a)) = 4 + Z.of_nat (length rest)) by (cbn [a read_data]; rewrite length_app, be32_length; lia).
  cbn [read_loop]. assert (En : next_pack_len a = Done n).
  { assert (H4 : load_bytes (read_data a) 0 4 = Done (be32 n)).
    { rewrite <-(be32_length n) at 1. apply load_bytes_reads; [done|]. apply take_app_length. }
    unfold next_pack_len. rewrite (proj2 (Z.leb_le 4 _)) by lia. change (pack_len a =? 0) with true. cbn match. rewrite H4, outcome_bind_ret, ntohl_be32; [done|unfold in_u; lia]. }
  rewrite En, outcome_bind_ret. replace (u32 (n + 4)) with (n + 4 - 2 ^ 32) by (unfold wrap_u; rewrite <-(Z.mod_add (n + 4) (-1)) by lia; rewrite Z.mod_small by lia; lia).
  rewrite (proj2 (Z.leb_le _ _)) by lia. destruct (proc_data _ _ _) as [x| |]; [|done..]. rewrite outcome_bind_ret. by rewrite (proj2 (Z.ltb_lt _ _)) by lia.
Qed.

(** ** A connection with three pieces *)

Definition async_back (b : @rpc_pb_server_base_t nat server_wire (list Z) unit _ _) : async_server := Async (back_server b) 0 new_channel ([], [], []).
Definition out_buff : list Z := replicate (Z.to_nat 10240) 0.
Definition back_effect (name r : list Z) (k k' : server_wire) : Prop := k' = (k.1, k.2 ++ [(name, r)]).

Lemma back_worker : worker_ok parse_list id back_effect 10000 back.
Proof.
  split; [by eexists..|]. intros ctx r rsp k l El Hb Hl. split; [done|]. assert (r = l) by (destruct l as [|[| |]]; cbn in El; congruence). subst r.
  split; [by split|]. split; [exact Hb|]. cbn [default length Nat.add id]. lia.
Qed.

(** Two requests by number 5 and the start of a third, in three pieces. *)
Definition by_id (seq : Z) : header := Header 1 [] 5 seq [] 0 [].

Lemma by_id_request seq body : in_u 64 seq -> bytes body -> Z.of_nat (length body) < 10000 ->
  async_request 10000 (signature [(1%nat, back)]) (by_id seq) (Some body) (message (by_id seq) (Some body)).
Proof.
  intros Hseq Hb Hl. assert (Hok : header_ok (by_id seq)) by (split; by split_and!). split; try done.
  - by intros m [= <-].
  - by left.
  - exists (1%nat, ([1], 5)). split; [by left|done].
  - pose proof (message_size (by_id seq) (Some body) Hok ltac:(by intros m [= <-])) as Hms. cbn [by_id h_name h_err length] in Hms. lia.
Qed.

Lemma one_byte_request seq x : in_u 64 seq -> in_u 8 x -> exists h req, async_request 10000 (signature [(1%nat, back)]) h req (message (by_id seq) (Some [x])).
Proof. intros Hseq Hx. exists (by_id seq), (Some [x]). apply by_id_request; [done| |done]. split; [done|]. by constructor. Qed.

Definition two_requests : list (list Z) := [message (by_id 7) (Some [42]); message (by_id 8) (Some [43])].
Lemma last_request : async_request 10000 (signature [(1%nat, back)]) (by_id 9) (Some [4]) (message (by_id 9) (Some [4])).
Proof. apply by_id_request; [done| |done]. split; [done|]. by constructor. Qed.

Lemma two_requests_ok : Forall (fun p => exists h req, async_request 10000 (signature [(1%nat, back)]) h req p) two_requests.
Proof.
  assert (H7 : in_u 64 7 /\ in_u 8 42) by done. assert (H8 : in_u 64 8 /\ in_u 8 43) by done.
  repeat apply Forall_cons_2; [exact (one_byte_request 7 42 (proj1 H7) (proj2 H7))|exact (one_byte_request 8 43 (proj1 H8) (proj2 H8))|apply Forall_nil_2].
Qed.

Definition piece1 : list Z := take 5 (mjoin (packet <$> two_requests)).
Definition piece2 : list Z := drop 5 (mjoin (packet <$> two_requests)) ++ [0; 0].

Lemma async_requests_run_witness : exists b a s',
  loaded_base = Done b /\
  read_chunks (proc_data parse_list (fun _ => []) id out_buff CmdBase.init true no_field) [piece1; piece2; [0; 9]] (AsyncCtx [] 0) (async_back b) = Done (1, a, s') /\
  chain (request_runs parse_list back_effect 10000 (signature [(1%nat, back)])) two_requests (async_back b) s' /\
  read_data a = [0; 0; 0; 9] /\ tx_queue (ch s') = [] /\ async_req_num s' = 2.
Proof.
  destruct back_server_ok as (b & Eb & Hsv). destruct Hsv as [_ _ _ [addrs HL] _].
  destruct (async_requests_run parse_list (fun _ => []) id out_buff CmdBase.init eq_refl back_effect 10000 true no_field [piece1; piece2; [0; 9]] (signature [(1%nat, back)])
    (async_back b) two_requests [0; 0; 0; 9] (message (by_id 9) (Some [4])) (message (by_id 9) (Some [4])) (by_id 9) (Some [4])) as (a & s' & E & Hch & _ & Ha & Hc & Hn).
  - exists [(1%nat, back)], addrs. split; [done|]. split; [exact HL|]. intros d c [= -> ->]%list_elem_of_singleton. apply back_worker.
  - apply two_requests_ok.
  - vm_compute. reflexivity.
  - exact last_request.
  - discriminate.
  - vm_compute. reflexivity.
  - exists b, a, s'. split; [exact Eb|]. split; [exact E|]. split; [exact Hch|]. split; [exact Ha|]. split; [by rewrite Hc|exact Hn].
Defined.

Lemma wrapped_length_erases_witness r :
  read_data_cb (fun _ _ w => Done (0, w)) ([255; 255; 255; 252] ++ [1; 2]) (AsyncCtx [] 0) tt <> Done r.
Proof. apply (wrapped_length_erases _ (2 ^ 32 - 4) [1; 2] tt); vm_compute; intuition congruence. Defined.

(** Two messages, of which the first is written. *)
Lemma channel_in_order_witness : exists ch (k : wire), tx_queue ch = [[4; 5]] /\
  (exists fin pend part more, [[1; 2; 3]; [4; 5]] = fin ++ pend /\ k.2 = [] ++ mjoin fin ++ part /\ mjoin pend = part ++ more /\
    (w_stop ch = 0 -> part = [] /\ pend = [] ++ tx_queue ch /\ (Z.of_nat 2 < 2 ^ 31 -> pending_tx_num ch = Z.of_nat (length pend)))) /\ k.2 = [1; 2; 3].
Proof.
  assert (HR : exists ch (k : wire), tx_queue ch = [[4; 5]] /\ channel_runs wire_send ([], []) [[1; 2; 3]; [4; 5]] [] ch k /\ k.2 = [1; 2; 3]).
  { pose proof (run_send wire_send ([], []) [] [] new_channel ([], []) [1; 2; 3] (run_new wire_send ([], [])) ltac:(done)) as R1.
    pose proof (run_next wire_send ([], []) _ _ _ _ ([], []) R1 eq_refl eq_refl) as R2.
    pose proof (run_write wire_send ([], []) _ [] _ _ ([], []) ([], [1; 2; 3]) [1; 2; 3] 3 R2 eq_refl eq_refl) as R3.
    eexists _, _. split; [|split; [exact (run_send wire_send ([], []) _ _ _ _ [4; 5] R3 ltac:(done))|reflexivity]]. reflexivity. }
  destruct HR as (ch & k & Htx & HR & Hk). exists ch, k. split; [exact Htx|]. split; [|exact Hk].
  apply (channel_in_order wire_send wire_poll wire_tick (@snd (list Z) (list Z)) (end_sink _ _ _ _ _ _ wire_ok) ([], []) _ [] ch k HR).
Defined.
