(* ===== verification/TcpServer.v ===== *)
(** * svrkit/src/tcp_server.cpp: connections and their workers

    main_proc waits while there are too many connections, accepts a batch of new ones
    and hands each to a worker coroutine of a pool; a worker runs the callback of the
    connection, closes it and goes back to the pool.  The callbacks block, so that the
    main loop and the workers interleave: each stretch between two switches is a step.
    Sockets are numbers and an address is a value of any type. *)
From stdpp Require Import list.
From S2P Require Import Prelude Words RpcBase.

Lemma Done_inj {A} (x y : A) : Done x = Done y -> x = y.
Proof. congruence. Qed.

Section tcp.
Context {A : Type} (no_addr : A).

Record conn_info_t := ConnInfo { fd : Z; addr : A; co : nat }.
Implicit Types (i : conn_info_t) (l : list conn_info_t).

(** The constructor. *)
Definition new_conn_info : conn_info_t := ConnInfo (-1) no_addr 0.

(** [conn_info] is the object that main_proc has at hand; [live] are the connections
    whose callback runs, each with its worker; [closed] are the sockets that were
    closed; [next_co] is the coroutine that alloc_coroutine returns next. *)
Record tcp_server_t := Tcp {
  to_stop : Z; cur_conn_num : Z; max_conn_num : Z; co_pool : list nat; conn_info_pool : list conn_info_t;
  conn_info : conn_info_t; live : list conn_info_t; closed : list Z; next_co : nat }.
Implicit Types s : tcp_server_t.

Definition set_stop s : tcp_server_t := Tcp 1 (cur_conn_num s) (max_conn_num s) (co_pool s) (conn_info_pool s) (conn_info s) (live s) (closed s) (next_co s).
Definition set_num (n : Z) s : tcp_server_t := Tcp (to_stop s) n (max_conn_num s) (co_pool s) (conn_info_pool s) (conn_info s) (live s) (closed s) (next_co s).
Definition set_co_pool (p : list nat) (n : nat) s : tcp_server_t := Tcp (to_stop s) (cur_conn_num s) (max_conn_num s) p (conn_info_pool s) (conn_info s) (live s) (closed s) n.
Definition set_info i p s : tcp_server_t := Tcp (to_stop s) (cur_conn_num s) (max_conn_num s) (co_pool s) p i (live s) (closed s) (next_co s).
Definition set_live l s : tcp_server_t := Tcp (to_stop s) (cur_conn_num s) (max_conn_num s) (co_pool s) (conn_info_pool s) (conn_info s) l (closed s) (next_co s).
Definition set_closed (c : list Z) s : tcp_server_t := Tcp (to_stop s) (cur_conn_num s) (max_conn_num s) (co_pool s) (conn_info_pool s) (conn_info s) (live s) c (next_co s).

(** init, and the object that main_proc takes before its loop. *)
Definition init (max : Z) : tcp_server_t := Tcp 0 0 max [] [] new_conn_info [] [] 0.

(** The lines of conn_proc_co after the callback, and those behind its loop. *)
Definition end_conn i s : tcp_server_t :=
  let s := if 0 <=? fd i then set_closed (fd i :: closed s) s else s in
  let s := set_num (u32 (cur_conn_num s - 1)) s in
  set_info (conn_info s) (pool_release (ConnInfo (if 0 <=? fd i then -1 else fd i) (addr i) (co i)) (conn_info_pool s)) s.

(** proc_pool: a new worker runs the callback at once; one of the pool looks at to_stop
    first. *)
Definition proc_pool i s : tcp_server_t :=
  match co_pool s with
  | [] => set_live (ConnInfo (fd i) (addr i) (next_co s) :: live s) (set_co_pool [] (S (next_co s)) s)
  | c :: pool =>
      let s := set_co_pool pool (next_co s) s in
      let i := ConnInfo (fd i) (addr i) c in
      if to_stop s =? 0 then set_live (i :: live s) s else end_conn i s
  end.

(** A round of the loop over new_fds. *)
Definition serve_fd (f : Z) s : tcp_server_t :=
  let s := set_num (u32 (cur_conn_num s + 1)) s in
  let s := proc_pool (ConnInfo f (addr (conn_info s)) (co (conn_info s))) s in
  let '(i, pool) := pool_alloc new_conn_info (conn_info_pool s) in set_info i pool s.

(** The loop of my_accept4, which writes the address of each new connection into the
    one object at hand. *)
Definition accept_fds (new : list (Z * A)) s : tcp_server_t :=
  foldl (fun s p => set_info (ConnInfo (fd (conn_info s)) p.2 (co (conn_info s))) (conn_info_pool s) s) s new.

(** The callback of the connection at position [n] of [live] has returned [ret], and has
    left the socket [f] in its conn_info. *)
Definition finish (n : nat) (f ret : Z) s : outcome tcp_server_t :=
  i ← of_option (live s !! n);
  let s := end_conn (ConnInfo f (addr i) (co i)) (set_live (delete n (live s)) s) in
  Done (if negb (ret =? 0) || negb (to_stop s =? 0) then s else set_co_pool (pool_release (co i) (co_pool s)) (next_co s) s).

(** Where main_proc is: at the test of its loop, at the test of the inner loop, at
    co_poll, at the loop over new_fds, or behind the loop. *)
Inductive place := AtLoop | AtLimit | AtPoll | Serving (fds : list Z) | AtEnd.

Context (accept_num : nat).

Inductive step : place * tcp_server_t -> place * tcp_server_t -> Prop :=
| step_loop s : to_stop s = 0 -> step (AtLoop, s) (AtLimit, s)
| step_end s : to_stop s <> 0 -> step (AtLoop, s) (AtEnd, s)
| step_below s : cur_conn_num s < max_conn_num s -> step (AtLimit, s) (AtPoll, s)
| step_stopped s : max_conn_num s <= cur_conn_num s -> to_stop s <> 0 -> step (AtLimit, s) (AtPoll, s)
| step_timeout s : step (AtPoll, s) (AtLoop, s)
| step_accept s new : (length new <= accept_num)%nat -> Forall (fun p => 0 <= p.1) new -> step (AtPoll, s) (Serving new.*1, accept_fds new s)
| step_serve s f fds : step (Serving (f :: fds), s) (Serving fds, serve_fd f s)
| step_served s : step (Serving [], s) (AtLoop, s)
| step_finish p s n f ret s' i : live s !! n = Some i -> (f = fd i \/ f = -1) -> finish n f ret s = Done s' -> step (p, s) (p, s')
| step_stop p s : step (p, s) (p, set_stop s).

Inductive reach (max : Z) : place * tcp_server_t -> Prop :=
| reach_init : reach max (AtLoop, init max)
| reach_step x y : reach max x -> step x y -> reach max y.

(** ** How many connections there are *)

(** The sockets that main_proc has accepted and not handed out. *)
Definition pending (p : place) : Z := match p with Serving fds => Z.of_nat (length fds) | _ => 0 end.

Definition limit (max : Z) : Z := Z.max 0 (max - 1) + Z.of_nat accept_num.

(** The bound at a place; [stopped] says that to_stop is set. *)
Definition below (max : Z) (stopped : Prop) (p : place) (n : Z) : Prop :=
  match p with
  | AtLimit => n <= limit max
  | AtPoll => n <= Z.max 0 (max - 1) \/ stopped /\ n <= limit max
  | AtLoop | AtEnd | Serving _ => n + pending p <= limit max \/ stopped /\ n + pending p <= limit max + Z.of_nat accept_num
  end.

Record tcp_ok max (p : place) s : Prop := {
  tk_max : max_conn_num s = max;
  tk_num : cur_conn_num s = Z.of_nat (length (live s));
  tk_workers : NoDup ((co <$> live s) ++ co_pool s);
  tk_fresh : Forall (fun c => (c < next_co s)%nat) ((co <$> live s) ++ co_pool s);
  tk_below : below max (to_stop s <> 0) p (cur_conn_num s) }.

Lemma below_mono max st p n n' : n' <= n -> below max st p n -> below max st p n'.
Proof. intros Hn. destruct p; cbn; intuition lia. Qed.

Lemma below_stop max (st st' : Prop) p n : (st -> st') -> below max st p n -> below max st' p n.
Proof. intros Hst. destruct p; cbn; intuition lia. Qed.

Lemma below_limit max st p n : below max st p n -> n + pending p <= limit max + Z.of_nat accept_num.
Proof. unfold limit. destruct p; cbn [below pending]; unfold limit; intuition lia. Qed.

Context (Hsmall : Z.of_nat accept_num < 2 ^ 30).

Lemma end_conn_fields i s : cur_conn_num (end_conn i s) = u32 (cur_conn_num s - 1) /\ live (end_conn i s) = live s /\ co_pool (end_conn i s) = co_pool s /\
  next_co (end_conn i s) = next_co s /\ to_stop (end_conn i s) = to_stop s /\ max_conn_num (end_conn i s) = max_conn_num s.
Proof. unfold end_conn. by destruct (0 <=? fd i). Qed.

Lemma serve_fd_ok max f fds s : max < 2 ^ 30 -> tcp_ok max (Serving (f :: fds)) s -> tcp_ok max (Serving fds) (serve_fd f s).
Proof.
  intros Hmax [Hm Hn Hw Hf Hb]. pose proof (below_limit _ _ _ _ Hb) as Hlim. cbn [pending length] in Hlim. unfold limit in Hlim.
  assert (Hpend : below max (to_stop s <> 0) (Serving fds) (cur_conn_num s + 1)) by (revert Hb; cbn [below pending length]; unfold limit; intuition lia).
  unfold serve_fd. rewrite wrap_u_id by (unfold in_u; lia).
  set (s1 := set_num (cur_conn_num s + 1) s). set (i := ConnInfo f _ _).
  assert (H1 : tcp_ok max (Serving fds) (proc_pool i s1)).
  { unfold proc_pool. cbn [s1 set_num co_pool]. destruct (co_pool s) as [|c pool] eqn:Ep.
    - rewrite app_nil_r in *. split; cbn [set_live set_co_pool max_conn_num cur_conn_num live co_pool next_co to_stop s1 set_num].
      + done.
      + cbn [length]. lia.
      + rewrite app_nil_r. cbn [fmap list_fmap co]. apply NoDup_cons. split; [|done]. intros Hin. rewrite Forall_forall in Hf. specialize (Hf _ Hin). lia.
      + rewrite app_nil_r. cbn [fmap list_fmap co]. constructor; [lia|]. apply (Forall_impl _ _ _ Hf). intros; lia.
      + exact Hpend.
    - assert (Hp : co <$> live s ++ [] = co <$> live s) by by rewrite app_nil_r. clear Hp. change (to_stop (set_co_pool pool (next_co s1) s1)) with (to_stop s).
      assert (Hpm : (co <$> live s) ++ c :: pool ≡ₚ c :: (co <$> live s) ++ pool) by by rewrite Permutation_middle. rewrite Hpm in Hw, Hf.
      destruct (to_stop s =? 0).
      + split; cbn [set_live set_co_pool max_conn_num cur_conn_num live co_pool next_co to_stop s1 set_num]; [done|cbn [length]; lia|exact Hw|exact Hf|exact Hpend].
      + destruct (end_conn_fields (ConnInfo (fd i) (addr i) c) (set_co_pool pool (next_co s1) s1)) as (E1 & E2 & E3 & E4 & E5 & E6).
        split; rewrite ?E1, ?E2, ?E3, ?E4, ?E5, ?E6; cbn [set_co_pool max_conn_num cur_conn_num live co_pool next_co to_stop s1 set_num]; [done| | | |].
        * rewrite wrap_u_id by (unfold in_u; lia). lia.
        * by apply NoDup_cons in Hw as [_ Hw].
        * by apply Forall_cons in Hf as [_ Hf].
        * rewrite wrap_u_id by (unfold in_u; lia). eapply below_mono; [|exact Hpend]. lia. }
  destruct (pool_alloc new_conn_info (conn_info_pool (proc_pool i s1))) as [i' pool']. destruct H1 as [? ? ? ? ?]. by split.
Qed.

Lemma finish_ok max p s n f ret s' : max < 2 ^ 30 -> tcp_ok max p s -> finish n f ret s = Done s' -> tcp_ok max p s'.
Proof.
  intros Hmax [Hm Hn Hw Hf Hb]. unfold finish. destruct (live s !! n) as [i|] eqn:Ei; [|done]. cbn [of_option]. rewrite outcome_bind_ret.
  set (s1 := end_conn _ _). intros <-%Done_inj.
  pose proof (delete_Permutation _ _ _ Ei) as Hperm. pose proof (below_limit _ _ _ _ Hb) as Hlim. unfold limit in Hlim.
  assert (Hp0 : 0 <= pending p) by (destruct p; cbn; lia). pose proof (Permutation_length Hperm) as Hlen. cbn [length] in Hlen.
  destruct (end_conn_fields (ConnInfo f (addr i) (co i)) (set_live (delete n (live s)) s)) as (E1 & E2 & E3 & E4 & E5 & E6). fold s1 in E1, E2, E3, E4, E5, E6.
  cbn [set_live max_conn_num cur_conn_num live co_pool next_co to_stop] in E1, E2, E3, E4, E5, E6. rewrite wrap_u_id in E1 by (unfold in_u; lia).
  rewrite Hperm in Hw, Hf. cbn [fmap list_fmap app] in Hw, Hf.
  assert (Hb' : below max (to_stop s <> 0) p (cur_conn_num s - 1)) by (eapply below_mono; [|exact Hb]; lia).
  destruct (negb (ret =? 0) || negb (to_stop s1 =? 0)).
  - apply NoDup_cons in Hw as [_ Hw]. apply Forall_cons in Hf as [_ Hf]. split; rewrite ?E1, ?E2, ?E3, ?E4, ?E5, ?E6; try done. lia.
  - split; cbn [set_co_pool pool_release max_conn_num cur_conn_num live co_pool next_co to_stop]; rewrite ?E1, ?E2, ?E3, ?E4, ?E5, ?E6; try done; [lia| |]; unfold pool_release;
      rewrite <-Permutation_middle; done.
Qed.

Lemma accept_fds_ok max p s new : tcp_ok max p s -> tcp_ok max p (accept_fds new s).
Proof. unfold accept_fds. revert s. induction new as [|x new IH]; intros s Hs; [done|]. cbn [foldl]. apply IH. by destruct Hs; split. Qed.

Lemma accept_fds_num new s : cur_conn_num (accept_fds new s) = cur_conn_num s /\ to_stop (accept_fds new s) = to_stop s.
Proof. unfold accept_fds. revert s. induction new as [|x new IH]; intros s; [done|]. cbn [foldl]. apply (IH (set_info _ _ s)). Qed.

Lemma tcp_step_ok max p s p' s' : 0 <= max < 2 ^ 30 -> tcp_ok max p s -> step (p, s) (p', s') -> tcp_ok max p' s'.
Proof.
  intros Hmax Hs Hstep. pose proof Hs as [Hm Hn Hw Hf Hb]. inversion Hstep; subst.
  - split; try done. revert Hb. cbn [below pending]. unfold limit. intuition lia.
  - split; try done.
  - split; try done. cbn [below]. left. lia.
  - split; try done. cbn [below] in *. right. by split.
  - split; try done. revert Hb. cbn [below pending]. unfold limit. intuition lia.
  - pose proof (accept_fds_ok _ _ _ new Hs) as [? ? ? ? _]. split; try done. destruct (accept_fds_num new s) as [-> ->].
    revert Hb. cbn [below pending]. rewrite length_fmap. unfold limit. intuition lia.
  - apply serve_fd_ok; [lia|done].
  - by split.
  - by eapply finish_ok; [lia|..].
  - split; try done. eapply below_stop; [|exact Hb]. done.
Qed.

(** C22: the counter of connections is the number of connections whose callback runs, no
    coroutine serves two of them or waits in the pool while it serves one, and there
    are at most max_conn_num - 1 + accept_num: the limit is tested before a batch is
    accepted, and not in it.  A server that is stopped while it waits at its limit
    accepts one more batch. *)
Theorem connections_bounded max p s :
  0 <= max < 2 ^ 30 -> reach max (p, s) ->
  cur_conn_num s = Z.of_nat (length (live s)) /\ NoDup ((co <$> live s) ++ co_pool s) /\
  (to_stop s = 0 -> cur_conn_num s <= Z.max 0 (max - 1) + Z.of_nat accept_num) /\
  cur_conn_num s <= Z.max 0 (max - 1) + 2 * Z.of_nat accept_num.
Proof.
  intros Hmax Hr. assert (HI : forall x, reach max x -> tcp_ok max x.1 x.2).
  { induction 1 as [|[p1 s1] [p2 s2] _ IH Hst]; [|by eapply tcp_step_ok]. split; cbn; try done; [constructor|]. unfold limit. lia. }
  destruct (HI _ Hr) as [_ Hn Hw _ Hb]. cbn [fst snd] in *. assert (0 <= pending p) by (destruct p; cbn; lia).
  split; [done|]. split; [done|]. split; [|pose proof (below_limit _ _ _ _ Hb); unfold limit in *; lia].
  intros Hst. revert Hb. destruct p; cbn [below pending] in *; unfold limit; intuition lia.
Qed.

(** ** The addresses of a batch *)

(** Main_proc accepts a batch with one address buffer: of two connections that it
    accepts at once the first gets the address of the second, and the second whatever
    its recycled or new conn_info holds. *)
Theorem batch_shares_address s f1 a1 f2 a2 :
  co_pool s = [] -> exists i1 i2 rest, live (serve_fd f2 (serve_fd f1 (accept_fds [(f1, a1); (f2, a2)] s))) = i2 :: i1 :: rest /\
    fd i1 = f1 /\ addr i1 = a2 /\ fd i2 = f2 /\ addr i2 = match conn_info_pool s with [] => no_addr | i :: _ => addr i end.
Proof.
  intros Hp. unfold accept_fds, serve_fd, proc_pool. cbn [foldl snd]. cbn [set_info set_num co_pool conn_info]. rewrite Hp. cbn.
  destruct (conn_info_pool s) as [|i pool]; cbn; rewrite ?Hp; cbn; [|destruct pool; cbn]; by eexists _, _, _.
Qed.
End tcp.

(** ** A server for two connections *)

(** It accepts three at once, with two in the batch after the limit. *)
Definition batch : list (Z * Z) := [(5, 100); (6, 200); (7, 300)].
Definition full_server : tcp_server_t := serve_fd 0 7 (serve_fd 0 6 (serve_fd 0 5 (accept_fds batch (init 0 2)))).

Lemma full_server_reached : reach 0 3 2 (AtLoop, full_server).
Proof.
  eapply reach_step; [|apply step_served]. do 3 (eapply reach_step; [|apply step_serve]).
  eapply reach_step; [|apply (step_accept 0 3 _ batch); [done|by repeat constructor]].
  eapply reach_step; [|by apply step_below]. eapply reach_step; [|by apply step_loop]. apply reach_init.
Qed.

Lemma connections_bounded_witness :
  max_conn_num full_server = 2 /\ cur_conn_num full_server = 3 /\ NoDup ((co <$> live full_server) ++ co_pool full_server) /\ cur_conn_num full_server <= 4.
Proof.
  destruct (connections_bounded 0 3 ltac:(done) 2 AtLoop full_server ltac:(done) full_server_reached) as (_ & Hd & Hb & _).
  split; [reflexivity|]. split; [reflexivity|]. split; [exact Hd|]. apply (Hb eq_refl).
Defined.

Lemma batch_shares_address_witness : exists i1 i2 rest,
  live (serve_fd 0 6 (serve_fd 0 5 (accept_fds [(5, 100); (6, 200)] (init 0 2)))) = i2 :: i1 :: rest /\ fd i1 = 5 /\ addr i1 = 200 /\ fd i2 = 6 /\ addr i2 = 0.
Proof. apply (batch_shares_address 0 (init 0 2) 5 100 6 200). reflexivity. Defined.
