(* ===== verification/LoadBalance.v ===== *)
(** * svrkit/load_balance.h: connections to a list of servers

    [FdPool] keeps connections that are not in use, [IpListConf] the addresses, and
    [IpListLB] hands a connection to each call: one of the pool, or a new one to a
    random address.  connect_to and close are parameters. *)
From stdpp Require Import list gmap.
From S2P Require Import Prelude Words Random IpList.

(** ** FdPool *)

(** The queue m_fds, oldest first, and the vector m_calls. *)
Record FdPool := Pool { m_fds : list Z; m_calls : list Z; m_rand : Rand }.
Implicit Types p : FdPool.

(** The constructor; [seed] is rdtscp(). *)
Definition new_pool (seed : Z) : FdPool := Pool [] [] (reseed_u64 seed).

Definition pool_get p : Z * FdPool :=
  match m_fds p with [] => (-1, p) | fd :: fds => (fd, Pool fds (m_calls p) (m_rand p)) end.

(** The vector after resize. *)
Definition resize (n : nat) (l : list Z) : list Z := take n l ++ replicate (n - length l) 0.

Definition pool_put (fd : Z) p : outcome FdPool :=
  let calls := if Z.of_nat (length (m_calls p)) <=? fd then resize (Z.to_nat (fd + 1000)) (m_calls p) else m_calls p in
  if fd <? 0 then Fault
  else
    n ← of_option (calls !! Z.to_nat fd);
    let '(n, r) := if n <=? 0 then let '(v, r) := rand_u32 (m_rand p) in (10000 + v mod 10000, r) else (n, m_rand p) in
    Done (Pool (m_fds p ++ [fd]) (<[Z.to_nat fd := n - 1]> calls) r).

(** ** IpListConf *)

Record IpListConf := Conf { m_hosts : list ip_port_t; m_pos : Z; c_rand : Rand }.
Implicit Types c : IpListConf.

Definition new_conf (seed : Z) : IpListConf := Conf [] 0 (reseed_u64 seed).

(** m_pos = m_rand.rand_u32() % m_hosts.size() *)
Definition draw_pos c : IpListConf :=
  let '(v, r) := rand_u32 (c_rand c) in Conf (m_hosts c) (v mod Z.of_nat (length (m_hosts c))) r.

Definition reload (src : list Z) c : IpListConf :=
  let c := Conf (parse_ip_list src []) (m_pos c) (c_rand c) in if 0 <? Z.of_nat (length (m_hosts c)) then draw_pos c else c.

Definition add_host (h : ip_port_t) c : IpListConf := Conf (m_hosts c ++ [h]) (m_pos c) (c_rand c).
Definition remove_host (h : ip_port_t) c : IpListConf := Conf (filter (fun x => ip_port_eqb x h = false) (m_hosts c)) (m_pos c) (c_rand c).

(** get_node; NULL without hosts. *)
Definition get_node c : option ip_port_t * IpListConf :=
  match m_hosts c with [] => (None, c) | _ => let c := draw_pos c in (m_hosts c !! Z.to_nat (m_pos c), c) end.

(** ** IpListLB *)
Section balance.
Context {K : Type} (connect_to : list Z -> Z -> K -> Z * K) (close : Z -> K -> K).
Implicit Types k : K.

Record IpListLB := LB { m_fd_pool : FdPool; m_ip_lists : IpListConf }.
Implicit Types b : IpListLB.

Definition lb_init (src : list Z) b : IpListLB := LB (m_fd_pool b) (reload src (m_ip_lists b)).

(** The loop over three attempts; a NULL of get_node is followed. *)
Fixpoint try_connect (tries : nat) (fd : Z) c k : outcome (Z * IpListConf * K) :=
  match tries with
  | O => Done (fd, c, k)
  | S tries =>
      let '(host, c) := get_node c in
      h ← of_option host;
      let '(fd, k) := connect_to (ip h) (port h) k in
      if 0 <=? fd then Done (fd, c, k) else try_connect tries fd c k
  end.

Definition lb_get b k : outcome (Z * IpListLB * K) :=
  let '(fd, p) := pool_get (m_fd_pool b) in
  if fd <? 0 then r ← try_connect 3 fd (m_ip_lists b) k; let '(fd, c, k) := r in Done (fd, LB p c, k)
  else Done (fd, LB p (m_ip_lists b), k).

Definition lb_release (fd status : Z) b k : outcome (IpListLB * K) :=
  if negb (status =? 0) then Done (b, close fd k)
  else p ← pool_put fd (m_fd_pool b); Done (LB p (m_ip_lists b), k).

(** ** Who has which connection *)

(** The open connections of the process. *)
Context (opened : K -> gset Z).

Record sockets_ok : Prop := {
  so_connect i n k : let '(fd, k') := connect_to i n k in
    fd < 0 /\ opened k' = opened k \/ 0 <= fd /\ (fd ∉ opened k) /\ opened k' = {[fd]} ∪ opened k;
  so_close fd k : opened (close fd k) = opened k ∖ {[fd]} }.

(** Calls that overlap: each holds the connection that get gave it and releases it
    with its result. *)
Inductive calls (b0 : IpListLB) (k0 : K) : list Z -> IpListLB -> K -> Prop :=
| calls_none : calls b0 k0 [] b0 k0
| calls_get held b k fd b' k' : calls b0 k0 held b k -> lb_get b k = Done (fd, b', k') -> calls b0 k0 (if fd <? 0 then held else fd :: held) b' k'
| calls_release held fd held' b k status b' k' : calls b0 k0 held b k -> held ≡ₚ fd :: held' -> lb_release fd status b k = Done (b', k') ->
    calls b0 k0 held' b' k'.

Definition hosts_ok c : Prop := m_hosts c <> [].

Record lb_ok (held : list Z) b k : Prop := {
  lb_nodup : NoDup (held ++ m_fds (m_fd_pool b));
  lb_open : Forall (fun fd => 0 <= fd /\ fd ∈ opened k) (held ++ m_fds (m_fd_pool b)) }.

Lemma get_node_ok c : hosts_ok c -> exists h c', get_node c = (Some h, c') /\ h ∈ m_hosts c /\ m_hosts c' = m_hosts c.
Proof.
  intros Hc. unfold get_node. destruct (m_hosts c) as [|h0 hs] eqn:E; [done|]. unfold draw_pos. destruct (rand_u32 (c_rand c)) as [v r]. cbn [m_hosts m_pos].
  rewrite E. assert (Hl : (Z.to_nat (v mod Z.of_nat (length (h0 :: hs))) < length (h0 :: hs))%nat).
  { pose proof (Z.mod_pos_bound v (Z.of_nat (length (h0 :: hs))) ltac:(cbn; lia)). lia. }
  destruct (lookup_lt_is_Some_2 _ _ Hl) as [h Eh]. exists h, (Conf (h0 :: hs) (v mod Z.of_nat (length (h0 :: hs))) r). rewrite Eh. split_and!; try done.
  by apply list_elem_of_lookup_2 in Eh.
Qed.

Lemma try_connect_ok tries fd0 c k : sockets_ok -> hosts_ok c -> fd0 < 0 -> exists fd c' k', try_connect tries fd0 c k = Done (fd, c', k') /\ m_hosts c' = m_hosts c /\
  (fd < 0 /\ opened k' = opened k \/ 0 <= fd /\ (fd ∉ opened k) /\ opened k' = {[fd]} ∪ opened k).
Proof.
  intros Hs. revert fd0 c k. induction tries as [|tries IH]; intros fd0 c k Hc Hfd; cbn [try_connect]; [exists fd0, c, k; by split_and!; [..|left]|].
  destruct (get_node_ok c Hc) as (h & c1 & -> & _ & Hc1). cbn [of_option]. rewrite outcome_bind_ret. pose proof (so_connect Hs (ip h) (port h) k) as Hk.
  destruct (connect_to (ip h) (port h) k) as [fd k1]. destruct (Z.leb_spec 0 fd).
  - exists fd, c1, k1. by split_and!.
  - destruct Hk as [[_ Ek]|[? _]]; [|lia]. destruct (IH fd c1 k1) as (fd2 & c2 & k2 & E & Hc2 & Hk2); [unfold hosts_ok; by rewrite Hc1|done|].
    exists fd2, c2, k2. split; [exact E|]. split; [by rewrite Hc2|]. by rewrite <-Ek.
Qed.

Lemma pool_put_ok fd p : 0 <= fd -> exists p', pool_put fd p = Done p' /\ m_fds p' = m_fds p ++ [fd].
Proof.
  intros Hfd. unfold pool_put. rewrite (proj2 (Z.ltb_ge fd 0)) by done. set (l := if _ <=? fd then _ else _).
  assert (Hl : (Z.to_nat fd < length l)%nat).
  { unfold l. destruct (Z.leb_spec (Z.of_nat (length (m_calls p))) fd); [|lia]. unfold resize. rewrite length_app, length_take, length_replicate. lia. }
  destruct (lookup_lt_is_Some_2 _ _ Hl) as [n ->]. cbn [of_option]. rewrite outcome_bind_ret. destruct (n <=? 0); [destruct (rand_u32 (m_rand p))|]; by eexists.
Qed.

Lemma lb_get_ok held b k : sockets_ok -> hosts_ok (m_ip_lists b) -> lb_ok held b k -> exists fd b' k', lb_get b k = Done (fd, b', k') /\
  m_hosts (m_ip_lists b') = m_hosts (m_ip_lists b) /\ lb_ok (if fd <? 0 then held else fd :: held) b' k'.
Proof.
  intros Hs Hh [Hd Ho]. unfold lb_get, pool_get. destruct (m_fds (m_fd_pool b)) as [|fd fds] eqn:Ef.
  - cbn [Z.ltb Z.compare]. destruct (try_connect_ok 3 (-1) (m_ip_lists b) k Hs Hh) as (fd & c' & k' & E & Hc & Hk); [lia|]. rewrite E, outcome_bind_ret.
    exists fd, (LB (m_fd_pool b) c'), k'. split; [done|]. split; [done|]. destruct Hk as [[Hfd Ek]|(Hfd & Hn & Ek)].
    + rewrite (proj2 (Z.ltb_lt fd 0)) by done. by split; cbn [m_fd_pool]; rewrite Ef, ?Ek.
    + rewrite (proj2 (Z.ltb_ge fd 0)) by done. split; cbn [m_fd_pool]; rewrite Ef; cbn [app].
      * apply NoDup_cons. split; [|done]. intros Hin. rewrite Forall_forall in Ho. by destruct (Ho _ Hin).
      * constructor; [rewrite Ek; split; [done|set_solver]|]. apply (Forall_impl _ _ _ Ho). intros x [? ?]. rewrite Ek. split; [done|set_solver].
  - assert (Hp : held ++ fd :: fds ≡ₚ fd :: held ++ fds) by by rewrite Permutation_middle. rewrite Hp in Hd, Ho. pose proof Ho as [[H0 _] _]%Forall_cons.
    rewrite (proj2 (Z.ltb_ge fd 0)) by done. exists fd, (LB (Pool fds (m_calls (m_fd_pool b)) (m_rand (m_fd_pool b))) (m_ip_lists b)), k.
    split; [done|]. split; [done|]. by rewrite (proj2 (Z.ltb_ge fd 0)) by done.
Qed.

Lemma lb_release_ok held fd held' status b k : sockets_ok -> held ≡ₚ fd :: held' -> lb_ok held b k -> exists b' k', lb_release fd status b k = Done (b', k') /\
  m_hosts (m_ip_lists b') = m_hosts (m_ip_lists b) /\ lb_ok held' b' k' /\ (status <> 0 -> fd ∉ opened k').
Proof.
  intros Hs Hp [Hd Ho]. rewrite Hp in Hd, Ho. cbn [app] in Hd, Ho. pose proof Ho as [[H0 Hin] Ho']%Forall_cons. pose proof Hd as [Hnin Hd']%NoDup_cons.
  unfold lb_release. destruct (Z.eqb_spec status 0) as [->|Hst]; cbn [negb].
  - destruct (pool_put_ok fd (m_fd_pool b) H0) as (p' & E & Ep). rewrite E, outcome_bind_ret. eexists _, k. split; [reflexivity|]. split; [done|]. split; [|done].
    assert (HP : held' ++ m_fds p' ≡ₚ fd :: held' ++ m_fds (m_fd_pool b)) by (rewrite Ep, app_assoc; by rewrite Permutation_app_comm).
    split; cbn [m_fd_pool]; by rewrite HP.
  - eexists b, _. split; [reflexivity|]. split; [done|]. rewrite (so_close Hs). split; [|set_solver]. split; [done|]. apply Forall_forall. intros x Hx. rewrite Forall_forall in Ho'.
    destruct (Ho' x Hx) as [? ?]. split; [done|]. rewrite (so_close Hs). assert (x <> fd) by (intros ->; done). set_solver.
Qed.

(** C30: no two calls that overlap use the same connection, and none that a call uses is
    in the pool: get returns an open connection that nobody holds, or an error after
    three attempts, and release takes it back, or closes it when the call has failed. *)
Theorem connections_exclusive b0 k0 held b k :
  sockets_ok -> hosts_ok (m_ip_lists b0) -> m_fds (m_fd_pool b0) = [] -> calls b0 k0 held b k ->
  NoDup (held ++ m_fds (m_fd_pool b)) /\ Forall (fun fd => fd ∈ opened k) (held ++ m_fds (m_fd_pool b)) /\
  (exists fd b' k', lb_get b k = Done (fd, b', k') /\ (0 <= fd -> (fd ∉ held) /\ fd ∈ opened k')) /\
  forall fd status, fd ∈ held -> exists b' k', lb_release fd status b k = Done (b', k') /\ (status <> 0 -> (fd ∉ opened k') /\ fd ∉ m_fds (m_fd_pool b')).
Proof.
  intros Hs Hh Hf Hc. assert (HI : lb_ok held b k /\ hosts_ok (m_ip_lists b)).
  { induction Hc as [|held b k fd b' k' _ [IH IHh] E|held fd held' b k status b' k' _ [IH IHh] Hp E].
    - split; [|done]. split; rewrite Hf; constructor.
    - destruct (lb_get_ok held b k Hs IHh IH) as (fd2 & b2 & k2 & E2 & Hm & Hok). rewrite E in E2. injection E2 as <- <- <-. split; [done|]. unfold hosts_ok. by rewrite Hm.
    - destruct (lb_release_ok held fd held' status b k Hs Hp IH) as (b2 & k2 & E2 & Hm & Hok & _). rewrite E in E2. injection E2 as <- <-. split; [done|]. unfold hosts_ok. by rewrite Hm. }
  destruct HI as [Hok Hhb]. pose proof Hok as [Hd Ho]. split; [done|]. split; [by apply (Forall_impl _ _ _ Ho); intros x [_ ?]|]. split.
  - destruct (lb_get_ok held b k Hs Hhb Hok) as (fd & b' & k' & E & _ & [Hd' Ho']). exists fd, b', k'. split; [done|]. intros H0.
    rewrite (proj2 (Z.ltb_ge fd 0)) in Hd', Ho' by done. cbn [app] in Hd', Ho'. apply NoDup_cons in Hd' as [Hn _]. apply Forall_cons in Ho' as [[_ ?] _].
    split; [|done]. intros Hin. apply Hn, elem_of_app. by left.
  - intros fd status (held' & Hp)%elem_of_Permutation. destruct (lb_release_ok held fd held' status b k Hs Hp Hok) as (b' & k' & E & _ & [_ Ho'] & Hcl).
    exists b', k'. split; [done|]. intros Hst. split; [by apply Hcl|]. intros Hin. rewrite Forall_forall in Ho'. destruct (Ho' fd) as [_ ?]; [apply elem_of_app; by right|].
    by apply Hcl in Hst.
Qed.

(** Without an address get follows the NULL that get_node returns. *)
Theorem no_hosts_fault b k : m_fds (m_fd_pool b) = [] -> m_hosts (m_ip_lists b) = [] -> lb_get b k = Fault.
Proof. intros Hf Hh. unfold lb_get, pool_get. rewrite Hf. cbn. unfold get_node. by rewrite Hh. Qed.
End balance.

(** ** Two overlapping calls *)

(** The number that the next socket gets, and the open ones. *)
Definition net : Type := Z * gset Z.
Definition net_connect (i : list Z) (n : Z) (k : net) : Z * net :=
  if decide (k.1 < 0 \/ k.1 ∈ k.2) then (-1, k) else (k.1, (k.1 + 1, {[k.1]} ∪ k.2)).
Definition net_close (fd : Z) (k : net) : net := (k.1, k.2 ∖ {[fd]}).

Lemma net_ok : sockets_ok net_connect net_close snd.
Proof.
  split; [|done]. intros i n [m o]. unfold net_connect. cbn [fst snd]. destruct (decide _) as [|Hn]; [by left|right]. split_and!; [|tauto|done].
  destruct (Z.lt_ge_cases m 0); [tauto|done].
Qed.

Definition one_host : IpListLB := lb_init [104; 58; 56; 48] (LB (new_pool 1) (new_conf 2)).

(** Two calls hold 5 and 6; the first is released with an error, and is closed. *)
Lemma connections_exclusive_witness : exists b k,
  calls net_connect net_close one_host (5, ∅) [6] b k /\ NoDup ([6] ++ m_fds (m_fd_pool b)) /\ 5 ∉ k.2.
Proof.
  assert (H : exists b1 k1 b2 k2 b3 k3, lb_get net_connect one_host (5, ∅) = Done (5, b1, k1) /\ lb_get net_connect b1 k1 = Done (6, b2, k2) /\
    lb_release net_close 5 (-2) b2 k2 = Done (b3, k3)).
  { eexists _, _, _, _, _, _. split; [vm_compute; reflexivity|]. split; [vm_compute; reflexivity|]. vm_compute. reflexivity. }
  destruct H as (b1 & k1 & b2 & k2 & b3 & k3 & E1 & E2 & E3).
  pose proof (calls_get net_connect net_close one_host (5, ∅) [] _ _ 5 _ _ (calls_none net_connect net_close one_host (5, ∅)) E1) as C1.
  pose proof (calls_get net_connect net_close one_host (5, ∅) _ _ _ 6 _ _ C1 E2) as C2.
  pose proof (calls_release net_connect net_close one_host (5, ∅) [6; 5] 5 [6] _ _ (-2) _ _ C2 (Permutation_swap 5 6 []) E3) as C3.
  exists b3, k3. split; [exact C3|].
  destruct (connections_exclusive net_connect net_close snd one_host (5, ∅) [6] b3 k3 net_ok ltac:(discriminate) eq_refl C3) as [Hd _]. split; [exact Hd|].
  destruct (connections_exclusive net_connect net_close snd one_host (5, ∅) [6; 5] b2 k2 net_ok ltac:(discriminate) eq_refl C2) as (_ & _ & _ & Hrel).
  destruct (Hrel 5 (-2)) as (b' & k' & E & Hcl); [right; left|]. rewrite E3 in E. injection E as <- <-. by apply Hcl.
Defined.

Lemma no_hosts_fault_witness : lb_get net_connect (LB (new_pool 1) (new_conf 2)) (5, ∅) = Fault.
Proof. by apply no_hosts_fault. Defined.
