(* ===== verification/WriteAll.v ===== *)
(** * base/src/net_tool.cpp: write_all

    Many buffers go out with one writev after the other, each of a single iovec.  The
    bookkeeping finds the buffer to go on with from the number of bytes written so far.
    writev is a parameter: it takes a piece off the front of its bytes, or fails. *)
From stdpp Require Import list.
From S2P Require Import Prelude Words.

(** An iovec: the offset into its buffer and the length. *)
Record iovec := Iovec { iov_base : Z; iov_len : Z }.
Implicit Types (v : iovec) (need : list Z).

(** total_len after each buffer. *)
Fixpoint need_outs (total : Z) (datas : list (list Z)) : list Z :=
  match datas with [] => [] | d :: datas => let total := u64 (total + Z.of_nat (length d)) in total :: need_outs total datas end.

(** std::upper_bound on the part from [start] on. *)
Fixpoint upper_bound (need : list Z) (x : Z) : nat :=
  match need with [] => O | n :: need => if x <? n then O else S (upper_bound need x) end.

Section write.
Context {K : Type} (writev : list Z -> K -> Z * K).
Implicit Types (k : K) (datas : list (list Z)) (iov : list iovec).

Definition iov_bytes (d : list Z) v : list Z := take (Z.to_nat (iov_len v)) (drop (Z.to_nat (iov_base v)) d).

(** The loop: wlen when it ends.  writev's result is stored in a size_t. *)
Fixpoint write_loop (fuel : nat) datas need iov (total wlen : Z) (start : nat) k : outcome (Z * K) :=
  match fuel with
  | O => NoFuel
  | S fuel =>
      r ← match iov !! start, datas !! start with Some v, Some d => Done (writev (iov_bytes d v) k) | _, _ => Done (0, k) end;
      let wret := u64 r.1 in
      let k := r.2 in
      if wret <=? 0 then Done (wlen, k)
      else
        let wlen := u64 (wlen + wret) in
        if total <=? wlen then Done (wlen, k)
        else
          let pos := (start + upper_bound (drop start need) wlen)%nat in
          v ← of_option (iov !! pos); n ← of_option (need !! pos);
          let nlen := u64 (wlen + iov_len v) in
          let iov := if n <? nlen then let l := nlen - n in <[pos := Iovec (iov_base v + l) (u64 (iov_len v - l))]> iov else iov in
          write_loop fuel datas need iov total wlen pos k
  end.

Definition write_all datas k : outcome (Z * K) :=
  let need := need_outs 0 datas in
  let total := default 0 (last need) in
  r ← write_loop (S (Z.to_nat total)) datas need ((fun d => Iovec 0 (Z.of_nat (length d))) <$> datas) total 0 0 k;
  Done (if r.1 =? total then 0 else -1, r.2).

(** ** What is written *)
Context (sent : K -> list Z).

(** A writev that always makes progress. *)
Definition writes : Prop := forall l k, l <> [] -> let '(r, k') := writev l k in
  0 < r <= Z.of_nat (length l) /\ sent k' = sent k ++ take (Z.to_nat r) l.

Definition total_of datas : Z := Z.of_nat (length (mjoin datas)).

Lemma total_of_cons d datas : total_of (d :: datas) = Z.of_nat (length d) + total_of datas.
Proof. unfold total_of. change (mjoin (d :: datas)) with (d ++ mjoin datas). rewrite length_app. lia. Qed.

Lemma total_of_app ds1 ds2 : total_of (ds1 ++ ds2) = total_of ds1 + total_of ds2.
Proof. unfold total_of. rewrite join_app, length_app. lia. Qed.

Lemma total_of_nonneg datas : 0 <= total_of datas.
Proof. unfold total_of. lia. Qed.

Lemma need_outs_cons t d datas : 0 <= t -> t + total_of (d :: datas) < 2 ^ 64 ->
  need_outs t (d :: datas) = (t + Z.of_nat (length d)) :: need_outs (t + Z.of_nat (length d)) datas.
Proof. intros Ht Hs. rewrite total_of_cons in Hs. pose proof (total_of_nonneg datas). cbn [need_outs]. by rewrite wrap_u_id by (unfold in_u; lia). Qed.

Lemma drop_need t ds1 ds2 : 0 <= t -> t + total_of (ds1 ++ ds2) < 2 ^ 64 -> drop (length ds1) (need_outs t (ds1 ++ ds2)) = need_outs (t + total_of ds1) ds2.
Proof.
  revert t. induction ds1 as [|d ds1 IH]; intros t Ht Hs; [cbn; by rewrite Z.add_0_r|]. cbn [app] in *. rewrite need_outs_cons by done. cbn [length drop].
  rewrite total_of_cons in Hs. rewrite IH by lia. f_equal. rewrite total_of_cons. lia.
Qed.

Lemma last_need t datas : 0 <= t -> t + total_of datas < 2 ^ 64 -> default t (last (need_outs t datas)) = t + total_of datas.
Proof.
  revert t. induction datas as [|d datas IH]; intros t Ht Hs; [change (total_of []) with 0; cbn; lia|]. rewrite need_outs_cons by done. rewrite total_of_cons in *.
  specialize (IH (t + Z.of_nat (length d)) ltac:(lia) ltac:(lia)). destruct datas as [|d2 datas]; [change (total_of []) with 0; cbn; lia|]. rewrite need_outs_cons in * by (rewrite ?total_of_cons in *; lia).
  rewrite last_cons_cons. destruct (last (_ :: need_outs _ datas)) as [z|] eqn:El; [cbn in IH |- *; lia|by apply last_None in El].
Qed.

(** The loop between two calls: [off] bytes of the buffer [d] are written, and [olds]
    are the used iovecs. *)
Lemma write_loop_ok (writes_ok : writes) fuel base ds1 d ds2 (off : nat) olds k :
  let datas := ds1 ++ d :: ds2 in
  Forall (fun d => d <> []) datas -> total_of datas < 2 ^ 63 -> (off < length d)%nat -> length olds = length ds1 ->
  sent k = base ++ mjoin ds1 ++ take off d -> total_of datas - (total_of ds1 + Z.of_nat off) < Z.of_nat fuel ->
  exists k', write_loop fuel datas (need_outs 0 datas)
      (olds ++ Iovec (Z.of_nat off) (Z.of_nat (length d) - Z.of_nat off) :: ((fun d => Iovec 0 (Z.of_nat (length d))) <$> ds2))
      (total_of datas) (total_of ds1 + Z.of_nat off) (length ds1) k = Done (total_of datas, k') /\ sent k' = base ++ mjoin datas.
Proof.
  revert ds1 d ds2 off olds k. induction fuel as [|fuel IH]; intros ds1 d ds2 off olds k datas Hne Htot Hoff Hold Hk Hfuel;
    pose proof (total_of_nonneg ds1) as H1; pose proof (total_of_nonneg ds2) as H2;
    assert (Htd : total_of datas = total_of ds1 + (Z.of_nat (length d) + total_of ds2)) by (unfold datas; by rewrite total_of_app, total_of_cons); [lia|].
  cbn [write_loop]. assert (Ed : datas !! length ds1 = Some d) by (by apply list_lookup_middle). rewrite Ed. rewrite (list_lookup_middle olds) by done. rewrite outcome_bind_ret.
  unfold iov_bytes. cbn [iov_base iov_len]. rewrite Nat2Z.id. replace (Z.to_nat (Z.of_nat (length d) - Z.of_nat off)) with (length (drop off d)) by (rewrite length_drop; lia).
  rewrite take_ge by lia. assert (Hdne : drop off d <> []) by (intros E%(f_equal length); rewrite length_drop in E; cbn in E; lia).
  pose proof (writes_ok (drop off d) k Hdne) as Hw. destruct (writev (drop off d) k) as [n k1]. destruct Hw as [Hn Hk1]. cbn [fst snd]. rewrite length_drop in Hn.
  rewrite wrap_u_id by (unfold in_u; lia). rewrite (proj2 (Z.leb_gt n 0)) by lia. rewrite wrap_u_id by (unfold in_u; lia).
  assert (Hsent : sent k1 = base ++ mjoin ds1 ++ take (off + Z.to_nat n) d).
  { rewrite Hk1, Hk, <-!app_assoc. do 2 f_equal. by rewrite take_take_drop. }
  destruct (Z.leb_spec (total_of datas) (total_of ds1 + Z.of_nat off + n)) as [Hend|Hmore].
  - assert (ds2 = []).
    { destruct ds2 as [|d2 ds2]; [done|]. rewrite total_of_cons in Htd. pose proof (total_of_nonneg ds2). unfold datas in Hne. apply Forall_app in Hne as [_ Hne]. apply Forall_cons in Hne as [_ Hne].
      apply Forall_cons in Hne as [Hd2 _]. assert (0 < length d2)%nat by (destruct d2; [done|cbn; lia]). lia. }
    subst ds2. cbn in H2. unfold total_of in Htd at 3. cbn in Htd. exists k1. split; [f_equal; f_equal; lia|]. rewrite Hsent, take_ge by lia. unfold datas. rewrite join_app.
    change (mjoin [d]) with (d ++ []). by rewrite app_nil_r.
  - assert (EN : drop (length ds1) (need_outs 0 datas) = (total_of ds1 + Z.of_nat (length d)) :: need_outs (total_of ds1 + Z.of_nat (length d)) ds2).
    { unfold datas. rewrite drop_need by (fold datas; lia). rewrite need_outs_cons by (rewrite ?total_of_cons; lia). by rewrite Z.add_0_l. }
    rewrite EN. cbn [upper_bound]. destruct (Z.ltb_spec (total_of ds1 + Z.of_nat off + n) (total_of ds1 + Z.of_nat (length d))) as [Hin|Hout].
    + rewrite Nat.add_0_r, (list_lookup_middle olds) by done. cbn [of_option]. rewrite outcome_bind_ret.
      replace (need_outs 0 datas !! length ds1) with (Some (total_of ds1 + Z.of_nat (length d))) by (rewrite <-(Nat.add_0_r (length ds1)), <-lookup_drop; by rewrite EN).
      cbn [of_option iov_len iov_base]. rewrite outcome_bind_ret, wrap_u_id by (unfold in_u; lia). rewrite (proj2 (Z.ltb_lt _ _)) by lia.
      rewrite wrap_u_id by (unfold in_u; lia).
      rewrite insert_app_r_alt, Hold, Nat.sub_diag by lia. cbn [insert list_insert].
      destruct (IH ds1 d ds2 (off + Z.to_nat n)%nat olds k1) as (k' & E & Hk'); try done; [lia|fold datas; lia|]. fold datas in E, Hk'.
      exists k'. split; [|done]. rewrite <-E. f_equal; [do 3 f_equal; lia|lia].
    + assert (Hoff' : (off + Z.to_nat n = length d)%nat) by lia. destruct ds2 as [|d2 ds2]; [exfalso; change (total_of []) with 0 in Htd; lia|].
      pose proof (total_of_nonneg ds2) as H3. pose proof Hne as Hne'. unfold datas in Hne'. apply Forall_app in Hne' as [_ Hne']. apply Forall_cons in Hne' as [_ Hne'].
      apply Forall_cons in Hne' as [Hd2 _]. assert (Hl2 : (0 < length d2)%nat) by (destruct d2; [done|cbn; lia]). rewrite total_of_cons in Htd.
      rewrite need_outs_cons in EN |- * by (rewrite ?total_of_cons; lia). cbn [upper_bound]. rewrite (proj2 (Z.ltb_lt _ _)) by lia.
      set (v1 := Iovec (Z.of_nat off) _). cbn [fmap list_fmap]. rewrite (cons_middle v1), app_assoc.
      replace (length ds1 + 1)%nat with (length (olds ++ [v1])) by (rewrite length_app; cbn; lia). rewrite (list_lookup_middle (olds ++ [v1])) by done. cbn [of_option]. rewrite outcome_bind_ret.
      replace (need_outs 0 datas !! length (olds ++ [v1])) with (Some (total_of ds1 + Z.of_nat (length d) + Z.of_nat (length d2))).
      2:{ rewrite length_app, Hold. cbn [length]. by rewrite <-lookup_drop, EN. }
      cbn [of_option iov_len iov_base]. rewrite outcome_bind_ret, wrap_u_id by (unfold in_u; lia). rewrite (proj2 (Z.ltb_ge _ _)) by lia.
      destruct (IH (ds1 ++ [d]) d2 ds2 0%nat (olds ++ [v1]) k1) as (k' & E & Hk').
      * by rewrite <-app_assoc.
      * by rewrite <-app_assoc.
      * done.
      * rewrite !length_app. cbn. lia.
      * rewrite Hsent, take_ge, join_app by lia. change (mjoin [d]) with (d ++ []). by rewrite take_0, !app_nil_r.
      * rewrite <-app_assoc. cbn [app]. fold datas. rewrite total_of_app, total_of_cons. change (total_of []) with 0. lia.
      * rewrite <-!app_assoc in E, Hk'. cbn [app] in E, Hk'. fold datas in E, Hk'. exists k'. split; [|done]. rewrite <-E. rewrite <-app_assoc. cbn [app].
        f_equal; [by rewrite <-app_assoc, Z.sub_0_r|rewrite total_of_app, total_of_cons; change (total_of []) with 0; lia|rewrite !length_app; cbn; lia].
Qed.

(** write_all sends every buffer whole and in order and returns 0, however writev cuts
    them, as long as writev makes progress. *)
Lemma write_all_delivers datas k :
  writes -> Forall (fun d => d <> []) datas -> datas <> [] -> total_of datas < 2 ^ 63 ->
  exists k', write_all datas k = Done (0, k') /\ sent k' = sent k ++ mjoin datas.
Proof.
  intros Hw Hne Hnil Htot. pose proof (total_of_nonneg datas) as H0. unfold write_all. destruct datas as [|d ds]; [done|].
  assert (Hl : default 0 (last (need_outs 0 (d :: ds))) = total_of (d :: ds)) by (rewrite last_need by lia; lia). rewrite Hl.
  apply Forall_cons in Hne as Hd. destruct Hd as [Hd _].
  destruct (write_loop_ok Hw (S (Z.to_nat (total_of (d :: ds)))) (sent k) [] d ds 0%nat [] k Hne Htot) as (k' & E & Hk); [destruct d; [done|cbn; lia]|done|by rewrite take_0, app_nil_r|change (total_of []) with 0; cbn [app]; lia|].
  exists k'. split; [|exact Hk]. cbn [app length fmap list_fmap] in E |- *. rewrite Z.sub_0_r in E. change (total_of [] + Z.of_nat 0) with 0 in E. change (Z.of_nat 0) with 0 in E.
  rewrite E, outcome_bind_ret. cbn [fst snd]. by rewrite Z.eqb_refl.
Qed.
End write.

(** ** A failure in the middle *)

(** The results that writev will have, and what was sent: a result of -1 is a call that
    was interrupted. *)
Definition script : Type := list Z * list Z.
Definition writev_script (l : list Z) (k : script) : Z * script :=
  match k.1 with
  | r :: rs => if r <? 0 then (-1, (rs, k.2)) else let n := Z.min r (Z.of_nat (length l)) in (n, (rs, k.2 ++ take (Z.to_nat n) l))
  | [] => (Z.of_nat (length l), ([], k.2 ++ l))
  end.

Definition writev_two (l : list Z) (k : list Z) : Z * list Z := (Z.of_nat (length (take 2 l)), k ++ take 2 l).

Lemma writev_two_writes : writes writev_two id.
Proof.
  intros l k Hl. unfold writev_two, id. assert (0 < length l)%nat by (destruct l; [done|cbn; lia]). rewrite Nat2Z.id, length_take. split; [lia|]. f_equal.
  destruct (decide (length l <= 2)%nat); [rewrite !take_ge by lia; done|by rewrite Nat.min_l by lia].
Qed.

(** Writev's -1 becomes 2^64-1 in a size_t and is counted: after an interrupted call
    in the middle write_all goes on one byte behind, repeats the last byte, which it
    counts as written, and returns 0. *)
Theorem write_all_repeats_byte : write_all writev_script [[1; 2; 3; 4]] ([2; -1], []) = Done (0, ([], [1; 2; 3; 4; 4])).
Proof. vm_compute. reflexivity. Qed.
