(* ===== verification/Duplex.v ===== *)
(** * svrkit/src/rpc_pb_client_duplex.cpp: many calls over one connection

    A call puts its context into a table by its sequence number and into a queue, and
    yields; a sending coroutine writes the queue, a reading one looks the sequence
    number of each response up and resumes the call, and a timer resumes a call whose
    response does not come.  A call is known by the address of its context, which is the
    node in the table.  The connection is that of PacketStream; the generated parser of
    responses and writev are parameters, and the names of methods are taken to outlive
    the client, as literals do. *)
From stdpp Require Import list gmap.
From S2P Require Import Prelude Words HashTable HashKeys Pbc RpcBase CmdBase PacketStream RpcServer WriteAll.

Section duplex.
Context {D K : Type} `{Countable D}.

(** ReqCtx; m_req is serialized, and the result of a call is what its resumption
    gives it. *)
Record ReqCtx := Req { m_cmd_name : list Z; m_cmd_id : Z; m_req : option (list Z); m_seq_id : Z }.
Implicit Types (r : ReqCtx) (d : D).

Record RpcPbClientDuplex := Duplex {
  m_req_queue : list D; m_in_queue : table D int_key; m_client_seq_id : Z; m_req_num : Z; ctxs : gmap D ReqCtx }.
Implicit Types cl : RpcPbClientDuplex.

Definition set_queue (q : list D) (n : Z) cl : RpcPbClientDuplex := Duplex q (m_in_queue cl) (m_client_seq_id cl) n (ctxs cl).

(** What a call returns: its result, the body of its response, and the error text. *)
Record reply := Reply { who : D; result : Z; rsp_body : option (list Z); rsp_err : option (list Z) }.

(** ** rpc_call_base *)

(** Up to the yield. *)
Definition call_begin d r cl : outcome RpcPbClientDuplex :=
  let seq := u64 (m_client_seq_id cl + 1) in
  t ← insert_node d (IntKey seq) (m_in_queue cl);
  Done (Duplex (m_req_queue cl ++ [d]) t seq (m_req_num cl + 1) (<[d := Req (m_cmd_name r) (m_cmd_id r) (m_req r) seq]> (ctxs cl))).

(** From its resumption with [v]: 1 from the timer. *)
Definition call_end d (v : Z) (b err : option (list Z)) cl : outcome (reply * RpcPbClientDuplex) :=
  t ← HashTable.remove d (m_in_queue cl);
  Done (Reply d (if v =? 1 then -1 else 0) b err,
    Duplex (filter (fun x => x <> d) (m_req_queue cl)) t (m_client_seq_id cl) (m_req_num cl) (delete d (ctxs cl))).

Definition proc_req_timeout d cl : outcome (reply * RpcPbClientDuplex) := call_end d 1 None None cl.

(** ** send_proc *)

(** The local cmd_base with the name that it points to. *)
Record sender := Sender { base : cmd_base_t; name : list Z }.
Implicit Types s : sender.

Definition new_sender : sender := Sender (set_type REQUEST_TYPE CmdBase.init) [].

Definition set_cmd_id (n : Z) (c : cmd_base_t) : cmd_base_t := CmdBase (type c) (cmd_name c) n (seq_id c) (body c) (ret c) (errmsg c).
Definition set_name (n : ref_str_t) (c : cmd_base_t) : cmd_base_t := CmdBase (type c) n (CmdBase.cmd_id c) (seq_id c) (body c) (ret c) (errmsg c).

(** One request: the result and the vector of serialize_cmd_base. *)
Definition send_one r s : outcome (Z * list Z * sender) :=
  let s := if 0 <? m_cmd_id r then Sender (set_cmd_id (m_cmd_id r) (base s)) (name s)
           else Sender (set_name (RefStr (Z.of_nat (length (m_cmd_name r))) (Some 0)) (base s)) (m_cmd_name r) in
  let s := Sender (set_seq (m_seq_id r) (base s)) (name s) in
  o ← serialize_cmd_base_vec (name s) (base s) (m_req r); Done (o.1, o.2, s).

(** The loop over the queue: the vectors to write. *)
Fixpoint send_queue (queue : list D) s cl : outcome (list (list Z) * sender) :=
  match queue with
  | [] => Done ([], s)
  | d :: queue =>
      r ← of_option (ctxs cl !! d);
      o ← send_one r s;
      l ← send_queue queue o.2 cl;
      Done (if (o.1.1 =? 0) && negb (bool_decide (o.1.2 = [])) then o.1.2 :: l.1 else l.1, l.2)
  end.

(** A round of its loop with requests in the queue; [true] when the loop goes on. *)
Definition send_round (writev : list Z -> K -> Z * K) s cl (k : K) : outcome (bool * sender * RpcPbClientDuplex * K) :=
  let queue := m_req_queue cl in
  let cl := set_queue [] 0 cl in
  l ← send_queue queue s cl;
  match l.1 with
  | [] => Done (true, l.2, cl, k)
  | datas => r ← write_all writev datas k; Done (negb (r.1 <? 0), l.2, cl, r.2)
  end.

(** ** read_rsp *)

(** ParseFromArray of the response: seq_id, ret, errmsg and body. *)
Context (parse_resp : list Z -> option (Z * Z * list Z * list Z)).

(** A response, up to the return of the call that it resumes; -6 and -7 are returns of
    read_rsp. *)
Definition read_one (p : list Z) cl : outcome (Z * list reply * RpcPbClientDuplex) :=
  match parse_resp p with
  | None => Done (-6, [], cl)
  | Some (seq, retcode, err, b) =>
      node ← find (IntKey seq) (m_in_queue cl);
      match node with
      | None => Done (-7, [], cl)
      | Some d => o ← call_end d 0 (Some b) (if negb (retcode =? 0) then Some err else None) cl; Done (0, [o.1], o.2)
      end
  end.

(** The loop over the packets that came together; [pack] is the one at hand. *)
Fixpoint read_loop (fuel : nat) (pack : Z * Z) (st : packet_stream) cl : outcome (Z * list reply * packet_stream * RpcPbClientDuplex) :=
  match fuel with
  | O => NoFuel
  | S fuel =>
      if pack.2 <=? 0 then Done (0, [], st, cl)
      else
        p ← load_bytes (buff st) pack.1 (Z.to_nat pack.2);
        o ← read_one p cl;
        let '(e, l, cl) := o in
        if negb (e =? 0) then Done (e, l, st, cl)
        else
          n ← next_packet st;
          match n with
          | (e, Some pack, st) => if negb (e =? 0) then Done (0, l, st, cl) else o ← read_loop fuel pack st cl; let '(e, l2, st, cl) := o in Done (e, l ++ l2, st, cl)
          | (_, None, st) => Done (0, l, st, cl)
          end
  end.

Definition read_rsp recv poll errno get_tick_ms (st : packet_stream) cl (k : K) : outcome (Z * list reply * packet_stream * RpcPbClientDuplex * K) :=
  o ← read_packet_timeout recv poll errno get_tick_ms 10000 1 st k;
  let '(ret, pack, st, k) := o in
  if ret =? 0 then Done (0, [], st, cl, k)
  else if ret <? 0 then Done (-1, [], st, cl, k)
  else
    pack ← of_option pack;
    o ← read_loop (S (length (buff st))) pack st cl; let '(e, l, st, cl) := o in Done (e, l, st, cl, k).

(** A round of read_proc when the descriptor is readable: whether it goes on. *)
Definition read_round recv poll errno get_tick_ms (st : packet_stream) cl (k : K) : outcome (bool * list reply * packet_stream * RpcPbClientDuplex * K) :=
  o ← read_rsp recv poll errno get_tick_ms st cl k;
  let '(ret, l, st, cl, k) := o in Done (ret =? 0, l, st, cl, k).

(** ** Which call gets which response *)

Implicit Types (outst : list (D * Z)) (q : Z).

(** The calls that have not returned, with their sequence numbers.  [nodes] are the
    addresses of contexts, [first] is the first value of the counter, [n] the number of
    calls so far. *)
Record duplex_ok (nodes : list D) (first n : Z) outst cl : Prop := {
  dk_table : exists free num, implements (m_in_queue cl) (Multimap ((fun p => (p.1, IntKey p.2)) <$> outst) free num) /\ free.*1 ++ outst.*1 ≡ₚ nodes;
  dk_seqs : NoDup outst.*2;
  dk_range : Forall (fun q => exists i, 0 < i <= n /\ q = u64 (first + i)) outst.*2;
  dk_count : 0 <= n < 2 ^ 64 /\ m_client_seq_id cl = u64 (first + n);
  dk_ctxs d q : (d, q) ∈ outst <-> exists r, ctxs cl !! d = Some r /\ m_seq_id r = q;
  dk_queue d : d ∈ m_req_queue cl -> is_Some (ctxs cl !! d) }.

Lemma filter_all {A} (P : A -> Prop) `{!forall x, Decision (P x)} (l : list A) : (forall x, x ∈ l -> P x) -> filter P l = l.
Proof.
  induction l as [|x l IH]; intros HP; [done|]. rewrite filter_cons_True by (apply HP; left). f_equal. apply IH. intros y Hy. apply HP. by right.
Qed.

Lemma duplex_nodup nodes first n outst cl : duplex_ok nodes first n outst cl -> NoDup outst.*1.
Proof.
  intros [(free & num & (HR & _) & _) _ _ _ _ _]. apply table_repr_nodup in HR. cbn [entries spare] in HR. apply NoDup_app in HR as (HR & _). by rewrite <-list_fmap_compose in HR.
Qed.

Lemma seq_fresh first n i : 0 <= n -> n + 1 < 2 ^ 64 -> 0 < i <= n -> u64 (first + i) <> u64 (first + (n + 1)).
Proof.
  intros H0 Hn Hi E. assert (HE : u64 (n + 1 - i) = 0).
  { replace (n + 1 - i) with (first + (n + 1) - (first + i)) by lia. rewrite <-wrap_u_sub_l, <-wrap_u_sub_r, <-E. unfold wrap_u. by rewrite Z.sub_diag. }
  rewrite wrap_u_id in HE by (unfold in_u; lia). lia.
Qed.

Lemma call_begin_ok nodes first n outst cl d r :
  duplex_ok nodes first n outst cl -> n + 1 < 2 ^ 64 -> d ∈ nodes -> d ∉ outst.*1 ->
  exists cl', call_begin d r cl = Done cl' /\ duplex_ok nodes first (n + 1) ((d, u64 (first + (n + 1))) :: outst) cl'.
Proof.
  intros Hok Hn Hd Hout. destruct Hok as [(free & num & HI & Hp) Hs Hr [Hn0 Hc] Hctx Hq]. unfold call_begin.
  assert (Eseq : u64 (m_client_seq_id cl + 1) = u64 (first + (n + 1))) by (rewrite Hc, wrap_u_add_l; f_equal; lia). rewrite Eseq. set (seq := u64 (first + (n + 1))).
  assert (Hf : d ∈ free.*1) by (rewrite <-Hp in Hd; apply elem_of_app in Hd as [?|?]; done). apply list_elem_of_fmap in Hf as ([d' v0] & -> & (free' & Hf)%elem_of_Permutation).
  destruct (insert_node_ok d' (IntKey seq) v0 _ _ free' num _ Hf HI) as (t & E & HI'). cbn [fst] in *. rewrite E, outcome_bind_ret. eexists. split; [reflexivity|].
  split; cbn [m_in_queue m_client_seq_id ctxs m_req_queue].
  - exists free', (u64 (num + 1)). split; [exact HI'|]. cbn [fmap list_fmap fst]. rewrite <-Hp, Hf. cbn [fmap list_fmap fst]. by rewrite <-Permutation_middle.
  - cbn [fmap list_fmap snd]. apply NoDup_cons. split; [|done]. intros Hin. rewrite Forall_forall in Hr. destruct (Hr _ Hin) as (i & Hi & E'). symmetry in E'. unfold seq in E'. by apply (seq_fresh first n i) in E'; [|lia..].
  - cbn [fmap list_fmap snd]. constructor; [exists (n + 1); split; [lia|done]|]. apply (Forall_impl _ _ _ Hr). intros q (i & ? & ?). exists i. split; [lia|done].
  - split; [lia|done].
  - intros e q. rewrite elem_of_cons. destruct (decide (e = d')) as [->|Hne].
    + rewrite lookup_insert_eq. split.
      * intros [[= ->]|Hin]; [by eexists|]. exfalso. apply Hout. by apply (list_elem_of_fmap_2 fst) in Hin.
      * intros (r' & [= <-] & Hq'). left. cbn in Hq'. by rewrite <-Hq'.
    + rewrite lookup_insert_ne by done. rewrite <-Hctx. split; [intros [[= ? ?]|?]; done|by right].
  - intros e. rewrite elem_of_app, list_elem_of_singleton. intros [Hin| ->]; [|by rewrite lookup_insert_eq]. apply lookup_insert_is_Some. destruct (decide (d' = e)); [by left|right]. by split; [|apply Hq].
Qed.

Lemma call_end_ok nodes first n outst cl d q v b err :
  duplex_ok nodes first n outst cl -> (d, q) ∈ outst ->
  exists cl', call_end d v b err cl = Done (Reply d (if v =? 1 then -1 else 0) b err, cl') /\
    duplex_ok nodes first n (filter (fun p => p.1 <> d) outst) cl' /\ ctxs cl' = delete d (ctxs cl).
Proof.
  intros Hok Hin. pose proof (duplex_nodup _ _ _ _ _ Hok) as Hnd. destruct Hok as [(free & num & HI & Hp) Hs Hr Hn Hctx Hq]. apply list_elem_of_split in Hin as (l1 & l2 & ->).
  assert (Efil : filter (fun p : D * Z => p.1 <> d) (l1 ++ (d, q) :: l2) = l1 ++ l2).
  { rewrite fmap_app in Hnd. cbn in Hnd. apply NoDup_app in Hnd as (_ & Hx & Hy). apply NoDup_cons in Hy as [Hy _].
    rewrite filter_app, filter_cons_False by (cbn; tauto). f_equal.
    - apply filter_all. intros [e x] He Eq. apply (list_elem_of_fmap_2 fst) in He. cbn in *. subst e. apply (Hx _ He). by left.
    - apply filter_all. intros [e x] He Eq. apply (list_elem_of_fmap_2 fst) in He. cbn in *. by subst e. }
  unfold call_end. rewrite fmap_app in HI. cbn [fmap list_fmap fst snd] in HI. destruct (remove_node_ok d (IntKey q) _ _ free num _ HI) as (t & E & HI'). rewrite E, outcome_bind_ret.
  eexists. split; [reflexivity|]. split; [|done]. rewrite Efil. split; cbn [m_in_queue m_client_seq_id ctxs m_req_queue].
  - eexists _, _. split; [rewrite <-fmap_app in HI'; exact HI'|]. cbn [fmap list_fmap fst]. rewrite <-Hp, !fmap_app. cbn [fmap list_fmap fst]. by rewrite <-!Permutation_middle.
  - rewrite fmap_app in Hs. cbn [fmap list_fmap snd] in Hs. rewrite fmap_app. apply (NoDup_cons_1_2 q). by rewrite Permutation_middle.
  - rewrite fmap_app in Hr. rewrite fmap_app. apply Forall_app in Hr as [? Hr]. apply Forall_cons in Hr as [_ Hr]. by apply Forall_app.
  - done.
  - intros e x. rewrite <-Efil, list_elem_of_filter. cbn [fst]. rewrite Hctx. destruct (decide (e = d)) as [->|Hne].
    + rewrite lookup_delete_eq. split; [tauto|by intros (? & ? & _)].
    + rewrite lookup_delete_ne by done. tauto.
  - intros e [Hne He]%list_elem_of_filter. rewrite lookup_delete_ne by done. by apply Hq.
Qed.

(** The states of a client: calls begin at contexts that are not in use, the sender
    takes the queue, responses arrive and timers fire. *)
Inductive duplex_run (nodes : list D) cl0 : Z -> list (D * Z) -> RpcPbClientDuplex -> Prop :=
| dr_start : duplex_run nodes cl0 0 [] cl0
| dr_call n outst cl d r cl' : duplex_run nodes cl0 n outst cl -> n + 1 < 2 ^ 64 -> d ∈ nodes -> d ∉ outst.*1 -> call_begin d r cl = Done cl' ->
    duplex_run nodes cl0 (n + 1) ((d, m_client_seq_id cl') :: outst) cl'
| dr_send n outst cl : duplex_run nodes cl0 n outst cl -> duplex_run nodes cl0 n outst (set_queue [] 0 cl)
| dr_timeout n outst cl d o : duplex_run nodes cl0 n outst cl -> d ∈ outst.*1 -> proc_req_timeout d cl = Done o ->
    duplex_run nodes cl0 n (filter (fun p => p.1 <> d) outst) o.2
| dr_response n outst cl p e l cl' : duplex_run nodes cl0 n outst cl -> read_one p cl = Done (e, l, cl') ->
    duplex_run nodes cl0 n (filter (fun p => p.1 ∉ (who <$> l)) outst) cl'.

Lemma find_call nodes first n outst cl q :
  duplex_ok nodes first n outst cl -> exists o, find (IntKey q) (m_in_queue cl) = Done o /\ match o with Some d => (d, q) ∈ outst | None => q ∉ outst.*2 end.
Proof.
  intros [(free & num & HI & _) _ _ _ _ _]. rewrite (find_newest _ _ _ _ _ HI). eexists. split; [reflexivity|]. set (items := (fun p : D * Z => (p.1, IntKey p.2)) <$> outst).
  pose proof (lookup_newest_spec (IntKey q) items) as HS. destruct (lookup_newest _ _) as [d|].
  - destruct HS as (w & ([d' q'] & [= -> ->] & Hin)%list_elem_of_fmap & E%Z.eqb_eq). cbn in *. by subst q'.
  - intros ([d q'] & -> & Hin)%list_elem_of_fmap. specialize (HS d (IntKey q')). cbn in HS. rewrite Z.eqb_refl in HS. discriminate HS. apply list_elem_of_fmap. by exists (d, q').
Qed.

Lemma read_one_ok nodes first n outst cl p q retcode err b :
  duplex_ok nodes first n outst cl -> parse_resp p = Some (q, retcode, err, b) ->
  (exists d cl', (d, q) ∈ outst /\ read_one p cl = Done (0, [Reply d 0 (Some b) (if negb (retcode =? 0) then Some err else None)], cl') /\
     duplex_ok nodes first n (filter (fun p => p.1 <> d) outst) cl' /\ ctxs cl' = delete d (ctxs cl)) \/
  (q ∉ outst.*2) /\ read_one p cl = Done (-7, [], cl).
Proof.
  intros Hok Hp. unfold read_one. rewrite Hp. destruct (find_call nodes first n outst cl q Hok) as (o & -> & Ho). rewrite outcome_bind_ret. destruct o as [d|]; [left|by right].
  destruct (call_end_ok nodes first n outst cl d q 0 (Some b) (if negb (retcode =? 0) then Some err else None) Hok Ho) as (cl' & E & Hok' & Hc). rewrite E, outcome_bind_ret.
  exists d, cl'. by split_and!.
Qed.

Lemma filter_who outst d (x : reply) : who x = d -> filter (fun p : D * Z => p.1 ∉ who <$> [x]) outst = filter (fun p => p.1 <> d) outst.
Proof. intros <-. apply list_filter_iff. intros p. cbn. by rewrite list_elem_of_singleton. Qed.

Lemma duplex_run_ok nodes first cl0 n outst cl : duplex_ok nodes first 0 [] cl0 -> duplex_run nodes cl0 n outst cl -> duplex_ok nodes first n outst cl.
Proof.
  intros H0. induction 1 as [|n outst cl d r cl' _ IH Hn Hd Hout E|n outst cl _ IH|n outst cl d o _ IH Hd E|n outst cl p e l cl' _ IH E]; [done| | | |].
  - destruct (call_begin_ok _ _ _ _ _ _ r IH Hn Hd Hout) as (cl2 & E2 & Hok). rewrite E in E2. injection E2 as <-. by rewrite (proj2 (dk_count _ _ _ _ _ Hok)).
  - destruct IH as [? ? ? ? ? ?]. split; try done. by intros d ?%elem_of_nil.
  - apply list_elem_of_fmap in Hd as ([d' q] & -> & Hin). destruct (call_end_ok _ _ _ _ _ d' q 1 None None IH Hin) as (cl2 & E2 & Hok & _). unfold proc_req_timeout in E. cbn [fst] in *.
    rewrite E in E2. by injection E2 as ->.
  - destruct (parse_resp p) as [[[[q retcode] err] b]|] eqn:Ep.
    + destruct (read_one_ok _ _ _ _ _ p q retcode err b IH Ep) as [(d & cl2 & Hin & E2 & Hok & _)|[_ E2]]; rewrite E in E2; injection E2 as -> -> ->; [by rewrite (filter_who _ d)|].
      rewrite filter_all; [done|]. intros x _. apply not_elem_of_nil.
    + unfold read_one in E. rewrite Ep in E. injection E as <- <- <-. rewrite filter_all; [done|]. intros x _. apply not_elem_of_nil.
Qed.

(** C18: the calls that wait on one client never mix: whatever calls, sends, timeouts and
    responses have interleaved, the calls that wait have different sequence numbers, a
    response ends exactly the one with its number, which gets its body and error text, a
    timer ends its own call with -1, and no other call is touched.  A response for a
    call that has returned ends nothing, and makes read_rsp return -7. *)
Theorem responses_matched nodes first cl0 n outst cl :
  duplex_ok nodes first 0 [] cl0 -> duplex_run nodes cl0 n outst cl ->
  NoDup outst.*2 /\ (forall d q, (d, q) ∈ outst <-> exists r, ctxs cl !! d = Some r /\ m_seq_id r = q) /\
  (forall p q retcode err b, parse_resp p = Some (q, retcode, err, b) ->
     (exists d cl', (d, q) ∈ outst /\ read_one p cl = Done (0, [Reply d 0 (Some b) (if negb (retcode =? 0) then Some err else None)], cl') /\ ctxs cl' = delete d (ctxs cl)) \/
     (q ∉ outst.*2) /\ read_one p cl = Done (-7, [], cl)) /\
  forall d, d ∈ outst.*1 -> exists cl', proc_req_timeout d cl = Done (Reply d (-1) None None, cl') /\ ctxs cl' = delete d (ctxs cl).
Proof.
  intros H0 Hrun. pose proof (duplex_run_ok _ _ _ _ _ _ H0 Hrun) as Hok. split; [apply (dk_seqs _ _ _ _ _ Hok)|]. split; [apply (dk_ctxs _ _ _ _ _ Hok)|]. split.
  - intros p q retcode err b Hp. destruct (read_one_ok _ _ _ _ _ p q retcode err b Hok Hp) as [(d & cl' & ? & ? & _ & ?)|?]; [left; by exists d, cl'|by right].
  - intros d ([d' q] & -> & Hin)%list_elem_of_fmap. destruct (call_end_ok _ _ _ _ _ d' q 1 None None Hok Hin) as (cl' & E & _ & Hc). by exists cl'.
Qed.

(** ** What is sent *)

(** What the sender's cmd_base holds of earlier requests: the number and the name of the
    command. *)
Implicit Types (c : Z * list Z) (rs : list ReqCtx).

Definition carry c r : Z * list Z := if 0 <? m_cmd_id r then (m_cmd_id r, c.2) else (c.1, m_cmd_name r).
Definition request_header c (seq : Z) : header := Header REQUEST_TYPE c.2 c.1 seq [] 0 [].
Definition frame (m : list Z) : list Z := be32 (Z.of_nat (length m)) ++ m.

Fixpoint frames c rs : list (list Z) :=
  match rs with
  | [] => []
  | r :: rs => let c := carry c r in frame (message (request_header c (m_seq_id r)) (m_req r)) :: frames c rs
  end.

Definition short (l : list Z) : Prop := Z.of_nat (length l) < 2 ^ 29 /\ Forall (in_u 8) l.

Record request_ok r : Prop := {
  rq_id : in_u 64 (m_cmd_id r); rq_seq : in_u 64 (m_seq_id r); rq_name : short (m_cmd_name r); rq_body b : m_req r = Some b -> short b }.

Record sender_ok c s : Prop := {
  sd_base : exists n seq, base s = CmdBase REQUEST_TYPE n c.1 seq (RefStr 0 None) 0 (RefStr 0 None) /\ str_is (name s) n (name s);
  sd_name : name s = c.2; sd_id : in_u 64 c.1; sd_short : short c.2 }.

Lemma short_bytes l : short l -> bytes l.
Proof. intros [? ?]. split; [lia|done]. Qed.

Lemma new_sender_ok : sender_ok (0, []) new_sender.
Proof. split; [by eexists _, _|done|cbn; unfold in_u; lia|by split]. Qed.

Lemma send_one_ok c r s : sender_ok c s -> request_ok r ->
  exists s', send_one r s = Done (0, frame (message (request_header (carry c r) (m_seq_id r)) (m_req r)), s') /\ sender_ok (carry c r) s'.
Proof.
  intros [(n & seq & Eb & Hn) Hname Hid Hshort] [Hrid Hrseq Hrname Hrbody]. unfold send_one. cbv zeta.
  assert (exists s1, (if 0 <? m_cmd_id r then Sender (set_cmd_id (m_cmd_id r) (base s)) (name s)
           else Sender (set_name (RefStr (Z.of_nat (length (m_cmd_name r))) (Some 0)) (base s)) (m_cmd_name r)) = s1 /\ sender_ok (carry c r) s1) as (s1 & -> & Hs1).
  { eexists. split; [reflexivity|]. unfold carry. destruct (0 <? m_cmd_id r); split; cbn [fst snd base name]; try done.
    - rewrite Eb. by eexists _, _.
    - rewrite Eb. eexists _, _. split; [reflexivity|]. split; [done|]. intros _. exists 0. split; [done|]. apply load_bytes_reads; [done|]. cbn [Z.to_nat]. by rewrite drop_0, take_ge. }
  clear Eb Hn Hname Hid Hshort n seq. destruct Hs1 as [(n & seq & Eb & Hn) Hname Hid Hshort].
  set (c1 := carry c r) in *. clearbody c1. rewrite (serialize_cmd_base_vec_ok (name s1) _ (request_header c1 (m_seq_id r))).
  - rewrite outcome_bind_ret. eexists. split; [reflexivity|]. split; cbn [base name]; try done. rewrite Eb. by eexists _, _.
  - cbn [base name]. rewrite Eb. unfold request_header. rewrite <-Hname. by split.
  - cbn. split; [|by split_and!; [apply short_bytes|..]]. split_and!; [|done..|]; unfold in_u; done.
  - intros m Hm. by apply short_bytes, Hrbody.
  - unfold total. cbn. destruct Hshort as [? _]. destruct (m_req r) as [b|]; [destruct (Hrbody b eq_refl)|]; lia.
Qed.

Lemma send_queue_ok queue rs c s cl :
  sender_ok c s -> Forall2 (fun d r => ctxs cl !! d = Some r) queue rs -> Forall request_ok rs ->
  exists s', send_queue queue s cl = Done (frames c rs, s') /\ sender_ok (foldl carry c rs) s'.
Proof.
  intros Hs Hq Hrs. revert c s Hs. induction Hq as [|d r queue rs Hd Hq IH]; intros c s Hs; [by exists s|]. apply Forall_cons in Hrs as [Hr Hrs].
  cbn [send_queue frames foldl]. rewrite Hd. cbn [of_option]. rewrite outcome_bind_ret. destruct (send_one_ok c r s Hs Hr) as (s1 & E & Hs1). rewrite E, outcome_bind_ret.
  destruct (IH Hrs (carry c r) s1 Hs1) as (s' & E' & Hs'). cbn [fst snd]. rewrite E', outcome_bind_ret. exists s'. split; [|done]. cbn [fst snd Z.eqb andb].
  by rewrite bool_decide_false.
Qed.

(** C29: as long as every writev writes some of its bytes, a round of the sender
    takes every request of the queue, writes their frames whole and in the order of the
    calls, and goes on.  Its header is kept from one request to the next, so a request
    by name that follows one by number carries both, and the server runs the command
    with the earlier number ([names]).  A writev that fails is not in it:
    WriteAll.write_all_repeats_byte. *)
Theorem requests_sent {A Msg O : Type} writev (sent : K -> list Z) c s rs cl k :
  writes writev sent -> sender_ok c s -> Forall2 (fun d r => ctxs cl !! d = Some r) (m_req_queue cl) rs -> Forall request_ok rs -> total_of (frames c rs) < 2 ^ 63 ->
  (exists s' k', send_round writev s cl k = Done (true, s', set_queue [] 0 cl, k') /\ sent k' = sent k ++ mjoin (frames c rs) /\ sender_ok (foldl carry c rs) s') /\
  forall r1 r2 (x : @rpc_pb_cmd_t A Msg O), rs = [r1; r2] -> 0 < m_cmd_id r1 -> m_cmd_id r2 = 0 ->
    frames c rs = (fun m => frame m) <$> [message (Header REQUEST_TYPE c.2 (m_cmd_id r1) (m_seq_id r1) [] 0 []) (m_req r1);
                   message (Header REQUEST_TYPE (m_cmd_name r2) (m_cmd_id r1) (m_seq_id r2) [] 0 []) (m_req r2)] /\
    (names (Header REQUEST_TYPE (m_cmd_name r2) (m_cmd_id r1) (m_seq_id r2) [] 0 []) x <-> RpcBase.cmd_id x = m_cmd_id r1).
Proof.
  intros Hw Hs Hq Hrs Ht. split.
  - unfold send_round. destruct (send_queue_ok _ _ _ _ (set_queue [] 0 cl) Hs Hq Hrs) as (s' & E & Hs'). rewrite E, outcome_bind_ret. cbn [fst snd].
    assert (Hne : Forall (fun f : list Z => f <> []) (frames c rs)) by (clear; revert c; induction rs; intros c; cbn [frames]; constructor; done).
    destruct (frames c rs) as [|f fs] eqn:Ef; [exists s', k; split; [done|]; split; [by rewrite app_nil_r|done]|].
    destruct (write_all_delivers writev sent (f :: fs) k Hw Hne) as (k' & Ew & Hk'); [done..|]. rewrite Ew, outcome_bind_ret. by exists s', k'.
  - intros r1 r2 x -> H1 H2. cbn [frames fmap list_fmap]. unfold carry. rewrite (proj2 (Z.ltb_lt 0 (m_cmd_id r1)) H1), H2. split; [done|]. unfold names. cbn [h_cmd].
    by rewrite (proj2 (Z.ltb_lt 0 (m_cmd_id r1)) H1).
Qed.

(** The constructor, over the memory of the contexts. *)
Definition new_client garbage (tsc : Z) (nodes : table D int_key) : outcome RpcPbClientDuplex :=
  t ← HashTableBase nodes; t ← HashTable.init 1000 garbage t; Done (Duplex [] t tsc 0 ∅).

Lemma new_client_ok garbage tsc (nodes : list (D * int_key)) : NoDup nodes.*1 -> in_u 64 tsc ->
  exists cl, new_client garbage tsc (fresh_nodes nodes) = Done cl /\ duplex_ok nodes.*1 tsc 0 [] cl /\ ctxs cl = ∅.
Proof.
  intros Hnd Htsc. destruct (fresh_table 1000 garbage nodes) as (t & E & HR & Hn & _ & Hv); [lia|done|]. apply outcome_bind_Done in E as (u & Eu & E).
  unfold new_client. rewrite Eu, outcome_bind_ret, E, outcome_bind_ret. clear E Eu. eexists. split; [reflexivity|]. split; [|done]. split; cbn [m_in_queue m_client_seq_id ctxs m_req_queue].
  - exists nodes, 0. split; [|by rewrite app_nil_r]. split_and!; [done| |done]. intros k v Hk. rewrite Hv. by apply elem_of_list_to_map_1.
  - constructor.
  - constructor.
  - split; [lia|]. by rewrite Z.add_0_r, wrap_u_id.
  - intros d q. rewrite lookup_empty. split; [by intros ?%elem_of_nil|by intros (? & ? & _)].
  - by intros d ?%elem_of_nil.
Qed.
End duplex.

(** ** A client at work *)

Definition nodes2 : list (nat * int_key) := [(1%nat, IntKey 0); (2%nat, IntKey 0)].
Definition by_number : ReqCtx := Req [] 9 None 0.
Definition by_name : ReqCtx := Req [97; 98] 0 (Some [1]) 0.

(** A parser of responses of two bytes, the number of the call and the result. *)
Definition parse_pair (p : list Z) : option (Z * Z * list Z * list Z) :=
  match p with [q; r] => Some (q, r, [33], [q]) | _ => None end.

Lemma responses_matched_witness : exists cl0 cl1 cl2 cl3 cl4 : @RpcPbClientDuplex nat _ _,
  new_client (fun _ => None) 5 (fresh_nodes nodes2) = Done cl0 /\ call_begin 1%nat by_number cl0 = Done cl1 /\ call_begin 2%nat by_name cl1 = Done cl2 /\
  read_one parse_pair [6; 0] cl2 = Done (0, [Reply 1%nat 0 (Some [6]) None], cl3) /\
  proc_req_timeout 2%nat cl2 = Done (Reply 2%nat (-1) None None, cl4) /\
  read_one parse_pair [4; 0] cl2 = Done (-7, [], cl2).
Proof.
  destruct (new_client_ok (fun _ => None) 5 nodes2) as (cl0 & E0 & H0 & _); [apply (bool_decide_unpack (NoDup nodes2.*1)); vm_compute; exact I|unfold in_u; lia|].
  destruct (call_begin_ok nodes2.*1 5 0 [] cl0 1%nat by_number H0) as (cl1 & E1 & H1); [lia|left|apply not_elem_of_nil|].
  destruct (call_begin_ok nodes2.*1 5 1 _ cl1 2%nat by_name H1) as (cl2 & E2 & H2); [lia|right; left|by intros [[=]|[]%elem_of_nil]%elem_of_cons|].
  assert (Hd1 : 1%nat ∈ nodes2.*1) by (cbn; left). assert (Hd2 : 2%nat ∈ nodes2.*1) by (cbn; right; left).
  pose proof (dr_call parse_pair nodes2.*1 cl0 0 [] cl0 1%nat by_number cl1 (dr_start _ _ _) ltac:(lia) Hd1 (not_elem_of_nil _) E1) as R1.
  pose proof (dr_call parse_pair nodes2.*1 cl0 _ _ cl1 2%nat by_name cl2 R1 ltac:(lia) Hd2 ltac:(by intros [[=]|[]%elem_of_nil]%elem_of_cons) E2) as R2.
  rewrite (proj2 (dk_count _ _ _ _ _ H1)), (proj2 (dk_count _ _ _ _ _ H2)) in R2.
  destruct (responses_matched parse_pair nodes2.*1 5 cl0 _ _ cl2 H0 R2) as (_ & _ & Hr & Ht).
  destruct (Hr [6; 0] 6 0 [33] [6] eq_refl) as [(d & cl3 & Hin & E3 & _)|[Hno _]]; [|exfalso; apply Hno; right; left].
  assert (d = 1%nat) as -> by (apply elem_of_cons in Hin as [[= ? ?]|[[= ->]|[]%elem_of_nil]%elem_of_cons]; done).
  destruct (Ht 2%nat ltac:(left)) as (cl4 & E4 & _).
  destruct (Hr [4; 0] 4 0 [33] [4] eq_refl) as [(d & ? & Hin' & _)|[_ E5]]; [apply elem_of_cons in Hin' as [[= ? ?]|[[= ? ?]|[]%elem_of_nil]%elem_of_cons]; done|].
  exists cl0, cl1, cl2, cl3, cl4. exact (conj E0 (conj E1 (conj E2 (conj E3 (conj E4 E5))))).
Defined.

Definition busy_client : @RpcPbClientDuplex nat _ _ :=
  Duplex [1%nat; 2%nat] (fresh_nodes []) 7 2 (<[1%nat := Req [] 9 None 6]> (<[2%nat := Req [97; 98] 0 (Some [1]) 7]> ∅)).

Lemma requests_sent_witness : exists s' k', send_round writev_two new_sender busy_client [] = Done (true, s', set_queue [] 0 busy_client, k') /\
  k' = [0; 0; 0; 6; 8; 1; 24; 9; 32; 6; 0; 0; 0; 13; 8; 1; 18; 2; 97; 98; 24; 9; 32; 7; 42; 1; 1].
Proof.
  destruct (requests_sent (A := unit) (Msg := unit) (O := unit) writev_two id (0, []) new_sender [Req [] 9 None 6; Req [97; 98] 0 (Some [1]) 7] busy_client [] writev_two_writes new_sender_ok)
    as [(s' & k' & E & Hk & _) _].
  - by repeat constructor.
  - constructor; [|constructor; [|constructor]]; split; cbn; unfold in_u, short; try lia; try (by split; [|repeat constructor]). intros b [= <-]. split; [done|]. by repeat constructor.
  - reflexivity.
  - exists s', k'. split; [exact E|]. unfold id in Hk. rewrite Hk. vm_compute. reflexivity.
Defined.
