(* ===== verification/WebSocket.v ===== *)
(** * svrkit/src/http_server.cpp: web sockets

    A connection reads frames into one buffer: a state machine parses the head, the
    extended length and the masking key of a frame and waits for its payload, and
    do_proc_pkg hands a message to the callback.  Frames to send wait in a queue of
    strings, which do_write empties from its front.  Pointers into the buffer are
    offsets; the sockets, poll and the callbacks are parameters, and so is what other
    coroutines do to the sending side of the connection while poll waits. *)
From Stdlib Require Import String.
From S2P Require Import Prelude Words Memory Base64 Pbc RpcServer PacketStream.

Section ws.
Context {K : Type}.
Implicit Types (k : K) (mem : list Z).

(** ** Frames *)

(** The two bytes at the start of a frame: [code] is their payload_len, of 7 bits. *)
Record ws_packet_head_t := Head { opcode : Z; RSV : Z; FIN : Z; code : Z; MASK : Z }.
Implicit Types h : ws_packet_head_t.

Definition head_bytes h : list Z := [opcode h + 16 * RSV h + 128 * FIN h; code h + 128 * MASK h].
Definition head_of (b0 b1 : Z) : ws_packet_head_t := Head (b0 mod 16) (b0 / 16 mod 8) (b0 / 128) (b1 mod 128) (b1 / 128).
Definition set_opcode (o : Z) h : ws_packet_head_t := Head o (RSV h) (FIN h) (code h) (MASK h).

(** [data] and [payload_data] are offsets. *)
Record ws_packet_t := Packet {
  head : ws_packet_head_t; payload_len : Z; masking_key : Z; data : Z; len : Z; payload_data : Z }.
Implicit Types p : ws_packet_t.

Definition new_packet : ws_packet_t := Packet (Head 0 0 0 0 0) 0 0 0 0 0.
Definition set_head h p : ws_packet_t := Packet h (payload_len p) (masking_key p) (data p) (len p) (payload_data p).
Definition set_length (n : Z) p : ws_packet_t := Packet (head p) n (masking_key p) (data p) (len p) (payload_data p).
Definition set_key (m : Z) p : ws_packet_t := Packet (head p) (payload_len p) m (data p) (len p) (payload_data p).
Definition set_data (d : Z) p : ws_packet_t := Packet (head p) (payload_len p) (masking_key p) d (len p) (payload_data p).
Definition set_payload (n d : Z) p : ws_packet_t := Packet (head p) (payload_len p) (masking_key p) (data p) n d.

(** Words in network order. *)
Definition be_bytes (n : nat) (v : Z) : list Z := reverse (le_bytes n v).
Definition be_word (l : list Z) : Z := le_word (reverse l).

(** The loops that mask and unmask [n] bytes at [d]. *)
Definition key_byte (key : Z) (i : Z) : Z := nth (Z.to_nat (i mod 4)) (le_bytes 4 key) 0.
Fixpoint mask_loop (n : nat) (d key i : Z) mem : outcome (list Z) :=
  match n with
  | O => Done mem
  | S n => c ← load mem (d + i); mask_loop n d key (i + 1) (<[Z.to_nat (d + i) := Z.lxor c (key_byte key i)]> mem)
  end.

(** ** The sending side *)

Record sender := Sender { to_close : Z; send_queue : list (list Z); send_pos : Z; ref_cnt : Z }.
Implicit Types s : sender.

Definition set_close s : sender := Sender 1 (send_queue s) (send_pos s) (ref_cnt s).
Definition push (l : list Z) s : sender := Sender (to_close s) (send_queue s ++ [l]) (send_pos s) (ref_cnt s).
Definition set_sent (q : list (list Z)) (n : Z) s : sender := Sender (to_close s) q n (ref_cnt s).
Definition add_ref s : sender := Sender (to_close s) (send_queue s) (send_pos s) (ref_cnt s + 1).
Definition decr_ref s : sender := Sender (to_close s) (send_queue s) (send_pos s) (ref_cnt s - 1).

(** do_rsp(pkg); [mem] is the memory that payload_data points into.  o_len of a long
    payload is what htonl returns, widened to 64 bits. *)
Definition do_rsp mem p s : outcome (Z * sender) :=
  let n := payload_len p in
  let mask := masking_key p in
  let total_len := u64 (2 + n) in
  let total_len := if 0 <? mask then u64 (total_len + 4) else total_len in
  let total_len := if 0xFFFF <? n then u64 (total_len + 8) else if 125 <? n then u64 (total_len + 2) else total_len in
  out ← store_bytes (replicate (Z.to_nat total_len) 0) 0 (head_bytes (head p));
  r ← (if (125 <? n) && (n <=? 0xFFFF) then o ← store_bytes out 2 (be_bytes 2 (u16 n)); Done (o, 4)
       else if 0xFFFF <? n then o ← store_bytes out 2 (le_bytes 8 (le_word (be_bytes 4 (u32 n)))); Done (o, 10)
       else Done (out, 2));
  r ← (if 0 <? mask then o ← store_bytes r.1 r.2 (le_bytes 4 mask); Done (o, r.2 + 4) else Done r);
  l ← load_bytes mem (payload_data p) (Z.to_nat n);
  out ← store_bytes r.1 r.2 l; Done (0, push out s).

Definition length_code (n : Z) : Z := if n <=? 125 then n else if n <=? 0xFFFF then 126 else 127.

(** do_rsp_with_mask; [mem] starts at the argument data, which is masked in place. *)
Definition do_rsp_with_mask mem (n mask : Z) (is_text : bool) s : outcome (Z * list Z * sender) :=
  mem ← (if 0 <? mask then mask_loop (Z.to_nat n) 0 mask 0 mem else Done mem);
  let h := Head (if is_text then 1 else 2) 0 1 (length_code n) (if 0 <? mask then 1 else 0) in
  r ← do_rsp mem (Packet h n (if 0 <? mask then mask else 0) 0 0 0) s; Done (0, mem, r.2).

(** do_rsp_close; [data] is NULL, or the bytes up to the end of the string, and [n] is
    the argument len, which is widened to 64 bits. *)
Definition do_rsp_close (d : option (list Z)) (n : Z) s : outcome (Z * sender) :=
  let n := match d with None => 0 | Some l => if n =? -1 then i32 (Z.of_nat (length l)) else n end in
  let n := u64 n in
  do_rsp (default [] d) (Packet (Head 8 0 1 (length_code n) 0) n 0 0 0 0) s.

(** send, with its flags; errno. *)
Context (send : Z -> list Z -> K -> Z * K) (errno : K -> Z).

Definition EINTR : Z := 4.

Definition do_write s k : outcome (Z * sender * K) :=
  match send_queue s with
  | [] => Done (0, s, k)
  | d :: q =>
      if (send_pos s <? 0) || (Z.of_nat (length d) <? send_pos s) then Fault
      else
        let '(ret, k) := send MSG_DONTWAIT (drop (Z.to_nat (send_pos s)) d) k in
        if ret <? 0 then Done (if errno k =? EINTR then 0 else -1, s, k)
        else
          let pos := i32 (send_pos s + ret) in
          if i32 (Z.of_nat (length d)) <=? pos then Done (0, set_sent q 0 s, k) else Done (0, set_sent (d :: q) pos s, k)
  end.

(** ** The connection *)

Inductive ws_state := STOP | READ_PAYLOAD_LEN | PARSE_PAYLOAD_LEN | PARSE_MASKING | CALC_REST_SIZE | READ_DATA | PROC_MSG.

Record websocket_conn_t := Conn {
  out : sender; buffer : list Z; max_buf_len : Z; data_pos : Z; prev_data_pos : Z; req_package : ws_packet_t; state : ws_state }.
Implicit Types ws : websocket_conn_t.

(** The constructor, with the buffer that ws_main gives it. *)
Definition new_conn mem : websocket_conn_t := Conn (Sender 0 [] 0 1) mem (Z.of_nat (length mem)) 0 0 new_packet READ_PAYLOAD_LEN.

Definition set_out s ws : websocket_conn_t := Conn s (buffer ws) (max_buf_len ws) (data_pos ws) (prev_data_pos ws) (req_package ws) (state ws).
Definition set_buffer mem ws : websocket_conn_t := Conn (out ws) mem (max_buf_len ws) (data_pos ws) (prev_data_pos ws) (req_package ws) (state ws).
Definition set_pos (prev d : Z) ws : websocket_conn_t := Conn (out ws) (buffer ws) (max_buf_len ws) d prev (req_package ws) (state ws).
Definition set_req p ws : websocket_conn_t := Conn (out ws) (buffer ws) (max_buf_len ws) (data_pos ws) (prev_data_pos ws) p (state ws).
Definition set_state st ws : websocket_conn_t := Conn (out ws) (buffer ws) (max_buf_len ws) (data_pos ws) (prev_data_pos ws) (req_package ws) st.

(** cb.do_msg: it sees the packet and the buffer, and can use the sending side. *)
Context (do_msg : ws_packet_t -> list Z -> sender -> K -> Z * sender * K).

Definition do_pong ws : outcome (Z * websocket_conn_t) :=
  let p := set_head (set_opcode 0xA (head (req_package ws))) (req_package ws) in
  r ← do_rsp (buffer ws) p (out ws); Done (r.1, set_req p (set_out r.2 ws)).

Definition do_proc_pkg ws k : outcome (Z * websocket_conn_t * K) :=
  let p := req_package ws in
  if opcode (head p) =? 0x9 then r ← do_pong ws; Done (r, k)
  else if (opcode (head p) =? 0x0) || (FIN (head p) =? 0) then Done (0, set_out (set_close (out ws)) ws, k)
  else
    mem ← (if negb (MASK (head p) =? 0) then mask_loop (Z.to_nat (payload_len p)) (payload_data p) (masking_key p) 0 (buffer ws) else Done (buffer ws));
    let '(_, s, k) := do_msg p mem (out ws) k in Done (0, set_out s (set_buffer mem ws), k).

(** The blocks of the loop of do_read; the flag says that the block leaves the loop. *)
Definition read_payload_len ws : outcome (bool * websocket_conn_t) :=
  match state ws with
  | READ_PAYLOAD_LEN =>
      let ws := set_req (set_data (prev_data_pos ws) (req_package ws)) ws in
      if data_pos ws - prev_data_pos ws <? 2 then Done (true, ws)
      else
        b0 ← load (buffer ws) (prev_data_pos ws); b1 ← load (buffer ws) (prev_data_pos ws + 1);
        Done (false, set_state PARSE_PAYLOAD_LEN (set_pos (prev_data_pos ws + 2) (data_pos ws) (set_req (set_head (head_of b0 b1) (req_package ws)) ws)))
  | _ => Done (false, ws)
  end.

(** The extended length, of [n] bytes. *)
Definition parse_extended (n : nat) ws : outcome (bool * websocket_conn_t) :=
  if Z.of_nat n <=? data_pos ws - prev_data_pos ws then
    l ← load_bytes (buffer ws) (prev_data_pos ws) n;
    Done (false, set_state PARSE_MASKING (set_pos (prev_data_pos ws + Z.of_nat n) (data_pos ws) (set_req (set_length (be_word l) (req_package ws)) ws)))
  else Done (false, ws).

Definition parse_payload_len ws : outcome (bool * websocket_conn_t) :=
  match state ws with
  | PARSE_PAYLOAD_LEN =>
      let c := code (head (req_package ws)) in
      if c =? 126 then parse_extended 2 ws
      else if c =? 127 then parse_extended 8 ws
      else Done (false, set_state PARSE_MASKING (set_req (set_length c (req_package ws)) ws))
  | _ => Done (false, ws)
  end.

Definition parse_masking ws : outcome (bool * websocket_conn_t) :=
  match state ws with
  | PARSE_MASKING =>
      if negb (MASK (head (req_package ws)) =? 0) then
        if 4 <=? data_pos ws - prev_data_pos ws then
          l ← load_bytes (buffer ws) (prev_data_pos ws) 4;
          Done (false, set_state CALC_REST_SIZE (set_pos (prev_data_pos ws + 4) (data_pos ws) (set_req (set_key (le_word l) (req_package ws)) ws)))
        else Done (true, ws)
      else Done (false, set_state CALC_REST_SIZE ws)
  | _ => Done (false, ws)
  end.

Definition calc_rest_size ws : outcome (bool * websocket_conn_t) :=
  match state ws with
  | CALC_REST_SIZE =>
      if max_buf_len ws - data_pos ws <? i64 (payload_len (req_package ws)) then
        l ← load_bytes (buffer ws) (prev_data_pos ws) (Z.to_nat (data_pos ws - prev_data_pos ws));
        mem ← store_bytes (buffer ws) 0 l;
        Done (false, set_state READ_DATA (set_pos 0 (data_pos ws - prev_data_pos ws) (set_buffer mem ws)))
      else Done (false, set_state READ_DATA ws)
  | _ => Done (false, ws)
  end.

Definition read_payload ws : outcome (bool * websocket_conn_t) :=
  match state ws with
  | READ_DATA =>
      if data_pos ws - prev_data_pos ws <? i64 (payload_len (req_package ws)) then Done (true, ws) else Done (false, set_state PROC_MSG ws)
  | _ => Done (false, ws)
  end.

(** How a round of the loop ends. *)
Inductive round := Break (ws : websocket_conn_t) (k : K) | Next (ws : websocket_conn_t) (k : K) | Return (ret : Z) (ws : websocket_conn_t) (k : K).

Definition proc_msg ws k : outcome round :=
  match state ws with
  | PROC_MSG =>
      let p := req_package ws in
      let p := set_payload (u64 (prev_data_pos ws - data p + payload_len p)) (prev_data_pos ws) p in
      r ← do_proc_pkg (set_req p (set_state READ_PAYLOAD_LEN ws)) k;
      let '(ret, ws, k) := r in
      if ret <? 0 then Done (Return (-1) ws k)
      else Done (Next (set_pos (i64 (u64 (prev_data_pos ws + payload_len (req_package ws)))) (data_pos ws) ws) k)
  | _ => Done (Next ws k)
  end.

Definition andthen (b : websocket_conn_t -> outcome (bool * websocket_conn_t)) (c : websocket_conn_t -> K -> outcome round) ws k : outcome round :=
  b ws ≫= fun r : bool * websocket_conn_t => if r.1 then Done (Break r.2 k) else c r.2 k.

Definition pass_data : websocket_conn_t -> K -> outcome round := andthen read_payload proc_msg.
Definition pass_calc : websocket_conn_t -> K -> outcome round := andthen calc_rest_size pass_data.
Definition pass_mask : websocket_conn_t -> K -> outcome round := andthen parse_masking pass_calc.
Definition pass_len : websocket_conn_t -> K -> outcome round := andthen parse_payload_len pass_mask.
Definition pass : websocket_conn_t -> K -> outcome round := andthen read_payload_len pass_len.

Fixpoint read_loop (fuel : nat) ws k : outcome (Z * websocket_conn_t * K) :=
  match fuel with
  | O => NoFuel
  | S fuel =>
      r ← pass ws k;
      match r with
      | Break ws k => Done (1, ws, k)
      | Next ws k => read_loop fuel ws k
      | Return ret ws k => Done (ret, ws, k)
      end
  end.

Definition do_read (recv : Z -> Z -> K -> Z * list Z * K) (fuel : nat) ws k : outcome (Z * websocket_conn_t * K) :=
  if max_buf_len ws - data_pos ws <=? 0 then Done (-1, ws, k)
  else
    let '(ret, l, k) := recv MSG_DONTWAIT (max_buf_len ws - data_pos ws) k in
    if ret <? 0 then Done (if errno k =? EINTR then 1 else -1, ws, k)
    else if ret =? 0 then Done (0, ws, k)
    else
      mem ← store_bytes (buffer ws) (data_pos ws) l;
      read_loop fuel (set_pos (prev_data_pos ws) (data_pos ws + ret) (set_buffer mem ws)) k.

(** ** The life of a connection *)

(** poll of the one descriptor with the events and the time: the result, revents, and
    the sending side as the other coroutines leave it; to_stop of the server; what the
    callbacks do_new and do_close, which may be NULL, do. *)
Context (poll : Z -> Z -> sender -> K -> Z * Z * sender * K) (server_to_stop : K -> Z)
  (do_new : option (sender -> K -> Z * sender * K)) (do_close : option (sender -> K -> K)) (max_idle_time : Z)
  (recv : Z -> Z -> K -> Z * list Z * K).

Definition has (revents e : Z) : bool := negb (Z.land revents e =? 0).

(** A round of the loop of do_main; the numbers of [Go] are read_stop and idle_cnt. *)
Inductive main_round := Leave (ws : websocket_conn_t) (k : K) | Go (read_stop idle_cnt : Z) (ws : websocket_conn_t) (k : K).

(** The lines behind a poll that reported events. *)
Definition main_events (fuel : nat) (revents read_stop idle_cnt : Z) ws k : outcome main_round :=
  '(ret, read_stop, ws, k) ←
    (if has revents POLLIN then
       r ← do_read recv fuel ws k;
       let '(ret, ws, k) := r in
       Done (if ret =? 0 then (ret, 1, set_out (decr_ref (out ws)) ws, k) else (ret, read_stop, ws, k))
     else Done (0, read_stop, ws, k));
  if ret <? 0 then Done (Leave ws k)
  else
    let idle_cnt := if has revents POLLIN || has revents POLLOUT then 0 else idle_cnt in
    if has revents POLLOUT then
      r ← do_write (out ws) k;
      let '(ret, s, k) := r in
      Done (if ret <? 0 then Leave (set_out s ws) k else Go read_stop idle_cnt (set_out s ws) k)
    else Done (Go read_stop idle_cnt ws k).

Definition main_body (fuel : nat) (read_stop idle_cnt : Z) ws k : outcome main_round :=
  if negb (to_close (out ws) =? 0) && bool_decide (send_queue (out ws) = []) then Done (Leave (set_state STOP ws) k)
  else
    let reading := (read_stop =? 0) && (to_close (out ws) =? 0) in
    if negb reading && (ref_cnt (out ws) <=? 0) then Done (Leave ws k)
    else
      let events := Z.lor POLLERR POLLHUP in
      let events := if reading then Z.lor events POLLIN else events in
      let events := if bool_decide (send_queue (out ws) = []) then events else Z.lor events POLLOUT in
      let '(ret, revents, s, k) := poll events 10 (out ws) k in
      let ws := set_out s ws in
      if ret <? 0 then Done (Leave ws k)
      else if 0 <? ret then main_events fuel revents read_stop idle_cnt ws k
      else
        let idle_cnt := idle_cnt + 1 in
        if bool_decide (in_s 32 (idle_cnt * 10)) && bool_decide (in_s 32 (max_idle_time * 1000))
        then Done (if max_idle_time * 1000 <=? idle_cnt * 10 then Leave ws k else Go read_stop idle_cnt ws k) else Fault.

(** The loop; [n] bounds its rounds and [fuel] those of do_read. *)
Fixpoint main_loop (n fuel : nat) (read_stop idle_cnt : Z) ws k : outcome (websocket_conn_t * K) :=
  if negb (server_to_stop k =? 0) then Done (ws, k)
  else
    match n with
    | O => NoFuel
    | S n =>
        r ← main_body fuel read_stop idle_cnt ws k;
        match r with Leave ws k => Done (ws, k) | Go read_stop idle_cnt ws k => main_loop n fuel read_stop idle_cnt ws k end
    end.

Definition do_main (n fuel : nat) ws k : outcome (Z * websocket_conn_t * K) :=
  let '(ret, s, k) := match do_new with Some f => f (out ws) k | None => (0, out ws, k) end in
  if negb (ret =? 0) then Done (0, set_out s ws, k)
  else
    r ← main_loop n fuel 0 0 (set_out s ws) k;
    Done (0, r.1, match do_close with Some f => f (out r.1) r.2 | None => r.2 end).

(** SHA1, of OpenSSL; sec_websocket_key of the request. *)
Context (sha1 : list Z -> list Z) (sec_websocket_key : list Z).

Definition g_ws_magic_num : list Z := text "258EAFA5-E914-47DA-95CA-C5AB0DC85B11".
Definition crlf : list Z := [13; 10].
Definition handshake_rsp_1 : list Z :=
  text "HTTP/1.1 101 Switching Protocols" ++ crlf ++ text "Upgrade: websocket" ++ crlf ++ text "Connection: Upgrade" ++ crlf ++ text "Sec-WebSocket-Accept: ".

(** accept_key lies at 0 and server_key_txt at 32. *)
Definition server_key : outcome (list Z) :=
  let accept_key := sha1 (sec_websocket_key ++ g_ws_magic_num) in
  r ← base64_encode 0 20 32 (fun q => nth (Z.to_nat q) accept_key 0);
  Done ((fun i => r.2 (32 + Z.of_nat i)) <$> seq 0 28).

Definition do_handshake (n fuel : nat) ws k : outcome (Z * websocket_conn_t * K) :=
  key ← server_key;
  let rsp_txt := handshake_rsp_1 ++ key ++ crlf ++ crlf in
  let '(ret, k) := send 0 rsp_txt k in
  if ret <? Z.of_nat (length rsp_txt) then Done (-2, ws, k)
  else r ← do_main n fuel ws k; Done (0, r.1.2, r.2).
End ws.

(** ** Buffers in pieces *)
Section memory.
Implicit Types (pre l post mem : list Z).

Lemma load_at pre c post : load (pre ++ c :: post) (Z.of_nat (length pre)) = Done c.
Proof. unfold load. rewrite (proj2 (Z.ltb_ge _ 0)) by lia. by rewrite Nat2Z.id, list_lookup_middle. Qed.

Lemma load_piece pre l post : load_bytes (pre ++ l ++ post) (Z.of_nat (length pre)) (length l) = Done l.
Proof. apply load_bytes_reads; [lia|]. by rewrite Nat2Z.id, drop_app_length, take_app_length. Qed.

Lemma load_outside mem d : Z.of_nat (length mem) <= d -> load mem d = Fault.
Proof. intros Hd. unfold load. rewrite (proj2 (Z.ltb_ge d 0)) by lia. by rewrite lookup_ge_None_2 by lia. Qed.

Lemma store_piece pre x l post : length l = length x -> store_bytes (pre ++ x ++ post) (Z.of_nat (length pre)) l = Done (pre ++ l ++ post).
Proof.
  intros Hl. unfold store_bytes. rewrite !length_app, (proj2 (Z.leb_le 0 _)), (proj2 (Z.leb_le _ _)) by lia. cbn [andb].
  rewrite Nat2Z.id, take_app_length, Hl, <-drop_drop, drop_app_length. by rewrite drop_app_length.
Qed.

(** One store after the other, through a buffer that starts as zeros. *)
Lemma store_next done_ (n : nat) l c : (length l <= n)%nat -> c = Z.of_nat (length done_) ->
  store_bytes (done_ ++ replicate n 0) c l = Done ((done_ ++ l) ++ replicate (n - length l) 0).
Proof.
  intros Hn ->. replace (replicate n 0) with (replicate (length l) 0 ++ replicate (n - length l) 0) by (rewrite <-replicate_add; f_equal; lia).
  rewrite store_piece by (by rewrite length_replicate). by rewrite app_assoc.
Qed.

(** *** Masks *)

Definition xor_key (key : Z) l : list Z := imap (fun i c => Z.lxor c (key_byte key (Z.of_nat i))) l.

Definition xor_from (key : Z) (i : nat) l : list Z := imap (fun j c => Z.lxor c (key_byte key (Z.of_nat (i + j)))) l.

Lemma xor_key_length key l : length (xor_key key l) = length l.
Proof. apply length_imap. Qed.

Lemma mask_loop_from key l : forall pre i post (p0 : list Z), length pre = (length p0 + i)%nat ->
  mask_loop (length l) (Z.of_nat (length p0)) key (Z.of_nat i) (pre ++ l ++ post) = Done (pre ++ xor_from key i l ++ post).
Proof.
  induction l as [|c l IH]; intros pre i post p0 Hp; [done|]. cbn [length mask_loop]. rewrite <-Nat2Z.inj_add, <-Hp. cbn [app].
  rewrite load_at, outcome_bind_ret, Nat2Z.id, insert_app_r_alt, Nat.sub_diag by done. cbn [list_insert insert].
  rewrite (app_cons_snoc pre). replace (Z.of_nat i + 1) with (Z.of_nat (S i)) by lia. rewrite IH by (rewrite length_app; cbn; lia).
  f_equal. rewrite <-app_assoc. f_equal. unfold xor_from. cbn [imap]. rewrite Nat.add_0_r. cbn [app]. f_equal. f_equal. apply imap_ext. intros j x _. cbn. by rewrite Nat.add_succ_r.
Qed.

Lemma mask_loop_ok key pre l post : mask_loop (length l) (Z.of_nat (length pre)) key 0 (pre ++ l ++ post) = Done (pre ++ xor_key key l ++ post).
Proof. apply (mask_loop_from key l pre 0 post pre). lia. Qed.

(** A loop that is longer than the memory runs out of it. *)
Lemma mask_loop_outside n d key i mem :
  0 <= d + i <= Z.of_nat (length mem) -> Z.of_nat (length mem) < d + i + Z.of_nat n -> mask_loop n d key i mem = Fault.
Proof.
  revert i mem. induction n as [|n IH]; intros i mem Hi Hn; [lia|]. cbn [mask_loop].
  destruct (decide (d + i = Z.of_nat (length mem))) as [->|Hne]; [by rewrite load_outside|].
  unfold load. rewrite (proj2 (Z.ltb_ge _ 0)) by lia. destruct (lookup_lt_is_Some_2 mem (Z.to_nat (d + i)) ltac:(lia)) as [c ->].
  cbn [of_option]. rewrite outcome_bind_ret. apply IH; rewrite length_insert; lia.
Qed.
End memory.

(** ** Responses *)
Section responses.
Implicit Types (mem l : list Z).

(** The extended length that do_rsp writes, and the key. *)
Definition rsp_length (n : Z) : list Z :=
  if (125 <? n) && (n <=? 0xFFFF) then be_bytes 2 (u16 n) else if 0xFFFF <? n then le_bytes 8 (le_word (be_bytes 4 (u32 n))) else [].
Definition rsp_key (mask : Z) : list Z := if 0 <? mask then le_bytes 4 mask else [].
Definition rsp_bytes (h : ws_packet_head_t) (mask : Z) l : list Z :=
  head_bytes h ++ rsp_length (Z.of_nat (length l)) ++ rsp_key mask ++ l.

Lemma be_bytes_length n v : length (be_bytes n v) = n.
Proof. unfold be_bytes. by rewrite length_reverse, le_bytes_length. Qed.

Lemma be_word_bytes n x : 0 <= x < 2 ^ (8 * Z.of_nat n) -> be_word (be_bytes n x) = x.
Proof. intros Hx. unfold be_word, be_bytes. rewrite reverse_involutive. by apply le_word_bytes. Qed.

Lemma le_bytes_range n x : Forall (fun b => 0 <= b < 256) (le_bytes n x).
Proof. revert x. induction n as [|n IH]; intros x; [constructor|]. cbn [le_bytes]. constructor; [|apply IH]. change 0xff with (Z.ones 8). rewrite Z.land_ones by lia. apply Z.mod_pos_bound. lia. Qed.

Lemma le_bytes_of_word n l x : length l = n -> Forall (fun b => 0 <= b < 256) l -> x = le_word l -> le_bytes n x = l.
Proof.
  revert l x. induction n as [|n IH]; intros [|b l] x; try done. intros [= Hn] [Hb Hl]%Forall_cons ->. cbn [le_bytes le_word].
  change 0xff with (Z.ones 8). rewrite Z.land_ones, Z.shiftr_div_pow2 by lia. change (2 ^ 8) with 256. f_equal.
  - symmetry. apply (Z.mod_unique _ _ (le_word l)); lia.
  - apply IH; [done..|]. symmetry. apply (Z.div_unique _ _ _ b); lia.
Qed.

Lemma rsp_length_length n : length (rsp_length n) = if 0xFFFF <? n then 8%nat else if 125 <? n then 2%nat else 0%nat.
Proof.
  unfold rsp_length. destruct (Z.ltb_spec 125 n), (Z.leb_spec n 0xFFFF), (Z.ltb_spec 0xFFFF n); try lia; cbn [andb];
    by rewrite ?be_bytes_length, ?le_bytes_length.
Qed.

Lemma rsp_key_length mask : length (rsp_key mask) = if 0 <? mask then 4%nat else 0%nat.
Proof. unfold rsp_key. destruct (0 <? mask); [apply le_bytes_length|done]. Qed.

Lemma do_rsp_ok mem p s l :
  load_bytes mem (payload_data p) (length l) = Done l -> payload_len p = Z.of_nat (length l) -> Z.of_nat (length l) < 2 ^ 63 ->
  do_rsp mem p s = Done (0, push (rsp_bytes (head p) (masking_key p) l) s).
Proof.
  intros Hl Hn Hs. unfold do_rsp. rewrite Hn, Nat2Z.id. set (n := Z.of_nat (length l)) in *.
  assert (HT : exists T, Z.to_nat (let t := u64 (2 + n) in let t := if 0 <? masking_key p then u64 (t + 4) else t in
      if 0xFFFF <? n then u64 (t + 8) else if 125 <? n then u64 (t + 2) else t) = T /\
      (T = 2 + (length (rsp_length n) + (length (rsp_key (masking_key p)) + length l)))%nat).
  { eexists. split; [reflexivity|]. cbn zeta. rewrite rsp_length_length, rsp_key_length.
    rewrite (wrap_u_id 64 (2 + n)) by (unfold in_u; lia).
    destruct (0 <? masking_key p); destruct (Z.ltb_spec 0xFFFF n); try destruct (Z.ltb_spec 125 n); rewrite ?wrap_u_id by (rewrite ?wrap_u_id; unfold in_u; lia); lia. }
  destruct HT as (T & ET & HT). cbn zeta in ET. rewrite ET. clear ET.
  change (replicate T 0) with ([] ++ replicate T 0). rewrite store_next by (cbn; lia). rewrite outcome_bind_ret.
  change ([] ++ head_bytes (head p)) with (head_bytes (head p)). change (length (head_bytes (head p))) with 2%nat.
  unfold rsp_bytes. fold n. set (hb := head_bytes (head p)). assert (Hhb : length hb = 2%nat) by done. clearbody hb.
  assert (E1 : (if (125 <? n) && (n <=? 65535) then o ← store_bytes (hb ++ replicate (T - 2) 0) 2 (be_bytes 2 (u16 n)); Done (o, 4)
     else if 65535 <? n then o ← store_bytes (hb ++ replicate (T - 2) 0) 2 (le_bytes 8 (le_word (be_bytes 4 (u32 n)))); Done (o, 10)
     else Done (hb ++ replicate (T - 2) 0, 2)) =
     Done ((hb ++ rsp_length n) ++ replicate (T - 2 - length (rsp_length n)) 0, 2 + Z.of_nat (length (rsp_length n)))).
  { unfold rsp_length in *. destruct ((125 <? n) && (n <=? 65535)).
    - rewrite store_next by (rewrite ?Hhb; lia). by rewrite outcome_bind_ret, be_bytes_length.
    - destruct (65535 <? n); [|by rewrite app_nil_r, Nat.sub_0_r].
      rewrite store_next by (rewrite ?Hhb; lia). by rewrite outcome_bind_ret, le_bytes_length. }
  rewrite E1, outcome_bind_ret. cbn [fst snd].
  assert (E2 : (if 0 <? masking_key p then o ← store_bytes ((hb ++ rsp_length n) ++ replicate (T - 2 - length (rsp_length n)) 0) (2 + Z.of_nat (length (rsp_length n))) (le_bytes 4 (masking_key p));
         Done (o, 2 + Z.of_nat (length (rsp_length n)) + 4) else Done ((hb ++ rsp_length n) ++ replicate (T - 2 - length (rsp_length n)) 0, 2 + Z.of_nat (length (rsp_length n)))) =
     Done (((hb ++ rsp_length n) ++ rsp_key (masking_key p)) ++ replicate (length l) 0, 2 + Z.of_nat (length (rsp_length n)) + Z.of_nat (length (rsp_key (masking_key p))))).
  { unfold rsp_key in *. destruct (0 <? masking_key p).
    - rewrite le_bytes_length in HT. rewrite store_next by (rewrite ?length_app, ?le_bytes_length, ?Hhb; lia). rewrite outcome_bind_ret, le_bytes_length.
      by replace (T - 2 - length (rsp_length n) - 4)%nat with (length l) by lia.
    - cbn [length] in *. rewrite app_nil_r. replace (T - 2 - length (rsp_length n))%nat with (length l) by lia. do 2 f_equal. lia. }
  rewrite E2, outcome_bind_ret. cbn [fst snd]. rewrite Hl, outcome_bind_ret.
  rewrite store_next by (rewrite ?length_app, ?Hhb; lia). rewrite outcome_bind_ret, Nat.sub_diag. cbn [replicate]. rewrite app_nil_r.
  by rewrite <-!app_assoc.
Qed.
End responses.

(** ** Frames on the stream *)
Section frames.
Context {K : Type} (errno : K -> Z) (do_msg : ws_packet_t -> list Z -> sender -> K -> Z * sender * K)
  (on_msg : ws_packet_head_t -> list Z -> sender -> K -> Z * sender * K).
Implicit Types (k : K) (s : sender) (ws : websocket_conn_t) (h : ws_packet_head_t) (v w x l c : list Z) (n key M : Z).

(** A frame of the peer: [f_payload] are the bytes on the wire, and the key counts
    when MASK is set. *)
Record frame := Frame { f_head : ws_packet_head_t; f_key : Z; f_payload : list Z }.
Implicit Types (f : frame) (fs : list frame).

Definition ext_len h : nat := if code h =? 126 then 2 else if code h =? 127 then 8 else 0.
Definition f_length f : Z := Z.of_nat (length (f_payload f)).
Definition f_ext f : list Z := be_bytes (ext_len (f_head f)) (f_length f).
Definition f_rest f : list Z := (if negb (MASK (f_head f) =? 0) then le_bytes 4 (f_key f) else []) ++ f_payload f.
Definition encode_frame f : list Z := head_bytes (f_head f) ++ f_ext f ++ f_rest f.
Definition stream fs : list Z := fs ≫= encode_frame.

Record head_ok h : Prop := HeadOk { ok_opcode : 0 <= opcode h < 16; ok_RSV : 0 <= RSV h < 8; ok_FIN : 0 <= FIN h < 2; ok_code : 0 <= code h < 128; ok_MASK : 0 <= MASK h < 2 }.
Record frame_ok f : Prop := FrameOk {
  ok_head : head_ok (f_head f); ok_key : in_u 32 (f_key f);
  ok_length : f_length f < if code (f_head f) =? 126 then 2 ^ 16 else 2 ^ 63;
  ok_short : code (f_head f) < 126 -> f_length f = code (f_head f) }.

(** What a frame means to the connection: the key that was seen last, the sending
    side, and the state of the callback. *)
Definition next_key key f : Z := if negb (MASK (f_head f) =? 0) then f_key f else key.
Definition message f : list Z := if negb (MASK (f_head f) =? 0) then xor_key (f_key f) (f_payload f) else f_payload f.
Definition handle (a : Z * sender * K) f : Z * sender * K :=
  let '(key, s, k) := a in
  let h := f_head f in
  if opcode h =? 9 then (next_key key f, push (rsp_bytes (set_opcode 0xA h) (next_key key f) (f_payload f)) s, k)
  else if (opcode h =? 0) || (FIN h =? 0) then (next_key key f, set_close s, k)
  else let '(_, s, k) := on_msg h (message f) s k in (next_key key f, s, k).

(** The callback looks at the head and at the payload. *)
Definition msg_only : Prop := forall p (mem : list Z) m s k,
  load_bytes mem (payload_data p) (length m) = Done m -> payload_len p = Z.of_nat (length m) -> do_msg p mem s k = on_msg (head p) m s k.

Lemma head_of_bytes h : head_ok h -> head_of (opcode h + 16 * RSV h + 128 * FIN h) (code h + 128 * MASK h) = h.
Proof.
  intros [H1 H2 H3 H4 H5]. destruct h as [o r fi c m]. cbn in *. unfold head_of.
  assert ((o + 16 * r + 128 * fi) / 16 = r + 8 * fi) as -> by (symmetry; apply (Z.div_unique _ _ _ o); lia).
  f_equal; symmetry.
  - apply (Z.mod_unique _ _ (r + 8 * fi)); lia.
  - apply (Z.mod_unique _ _ fi); lia.
  - apply (Z.div_unique _ _ _ (o + 16 * r)); lia.
  - apply (Z.mod_unique _ _ m); lia.
  - apply (Z.div_unique _ _ _ c); lia.
Qed.

Lemma stream_cons f fs : stream (f :: fs) = encode_frame f ++ stream fs.
Proof. done. Qed.

(** *** The connection between two blocks *)

(** The buffer has the unparsed bytes [v], [M] bytes in all. *)
Record holds ws v M : Prop := Holds {
  hold_buf : exists pre post, buffer ws = pre ++ v ++ post /\ prev_data_pos ws = Z.of_nat (length pre);
  hold_pos : data_pos ws = prev_data_pos ws + Z.of_nat (length v);
  hold_max : max_buf_len ws = M; hold_len : Z.of_nat (length (buffer ws)) = M }.

Record is_at ws (st : ws_state) s h n key v M : Prop := IsAt {
  at_state : state ws = st; at_out : out ws = s; at_head : head (req_package ws) = h;
  at_len : payload_len (req_package ws) = n; at_key : masking_key (req_package ws) = key; at_holds : holds ws v M }.

Lemma holds_room ws v M : holds ws v M -> 0 <= prev_data_pos ws /\ data_pos ws <= M.
Proof. intros [(pre & post & Hb & Hp) Hd _ Hl]. rewrite Hb, !length_app in Hl. lia. Qed.

Lemma holds_ext ws ws' v M :
  buffer ws' = buffer ws -> prev_data_pos ws' = prev_data_pos ws -> data_pos ws' = data_pos ws -> max_buf_len ws' = max_buf_len ws ->
  holds ws v M -> holds ws' v M.
Proof. intros Hb Hp Hd Hm [H1 H2 H3 H4]. split; rewrite ?Hb, ?Hp, ?Hd, ?Hm; done. Qed.

(** Bytes are taken off the front. *)
Lemma holds_parsed ws ws' l v M :
  buffer ws' = buffer ws -> prev_data_pos ws' = prev_data_pos ws + Z.of_nat (length l) -> data_pos ws' = data_pos ws -> max_buf_len ws' = max_buf_len ws ->
  holds ws (l ++ v) M -> holds ws' v M.
Proof.
  intros Hb Hp Hd Hm [(pre & post & H1 & H2) H3 H4 H5]. rewrite length_app in H3. split; [|rewrite Hd; lia|by rewrite Hm|by rewrite Hb].
  exists (pre ++ l), post. rewrite Hb, Hp, H1, H2, length_app, <-!app_assoc. split; [done|lia].
Qed.

Lemma holds_load ws l v M : holds ws (l ++ v) M -> load_bytes (buffer ws) (prev_data_pos ws) (length l) = Done l.
Proof. intros [(pre & post & -> & ->) _ _ _]. rewrite <-app_assoc. apply load_piece. Qed.

Lemma holds_enough ws l v M : holds ws (l ++ v) M -> Z.of_nat (length l) <= data_pos ws - prev_data_pos ws.
Proof. intros [_ H _ _]. rewrite length_app in H. lia. Qed.
(** The blocks, one at a time. *)
Ltac at_goal H := destruct H; split; cbn; first [done | eapply holds_ext; [..|eassumption]; done | idtac].

Lemma skip_head ws : state ws <> READ_PAYLOAD_LEN -> read_payload_len ws = Done (false, ws).
Proof. unfold read_payload_len. by destruct (state ws). Qed.

Lemma skip_len ws : state ws <> PARSE_PAYLOAD_LEN -> parse_payload_len ws = Done (false, ws).
Proof. unfold parse_payload_len. by destruct (state ws). Qed.

Lemma skip_mask ws : state ws <> PARSE_MASKING -> parse_masking ws = Done (false, ws).
Proof. unfold parse_masking. by destruct (state ws). Qed.

Lemma skip_calc ws : state ws <> CALC_REST_SIZE -> calc_rest_size ws = Done (false, ws).
Proof. unfold calc_rest_size. by destruct (state ws). Qed.

Lemma read_head_waits ws s h n key v M : is_at ws READ_PAYLOAD_LEN s h n key v M -> (length v < 2)%nat ->
  exists ws', read_payload_len ws = Done (true, ws') /\ is_at ws' READ_PAYLOAD_LEN s h n key v M.
Proof.
  intros H Hv. unfold read_payload_len. rewrite (at_state _ _ _ _ _ _ _ _ H). cbn [data_pos prev_data_pos set_req].
  pose proof (hold_pos _ _ _ (at_holds _ _ _ _ _ _ _ _ H)). rewrite (proj2 (Z.ltb_lt _ _)) by lia. eexists. split; [reflexivity|]. at_goal H.
Qed.

Lemma read_head_ok ws s h h' n key v M : is_at ws READ_PAYLOAD_LEN s h n key (head_bytes h' ++ v) M -> head_ok h' ->
  exists ws', read_payload_len ws = Done (false, ws') /\ is_at ws' PARSE_PAYLOAD_LEN s h' n key v M.
Proof.
  intros H Hh. unfold read_payload_len. rewrite (at_state _ _ _ _ _ _ _ _ H). cbn [data_pos prev_data_pos set_req buffer].
  pose proof (at_holds _ _ _ _ _ _ _ _ H) as Hv. pose proof (holds_enough _ _ _ _ Hv) as He. cbn [length head_bytes] in He.
  rewrite (proj2 (Z.ltb_ge _ _)) by lia. pose proof (hold_buf _ _ _ Hv) as (pre & post & Hb & Hp). rewrite Hb, Hp. cbn [head_bytes app].
  rewrite load_at, outcome_bind_ret. replace (Z.of_nat (length pre) + 1) with (Z.of_nat (length (pre ++ [opcode h' + 16 * RSV h' + 128 * FIN h']))) by (rewrite length_app; cbn; lia).
  rewrite app_cons_snoc, load_at, outcome_bind_ret, head_of_bytes by done. eexists. split; [reflexivity|]. at_goal H.
  eapply (holds_parsed ws _ (head_bytes h')); [..|exact Hv]; cbn; lia || done.
Qed.

Lemma parse_ext_ok ws s h n key l v M : is_at ws PARSE_PAYLOAD_LEN s h n key (l ++ v) M ->
  exists ws', parse_extended (length l) ws = Done (false, ws') /\ is_at ws' PARSE_MASKING s h (be_word l) key v M.
Proof.
  intros H. pose proof (at_holds _ _ _ _ _ _ _ _ H) as Hv. unfold parse_extended. rewrite (proj2 (Z.leb_le _ _)) by apply (holds_enough _ _ _ _ Hv).
  rewrite (holds_load _ _ _ _ Hv), outcome_bind_ret. eexists. split; [reflexivity|]. at_goal H. eapply holds_parsed; [..|exact Hv]; done.
Qed.

Lemma parse_len_ok ws s f n key v M : frame_ok f -> is_at ws PARSE_PAYLOAD_LEN s (f_head f) n key (f_ext f ++ v) M ->
  exists ws', parse_payload_len ws = Done (false, ws') /\ is_at ws' PARSE_MASKING s (f_head f) (f_length f) key v M.
Proof.
  intros Hf H. unfold parse_payload_len. rewrite (at_state _ _ _ _ _ _ _ _ H), (at_head _ _ _ _ _ _ _ _ H).
  unfold f_ext, ext_len in H. pose proof (ok_length _ Hf) as Hlen. pose proof (ok_short _ Hf) as Hshort.
  assert (0 <= f_length f) by apply Nat2Z.is_nonneg.
  destruct (Z.eqb_spec (code (f_head f)) 126) as [Hc|Hc].
  { pose proof (parse_ext_ok _ _ _ _ _ _ _ _ H) as Hp. rewrite be_bytes_length, be_word_bytes in Hp by lia. exact Hp. }
  destruct (Z.eqb_spec (code (f_head f)) 127) as [Hc'|Hc'].
  { pose proof (parse_ext_ok _ _ _ _ _ _ _ _ H) as Hp. rewrite be_bytes_length, be_word_bytes in Hp by lia. exact Hp. }
  pose proof (ok_code _ (ok_head _ Hf)). rewrite Hshort by lia. eexists. split; [reflexivity|]. at_goal H.
Qed.

(** An extended length that is not there: nothing changes. *)
Lemma parse_len_short ws s h n key v M : is_at ws PARSE_PAYLOAD_LEN s h n key v M -> (length v < ext_len h)%nat -> parse_payload_len ws = Done (false, ws).
Proof.
  intros H Hv. unfold parse_payload_len. rewrite (at_state _ _ _ _ _ _ _ _ H), (at_head _ _ _ _ _ _ _ _ H). unfold ext_len in Hv.
  pose proof (hold_pos _ _ _ (at_holds _ _ _ _ _ _ _ _ H)). unfold parse_extended.
  destruct (code h =? 126); [by rewrite (proj2 (Z.leb_gt _ _)) by lia|]. destruct (code h =? 127); [by rewrite (proj2 (Z.leb_gt _ _)) by lia|lia].
Qed.

Definition key_bytes f : list Z := if negb (MASK (f_head f) =? 0) then le_bytes 4 (f_key f) else [].

Lemma parse_mask_ok ws s f n key v M : frame_ok f -> is_at ws PARSE_MASKING s (f_head f) n key (key_bytes f ++ v) M ->
  exists ws', parse_masking ws = Done (false, ws') /\ is_at ws' CALC_REST_SIZE s (f_head f) n (next_key key f) v M.
Proof.
  intros Hf H. unfold parse_masking, next_key. rewrite (at_state _ _ _ _ _ _ _ _ H), (at_head _ _ _ _ _ _ _ _ H). unfold key_bytes in H.
  pose proof (at_holds _ _ _ _ _ _ _ _ H) as Hv. destruct (negb (MASK (f_head f) =? 0)).
  - pose proof (holds_load _ _ _ _ Hv) as Hl. pose proof (holds_enough _ _ _ _ Hv) as He. rewrite le_bytes_length in Hl, He.
    rewrite (proj2 (Z.leb_le _ _)) by lia. rewrite Hl, outcome_bind_ret, le_word_bytes by apply (ok_key _ Hf). eexists. split; [reflexivity|]. at_goal H.
    eapply holds_parsed; [..|exact Hv]; done.
  - eexists. split; [reflexivity|]. at_goal H.
Qed.

Lemma parse_mask_waits ws s f n key v M : is_at ws PARSE_MASKING s (f_head f) n key v M -> (length v < length (key_bytes f))%nat -> parse_masking ws = Done (true, ws).
Proof.
  intros H Hv. unfold parse_masking. rewrite (at_state _ _ _ _ _ _ _ _ H), (at_head _ _ _ _ _ _ _ _ H). unfold key_bytes in Hv.
  pose proof (hold_pos _ _ _ (at_holds _ _ _ _ _ _ _ _ H)). destruct (negb (MASK (f_head f) =? 0)); [|cbn in Hv; lia].
  rewrite le_bytes_length in Hv. by rewrite (proj2 (Z.leb_gt _ _)) by lia.
Qed.

Lemma i64_id n : 0 <= n < 2 ^ 63 -> i64 n = n.
Proof. intros Hn. apply wrap_s_id; [lia|]. unfold in_s. lia. Qed.

(** There is room for the payload, or the unparsed bytes move to the front. *)
Lemma calc_ok ws s h n key v M : is_at ws CALC_REST_SIZE s h n key v M -> 0 <= n < 2 ^ 63 ->
  exists ws', calc_rest_size ws = Done (false, ws') /\ is_at ws' READ_DATA s h n key v M /\ (n <= M -> prev_data_pos ws' + n <= M).
Proof.
  intros H Hn. pose proof (at_holds _ _ _ _ _ _ _ _ H) as Hv. pose proof (holds_room _ _ _ Hv) as [H0 HM].
  unfold calc_rest_size. rewrite (at_state _ _ _ _ _ _ _ _ H), (at_len _ _ _ _ _ _ _ _ H), i64_id by done.
  destruct Hv as [(pre & post & Hb & Hp) Hd Hm Hl]. rewrite Hm. destruct (Z.ltb_spec (M - data_pos ws) n) as [Hmove|Hroom].
  - replace (Z.to_nat (data_pos ws - prev_data_pos ws)) with (length v) by lia. rewrite Hb, Hp, load_piece, outcome_bind_ret.
    rewrite (store_front v _ (length v)) by (rewrite ?length_app; lia). rewrite outcome_bind_ret.
    eexists. split; [reflexivity|]. split; [|cbn; lia]. destruct H. split; cbn; try done. split; cbn; [|lia|done|].
    + exists [], (drop (length v) (pre ++ v ++ post)). by split.
    + rewrite <-Hl, Hb, !length_app, length_drop, !length_app. lia.
  - eexists. split; [reflexivity|]. split; [at_goal H|cbn; lia].
Qed.

Lemma read_payload_ok ws s h n key v M : is_at ws READ_DATA s h n key v M -> 0 <= n < 2 ^ 63 ->
  exists ws', read_payload ws = Done (Z.of_nat (length v) <? n, ws') /\
    if Z.of_nat (length v) <? n then ws' = ws else is_at ws' PROC_MSG s h n key v M.
Proof.
  intros H Hn. unfold read_payload. rewrite (at_state _ _ _ _ _ _ _ _ H), (at_len _ _ _ _ _ _ _ _ H), i64_id by done.
  pose proof (hold_pos _ _ _ (at_holds _ _ _ _ _ _ _ _ H)) as Hd. replace (data_pos ws - prev_data_pos ws) with (Z.of_nat (length v)) by lia.
  destruct (Z.of_nat (length v) <? n); eexists; (split; [reflexivity|]); [done|]. at_goal H.
Qed.
(** A complete payload is dealt with as [handle] says. *)
Lemma proc_msg_ok (look : msg_only) ws s f key0 key s' k k' v M :
  frame_ok f -> is_at ws PROC_MSG s (f_head f) (f_length f) (next_key key0 f) (f_payload f ++ v) M -> M < 2 ^ 62 ->
  handle (key0, s, k) f = (key, s', k') ->
  exists ws' h n, proc_msg do_msg ws k = Done (Next ws' k') /\ is_at ws' READ_PAYLOAD_LEN s' h n key v M.
Proof.
  intros Hf H HM Hh. unfold proc_msg. rewrite (at_state _ _ _ _ _ _ _ _ H). cbn zeta. unfold do_proc_pkg.
  pose proof (at_holds _ _ _ _ _ _ _ _ H) as Hv. pose proof (holds_room _ _ _ Hv) as [H0 Hd]. pose proof (holds_load _ _ _ _ Hv) as Hl. pose proof (holds_enough _ _ _ _ Hv) as He.
  destruct H as [_ Hs Hhead Hlen Hkey _]. cbn [req_package set_req head set_payload set_state out buffer payload_len masking_key payload_data].
  rewrite Hhead, Hlen, Hkey, Hs. unfold handle in Hh.
  assert (Hend : i64 (u64 (prev_data_pos ws + f_length f)) = prev_data_pos ws + Z.of_nat (length (f_payload f))).
  { unfold f_length. rewrite wrap_u_id by (unfold in_u; lia). apply i64_id. lia. }
  destruct (opcode (f_head f) =? 9).
  { unfold do_pong. cbn [req_package set_req head set_payload set_state out buffer].
    rewrite (do_rsp_ok _ _ _ (f_payload f)); [|done|done|cbn; unfold f_length in *; lia]. injection Hh as <- <- <-.
    rewrite !outcome_bind_ret. cbn. rewrite ?outcome_bind_ret. cbn. eexists _, _, _. split; [reflexivity|]. rewrite ?Hlen, ?Hkey, ?Hs, Hend, ?Hhead.
    split; cbn; try done. eapply holds_parsed; [..|exact Hv]; done. }
  destruct ((opcode (f_head f) =? 0) || (FIN (f_head f) =? 0)).
  { injection Hh as <- <- <-. rewrite outcome_bind_ret. cbn. eexists _, _, _. split; [reflexivity|]. rewrite ?Hlen, ?Hkey, Hend.
    split; cbn; try done. eapply holds_parsed; [..|exact Hv]; done. }
  destruct Hv as [(pre & post & Hb & Hp) Hpos Hmax Hlen'].
  set (o := if negb (MASK (f_head f) =? 0) then _ else _).
  assert (Eo : o = Done (pre ++ message f ++ v ++ post)).
  { subst o. unfold message, next_key. rewrite Hb, Hp, <-app_assoc. unfold f_length. rewrite Nat2Z.id. destruct (negb (MASK (f_head f) =? 0)); [apply mask_loop_ok|done]. }
  clearbody o. subst o. rewrite outcome_bind_ret.
  assert (Hmsg : length (message f) = length (f_payload f)) by (unfold message; destruct (negb _); [apply xor_key_length|done]).
  rewrite (look _ _ (message f)); cbn; [|rewrite Hp; apply load_piece|unfold f_length; by rewrite Hmsg].
  rewrite Hhead. destruct (on_msg (f_head f) (message f) s k) as [[r s1] k1]. injection Hh as <- <- <-. rewrite outcome_bind_ret. cbn.
  eexists _, _, _. split; [reflexivity|]. rewrite ?Hlen, ?Hkey, Hend. split; cbn; try done. split; cbn; [|rewrite length_app in Hpos; lia|done|].
  - exists (pre ++ message f), post. rewrite <-!app_assoc, length_app, Hp, Hmsg. split; [done|lia].
  - rewrite <-Hlen', Hb, !length_app, Hmsg. lia.
Qed.

(** *** Where the connection is in a frame *)

(** [todo] is what the connection has not parsed of the frame. *)
Inductive stage ws s key f v M : list Z -> Prop :=
| stage_head h n : is_at ws READ_PAYLOAD_LEN s h n key v M -> stage ws s key f v M (encode_frame f)
| stage_mask : is_at ws PARSE_MASKING s (f_head f) (f_length f) key v M -> stage ws s key f v M (f_rest f)
| stage_data : is_at ws READ_DATA s (f_head f) (f_length f) (next_key key f) v M -> (f_length f <= M -> prev_data_pos ws + f_length f <= M) ->
    stage ws s key f v M (f_payload f).

Lemma f_rest_eq f : f_rest f = key_bytes f ++ f_payload f.
Proof. done. Qed.

Lemma f_length_range f : frame_ok f -> 0 <= f_length f < 2 ^ 63.
Proof. intros Hf. pose proof (ok_length _ Hf). assert (0 <= f_length f) by apply Nat2Z.is_nonneg. destruct (code (f_head f) =? 126); lia. Qed.

(** The cut in front of [x], the rest of the frame, is not in or directly before the
    extended length. *)
Definition cut_in_length f x : Prop := (length (f_rest f) < length x <= length (f_ext f) + length (f_rest f))%nat.

(** A round from the payload on: either all of it is there, or the round ends. *)
Lemma pass_data_ok (look : msg_only) ws s f key key' s' k k' v M :
  frame_ok f -> M < 2 ^ 62 -> is_at ws READ_DATA s (f_head f) (f_length f) (next_key key f) v M -> handle (key, s, k) f = (key', s', k') ->
  (forall w, v = f_payload f ++ w -> exists ws' h n, pass_data do_msg ws k = Done (Next ws' k') /\ is_at ws' READ_PAYLOAD_LEN s' h n key' w M) /\
  ((length v < length (f_payload f))%nat -> pass_data do_msg ws k = Done (Break ws k)).
Proof.
  intros Hf HM H Hh. destruct (read_payload_ok _ _ _ _ _ _ _ H (f_length_range _ Hf)) as (ws1 & E1 & H1). unfold pass_data, andthen. rewrite E1, outcome_bind_ret. cbn [fst snd].
  unfold f_length in H1 at 1 |- *. destruct (Z.ltb_spec (Z.of_nat (length v)) (Z.of_nat (length (f_payload f)))) as [Hs|Hs].
  - subst ws1. split; [|done]. intros w ->. rewrite length_app in Hs. lia.
  - split; [|lia]. intros w ->. by eapply proc_msg_ok.
Qed.

Lemma pass_calc_ok (look : msg_only) ws s f key key' s' k k' v M :
  frame_ok f -> M < 2 ^ 62 -> is_at ws CALC_REST_SIZE s (f_head f) (f_length f) (next_key key f) v M -> handle (key, s, k) f = (key', s', k') ->
  (forall w, v = f_payload f ++ w -> exists ws' h n, pass_calc do_msg ws k = Done (Next ws' k') /\ is_at ws' READ_PAYLOAD_LEN s' h n key' w M) /\
  ((length v < length (f_payload f))%nat -> exists ws', pass_calc do_msg ws k = Done (Break ws' k) /\ stage ws' s key f v M (f_payload f)).
Proof.
  intros Hf HM H Hh. destruct (calc_ok _ _ _ _ _ _ _ H (f_length_range _ Hf)) as (ws1 & E1 & H1 & Hroom). unfold pass_calc, andthen. rewrite E1, outcome_bind_ret. cbn [fst snd].
  destruct (pass_data_ok look _ _ _ _ _ _ _ _ _ _ Hf HM H1 Hh) as [Hdone Hwait]. split; [done|]. intros Hs. rewrite (Hwait Hs). eexists. split; [reflexivity|]. by apply stage_data.
Qed.

Lemma pass_mask_ok (look : msg_only) ws s f key key' s' k k' v M :
  frame_ok f -> M < 2 ^ 62 -> is_at ws PARSE_MASKING s (f_head f) (f_length f) key v M -> handle (key, s, k) f = (key', s', k') ->
  (forall w, v = f_rest f ++ w -> exists ws' h n, pass_mask do_msg ws k = Done (Next ws' k') /\ is_at ws' READ_PAYLOAD_LEN s' h n key' w M) /\
  (forall x, f_rest f = v ++ x -> x <> [] -> exists ws' v' todo, pass_mask do_msg ws k = Done (Break ws' k) /\ stage ws' s key f v' M todo /\ todo = v' ++ x).
Proof.
  intros Hf HM H Hh. rewrite f_rest_eq. unfold pass_mask, andthen. split.
  - intros w ->. rewrite <-app_assoc in H. destruct (parse_mask_ok _ _ _ _ _ _ _ Hf H) as (ws1 & E1 & H1). rewrite E1, outcome_bind_ret. cbn [fst snd].
    by apply (pass_calc_ok look _ _ _ _ _ _ _ _ _ _ Hf HM H1 Hh).
  - intros x Hx Hne. assert (0 < length x)%nat by (destruct x; [done|cbn; lia]). destruct (decide (length v < length (key_bytes f))%nat) as [Hs|Hs].
    + rewrite (parse_mask_waits _ _ _ _ _ _ _ H Hs), outcome_bind_ret. cbn [fst snd]. eexists _, v, _. split; [reflexivity|]. split; [by apply stage_mask|]. by rewrite f_rest_eq.
    + assert (exists v', v = key_bytes f ++ v' /\ f_payload f = v' ++ x) as (v' & -> & Hp).
      { exists (drop (length (key_bytes f)) v). assert (Hk : take (length (key_bytes f)) v = key_bytes f).
        { rewrite <-(take_app_le v x) by lia. rewrite <-Hx. apply take_app_length. }
        split; [by rewrite <-Hk at 1; rewrite take_drop|]. rewrite <-drop_app_le by lia. rewrite <-Hx. by rewrite drop_app_length. }
      destruct (parse_mask_ok _ _ _ _ _ _ _ Hf H) as (ws1 & E1 & H1). rewrite E1, outcome_bind_ret. cbn [fst snd].
      destruct (pass_calc_ok look _ _ _ _ _ _ _ _ _ _ Hf HM H1 Hh) as [_ Hwait]. destruct Hwait as (ws2 & E2 & H2); [rewrite Hp, length_app; lia|]. by eauto 10.
Qed.
Lemma pass_len_ok (look : msg_only) ws s f n key key' s' k k' v M :
  frame_ok f -> M < 2 ^ 62 -> is_at ws PARSE_PAYLOAD_LEN s (f_head f) n key v M -> handle (key, s, k) f = (key', s', k') ->
  (forall w, v = f_ext f ++ f_rest f ++ w -> exists ws' h n, pass_len do_msg ws k = Done (Next ws' k') /\ is_at ws' READ_PAYLOAD_LEN s' h n key' w M) /\
  (forall v1 x, v = f_ext f ++ v1 -> f_rest f = v1 ++ x -> x <> [] ->
     exists ws' v' todo, pass_len do_msg ws k = Done (Break ws' k) /\ stage ws' s key f v' M todo /\ todo = v' ++ x).
Proof.
  intros Hf HM H Hh. unfold pass_len, andthen. split.
  - intros w ->. destruct (parse_len_ok _ _ _ _ _ _ _ Hf H) as (ws1 & E1 & H1). rewrite E1, outcome_bind_ret. cbn [fst snd].
    by apply (pass_mask_ok look _ _ _ _ _ _ _ _ _ _ Hf HM H1 Hh).
  - intros v1 x -> Hr Hne. destruct (parse_len_ok _ _ _ _ _ _ _ Hf H) as (ws1 & E1 & H1). rewrite E1, outcome_bind_ret. cbn [fst snd].
    by apply (pass_mask_ok look _ _ _ _ _ _ _ _ _ _ Hf HM H1 Hh).
Qed.

Lemma skip_to_mask ws k : state ws = PARSE_MASKING -> pass do_msg ws k = pass_mask do_msg ws k.
Proof.
  intros Hs. unfold pass, pass_len, andthen. rewrite skip_head, outcome_bind_ret by (by rewrite Hs). cbn [fst snd]. by rewrite skip_len, outcome_bind_ret by (by rewrite Hs).
Qed.

Lemma skip_to_data ws k : state ws = READ_DATA -> pass do_msg ws k = pass_data do_msg ws k.
Proof.
  intros Hs. unfold pass, pass_len, pass_mask, pass_calc, andthen. rewrite skip_head, outcome_bind_ret by (by rewrite Hs). cbn [fst snd].
  rewrite skip_len, outcome_bind_ret by (by rewrite Hs). cbn [fst snd]. rewrite skip_mask, outcome_bind_ret by (by rewrite Hs). cbn [fst snd].
  by rewrite skip_calc, outcome_bind_ret by (by rewrite Hs).
Qed.

(** The front of two equal splits. *)
Lemma app_split_front l v x w : l ++ w = v ++ x -> (length l <= length v)%nat -> exists v', v = l ++ v' /\ w = v' ++ x.
Proof.
  intros E Hl. exists (drop (length l) v). assert (Hk : take (length l) v = l) by (rewrite <-(take_app_le v x) by done; rewrite <-E; apply take_app_length).
  split; [by rewrite <-Hk at 1; rewrite take_drop|]. rewrite <-drop_app_le by done. rewrite <-E. by rewrite drop_app_length.
Qed.

(** A whole round. *)
Lemma pass_done (look : msg_only) ws s f key key' s' k k' w M todo :
  frame_ok f -> M < 2 ^ 62 -> stage ws s key f (todo ++ w) M todo -> handle (key, s, k) f = (key', s', k') ->
  exists ws' h n, pass do_msg ws k = Done (Next ws' k') /\ is_at ws' READ_PAYLOAD_LEN s' h n key' w M.
Proof.
  intros Hf HM H Hh. remember (todo ++ w) as v eqn:Ev. destruct H as [h n H|H|H Hroom].
  - subst v. unfold encode_frame in H. rewrite <-!app_assoc in H. destruct (read_head_ok _ _ _ _ _ _ _ _ H (ok_head _ Hf)) as (ws1 & E1 & H1).
    unfold pass, andthen. rewrite E1, outcome_bind_ret. cbn [fst snd]. by apply (pass_len_ok look _ _ _ _ _ _ _ _ _ _ _ Hf HM H1 Hh).
  - rewrite skip_to_mask by apply (at_state _ _ _ _ _ _ _ _ H). by apply (pass_mask_ok look _ _ _ _ _ _ _ _ _ _ Hf HM H Hh).
  - rewrite skip_to_data by apply (at_state _ _ _ _ _ _ _ _ H). by apply (pass_data_ok look _ _ _ _ _ _ _ _ _ _ Hf HM H Hh).
Qed.

Lemma pass_waits (look : msg_only) ws s f key k v x M todo :
  frame_ok f -> M < 2 ^ 62 -> stage ws s key f v M todo -> todo = v ++ x -> x <> [] -> ~ cut_in_length f x ->
  exists ws' v' todo', pass do_msg ws k = Done (Break ws' k) /\ stage ws' s key f v' M todo' /\ todo' = v' ++ x.
Proof.
  intros Hf HM H Htodo Hx Hcut. destruct (handle (key, s, k) f) as [[key' s'] k'] eqn:Hh. destruct H as [h n H|H|H Hroom].
  - destruct (decide (length v < 2)%nat) as [Hs|Hs].
    + destruct (read_head_waits _ _ _ _ _ _ _ H Hs) as (ws1 & E1 & H1). unfold pass, andthen. rewrite E1, outcome_bind_ret. cbn [fst snd].
      eexists _, v, _. split; [reflexivity|]. split; [by eapply stage_head|done].
    + unfold encode_frame in Htodo. pose proof Htodo as Htodo'. apply app_split_front in Htodo as (v1 & -> & Htodo); [|cbn; lia].
      destruct (read_head_ok _ _ _ _ _ _ _ _ H (ok_head _ Hf)) as (ws1 & E1 & H1). unfold pass, andthen. rewrite E1, outcome_bind_ret. cbn [fst snd].
      pose proof (f_equal length Htodo) as Hlen. rewrite !length_app in Hlen. assert (0 < length x)%nat by (destruct x; [done|cbn; lia]).
      apply app_split_front in Htodo as (v2 & -> & Hr); [|unfold cut_in_length in Hcut; lia]. by eapply (pass_len_ok look _ _ _ _ _ _ _ _ _ _ _ Hf HM H1 Hh).
  - rewrite skip_to_mask by apply (at_state _ _ _ _ _ _ _ _ H). by apply (pass_mask_ok look _ _ _ _ _ _ _ _ _ _ Hf HM H Hh).
  - rewrite skip_to_data by apply (at_state _ _ _ _ _ _ _ _ H). destruct (pass_data_ok look _ _ _ _ _ _ _ _ _ _ Hf HM H Hh) as [_ Hwait].
    rewrite Hwait; [|rewrite Htodo, length_app; destruct x; [done|cbn; lia]]. eexists _, v, _. split; [reflexivity|]. split; [by apply stage_data|done].
Qed.

(** *** The stream *)

(** The connection has dealt with all frames before [fs]; [x] is the part of the stream
    [fs] that it did not receive. *)
Inductive waiting ws s key fs x M : Prop :=
| waiting_end h n : fs = [] -> x = [] -> is_at ws READ_PAYLOAD_LEN s h n key [] M -> waiting ws s key fs x M
| waiting_frame f rest v todo x1 : fs = f :: rest -> x = x1 ++ stream rest -> stage ws s key f v M todo -> todo = v ++ x1 -> x1 <> [] -> waiting ws s key fs x M.

(** Nowhere does the unread part [x] of the stream start in an extended length, or
    directly before one. *)
Definition good_cut fs x : Prop := forall fs1 f fs2 x1, fs = fs1 ++ f :: fs2 -> x = x1 ++ stream fs2 -> ~ cut_in_length f x1.

Lemma encode_frame_length f : (2 <= length (encode_frame f))%nat.
Proof. unfold encode_frame. rewrite length_app. cbn. lia. Qed.

Lemma good_cut_tail f fs x : good_cut (f :: fs) x -> good_cut fs x.
Proof. intros H fs1 g fs2 x1 -> ->. by apply (H (f :: fs1) g fs2). Qed.

Lemma round_ends (look : msg_only) fuel ws s key k f fs v x todo M :
  Forall frame_ok (f :: fs) -> M < 2 ^ 62 -> stage ws s key f v M todo -> todo ++ stream fs = v ++ x -> good_cut (f :: fs) x -> (length v < length todo)%nat ->
  exists ws', read_loop do_msg (S fuel) ws k = Done (1, ws', k) /\ waiting ws' s key (f :: fs) x M.
Proof.
  intros Hok HM H E Hcut Hlt. assert (exists x1, todo = v ++ x1 /\ x = x1 ++ stream fs) as (x1 & Htodo & ->) by (symmetry in E; apply app_split_front in E; [done|lia]).
  assert (Hx : x1 <> []) by (intros ->; rewrite Htodo, app_nil_r in Hlt; lia). apply Forall_cons in Hok as [Hf _].
  destruct (pass_waits look _ _ _ _ k _ x1 _ _ Hf HM H Htodo Hx (Hcut [] f fs x1 eq_refl eq_refl)) as (ws' & v' & todo' & E1 & H1 & E2).
  exists ws'. cbn [read_loop]. rewrite E1, outcome_bind_ret. split; [done|]. by eapply waiting_frame.
Qed.

Lemma frames_loop_ok (look : msg_only) fs : forall fuel ws s key k h n v x M,
  Forall frame_ok fs -> M < 2 ^ 62 -> is_at ws READ_PAYLOAD_LEN s h n key v M -> stream fs = v ++ x -> good_cut fs x -> (length v < fuel)%nat ->
  exists fs1 fs2 ws' key' s' k', fs = fs1 ++ fs2 /\ foldl handle (key, s, k) fs1 = (key', s', k') /\
    read_loop do_msg fuel ws k = Done (1, ws', k') /\ waiting ws' s' key' fs2 x M.
Proof.
  induction fs as [|f fs IH]; intros fuel ws s key k h n v x M Hok HM H E Hcut Hfuel; (destruct fuel as [|fuel]; [lia|]).
  - cbn in E. symmetry in E. apply app_nil in E as [-> ->]. destruct (read_head_waits _ _ _ _ _ _ _ H ltac:(cbn; lia)) as (ws1 & E1 & H1).
    exists [], [], ws1, key, s, k. split; [done|]. split; [done|]. cbn [read_loop]. unfold pass, andthen. rewrite E1, !outcome_bind_ret. cbn [fst snd]. rewrite ?outcome_bind_ret. split; [done|]. by eapply waiting_end.
  - rewrite stream_cons in E. destruct (decide (length v < length (encode_frame f))%nat) as [Hs|Hs].
    + destruct (round_ends look fuel ws s key k f fs v x _ M Hok HM (stage_head _ _ _ _ _ _ _ _ H) E Hcut Hs) as (ws' & E1 & H1).
      by exists [], (f :: fs), ws', key, s, k.
    + apply app_split_front in E as (w & -> & E); [|lia]. destruct (handle (key, s, k) f) as [[key1 s1] k1] eqn:Hh. apply Forall_cons in Hok as [Hf Hok].
      destruct (pass_done look _ _ _ _ _ _ _ _ _ _ _ Hf HM (stage_head _ _ _ _ _ _ _ _ H) Hh) as (ws1 & h1 & n1 & E1 & H1).
      pose proof (encode_frame_length f). rewrite length_app in Hfuel.
      destruct (IH fuel ws1 s1 key1 k1 h1 n1 w x M Hok HM H1 E (good_cut_tail _ _ _ Hcut) ltac:(lia)) as (fs1 & fs2 & ws' & key' & s' & k' & -> & Hfold & E2 & H2).
      exists (f :: fs1), fs2, ws', key', s', k'. split; [done|]. cbn [foldl read_loop]. rewrite Hh. split; [done|]. by rewrite E1, outcome_bind_ret.
Qed.
(** A call that receives [c]. *)
Lemma holds_received ws v c M (mem : list Z) : holds ws v M -> data_pos ws + Z.of_nat (length c) <= M ->
  exists mem', store_bytes (buffer ws) (data_pos ws) c = Done mem' /\ holds (set_pos (prev_data_pos ws) (data_pos ws + Z.of_nat (length c)) (set_buffer mem' ws)) (v ++ c) M.
Proof.
  intros [(pre & post & Hb & Hp) Hd Hm Hl] Hroom.
  assert (Hpost : (length c <= length post)%nat) by (rewrite Hb, !length_app in Hl; lia).
  exists ((pre ++ v) ++ c ++ drop (length c) post). split.
  - rewrite Hb, app_assoc. rewrite <-(take_drop (length c) post) at 1. replace (data_pos ws) with (Z.of_nat (length (pre ++ v))) by (rewrite length_app; lia).
    apply store_piece. rewrite length_take. lia.
  - split; cbn; [|rewrite length_app; lia|done|].
    + exists pre, (drop (length c) post). by rewrite <-!app_assoc.
    + rewrite <-Hl, Hb, !length_app, length_drop. lia.
Qed.

Lemma is_at_received ws st s h n key v c M (mem : list Z) : is_at ws st s h n key v M ->
  holds (set_pos (prev_data_pos ws) (data_pos ws + Z.of_nat (length c)) (set_buffer mem ws)) (v ++ c) M ->
  is_at (set_pos (prev_data_pos ws) (data_pos ws + Z.of_nat (length c)) (set_buffer mem ws)) st s h n key (v ++ c) M.
Proof. intros [] Hv. by split. Qed.

Definition set_received ws c (mem : list Z) : websocket_conn_t := set_pos (prev_data_pos ws) (data_pos ws + Z.of_nat (length c)) (set_buffer mem ws).

Lemma stage_received ws s key f v M todo c (mem : list Z) : stage ws s key f v M todo -> holds (set_received ws c mem) (v ++ c) M -> stage (set_received ws c mem) s key f (v ++ c) M todo.
Proof. intros [h n H|H|H Hroom] Hv; [eapply stage_head|apply stage_mask|apply stage_data]; try exact Hroom; by apply is_at_received. Qed.

Lemma stage_holds ws s key f v M todo : stage ws s key f v M todo -> holds ws v M.
Proof. by intros [h n []|[]|[]]. Qed.

Lemma do_read_gets (recv : Z -> Z -> K -> Z * list Z * K) fuel ws k c k1 v M : holds ws v M ->
  recv MSG_DONTWAIT (M - data_pos ws) k = (Z.of_nat (length c), c, k1) -> 0 < Z.of_nat (length c) <= M - data_pos ws ->
  exists mem, do_read errno do_msg recv fuel ws k = read_loop do_msg fuel (set_received ws c mem) k1 /\ holds (set_received ws c mem) (v ++ c) M.
Proof.
  intros Hv Hrecv Hc. destruct (holds_received ws v c M (buffer ws) Hv ltac:(lia)) as (mem & E & H). exists mem. split; [|exact H].
  unfold do_read. rewrite (hold_max _ _ _ Hv), (proj2 (Z.leb_gt _ _)) by lia. rewrite Hrecv, (proj2 (Z.ltb_ge _ _)), (proj2 (Z.eqb_neq _ _)) by lia. by rewrite E, outcome_bind_ret.
Qed.

(** The room for the rest of a payload. *)
Lemma waiting_room ws s key fs x M : waiting ws s key fs x M -> exists v, holds ws v M /\ (state ws = READ_DATA -> payload_len (req_package ws) <= M -> data_pos ws < M).
Proof.
  intros [h n _ _ H|f rest v todo x1 _ _ H Htodo Hx].
  - exists []. split; [apply H|]. by rewrite (at_state _ _ _ _ _ _ _ _ H).
  - exists v. split; [by eapply stage_holds|]. destruct H as [h n H|H|H Hroom]; rewrite (at_state _ _ _ _ _ _ _ _ H); [done..|]. intros _.
    rewrite (at_len _ _ _ _ _ _ _ _ H). intros Hn%Hroom. pose proof (hold_pos _ _ _ (at_holds _ _ _ _ _ _ _ _ H)). unfold f_length in Hn. rewrite Htodo, length_app in Hn.
    assert (0 < length x1)%nat by (destruct x1; [done|cbn; lia]). lia.
Qed.

Lemma do_read_ok (look : msg_only) (recv : Z -> Z -> K -> Z * list Z * K) fuel ws s key k c k1 fs x M :
  Forall frame_ok fs -> M < 2 ^ 62 -> waiting ws s key fs (c ++ x) M -> recv MSG_DONTWAIT (M - data_pos ws) k = (Z.of_nat (length c), c, k1) ->
  0 < Z.of_nat (length c) <= M - data_pos ws -> good_cut fs x -> M + 1 < Z.of_nat fuel ->
  exists fs1 fs2 ws' key' s' k', fs = fs1 ++ fs2 /\ foldl handle (key, s, k1) fs1 = (key', s', k') /\
    do_read errno do_msg recv fuel ws k = Done (1, ws', k') /\ waiting ws' s' key' fs2 x M.
Proof.
  intros Hok HM Hw Hrecv Hc Hcut Hfuel. destruct Hw as [h n -> Hx H|f rest v todo x1 -> Hx H Htodo Hx1].
  { apply app_nil in Hx as [-> _]. cbn in Hc. lia. }
  pose proof (stage_holds _ _ _ _ _ _ _ H) as Hv. destruct (do_read_gets recv fuel ws k c k1 v M Hv Hrecv Hc) as (mem & E1 & Hv1).
  pose proof (stage_received _ _ _ _ _ _ _ _ _ H Hv1) as H1. rewrite E1. pose proof (holds_room _ _ _ Hv1) as Hroom. pose proof (hold_pos _ _ _ Hv1) as Hpos.
  destruct fuel as [|fuel]; [lia|]. assert (E : todo ++ stream rest = (v ++ c) ++ x) by (rewrite Htodo, <-!app_assoc; by rewrite Hx).
  destruct (decide (length (v ++ c) < length todo)%nat) as [Hs|Hs].
  - destruct (round_ends look fuel _ s key k1 f rest _ _ _ _ Hok HM H1 E Hcut Hs) as (ws' & E2 & H2). by exists [], (f :: rest), ws', key, s, k1.
  - apply app_split_front in E as (w & Evc & E); [|lia]. rewrite Evc in H1, Hpos. destruct (handle (key, s, k1) f) as [[key1 s1] k2] eqn:Hh. pose proof Hok as Hok'. apply Forall_cons in Hok as [Hf Hok].
    destruct (pass_done look _ _ _ _ _ _ _ _ _ _ _ Hf HM H1 Hh) as (ws1 & h1 & n1 & E2 & H2). rewrite length_app in Hpos.
    destruct (frames_loop_ok look rest fuel ws1 s1 key1 k2 h1 n1 w x M Hok HM H2 E (good_cut_tail _ _ _ Hcut) ltac:(lia)) as (fs1 & fs2 & ws' & key' & s' & k' & -> & Hfold & E3 & H3).
    exists (f :: fs1), fs2, ws', key', s', k'. split; [done|]. cbn [foldl read_loop]. rewrite Hh. split; [done|]. by rewrite E2, outcome_bind_ret.
Qed.

(** *** Calls of do_read, a chunk each *)

Definition chunk c (flags n : Z) k : Z * list Z * K := (Z.of_nat (length c), c, k).

(** The chunks that a connection receives, until one is larger than its room. *)
Fixpoint drive (fuel : nat) (cs : list (list Z)) ws k : outcome (list (list Z) * websocket_conn_t * K) :=
  match cs with
  | [] => Done ([], ws, k)
  | c :: cs' =>
      if max_buf_len ws - data_pos ws <? Z.of_nat (length c) then Done (cs, ws, k)
      else r ← do_read errno do_msg (chunk c) fuel ws k; let '(ret, ws, k) := r in if ret =? 1 then drive fuel cs' ws k else Done (cs', ws, k)
  end.

Definition good_cuts fs (cs : list (list Z)) x : Prop := forall cs1 c cs2, cs = cs1 ++ c :: cs2 -> good_cut fs (mjoin cs2 ++ x).

Lemma good_cut_suffix fs1 fs2 x : good_cut (fs1 ++ fs2) x -> good_cut fs2 x.
Proof. induction fs1 as [|f fs1 IH]; [done|]. intros H. by apply IH, (good_cut_tail f). Qed.

Lemma drive_ok (look : msg_only) fuel x M cs : forall fs ws s key k,
  Forall frame_ok fs -> M < 2 ^ 62 -> waiting ws s key fs (mjoin cs ++ x) M -> Forall (fun c => c <> []) cs -> good_cuts fs cs x -> M + 1 < Z.of_nat fuel ->
  exists got rest fs1 fs2 ws' key' s' k', cs = got ++ rest /\ fs = fs1 ++ fs2 /\ drive fuel cs ws k = Done (rest, ws', k') /\
    foldl handle (key, s, k) fs1 = (key', s', k') /\ waiting ws' s' key' fs2 (mjoin rest ++ x) M /\
    (forall c rest', rest = c :: rest' -> M - data_pos ws' < Z.of_nat (length c)).
Proof.
  induction cs as [|c cs IH]; intros fs ws s key k Hok HM Hw Hne Hcuts Hfuel.
  { by exists [], [], [], fs, ws, key, s, k. }
  destruct (waiting_room _ _ _ _ _ _ Hw) as (v & Hv & _). cbn [drive]. rewrite (hold_max _ _ _ Hv). destruct (Z.ltb_spec (M - data_pos ws) (Z.of_nat (length c))) as [Hlt|Hle].
  { exists [], (c :: cs), [], fs, ws, key, s, k. repeat (split; [done|]). intros c' rest' [= <- <-]. done. }
  apply Forall_cons in Hne as [Hc Hne]. change (mjoin (c :: cs)) with (c ++ mjoin cs) in Hw. rewrite <-app_assoc in Hw.
  assert (0 < length c)%nat by (destruct c; [done|cbn; lia]).
  destruct (do_read_ok look (chunk c) fuel ws s key k c k fs (mjoin cs ++ x) M Hok HM Hw eq_refl ltac:(lia) (Hcuts [] c cs eq_refl) Hfuel)
    as (fs1 & fs2 & ws1 & key1 & s1 & k1 & -> & Hfold & E1 & Hw1). rewrite E1, outcome_bind_ret. cbn [Z.eqb Pos.eqb].
  assert (Hcuts1 : good_cuts fs2 cs x) by (intros cs1 c1 cs2 Ecs; apply (good_cut_suffix fs1), (Hcuts (c :: cs1) c1 cs2); by rewrite Ecs).
  apply Forall_app in Hok as [_ Hok]. destruct (IH fs2 ws1 s1 key1 k1 Hok HM Hw1 Hne Hcuts1 Hfuel) as (got & rest & fs3 & fs4 & ws' & key' & s' & k' & -> & -> & E2 & Hfold2 & Hw2 & Hroom).
  exists (c :: got), rest, (fs1 ++ fs3), fs4, ws', key', s', k'. split; [done|]. split; [by rewrite app_assoc|]. split; [done|]. split; [by rewrite foldl_app, Hfold|]. done.
Qed.

Lemma new_conn_at (mem : list Z) : is_at (new_conn mem) READ_PAYLOAD_LEN (Sender 0 [] 0 1) (Head 0 0 0 0 0) 0 0 [] (Z.of_nat (length mem)).
Proof. split; try done. split; cbn; try done; try lia. by exists [], mem. Qed.

Lemma new_conn_waits (mem : list Z) fs : Forall frame_ok fs -> waiting (new_conn mem) (Sender 0 [] 0 1) 0 fs (stream fs) (Z.of_nat (length mem)).
Proof.
  intros Hok. pose proof (new_conn_at mem) as H. destruct fs as [|f fs]; [by eapply waiting_end|].
  eapply (waiting_frame _ _ _ _ _ _ f fs [] _ (encode_frame f)); [done..|by eapply stage_head|done|]. intros E. pose proof (encode_frame_length f). rewrite E in *. cbn in *. lia.
Qed.
(** Without extended lengths there is no bad cut. *)
Lemma short_good_cuts fs (cs : list (list Z)) x : Forall (fun f => ext_len (f_head f) = 0%nat) fs -> good_cuts fs cs x.
Proof.
  intros H cs1 c cs2 _ fs1 f fs2 x1 -> _. apply Forall_app in H as [_ [H _]%Forall_cons]. unfold cut_in_length, f_ext. rewrite be_bytes_length, H. lia.
Qed.

(** *** What do_read does with a stream *)

(** C5: the frames of a stream, cut into chunks in any way but inside or directly in
    front of an extended length, reach their handlers once each, in order and whole:
    at each moment exactly the frames that have arrived completely were handled, and
    the connection waits for the rest; a chunk is only left over when it does not fit
    into the buffer, and in the payload of a frame that fits there is always room. *)
Theorem frames_delivered (look : msg_only) fuel cs fs x (mem : list Z) k :
  Forall frame_ok fs -> Z.of_nat (length mem) < 2 ^ 62 -> stream fs = mjoin cs ++ x -> Forall (fun c => c <> []) cs -> good_cuts fs cs x ->
  Z.of_nat (length mem) + 1 < Z.of_nat fuel ->
  exists got rest fs1 fs2 ws' key' k', cs = got ++ rest /\ fs = fs1 ++ fs2 /\ drive fuel cs (new_conn mem) k = Done (rest, ws', k') /\
    foldl handle (0, Sender 0 [] 0 1, k) fs1 = (key', out ws', k') /\ waiting ws' (out ws') key' fs2 (mjoin rest ++ x) (Z.of_nat (length mem)) /\
    (forall c rest', rest = c :: rest' -> max_buf_len ws' - data_pos ws' < Z.of_nat (length c)) /\
    (state ws' = READ_DATA -> payload_len (req_package ws') <= max_buf_len ws' -> data_pos ws' < max_buf_len ws').
Proof.
  intros Hok HM Hx Hne Hcuts Hfuel. pose proof (new_conn_waits mem fs Hok) as Hw. rewrite Hx in Hw.
  destruct (drive_ok look fuel x _ cs fs _ _ _ k Hok HM Hw Hne Hcuts Hfuel) as (got & rest & fs1 & fs2 & ws' & key' & s' & k' & H1 & H2 & H3 & H4 & H5 & H6).
  assert (out ws' = s') as <- by (destruct H5 as [h n _ _ []|f r v todo x1 _ _ [h n []|[]|[]] _ _]; done).
  destruct (waiting_room _ _ _ _ _ _ H5) as (v & Hv & Hroom). pose proof (hold_max _ _ _ Hv) as Hmax.
  exists got, rest, fs1, fs2, ws', key', k'. repeat (split; [done|]). by rewrite Hmax.
Qed.

(** A chunk that ends inside or directly in front of an extended length makes
    do_read loop for ever. *)
Theorem split_length_hangs (recv : Z -> Z -> K -> Z * list Z * K) ws s h n key f c x M k k1 :
  frame_ok f -> is_at ws READ_PAYLOAD_LEN s h n key [] M -> encode_frame f = c ++ x -> cut_in_length f x ->
  recv MSG_DONTWAIT (M - data_pos ws) k = (Z.of_nat (length c), c, k1) -> 0 < Z.of_nat (length c) <= M - data_pos ws ->
  forall fuel, do_read errno do_msg recv fuel ws k = NoFuel.
Proof.
  intros Hf H E Hcut Hrecv Hc fuel. destruct (do_read_gets recv fuel ws k c k1 [] M (at_holds _ _ _ _ _ _ _ _ H) Hrecv Hc) as (mem & E1 & Hv). rewrite E1.
  pose proof (is_at_received _ _ _ _ _ _ _ _ _ _ H Hv) as H1. fold (set_received ws c mem) in H1. cbn [app] in H1.
  unfold encode_frame in E. pose proof (f_equal length E) as Hlen. rewrite !length_app in Hlen. change (length (head_bytes (f_head f))) with 2%nat in Hlen. unfold cut_in_length in Hcut.
  apply app_split_front in E as (v & -> & E); [|cbn; lia]. rewrite length_app in Hlen. change (length (head_bytes (f_head f))) with 2%nat in Hlen.
  assert (Hv1 : (length v < ext_len (f_head f))%nat) by (apply (f_equal length) in E; unfold f_ext in Hlen, Hcut; rewrite be_bytes_length in Hlen; lia).
  destruct fuel as [|fuel]; [done|]. destruct (read_head_ok _ _ _ _ _ _ _ _ H1 (ok_head _ Hf)) as (ws2 & E2 & H2).
  assert (Hstay : forall k, pass_len do_msg ws2 k = Done (Next ws2 k)).
  { intros k2. pose proof (at_state _ _ _ _ _ _ _ _ H2) as Hst. unfold pass_len, pass_mask, pass_calc, pass_data, andthen. rewrite (parse_len_short _ _ _ _ _ _ _ H2 Hv1), outcome_bind_ret. cbn [fst snd].
    rewrite skip_mask, outcome_bind_ret by (by rewrite Hst). cbn [fst snd]. rewrite skip_calc, outcome_bind_ret by (by rewrite Hst). cbn [fst snd].
    unfold read_payload, proc_msg. rewrite Hst, outcome_bind_ret. cbn [fst snd]. by rewrite Hst. }
  cbn [read_loop]. unfold pass at 1, andthen at 1. rewrite E2, outcome_bind_ret. cbn [fst snd]. rewrite Hstay, outcome_bind_ret.
  clear E1. induction fuel as [|fuel IH]; [done|]. cbn [read_loop]. unfold pass at 1, andthen at 1.
  rewrite skip_head, outcome_bind_ret by (by rewrite (at_state _ _ _ _ _ _ _ _ H2)). cbn [fst snd]. by rewrite Hstay, outcome_bind_ret.
Qed.

(** A message whose length has its highest bit set is not waited for: unmasking it
    runs over the end of the buffer. *)
Theorem huge_length_faults (recv : Z -> Z -> K -> Z * list Z * K) fuel ws s h n key h' N m c M k k1 :
  let frame := head_bytes h' ++ be_bytes 8 N ++ le_bytes 4 m ++ c in
  is_at ws READ_PAYLOAD_LEN s h n key [] M -> M < 2 ^ 62 -> head_ok h' -> code h' = 127 -> FIN h' = 1 -> MASK h' = 1 -> opcode h' <> 0 -> opcode h' <> 9 ->
  2 ^ 63 <= N < 2 ^ 64 -> in_u 32 m ->
  recv MSG_DONTWAIT (M - data_pos ws) k = (Z.of_nat (length frame), frame, k1) -> Z.of_nat (length frame) <= M - data_pos ws ->
  do_read errno do_msg recv (S fuel) ws k = Fault.
Proof.
  intros frame H HM Hh Hcode Hfin Hmask Hop0 Hop9 HN Hm Hrecv Hroom.
  destruct (do_read_gets recv (S fuel) ws k frame k1 [] M (at_holds _ _ _ _ _ _ _ _ H) Hrecv) as (mem & E1 & Hv); [subst frame; cbn [head_bytes app length] in *; lia|]. rewrite E1.
  pose proof (is_at_received _ _ _ _ _ _ _ _ _ _ H Hv) as H1. fold (set_received ws frame mem) in H1. cbn [app] in H1.
  destruct (read_head_ok _ _ _ _ _ _ _ _ H1 Hh) as (ws2 & E2 & H2). pose proof (parse_ext_ok _ _ _ _ _ _ _ _ H2) as (ws3 & E3 & H3). rewrite be_bytes_length in E3. rewrite be_word_bytes in H3 by lia.
  destruct (parse_mask_ok ws3 s (Frame h' m []) N key c M) as (ws4 & E4 & H4).
  { split; cbn; [done|done|rewrite Hcode; reflexivity|rewrite Hcode; lia]. }
  { unfold key_bytes. cbn. by rewrite Hmask. }
  unfold next_key in H4. cbn [f_head f_key] in H4. rewrite Hmask in H4. cbn [Z.eqb negb] in H4.
  assert (Hneg : i64 N = N - 2 ^ 64).
  { unfold wrap_s. change (64 - 1) with 63. assert ((N + 2 ^ 63) mod 2 ^ 64 = N - 2 ^ 63) as ->; [|lia]. symmetry. apply (Z.mod_unique _ _ 1); lia. }
  pose proof (at_holds _ _ _ _ _ _ _ _ H4) as Hv4. pose proof (holds_room _ _ _ Hv4) as [Hp4 Hd4].
  cbn [read_loop]. unfold pass, andthen. rewrite E2, outcome_bind_ret. cbn [fst snd]. unfold pass_len, andthen. unfold parse_payload_len.
  rewrite (at_state _ _ _ _ _ _ _ _ H2), (at_head _ _ _ _ _ _ _ _ H2), Hcode. cbn [Z.eqb Pos.eqb]. rewrite E3, outcome_bind_ret. cbn [fst snd]. unfold pass_mask, andthen.
  rewrite E4, outcome_bind_ret. cbn [fst snd]. unfold pass_calc, andthen, calc_rest_size. rewrite (at_state _ _ _ _ _ _ _ _ H4), (at_len _ _ _ _ _ _ _ _ H4), Hneg, (hold_max _ _ _ Hv4).
  rewrite (proj2 (Z.ltb_ge _ _)) by lia. rewrite outcome_bind_ret. cbn [fst snd]. unfold pass_data, andthen, read_payload. cbn [state set_state data_pos prev_data_pos req_package].
  rewrite (at_len _ _ _ _ _ _ _ _ H4), Hneg. pose proof (hold_pos _ _ _ Hv4). rewrite (proj2 (Z.ltb_ge _ _)) by lia. rewrite outcome_bind_ret. cbn [fst snd].
  unfold proc_msg. cbn [state set_state]. cbn zeta. unfold do_proc_pkg. cbn [req_package set_req head set_payload set_state out buffer payload_len masking_key payload_data prev_data_pos].
  rewrite (at_head _ _ _ _ _ _ _ _ H4), (at_len _ _ _ _ _ _ _ _ H4), Hfin, Hmask. rewrite (proj2 (Z.eqb_neq (opcode h') 9)), (proj2 (Z.eqb_neq (opcode h') 0)) by done. cbn [orb negb Z.eqb].
  rewrite mask_loop_outside; [done|..]; pose proof (hold_len _ _ _ Hv4); lia.
Qed.
(** *** From one end to the other *)

Lemma xor_key_twice key l : xor_key key (xor_key key l) = l.
Proof.
  unfold xor_key. apply list_eq. intros i. rewrite !list_lookup_imap. destruct (l !! i) as [c|]; [|done]. cbn. f_equal.
  by rewrite Z.lxor_assoc, Z.lxor_nilpotent, Z.lxor_0_r.
Qed.

(** The frame of a message. *)
Definition message_frame (d : list Z) (mask : Z) (is_text : bool) : frame :=
  Frame (Head (if is_text then 1 else 2) 0 1 (length_code (Z.of_nat (length d))) (if 0 <? mask then 1 else 0)) mask (if 0 <? mask then xor_key mask d else d).

Lemma message_frame_length d mask is_text : length (f_payload (message_frame d mask is_text)) = length d.
Proof. cbn. destruct (0 <? mask); [apply xor_key_length|done]. Qed.

Lemma message_frame_ok d mask is_text : Z.of_nat (length d) < 2 ^ 63 -> in_u 32 mask -> frame_ok (message_frame d mask is_text).
Proof.
  intros Hd Hm. assert (0 <= length_code (Z.of_nat (length d)) < 128 /\ (length_code (Z.of_nat (length d)) = 126 -> Z.of_nat (length d) < 2 ^ 16) /\
    (length_code (Z.of_nat (length d)) < 126 -> Z.of_nat (length d) = length_code (Z.of_nat (length d)))) as (Hc & H16 & Hs).
  { unfold length_code. destruct (Z.leb_spec (Z.of_nat (length d)) 125); [lia|]. destruct (Z.leb_spec (Z.of_nat (length d)) 0xFFFF); lia. }
  split; [split; cbn; try lia; [by destruct is_text|by destruct (0 <? mask)]|done|..]; unfold f_length; rewrite message_frame_length; cbn [message_frame f_head code].
  - destruct (Z.eqb_spec (length_code (Z.of_nat (length d))) 126); [by apply H16|done].
  - done.
Qed.

Lemma message_of_frame d mask is_text : message (message_frame d mask is_text) = d.
Proof. unfold message. cbn [message_frame f_head f_key f_payload MASK]. destruct (0 <? mask); cbn [Z.eqb negb]; [apply xor_key_twice|done]. Qed.

Lemma handle_message_frame d mask is_text key s k :
  handle (key, s, k) (message_frame d mask is_text) =
  let '(_, s', k') := on_msg (f_head (message_frame d mask is_text)) d s k in (next_key key (message_frame d mask is_text), s', k').
Proof. unfold handle. rewrite message_of_frame. by destruct is_text. Qed.

(** What do_rsp writes is the frame, for payloads up to 64 KB. *)
Lemma rsp_is_frame d mask is_text : Z.of_nat (length d) <= 0xFFFF -> in_u 32 mask ->
  rsp_bytes (f_head (message_frame d mask is_text)) (if 0 <? mask then mask else 0) (f_payload (message_frame d mask is_text)) = encode_frame (message_frame d mask is_text).
Proof.
  intros Hd Hm. unfold rsp_bytes, encode_frame, f_rest, f_ext, f_length. rewrite message_frame_length. f_equal. f_equal.
  - unfold rsp_length, ext_len, length_code. cbn [message_frame f_head code]. unfold length_code. rewrite (proj2 (Z.leb_le _ 0xFFFF)) by done.
    destruct (Z.leb_spec (Z.of_nat (length d)) 125) as [Hs|Hs].
    + rewrite (proj2 (Z.ltb_ge 125 _)), (proj2 (Z.ltb_ge 0xFFFF _)) by lia. cbn [andb]. by rewrite (proj2 (Z.eqb_neq _ 126)), (proj2 (Z.eqb_neq _ 127)) by lia.
    + rewrite (proj2 (Z.ltb_lt 125 _)) by lia. cbn [andb Z.eqb Pos.eqb]. by rewrite wrap_u_id by (unfold in_u; lia).
  - f_equal. unfold rsp_key. cbn [message_frame f_head MASK f_key]. destruct (Z.ltb_spec 0 mask); cbn [Z.eqb negb]; [|done]. by rewrite (proj2 (Z.ltb_lt _ _)) by done.
Qed.

Lemma do_rsp_with_mask_ok d mask is_text s : Z.of_nat (length d) < 2 ^ 63 ->
  do_rsp_with_mask d (Z.of_nat (length d)) mask is_text s =
  Done (0, f_payload (message_frame d mask is_text), push (rsp_bytes (f_head (message_frame d mask is_text)) (if 0 <? mask then mask else 0) (f_payload (message_frame d mask is_text))) s).
Proof.
  intros Hd. unfold do_rsp_with_mask. rewrite Nat2Z.id. set (o := if 0 <? mask then mask_loop _ _ _ _ _ else _).
  assert (Eo : o = Done (f_payload (message_frame d mask is_text))).
  { subst o. cbn. destruct (0 <? mask); [|done]. pose proof (mask_loop_ok mask [] d []) as H. cbn [app length Z.of_nat] in H. by rewrite !app_nil_r in H. }
  clearbody o. subst o. rewrite outcome_bind_ret. pose proof (message_frame_length d mask is_text) as Hl. set (f := message_frame d mask is_text) in *.
  rewrite (do_rsp_ok _ _ _ (f_payload f)); [done| |cbn [payload_len]; by rewrite Hl|by rewrite Hl].
  cbn [payload_data]. pose proof (load_piece [] (f_payload f) []) as H. by rewrite app_nil_r in H.
Qed.

(** C6: a message of up to 64 KB that one end sends with do_rsp_with_mask, with any
    mask, is the message that the callback of the other end gets, when it is the first
    on a fresh connection and arrives in one chunk; the buffer holds its frame. *)
Theorem message_roundtrip (look : msg_only) d mask (is_text : bool) s (mem : list Z) k fuel :
  let f := message_frame d mask is_text in
  Z.of_nat (length d) <= 0xFFFF -> in_u 32 mask -> Z.of_nat (length (encode_frame f)) <= Z.of_nat (length mem) < 2 ^ 62 -> Z.of_nat (length mem) + 1 < Z.of_nat fuel ->
  do_rsp_with_mask d (Z.of_nat (length d)) mask is_text s = Done (0, f_payload f, push (encode_frame f) s) /\
  let '(_, s', k') := on_msg (f_head f) d (Sender 0 [] 0 1) k in
  exists ws', do_read errno do_msg (chunk (encode_frame f)) fuel (new_conn mem) k = Done (1, ws', k') /\ out ws' = s' /\ state ws' = READ_PAYLOAD_LEN.
Proof.
  intros f Hd Hm Hmem Hfuel. split; [unfold f; by rewrite <-rsp_is_frame, do_rsp_with_mask_ok by (done || lia)|].
  assert (Hf : frame_ok f) by (apply message_frame_ok; [lia|done]). pose proof (new_conn_waits mem [f] ltac:(by constructor)) as Hw. pose proof (encode_frame_length f) as Hl.
  cbn [stream mbind list_bind] in Hw. destruct (do_read_ok look (chunk (encode_frame f)) fuel _ _ _ k _ k [f] [] (Z.of_nat (length mem)) ltac:(by constructor) ltac:(lia) Hw eq_refl) as (fs1 & fs2 & ws' & key' & s' & k' & Efs & Hfold & E1 & Hw1).
  - change (data_pos (new_conn mem)) with 0. lia.
  - intros fs1 g fs2 x1 _ [-> _]%eq_sym%app_nil. unfold cut_in_length. cbn. lia.
  - done.
  - assert (fs1 = [f] /\ fs2 = []) as [-> ->].
    { destruct Hw1 as [h n -> _ _|g rest v todo x1 -> Hx _ _ Hx1]; [by rewrite app_nil_r in Efs|]. symmetry in Hx. by apply app_nil in Hx as [-> _]. }
    cbn [foldl] in Hfold. unfold f in Hfold. rewrite handle_message_frame in Hfold. fold f in Hfold.
    destruct (on_msg _ d _ k) as [[r s1] k1]. injection Hfold as <- <- <-. exists ws'. split; [exact E1|]. destruct Hw1 as [h n _ _ []|g rest v todo x1 Eg _ _ _ _]; [done|discriminate Eg].
Qed.
(** For a longer message the length that do_rsp writes is not the length of the
    message: the peer reads it times 2^32. *)
Theorem long_length_wrong n : 0xFFFF < n < 2 ^ 32 -> be_word (rsp_length n) = n * 2 ^ 32.
Proof.
  intros Hn. unfold rsp_length. rewrite (proj2 (Z.leb_gt n 0xFFFF)), (proj2 (Z.ltb_lt 0xFFFF n)), andb_false_r by lia. rewrite wrap_u_id by (unfold in_u; lia).
  pose proof (be_word_bytes 4 n ltac:(lia)) as H. assert (Hb : Forall (fun b => 0 <= b < 256) (be_bytes 4 n)) by (apply Forall_reverse, le_bytes_range).
  pose proof (be_bytes_length 4 n) as Hl. destruct (be_bytes 4 n) as [|b3 [|b2 [|b1 [|b0 [|]]]]]; try discriminate Hl.
  assert (Hw : le_bytes 8 (le_word [b3; b2; b1; b0]) = [b3; b2; b1; b0; 0; 0; 0; 0]).
  { repeat (apply Forall_cons in Hb as [? Hb]). apply (le_bytes_of_word 8 [b3; b2; b1; b0; 0; 0; 0; 0]); [done|repeat constructor; lia|cbn [le_word]; lia]. }
  rewrite Hw, <-H. unfold be_word, reverse. cbn [rev_append le_word]. lia.
Qed.
End frames.

(** ** Sending, and the life of a connection *)
Section life.
Context {K : Type} (send : Z -> list Z -> K -> Z * K) (errno : K -> Z).
Implicit Types (k : K) (s : sender) (ws : websocket_conn_t).

(** What the queue still has to send. *)
Definition unsent s : list Z := drop (Z.to_nat (send_pos s)) (mjoin (send_queue s)).

(** Between two calls: a part of the first string is sent. *)
Definition queue_ok s : Prop :=
  0 <= send_pos s /\ Forall (fun d => 0 < Z.of_nat (length d) < 2 ^ 31) (send_queue s) /\
  match send_queue s with [] => send_pos s = 0 | d :: _ => send_pos s < Z.of_nat (length d) end.

Context (wire : K -> list Z).

(** send takes a piece off the front of its bytes, or fails. *)
Definition sends : Prop := forall flags l k, let '(r, k') := send flags l k in
  r <= Z.of_nat (length l) /\ wire k' = wire k ++ (if r <? 0 then [] else take (Z.to_nat r) l).

(** Do_write keeps the bytes of the queue in order: what is on the wire and what is
    unsent stay together the same, whatever send takes; it fails only when send fails
    for another reason than EINTR. *)
Theorem do_write_in_order (send_ok : sends) s k : queue_ok s ->
  exists ret s' k', do_write send errno s k = Done (ret, s', k') /\ queue_ok s' /\ wire k' ++ unsent s' = wire k ++ unsent s /\
    (ret = 0 \/ ret = -1 /\ s' = s /\ errno k' <> EINTR) /\ to_close s' = to_close s /\ ref_cnt s' = ref_cnt s.
Proof.
  intros (Hp & Hq & Hd). unfold do_write. destruct (send_queue s) as [|d q] eqn:Eq.
  { exists 0, s, k. split; [done|]. split; [by unfold queue_ok; rewrite Eq|]. auto. }
  rewrite (proj2 (Z.ltb_ge _ 0)), (proj2 (Z.ltb_ge _ (send_pos s))) by lia. cbn [orb]. pose proof (send_ok MSG_DONTWAIT (drop (Z.to_nat (send_pos s)) d) k) as Hs.
  destruct (send _ _ k) as [r k']. destruct Hs as [Hr Hw]. rewrite length_drop in Hr. apply Forall_cons in Hq as [Hlen Hq].
  assert (Hun : unsent s = drop (Z.to_nat (send_pos s)) d ++ mjoin q) by (unfold unsent; rewrite Eq; cbn; by rewrite drop_app_le by lia).
  destruct (Z.ltb_spec r 0) as [Hneg|Hpos].
  { exists (if errno k' =? EINTR then 0 else -1), s, k'. split; [done|]. split; [split; [done|]; rewrite Eq; by split; [constructor|]|]. rewrite Hw, app_nil_r. split; [done|]. destruct (Z.eqb_spec (errno k') EINTR); auto. }
  rewrite !wrap_s_id by (unfold in_s; lia). destruct (Z.leb_spec (Z.of_nat (length d)) (send_pos s + r)) as [Hall|Hpart].
  - eexists 0, _, k'. split; [reflexivity|]. split; [|split; [|by auto]].
    + split; [done|]. split; [done|]. cbn. destruct q as [|d' q]; [done|]. apply Forall_cons in Hq as [? _]. lia.
    + rewrite Hw, Hun, take_ge by (rewrite length_drop; lia). by rewrite <-app_assoc.
  - eexists 0, _, k'. split; [reflexivity|]. split; [|split; [|by auto]].
    + split; [cbn; lia|]. split; [by constructor|]. cbn. lia.
    + unfold unsent at 1. cbn [set_sent send_pos send_queue]. change (mjoin (d :: q)) with (d ++ mjoin q). rewrite drop_app_le by lia. rewrite Hw, Hun, <-!app_assoc. f_equal. rewrite app_assoc. f_equal.
      replace (Z.to_nat (send_pos s + r)) with (Z.to_nat (send_pos s) + Z.to_nat r)%nat by lia. rewrite <-drop_drop. apply take_drop.
Qed.

(** *** A connection without events *)

Context (do_msg : ws_packet_t -> list Z -> sender -> K -> Z * sender * K) (poll : Z -> Z -> sender -> K -> Z * Z * sender * K) (server_to_stop : K -> Z)
  (do_new : option (sender -> K -> Z * sender * K)) (do_close : option (sender -> K -> K)) (max_idle_time : Z) (recv : Z -> Z -> K -> Z * list Z * K)
  (clock : K -> Z) (later : Z -> K -> K).

(** Nothing happens: a poll of t milliseconds waits for all of them, by the clock of the
    rest of the state, and finds no event; the server is not stopped. *)
Record nothing_happens : Prop := {
  poll_waits : forall events t s k, poll events t s k = (0, 0, s, later t k);
  time_passes : forall t k, clock (later t k) = clock k + t;
  server_runs : forall k, server_to_stop k = 0;
}.

Lemma idle_rounds (quiet : nothing_happens) fuel ws (n : nat) : forall idle k,
  to_close (out ws) = 0 -> 0 <= idle -> 0 < Z.of_nat n -> idle + Z.of_nat n = max_idle_time * 100 -> max_idle_time * 1000 < 2 ^ 31 ->
  main_loop send errno do_msg poll server_to_stop max_idle_time recv n fuel 0 idle ws k = Done (ws, Nat.iter n (later 10) k).
Proof.
  destruct quiet as [Hpoll _ Hstop]. induction n as [|n IH]; intros idle k Hc Hi Hn Hsum Hmax; [lia|]. cbn [main_loop]. rewrite Hstop. cbn [Z.eqb negb].
  unfold main_body. rewrite Hc. cbn [Z.eqb negb andb]. rewrite Hpoll. cbn [Z.ltb Z.compare].
  assert (Hws : set_out (out ws) ws = ws) by (by destruct ws). rewrite Hws.
  rewrite !bool_decide_eq_true_2 by (unfold in_s; lia). cbn [andb]. destruct (Z.leb_spec (max_idle_time * 1000) ((idle + 1) * 10)) as [Hend|Hmore].
  - assert (n = 0%nat) as -> by lia. by rewrite outcome_bind_ret.
  - rewrite outcome_bind_ret. rewrite IH by lia. by rewrite Nat.iter_succ_r.
Qed.

Lemma rounds_take (quiet : nothing_happens) t (n : nat) k : clock (Nat.iter n (later t) k) = clock k + Z.of_nat n * t.
Proof. destruct quiet as [_ Htime _]. induction n as [|n IH]; [cbn; lia|]. rewrite Nat.iter_succ, Htime, IH. lia. Qed.

(** C7: a connection that do_new accepts and on which nothing happens is closed after
    max_idle_time seconds: the loop of do_main is left after max_idle_time * 100 polls of 10 milliseconds, when
    the clock is max_idle_time * 1000 milliseconds ahead, and then the callback do_close
    runs once. *)
Theorem idle_connection_closes (quiet : nothing_happens) fuel ws k s1 k1 :
  1 <= max_idle_time -> max_idle_time * 1000 < 2 ^ 31 -> to_close s1 = 0 ->
  match do_new with Some f => f (out ws) k | None => (0, out ws, k) end = (0, s1, k1) ->
  let k' := Nat.iter (Z.to_nat (max_idle_time * 100)) (later 10) k1 in
  clock k' = clock k1 + max_idle_time * 1000 /\
  do_main send errno do_msg poll server_to_stop do_new do_close max_idle_time recv (Z.to_nat (max_idle_time * 100)) fuel ws k =
  Done (0, set_out s1 ws, match do_close with Some f => f s1 k' | None => k' end).
Proof.
  intros Hidle Hmax Hc Hnew k'. split; [unfold k'; rewrite (rounds_take quiet); lia|]. unfold do_main. rewrite Hnew. cbn [Z.eqb negb]. rewrite (idle_rounds quiet) by (cbn; lia || done). by rewrite outcome_bind_ret.
Qed.

(** *** The handshake *)

Lemma stored_lookup (mem : memory) (l : list Z) p (i : nat) b : stored mem p l -> l !! i = Some b -> mem (p + Z.of_nat i) = b.
Proof.
  revert p i. induction l as [|c l IH]; intros p i; [done|]. intros [Hc Hl]. destruct i as [|i]; cbn [lookup list_lookup]; [intros [= <-]; by rewrite Z.add_0_r|].
  intros E. rewrite <-(IH _ _ Hl E). f_equal. lia.
Qed.

Lemma map_stored (mem : memory) (l : list Z) p : stored mem p l -> ((fun i => mem (p + Z.of_nat i)) <$> seq 0 (length l)) = l.
Proof.
  intros Hl. apply list_eq. intros i. rewrite list_lookup_fmap. destruct (l !! i) as [b|] eqn:E.
  - rewrite lookup_seq_lt by (by eapply lookup_lt_Some). cbn. f_equal. by eapply stored_lookup.
  - apply lookup_ge_None in E. by rewrite lookup_seq_ge by done.
Qed.

Lemma stored_nth (l : list Z) : forall pre, stored (fun q => nth (Z.to_nat q) (pre ++ l) 0) (Z.of_nat (length pre)) l.
Proof.
  induction l as [|b l IH]; intros pre; cbn [stored]; [done|]. split; [by rewrite Nat2Z.id, app_nth2, Nat.sub_diag by lia|].
  rewrite app_cons_snoc. replace (Z.of_nat (length pre) + 1) with (Z.of_nat (length (pre ++ [b]))) by (rewrite length_app; cbn; lia). apply IH.
Qed.

Context (sha1 : list Z -> list Z) (sec_websocket_key : list Z).

(** A digest is 20 bytes. *)
Definition digests : Prop := forall l, length (sha1 l) = 20%nat /\ Forall (in_u 8) (sha1 l).

(** The handshake answers with the digest of the key and the number of the protocol,
    in base64, and goes on to the loop when all of it was sent. *)
Theorem handshake_answers (digest : digests) n fuel ws k :
  let rsp := handshake_rsp_1 ++ b64 (sha1 (sec_websocket_key ++ g_ws_magic_num)) ++ crlf ++ crlf in
  let '(ret, k') := send 0 rsp k in
  do_handshake send errno do_msg poll server_to_stop do_new do_close max_idle_time recv sha1 sec_websocket_key n fuel ws k =
  if ret <? Z.of_nat (length rsp) then Done (-2, ws, k')
  else r ← do_main send errno do_msg poll server_to_stop do_new do_close max_idle_time recv n fuel ws k'; Done (0, r.1.2, r.2).
Proof.
  intros rsp. unfold do_handshake. assert (Ek : server_key sha1 sec_websocket_key = Done (b64 (sha1 (sec_websocket_key ++ g_ws_magic_num)))).
  { unfold server_key. set (d := sha1 _). destruct (digest (sec_websocket_key ++ g_ws_magic_num)) as [Hlen Hb]. fold d in Hlen, Hb.
    destruct (base64_encode_spec 0 20 32 (fun q => nth (Z.to_nat q) d 0) d) as (mem' & E & Hl & Hs & _).
    - intros q. cbn beta. destruct (decide (Z.to_nat q < length d)%nat) as [Hq|Hq]; [|rewrite nth_overflow by lia; by split].
      rewrite Forall_forall in Hb. apply Hb. apply list_elem_of_In, nth_In, Hq.
    - apply (stored_nth d []).
    - by rewrite Hlen.
    - right. lia.
    - rewrite E, outcome_bind_ret. cbn [snd]. apply stored_app in Hs as [Hs _]. f_equal. pose proof (map_stored mem' _ 32 Hs) as Hm.
      change (4 * ((20 + 2) / 3)) with 28 in Hl. by replace (length (b64 d)) with 28%nat in Hm by lia. }
  rewrite Ek, outcome_bind_ret. fold rsp. by destruct (send 0 rsp k) as [ret k'].
Qed.
End life.

(** ** Examples *)
Section examples.

(** A callback that keeps the messages. *)
Definition log_msg (h : ws_packet_head_t) (m : list Z) (s : sender) (k : list (list Z)) : Z * sender * list (list Z) := (0, s, k ++ [m]).
Definition log_packet (p : ws_packet_t) (mem : list Z) (s : sender) (k : list (list Z)) : Z * sender * list (list Z) :=
  match load_bytes mem (payload_data p) (Z.to_nat (payload_len p)) with Done m => log_msg (head p) m s k | _ => (0, s, k) end.
Definition no_errno (k : list (list Z)) : Z := 0.

Lemma log_msg_only : msg_only log_packet log_msg.
Proof. intros p mem m s k Hm Hl. unfold log_packet. by rewrite Hl, Nat2Z.id, Hm. Qed.

Definition hi : frame := message_frame [104; 105] 0x01020304 true.
Definition ping : frame := Frame (Head 9 0 1 0 0) 0 [].

Example hi_bytes : encode_frame hi = [129; 130; 4; 3; 2; 1; 108; 106].
Proof. reflexivity. Qed.

Lemma hi_ok : frame_ok hi.
Proof. apply message_frame_ok; done. Qed.
Lemma ping_ok : frame_ok ping.
Proof. split; [split; cbn; lia|done|reflexivity|reflexivity]. Qed.

Example drive_hi : exists ws, drive no_errno log_packet 20 [[129]; [130; 4; 3]; [2; 1; 108; 106; 137; 0; 129]] (new_conn (replicate 16 0)) [] = Done ([], ws, [[104; 105]])
  /\ send_queue (out ws) = [[138; 0; 4; 3; 2; 1]].
Proof. eexists. split; [vm_compute; reflexivity|reflexivity]. Qed.

Lemma frames_delivered_witness :
  exists got rest fs1 fs2 ws' key' k', [[129]; [130; 4; 3]; [2; 1; 108; 106; 137; 0]] = got ++ rest /\ [hi; ping] = fs1 ++ fs2 /\
    drive no_errno log_packet 20 [[129]; [130; 4; 3]; [2; 1; 108; 106; 137; 0]] (new_conn (replicate 16 0)) [] = Done (rest, ws', k') /\
    foldl (handle log_msg) (0, Sender 0 [] 0 1, []) fs1 = (key', out ws', k').
Proof.
  destruct (frames_delivered no_errno log_packet log_msg log_msg_only 20 [[129]; [130; 4; 3]; [2; 1; 108; 106; 137; 0]] [hi; ping] [] (replicate 16 0) [])
    as (got & rest & fs1 & fs2 & ws' & key' & k' & H1 & H2 & H3 & H4 & _).
  - constructor; [apply hi_ok|constructor; [apply ping_ok|constructor]].
  - reflexivity.
  - reflexivity.
  - repeat (constructor; [discriminate|]). constructor.
  - apply short_good_cuts. repeat constructor.
  - reflexivity.
  - exists got, rest, fs1, fs2, ws', key', k'. auto.
Defined.

(** A frame with an extended length of two bytes, cut behind the first. *)
Definition long_frame : frame := message_frame (replicate 200 65) 0 false.

Lemma split_length_hangs_witness : forall fuel, do_read no_errno log_packet (chunk [130; 126; 0]) fuel (new_conn (replicate 300 0)) [] = NoFuel.
Proof.
  intros fuel. apply (split_length_hangs no_errno log_packet (chunk [130; 126; 0]) _ (Sender 0 [] 0 1) (Head 0 0 0 0 0) 0 0 long_frame [130; 126; 0] (200 :: replicate 200 65) 300 [] []).
  - apply message_frame_ok; done.
  - apply (new_conn_at (replicate 300 0)).
  - reflexivity.
  - unfold cut_in_length. vm_compute. lia.
  - reflexivity.
  - vm_compute. split; [reflexivity|discriminate].
Defined.

Lemma huge_length_faults_witness :
  do_read no_errno log_packet (chunk ([129; 255; 128; 0; 0; 0; 0; 0; 0; 0] ++ [1; 2; 3; 4] ++ [5])) 5 (new_conn (replicate 64 0)) [] = Fault.
Proof.
  apply (huge_length_faults no_errno log_packet (chunk _) 4 _ (Sender 0 [] 0 1) (Head 0 0 0 0 0) 0 0 (Head 1 0 1 127 1) (2 ^ 63) 0x04030201 [5] 64 [] []).
  - apply (new_conn_at (replicate 64 0)).
  - reflexivity.
  - split; cbn; lia.
  - reflexivity.
  - reflexivity.
  - reflexivity.
  - discriminate.
  - discriminate.
  - lia.
  - done.
  - reflexivity.
  - vm_compute. discriminate.
Defined.

Lemma message_roundtrip_witness :
  do_rsp_with_mask [104; 105] 2 0x01020304 true (Sender 0 [] 0 1) = Done (0, [108; 106], Sender 0 [[129; 130; 4; 3; 2; 1; 108; 106]] 0 1) /\
  exists ws', do_read no_errno log_packet (chunk [129; 130; 4; 3; 2; 1; 108; 106]) 100 (new_conn (replicate 64 0)) [] = Done (1, ws', [[104; 105]]).
Proof.
  destruct (message_roundtrip no_errno log_packet log_msg log_msg_only [104; 105] 0x01020304 true (Sender 0 [] 0 1) (replicate 64 0) [] 100) as [H1 (ws' & H2 & _)].
  - discriminate.
  - done.
  - split; vm_compute; [discriminate|reflexivity].
  - reflexivity.
  - split; [exact H1|by exists ws'].
Defined.

Lemma long_length_wrong_witness : be_word (rsp_length 70000) = 70000 * 2 ^ 32.
Proof. apply (long_length_wrong 70000). lia. Defined.

(** A send that takes two bytes at a time. *)
Definition two_bytes (flags : Z) (l : list Z) (k : list Z) : Z * list Z := (Z.of_nat (length (take 2 l)), k ++ take 2 l).

Lemma two_bytes_sends : sends two_bytes id.
Proof.
  intros flags l k. cbn [two_bytes]. split; [rewrite length_take; lia|]. rewrite (proj2 (Z.ltb_ge _ 0)) by lia. unfold id. f_equal.
  rewrite Nat2Z.id, length_take. destruct (decide (2 <= length l)%nat); [by replace (2 `min` length l)%nat with 2%nat by lia|]. rewrite !take_ge by lia. done.
Qed.

Lemma do_write_in_order_witness : exists ret s' k', do_write two_bytes (fun _ => 0) (Sender 0 [[1; 2; 3]; [4]] 0 1) [] = Done (ret, s', k') /\ k' ++ unsent s' = [1; 2; 3; 4].
Proof.
  destruct (do_write_in_order two_bytes (fun _ => 0) id two_bytes_sends (Sender 0 [[1; 2; 3]; [4]] 0 1) []) as (ret & s' & k' & H1 & _ & H2 & _).
  - split; [done|]. split; [repeat constructor|done].
  - by exists ret, s', k'.
Defined.

(** The state is the list of what happened: Inl t for a poll of t milliseconds, Inr for
    a callback; a poll that waits adds its time to the clock, the sum of the numbers. *)
Definition wait_log (events t : Z) (s : sender) (k : list (Z + unit)) : Z * Z * sender * list (Z + unit) := (0, 0, s, k ++ [inl t]).
Definition log_clock (k : list (Z + unit)) : Z := foldr (fun x t => match x with inl d => d + t | inr _ => t end) 0 k.

Lemma log_clock_later t k : log_clock (k ++ [inl t]) = log_clock k + t.
Proof. induction k as [|[d|u] k IH]; cbn [app log_clock foldr] in *; [lia| |done]. fold (log_clock (k ++ [inl t])) (log_clock k). rewrite IH. lia. Qed.

Lemma wait_log_quiet : nothing_happens wait_log (fun _ => 0) log_clock (fun t k => k ++ [inl t]).
Proof. split; [done|apply log_clock_later|done]. Qed.

(** A connection with a limit of one second: a hundred polls, a second by the clock, and
    one call of do_close. *)
Lemma idle_connection_closes_witness :
  log_clock (replicate 100 (inl 10)) = 1000 /\
  do_main (fun _ _ k => (0, k)) (fun _ => 0) (fun _ _ s k => (0, s, k)) wait_log (fun _ => 0) None (Some (fun _ k => k ++ [inr tt])) 1 (fun _ _ k => (0, [], k)) 100 5 (new_conn [0]) [] =
  Done (0, new_conn [0], replicate 100 (inl 10) ++ [inr tt]).
Proof.
  apply (idle_connection_closes (fun _ _ k => (0, k)) (fun _ => 0) (fun _ _ s k => (0, s, k)) wait_log (fun _ => 0) None (Some (fun _ k => k ++ [inr tt])) 1 (fun _ _ k => (0, [], k)) log_clock (fun t k => k ++ [inl t])
    wait_log_quiet 5 (new_conn [0]) [] (Sender 0 [] 0 1) []); done || lia.
Defined.

Lemma handshake_answers_witness :
  do_handshake (fun _ _ k => (10, k)) (fun _ => 0) (fun _ _ s k => (0, s, k)) (fun _ _ s k => (0, 0, s, k)) (fun _ => 0) None None 1 (fun _ _ k => (0, [], k)) (fun _ => replicate 20 0) [] 0 0 (new_conn []) ([] : list Z)
  = Done (-2, new_conn [], []).
Proof.
  apply (handshake_answers (fun _ _ k => (10, k)) (fun _ => 0) (fun _ _ s k => (0, s, k)) (fun _ _ s k => (0, 0, s, k)) (fun _ => 0) None None 1 (fun _ _ k => (0, [], k)) (fun _ => replicate 20 0) []
    ltac:(intros l; split; [reflexivity|by apply Forall_replicate]) 0 0 (new_conn []) []).
Defined.

(** Frames of one byte: the buffer fills up in the head of the second, although nothing
    but consumed frames is in it, and the connection is closed. *)
Example small_frames_close : exists ws, drive no_errno log_packet 20 [[129; 129; 4; 3; 2; 1; 108]; [129]] (new_conn (replicate 8 0)) [] = Done ([], ws, [[104]]) /\
  do_read no_errno log_packet (chunk [129]) 20 ws [] = Done (-1, ws, []).
Proof. eexists. split; [vm_compute; reflexivity|vm_compute; reflexivity]. Qed.
End examples.
