(* ===== verification/HttpServer.v ===== *)
(** * svrkit/src/http_server.cpp: the HTTP server

    A connection receives into one buffer of twice max_packet_size; the generated parser
    works on the unparsed part of it, a command is looked up by the path, and its
    response goes out with one writev.  [http_request_parse] is the function around the
    code that ragel generates, which is a parameter, like the socket and the commands.
    base/string_builder.h, with which the head of a response is built, is here too.
    Pointers into the buffer are offsets. *)
From Stdlib Require Import String.
From stdpp Require Import gmap.
From S2P Require Import Prelude Words Memory Base64 Pbc RpcServer PacketStream WebSocket.

(** ** base/string_builder.h *)
Module StringBuilder.

(** [m_buff] has init_size bytes; m_len is -1 once the bytes are in [m_str]. *)
Record t := Builder { m_buff : list Z; m_str : list Z; m_len : Z }.
Implicit Types (b : t) (l : list Z).

Definition init_size b : Z := Z.of_nat (length (m_buff b)).
Definition new (mem : list Z) : t := Builder mem [] 0.

Definition append l b : outcome t :=
  let new_len := m_len b + Z.of_nat (length l) in
  if 0 <=? m_len b then
    if new_len <=? init_size b then
      o ← store_bytes (m_buff b) (m_len b) l; Done (Builder o (m_str b) new_len)
    else Done (Builder (m_buff b) (m_str b ++ m_buff b ++ l) (-1))
  else Done (Builder (m_buff b) (m_str b ++ l) (m_len b)).

Definition append_ch (c : Z) b : outcome t :=
  if 0 <=? m_len b then
    if m_len b <? init_size b then
      o ← store_bytes (m_buff b) (m_len b) [c]; Done (Builder o (m_str b) (m_len b + 1))
    else Done (Builder (m_buff b) ((m_str b ++ m_buff b) ++ [c]) (-1))
  else Done (Builder (m_buff b) (m_str b ++ [c]) (m_len b)).

(** append(unsigned int): the digits are written from the end of a buffer of 20. *)
Fixpoint digits (fuel : nat) (n : Z) (l : list Z) : list Z :=
  match fuel with
  | O => l
  | S fuel => let l := 48 + n mod 10 :: l in if 0 <? n / 10 then digits fuel (n / 10) l else l
  end.
Definition append_uint (n : Z) b : outcome t := append (digits 10 n []) b.

Definition data b : list Z := if 0 <=? m_len b then m_buff b else m_str b.
Definition size b : Z := if 0 <=? m_len b then m_len b else Z.of_nat (length (m_str b)).
Definition contents b : list Z := take (Z.to_nat (size b)) (data b).
End StringBuilder.

(** ** The wrapper of the generated parser, in base/src/http_parser.rl *)

(** The fields of http_request_t that this code uses; rest_data is an offset into the
    buffer of the connection, and a string is its bytes. *)
Record http_request_t := Request {
  status : Z; nread : Z; headers_num : Z; err_too_many_header : Z; content_length : Z; connection : Z; websocket : Z;
  path : list Z; sec_key : list Z; rest_data : Z; rest_len : Z }.
Implicit Types r : http_request_t.

Definition set_parsed (st n hn : Z) r : http_request_t := Request st n hn (err_too_many_header r) (content_length r) (connection r) (websocket r) (path r) (sec_key r) (rest_data r) (rest_len r).
Definition set_rest (d n : Z) r : http_request_t := Request (status r) (nread r) (headers_num r) (err_too_many_header r) (content_length r) (connection r) (websocket r) (path r) (sec_key r) d n.

Section parser.
(** The generated code: the start, the first final and the error state, and the run
    over some bytes, with the number of bytes that it took. *)
Context (http_request_start http_request_first_final http_request_error : Z) (exec : http_request_t -> list Z -> http_request_t * Z).

Definition http_request_init r : http_request_t := set_parsed http_request_start 0 0 r.

(** The result is a size_t. *)
Definition http_request_parse r (buffer : list Z) (off : Z) : Z * http_request_t :=
  if Z.of_nat (length buffer) <? u64 off then (2 ^ 64 - 1, r)
  else
    let '(r, n) := exec r (drop (Z.to_nat off) buffer) in
    let r := set_parsed (status r) (u64 (nread r + n)) (headers_num r) r in (nread r, r).

Definition http_request_has_error r : bool := (status r =? http_request_error) || negb (err_too_many_header r =? 0).
Definition http_request_is_finished r : bool := http_request_first_final <=? status r.
Definition http_request_finish r : Z :=
  if http_request_has_error r then -1 else if http_request_is_finished r then 1 else 0.

(** ** Responses *)
Section server.
Context {K : Type}.
Implicit Types k : K.

(** [rdata] is data with its data_len, or NULL. *)
Record http_response_t := Response { http_code : Z; keepalive : Z; headers : list (list Z); body : list Z; rdata : option (list Z) }.
Implicit Types resp : http_response_t.

Definition init_http_response : http_response_t := Response 200 0 [] [] None.
Definition response_to (code : Z) (b : list Z) resp : http_response_t := Response code (keepalive resp) (headers resp) b (rdata resp).
Definition set_keepalive (n : Z) resp : http_response_t := Response (http_code resp) n (headers resp) (body resp) (rdata resp).

(** What vsnprintf leaves in a buffer of [size] bytes, when the text is [l]. *)
Definition vsnprintf (size : Z) (l : list Z) : list Z := take (Z.to_nat (size - 1)) l ++ [0].
Definition response_format (code : Z) (l : list Z) resp : http_response_t :=
  let nlen := Z.of_nat (length l) in
  let p := if 1024 <? nlen then vsnprintf nlen l else vsnprintf 1024 l in
  response_to code (take (Z.to_nat nlen) p) resp.

Definition s_http_200_ok_keepalive : list Z := text "HTTP/1.1 200" ++ crlf ++ text "Connection: keep-alive" ++ crlf.
Definition s_http_200_ok_close : list Z := text "HTTP/1.1 200" ++ crlf ++ text "Connection: close" ++ crlf.
Definition s_content_len_name : list Z := text "Content-Length: ".

(** The %d of snprintf. *)
Definition decimal (n : Z) : list Z := if n <? 0 then 45 :: StringBuilder.digits 20 (- n) [] else StringBuilder.digits 20 n [].

(** writev of two buffers. *)
Context (writev : list Z -> list Z -> K -> Z * K).

Definition output_response resp (stack : list Z) k : outcome (Z * K) :=
  let out := StringBuilder.new stack in
  out ← (if http_code resp =? 200 then StringBuilder.append (if keepalive resp =? 0 then s_http_200_ok_close else s_http_200_ok_keepalive) out
         else StringBuilder.append (text "HTTP/1.1 " ++ decimal (http_code resp) ++ crlf) out);
  out ← foldl (fun o h => out ← o; out ← StringBuilder.append h out; StringBuilder.append crlf out) (Done out) (headers resp);
  let data := default (body resp) (rdata resp) in
  out ← StringBuilder.append s_content_len_name out;
  out ← StringBuilder.append_uint (u32 (Z.of_nat (length data))) out;
  out ← StringBuilder.append (crlf ++ crlf) out;
  Done (writev (StringBuilder.contents out) data k).

(** ** Commands *)

(** A command gets the request, the buffer and the response; it gives its result, what
    it set to_close of the context to, and the response. *)
Definition http_callback : Type := http_request_t -> list Z -> http_response_t -> K -> Z * Z * http_response_t * K.

Record http_server_t := Server {
  cmd_maps : gmap (list Z) http_callback; default_cmd : option http_callback;
  enable_keepalive : bool; enable_websocket : bool; enable_client_close : bool; websocket_max_packet_size : Z; websocket_max_idle_time : Z }.
Implicit Types srv : http_server_t.

(** The constructor; the masking key is not used here. *)
Definition new_server : http_server_t := Server ∅ None false false false (200 * 1024) 60.

Definition get_http_cmd srv (name : list Z) : option http_callback :=
  match cmd_maps srv !! name with None => default_cmd srv | Some c => Some c end.

Definition set_cmds (m : gmap (list Z) http_callback) (d : option http_callback) srv : http_server_t :=
  Server m d (enable_keepalive srv) (enable_websocket srv) (enable_client_close srv) (websocket_max_packet_size srv) (websocket_max_idle_time srv).

Definition registry_default_cmd (c : http_callback) srv : Z * http_server_t := (0, set_cmds (cmd_maps srv) (Some c) srv).
Definition registry_cmd (name : list Z) (c : http_callback) srv : Z * http_server_t :=
  match cmd_maps srv !! name with Some _ => (-1, srv) | None => (0, set_cmds (<[name := c]> (cmd_maps srv)) (default_cmd srv) srv) end.

Definition CONNECTION_KEEPALIVE : Z := 1.

Definition http_server_main srv r (buf stack : list Z) k : outcome (Z * K) :=
  let resp := if (connection r =? CONNECTION_KEEPALIVE) && enable_keepalive srv then set_keepalive 1 init_http_response else init_http_response in
  let '(to_close, resp, k) :=
    match get_http_cmd srv (path r) with
    | None => (1, response_to 404 [] (set_keepalive 0 resp), k)
    | Some proc => let '(ret, to_close, resp, k) := proc r buf resp k in (if ret =? 0 then to_close else 1, resp, k)
    end in
  w ← output_response resp stack k;
  let '(ret, k) := w in
  if ret <=? 0 then Done (-1, k)
  else if negb (enable_client_close srv) && ((keepalive resp =? 0) || negb (to_close =? 0)) then Done (1, k) else Done (0, k).

(** ** A connection *)

(** recv, send and errno; to_stop of the TCP server. *)
Context (recv : Z -> Z -> K -> Z * list Z * K) (send : Z -> list Z -> K -> Z * K) (errno : K -> Z) (to_stop : K -> Z).

(** What a web socket needs besides: see WebSocket.v; [ws_mem] is the memory that new
    returns for its buffer, and the two numbers bound the rounds of its loops. *)
Context (do_msg : ws_packet_t -> list Z -> sender -> K -> Z * sender * K) (poll : Z -> Z -> sender -> K -> Z * Z * sender * K) (ws_to_stop : K -> Z)
  (do_new : option (sender -> K -> Z * sender * K)) (do_close : option (sender -> K -> K)) (sha1 : list Z -> list Z) (ws_mem : Z -> list Z) (ws_rounds ws_fuel : nat).

Definition unsupport_txt : list Z :=
  text "HTTP/1.1 404" ++ crlf ++ text "Connection: close" ++ crlf ++ text "Contente-Length: 0" ++ crlf ++ crlf.

Definition ws_main srv r k : outcome (Z * K) :=
  if negb (enable_websocket srv) then let '(_, k) := send 0 unsupport_txt k in Done (1, k)
  else
    w ← do_handshake send errno do_msg poll ws_to_stop do_new do_close (websocket_max_idle_time srv) recv sha1 (sec_key r) ws_rounds ws_fuel
      (new_conn (ws_mem (websocket_max_packet_size srv))) k;
    Done (1, w.2).

(** The variables of conn_proc. *)
Record conn := Conn { buf : list Z; parse_p : Z; recv_p : Z; recv_len : Z; nparsed : Z; req : http_request_t }.
Implicit Types c : conn.

Definition EAGAIN : Z := 11.
Definition ETIMEDOUT : Z := 110.
Definition ECONNRESET : Z := 104.

(** What a round does: go on with the result [ret], which ends the loop when it is not
    0, or leave the loop. *)
Inductive turn := Continue (ret : Z) (c : conn) (k : K) | Quit (ret : Z) (c : conn) (k : K).

(** The lines that receive; [inr] is a continue or a break. *)
Definition receive c k : outcome ((conn * K) + turn) :=
  if (0 <? recv_len c) && (nparsed c =? 0) then Done (inl (c, k))
  else
    let len := Z.of_nat (length (buf c)) in
    if len - recv_len c <=? 0 then Done (inr (Quit (-2) c k))
    else
      let '(recved, l, k) := recv 0 (len - recv_len c) k in
      if recved =? 0 then Done (inr (Quit (if nparsed c =? 0 then 0 else -2) c k))
      else if recved <? 0 then
        let e := errno k in
        if (e =? EAGAIN) || (e =? EINTR) then Done (inr (Continue 0 c k))
        else if (e =? ETIMEDOUT) || (e =? ECONNRESET) then Done (inr (Quit 0 c k))
        else Done (inr (Quit (-2) c k))
      else
        o ← store_bytes (buf c) (recv_p c) l;
        Done (inl (Conn o (parse_p c) (recv_p c + recved) (i32 (recv_len c + recved)) (nparsed c) (req c), k)).

(** The lines behind a served request. *)
Definition next_request (max_packet_size : Z) c : outcome conn :=
  let parse_p' := parse_p c + i64 (u64 (nparsed c + content_length (req c))) in
  if recv_p c - parse_p' <=? 0 then Done (Conn (buf c) 0 0 0 0 (req c))
  else if max_packet_size <? parse_p' then
    let n := i32 (recv_p c - parse_p') in
    l ← load_bytes (buf c) parse_p' (Z.to_nat n); o ← store_bytes (buf c) 0 l;
    Done (Conn o 0 n n 0 (req c))
  else Done (Conn (buf c) parse_p' (recv_p c) (recv_len c) 0 (req c)).

(** The lines from the parser on. *)
Definition parse_turn srv (max_packet_size : Z) (stack : list Z) c k : outcome turn :=
  let endp := recv_p c - parse_p c in
  if endp <? 0 then Fault
  else
    bytes ← load_bytes (buf c) (parse_p c) (Z.to_nat endp);
    let r := if nparsed c =? 0 then http_request_init (req c) else req c in
    let '(n, r) := http_request_parse r bytes (nparsed c) in
    let nparsed := i64 (u64 (nparsed c + n)) in
    let ret := http_request_finish r in
    let c := Conn (buf c) (parse_p c) (recv_p c) (recv_len c) nparsed r in
    if ret =? 0 then Done (Continue 0 c k)
    else if negb (ret =? 1) then Done (Quit (-1) c k)
    else
      let r := set_rest (parse_p c + nparsed) (u64 (endp - nparsed)) r in
      let c := Conn (buf c) (parse_p c) (recv_p c) (recv_len c) nparsed r in
      if websocket r =? 1 then w ← ws_main srv r k; Done (Continue w.1 c w.2)
      else
        w ← http_server_main srv r (buf c) stack k;
        if negb (w.1 =? 0) then Done (Quit w.1 c w.2)
        else c ← next_request max_packet_size c; Done (Continue 0 c w.2).

Definition conn_turn srv (max_packet_size : Z) (stack : list Z) c k : outcome turn :=
  got ← receive c k;
  match got with inr t => Done t | inl (c, k) => parse_turn srv max_packet_size stack c k end.

(** The loop of conn_proc. *)
Fixpoint conn_loop (fuel : nat) srv (max_packet_size : Z) (stack : list Z) c k : outcome (Z * K) :=
  if negb (to_stop k =? 0) then Done (0, k)
  else
    match fuel with
    | O => NoFuel
    | S fuel =>
        t ← conn_turn srv max_packet_size stack c k;
        match t with
        | Continue ret c k => if ret =? 0 then conn_loop fuel srv max_packet_size stack c k else Done (ret, k)
        | Quit ret _ k => Done (ret, k)
        end
    end.

(** conn_proc; [mem] is what aligned_alloc returned, and [r] what is on the stack where
    req is. *)
Definition conn_proc (fuel : nat) srv (max_packet_size : Z) (stack mem : list Z) r k : outcome (Z * K) :=
  conn_loop fuel srv max_packet_size stack (Conn mem 0 0 0 0 r) k.

(** ** Requests *)

(** What a command sees of a parsed head: the path, content_length and connection.  No
    field is reset between two requests of a connection, and each is set by a part of a
    head that may be missing: the path of the request line (there is none in the request
    of an asterisk), a Content-Length header, and a Connection header whose value starts
    with K or k, the only one that counts. *)
Record view := View { v_path : list Z; v_length : Z; v_connection : Z }.
Implicit Types v : view.
Definition view_of r : view := View (path r) (content_length r) (connection r).

Record head_fields := Fields { f_path : option (list Z); f_length : option Z; f_keep : bool }.
Implicit Types f : head_fields.
Definition see f v : view :=
  View (default (v_path v) (f_path f)) (default (v_length v) (f_length f)) (if f_keep f then CONNECTION_KEEPALIVE else v_connection v).

(** A request on the wire, and what the parser makes of its head. *)
Record request := Req { q_head : list Z; q_body : list Z; q_effect : http_request_t -> http_request_t; q_fields : head_fields }.
Implicit Types (q : request) (qs : list request).

Definition q_bytes q : list Z := q_head q ++ q_body q.
Definition wire qs : list Z := qs ≫= q_bytes.

(** No head had too many headers or asked for a web socket: nothing resets these two. *)
Definition clean r : Prop := err_too_many_header r = 0 /\ websocket r = 0.

(** ragel's machine stops behind the head, leaves the rest alone, and sets the fields that
    the head has, and no other. *)
Record head_ok (h : list Z) (effect : http_request_t -> http_request_t) f : Prop := HeadOk {
  head_some : h <> [];
  head_parsed : forall r rest, clean r -> status r = http_request_start -> exec r (h ++ rest) = (effect r, Z.of_nat (length h));
  head_final : forall r, clean r -> status r = http_request_start -> let r' := effect r in
    clean r' /\ http_request_first_final <= status r' /\ status r' <> http_request_error /\ nread r' = nread r /\
    view_of r' = see f (view_of r) }.

Definition request_ok q : Prop := head_ok (q_head q) (q_effect q) (q_fields q).

(** The lengths fit: content_length, as the heads up to a request leave it, is the length
    of the body of the request. *)
Fixpoint lengths_fit qs v : Prop :=
  match qs with
  | [] => True
  | q :: qs => let v := see (q_fields q) v in v_length v = Z.of_nat (length (q_body q)) /\ lengths_fit qs v
  end.
Definition views qs v : view := foldl (fun v q => see (q_fields q) v) v qs.

Context (srv : http_server_t) (max_packet_size : Z) (stack : list Z) (on_request : list Z -> Z -> list Z -> K -> Z * K).

(** The server looks at the path, the kind of connection and the body. *)
Definition server_only : Prop := forall r (mem : list Z) b k,
  load_bytes mem (rest_data r) (length b) = Done b -> content_length r = Z.of_nat (length b) ->
  http_server_main srv r mem stack k = Done (on_request (path r) (connection r) b k).

(** All requests in order, until one of them ends the connection; [v] is what the request
    before left. *)
Fixpoint serve qs v k : Z * K :=
  match qs with
  | [] => (0, k)
  | q :: qs =>
      let v := see (q_fields q) v in
      let '(ret, k) := on_request (v_path v) (v_connection v) (q_body q) k in if ret =? 0 then serve qs v k else (ret, k)
  end.

(** Between requests, with nothing received. *)
Definition at_start c (n : nat) : Prop :=
  parse_p c = 0 /\ recv_p c = 0 /\ recv_len c = 0 /\ nparsed c = 0 /\ clean (req c) /\ length (buf c) = n.

(** Between requests, with the bytes [l] received. *)
Definition at_bytes c (l : list Z) (n : nat) : Prop :=
  (exists pre post, buf c = pre ++ l ++ post /\ parse_p c = Z.of_nat (length pre)) /\
  recv_p c = parse_p c + Z.of_nat (length l) /\ recv_len c = recv_p c /\ nparsed c = 0 /\ clean (req c) /\ length (buf c) = n.

Lemma parsed_head h effect f (rest : list Z) r : head_ok h effect f -> clean r -> Z.of_nat (length h) < 2 ^ 62 ->
  exists r', http_request_parse (http_request_init r) (h ++ rest) 0 = (Z.of_nat (length h), r') /\ http_request_finish r' = 1 /\ clean r' /\
    view_of r' = see f (view_of r).
Proof.
  intros Hq Hr Hlen. unfold http_request_parse. rewrite (wrap_u_id 64 0) by (unfold in_u; lia). rewrite (proj2 (Z.ltb_ge _ 0)) by lia.
  change (drop (Z.to_nat 0) (h ++ rest)) with (h ++ rest).
  assert (Hr0 : clean (http_request_init r)) by exact Hr. rewrite (head_parsed _ _ _ Hq _ rest Hr0 eq_refl).
  destruct (head_final _ _ _ Hq _ Hr0 eq_refl) as (Hc & Hfin & Herr & Hn & Hview). set (r1 := effect _) in *. cbn in Hn.
  eexists. rewrite Hn, Z.add_0_l, wrap_u_id by (unfold in_u; lia). split; [reflexivity|]. split; [|by split; [exact Hc|]].
  unfold http_request_finish, http_request_has_error, http_request_is_finished. cbn. destruct Hc as [-> _]. by rewrite (proj2 (Z.eqb_neq _ _)), (proj2 (Z.leb_le _ _)).
Qed.

(** A turn whose bytes start with a head: the server is called with the rest behind it. *)
Lemma turn_parsed h effect f c (l : list Z) n k : head_ok h effect f -> at_bytes c (h ++ l) n -> Z.of_nat n < 2 ^ 31 ->
  exists r1, clean r1 /\ view_of r1 = see f (view_of (req c)) /\ rest_data r1 = parse_p c + Z.of_nat (length h) /\ rest_len r1 = Z.of_nat (length l) /\
    parse_turn srv max_packet_size stack c k =
      (w ← http_server_main srv r1 (buf c) stack k;
       if negb (w.1 =? 0) then Done (Quit w.1 (Conn (buf c) (parse_p c) (recv_p c) (recv_len c) (Z.of_nat (length h)) r1) w.2)
       else c ← next_request max_packet_size (Conn (buf c) (parse_p c) (recv_p c) (recv_len c) (Z.of_nat (length h)) r1); Done (Continue 0 c w.2)).
Proof.
  intros Hq ((pre & post & Hb & Hp) & Hr & Hrl & Hn & Hc & Hlen) Hsmall. pose proof Hlen as Hlen'. rewrite Hb, !length_app in Hlen'. rewrite length_app in Hr.
  unfold parse_turn. rewrite (proj2 (Z.ltb_ge _ 0)) by lia. replace (Z.to_nat (recv_p c - parse_p c)) with (length (h ++ l)) by (rewrite length_app; lia).
  rewrite Hb, Hp, load_piece, outcome_bind_ret, Hn. cbn [Z.eqb].
  destruct (parsed_head _ _ _ l (req c) Hq Hc ltac:(lia)) as (r' & E & Hfin & Hc' & Hview). rewrite E, Hfin, Z.add_0_l. cbn [Z.eqb Pos.eqb negb].
  rewrite (wrap_u_id 64), wrap_s_id by (unfold in_u, in_s; lia). set (r1 := set_rest _ _ r').
  assert (Ews : (websocket r1 =? 1) = false) by (cbn; by rewrite (proj2 Hc')). rewrite Ews. exists r1. split; [exact Hc'|]. split; [exact Hview|]. split; [done|]. split; [|done].
  cbn [r1 rest_len set_rest]. rewrite wrap_u_id by (unfold in_u; lia). lia.
Qed.

Lemma next_request_ok c (l : list Z) n : Z.of_nat n < 2 ^ 31 ->
  (exists pre post, buf c = pre ++ l ++ post /\ parse_p c + i64 (u64 (nparsed c + content_length (req c))) = Z.of_nat (length pre) /\
     recv_p c = Z.of_nat (length (pre ++ l))) ->
  recv_len c = recv_p c -> clean (req c) -> length (buf c) = n ->
  exists c', next_request max_packet_size c = Done c' /\ req c' = req c /\ (l = [] -> at_start c' n) /\ (l <> [] -> at_bytes c' l n).
Proof.
  intros Hn (pre & post & Hb & Hp & Hr) Hrl Hc Hlen. unfold next_request. rewrite length_app in Hr. rewrite Hp, Hr.
  pose proof Hlen as Hlen'. rewrite Hb, !length_app in Hlen'. destruct (Z.leb_spec (Z.of_nat (length pre + length l) - Z.of_nat (length pre)) 0) as [Hend|Hmore].
  { assert (l = []) as -> by (apply length_zero_iff_nil; lia). eexists. split; [reflexivity|]. split; [done|]. split; [|done]. intros _. repeat (split; [done|]). exact Hlen. }
  assert (Hl : l <> []) by (intros ->; cbn in Hmore; lia). destruct (max_packet_size <? _).
  - replace (Z.of_nat (length pre + length l) - Z.of_nat (length pre)) with (Z.of_nat (length l)) by lia. rewrite wrap_s_id by (unfold in_s; lia). rewrite Nat2Z.id, Hb, load_piece, outcome_bind_ret.
    rewrite (store_front l _ (length l)) by (rewrite ?length_app; lia). rewrite outcome_bind_ret. eexists. split; [reflexivity|]. split; [done|]. split; [done|]. intros _.
    split; [exists [], (drop (length l) (pre ++ l ++ post)); by split|]. cbn. repeat (split; [done || lia|]). rewrite length_app, length_drop, !length_app. lia.
  - eexists. split; [reflexivity|]. split; [done|]. split; [done|]. intros _. split; [exists pre, post; by split|]. cbn. repeat (split; [done || lia|]). exact Hlen.
Qed.

(** A request at the front of the bytes is served, and the next one is at the front. *)
Lemma turn_serves (only : server_only) q c (l : list Z) n k :
  let v := see (q_fields q) (view_of (req c)) in
  request_ok q -> v_length v = Z.of_nat (length (q_body q)) -> at_bytes c (q_bytes q ++ l) n -> Z.of_nat n < 2 ^ 31 ->
  let '(ret, k') := on_request (v_path v) (v_connection v) (q_body q) k in
  if ret =? 0 then exists c', parse_turn srv max_packet_size stack c k = Done (Continue 0 c' k') /\ view_of (req c') = v /\ (l = [] -> at_start c' n) /\ (l <> [] -> at_bytes c' l n)
  else exists c', parse_turn srv max_packet_size stack c k = Done (Quit ret c' k').
Proof.
  intros v Hq Hfit Hat Hsmall. unfold q_bytes in Hat. rewrite <-app_assoc in Hat. destruct (turn_parsed _ _ _ c (q_body q ++ l) n k Hq Hat Hsmall) as (r1 & Hc1 & Hview & Hdata & _ & E).
  destruct Hat as ((pre & post & Hb & Hp) & Hr & Hrl & Hn & Hc & Hlen). pose proof Hlen as Hlen'. rewrite Hb, !length_app in Hlen'. rewrite !length_app in Hr. fold v in Hview.
  assert (Hlength : content_length r1 = Z.of_nat (length (q_body q))) by (rewrite <-Hfit, <-Hview; done).
  rewrite E. clear E. rewrite (only r1 _ (q_body q)), outcome_bind_ret, <-Hview; [|rewrite Hdata, Hb, Hp|done].
  2:{ rewrite <-Nat2Z.inj_add, <-length_app, <-!app_assoc, app_assoc. apply load_piece. }
  cbn [v_path v_connection view_of]. destruct (on_request _ _ _ k) as [ret k']. cbn [fst snd]. destruct (ret =? 0); cbn [negb]; [|by eexists].
  set (c1 := Conn _ _ _ _ _ r1). destruct (next_request_ok c1 l n Hsmall) as (c' & E' & Hreq & H1 & H2); [|exact Hrl|exact Hc1|exact Hlen|].
  - exists (pre ++ q_head q ++ q_body q), post. cbn. rewrite Hlength, wrap_u_id, wrap_s_id by (unfold in_u, in_s; lia). rewrite Hb, <-!app_assoc, !length_app. split; [done|lia].
  - exists c'. rewrite E', outcome_bind_ret, Hreq. done.
Qed.

(** *** The loop *)

Definition running : Prop := forall k, to_stop k = 0.

Abbreviation loop fuel c k := (conn_loop fuel srv max_packet_size stack c k).

Lemma wire_some q qs : request_ok q -> (0 < length (wire (q :: qs)))%nat.
Proof. intros Hq. unfold wire. cbn. unfold q_bytes. rewrite !length_app. pose proof (head_some _ _ _ Hq). destruct (q_head q); [done|cbn; lia]. Qed.

Lemma bytes_served (run : running) (only : server_only) qs : forall c n fuel k,
  Forall request_ok qs -> lengths_fit qs (view_of (req c)) -> qs <> [] -> at_bytes c (wire qs) n -> Z.of_nat n < 2 ^ 31 ->
  let '(ret, k') := serve qs (view_of (req c)) k in
  if ret =? 0 then exists c', at_start c' n /\ view_of (req c') = views qs (view_of (req c)) /\ loop (length qs + fuel) c k = loop fuel c' k'
  else loop (length qs + fuel) c k = Done (ret, k').
Proof.
  induction qs as [|q qs IH]; intros c n fuel k Hok Hfit Hne Hc Hn; [done|]. apply Forall_cons in Hok as [Hq Hok]. destruct Hfit as [Hfit1 Hfit]. cbn [serve length Nat.add].
  pose proof (turn_serves only q c (wire qs) n k Hq Hfit1 Hc Hn) as Ht. cbn [conn_loop]. rewrite run. cbn [Z.eqb negb]. unfold conn_turn, receive. cbv zeta in Ht.
  destruct Hc as ((pre & post & Hb & Hp) & Hr & Hrl & Hnp & Hclean & Hlen). pose proof (wire_some q qs Hq). rewrite Hnp, (proj2 (Z.ltb_lt 0 (recv_len c))) by lia. cbn [andb Z.eqb]. rewrite outcome_bind_ret.
  unfold views. cbn [foldl]. fold (views qs). set (v := see (q_fields q) _) in *. destruct (on_request _ _ _ k) as [ret k1]. destruct (ret =? 0) eqn:Er.
  - destruct Ht as (c1 & E1 & Hv & Hstart & Hbytes). rewrite E1, outcome_bind_ret. cbn [Z.eqb]. destruct qs as [|q' qs]; [exists c1; split; [by apply Hstart|done]|].
    rewrite <-Hv in *. apply IH; [done..|apply Hbytes|done]. pose proof (wire_some q' qs (Forall_inv Hok)) as Hw. intros E. rewrite E in Hw. cbn in Hw. lia.
  - destruct Ht as (c1 & E1). rewrite E1, outcome_bind_ret. rewrite Er. done.
Qed.

(** *** Where the connection loses its place *)

(** What the server does with a request, when the connection ends or goes on. *)
Definition server_returns (ret : Z) (served : http_request_t -> list Z -> K -> K) : Prop :=
  forall r (mem : list Z) k, http_server_main srv r mem stack k = Done (ret, served r mem k).

(** The body of a request that has not arrived yet is not waited for: the command
    runs without it, and what arrives next is parsed as a new request. *)
Theorem late_body_is_a_request (served : http_request_t -> list Z -> K -> K) (keeps : server_returns 0 served) h effect f cl c n k :
  head_ok h effect f -> v_length (see f (view_of (req c))) = cl -> 0 <= cl < 2 ^ 31 -> at_bytes c h n -> Z.of_nat n < 2 ^ 31 ->
  exists r c', content_length r = cl /\ rest_len r = 0 /\ parse_turn srv max_packet_size stack c k = Done (Continue 0 c' (served r (buf c) k)) /\ at_start c' n.
Proof.
  intros Hh Hlength Hcl Hat Hn. rewrite <-(app_nil_r h) in Hat. destruct (turn_parsed _ _ _ c [] n k Hh Hat Hn) as (r1 & Hc1 & Hview & _ & Hrest & E). rewrite <-Hview in Hlength. cbn [v_length view_of] in Hlength.
  destruct Hat as ((pre & post & Hb & Hp) & Hr & Hrl & Hnp & Hc & Hlen). pose proof Hlen as Hlen'. rewrite Hb, !length_app in Hlen'. rewrite length_app in Hr. cbn [length] in Hr.
  rewrite keeps, outcome_bind_ret in E. cbn [fst snd Z.eqb negb] in E. unfold next_request in E. cbn [parse_p nparsed req content_length recv_p buf] in E.
  rewrite Hlength, wrap_u_id, wrap_s_id, (proj2 (Z.leb_le _ 0)) in E by (unfold in_u, in_s; lia). rewrite outcome_bind_ret in E.
  exists r1, (Conn (buf c) 0 0 0 0 r1). split; [done|]. split; [done|]. split; [exact E|]. by repeat (split; [done|]).
Qed.

(** A head without a Content-Length header is served with the length of an earlier
    request: as many bytes behind the head are taken for its body, and the requests that
    follow have lost them. *)
Theorem stale_length_skips (served : http_request_t -> list Z -> K -> K) (keeps : server_returns 0 served) h effect f c (l : list Z) n k :
  head_ok h effect f -> f_length f = None -> 0 <= content_length (req c) < Z.of_nat (length l) -> at_bytes c (h ++ l) n -> Z.of_nat n < 2 ^ 31 ->
  exists r c', content_length r = content_length (req c) /\ parse_turn srv max_packet_size stack c k = Done (Continue 0 c' (served r (buf c) k)) /\
    at_bytes c' (drop (Z.to_nat (content_length (req c))) l) n.
Proof.
  intros Hh Hf Hcl Hat Hn. destruct (turn_parsed _ _ _ c l n k Hh Hat Hn) as (r1 & Hc1 & Hview & _ & _ & E).
  assert (Hlength : content_length r1 = content_length (req c)) by (apply (f_equal v_length) in Hview; cbn in Hview; by rewrite Hf in Hview). set (m := content_length (req c)) in *.
  destruct Hat as ((pre & post & Hb & Hp) & Hr & Hrl & Hnp & Hc & Hlen). pose proof Hlen as Hlen'. rewrite Hb, !length_app in Hlen'. rewrite length_app in Hr.
  rewrite keeps, outcome_bind_ret in E. cbn [fst snd Z.eqb negb] in E. set (c1 := Conn _ _ _ _ _ r1) in E. set (rest := drop (Z.to_nat m) l).
  assert (Hrest : length rest = (length l - Z.to_nat m)%nat) by (unfold rest; by rewrite length_drop).
  destruct (next_request_ok c1 rest n Hn) as (c' & E' & _ & _ & H2); [|exact Hrl|exact Hc1|exact Hlen|].
  - exists (pre ++ h ++ take (Z.to_nat m) l), post. cbn. rewrite Hlength, wrap_u_id, wrap_s_id by (unfold in_u, in_s; lia).
    rewrite Hb, <-!app_assoc, !length_app, length_take. unfold rest. split; [do 2 f_equal; by rewrite app_assoc, take_drop|]. rewrite Hr. unfold rest in Hrest. rewrite Hrest. lia.
  - exists r1, c'. rewrite E, E', outcome_bind_ret. split; [done|]. split; [done|]. apply H2. intros E0. rewrite E0 in Hrest. cbn in Hrest. lia.
Qed.

(** A content length of minus the length of the head, as a 64-bit number, puts the
    connection back to the start of the request: it is served again and again, and the
    loop does not end. *)
Theorem negative_length_repeats (run : running) (served : http_request_t -> list Z -> K -> K) (keeps : server_returns 0 served) h effect f c (l : list Z) n k :
  head_ok h effect f -> f_length f = Some (2 ^ 64 - Z.of_nat (length h)) -> at_bytes c (h ++ l) n -> Z.of_nat n < 2 ^ 31 -> parse_p c <= max_packet_size ->
  forall fuel, loop fuel c k = NoFuel.
Proof.
  intros Hh Hf Hat Hn Hm fuel. revert c Hat Hm k. induction fuel as [|fuel IH]; intros c Hat Hm k; cbn [conn_loop]; rewrite run; [done|]. cbn [Z.eqb negb].
  destruct (turn_parsed _ _ _ c l n k Hh Hat Hn) as (r1 & Hc1 & Hview & _ & _ & E).
  assert (Hlength : content_length r1 = 2 ^ 64 - Z.of_nat (length h)) by (apply (f_equal v_length) in Hview; cbn in Hview; by rewrite Hf in Hview). pose proof Hat as ((pre & post & Hb & Hp) & Hr & Hrl & Hnp & Hc & Hlen).
  pose proof Hlen as Hlen'. rewrite Hb, !length_app in Hlen'. rewrite length_app in Hr. pose proof (head_some _ _ _ Hh) as Hne. assert (0 < length h)%nat by (destruct h; [done|cbn; lia]).
  rewrite keeps, outcome_bind_ret in E. cbn [fst snd Z.eqb negb] in E. unfold next_request in E. cbn [parse_p nparsed req content_length recv_p recv_len buf] in E.
  rewrite Hlength in E. assert (E0 : i64 (u64 (Z.of_nat (length h) + (2 ^ 64 - Z.of_nat (length h)))) = 0) by (replace (Z.of_nat (length h) + (2 ^ 64 - Z.of_nat (length h))) with (2 ^ 64) by lia; reflexivity).
  rewrite E0, Z.add_0_r, (proj2 (Z.leb_gt _ 0)), (proj2 (Z.ltb_ge max_packet_size _)), outcome_bind_ret in E by lia.
  unfold conn_turn, receive. rewrite Hnp, (proj2 (Z.ltb_lt 0 (recv_len c))) by lia. cbn [andb Z.eqb]. rewrite outcome_bind_ret, E, outcome_bind_ret. cbn [Z.eqb].
  apply IH; [|done]. split; [by exists pre, post|]. split; [rewrite length_app; cbn; lia|]. by repeat (split; [done|]).
Qed.

(** The state after the first part of a head. *)
Definition half_read c (h1 : list Z) r1 : conn :=
  Conn (h1 ++ drop (length h1) (buf c)) 0 (Z.of_nat (length h1)) (Z.of_nat (length h1)) (Z.of_nat (length h1)) (set_parsed (status r1) (Z.of_nat (length h1)) (headers_num r1) r1).

Lemma finish_says r : clean r -> status r <> http_request_error -> http_request_finish r = if http_request_first_final <=? status r then 1 else 0.
Proof. intros [He _] Hs. unfold http_request_finish, http_request_has_error, http_request_is_finished. by rewrite He, (proj2 (Z.eqb_neq _ _)). Qed.

Lemma first_part h1 c n r1 k k1 :
  at_start c n -> Z.of_nat n < 2 ^ 31 -> 0 < Z.of_nat (length h1) <= Z.of_nat n -> recv 0 (Z.of_nat n) k = (Z.of_nat (length h1), h1, k1) ->
  exec (http_request_init (req c)) h1 = (r1, Z.of_nat (length h1)) -> clean r1 -> nread r1 = 0 -> status r1 <> http_request_error -> status r1 < http_request_first_final ->
  conn_turn srv max_packet_size stack c k = Done (Continue 0 (half_read c h1 r1) k1).
Proof.
  intros (Hp & Hr & Hrl & Hnp & Hc & Hlen) Hn Hsize R1 X1 C1 N1 S1 F1. unfold conn_turn, receive. rewrite Hnp, Hrl, Hlen. cbn [Z.ltb Z.compare andb Z.eqb].
  rewrite Z.sub_0_r, (proj2 (Z.leb_gt _ 0)), R1 by lia. rewrite (proj2 (Z.eqb_neq _ 0)), (proj2 (Z.ltb_ge _ 0)) by lia. rewrite Hr, (store_front _ _ _ eq_refl), !outcome_bind_ret by lia.
  rewrite !Z.add_0_l, wrap_s_id by (unfold in_s; lia). set (post := drop (length h1) (buf c)).
  unfold parse_turn. cbn [recv_p parse_p buf nparsed req recv_len]. rewrite Hp, Z.sub_0_r, (proj2 (Z.ltb_ge _ 0)), Nat2Z.id by lia.
  assert (Hload : load_bytes (h1 ++ post) 0 (length h1) = Done h1) by exact (load_piece [] h1 post). rewrite Hload, outcome_bind_ret. cbn [Z.eqb].
  unfold http_request_parse. rewrite (wrap_u_id 64 0), (proj2 (Z.ltb_ge _ 0)) by (unfold in_u; lia). change (drop (Z.to_nat 0) h1) with h1. rewrite X1, N1, !Z.add_0_l.
  cbn [nread set_parsed]. rewrite !(wrap_u_id 64), wrap_s_id by (rewrite ?wrap_u_id; unfold in_u, in_s; lia).
  rewrite finish_says by done. cbn [status set_parsed]. by rewrite (proj2 (Z.leb_gt _ _)).
Qed.

Lemma second_part (served : http_request_t -> list Z -> K -> K) (ends : server_returns 1 served) h1 x (l2 : nat) c n r1 r2 k1 k2 :
  length (buf c) = n -> Z.of_nat n < 2 ^ 31 -> (0 < length h1)%nat -> (0 < l2 <= length x)%nat -> Z.of_nat (length h1 + length x) <= Z.of_nat n ->
  recv 0 (Z.of_nat n - Z.of_nat (length h1)) k1 = (Z.of_nat (length x), x, k2) ->
  exec (set_parsed (status r1) (Z.of_nat (length h1)) (headers_num r1) r1) x = (r2, Z.of_nat l2) ->
  clean r2 -> nread r2 = Z.of_nat (length h1) -> status r2 <> http_request_error -> http_request_first_final <= status r2 ->
  exists r (mem : list Z) c2, conn_turn srv max_packet_size stack (half_read c h1 r1) k1 = Done (Quit 1 c2 (served r mem k2)) /\ take (length h1 + length x) mem = h1 ++ x /\
    rest_data r = 2 * Z.of_nat (length h1) + Z.of_nat l2 /\ rest_len r = u64 (Z.of_nat (length x) - Z.of_nat l2 - Z.of_nat (length h1)).
Proof.
  intros Hlen Hn L1 L2 Hsize R2 X2 C2 N2 S2 F2. unfold conn_turn, receive, half_read. cbn [recv_len nparsed buf recv_p parse_p req].
  rewrite (proj2 (Z.eqb_neq _ 0)), andb_false_r by lia. set (post := drop (length h1) (buf c)). assert (Hpost : (length post = n - length h1)%nat) by (subst post; rewrite length_drop; lia).
  rewrite length_app, Hpost. replace (Z.of_nat (length h1 + (n - length h1))) with (Z.of_nat n) by lia.
  rewrite (proj2 (Z.leb_gt _ 0)), R2 by lia. rewrite (proj2 (Z.eqb_neq _ 0)), (proj2 (Z.ltb_ge _ 0)) by lia.
  assert (Es : store_bytes (h1 ++ post) (Z.of_nat (length h1)) x = Done (h1 ++ x ++ drop (length x) post)).
  { rewrite <-(take_drop (length x) post) at 1. apply store_piece. rewrite length_take. lia. }
  rewrite Es, !outcome_bind_ret. unfold parse_turn. cbn [recv_p parse_p buf nparsed req recv_len]. rewrite Z.sub_0_r, (proj2 (Z.ltb_ge _ 0)) by lia.
  assert (Hload2 : load_bytes (h1 ++ x ++ drop (length x) post) 0 (length h1 + length x) = Done (h1 ++ x)).
  { rewrite app_assoc, <-length_app. exact (load_piece [] (h1 ++ x) (drop (length x) post)). }
  replace (Z.to_nat (Z.of_nat (length h1) + Z.of_nat (length x))) with (length h1 + length x)%nat by lia. rewrite Hload2, outcome_bind_ret. rewrite (proj2 (Z.eqb_neq _ 0)) by lia.
  unfold http_request_parse. rewrite (wrap_u_id 64 (Z.of_nat (length h1))), (proj2 (Z.ltb_ge _ _)), Nat2Z.id, drop_app_length by (unfold in_u; rewrite ?length_app; lia). rewrite X2, N2.
  cbn [nread set_parsed]. rewrite !(wrap_u_id 64), wrap_s_id by (rewrite ?wrap_u_id; unfold in_u, in_s; lia). set (r2' := set_parsed _ _ _ r2).
  assert (Ef2 : http_request_finish r2' = 1) by (rewrite finish_says by done; cbn; by rewrite (proj2 (Z.leb_le _ _))).
  rewrite Ef2. cbn [Z.eqb Pos.eqb negb]. set (r3 := set_rest _ _ r2'). assert (Ews : (websocket r3 =? 1) = false) by (cbn; by rewrite (proj2 C2)). rewrite Ews, ends, outcome_bind_ret. cbn [fst snd Z.eqb negb].
  eexists r3, _, _. split; [reflexivity|]. split; [rewrite app_assoc, <-length_app; apply take_app_length|]. subst r3. cbn [rest_data rest_len set_rest]. rewrite !i64_id by lia. split; [lia|f_equal; lia].
Qed.

(** When a head arrives in two parts, the length of the first part is counted twice:
    the command is told that the body starts that many bytes behind its true start. *)
Theorem split_head_shifts_body (run : running) (served : http_request_t -> list Z -> K -> K) (ends : server_returns 1 served) h1 h2 (rest : list Z) c n r1 r2 k k1 k2 :
  at_start c n -> Z.of_nat n < 2 ^ 31 -> h1 <> [] -> h2 <> [] -> Z.of_nat (length h1 + length (h2 ++ rest)) <= Z.of_nat n ->
  recv 0 (Z.of_nat n) k = (Z.of_nat (length h1), h1, k1) ->
  recv 0 (Z.of_nat n - Z.of_nat (length h1)) k1 = (Z.of_nat (length (h2 ++ rest)), h2 ++ rest, k2) ->
  exec (http_request_init (req c)) h1 = (r1, Z.of_nat (length h1)) -> clean r1 -> nread r1 = 0 -> status r1 <> http_request_error -> status r1 < http_request_first_final ->
  exec (set_parsed (status r1) (Z.of_nat (length h1)) (headers_num r1) r1) (h2 ++ rest) = (r2, Z.of_nat (length h2)) ->
  clean r2 -> nread r2 = Z.of_nat (length h1) -> status r2 <> http_request_error -> http_request_first_final <= status r2 ->
  exists r (mem : list Z), loop 2 c k = Done (1, served r mem k2) /\ take (length h1 + length (h2 ++ rest)) mem = h1 ++ h2 ++ rest /\
    rest_data r = 2 * Z.of_nat (length h1) + Z.of_nat (length h2) /\ rest_len r = u64 (Z.of_nat (length rest) - Z.of_nat (length h1)).
Proof.
  intros Hat Hn Hne1 Hne2 Hsize R1 R2 X1 C1 N1 S1 F1 X2 C2 N2 S2 F2.
  assert (L1 : (0 < length h1)%nat) by (destruct h1; [done|cbn; lia]). assert (L2 : (0 < length h2)%nat) by (destruct h2; [done|cbn; lia]).
  pose proof (first_part h1 c n r1 k k1 Hat Hn ltac:(lia) R1 X1 C1 N1 S1 F1) as E1. destruct Hat as (_ & _ & _ & _ & _ & Hlen).
  destruct (second_part served ends h1 (h2 ++ rest) (length h2) c n r1 r2 k1 k2 Hlen Hn L1 ltac:(rewrite length_app; lia) Hsize R2 X2 C2 N2 S2 F2) as (r & mem & c2 & E2 & Hmem & Hd & Hl).
  exists r, mem. cbn [conn_loop]. rewrite !run. cbn [Z.eqb negb]. rewrite E1, outcome_bind_ret. cbn [Z.eqb]. rewrite run. cbn [Z.eqb negb]. rewrite E2, outcome_bind_ret. split; [done|]. split; [exact Hmem|]. split; [exact Hd|].
  rewrite Hl, length_app. f_equal. lia.
Qed.

(** *** What the peer sends *)

(** The batches of requests that calls of recv return; then the peer closes. *)
Context (inbox : K -> list (list request)) (arrive : K -> K).

Definition delivers (n : nat) : Prop := forall k, match inbox k with
  | b :: bs => (length (wire b) <= n)%nat -> recv 0 (Z.of_nat n) k = (Z.of_nat (length (wire b)), wire b, arrive k) /\ inbox (arrive k) = bs
  | [] => recv 0 (Z.of_nat n) k = (0, [], arrive k) end.
Definition inbox_kept : Prop := forall p (ct : Z) b k, inbox (on_request p ct b k).2 = inbox k.

Fixpoint serve_batches (bs : list (list request)) v k : Z * K :=
  match bs with
  | [] => (0, arrive k)
  | b :: bs => let '(ret, k) := serve b v (arrive k) in if ret =? 0 then serve_batches bs (views b v) k else (ret, k)
  end.

Lemma serve_inbox (kept : inbox_kept) qs v k : inbox (serve qs v k).2 = inbox k.
Proof.
  revert v k. induction qs as [|q qs IH]; intros v k; [done|]. cbn [serve]. set (v' := see _ v). pose proof (kept (v_path v') (v_connection v') (q_body q) k) as H. destruct (on_request _ _ _ k) as [ret k1]. cbn in H.
  destruct (ret =? 0); [by rewrite IH|done].
Qed.

Lemma lengths_fit_app qs1 qs2 v : lengths_fit (qs1 ++ qs2) v -> lengths_fit qs1 v /\ lengths_fit qs2 (views qs1 v).
Proof. revert v. induction qs1 as [|q qs1 IH]; intros v; cbn [app lengths_fit]; [done|]. intros [H1 H2]. apply IH in H2 as [H2 H3]. done. Qed.

Lemma batches_served (run : running) (only : server_only) (kept : inbox_kept) n (deliver : delivers n) bs : forall c extra k,
  inbox k = bs -> Forall (fun b => b <> [] /\ Forall request_ok b /\ (length (wire b) <= n)%nat) bs -> lengths_fit (mjoin bs) (view_of (req c)) -> at_start c n -> 0 < Z.of_nat n < 2 ^ 31 ->
  loop (length (mjoin bs) + S extra) c k = Done (serve_batches bs (view_of (req c)) k).
Proof.
  induction bs as [|b bs IH]; intros c extra k Hi Hok Hfit Hc Hn; pose proof (deliver k) as Hd; rewrite Hi in Hd; destruct (Hc) as (Hp & Hr & Hrl & Hnp & Hclean & Hlen).
  - cbn [mjoin list_join length Nat.add conn_loop serve_batches]. rewrite run. cbn [Z.eqb negb]. unfold conn_turn, receive. rewrite Hnp, Hrl, Hlen. cbn [Z.ltb Z.compare andb Z.eqb].
    rewrite Z.sub_0_r, (proj2 (Z.leb_gt _ 0)), Hd by lia. cbn [Z.eqb]. by rewrite !outcome_bind_ret.
  - apply Forall_cons in Hok as [(Hb & Hq & Hsize) Hok]. destruct (Hd Hsize) as [Hrecv Hi1]. change (mjoin (b :: bs)) with (b ++ mjoin bs) in *. apply lengths_fit_app in Hfit as [Hfit1 Hfit]. rewrite length_app. cbn [serve_batches].
    destruct b as [|q qs]; [done|]. pose proof (Forall_inv Hq) as Hq1. pose proof (wire_some q qs Hq1) as Hw.
    set (c1 := Conn (wire (q :: qs) ++ drop (length (wire (q :: qs))) (buf c)) 0 (0 + Z.of_nat (length (wire (q :: qs)))) (i32 (0 + Z.of_nat (length (wire (q :: qs))))) 0 (req c)).
    assert (Hc1 : at_bytes c1 (wire (q :: qs)) n).
    { split; [by eexists [], _|]. split; [done|]. split; [cbn [recv_len recv_p c1]; apply wrap_s_id; unfold in_s; lia|]. split; [done|]. split; [done|]. cbn [buf c1]. rewrite length_app, length_drop. lia. }
    assert (E1 : loop (length (q :: qs) + (length (mjoin bs) + S extra)) c k = loop (length (q :: qs) + (length (mjoin bs) + S extra)) c1 (arrive k)).
    { cbn [length Nat.add conn_loop]. rewrite !run. cbn [Z.eqb negb]. f_equal. unfold conn_turn, receive. cbn [recv_len nparsed c1]. rewrite Hnp, Hrl, Hlen. cbn [Z.ltb Z.compare andb Z.eqb].
      rewrite Z.sub_0_r, (proj2 (Z.leb_gt _ 0)), Hrecv by lia. rewrite (proj2 (Z.eqb_neq _ 0)), (proj2 (Z.ltb_ge _ 0)) by lia. rewrite Hr, (store_front _ _ _ eq_refl), outcome_bind_ret by lia.
      rewrite wrap_s_id by (unfold in_s; lia). rewrite (proj2 (Z.ltb_lt 0 _)) by lia. cbn [andb]. rewrite !outcome_bind_ret. f_equal. unfold c1. f_equal; [done|]. by rewrite wrap_s_id by (unfold in_s; lia). }
    pose proof (bytes_served run only (q :: qs) c1 n (length (mjoin bs) + S extra) (arrive k) Hq Hfit1 ltac:(done) Hc1 ltac:(lia)) as Hs. rewrite <-Nat.add_assoc, E1. clear E1. change (req c1) with (req c) in Hs.
    pose proof (serve_inbox kept (q :: qs) (view_of (req c)) (arrive k)) as Hi2. destruct (serve (q :: qs) _ (arrive k)) as [ret k']. cbn [snd] in Hi2. destruct (ret =? 0); [|done].
    destruct Hs as (c' & Hc' & Hv & ->). rewrite <-Hv in *. apply IH; [by rewrite Hi2|done..].
Qed.

End server.
End parser.

(** ** Building responses *)
Module StringBuilderFacts.
Import StringBuilder.
Implicit Types (w l rest : list Z) (b : t).

(** A builder whose bytes [w] are in m_buff, with [rest] behind them. *)
Definition short w rest : t := Builder (w ++ rest) [] (Z.of_nat (length w)).

Lemma contents_short w rest : contents (short w rest) = w.
Proof. unfold contents, size, data, short. cbn [m_len m_buff]. rewrite (proj2 (Z.leb_le 0 _)) by lia. by rewrite Nat2Z.id, take_app_length. Qed.

Lemma append_short w rest l : (length l <= length rest)%nat -> append l (short w rest) = Done (short (w ++ l) (drop (length l) rest)).
Proof.
  intros Hl. unfold append, short, init_size. cbn [m_len m_buff m_str]. rewrite (proj2 (Z.leb_le 0 _)), (proj2 (Z.leb_le _ _)) by (rewrite ?length_app; lia).
  rewrite <-(take_drop (length l) rest) at 1. rewrite store_piece by (rewrite length_take; lia). rewrite outcome_bind_ret, length_app, Nat2Z.inj_add. by rewrite <-!app_assoc.
Qed.

(** Once the bytes do not fit into the builder any more, its string is made of
    the whole buffer: the bytes behind those that were appended, which nobody wrote,
    get into the middle of the result. *)
Theorem overflow_leaks w rest l : (length rest < length l)%nat ->
  exists b, append l (short w rest) = Done b /\ contents b = w ++ rest ++ l.
Proof.
  intros Hl. unfold append, short, init_size. cbn [m_len m_buff m_str]. rewrite (proj2 (Z.leb_le 0 _)), (proj2 (Z.leb_gt _ _)) by (rewrite ?length_app; lia).
  eexists. split; [reflexivity|]. unfold contents, size, data. cbn [m_len m_str Z.leb Z.compare app]. rewrite Nat2Z.id, take_ge by done. by rewrite <-app_assoc.
Qed.

(** A builder that fits its bytes is the list of them: append and append_ch add at
    the end. *)
Theorem append_appends w rest l c : (length l < length rest)%nat ->
  exists b, append l (short w rest) = Done b /\ contents b = w ++ l /\ exists b', append_ch c b = Done b' /\ contents b' = w ++ l ++ [c].
Proof.
  intros Hl. rewrite append_short by lia. eexists. split; [reflexivity|]. rewrite contents_short. split; [done|].
  unfold append_ch. set (b := short _ _). assert (Hb : m_len b = Z.of_nat (length (w ++ l))) by done. rewrite Hb, (proj2 (Z.leb_le 0 _)) by lia. unfold init_size. cbn [b short m_buff m_str].
  rewrite (proj2 (Z.ltb_lt _ _)) by (rewrite !length_app, length_drop; lia). destruct (drop (length l) rest) as [|z rest'] eqn:Ed; [apply (f_equal length) in Ed; rewrite length_drop in Ed; cbn in Ed; lia|].
  change (z :: rest') with ([z] ++ rest'). rewrite store_piece by done. rewrite outcome_bind_ret. eexists. split; [reflexivity|].
  assert (E : Builder ((w ++ l) ++ [c] ++ rest') [] (Z.of_nat (length (w ++ l)) + 1) = short (w ++ l ++ [c]) rest').
  { unfold short. rewrite <-!app_assoc. f_equal. rewrite !length_app. cbn [length]. lia. }
  rewrite E. apply contents_short.
Qed.

(** The number that digits stand for. *)
Definition value l : Z := foldl (fun a d => 10 * a + (d - 48)) 0 l.

Lemma value_app l1 d l2 : value (l1 ++ d :: l2) = value ((l1 ++ [d]) ++ l2).
Proof. by rewrite <-app_assoc. Qed.

Lemma foldl_shift (a : Z) l : foldl (fun a d => 10 * a + (d - 48)) a l = a * 10 ^ Z.of_nat (length l) + value l.
Proof.
  revert a. induction l as [|d l IH]; intros a; [cbn; lia|]. unfold value. cbn [foldl length]. rewrite (IH (10 * a + (d - 48))), (IH (10 * 0 + (d - 48))). rewrite Nat2Z.inj_succ, Z.pow_succ_r by lia. lia.
Qed.

Lemma digits_value fuel n l : 0 <= n < 10 ^ Z.of_nat fuel -> (0 < fuel)%nat -> value (digits fuel n l) = n * 10 ^ Z.of_nat (length l) + value l.
Proof.
  revert n l. induction fuel as [|fuel IH]; intros n l Hn Hf; [lia|]. cbn [digits]. rewrite Nat2Z.inj_succ, Z.pow_succ_r in Hn by lia.
  pose proof (Z.div_mod n 10 ltac:(lia)) as Hdm. pose proof (Z.mod_pos_bound n 10 ltac:(lia)).
  assert (Hcons : value (48 + n mod 10 :: l) = n mod 10 * 10 ^ Z.of_nat (length l) + value l).
  { unfold value at 1. cbn [foldl]. rewrite foldl_shift. f_equal. f_equal. lia. }
  destruct (Z.ltb_spec 0 (n / 10)) as [Hmore|Hend].
  - destruct fuel as [|fuel]; [change (10 ^ Z.of_nat 0) with 1 in Hn; assert (n / 10 = 0) by (apply Z.div_small; lia); lia|].
    rewrite IH by ((split; [lia|apply Z.div_lt_upper_bound; lia]) || lia). rewrite Hcons. cbn [length]. rewrite Nat2Z.inj_succ, Z.pow_succ_r by lia. lia.
  - rewrite Hcons. assert (n / 10 = 0) as Hz by (pose proof (Z.div_pos n 10); lia). rewrite Hz in Hdm. lia.
Qed.

Lemma digits_are_digits fuel n l : 0 <= n -> Forall (fun d => 48 <= d <= 57) l -> Forall (fun d => 48 <= d <= 57) (digits fuel n l).
Proof.
  revert n l. induction fuel as [|fuel IH]; intros n l Hn Hl; [done|]. cbn [digits]. pose proof (Z.mod_pos_bound n 10 ltac:(lia)).
  destruct (0 <? n / 10); [apply IH; [apply Z.div_pos; lia|]|]; constructor; try done; lia.
Qed.

(** Append(unsigned int) adds the decimal digits of its number. *)
Theorem append_uint_decimal n w rest : 0 <= n < 2 ^ 32 -> (10 <= length rest)%nat ->
  exists b d, append_uint n (short w rest) = Done b /\ contents b = w ++ d /\ value d = n /\ Forall (fun d => 48 <= d <= 57) d.
Proof.
  intros Hn Hr. unfold append_uint. assert (Hl : (length (digits 10 n []) <= 10)%nat).
  { assert (H : forall fuel n l, (length (digits fuel n l) <= fuel + length l)%nat).
    { induction fuel as [|fuel IH]; intros m l; cbn [digits]; [done|]. destruct (0 <? m / 10); [rewrite IH|]; cbn [length]; lia. }
    specialize (H 10%nat n []). cbn in H |- *. exact H. }
  rewrite append_short by lia. eexists _, _. split; [reflexivity|]. rewrite contents_short. split; [done|]. split; [|by apply digits_are_digits; [lia|]].
  rewrite digits_value by (change (10 ^ Z.of_nat 10) with 10000000000; lia). change (value []) with 0. cbn [length Z.of_nat]. lia.
Qed.
End StringBuilderFacts.

(** ** Responses *)
Section responses.
Context {K : Type} (writev : list Z -> list Z -> K -> Z * K).
Import StringBuilder StringBuilderFacts.
Implicit Types (w l rest : list Z) (resp : http_response_t).

Definition status_line resp : list Z :=
  if http_code resp =? 200 then if keepalive resp =? 0 then s_http_200_ok_close else s_http_200_ok_keepalive
  else text "HTTP/1.1 " ++ decimal (http_code resp) ++ crlf.
Definition response_data resp : list Z := default (body resp) (rdata resp).

(** The head of a response. *)
Definition response_head resp : list Z :=
  status_line resp ++ (headers resp ≫= fun h => h ++ crlf) ++ s_content_len_name ++ digits 10 (u32 (Z.of_nat (length (response_data resp)))) [] ++ crlf ++ crlf.

Lemma headers_short hs w rest : (length (hs ≫= fun h : list Z => h ++ crlf) <= length rest)%nat ->
  foldl (fun o h => out ← o; out ← append h out; append crlf out) (Done (short w rest)) hs =
  Done (short (w ++ (hs ≫= fun h => h ++ crlf)) (drop (length (hs ≫= fun h => h ++ crlf)) rest)).
Proof.
  revert w rest. induction hs as [|h hs IH]; intros w rest Hl; [cbn; by rewrite app_nil_r|]. cbn [foldl]. rewrite bind_cons in *. rewrite !length_app in Hl.
  rewrite outcome_bind_ret, append_short, outcome_bind_ret by lia. rewrite append_short by (rewrite length_drop; lia). rewrite drop_drop.
  rewrite IH by (rewrite length_drop; lia). rewrite drop_drop, !length_app, <-!app_assoc. done.
Qed.

(** A response whose head fits into the builder goes out as its status line, its
    headers, the length of its data in decimal and an empty line, and then the data, in
    one writev. *)
Theorem response_written resp (stack : list Z) k : (length (response_head resp) <= length stack)%nat ->
  output_response writev resp stack k = Done (writev (response_head resp) (response_data resp) k).
Proof.
  intros Hl. unfold output_response. change (new stack) with (short [] stack). unfold response_head in *. rewrite !length_app in Hl.
  set (o := if http_code resp =? 200 then _ else _). assert (Eo : o = Done (short (status_line resp) (drop (length (status_line resp)) stack))).
  { subst o. unfold status_line in *. destruct (http_code resp =? 200); by rewrite append_short by lia. }
  clearbody o. subst o. rewrite outcome_bind_ret, headers_short, outcome_bind_ret by (rewrite length_drop; lia).
  rewrite append_short, outcome_bind_ret by (rewrite !length_drop; lia). fold (response_data resp). unfold append_uint.
  rewrite append_short, outcome_bind_ret by (rewrite !length_drop; lia). rewrite append_short, outcome_bind_ret by (rewrite !length_drop, ?length_app; lia).
  rewrite contents_short, <-!app_assoc. done.
Qed.

(** Response_format keeps a text of less than 1024 bytes; of a longer one the last
    byte is a zero. *)
Theorem response_format_truncates code (l : list Z) resp :
  body (response_format code l resp) = if Z.of_nat (length l) <? 1024 then l else take (length l - 1) l ++ [0].
Proof.
  unfold response_format, vsnprintf. cbn [body response_to]. rewrite Nat2Z.id. destruct (Z.ltb_spec (Z.of_nat (length l)) 1024) as [Hs|Hs].
  - rewrite (proj2 (Z.ltb_ge _ _)) by lia. rewrite (take_ge l) by lia. apply take_app_length.
  - assert (Hp : (if 1024 <? Z.of_nat (length l) then take (Z.to_nat (Z.of_nat (length l) - 1)) l ++ [0] else take (Z.to_nat (1024 - 1)) l ++ [0]) = take (length l - 1) l ++ [0]).
    { destruct (Z.ltb_spec 1024 (Z.of_nat (length l))); do 2 f_equal; lia. }
    rewrite Hp, take_ge; [done|]. rewrite length_app, length_take. cbn [length]. lia.
Qed.
End responses.

(** ** Commands *)
Section commands.
Context {K : Type}.
Implicit Types (srv : http_server_t (K := K)) (c : http_callback (K := K)).

(** A command is found under its name once it is registered, a second one with the
    name is refused, and another name finds the default. *)
Theorem http_commands_found srv name c :
  (cmd_maps srv !! name = None -> exists srv', registry_cmd name c srv = (0, srv') /\ get_http_cmd srv' name = Some c /\
     (forall other, other <> name -> get_http_cmd srv' other = get_http_cmd srv other) /\ forall c', registry_cmd name c' srv' = (-1, srv')) /\
  (cmd_maps srv !! name <> None -> registry_cmd name c srv = (-1, srv)) /\
  (cmd_maps srv !! name = None -> get_http_cmd srv name = default_cmd srv /\ get_http_cmd (registry_default_cmd c srv).2 name = Some c).
Proof.
  unfold registry_cmd, get_http_cmd. split; [|split].
  - intros ->. eexists. split; [reflexivity|]. cbn [cmd_maps set_cmds default_cmd]. rewrite lookup_insert_eq. split; [done|]. split; [|done].
    intros other Hne. by rewrite lookup_insert_ne.
  - by destruct (cmd_maps srv !! name).
  - intros E. cbn. by rewrite E.
Qed.
End commands.

(** ** Examples *)
Section examples.
Import StringBuilder StringBuilderFacts.

(** A parser of heads of three bytes: the path, the length of the body, where 255 is
    what atoi makes of 4294967293, and a newline. *)
Definition toy_length (n : Z) : Z := if n =? 255 then 2 ^ 64 - 3 else n.
Definition toy_set (st n : Z) (p : list Z) (r : http_request_t) : http_request_t :=
  Request st (nread r) (headers_num r) (err_too_many_header r) n 1 (websocket r) p (sec_key r) (rest_data r) (rest_len r).
Definition toy_exec (r : http_request_t) (l : list Z) : http_request_t * Z :=
  if status r =? 1 then match l with a :: n :: 10 :: _ => (toy_set 5 (toy_length n) [a] r, 3) | [a] => (toy_set 2 0 [a] r, 1) | _ => (toy_set 0 0 [] r, 0) end
  else match l with n :: 10 :: _ => (toy_set 5 (toy_length n) (path r) r, 2) | _ => (toy_set 0 0 [] r, 0) end.
Definition toy_fields (a n : Z) : head_fields := Fields (Some [a]) (Some (toy_length n)) true.

Lemma toy_head a n : head_ok 1 5 0 toy_exec [a; n; 10] (toy_set 5 (toy_length n) [a]) (toy_fields a n).
Proof.
  split; [done| |].
  - intros r rest _ Hs. unfold toy_exec. by rewrite Hs.
  - intros r [H1 H2] _. cbn. by repeat split.
Qed.

(** A parser of whole heads: the lines up to an empty one, the path between the spaces of
    the first line, and the headers that the server looks at, as http_parser.rl sets
    their fields. *)
Fixpoint cut_line (l : list Z) : option (list Z * list Z) :=
  match l with
  | [] => None
  | c :: l' =>
      if (c =? 13) && bool_decide (hd_error l' = Some 10) then Some ([], tail l')
      else match cut_line l' with None => None | Some (x, rest) => Some (c :: x, rest) end
  end.
Fixpoint head_lines (fuel : nat) (l : list Z) : option (list (list Z)) :=
  match fuel with
  | O => None
  | S fuel => match cut_line l with None => None | Some ([], _) => Some [] | Some (x, rest) => match head_lines fuel rest with None => None | Some xs => Some (x :: xs) end end
  end.
Fixpoint until (c : Z) (l : list Z) : list Z := match l with [] => [] | d :: l => if d =? c then [] else d :: until c l end.
Definition after (c : Z) (l : list Z) : list Z := drop (S (length (until c l))) l.
Definition header_value (name line : list Z) : option (list Z) :=
  if bool_decide (take (length name) line = name) then Some (drop (length name) line) else None.

Definition read_header (r : http_request_t) (line : list Z) : http_request_t :=
  let set cl ct ws := Request (status r) (nread r) (headers_num r + 1) (err_too_many_header r) cl ct ws (path r) (sec_key r) (rest_data r) (rest_len r) in
  match header_value (text "Content-Length: ") line, header_value (text "Connection: ") line, header_value (text "Upgrade: ") line with
  | Some v, _, _ => set (StringBuilderFacts.value v) (connection r) (websocket r)
  | _, Some (c :: _), _ => set (content_length r) (if (c =? 75) || (c =? 107) then 1 else connection r) (websocket r)
  | _, _, Some v => set (content_length r) (connection r) (if bool_decide (v = text "websocket") then 1 else websocket r)
  | _, _, _ => set (content_length r) (connection r) (websocket r)
  end.
Definition read_lines (lines : list (list Z)) (r : http_request_t) : http_request_t :=
  let r := Request 5 (nread r) (headers_num r) (err_too_many_header r) (content_length r) (connection r) (websocket r) (until 32 (after 32 (default [] (hd_error lines)))) (sec_key r) (rest_data r) (rest_len r) in
  foldl read_header r (tail lines).
Definition http_exec (r : http_request_t) (l : list Z) : http_request_t * Z :=
  match head_lines 100 l with
  | Some lines => (read_lines lines r, Z.of_nat (length (lines ≫= fun x => x ++ crlf) + 2))
  | None => (toy_set 0 0 [] r, 0)
  end.

(** A head with its empty line. *)
Definition head_of (lines : list string) : list Z := (lines ≫= fun x => text x ++ crlf) ++ crlf.
Definition http_request (lines : list string) (b : list Z) (f : head_fields) : request := Req (head_of lines) b (read_lines (text <$> lines)) f.

Definition get_a : request := http_request ["GET /a HTTP/1.1"; "Host: x"]%string [] (Fields (Some (text "/a")) None false).
Definition post_b : request := http_request ["POST /b HTTP/1.1"; "Connection: Keep-Alive"; "Content-Length: 2"]%string [1; 2] (Fields (Some (text "/b")) (Some 2) true).
Definition get_c : request := http_request ["GET /c HTTP/1.1"; "Content-Length: 0"]%string [] (Fields (Some (text "/c")) (Some 0) false).

Lemma http_requests_ok : Forall (request_ok 1 5 0 http_exec) [get_a; post_b; get_c].
Proof.
  repeat (apply Forall_cons; split; [|]); [| | |by apply Forall_nil];
    (split; [done|intros r rest _ _; reflexivity|intros r [H1 H2] _; cbn; by repeat split]).
Qed.

(** The world: the batches to come, and the paths and bodies that were served. *)
Definition world : Type := list (list request) * list (list Z).
Definition log_request (r : http_request_t) (mem : list Z) (k : world) : world :=
  (k.1, k.2 ++ [path r ++ match load_bytes mem (rest_data r) (Z.to_nat (content_length r)) with Done b => b | _ => [] end ++ [connection r]]).
Definition log_cmd : http_callback (K := world) := fun r mem resp k => (0, 0, resp, log_request r mem k).
Definition log_server (client_close : bool) : http_server_t (K := world) := Server ∅ (Some log_cmd) false false client_close 0 0.
Definition toy_stack : list Z := replicate 100 0.
Definition toy_writev (a b : list Z) (k : world) : Z * world := (1, k).
Definition toy_recv (flags n : Z) (k : world) : Z * list Z * world :=
  match k.1 with [] => (0, [], ([], k.2)) | b :: bs => (Z.of_nat (length (wire b)), wire b, (bs, k.2)) end.

Lemma toy_output k : output_response toy_writev init_http_response toy_stack k = Done (1, k).
Proof. reflexivity. Qed.

Lemma log_server_returns close : server_returns toy_writev (log_server close) toy_stack (if close then 0 else 1) log_request.
Proof.
  intros r mem k. unfold http_server_main. cbn [log_server enable_keepalive cmd_maps default_cmd enable_client_close]. rewrite andb_false_r. unfold get_http_cmd. cbn [log_server cmd_maps default_cmd].
  rewrite lookup_empty. cbn [log_cmd Z.eqb]. rewrite toy_output, outcome_bind_ret. by destruct close.
Qed.

Definition log_on_request (p : list Z) (ct : Z) (b : list Z) (k : world) : Z * world := (0, (k.1, k.2 ++ [p ++ b ++ [ct]])).

Lemma log_server_only : server_only toy_writev (log_server true) toy_stack log_on_request.
Proof. intros r mem b k Hb Hlen. rewrite (log_server_returns true). unfold log_request. by rewrite Hlen, Nat2Z.id, Hb. Qed.

Definition zero_request : http_request_t := Request 0 0 0 0 0 0 0 [] [] 0 0.
Definition no_send (flags : Z) (l : list Z) (k : world) : Z * world := (0, k).
Definition no_msg (p : ws_packet_t) (mem : list Z) (s : sender) (k : world) : Z * sender * world := (0, s, k).
Definition no_poll (events t : Z) (s : sender) (k : world) : Z * Z * sender * world := (0, 0, s, k).
Definition zero (k : world) : Z := 0.

(** Four requests in two batches: a GET without a Content-Length, whose length is that of
    the memory the connection starts with, a POST, and two more GETs, the first of which
    says that it has no body; these two are of the kind of connection of the POST. *)
Definition http_batches : list (list request) := [[get_a; post_b]; [get_c; get_a]].


(** A GET without a Content-Length, after a request with a body of two bytes: the bytes 7
    and 8 behind it, the start of the next request, are skipped. *)
Definition after_post (l : list Z) : conn :=
  Conn (l ++ replicate (200 - length l) 0) 0 (Z.of_nat (length l)) (Z.of_nat (length l)) 0 (Request 0 0 0 0 2 0 0 [] [] 0 0).

Lemma stale_length_skips_witness : exists r c', content_length r = 2 /\
  parse_turn 1 5 0 http_exec toy_writev toy_recv no_send zero no_msg no_poll zero None None id (fun _ => []) 0 0 (log_server true) 100 toy_stack (after_post (q_head get_a ++ [7; 8; 9])) ([], []) =
    Done (Continue 0 c' (log_request r (buf (after_post (q_head get_a ++ [7; 8; 9]))) ([], []))) /\ at_bytes c' [9] 200.
Proof.
  pose proof http_requests_ok as Hok. apply Forall_cons in Hok as [Ha _].
  apply (stale_length_skips 1 5 0 http_exec toy_writev toy_recv no_send zero no_msg no_poll zero None None id (fun _ => []) 0 0 (log_server true) 100 toy_stack
    log_request (log_server_returns true) _ _ _ (after_post (q_head get_a ++ [7; 8; 9])) [7; 8; 9] 200 ([], []) Ha).
  - reflexivity.
  - done.
  - split; [by exists [], (replicate (200 - length (q_head get_a ++ [7; 8; 9])) 0)|]. by repeat split.
  - done.
Defined.

(** A connection that has received [l]. *)
Definition received (l : list Z) : conn := Conn (l ++ replicate (16 - length l) 0) 0 (Z.of_nat (length l)) (Z.of_nat (length l)) 0 zero_request.

Lemma received_at l : (length l <= 16)%nat -> at_bytes (received l) l 16.
Proof.
  intros Hl. split; [by exists [], (replicate (16 - length l) 0)|]. repeat (split; [done|]). cbn [received buf]. rewrite length_app, length_replicate. lia.
Qed.

Lemma late_body_is_a_request_witness : exists r c', content_length r = 4 /\ rest_len r = 0 /\
  parse_turn 1 5 0 toy_exec toy_writev toy_recv no_send zero no_msg no_poll zero None None id (fun _ => []) 0 0 (log_server true) 8 toy_stack (received [65; 4; 10]) ([], []) =
    Done (Continue 0 c' (log_request r (buf (received [65; 4; 10])) ([], []))) /\ at_start c' 16.
Proof.
  apply (late_body_is_a_request 1 5 0 toy_exec toy_writev toy_recv no_send zero no_msg no_poll zero None None id (fun _ => []) 0 0 (log_server true) 8 toy_stack
    log_request (log_server_returns true) [65; 4; 10] (toy_set 5 4 [65]) (toy_fields 65 4) 4 (received [65; 4; 10]) 16 ([], [])).
  - apply (toy_head 65 4).
  - reflexivity.
  - lia.
  - apply received_at. cbn. lia.
  - reflexivity.
Defined.

Lemma negative_length_repeats_witness : forall fuel,
  conn_loop 1 5 0 toy_exec toy_writev toy_recv no_send zero zero no_msg no_poll zero None None id (fun _ => []) 0 0 fuel (log_server true) 8 toy_stack (received [65; 255; 10]) ([], []) = NoFuel.
Proof.
  apply (negative_length_repeats 1 5 0 toy_exec toy_writev toy_recv no_send zero zero no_msg no_poll zero None None id (fun _ => []) 0 0 (log_server true) 8 toy_stack
    (fun _ => eq_refl) log_request (log_server_returns true) [65; 255; 10] (toy_set 5 (toy_length 255) [65]) (toy_fields 65 255) _ [] 16).
  - apply (toy_head 65 255).
  - reflexivity.
  - apply received_at. cbn. lia.
  - reflexivity.
  - discriminate.
Defined.

(** The head [65; 2; 10] in two parts, then the body [7; 8]. *)
Definition split_recv (flags n : Z) (k : world) : Z * list Z * world :=
  if bool_decide (k.2 = []) then (1, [65], ([], [[0]])) else (4, [2; 10; 7; 8], ([], [[0]; [0]])).

Lemma split_head_shifts_body_witness : exists r (mem : list Z),
  conn_loop 1 5 0 toy_exec toy_writev split_recv no_send zero zero no_msg no_poll zero None None id (fun _ => []) 0 0 2 (log_server false) 8 toy_stack (Conn (replicate 16 0) 0 0 0 0 zero_request) ([], []) =
    Done (1, log_request r mem ([], [[0]; [0]])) /\ take 5 mem = [65; 2; 10; 7; 8] /\ rest_data r = 4 /\ rest_len r = 1.
Proof.
  apply (split_head_shifts_body 1 5 0 toy_exec toy_writev split_recv no_send zero zero no_msg no_poll zero None None id (fun _ => []) 0 0 (log_server false) 8 toy_stack
    (fun _ => eq_refl) log_request (log_server_returns false) [65] [2; 10] [7; 8] (Conn (replicate 16 0) 0 0 0 0 zero_request) 16
    (toy_set 2 0 [65] (http_request_init 1 zero_request)) (toy_set 5 2 [65] (set_parsed 2 1 0 (toy_set 2 0 [65] (http_request_init 1 zero_request)))) ([], []) ([], [[0]]) ([], [[0]; [0]])).
  all: try reflexivity; try discriminate.
  all: by repeat split.
Defined.

Lemma append_appends_witness : exists b, append [1; 2] (short [0] [9; 9; 9]) = Done b /\ contents b = [0; 1; 2] /\ exists b', append_ch 3 b = Done b' /\ contents b' = [0; 1; 2; 3].
Proof. apply (append_appends [0] [9; 9; 9] [1; 2] 3). cbn. lia. Defined.

Lemma overflow_leaks_witness : exists b, append [1; 2] (short [0] [9]) = Done b /\ contents b = [0; 9; 1; 2].
Proof. apply (overflow_leaks [0] [9] [1; 2]). cbn. lia. Defined.

Lemma append_uint_decimal_witness : exists b d, append_uint 1205 (short [] (replicate 16 0)) = Done b /\ contents b = [] ++ d /\ value d = 1205 /\ Forall (fun d => 48 <= d <= 57) d.
Proof. apply (append_uint_decimal 1205 [] (replicate 16 0)); [lia|cbn; lia]. Defined.

Definition ok_response : http_response_t := Response 200 1 [text "X: y"] [104; 105] None.

Lemma response_written_witness : output_response toy_writev ok_response (replicate 100 0) ([], []) = Done (1, ([], [])).
Proof. apply (response_written toy_writev ok_response (replicate 100 0) ([], [])). vm_compute. lia. Defined.
End examples.
